(* ===== verification/_CoqProject ===== *)
-Q . S2P
Prelude.v
JsCollections.v
JsNumber.v
JsDate.v
Json.v
CoreEntities.v
EventLives.v
CoreSnapshot.v
Postgres.v
Seeding.v
Tournament.v
GroupDraw.v
Bracket.v
Planner.v
KnockoutSync.v
KnockoutSeeding.v
Races.v
OfficialH2H.v
Structure.v
OfficialPublish.v
LiveBonus.v
MutationScope.v
Redis.v
DataPublication.v
Obligations.v
Admission.v
Conditions.v
LiveLifecycle.v
WorkerPool.v
EntrySync.v
EntryPicks.v
PicksProbe.v
SyncOperations.v
DataOutbox.v
FplStore.v
CorePersist.v
LiveFacts.v
LiveSnapshot.v
FplHistory.v
CorePublish.v
EntryResults.v
EventResults.v
CronTime.v
SchedulerPlans.v
