(* ===== verification/Prelude.v ===== *)
(** * letletme_data: a verification library

    The repository is the data service of a Fantasy Premier League site.  Workers read the FPL API,
    write PostgreSQL tables, publish versioned JSON in Redis, and run user tournaments: an entry
    list is seeded and dealt to groups or a knockout bracket, gameweeks are scored, winners advance.
    This library models the core snapshot of a season and the live snapshots of its gameweeks, from
    the payloads to the tables; the tournament engine; the lock protocol its jobs share; the live
    bonus rules; the publication store; and the jobs around them: the ledger of scheduled
    obligations, the admission of FPL requests, the match-day conditions and live lifecycle, the
    worker pool, and the synchronisation of entries and picks.  Each is modelled as functions and
    step relations, and the library proves what it promises.

    ** How the parts fit

    A bootstrap payload and a fixture list become the entities of a season ([CoreEntities]) and are
    accepted as one complete snapshot or rejected ([CoreSnapshot]).  An accepted snapshot is
    reconciled with what other writers own and stored in one transaction ([CorePersist] on the tables
    of [FplStore]).  During a gameweek, polls of the live endpoint are transformed ([EventLives]),
    fenced by the time they were read ([LiveSnapshot]) and stored ([LiveFacts]); [FplHistory] runs
    these writers in any order.

    A creation request becomes a structure plan ([Planner]); a rebuild draws the plan into table rows
    ([Seeding], [GroupDraw], [Bracket], [Structure]); each gameweek, jobs score the group races
    ([Races]) or the knockout ([KnockoutSync], whose round one [KnockoutSeeding] fills), or mirror an
    official league ([OfficialH2H] reads and checks it, [OfficialPublish] stores it).  These jobs run
    under named row locks ([MutationScope]). Results that clients read quickly go through revisioned
    publications ([DataPublication]), whose hashes rest on canonical JSON ([Json]).  The database is
    their system of record: runs and publications live in a ledger ([SyncOperations]), an activation
    leaves a receipt, and dispatchers and reconcilers carry receipts to Redis ([DataOutbox]).
    [CorePublish] composes these parts: one sync reads the payloads, stores the snapshot and its
    publication in one transaction, and delivers it.

    Work enters the service as obligations ([Obligations]): a plan is recorded, a worker claims it under
    a lease and settles it.  What is due is planned by the registry of jobs ([SchedulerPlans]) on the
    calendar of Shanghai ([CronTime]).  The match-day conditions ([Conditions]) say which gameweek jobs
    are due; the live tick ([LiveLifecycle]) moves a gameweek from scheduled to settled.  Every request
    to the FPL API is admitted first ([Admission]), and fan-outs run on a bounded pool ([WorkerPool]).
    Two such fan-outs are modelled: the chain of entry synchronisation chunks ([EntrySync]) with the
    picks they store ([EntryPicks]), and the probe that waits for the picks of a gameweek to appear
    ([PicksProbe]).  Before a gameweek of tournaments is scored, every entry's results, picks and
    transfers are brought up to date and audited ([EventResults] on the tables of [EntryResults]).

    ** Files and sources

    - [Prelude]: errors as values, option and list lemmas, sums, tactics ([split_ifs], [boolsolve],
      [divlia], [inv_ok]) and the hint databases [jsdb] and [jsrw].
    - [JsCollections]: stable [sort], [Map], [Set], upsert into a keyed table. [JsNumber]: strings as
      UTF-16 units, [Number(string)] rounded to doubles, string order, decimal printing.  [JsDate]:
      [Date.parse] of the standard format, instants as years and as ISO strings.
    - [Json]: JSON values, [canonicalize] ([src/utils/content-hash.ts]).  [Postgres]: column ranges,
      checked updates and transactions as functions on tables.
    - [CoreEntities]: the schemas and transformers of events, teams, players, phases and fixtures
      ([src/transformers], [src/domain]).  [CoreSnapshot]: [src/domain/core-snapshot.ts],
      [src/domain/fpl-source-season.ts].
    - [FplStore]: the tables of a season and the repositories of seasons, events, teams, players,
      phases and fixtures ([src/repositories]); the state is [FplTables].  [CorePersist]:
      [src/services/core-snapshot-persistence.service.ts].
    - [EventLives]: the transformers of live totals, breakdowns, scoring items and fixture evidence
      ([src/transformers/event-lives.ts], [event-live-explains.ts], [event-live-fixture-breakdown.ts],
      [fpl-player-fixture-stats.ts]).  [LiveFacts]: the repositories of the same names.
      [LiveSnapshot]: [src/services/live-snapshot.service.ts].  [FplHistory]: the step relation of
      the writers.
    - [Tournament], [Seeding], [GroupDraw], [Bracket], [Planner]: [src/domain/tournament.ts], one
      definition per function or per loop, in the order of the file.
    - [KnockoutSync]: [src/services/tournament-knockout-results.service.ts] with the two
      repositories it writes; the state is [KnockoutTables].  [KnockoutSeeding]:
      [src/services/tournament-seed.service.ts].
    - [Races]: the points-race and battle-race services; the state is [RaceTables].
    - [OfficialH2H]: [src/services/tournament-official-h2h.service.ts] and the paging of
      [src/clients/fpl.ts].  [OfficialPublish]: its sync, and
      [src/repositories/tournament-official-h2h.ts]; the state is [OfficialTables].
    - [Structure]: [src/services/tournament-structure.service.ts].
    - [LiveBonus]: [src/domain/live-bonus.ts].
    - [MutationScope]: [src/domain/mutation-scope.ts], [src/utils/mutation-scopes.ts]; the state is
      the list of jobs, each with the calls it has begun, the locks it holds and those it still wants;
      a lock that times out, a deadlock the database detects and any error are its failures.
    - [Redis]: the class of Redis commands with their laws, the time to live of keys and the passing
      of time included, and an instance on finite maps; [DataPublication]:
      [src/cache/data-publication.ts], the Lua scripts included; the state is a Redis store.  A reader
      takes two commands, so it is given two stores, between which publishers may run.
    - [SyncOperations]: [src/repositories/sync-operations.ts]; the state is the [Ledger] of five
      tables.  [DataOutbox]: [src/repositories/data-publication-outbox.ts] and
      [src/services/data-publication-reconciler.ts]; the state is a ledger, a Redis store, the
      dispatchers at work, each at a [Phase] of its delivery, and the reconcilers ([Delivering]).
    - [CorePublish]: [src/services/core-snapshot.service.ts],
      [src/services/core-snapshot-publication.service.ts], [src/cache/core-snapshot-cache.ts]; the
      state is a ledger, the tables of the season and a Redis store ([World]).
    - [Obligations]: [src/repositories/scheduler-obligations.ts],
      [src/scheduler/scheduler.service.ts]; the state is the obligation table.  [SchedulerPlans]:
      [src/scheduler/job-registry.ts], [src/domain/core-snapshot-refresh.ts],
      [src/domain/post-match-results.ts], and the whole pass; it reads [SchedulerReads].
      [CronTime]: [src/utils/timezone.ts].
    - [Admission]: the request admission of [src/utils/fpl-admission.ts], the process's queue and
      the Redis leases.
    - [Conditions]: [src/utils/conditions.ts].  [LiveLifecycle], [PicksProbe]:
      [src/services/live-lifecycle-orchestrator.ts].
    - [WorkerPool]: [src/utils/async.ts], a step relation over all interleavings of the calls.
    - [EntrySync]: [src/workers/entry-sync.worker.ts], [src/domain/entry-sync-chain.ts],
      [src/jobs/entry-sync-enqueue.ts]; the state is the queue job and what the database holds.
      [EntryPicks]: [src/domain/entry-picks.ts], [src/repositories/entry-event-picks.ts].
    - [EntryResults]: [src/repositories/entry-event-results.ts], [entry-event-results-history.ts],
      [entry-event-transfers.ts], [src/domain/freshness.ts]; the state is [EntryTables].
      [EventResults]: [src/services/tournament-event-results.service.ts]; the state adds the season,
      the tournaments and the Redis store ([ResultsWorld]).

    A definition that models code is preceded by a comment that names the file, the lines and the
    symbol it translates.

    ** What the theorems show

    - Accepting: the fixture checks accept exactly the complete double round robins; an accepted
      snapshot lacks nothing of its payload and is a whole season.
    - Storing: a persisted snapshot is what the tables then hold, except for the newer prices and the
      fixtures of gameweeks with a newer live snapshot; every writer keeps the tables sound; the
      newest price wins whatever the order of the writers.
    - Live: the scoring items add up to the fixture breakdown; an older poll changes nothing; the rows
      read as final are those of the poll that finalised the gameweek.  Totals beyond the limits of one
      match (more than 150 minutes, two clean sheets), which two matches in a gameweek can give, make
      the poll fail ([LiveSnapshot.totals_over_limits_rejected]), and a final gameweek accepts no newer
      poll ([LiveSnapshot.finalized_blocks_live]); a first snapshot whose events name players cannot be
      stored ([CorePersist.first_snapshot_needs_players]).
    - Drawing: the bracket is a tree whose rounds halve, with gameweek windows that tile the
      knockout and legs that swap sides; the seeds are covered, byes go to the best seeds and the
      two best meet in the final; the snake draw balances groups; the roster difference and the
      backfill window are exact; seeding does not depend on the order of the input.
    - Planning: an accepted plan is playable (windows inside the season, bracket large enough), and
      exactly the stated requests are accepted.
    - Playing: the knockout sync refines an abstract "winners advance" specification; the winner
      rule is a strict order; races give the standings one computes from the full history, and
      running one twice changes nothing; round-one seeding agrees with the drawn bracket.
    - Mirroring: a snapshot is returned exactly when every page was read and no id repeats; an
      accepted schedule has every entry once per gameweek; the bracket rows have the shape of a drawn
      bracket; a sync stores the league as read or nothing, and a locked schedule never changes.
    - Locking: jobs that lock one list of scopes always progress; the operations of two writers of the
      structure never overlap, nested calls and failures included; the nested calls of a setup and a
      results job can block each other until one of them fails ([MutationScope.nested_setup_deadlocks]).
    - Publishing: a reader never sees a torn publication under any interleaving of publishers and of
      time, also between the two commands of a read, if less than 24 hours pass there; pointers only
      move forward; a reported publication is what is read next.
    - Delivering: a scope has one active publication, whose revision never falls; late reports never
      overwrite what says more; an activated publication is what a dispatch delivers, and a receipt is
      closed only if some state of the execution before had the pointer at its publication.  A staging
      row is never recovered, and one corrupt receipt blocks the dispatch of the others.
    - Syncing: a core sync that reports ready has stored its snapshot, and as long as no later command
      replaces the pointer, readers of Redis get the values it fetched (not the reconciled ones,
      [CorePublish.core_sync_serves]); one that fails leaves the tables alone until its transaction
      commits, but when that transaction fails its run stays running ([CorePublish.failed_core_sync]).
    - Scheduling: a pass plans every gameweek whose deadline is half an hour past and no other, once, and closes
      market days of the past; a claim asks the queue for the gameweek it was planned for; a pass leaves
      the core publication alone exactly when the ledger can deliver it and it is current; an obligation
      moves along its status machine, only the holder of a lease settles it; requests are admitted
      within the limits; a gameweek's lifecycle only moves forward.
    - Fanning out: the pool returns the results in input order whatever the interleaving; the chain
      of chunks ends and reaches every entry; the picks fan-out is safe and its canaries rotate.
    - Scoring: a row of results never loses newer evidence and its net points are exact; a results
      sync that succeeds certifies complete, fresh entries, and one pass over valid payloads, with the
      transfers or without, succeeds.

    ** Bounds and fuel

    Integers that come from the database are mathematical integers: they are ids, ranks, points and
    gameweeks far below [2 ^ 53], where JavaScript arithmetic is exact; [MAX_RANK] and
    [MAX_SAFE_INTEGER] appear as the code uses them.  Numbers that come from text are doubles
    ([JsNumber]).  Recursion is structural, or its fuel is shown to be enough: the seed-order loop runs
    on the logarithm of the bracket size, which is what the [while] needs
    ([Seeding.buildBracketSeedOrder_expand]); the head-to-head pages have the code's own limit of 100;
    decimal printing runs on the number of binary digits; the admission loop runs once per hundred
    milliseconds of a lease, the local queue once per waiter ([Admission.localDrain_spec]), a chain of
    entry jobs at most 18 times per entry and 36 times more ([EntrySync.run_chain_ends]), chunk loops
    once per element.  Times are whole milliseconds, or microseconds where the database clock is
    compared.  Transactions are functions from tables to tables that return the old tables when they
    throw; concurrency is modelled where the code relies on it ([MutationScope], [DataPublication],
    [Obligations], [Admission], [WorkerPool], [DataOutbox]).

    ** Not modelled

    HTTP routes, provider clients and their other transformers, table declarations and connections, the
    queue library, logging, configuration and the content worker: glue around the parts above.  SHA-256,
    JSON text, the URL parser, the HTTP client and Redis are not in the repository; they are class
    parameters with their documented laws, each with an instance.  Left out, although they carry logic
    of their own: the composition that publishes live snapshots (that of core snapshots is
    [CorePublish]), the refresh of the reporting tables, player values, the publication of personal
    pages and the content receipts. *)

From stdpp Require Export base list numbers strings gmap sorting.
From Stdlib Require Export ZArith Lia.

#[global] Open Scope Z_scope.

(** ** Errors

    The code throws [ValidationError], [CacheError] and plain [Error] values.  A model function
    that may throw returns a [result]; the carried string is the error's [code] (or, for a plain
    [Error], a short tag of its message). *)

Inductive result (A : Type) : Type :=
| Ok (a : A)
| Throw (code : string).
Arguments Ok {A} a.
Arguments Throw {A} code.

#[export] Instance result_eq_dec {A} `{EqDecision A} : EqDecision (result A).
Proof. solve_decision. Defined.

Definition result_bind {A B : Type} (x : result A) (f : A → result B) : result B :=
  match x with
  | Ok a => f a
  | Throw e => Throw e
  end.

Definition is_ok {A : Type} (x : result A) : bool :=
  match x with Ok _ => true | Throw _ => false end.

(** [if (c) throw new ValidationError(..., code)] followed by the rest of the body. *)
Definition throw_when {A : Type} (c : bool) (code : string) (k : result A) : result A :=
  if c then Throw code else k.

Declare Scope js_scope.
Delimit Scope js_scope with js.

Notation "'let*' x ':=' c1 'in' c2" := (result_bind c1 (λ x, c2))
  (at level 10, x binder, c1 at level 100, c2 at level 200) : js_scope.
Notation "'reject_if' c 'with_code' e ';;' k" := (throw_when c e k)
  (at level 10, c at level 99, e at level 99, k at level 200) : js_scope.

#[global] Open Scope js_scope.

(** ** Nullable values: [a ?? b] and JS truthiness *)

(** [x ?? d] *)
Definition nullish {A : Type} (x : option A) (d : A) : A := default d x.

(** [x ?? y] where [y] is itself nullable *)
Definition nullish_or {A : Type} (x y : option A) : option A :=
  match x with Some a => Some a | None => y end.

(** [Boolean(x)] for a nullable number: [null], [undefined] and [0] are falsy. *)
Definition truthy (x : option Z) : bool :=
  match x with Some n => negb (n =? 0) | None => false end.

Definition is_null {A : Type} (x : option A) : bool :=
  match x with Some _ => false | None => true end.

Definition is_nil {A : Type} (l : list A) : bool := match l with [] => true | _ => false end.

Definition opt_eqb (x y : option Z) : bool := bool_decide (x = y).

Definition MAX_SAFE_INTEGER : Z := 9007199254740991.

(** ** Automation *)

Create HintDb jsdb discriminated.
Create Rewrite HintDb jsrw.

(** Split on every [match] and [if] of the goal or a hypothesis, closing absurd branches. *)
Ltac split_ifs :=
  repeat (case_match; simplify_eq/=; try done).

(** Turn boolean comparisons in hypotheses and goal into propositions. *)
Ltac boolsolve :=
  repeat match goal with
  | H : (_ && _)%bool = true |- _ => apply andb_true_iff in H as [? ?]
  | H : (_ || _)%bool = false |- _ => apply orb_false_iff in H as [? ?]
  | H : negb _ = true |- _ => apply negb_true_iff in H
  | H : negb _ = false |- _ => apply negb_false_iff in H
  | H : (_ =? _) = true |- _ => apply Z.eqb_eq in H
  | H : (_ =? _) = false |- _ => apply Z.eqb_neq in H
  | H : (_ <? _) = true |- _ => apply Z.ltb_lt in H
  | H : (_ <? _) = false |- _ => apply Z.ltb_ge in H
  | H : (_ <=? _) = true |- _ => apply Z.leb_le in H
  | H : (_ <=? _) = false |- _ => apply Z.leb_gt in H
  | H : bool_decide _ = true |- _ => apply bool_decide_eq_true in H
  | H : bool_decide _ = false |- _ => apply bool_decide_eq_false in H
  end.

(** [lia] with division and modulo by constants. *)
Ltac divlia := Z.to_euclidean_division_equations; lia.

Lemma result_bind_ok {A B : Type} (x : result A) (f : A → result B) b :
  result_bind x f = Ok b ↔ ∃ a, x = Ok a ∧ f a = Ok b.
Proof. destruct x; simpl; naive_solver. Qed.

Lemma throw_when_ok {A} c e (k : result A) a :
  throw_when c e k = Ok a ↔ c = false ∧ k = Ok a.
Proof. destruct c; naive_solver. Qed.

#[export] Hint Rewrite @result_bind_ok @throw_when_ok : jsrw.

(** Unfold a successful run of a throwing function into its guards. *)
Ltac inv_ok :=
  repeat match goal with
  | H : result_bind _ _ = Ok _ |- _ => apply result_bind_ok in H as (? & ? & ?)
  | H : throw_when _ _ _ = Ok _ |- _ => apply throw_when_ok in H as [? ?]
  | H : Ok _ = Ok _ |- _ => injection H as H; subst
  | H : Throw _ = Ok _ |- _ => discriminate H
  end.

(** [list.map(f)] for an [f] that may throw. *)
Fixpoint map_throwing {A B : Type} (f : A → result B) (l : list A) : result (list B) :=
  match l with
  | [] => Ok []
  | x :: l' => let* y := f x in let* ys := map_throwing f l' in Ok (y :: ys)
  end.

Lemma map_throwing_ok {A B} (f : A → result B) l ys :
  map_throwing f l = Ok ys ↔ Forall2 (λ x y, f x = Ok y) l ys.
Proof.
  revert ys. induction l as [|x l IH]; intros ys; cbn.
  - split; [intros [= <-]; constructor|]. by inversion 1.
  - rewrite result_bind_ok. setoid_rewrite result_bind_ok. setoid_rewrite IH. split.
    + intros (y & Hy & ys' & Hys & [= <-]). by constructor.
    + inversion 1 as [|? y ? ys' Hy Hys]; subst. eauto.
Qed.

Lemma map_throwing_throws {A B} (f : A → result B) l x :
  x ∈ l → is_ok (f x) = false → is_ok (map_throwing f l) = false.
Proof.
  induction l as [|y l IH]; [by intros ?%elem_of_nil|]. cbn. intros [->|Hx]%elem_of_cons Hf.
  - by destruct (f y).
  - destruct (f y); cbn; [|done]. specialize (IH Hx Hf). by destruct (map_throwing f l).
Qed.

(** ** Lists *)

Section lists.
Context {A B : Type}.

Lemma concat_map_length_const (f : A → list B) (n : nat) (l : list A) :
  (∀ x, x ∈ l → length (f x) = n) → length (concat (map f l)) = (length l * n)%nat.
Proof.
  induction l as [|x l IH]; intros Hn; simpl; [done|].
  rewrite length_app, IH, Hn; set_solver.
Qed.

Lemma flat_map_app_distr (f : A → list B) (l k : list A) :
  flat_map f (l ++ k) = flat_map f l ++ flat_map f k.
Proof. induction l; simpl; [done|]. rewrite IHl. by rewrite app_assoc. Qed.

Lemma lookup_seqZ_Some_le (m len : Z) (i : nat) (k : Z) :
  seqZ m len !! i = Some k → k = m + Z.of_nat i ∧ m ≤ k < m + len.
Proof. rewrite lookup_seqZ. lia. Qed.
End lists.

Lemma elem_of_filter_bool {A} (f : A → bool) (l : list A) x : x ∈ List.filter f l ↔ x ∈ l ∧ f x = true.
Proof. by rewrite !list_elem_of_In, List.filter_In. Qed.

Lemma flat_map_flat_map {A B C} (f : A → list B) (g : B → list C) l :
  flat_map g (flat_map f l) = flat_map (λ x, flat_map g (f x)) l.
Proof. induction l; simpl; [done|]. by rewrite flat_map_app_distr, IHl. Qed.

Lemma fmap_flat_map {A B C} (f : A → list B) (g : B → C) l :
  g <$> flat_map f l = flat_map (λ x, g <$> f x) l.
Proof. induction l; simpl; [done|]. by rewrite fmap_app, IHl. Qed.

Lemma flat_map_ext_in {A B} (f g : A → list B) l :
  (∀ x, x ∈ l → f x = g x) → flat_map f l = flat_map g l.
Proof.
  induction l as [|x l IH]; intros Hfg; simpl; [done|].
  rewrite Hfg, IH; set_solver.
Qed.

(** Blocks of a [flat_map] whose pieces all have length [n]. *)
Lemma flat_map_lookup_block {A B} (f : A → list B) (n : nat) (l : list A) (i j : nat) x :
  (∀ y, y ∈ l → length (f y) = n) → (j < n)%nat → l !! i = Some x →
  flat_map f l !! (i * n + j)%nat = f x !! j.
Proof.
  revert i. induction l as [|y l IH]; intros i Hlen Hj Hx; [done|].
  destruct i as [|i]; simplify_eq/=.
  - rewrite lookup_app_l; [done|]. rewrite Hlen; set_solver.
  - rewrite lookup_app_r; rewrite Hlen by set_solver; [|lia].
    replace (n + i * n + j - n)%nat with (i * n + j)%nat by lia.
    apply IH; set_solver.
Qed.

Lemma flat_map_length_const {A B} (f : A → list B) (n : nat) (l : list A) :
  (∀ x, x ∈ l → length (f x) = n) → length (flat_map f l) = (length l * n)%nat.
Proof. intros. rewrite flat_map_concat_map. by apply concat_map_length_const. Qed.

(** Two duplicate-free integer lists with the same members are permutations. *)
Lemma NoDup_same_elements {A} (l k : list A) :
  NoDup l → NoDup k → (∀ x, x ∈ l ↔ x ∈ k) → l ≡ₚ k.
Proof. intros. by apply NoDup_Permutation. Qed.

Lemma StronglySorted_impl {A} (R R' : A → A → Prop) l :
  (∀ x y, R x y → R' x y) → StronglySorted R l → StronglySorted R' l.
Proof. induction 2; constructor; eauto using Forall_impl. Qed.

Lemma fmap_filter_iff {A B} (f : A → B) (P : A → Prop) (Q : B → Prop)
    `{∀ x, Decision (P x), ∀ y, Decision (Q y)} (l : list A) :
  (∀ x, x ∈ l → P x ↔ Q (f x)) → f <$> filter P l = filter Q (f <$> l).
Proof.
  induction l as [|x l IH]; intros HPQ; [done|].
  rewrite fmap_cons, !filter_cons.
  assert (P x ↔ Q (f x)) by (apply HPQ; set_solver).
  do 2 case_decide; try tauto; rewrite ?fmap_cons, IH; set_solver.
Qed.

Lemma filter_all {A} (P : A → Prop) `{∀ x, Decision (P x)} (l : list A) :
  (∀ x, x ∈ l → P x) → filter P l = l.
Proof.
  induction l as [|x l IH]; intros HP; [done|].
  rewrite filter_cons, decide_True, IH; set_solver.
Qed.

Lemma filter_none {A} (P : A → Prop) `{∀ x, Decision (P x)} (l : list A) :
  (∀ x, x ∈ l → ¬ P x) → filter P l = [].
Proof.
  induction l as [|x l IH]; intros HP; [done|].
  rewrite filter_cons, decide_False, IH; set_solver.
Qed.

Lemma filter_ext_in {A} (P Q : A → Prop) `{∀ x, Decision (P x), ∀ x, Decision (Q x)} (l : list A) :
  (∀ x, x ∈ l → P x ↔ Q x) → filter P l = filter Q l.
Proof.
  induction l as [|x l IH]; intros HPQ; [done|]. rewrite !filter_cons.
  assert (P x ↔ Q x) by (apply HPQ; set_solver).
  do 2 case_decide; try tauto; rewrite IH; set_solver.
Qed.

Lemma length_filter_mono {A} (P Q : A → Prop) `{∀ x, Decision (P x), ∀ x, Decision (Q x)}
    (l : list A) :
  (∀ x, x ∈ l → P x → Q x) → (length (filter P l) ≤ length (filter Q l))%nat.
Proof.
  induction l as [|x l IH]; intros HPQ; [done|]. rewrite !filter_cons.
  assert (P x → Q x) by (apply HPQ; set_solver).
  assert (length (filter P l) ≤ length (filter Q l))%nat by (apply IH; set_solver).
  do 2 case_decide; simpl; tauto || lia.
Qed.

(** The members [a], [a + 1] of an interval. *)
Lemma filter_seqZ_pair (Q : Z → Prop) `{∀ y, Decision (Q y)} (s n a : Z) :
  s ≤ a → a + 1 < s + n → (∀ y, Q y ↔ y = a ∨ y = a + 1) → filter Q (seqZ s n) = [a; a + 1].
Proof.
  intros Hs Hn HQ.
  replace n with ((a - s) + (2 + (s + n - a - 2))) by lia.
  rewrite !seqZ_app, !filter_app by lia.
  rewrite (filter_none _ (seqZ s (a - s))), (filter_none _ (seqZ _ (s + n - a - 2))).
  - replace (s + (a - s)) with a by lia.
    rewrite filter_all; [|intros y Hy%elem_of_seqZ; apply HQ; lia].
    rewrite app_nil_r. simpl app. do 2 rewrite seqZ_cons by lia.
    rewrite seqZ_nil by lia. f_equal.
  - intros y Hy%elem_of_seqZ. rewrite HQ. lia.
  - intros y Hy%elem_of_seqZ. rewrite HQ. lia.
Qed.

Lemma StronglySorted_seqZ (m n : Z) : StronglySorted Z.le (seqZ m n).
Proof.
  destruct (Z.le_ge_cases n 0); [rewrite seqZ_nil by lia; constructor|].
  rewrite <-(Z2Nat.id n) by done. revert m. generalize (Z.to_nat n). clear n H.
  intros n. induction n as [|n IH]; intros m.
  - rewrite seqZ_nil by lia. constructor.
  - rewrite seqZ_cons by lia. rewrite Nat2Z.inj_succ, Z.pred_succ. constructor; [apply IH|].
    apply Forall_forall. intros x Hx%elem_of_seqZ. lia.
Qed.

Lemma omap_filter_default {A} (g : A → option A) (P : A → Prop) `{∀ x, Decision (P x)} (l : list A) :
  (∀ x, P x ↔ is_Some (g x)) → omap g l = (λ x, default x (g x)) <$> filter P l.
Proof.
  intros HP. induction l as [|x l IH]; [done|].
  change (omap g (x :: l)) with (match g x with Some y => y :: omap g l | None => omap g l end).
  rewrite filter_cons, IH. destruct (g x) as [y|] eqn:E.
  - rewrite decide_True by (apply HP; by eexists). simpl. by rewrite E.
  - rewrite decide_False; [done|]. rewrite HP, E. by intros [].
Qed.

(** Splitting a list by the values of a function and putting the parts together again. *)
Lemma flat_map_filter_key {A K} `{EqDecision K} (key : A → K) (ks : list K) (l : list A) :
  NoDup ks → flat_map (λ k, filter (λ x, key x = k) l) ks ≡ₚ filter (λ x, key x ∈ ks) l.
Proof.
  induction 1 as [|k ks Hk Hnd IH]; simpl.
  { rewrite filter_none; [done|set_solver]. }
  rewrite IH. clear IH. induction l as [|x l IH]; [done|].
  rewrite !filter_cons. destruct (decide (key x = k)) as [Hx|Hx].
  - rewrite (decide_True (P:=key x ∈ k :: ks)) by (rewrite Hx; set_solver).
    rewrite decide_False by (by rewrite Hx). simpl. by rewrite IH.
  - destruct (decide (key x ∈ ks)) as [Hin|Hin].
    + rewrite (decide_True (P:=key x ∈ k :: ks)) by set_solver.
      rewrite <-IH. symmetry. apply Permutation_middle.
    + rewrite decide_False by set_solver. apply IH.
Qed.

(** A duplicate-free key projection is injective on the list. *)
Lemma existsb_false {A} (f : A → bool) l : existsb f l = false ↔ ∀ x, x ∈ l → f x = false.
Proof.
  rewrite <-not_true_iff_false, existsb_exists. setoid_rewrite <-list_elem_of_In. split.
  - intros H x Hx. apply not_true_iff_false. eauto.
  - intros H (x & Hx & Ht). specialize (H x Hx). congruence.
Qed.

Lemma NoDup_fmap_inj_in {A B} (f : A → B) (l : list A) x y :
  NoDup (f <$> l) → x ∈ l → y ∈ l → f x = f y → x = y.
Proof.
  intros Hnd [i Hi]%list_elem_of_lookup [j Hj]%list_elem_of_lookup Hf.
  assert (i = j) as ->.
  { eapply NoDup_lookup; [done|rewrite list_lookup_fmap, Hi; done|].
    rewrite list_lookup_fmap, Hj. simpl. by rewrite Hf. }
  congruence.
Qed.

(** ** Sums *)

Definition sum_by {A : Type} (f : A → Z) (l : list A) : Z := foldr (λ x acc, f x + acc) 0 l.

Lemma sum_by_app {A} (f : A → Z) l k : sum_by f (l ++ k) = sum_by f l + sum_by f k.
Proof. unfold sum_by. induction l as [|x l IH]; simpl; [done|]. rewrite IH. lia. Qed.

Lemma sum_by_fmap {A B} (g : A → B) (f : B → Z) l : sum_by f (g <$> l) = sum_by (f ∘ g) l.
Proof. unfold sum_by. induction l as [|x l IH]; simpl; [done|]. f_equal. exact IH. Qed.

Lemma sum_by_zero {A} (f : A → Z) l : (∀ x, x ∈ l → f x = 0) → sum_by f l = 0.
Proof.
  unfold sum_by. induction l as [|x l IH]; simpl; intros H; [done|].
  rewrite IH by (intros; apply H; set_solver). rewrite H by set_solver. done.
Qed.

Lemma sum_by_ext_in {A} (f g : A → Z) l : (∀ x, x ∈ l → f x = g x) → sum_by f l = sum_by g l.
Proof.
  unfold sum_by. induction l as [|x l IH]; simpl; intros H; [done|].
  rewrite IH by (intros; apply H; set_solver). rewrite H by set_solver. done.
Qed.

Lemma sum_by_plus {A} (f g : A → Z) (l : list A) : sum_by (λ x, f x + g x) l = sum_by f l + sum_by g l.
Proof. unfold sum_by. induction l as [|x l IH]; cbn; [done|]. rewrite IH. lia. Qed.

Lemma sum_by_swap {A B} (g : A → B → Z) (l : list A) (k : list B) :
  sum_by (λ x, sum_by (g x) k) l = sum_by (λ y, sum_by (λ x, g x y) l) k.
Proof.
  induction l as [|x l IH].
  - symmetry. by apply sum_by_zero.
  - change (sum_by (g x) k + sum_by (λ x, sum_by (g x) k) l = sum_by (λ y, g x y + sum_by (λ x, g x y) l) k).
    by rewrite IH, sum_by_plus.
Qed.

Lemma sum_by_const {A} (c : Z) (l : list A) : sum_by (λ _, c) l = c * Z.of_nat (length l).
Proof. unfold sum_by. induction l as [|x l IH]; cbn [foldr length]; lia. Qed.

Lemma sum_by_nonneg {A} (f : A → Z) (l : list A) : (∀ x, 0 ≤ f x) → 0 ≤ sum_by f l.
Proof. intros H. unfold sum_by. induction l as [|x l IH]; cbn; [done|]. specialize (H x). lia. Qed.

Lemma sum_by_perm {A} (f : A → Z) l k : l ≡ₚ k → sum_by f l = sum_by f k.
Proof. induction 1; unfold sum_by in *; cbn; lia. Qed.

(** A sum in which at most one element counts. *)
Lemma sum_by_single {A} (f : A → Z) (l : list A) x :
  NoDup l → x ∈ l → (∀ y, y ∈ l → y ≠ x → f y = 0) → sum_by f l = f x.
Proof.
  induction l as [|y l IH]; intros Hnd Hx H; [set_solver|].
  apply NoDup_cons in Hnd as [Hy Hnd]. change (sum_by f (y :: l)) with (f y + sum_by f l).
  apply elem_of_cons in Hx as [<-|Hx].
  - rewrite sum_by_zero; [lia|]. intros z Hz. apply H; set_solver.
  - rewrite IH; [|done..|intros; apply H; set_solver]. rewrite H; set_solver.
Qed.

(** Lists that do not contain a separator are told apart by it. *)
Lemma sep_split {A} (s : A) (a b x y : list A) :
  s ∉ a → s ∉ b → a ++ s :: x = b ++ s :: y → a = b ∧ x = y.
Proof.
  revert b. induction a as [|c a IH]; intros [|d b]; simpl; intros Ha Hb H; simplify_eq.
  - done.
  - exfalso. apply Hb. by left.
  - exfalso. apply Ha. by left.
  - apply not_elem_of_cons in Ha as [_ Ha]. apply not_elem_of_cons in Hb as [_ Hb].
    by destruct (IH b) as [-> ->].
Qed.
