(* ===== verification/JsCollections.v ===== *)
(** * JavaScript collections used by the code

    - [Array.prototype.sort] with a comparator: stable, so for a comparator that is a total
      preorder the result is the stable sorted permutation, here computed by insertion.
    - [Map]: an association list in insertion order ([set] on a present key keeps its place).
    - [new Set(xs)] spread back to an array: first occurrences, in order. *)

From S2P Require Import Prelude.

(** ** Stable sort *)

Section sort_defs.
Context {A : Type} (cmp : A → A → Z).

(** [x] goes before the first element it does not have to follow. *)
Fixpoint sort_insert (x : A) (l : list A) : list A :=
  match l with
  | [] => [x]
  | y :: l' => if cmp x y <=? 0 then x :: y :: l' else y :: sort_insert x l'
  end.

(** [[...xs].sort(cmp)] *)
Fixpoint js_sort (l : list A) : list A :=
  match l with
  | [] => []
  | x :: l' => sort_insert x (js_sort l')
  end.
End sort_defs.

(** A comparator [(a, b) => number] that orders its argument type. *)
Class Comparator {A : Type} (cmp : A → A → Z) : Prop := {
  cmp_flip : ∀ x y, Z.sgn (cmp y x) = - Z.sgn (cmp x y);
  cmp_trans : ∀ x y z, cmp x y ≤ 0 → cmp y z ≤ 0 → cmp x z ≤ 0;
}.

Definition cmp_le {A : Type} (cmp : A → A → Z) (x y : A) : Prop := cmp x y ≤ 0.

(** [(a, b) => key(a) - key(b)] *)
Definition by_key {A : Type} (key : A → Z) (x y : A) : Z := key x - key y.

(** [const d = first(a, b); if (d !== 0) return d; return second(a, b);] *)
Definition then_by {A : Type} (first second : A → A → Z) (x y : A) : Z :=
  if first x y =? 0 then second x y else first x y.

(** ** Map *)

Section map_defs.
Context {K V : Type} `{EqDecision K}.

Fixpoint map_get (k : K) (m : list (K * V)) : option V :=
  match m with
  | [] => None
  | (k', v) :: m' => if decide (k = k') then Some v else map_get k m'
  end.

Fixpoint map_set (k : K) (v : V) (m : list (K * V)) : list (K * V) :=
  match m with
  | [] => [(k, v)]
  | (k', v') :: m' =>
      if decide (k = k') then (k', v) :: m' else (k', v') :: map_set k v m'
  end.

(** [new Map(entries)]: later entries overwrite earlier ones. *)
Definition map_of_entries (es : list (K * V)) : list (K * V) :=
  fold_left (λ m kv, map_set kv.1 kv.2 m) es [].

Definition map_has (k : K) (m : list (K * V)) : bool := negb (is_null (map_get k m)).
Definition map_keys (m : list (K * V)) : list K := m.*1.
Definition map_values (m : list (K * V)) : list V := m.*2.
End map_defs.

(** ** Set *)

Section set_defs.
Context {A : Type} `{EqDecision A}.

Fixpoint dedup_from (seen l : list A) : list A :=
  match l with
  | [] => []
  | x :: l' =>
      if decide (x ∈ seen) then dedup_from seen l' else x :: dedup_from (x :: seen) l'
  end.

(** [[...new Set(l)]] *)
Definition dedup (l : list A) : list A := dedup_from [] l.
End set_defs.

(** ** Tables

    Rows of one tournament (or season) in a table with a unique key; [upsert] is
    [INSERT ... ON CONFLICT (key) DO UPDATE SET ...], where [merge old new] writes the columns of
    the [SET] list. *)

Section table_defs.
Context {A K : Type} `{EqDecision K} (key : A → K) (merge : A → A → A).

Fixpoint upsert (row : A) (table : list A) : list A :=
  match table with
  | [] => [row]
  | old :: table' =>
      if decide (key old = key row) then merge old row :: table' else old :: upsert row table'
  end.

Definition upsert_batch (rows table : list A) : list A :=
  fold_left (λ t row, upsert row t) rows table.

Fixpoint find_by (k : K) (rows : list A) : option A :=
  match rows with
  | [] => None
  | r :: rows' => if decide (key r = k) then Some r else find_by k rows'
  end.
End table_defs.

(** ** Sort lemmas *)

Section sort_lemmas.
Context {A : Type} (cmp : A → A → Z).

Lemma sort_insert_perm x l : sort_insert cmp x l ≡ₚ x :: l.
Proof.
  induction l as [|y l IH]; simpl; [done|]. case_match; [done|].
  rewrite IH. constructor.
Qed.

Lemma js_sort_perm l : js_sort cmp l ≡ₚ l.
Proof. induction l; simpl; [done|]. by rewrite sort_insert_perm, IHl. Qed.

Lemma elem_of_js_sort x l : x ∈ js_sort cmp l ↔ x ∈ l.
Proof. by rewrite js_sort_perm. Qed.

Lemma length_js_sort l : length (js_sort cmp l) = length l.
Proof. by rewrite js_sort_perm. Qed.

(** Sorting a sorted list changes nothing. *)
Lemma js_sort_id l : StronglySorted (cmp_le cmp) l → js_sort cmp l = l.
Proof.
  induction 1 as [|x l Hl IH Hx]; simpl; [done|]. rewrite IH.
  destruct l as [|y l]; simpl; [done|]. apply Forall_cons in Hx as [Hx _].
  unfold cmp_le in Hx. destruct (Z.leb_spec (cmp x y) 0); [done|lia].
Qed.

Context `{!Comparator cmp}.

Lemma cmp_refl x : cmp x x = 0.
Proof. pose proof (cmp_flip x x). lia. Qed.

Lemma cmp_total x y : cmp_le cmp x y ∨ cmp_le cmp y x.
Proof. unfold cmp_le. pose proof (cmp_flip x y). lia. Qed.

#[global] Instance cmp_le_trans : Transitive (cmp_le cmp).
Proof. intros x y z. apply cmp_trans. Qed.

Lemma sort_insert_sorted x l :
  StronglySorted (cmp_le cmp) l → StronglySorted (cmp_le cmp) (sort_insert cmp x l).
Proof.
  induction 1 as [|y l Hl IH Hy]; simpl; [repeat constructor|].
  case_match; boolsolve.
  - constructor; [by constructor|]. constructor; [done|].
    eapply Forall_impl; [done|]. intros z Hz. by eapply cmp_trans.
  - constructor; [done|]. rewrite sort_insert_perm. constructor; [|done].
    destruct (cmp_total x y); unfold cmp_le in *; lia.
Qed.

Lemma js_sort_sorted l : StronglySorted (cmp_le cmp) (js_sort cmp l).
Proof. induction l; simpl; [constructor|]. by apply sort_insert_sorted. Qed.

Lemma cmp_eq_trans_l x y z : cmp x y = 0 → cmp x z = 0 → cmp y z = 0.
Proof.
  intros Hxy Hxz. pose proof (cmp_flip x y). pose proof (cmp_flip x z).
  pose proof (cmp_flip y z).
  assert (cmp y z ≤ 0) by (apply (cmp_trans y x z); lia).
  assert (cmp z y ≤ 0) by (apply (cmp_trans z x y); lia). lia.
Qed.

(** Stability: elements the comparator does not distinguish keep their order. *)
Lemma js_sort_stable c l :
  filter (λ y, cmp c y = 0) (js_sort cmp l) = filter (λ y, cmp c y = 0) l.
Proof.
  induction l as [|x l IH]; [done|]. simpl.
  trans (filter (λ y, cmp c y = 0) (x :: js_sort cmp l)).
  - generalize (js_sort cmp l). intros k. induction k as [|y k IHk]; [done|]. simpl.
    case_match; [done|]. boolsolve. rewrite !filter_cons in *. rewrite IHk.
    repeat case_decide; try done.
    exfalso. pose proof (cmp_eq_trans_l c x y). lia.
  - rewrite !filter_cons. by rewrite IH.
Qed.

(** A comparator that separates the distinct elements of a list makes sorting it independent
    of the input order. *)
Lemma js_sort_unique l k :
  (∀ x y, x ∈ l → y ∈ l → cmp x y = 0 → x = y) → l ≡ₚ k → js_sort cmp l = js_sort cmp k.
Proof.
  intros Hsep Hlk. apply (StronglySorted_unique_strong (cmp_le cmp)).
  - intros x y Hx Hy ??. apply Hsep.
    + by rewrite <-elem_of_js_sort.
    + rewrite Hlk. by rewrite <-elem_of_js_sort.
    + unfold cmp_le in *. pose proof (cmp_flip x y). lia.
  - apply js_sort_sorted.
  - apply js_sort_sorted.
  - by rewrite !js_sort_perm.
Qed.
End sort_lemmas.

#[export] Instance by_key_comparator {A} (key : A → Z) : Comparator (by_key key).
Proof. split; unfold by_key; lia. Qed.

(** Comparing by the images under a function. *)
Lemma comparator_on {A B} (f : A → B) (cmp : B → B → Z) :
  Comparator cmp → Comparator (λ a b, cmp (f a) (f b)).
Proof. intros []. split; intros; [done|]. by eapply cmp_trans0. Qed.

#[export] Instance then_by_comparator {A} (c1 c2 : A → A → Z) :
  Comparator c1 → Comparator c2 → Comparator (then_by c1 c2).
Proof.
  intros H1 H2. split; unfold then_by.
  - intros x y. pose proof (cmp_flip (cmp:=c1) x y). pose proof (cmp_flip (cmp:=c2) x y).
    do 2 case_match; boolsolve; lia.
  - intros x y z Hxy Hyz.
    pose proof (cmp_flip (cmp:=c1) x y). pose proof (cmp_flip (cmp:=c1) y z).
    pose proof (cmp_flip (cmp:=c1) x z).
    pose proof (cmp_trans (cmp:=c1) x y z). pose proof (cmp_trans (cmp:=c1) z x y).
    pose proof (cmp_trans (cmp:=c1) y z x). pose proof (cmp_trans (cmp:=c2) x y z).
    repeat case_match; boolsolve; lia.
Qed.

(** ** Map lemmas *)

Section map_lemmas.
Context {K V : Type} `{EqDecision K}.
Implicit Types (m es : list (K * V)) (k : K) (v : V).

Lemma map_get_set_eq k v m : map_get k (map_set k v m) = Some v.
Proof.
  induction m as [|[k' v'] m IH]; simpl; [by rewrite decide_True|].
  case_decide; simpl; [by rewrite decide_True|]. by rewrite decide_False.
Qed.

Lemma map_get_set_ne k k' v m : k ≠ k' → map_get k (map_set k' v m) = map_get k m.
Proof.
  intros Hne. induction m as [|[k1 v1] m IH]; simpl; [by rewrite decide_False|].
  case_decide; simpl; subst; [by rewrite !decide_False|]. case_decide; [done|]. apply IH.
Qed.

Lemma map_get_set k k' v m :
  map_get k (map_set k' v m) = if decide (k = k') then Some v else map_get k m.
Proof. case_decide; subst; [apply map_get_set_eq | by apply map_get_set_ne]. Qed.

Lemma elem_of_map_keys_set k k' v m :
  k ∈ map_keys (map_set k' v m) ↔ k = k' ∨ k ∈ map_keys m.
Proof.
  unfold map_keys. induction m as [|[k1 v1] m IH]; simpl; [set_solver|].
  case_decide; simpl; set_solver.
Qed.

Lemma map_keys_set_present k v m : k ∈ map_keys m → map_keys (map_set k v m) = map_keys m.
Proof.
  unfold map_keys. induction m as [|[k1 v1] m IH]; cbn; [by intros ?%elem_of_nil|].
  case_decide; cbn; [by subst|]. intros [?|Hk]%elem_of_cons; [by subst|]. by rewrite IH.
Qed.

Lemma map_keys_set_NoDup k v m : NoDup (map_keys m) → NoDup (map_keys (map_set k v m)).
Proof.
  unfold map_keys. induction m as [|[k1 v1] m IH]; simpl; intros Hnd.
  - apply NoDup_singleton.
  - apply NoDup_cons in Hnd as [Hk1 Hnd]. case_decide; simpl; [by constructor|].
    constructor; [|by apply IH].
    rewrite (elem_of_map_keys_set k1 k v m). naive_solver.
Qed.

Lemma map_get_None k m : map_get k m = None ↔ k ∉ map_keys m.
Proof.
  unfold map_keys. induction m as [|[k1 v1] m IH]; simpl; [set_solver|].
  case_decide; set_solver.
Qed.

Lemma map_get_is_Some k m : is_Some (map_get k m) ↔ k ∈ map_keys m.
Proof.
  pose proof (map_get_None k m). destruct (map_get k m) eqn:E.
  - split; [|by eexists]. intros _. destruct (decide (k ∈ map_keys m)); naive_solver.
  - split; [by intros []|]. naive_solver.
Qed.

Lemma map_get_elem_of k v m : map_get k m = Some v → (k, v) ∈ m.
Proof.
  induction m as [|[k1 v1] m IH]; simpl; [done|].
  case_decide; intros; simplify_eq; set_solver.
Qed.

Lemma map_get_app k m1 m2 :
  map_get k (m1 ++ m2) = match map_get k m1 with Some v => Some v | None => map_get k m2 end.
Proof. induction m1 as [|[k' v'] m1 IH]; simpl; [done|]. by case_decide. Qed.

Lemma elem_of_map_get k v m : NoDup (map_keys m) → (k, v) ∈ m → map_get k m = Some v.
Proof.
  unfold map_keys. induction m as [|[k1 v1] m IH]; simpl; [set_solver|].
  intros [Hk1 Hnd]%NoDup_cons [Heq|Hin]%elem_of_cons.
  - simplify_eq. by rewrite decide_True.
  - rewrite decide_False; [by apply IH|]. intros ->. apply Hk1.
    by apply (list_elem_of_fmap_2 fst) in Hin.
Qed.

Lemma map_of_entries_get_last k es :
  map_get k (map_of_entries es) = map_get k (rev es).
Proof.
  unfold map_of_entries. rewrite <-fold_left_rev_right.
  induction (rev es) as [|[k' v'] l IH]; simpl; [done|].
  rewrite map_get_set. case_decide; done.
Qed.

Lemma map_of_entries_NoDup es : NoDup (map_keys (map_of_entries es)).
Proof.
  unfold map_of_entries. rewrite <-fold_left_rev_right.
  induction (rev es); simpl; [by apply NoDup_nil_2 | by apply map_keys_set_NoDup].
Qed.

Lemma map_of_entries_keys k es : k ∈ map_keys (map_of_entries es) ↔ k ∈ es.*1.
Proof.
  rewrite <-(map_get_is_Some k (map_of_entries es)), map_of_entries_get_last.
  rewrite (map_get_is_Some k (rev es)). unfold map_keys.
  by rewrite <-(Permutation_rev es).
Qed.
End map_lemmas.

Lemma map_get_zip_seqZ {V} (s n : Z) (vs : list V) (k : Z) :
  0 ≤ n →
  map_get k (zip (seqZ s n) vs) =
    if (s <=? k) && (k <? s + n) then vs !! Z.to_nat (k - s) else None.
Proof.
  revert s n. induction vs as [|v vs IH]; intros s n Hn.
  { destruct (seqZ s n); simpl; by case_match. }
  destruct (Z.eq_dec n 0) as [->|].
  { rewrite seqZ_nil by lia. simpl. destruct (Z.leb_spec s k), (Z.ltb_spec k (s + 0)); done || lia. }
  rewrite seqZ_cons by lia. simpl. case_decide as Hk.
  - subst. rewrite Z.sub_diag. destruct (Z.leb_spec s s), (Z.ltb_spec s (s + n)); done || lia.
  - rewrite IH by lia. destruct (Z.leb_spec s k), (Z.leb_spec (Z.succ s) k),
      (Z.ltb_spec k (s + n)), (Z.ltb_spec k (Z.succ s + Z.pred n)); try lia; try done. simpl.
    replace (Z.to_nat (k - s)) with (S (Z.to_nat (k - Z.succ s))) by lia. done.
Qed.

(** [new Map(rows.map((row) => [key(row), row]))]: the last row of a key wins. *)
Definition map_by {K A : Type} `{EqDecision K} (key : A → K) (rows : list A) : list (K * A) :=
  map_of_entries (map (λ r, (key r, r)) rows).

(** ** Set lemmas *)

Section set_lemmas.
Context {A : Type} `{EqDecision A}.
Implicit Types (x : A) (seen l : list A).

Lemma elem_of_dedup_from x seen l : x ∈ dedup_from seen l ↔ x ∈ l ∧ x ∉ seen.
Proof.
  revert seen. induction l as [|y l IH]; intros seen; simpl; [set_solver|].
  case_decide; [rewrite IH; set_solver|].
  rewrite elem_of_cons, IH. destruct (decide (x = y)); set_solver.
Qed.

Lemma elem_of_dedup x l : x ∈ dedup l ↔ x ∈ l.
Proof. unfold dedup. rewrite elem_of_dedup_from. set_solver. Qed.

Lemma NoDup_dedup_from seen l : NoDup (dedup_from seen l).
Proof.
  revert seen. induction l as [|y l IH]; intros seen; simpl; [constructor|].
  case_decide; [done|]. constructor; [|done]. rewrite elem_of_dedup_from. set_solver.
Qed.

Lemma NoDup_dedup l : NoDup (dedup l).
Proof. apply NoDup_dedup_from. Qed.

Lemma dedup_from_id seen l : NoDup l → (∀ x, x ∈ l → x ∉ seen) → dedup_from seen l = l.
Proof.
  revert seen. induction l as [|y l IH]; intros seen Hnd Hs; simpl; [done|].
  apply NoDup_cons in Hnd as [Hy Hnd].
  rewrite decide_False by set_solver. f_equal. apply IH; [done|]. set_solver.
Qed.

Lemma dedup_id l : NoDup l → dedup l = l.
Proof. intros. apply dedup_from_id; set_solver. Qed.

Lemma length_dedup_from_le seen l : (length (dedup_from seen l) ≤ length l)%nat.
Proof.
  revert seen. induction l as [|y l IH]; intros seen; simpl; [done|].
  case_decide; simpl; [specialize (IH seen)|specialize (IH (y :: seen))]; lia.
Qed.

(** [new Set(l).size === l.length] says that [l] has no duplicates. *)
Lemma length_dedup_NoDup l : length (dedup l) = length l ↔ NoDup l.
Proof.
  split; [|intros; by rewrite dedup_id].
  unfold dedup. generalize (@nil A). induction l as [|y l IH]; intros seen; simpl.
  { intros _. constructor. }
  pose proof (length_dedup_from_le seen l).
  case_decide; simpl; [lia|]. intros Hlen. injection Hlen as Hlen.
  constructor; [|by eapply IH].
  intros Hy. assert (y ∈ dedup_from (y :: seen) l → False) as Hn.
  { rewrite elem_of_dedup_from. set_solver. }
  assert (dedup_from (y :: seen) l ≡ₚ l) as Hp.
  { apply (submseteq_length_Permutation _ l); [|lia].
    apply NoDup_submseteq; [apply NoDup_dedup_from|].
    intros z. rewrite elem_of_dedup_from. tauto. }
  apply Hn. by rewrite Hp.
Qed.
End set_lemmas.

(** ** Table lemmas *)

Section find_lemmas.
Context {A K : Type} `{EqDecision K} (key : A → K).
Implicit Types (rows : list A) (r : A) (k : K).

Lemma find_by_Some k rows r : find_by key k rows = Some r → r ∈ rows ∧ key r = k.
Proof.
  induction rows as [|x rows IH]; simpl; [done|].
  case_decide; intros; simplify_eq; set_solver.
Qed.

Lemma find_by_None k rows : find_by key k rows = None ↔ k ∉ key <$> rows.
Proof.
  induction rows as [|x rows IH]; simpl; [set_solver|]. case_decide; set_solver.
Qed.

Lemma find_by_elem rows r :
  NoDup (key <$> rows) → r ∈ rows → find_by key (key r) rows = Some r.
Proof.
  induction rows as [|x rows IH]; simpl; [set_solver|].
  intros [Hx Hnd]%NoDup_cons [->|Hr]%elem_of_cons; [by rewrite decide_True|].
  rewrite decide_False; [by apply IH|]. intros Heq. apply Hx. rewrite Heq.
  by apply list_elem_of_fmap_2.
Qed.

End find_lemmas.

Section table_lemmas.
Context {A K : Type} `{EqDecision K} (key : A → K) (merge : A → A → A).
Context (merge_key : ∀ old row, key (merge old row) = key old).
Implicit Types (t rows : list A) (r : A) (k : K).

Lemma upsert_present r t :
  NoDup (key <$> t) → key r ∈ key <$> t →
  upsert key merge r t = (λ old, if decide (key old = key r) then merge old r else old) <$> t.
Proof.
  induction t as [|x t IH]; simpl; [set_solver|].
  intros [Hx Hnd]%NoDup_cons Hin. case_decide as Hk.
  - f_equal. symmetry. rewrite <-(list_fmap_id t) at 2. apply list_fmap_ext.
    intros i y Hy. rewrite decide_False; [done|]. intros Heq. apply Hx. rewrite Hk, <-Heq.
    apply list_elem_of_fmap_2. by eapply list_elem_of_lookup_2.
  - f_equal. apply IH; [done|]. set_solver.
Qed.

Lemma upsert_keys r t :
  key r ∈ key <$> t → key <$> upsert key merge r t = key <$> t.
Proof.
  induction t as [|x t IH]; simpl; [set_solver|]. intros Hin.
  case_decide as Hk; simpl; [by rewrite merge_key|]. f_equal. apply IH. set_solver.
Qed.

(** Reading after an upsert. *)
Lemma find_by_upsert k r t :
  find_by key k (upsert key merge r t) =
  if decide (key r = k) then Some (from_option (λ old, merge old r) r (find_by key k t))
  else find_by key k t.
Proof.
  induction t as [|x t IH]; simpl; [done|]. destruct (decide (key x = key r)) as [Hk|Hk]; simpl.
  - rewrite merge_key. repeat case_decide; congruence || done.
  - rewrite IH. repeat case_decide; congruence || done.
Qed.

(** Updating present rows, each at most once, is one pass over the table. *)
Lemma upsert_batch_present rows t :
  NoDup (key <$> t) → NoDup (key <$> rows) → (∀ r, r ∈ rows → key r ∈ key <$> t) →
  upsert_batch key merge rows t =
    (λ old, match find_by key (key old) rows with Some r => merge old r | None => old end) <$> t.
Proof.
  unfold upsert_batch. revert t. induction rows as [|r rows IH]; intros t Ht Hrows Hin; simpl.
  { symmetry. apply list_fmap_id. }
  simpl in Hrows. apply NoDup_cons in Hrows as [Hr Hrows].
  assert (key r ∈ key <$> t) as Hrt by set_solver.
  rewrite IH; [| by rewrite upsert_keys | done | intros; rewrite upsert_keys by done; set_solver].
  rewrite upsert_present by done. rewrite <-list_fmap_compose. apply list_fmap_ext.
  intros _ old _. unfold compose. destruct (decide (key old = key r)) as [Hk|Hk].
  - rewrite decide_True by done. rewrite merge_key, Hk.
    assert (find_by key (key r) rows = None) as -> by (by apply find_by_None). done.
  - by rewrite decide_False by done.
Qed.

Lemma upsert_batch_keys rows t :
  (∀ r, r ∈ rows → key r ∈ key <$> t) → key <$> upsert_batch key merge rows t = key <$> t.
Proof.
  unfold upsert_batch. revert t. induction rows as [|r rows IH]; intros t Hin; simpl; [done|].
  rewrite IH; rewrite upsert_keys; set_solver.
Qed.

(** Writing rows with fresh keys appends them. *)
Lemma upsert_fresh r t : key r ∉ key <$> t → upsert key merge r t = t ++ [r].
Proof.
  clear merge_key. induction t as [|x t IH]; simpl; [done|]. intros Hn.
  rewrite decide_False; [|intros Heq; apply Hn; rewrite Heq; set_solver]. f_equal. apply IH. set_solver.
Qed.

Lemma upsert_batch_fresh rows t :
  NoDup (key <$> t ++ rows) → upsert_batch key merge rows t = t ++ rows.
Proof.
  clear merge_key.
  unfold upsert_batch. revert t. induction rows as [|r rows IH]; intros t Hnd; simpl.
  { by rewrite app_nil_r. }
  assert (key r ∉ key <$> t) as Hr.
  { rewrite fmap_app, NoDup_app in Hnd. intros Hin. apply (proj1 (proj2 Hnd) _ Hin). simpl. set_solver. }
  rewrite upsert_fresh by done. rewrite IH; by rewrite <-app_assoc.
Qed.

(** Reading rows, changing them and writing them back is one pass over the table. *)
Lemma upsert_batch_image (P : A → Prop) `{∀ a, Decision (P a)} (f : A → A) rows t :
  NoDup (key <$> t) → rows ≡ₚ f <$> filter P t →
  (∀ a, P a → key (f a) = key a) → (∀ a, P a → merge a (f a) = f a) →
  upsert_batch key merge rows t = (λ a, if decide (P a) then f a else a) <$> t.
Proof.
  intros Hnd Hrows Hkey Hmerge.
  assert (key <$> (f <$> filter P t) = key <$> filter P t) as Hkeys.
  { rewrite <-list_fmap_compose. apply list_fmap_ext. intros i a Ha.
    apply Hkey. apply list_elem_of_lookup_2, list_elem_of_filter in Ha. tauto. }
  assert (NoDup (key <$> rows)) as Hndr.
  { rewrite Hrows, Hkeys. eapply sublist_NoDup; [exact Hnd|]. apply fmap_sublist, sublist_filter. }
  rewrite upsert_batch_present; [|done..|].
  - apply list_fmap_ext. intros i a Ha%list_elem_of_lookup_2. case_decide as HP.
    + assert (find_by key (key a) rows = Some (f a)) as ->; [|by apply Hmerge].
      rewrite <-(Hkey a HP). apply find_by_elem; [done|]. rewrite Hrows.
      apply list_elem_of_fmap_2, list_elem_of_filter. done.
    + assert (find_by key (key a) rows = None) as ->; [|done].
      apply find_by_None. rewrite Hrows, Hkeys. intros Hin.
      apply list_elem_of_fmap in Hin as (b & Heq & [HPb Hb]%list_elem_of_filter).
      apply HP. assert (a = b) as ->; [|done].
      apply list_elem_of_lookup in Ha as [i1 Ha], Hb as [j Hb].
      assert (i1 = j) as ->; [|congruence].
      eapply NoDup_lookup; [exact Hnd|by rewrite list_lookup_fmap, Ha|].
      rewrite list_lookup_fmap, Hb. simpl. by rewrite Heq.
  - intros r Hr. rewrite Hrows in Hr. apply (list_elem_of_fmap_2 key) in Hr.
    rewrite Hkeys in Hr. apply list_elem_of_fmap in Hr as (b & -> & [_ Hb]%list_elem_of_filter).
    by apply list_elem_of_fmap_2.
Qed.
End table_lemmas.

(** A [Map] of rows with distinct keys is read as the rows are. *)
Lemma map_get_entries {A K V} `{EqDecision K} (key : A → K) (val : A → V) (rows : list A) k :
  NoDup (key <$> rows) → map_get k (map_of_entries ((λ r, (key r, val r)) <$> rows)) = val <$> find_by key k rows.
Proof.
  intros Hnd. destruct (find_by key k rows) as [r|] eqn:E; cbn.
  - apply find_by_Some in E as [Hin <-]. rewrite map_of_entries_get_last. apply elem_of_map_get.
    + unfold map_keys. rewrite <-(Permutation_rev (_ <$> rows)). by rewrite <-list_fmap_compose.
    + rewrite <-(Permutation_rev (_ <$> rows)). apply (list_elem_of_fmap_2 (λ r, (key r, val r))). done.
  - apply find_by_None in E. apply eq_None_not_Some. rewrite map_get_is_Some, map_of_entries_keys.
    by rewrite <-list_fmap_compose.
Qed.

Lemma map_get_map_by {A K} `{EqDecision K} (key : A → K) (rows : list A) k :
  NoDup (key <$> rows) → map_get k (map_by key rows) = find_by key k rows.
Proof.
  intros Hnd. unfold map_by. change (map (λ r, (key r, r)) rows) with ((λ r, (key r, r)) <$> rows).
  rewrite map_get_entries by done. by destruct (find_by key k rows).
Qed.
