(* ===== verification/JsNumber.v ===== *)
(** * JavaScript strings and [Number(string)]

    A string is its list of UTF-16 code units.  A number is [NaN], an infinity or a dyadic
    rational [m * 2 ^ e]; [Number(s)] parses the whole [StringNumericLiteral] grammar and rounds
    to the nearest double, ties to even, so integers of any length behave as they do at run time
    (exact below [2 ^ 53], rounded above, infinite from about [2 ^ 1024]).  The sign of zero is
    not kept: the code never tells [-0] from [0]. *)

From Stdlib Require Import Ascii.
From S2P Require Import Prelude JsCollections.

Definition jsstr : Type := list Z.

(** An ASCII literal as a JS string. *)
Fixpoint js (s : string) : jsstr :=
  match s with
  | EmptyString => []
  | String a s' => Z.of_nat (nat_of_ascii a) :: js s'
  end.

(** ** White space and [trim] *)

Definition is_space (c : Z) : bool :=
  ((9 <=? c) && (c <=? 13)) || (c =? 32) || (c =? 160) || (c =? 5760)
  || ((8192 <=? c) && (c <=? 8202)) || (c =? 8232) || (c =? 8233) || (c =? 8239)
  || (c =? 8287) || (c =? 12288) || (c =? 65279).

Fixpoint trim_start (s : jsstr) : jsstr :=
  match s with
  | [] => []
  | c :: s' => if is_space c then trim_start s' else s
  end.

(** [s.trim()] *)
Definition js_trim (s : jsstr) : jsstr := rev (trim_start (rev (trim_start s))).

(** ** Character classes and case *)

Definition is_digit (c : Z) : bool := (48 <=? c) && (c <=? 57).
Definition is_upper (c : Z) : bool := (65 <=? c) && (c <=? 90).
Definition is_lower (c : Z) : bool := (97 <=? c) && (c <=? 122).

(** Lower case of an ASCII letter; other code units are kept. *)
Definition ascii_lower (c : Z) : Z := if is_upper c then c + 32 else c.

Definition lower_eqb (s t : jsstr) : bool := bool_decide (map ascii_lower s = map ascii_lower t).

(** ** Numbers *)

Inductive number :=
| NaN
| Infinite (neg : bool)
| Fin (m e : Z).

Definition is_finite (x : number) : bool := match x with Fin _ _ => true | _ => false end.

Definition is_integer (x : number) : bool :=
  match x with
  | Fin m e => (0 <=? e) || (m mod 2 ^ (- e) =? 0)
  | _ => false
  end.

(** The value of an integer double. *)
Definition int_value (x : number) : Z :=
  match x with
  | Fin m e => if 0 <=? e then m * 2 ^ e else m / 2 ^ (- e)
  | _ => 0
  end.

(** [a === b] *)
Definition number_eqb (a b : number) : bool :=
  match a, b with
  | Fin m e, Fin m' e' => m * 2 ^ (e - Z.min e e') =? m' * 2 ^ (e' - Z.min e e')
  | Infinite s, Infinite s' => Bool.eqb s s'
  | _, _ => false
  end.

(** [a < b] *)
Definition number_ltb (a b : number) : bool :=
  match a, b with
  | Fin m e, Fin m' e' => m * 2 ^ (e - Z.min e e') <? m' * 2 ^ (e' - Z.min e e')
  | Infinite true, Infinite true | Infinite false, _ | NaN, _ | _, NaN => false
  | _, Infinite false | Infinite true, _ => true
  | Fin _ _, Infinite true => false
  end.

(** The sign of [a - b]. *)
Definition number_cmp (a b : number) : Z := if number_ltb a b then -1 else if number_ltb b a then 1 else 0.

(** [a > 0] *)
Definition is_positive (x : number) : bool :=
  match x with
  | Fin m _ => 0 <? m
  | Infinite neg => negb neg
  | NaN => false
  end.

Definition of_int (n : Z) : number := Fin n 0.

(** The double nearest to [p / q] ([p], [q] positive), ties to even. *)
Definition round_ratio (p q : Z) : number :=
  let d := Z.log2 p - Z.log2 q in
  let l := if p * 2 ^ Z.max 0 (- d) <? q * 2 ^ Z.max 0 d then d - 1 else d in
  let e := Z.max (-1074) (l - 52) in
  let num := p * 2 ^ Z.max 0 (- e) in
  let den := q * 2 ^ Z.max 0 e in
  let n := num / den in
  let r := num mod den in
  let n' := if (2 * r <? den) || ((2 * r =? den) && Z.even n) then n else n + 1 in
  if 2 ^ 1024 <=? n' * 2 ^ Z.max 0 e then Infinite false else Fin n' e.

(** The double nearest to [m * 10 ^ e] ([m >= 0]). *)
Definition round_decimal (m e : Z) : number :=
  if m =? 0 then Fin 0 0
  else if 0 <=? e then round_ratio (m * 10 ^ e) 1 else round_ratio m (10 ^ (- e)).

Definition number_opp (x : number) : number :=
  match x with
  | NaN => NaN
  | Infinite neg => Infinite (negb neg)
  | Fin m e => Fin (- m) e
  end.

(** The double nearest to [n / q] ([q] positive). *)
Definition signed_ratio (n q : Z) : number :=
  if n =? 0 then Fin 0 0 else if n <? 0 then number_opp (round_ratio (- n) q) else round_ratio n q.

(** [a + b] *)
Definition number_add (a b : number) : number :=
  match a, b with
  | Fin m e, Fin m' e' =>
      if is_integer a && is_integer b then signed_ratio (int_value a + int_value b) 1 else
      let e0 := Z.min e e' in
      let sum := m * 2 ^ (e - e0) + m' * 2 ^ (e' - e0) in
      signed_ratio (sum * 2 ^ Z.max 0 e0) (2 ^ Z.max 0 (- e0))
  | NaN, _ | _, NaN => NaN
  | Infinite s, Infinite s' => if Bool.eqb s s' then Infinite s else NaN
  | Infinite s, _ | _, Infinite s => Infinite s
  end.

(** ** [Number(s)] *)

Fixpoint span (f : Z → bool) (s : jsstr) : jsstr * jsstr :=
  match s with
  | c :: s' => if f c then let '(a, b) := span f s' in (c :: a, b) else ([], s)
  | [] => ([], [])
  end.

(** Value of a letter or decimal digit, for radices up to 16. *)
Definition digit_value (c : Z) : Z :=
  if is_digit c then c - 48 else ascii_lower c - 87.

Definition digits_value (radix : Z) (ds : jsstr) : Z :=
  fold_left (λ acc c, radix * acc + digit_value c) ds 0.

Definition is_radix_digit (radix c : Z) : bool :=
  (is_digit c || ((97 <=? ascii_lower c) && (ascii_lower c <=? 102))) && (digit_value c <? radix).

Definition parse_radix (radix : Z) (s : jsstr) : number :=
  if negb (is_nil s) && forallb (is_radix_digit radix) s
  then (let v := digits_value radix s in if v =? 0 then Fin 0 0 else round_ratio v 1)
  else NaN.

(** The exponent part: absent, or [e] with an optional sign and digits to the end. *)
Definition parse_exponent (s : jsstr) : option Z :=
  match s with
  | [] => Some 0
  | c :: s' =>
      if ascii_lower c =? 101 then
        let '(sign, ds) := match s' with
          | 43 :: r => (1, r)
          | 45 :: r => (-1, r)
          | _ => (1, s')
          end in
        if negb (is_nil ds) && forallb is_digit ds then Some (sign * digits_value 10 ds) else None
      else None
  end.

Definition parse_unsigned (s : jsstr) : number :=
  if bool_decide (s = js "Infinity") then Infinite false else
  let '(ints, r) := span is_digit s in
  let '(fracs, r') := match r with
    | 46 :: r1 => span is_digit r1
    | _ => ([], r)
    end in
  if is_nil (ints ++ fracs) then NaN else
  match parse_exponent r' with
  | None => NaN
  | Some e => round_decimal (digits_value 10 (ints ++ fracs)) (e - Z.of_nat (length fracs))
  end.

Definition Number (s : jsstr) : number :=
  match js_trim s with
  | [] => Fin 0 0
  | 48 :: c :: r =>
      if ascii_lower c =? 120 then parse_radix 16 r
      else if ascii_lower c =? 111 then parse_radix 8 r
      else if ascii_lower c =? 98 then parse_radix 2 r
      else parse_unsigned (48 :: c :: r)
  | 43 :: r => parse_unsigned r
  | 45 :: r => number_opp (parse_unsigned r)
  | t => parse_unsigned t
  end.

(** [parseFloat(s)]: the longest prefix that is a number. *)
Definition parseFloat (s : jsstr) : number :=
  let parse t := match t with
    | 43 :: r => parse_unsigned r
    | 45 :: r => number_opp (parse_unsigned r)
    | _ => parse_unsigned t
    end in
  let t := trim_start s in
  default NaN (find (λ x, match x with NaN => false | _ => true end)
    ((λ n, parse (take n t)) <$> rev (seq 1 (length t)))).

#[global] Arguments Number : simpl never.

(** ** Decimal digit strings *)

Lemma round_ratio_exact p : 0 < p < 2 ^ 53 →
  is_integer (round_ratio p 1) = true ∧ int_value (round_ratio p 1) = p ∧
  is_positive (round_ratio p 1) = true.
Proof.
  intros Hp. unfold round_ratio. change (Z.log2 1) with 0. rewrite Z.sub_0_r.
  pose proof (Z.log2_nonneg p). pose proof (Z.log2_spec p ltac:(lia)) as [Hlo _].
  assert (Z.log2 p < 53) by (apply Z.log2_lt_pow2; lia).
  rewrite (Z.max_l 0 (- Z.log2 p)), (Z.max_r 0 (Z.log2 p)) by lia.
  rewrite Z.mul_1_l, Z.pow_0_r, Z.mul_1_r.
  destruct (Z.ltb_spec p (2 ^ Z.log2 p)); [lia|].
  rewrite (Z.max_r (-1074)) by lia.
  set (e := Z.log2 p - 52). assert (-52 ≤ e ≤ 0) as He by (unfold e; lia).
  rewrite (Z.max_l 0 e), (Z.max_r 0 (- e)), Z.pow_0_r, !Z.mul_1_l, Z.div_1_r, Z.mod_1_r by lia.
  pose proof (Z.pow_pos_nonneg 2 (- e)) as Hpos.
  assert (2 ^ (- e) ≤ 2 ^ 52) by (apply Z.pow_le_mono_r; lia).
  change (2 * 0 <? 1) with true. cbn [orb]. rewrite Z.mul_1_r.
  destruct (Z.leb_spec (2 ^ 1024) (p * 2 ^ (- e))) as [Hbig|].
  { exfalso. assert (p * 2 ^ (- e) < 2 ^ 53 * 2 ^ 53) by nia.
    assert (2 ^ 53 * 2 ^ 53 < 2 ^ 1024) by (vm_compute; reflexivity). lia. }
  unfold is_integer, int_value, is_positive.
  destruct (Z.leb_spec 0 e).
  - assert (e = 0) as -> by lia. simpl. rewrite !Z.mul_1_r.
    split_and!; [done|done|]. apply Z.ltb_lt. lia.
  - rewrite Z.mod_mul, Z.div_mul by lia. split_and!; [done|done|]. apply Z.ltb_lt. nia.
Qed.

(** Sums of small integers are exact. *)
Lemma signed_ratio_exact n : Z.abs n < 2 ^ 53 →
  is_integer (signed_ratio n 1) = true ∧ int_value (signed_ratio n 1) = n.
Proof.
  intros Hn. unfold signed_ratio. destruct (Z.eqb_spec n 0) as [->|]; [done|]. destruct (Z.ltb_spec n 0).
  - destruct (round_ratio_exact (- n)) as (Hi & Hv & _); [lia|].
    destruct (round_ratio (- n) 1) as [| |m e]; [done..|]. unfold is_integer, int_value, number_opp in *.
    destruct (Z.leb_spec 0 e); cbn [orb] in *; [split; [done|lia]|]. apply Z.eqb_eq in Hi.
    assert (0 < 2 ^ (- e)) by (apply Z.pow_pos_nonneg; lia).
    rewrite Z.mod_opp_l_z, Z.div_opp_l_z by lia. split; [done|lia].
  - destruct (round_ratio_exact n) as (Hi & Hv & _); [lia|]. done.
Qed.

Lemma number_add_exact a b :
  is_integer a = true → is_integer b = true → Z.abs (int_value a + int_value b) < 2 ^ 53 →
  is_integer (number_add a b) = true ∧ int_value (number_add a b) = int_value a + int_value b.
Proof.
  intros Ha Hb Hs. destruct a as [| |m e], b as [| |m' e']; try done. unfold number_add. rewrite Ha, Hb.
  by apply signed_ratio_exact.
Qed.

Lemma is_digit_not_space c : is_digit c = true → is_space c = false.
Proof.
  unfold is_digit, is_space. intros H. boolsolve.
  repeat (apply orb_false_intro); rewrite ?andb_false_iff, ?Z.leb_gt, ?Z.eqb_neq; lia.
Qed.

Lemma ascii_lower_letter_not_space c : is_lower (ascii_lower c) = true → is_space c = false.
Proof.
  unfold is_lower, is_space. intros H. boolsolve. unfold ascii_lower, is_upper in *.
  destruct ((65 <=? c) && (c <=? 90)) eqn:E; boolsolve.
  all: repeat (apply orb_false_intro); rewrite ?andb_false_iff, ?Z.leb_gt, ?Z.eqb_neq; lia.
Qed.

Lemma trim_start_id s : (∀ c, c ∈ s → is_space c = false) → trim_start s = s.
Proof. destruct s as [|c s]; simpl; [done|]. intros H. rewrite H; set_solver. Qed.

Lemma js_trim_id s : (∀ c, c ∈ s → is_space c = false) → js_trim s = s.
Proof.
  intros H. unfold js_trim. rewrite (trim_start_id s) by done.
  rewrite trim_start_id, rev_involutive; [done|].
  intros c. rewrite <-Permutation_rev. apply H.
Qed.

Lemma span_all f s : forallb f s = true → span f s = (s, []).
Proof.
  induction s as [|c s IH]; simpl; [done|]. intros [Hc Hs]%andb_true_iff.
  by rewrite Hc, IH.
Qed.

Lemma parse_unsigned_digits ds :
  ds ≠ [] → forallb is_digit ds = true →
  parse_unsigned ds = round_decimal (digits_value 10 ds) 0.
Proof.
  intros Hne Hd. unfold parse_unsigned. rewrite bool_decide_eq_false_2.
  2: { intros ->. vm_compute in Hd. done. }
  rewrite span_all by done. rewrite app_nil_r. destruct ds; [done|]. simpl is_nil. cbv iota.
  simpl parse_exponent. done.
Qed.

Lemma ascii_lower_digit c : is_digit c = true → ascii_lower c = c ∧ 48 ≤ c ≤ 57.
Proof.
  unfold is_digit, ascii_lower, is_upper. intros H. boolsolve.
  destruct (Z.leb_spec 65 c); simpl; lia.
Qed.

Lemma Number_digits ds :
  ds ≠ [] → forallb is_digit ds = true → Number ds = round_decimal (digits_value 10 ds) 0.
Proof.
  intros Hne Hd. unfold Number. rewrite js_trim_id.
  2: { intros c Hc. apply is_digit_not_space. rewrite forallb_forall in Hd.
       apply Hd. by apply list_elem_of_In. }
  pose proof (parse_unsigned_digits ds Hne Hd) as Hp.
  destruct ds as [|c0 ds]; [done|]. simpl in Hd. apply andb_true_iff in Hd as [Hc0 Hds].
  pose proof (ascii_lower_digit c0 Hc0) as [_ Hr0].
  assert (c0 = 48 ∨ c0 = 49 ∨ c0 = 50 ∨ c0 = 51 ∨ c0 = 52 ∨ c0 = 53 ∨ c0 = 54 ∨ c0 = 55 ∨ c0 = 56
    ∨ c0 = 57) as Hcases by lia.
  destruct Hcases as [->|Hcases]; [|repeat (destruct Hcases as [->|Hcases]; [exact Hp|]); subst c0; exact Hp].
  destruct ds as [|c1 ds]; [done|]. simpl in Hds. apply andb_true_iff in Hds as [Hc1 _].
  pose proof (ascii_lower_digit c1 Hc1) as [-> Hr1].
  destruct (Z.eqb_spec c1 120), (Z.eqb_spec c1 111), (Z.eqb_spec c1 98); try lia. done.
Qed.

Lemma digits_value_nonneg ds : forallb is_digit ds = true → 0 ≤ digits_value 10 ds.
Proof.
  intros Hd. unfold digits_value. revert Hd.
  assert (∀ a, 0 ≤ a → forallb is_digit ds = true →
    0 ≤ fold_left (λ acc c, 10 * acc + digit_value c) ds a) as Hgen; [|by apply Hgen].
  induction ds as [|c ds IH]; intros a Ha; simpl; [done|]. intros [Hc Hd]%andb_true_iff.
  apply IH; [|done]. unfold digit_value. rewrite Hc. pose proof (ascii_lower_digit c Hc). lia.
Qed.

(** Digit strings below [2 ^ 53] are read exactly. *)
Lemma Number_digits_exact ds :
  ds ≠ [] → forallb is_digit ds = true → digits_value 10 ds < 2 ^ 53 →
  is_integer (Number ds) = true ∧ int_value (Number ds) = digits_value 10 ds ∧
  is_positive (Number ds) = (0 <? digits_value 10 ds).
Proof.
  intros Hne Hd Hlt. rewrite Number_digits by done. pose proof (digits_value_nonneg ds Hd).
  unfold round_decimal. destruct (Z.eqb_spec (digits_value 10 ds) 0) as [->|]; [done|].
  simpl. rewrite Z.mul_1_r. destruct (round_ratio_exact (digits_value 10 ds)) as (-> & -> & ->);
    [lia|]. split_and!; [done..|]. symmetry. apply Z.ltb_lt. lia.
Qed.

Example Number_examples :
  Number (js " 12 ") = round_ratio 12 1 ∧ int_value (Number (js "12")) = 12 ∧
  int_value (Number (js "1e3")) = 1000 ∧ int_value (Number (js "0x10")) = 16 ∧
  int_value (Number (js "9007199254740993")) = 9007199254740992 ∧
  is_integer (Number (js "1.5")) = false ∧ Number (js "12a") = NaN ∧ Number (js "") = Fin 0 0.
Proof. vm_compute. auto 10. Qed.

Example parseFloat_examples :
  int_value (parseFloat (js " 12abc")) = 12 ∧ parseFloat (js "abc") = NaN ∧
  int_value (parseFloat (js "-3e2x")) = -300 ∧
  number_add (parseFloat (js "0.1")) (parseFloat (js "0.2")) = parseFloat (js "0.30000000000000004").
Proof. vm_compute. auto. Qed.

(** ** Order *)

(** Lexical order of strings, by code units. *)
Fixpoint compare_str (a b : jsstr) : Z :=
  match a, b with
  | [], [] => 0
  | [], _ :: _ => -1
  | _ :: _, [] => 1
  | x :: a', y :: b' => if x <? y then -1 else if y <? x then 1 else compare_str a' b'
  end.

Lemma compare_str_eq a b : compare_str a b = 0 → a = b.
Proof.
  revert b. induction a as [|x a IH]; intros [|y b]; simpl; try done.
  destruct (Z.ltb_spec x y); [done|]. destruct (Z.ltb_spec y x); [done|].
  intros ->%IH. f_equal. lia.
Qed.

Lemma compare_str_flip a b : compare_str b a = - compare_str a b.
Proof.
  revert b. induction a as [|x a IH]; intros [|y b]; simpl; try done.
  destruct (Z.ltb_spec x y), (Z.ltb_spec y x); try done; lia.
Qed.

Lemma compare_str_trans a b c :
  compare_str a b ≤ 0 → compare_str b c ≤ 0 → compare_str a c ≤ 0.
Proof.
  revert b c. induction a as [|x a IH]; intros [|y b] [|z c]; simpl; try lia.
  destruct (Z.ltb_spec x y), (Z.ltb_spec y x), (Z.ltb_spec y z), (Z.ltb_spec z y),
    (Z.ltb_spec x z), (Z.ltb_spec z x); try lia. apply IH.
Qed.

#[export] Instance compare_str_comparator : Comparator compare_str.
Proof.
  split; [intros; pose proof (compare_str_flip x y); lia|].
  intros x y z. apply compare_str_trans.
Qed.

(** ** Printing integers *)

Fixpoint digits_loop (fuel : nat) (n : Z) (acc : jsstr) : jsstr :=
  match fuel with
  | O => acc
  | S fuel' =>
      let acc := (48 + n mod 10) :: acc in
      if n <? 10 then acc else digits_loop fuel' (n / 10) acc
  end.

(** [`${n}`] for an integer [n]; the number of bits bounds the number of digits. *)
Definition print_int (n : Z) : jsstr :=
  let digits n := digits_loop (S (Z.to_nat (Z.log2 n))) n [] in
  if n <? 0 then 45 :: digits (- n) else digits n.

Lemma digit_value_digit d : 0 ≤ d < 10 → digit_value (48 + d) = d.
Proof. intros. unfold digit_value, is_digit. destruct (Z.leb_spec 48 (48 + d)), (Z.leb_spec (48 + d) 57); simpl; lia. Qed.

Lemma digits_loop_value fuel n acc :
  0 ≤ n < 2 ^ Z.of_nat fuel → (0 < fuel)%nat →
  fold_left (λ a c, 10 * a + digit_value c) (digits_loop fuel n acc) 0 =
  fold_left (λ a c, 10 * a + digit_value c) acc n.
Proof.
  revert n acc. induction fuel as [|fuel IH]; intros n acc Hn Hf; [lia|].
  cbn [digits_loop]. rewrite Nat2Z.inj_succ, Z.pow_succ_r in Hn by lia.
  destruct (Z.ltb_spec n 10).
  - cbn [fold_left]. rewrite digit_value_digit, Z.mod_small by divlia. done.
  - rewrite IH.
    + cbn [fold_left]. rewrite digit_value_digit by divlia. f_equal. divlia.
    + split; [divlia|]. apply Z.div_lt_upper_bound; lia.
    + destruct fuel; [simpl in Hn|]; lia.
Qed.

Lemma digits_loop_digits fuel n acc :
  0 ≤ n → forallb is_digit acc = true → forallb is_digit (digits_loop fuel n acc) = true.
Proof.
  revert n acc. induction fuel as [|fuel IH]; intros n acc Hn Hacc; [done|]. cbn [digits_loop].
  assert (forallb is_digit ((48 + n mod 10) :: acc) = true) as Hc.
  { cbn [forallb]. rewrite Hacc, andb_true_r. unfold is_digit.
    destruct (Z.leb_spec 48 (48 + n mod 10)), (Z.leb_spec (48 + n mod 10) 57); divlia || done. }
  destruct (n <? 10); [done|]. apply IH; [divlia|done].
Qed.

Lemma print_int_digits n : 0 ≤ n → forallb is_digit (print_int n) = true.
Proof. intros. unfold print_int. destruct (Z.ltb_spec n 0); [lia|]. by apply digits_loop_digits. Qed.

(** Printing and reading back. *)
Lemma digits_value_print n : 0 ≤ n → digits_value 10 (print_int n) = n.
Proof.
  intros Hn. unfold print_int, digits_value. destruct (Z.ltb_spec n 0); [lia|].
  rewrite digits_loop_value; [done| |lia].
  destruct (Z.eq_dec n 0) as [->|]; [done|].
  rewrite Nat2Z.inj_succ, Z2Nat.id by (apply Z.log2_nonneg).
  pose proof (Z.log2_spec n). lia.
Qed.

Lemma print_int_inj n m : 0 ≤ n → 0 ≤ m → print_int n = print_int m → n = m.
Proof. intros Hn Hm H. by rewrite <-(digits_value_print n), <-(digits_value_print m), H by done. Qed.
