(* ===== verification/JsDate.v ===== *)
(** * JavaScript dates

    Instants are milliseconds since 1970.  [Date.parse] of the date-time format of ECMAScript
    (section "Date Time String Format") and [getUTCFullYear].  The reading of other texts is left to
    implementations by the standard, and the offset of local time to the host: both are parameters. *)

From S2P Require Import Prelude JsCollections JsNumber.

Definition MS_PER_DAY : Z := 86400000.

(** ** The civil calendar

    Years start in March here, so that the leap day is the last of its year; 719468 days lie between
    the first of March of year 0 and 1970. *)

(** Days before March of the year [yoe] of an era of 400 years. *)
Definition year_days (yoe : Z) : Z := 365 * yoe + yoe / 4 - yoe / 100.

Definition days_of_civil (y m d : Z) : Z :=
  let y := if m <=? 2 then y - 1 else y in
  let doy := (153 * (if 2 <? m then m - 3 else m + 9) + 2) / 5 + d - 1 in
  y / 400 * 146097 + year_days (y mod 400) + doy - 719468.

(** [date.getUTCFullYear()] *)
Definition utc_year (ms : Z) : Z :=
  let z := ms / MS_PER_DAY + 719468 in
  let doe := z mod 146097 in
  let yoe := (doe - doe / 1460 + doe / 36524 - doe / 146096) / 365 in
  let mp := (5 * (doe - year_days yoe) + 2) / 153 in
  yoe + z / 146097 * 400 + (if mp <? 10 then 0 else 1).

Definition is_leap (y : Z) : bool := (y mod 4 =? 0) && (negb (y mod 100 =? 0) || (y mod 400 =? 0)).

Definition days_in_month (y m : Z) : Z :=
  if m =? 2 then (if is_leap y then 29 else 28)
  else if (m =? 4) || (m =? 6) || (m =? 9) || (m =? 11) then 30 else 31.

(** ** [Date.parse] *)

(** The next [n] characters as a number, if they are digits. *)
Definition take_digits (n : nat) (s : jsstr) : option (Z * jsstr) :=
  let ds := take n s in
  if (length ds =? n)%nat && forallb is_digit ds then Some (digits_value 10 ds, drop n s) else None.

Definition expect (c : string) (s : jsstr) : option jsstr :=
  match s, js c with
  | x :: s', [y] => if x =? y then Some s' else None
  | _, _ => None
  end.

(** An optional [c] and [n] digits; [default] when [c] is not next. *)
Definition optional_digits (c : string) (n : nat) (default : Z) (s : jsstr) : option (Z * jsstr) :=
  match expect c s with Some s' => take_digits n s' | None => Some (default, s) end.

(** [YYYY] or [+YYYYYY] or [-YYYYYY]; the year minus zero is not written. *)
Definition parse_year (s : jsstr) : option (Z * jsstr) :=
  match expect "+" s, expect "-" s with
  | Some s', _ => take_digits 6 s'
  | _, Some s' => p ← take_digits 6 s'; if p.1 =? 0 then None else Some (- p.1, p.2)
  | _, _ => take_digits 4 s
  end.

(** The offset of the text in minutes, [None] for local time. *)
Definition parse_offset (s : jsstr) : option (option Z) :=
  match s with
  | [] => Some None
  | [90] => Some (Some 0)
  | _ =>
      let sign := match expect "+" s with Some s' => Some (1, s')
                  | None => pair (-1) <$> expect "-" s end in
      signed ← sign;
      hours ← take_digits 2 signed.2;
      s ← expect ":" hours.2;
      minutes ← take_digits 2 s;
      if is_nil minutes.2 && (hours.1 <? 24) && (minutes.1 <? 60)
      then Some (Some (signed.1 * (hours.1 * 60 + minutes.1))) else None
  end.

(** The time of a day in milliseconds, and the offset. *)
Definition parse_time (s : jsstr) : option (Z * option Z) :=
  hours ← take_digits 2 s;
  s ← expect ":" hours.2;
  minutes ← take_digits 2 s;
  seconds ← optional_digits ":" 2 0 minutes.2;
  millis ← optional_digits "." 3 0 seconds.2;
  offset ← parse_offset millis.2;
  let time := ((hours.1 * 60 + minutes.1) * 60 + seconds.1) * 1000 + millis.1 in
  if (minutes.1 <? 60) && (seconds.1 <? 60) && (time <=? MS_PER_DAY) then Some (time, offset) else None.

Section parse.
Context (localOffset : Z → Z).             (* minutes, of a local time in milliseconds *)
Context (legacyParse : jsstr → option Z).  (* other texts *)

(** The instant of a text in the format, if its fields are in range. *)
Definition parse_iso (s : jsstr) : option Z :=
  year ← parse_year s;
  month ← optional_digits "-" 2 1 year.2;
  day ← optional_digits "-" 2 1 month.2;
  time ← (match expect "T" day.2 with
          | Some s' => parse_time s'
          | None => if is_nil day.2 then Some (0, Some 0) else None
          end);
  if (1 <=? month.1) && (month.1 <=? 12) && (1 <=? day.1) && (day.1 <=? days_in_month year.1 month.1) then
    let local := days_of_civil year.1 month.1 day.1 * MS_PER_DAY + time.1 in
    Some (local - (match time.2 with Some o => o | None => localOffset local end) * 60000)
  else None.

(** [new Date(text).getTime()]; [None] is an invalid date. *)
Definition date_parse (s : jsstr) : option Z :=
  match parse_iso s with
  | Some ms => if Z.abs ms <=? 8640000000000000 then Some ms else None
  | None => legacyParse s
  end.
End parse.

(** ** [toISOString] *)

(** The month and the day of an instant. *)
Definition utc_month_day (ms : Z) : Z * Z :=
  let z := ms / MS_PER_DAY + 719468 in
  let doe := z mod 146097 in
  let yoe := (doe - doe / 1460 + doe / 36524 - doe / 146096) / 365 in
  let doy := doe - year_days yoe in
  let mp := (5 * doy + 2) / 153 in
  (if mp <? 10 then mp + 3 else mp - 9, doy - (153 * mp + 2) / 5 + 1).

(** [n] with zeros in front, [width] digits in all. *)
Definition padded (width : nat) (n : Z) : jsstr := let s := print_int n in repeat 48 (width - length s) ++ s.

(** [date.toISOString()] *)
Definition toISOString (ms : Z) : jsstr :=
  let year := utc_year ms in
  let '(month, day) := utc_month_day ms in
  let t := ms mod MS_PER_DAY in
  (if (0 <=? year) && (year <=? 9999) then padded 4 year
   else js (if year <? 0 then "-" else "+") ++ padded 6 (Z.abs year)) ++
  js "-" ++ padded 2 month ++ js "-" ++ padded 2 day ++
  js "T" ++ padded 2 (t / 3600000) ++ js ":" ++ padded 2 (t / 60000 mod 60) ++
  js ":" ++ padded 2 (t / 1000 mod 60) ++ js "." ++ padded 3 (t mod 1000) ++ js "Z".

Example sample_iso :
  (toISOString 0, toISOString 1709251199999, toISOString 253402300800000, toISOString (-1)) =
  (js "1970-01-01T00:00:00.000Z", js "2024-02-29T23:59:59.999Z", js "+010000-01-01T00:00:00.000Z",
   js "1969-12-31T23:59:59.999Z").
Proof. vm_compute. reflexivity. Qed.

(** ** Years *)

Lemma year_of_era (yoe doy : Z) :
  0 ≤ yoe < 400 → 0 ≤ doy → doy < year_days (yoe + 1) - year_days yoe + (if yoe =? 399 then 1 else 0) →
  let doe := year_days yoe + doy in
  (doe - doe / 1460 + doe / 36524 - doe / 146096) / 365 = yoe.
Proof.
  unfold year_days. intros Hy Hd Hlt. cbn zeta.
  destruct (Z.eqb_spec yoe 399); Z.to_euclidean_division_equations; lia.
Qed.

(** The day of the year, from March, is inside its year. *)
Lemma day_of_year (Y m d : Z) :
  1 ≤ m ≤ 12 → 1 ≤ d ≤ days_in_month (if m <=? 2 then Y + 1 else Y) m →
  let doy := (153 * (if 2 <? m then m - 3 else m + 9) + 2) / 5 + d - 1 in
  0 ≤ doy < year_days (Y mod 400 + 1) - year_days (Y mod 400) + (if Y mod 400 =? 399 then 1 else 0) ∧
  ((5 * doy + 2) / 153 < 10 ↔ 2 < m).
Proof.
  intros Hm Hd. cbn zeta.
  assert (doy_leap : is_leap (Y + 1) = true →
    year_days (Y mod 400 + 1) - year_days (Y mod 400) + (if Y mod 400 =? 399 then 1 else 0) = 366).
  { unfold is_leap, year_days. intros H. boolsolve.
    destruct (Z.eqb_spec (Y mod 400) 399); Z.to_euclidean_division_equations; lia. }
  assert (365 ≤ year_days (Y mod 400 + 1) - year_days (Y mod 400) + (if Y mod 400 =? 399 then 1 else 0)) as Hlong.
  { unfold year_days. destruct (Z.eqb_spec (Y mod 400) 399); Z.to_euclidean_division_equations; lia. }
  revert Hlong doy_leap. generalize (year_days (Y mod 400 + 1) - year_days (Y mod 400) + (if Y mod 400 =? 399 then 1 else 0)).
  intros len Hlong Hleap.
  assert (m = 1 ∨ m = 2 ∨ m = 3 ∨ m = 4 ∨ m = 5 ∨ m = 6 ∨ m = 7 ∨ m = 8 ∨ m = 9 ∨ m = 10 ∨ m = 11 ∨ m = 12)
    as Hcases by lia.
  destruct Hcases as [->|[->|[->|[->|[->|[->|[->|[->|[->|[->|[->| ->]]]]]]]]]]]; cbn -[Z.div is_leap] in Hd |- *.
  2: { destruct (is_leap (Y + 1)) eqn:E; [specialize (Hleap eq_refl)|]; Z.to_euclidean_division_equations; lia. }
  all: Z.to_euclidean_division_equations; lia.
Qed.

(** The year of an instant is the year it was written with. *)
Lemma utc_year_civil (y m d t : Z) :
  1 ≤ m ≤ 12 → 1 ≤ d ≤ days_in_month y m → 0 ≤ t < MS_PER_DAY →
  utc_year (days_of_civil y m d * MS_PER_DAY + t) = y.
Proof.
  intros Hm Hd Ht. unfold utc_year.
  rewrite Z.div_add_l, (Z.div_small t MS_PER_DAY), Z.add_0_r by (unfold MS_PER_DAY in *; lia).
  unfold days_of_civil. set (Y := if m <=? 2 then y - 1 else y).
  assert ((if m <=? 2 then Y + 1 else Y) = y) as HY by (unfold Y; destruct (m <=? 2); lia).
  rewrite <-HY in Hd. destruct (day_of_year Y m d Hm Hd) as [[Hd0 Hd1] Hmp].
  set (doy := (153 * _ + 2) / 5 + d - 1) in *.
  pose proof (Z.mod_pos_bound Y 400 ltac:(lia)) as Hyoe.
  assert (0 ≤ year_days (Y mod 400) + doy < 146097) as Hdoe.
  { unfold year_days in *. destruct (Z.eqb_spec (Y mod 400) 399); Z.to_euclidean_division_equations; lia. }
  replace (Y / 400 * 146097 + year_days (Y mod 400) + doy - 719468 + 719468)
    with (year_days (Y mod 400) + doy + Y / 400 * 146097) by lia.
  rewrite Z.mod_add, Z.div_add by lia. rewrite (Z.mod_small _ _ Hdoe), (Z.div_small _ _ Hdoe).
  rewrite year_of_era by done.
  replace (year_days (Y mod 400) + doy - year_days (Y mod 400)) with doy by lia.
  pose proof (Z.div_mod Y 400 ltac:(lia)). rewrite <-HY.
  destruct (Z.ltb_spec ((5 * doy + 2) / 153) 10) as [H1|H1], (Z.leb_spec m 2); try lia.
Qed.
