(* ===== verification/Json.v ===== *)
(** * JSON values and their canonical form ([src/utils/content-hash.ts])

    A JSON value keeps the members of an object in the order [Object.keys] lists them.
    [JSON.stringify] and SHA-256 are not modelled: the canonical text and the content hash are
    functions of the canonical value, which is. *)

From S2P Require Import Prelude JsCollections JsNumber.

(** ** Values *)

Inductive json :=
| JNull
| JBool (b : bool)
| JNumber (n : number)
| JString (s : jsstr)
| JDate (iso : jsstr)   (* a Date object, by its toISOString *)
| JArray (items : list json)
| JObject (fields : list (jsstr * json)).

(** Induction with a hypothesis for every item and member. *)
Definition json_ind' (P : json → Prop)
    (Hnull : P JNull) (Hbool : ∀ b, P (JBool b)) (Hnum : ∀ n, P (JNumber n))
    (Hstr : ∀ s, P (JString s)) (Hdate : ∀ s, P (JDate s))
    (Harr : ∀ l, Forall P l → P (JArray l))
    (Hobj : ∀ l, Forall (λ f, P f.2) l → P (JObject l)) : ∀ j, P j :=
  fix rec j := match j with
  | JNull => Hnull
  | JBool b => Hbool b
  | JNumber n => Hnum n
  | JString s => Hstr s
  | JDate s => Hdate s
  | JArray l => Harr l ((fix all l := match l return Forall P l with
      | [] => List.Forall_nil P
      | x :: l' => List.Forall_cons P x l' (rec x) (all l') end) l)
  | JObject l => Hobj l ((fix all l := match l return Forall (λ f, P f.2) l with
      | [] => List.Forall_nil _
      | x :: l' => List.Forall_cons (λ f, P f.2) x l' (rec x.2) (all l') end) l)
  end.

#[export] Instance number_eq_dec : EqDecision number.
Proof. solve_decision. Defined.

Fixpoint json_eqb (a b : json) : bool :=
  match a, b with
  | JNull, JNull => true
  | JBool x, JBool y => Bool.eqb x y
  | JNumber x, JNumber y => bool_decide (x = y)
  | JString x, JString y => bool_decide (x = y)
  | JDate x, JDate y => bool_decide (x = y)
  | JArray l, JArray k =>
      (fix all l k := match l, k with
       | [], [] => true
       | x :: l', y :: k' => json_eqb x y && all l' k'
       | _, _ => false end) l k
  | JObject l, JObject k =>
      (fix all l k := match l, k with
       | [], [] => true
       | (n, x) :: l', (m, y) :: k' => bool_decide (n = m) && json_eqb x y && all l' k'
       | _, _ => false end) l k
  | _, _ => false
  end.

Lemma json_eqb_eq a b : json_eqb a b = true ↔ a = b.
Proof.
  revert b. induction a as [|x|x|s|s|l IH|l IH] using json_ind';
    intros [|y|y|t|t|k|k]; simpl; try (split; congruence).
  - rewrite Bool.eqb_true_iff. split; congruence.
  - rewrite bool_decide_eq_true. split; congruence.
  - rewrite bool_decide_eq_true. split; congruence.
  - rewrite bool_decide_eq_true. split; congruence.
  - revert k. induction IH as [|x l Hx _ IHl]; intros [|y k]; try (split; congruence).
    rewrite andb_true_iff, Hx, IHl. split; [intros [-> [= ->]]; done|intros [= -> ->]; done].
  - revert k. induction IH as [|[n x] l Hx _ IHl]; intros [|[m y] k]; try (split; congruence).
    simpl in Hx. rewrite !andb_true_iff, bool_decide_eq_true, (Hx y), IHl.
    split; [intros [[-> ->] [= ->]]; done|intros [= -> -> ->]; done].
Qed.

#[export] Instance json_eq_dec : EqDecision json.
Proof.
  intros a b. destruct (json_eqb a b) eqn:E.
  - left. by apply json_eqb_eq.
  - right. intros ->. rewrite (proj2 (json_eqb_eq b b)) in E by done. done.
Defined.

(** The value of a key that is an array index ("0", "17", ... up to 2^32 - 2). *)
Definition array_index (k : jsstr) : option Z :=
  match k with
  | [] => None
  | c :: rest =>
      if forallb is_digit k && negb ((c =? 48) && negb (is_nil rest)) &&
         (digits_value 10 k <? 4294967295)
      then Some (digits_value 10 k) else None
  end.

Definition index_key (f : jsstr * json) : Z := nullish (array_index f.1) 0.

(** [Object.fromEntries]: array-index keys come first, in numeric order. *)
Definition from_entries (l : list (jsstr * json)) : list (jsstr * json) :=
  js_sort (by_key index_key) (filter (λ f, is_null (array_index f.1) = false) l) ++
  filter (λ f, is_null (array_index f.1) = true) l.

Definition compare_field (f g : jsstr * json) : Z := compare_str f.1 g.1.

(** src: src/utils/content-hash.ts:3-22 canonicalize *)
Fixpoint canonicalize (value : json) : json :=
  match value with
  | JArray l => JArray (map canonicalize l)
  | JDate iso => JString iso
  | JObject l =>
      JObject (from_entries (js_sort compare_field (map (λ f, (f.1, canonicalize f.2)) l)))
  | _ => value
  end.

(** The comparator of the keys in PostgreSQL jsonb order.
    src: src/utils/content-hash.ts:37-39 serializePostgresJsonb *)
Definition compare_jsonb_field : jsstr * json → jsstr * json → Z :=
  then_by (by_key (λ f, Z.of_nat (length f.1))) compare_field.

(** The value whose text [serializePostgresJsonb] writes: members in jsonb order.
    src: src/utils/content-hash.ts:30-47 serializePostgresJsonb *)
Fixpoint jsonb_order (value : json) : json :=
  match value with
  | JArray l => JArray (map jsonb_order l)
  | JDate iso => JString iso
  | JObject l => JObject (js_sort compare_jsonb_field (map (λ f, (f.1, jsonb_order f.2)) l))
  | _ => value
  end.

(** ** Equality up to the order of members *)

(** The text of a string or a date. *)
Definition text_of (j : json) : option jsstr :=
  match j with JString s => Some s | JDate s => Some s | _ => None end.

Inductive same_value : json → json → Prop :=
| same_null : same_value JNull JNull
| same_bool b : same_value (JBool b) (JBool b)
| same_number n : same_value (JNumber n) (JNumber n)
| same_text a b s : text_of a = Some s → text_of b = Some s → same_value a b
| same_array l k : Forall2 same_value l k → same_value (JArray l) (JArray k)
| same_object l k k' :
    k ≡ₚ k' → Forall2 (λ f g, f.1 = g.1 ∧ same_value f.2 g.2) l k' →
    same_value (JObject l) (JObject k).

(** Objects have no repeated key, at any depth. *)
Inductive well_formed : json → Prop :=
| wf_null : well_formed JNull
| wf_bool b : well_formed (JBool b)
| wf_number n : well_formed (JNumber n)
| wf_string s : well_formed (JString s)
| wf_date s : well_formed (JDate s)
| wf_array l : Forall well_formed l → well_formed (JArray l)
| wf_object l : NoDup l.*1 → Forall (λ f, well_formed f.2) l → well_formed (JObject l).

(** JSON can write every number of the value. *)
Fixpoint finite (j : json) : bool :=
  match j with
  | JNumber n => is_finite n
  | JArray l => forallb finite l
  | JObject l => forallb (λ f, finite f.2) l
  | _ => true
  end.

#[export] Instance compare_field_comparator : Comparator compare_field.
Proof.
  split; unfold compare_field; [intros; pose proof (compare_str_flip x.1 y.1); lia|].
  intros x y z. apply compare_str_trans.
Qed.

#[export] Instance compare_jsonb_comparator : Comparator compare_jsonb_field.
Proof. apply _. Qed.

Lemma from_entries_perm l : from_entries l ≡ₚ l.
Proof.
  unfold from_entries. rewrite js_sort_perm.
  induction l as [|f l IH]; [done|]. rewrite !filter_cons.
  destruct (is_null (array_index f.1)); repeat case_decide; try done.
  - rewrite <-Permutation_middle. by rewrite IH.
  - simpl. by rewrite IH.
Qed.

(** Both orders of members, as one function of the sort. *)
Lemma sorted_members (cmp : jsstr * json → jsstr * json → Z) `{!Comparator cmp}
    (F : json → json) (l k k' : list (jsstr * json)) :
  (∀ f g, cmp f g = 0 → f.1 = g.1) → NoDup k.*1 → k ≡ₚ k' →
  Forall2 (λ f g, f.1 = g.1 ∧ F f.2 = F g.2) l k' →
  js_sort cmp (map (λ f, (f.1, F f.2)) l) = js_sort cmp (map (λ f, (f.1, F f.2)) k).
Proof.
  intros Hcmp Hnd Hperm Hall.
  assert (map (λ f, (f.1, F f.2)) l = map (λ f, (f.1, F f.2)) k') as ->.
  { clear Hperm. induction Hall as [|f g l k' [H1 H2] _ IH]; simpl; [done|]. by rewrite H1, H2, IH. }
  assert (map (λ f, (f.1, F f.2)) k' ≡ₚ map (λ f, (f.1, F f.2)) k) as Hp
    by (apply Permutation_map; by symmetry).
  apply (js_sort_unique cmp); [|exact Hp]. intros x y Hx Hy Hxy%Hcmp. rewrite Hp in Hx, Hy.
  assert (NoDup (map (λ f : jsstr * json, (f.1, F f.2)) k).*1) as Hndk.
  { change (map _ k) with ((λ f : jsstr * json, (f.1, F f.2)) <$> k). by rewrite <-list_fmap_compose. }
  by apply (NoDup_fmap_inj_in fst _ x y Hndk).
Qed.

Lemma members_sorted (F : json → json) (l k : list (jsstr * json)) :
  map (λ f, (f.1, F f.2)) l ≡ₚ map (λ f, (f.1, F f.2)) k →
  ∃ k', k ≡ₚ k' ∧ Forall2 (λ f g, f.1 = g.1 ∧ F f.2 = F g.2) l k'.
Proof.
  intros (k' & Heq & Hp)%Permutation_map_inv. exists k'. split; [done|]. clear Hp.
  revert k' Heq. induction l as [|f l IH]; intros [|g k']; simpl; intros Heq; simplify_eq; [constructor|].
  constructor; [done|]. by apply IH.
Qed.

(** What the two canonical forms have in common. *)
Record member_order (F : json → json) (order : list (jsstr * json) → list (jsstr * json)) : Prop := {
  mo_null : F JNull = JNull;
  mo_bool b : F (JBool b) = JBool b;
  mo_number n : F (JNumber n) = JNumber n;
  mo_string s : F (JString s) = JString s;
  mo_date s : F (JDate s) = JString s;
  mo_array l : F (JArray l) = JArray (map F l);
  mo_object l : F (JObject l) = JObject (order (map (λ f, (f.1, F f.2)) l));
  mo_perm l : order l ≡ₚ l;
  mo_same l k k' : NoDup k.*1 → k ≡ₚ k' → Forall2 (λ f g, f.1 = g.1 ∧ F f.2 = F g.2) l k' →
    order (map (λ f, (f.1, F f.2)) l) = order (map (λ f, (f.1, F f.2)) k);
}.

Lemma canonicalize_order : member_order canonicalize (λ l, from_entries (js_sort compare_field l)).
Proof.
  split; try done.
  - intros l. by rewrite from_entries_perm, js_sort_perm.
  - intros l k k' Hnd Hp Hall. f_equal. apply (sorted_members _ _ _ _ k'); [|done..].
    intros f g. apply compare_str_eq.
Qed.

Lemma jsonb_order_order : member_order jsonb_order (js_sort compare_jsonb_field).
Proof.
  split; try done.
  - intros l. by rewrite js_sort_perm.
  - intros l k k' Hnd Hp Hall. apply (sorted_members _ _ _ _ k'); [|done..].
    intros f g. unfold compare_jsonb_field, then_by, by_key. case_match; boolsolve;
      [apply compare_str_eq|done].
Qed.

Lemma same_array_order (F : json → json) (l k : list json) :
  Forall (λ a, ∀ b, well_formed a → well_formed b → same_value a b ↔ F a = F b) l →
  Forall well_formed l → Forall well_formed k →
  Forall2 same_value l k ↔ map F l = map F k.
Proof.
  intros IH Hl. revert k. induction IH as [|a l Ha _ IHl]; intros k Hk.
  - destruct k; split; try done; intros H; inversion H.
  - inversion Hl as [|? ? Hwa Hwl]; subst. destruct k as [|b k]; simpl.
    { split; intros H; [inversion H|done]. }
    inversion Hk as [|? ? Hwb Hwk]; subst. rewrite Forall2_cons, (Ha b Hwa Hwb), (IHl Hwl k Hwk).
    split; [by intros [-> ->]|]. by intros [= -> ->].
Qed.

Lemma same_members_order (F : json → json) (l k : list (jsstr * json)) :
  Forall (λ f, ∀ b, well_formed f.2 → well_formed b → same_value f.2 b ↔ F f.2 = F b) l →
  Forall (λ f, well_formed f.2) l → Forall (λ f, well_formed f.2) k →
  Forall2 (λ f g, f.1 = g.1 ∧ same_value f.2 g.2) l k ↔
  Forall2 (λ f g, f.1 = g.1 ∧ F f.2 = F g.2) l k.
Proof.
  intros IH Hl. revert k. induction IH as [|a l Ha _ IHl]; intros k Hk.
  - destruct k; split; intros H; try constructor; inversion H.
  - inversion Hl as [|? ? Hwa Hwl]; subst. destruct k as [|b k]; simpl.
    { split; intros H; inversion H. }
    inversion Hk as [|? ? Hwb Hwk]; subst.
    rewrite !Forall2_cons, (Ha b.2 Hwa Hwb), (IHl Hwl k Hwk). done.
Qed.

Lemma same_object_inv l b :
  same_value (JObject l) b ↔
  ∃ k k', b = JObject k ∧ k ≡ₚ k' ∧ Forall2 (λ f g, f.1 = g.1 ∧ same_value f.2 g.2) l k'.
Proof.
  split.
  - intros H. inversion H as [| | |? ? ? H1| |? k k' Hp Hf]; subst; [done|]. by exists k, k'.
  - intros (k & k' & -> & Hp & Hf). by apply same_object with k'.
Qed.

Lemma same_array_inv l b :
  same_value (JArray l) b ↔ ∃ k, b = JArray k ∧ Forall2 same_value l k.
Proof.
  split.
  - intros H. inversion H as [| | |? ? ? H1|? k Hf|]; subst; [done|]. by exists k.
  - intros (k & -> & Hf). by constructor.
Qed.

Lemma same_value_order F order a b :
  member_order F order → well_formed a → well_formed b → same_value a b ↔ F a = F b.
Proof.
  intros HF. pose proof HF as [E1 E2 E3 E4 E5 E6 E7 Hperm Hsame].
  revert b. induction a as [|x|x|s|s|l IH|l IH] using json_ind'; intros b Ha Hb.
  1-5: split; [intros H; inversion H; subst; simpl in *; simplify_eq; try done;
      destruct b; simpl in *; simplify_eq; congruence
    | destruct b; rewrite ?E1, ?E2, ?E3, ?E4, ?E5, ?E6, ?E7; intros; simplify_eq;
      first [by constructor | by eapply same_text]].
  - rewrite same_array_inv, E6. inversion Ha as [| | | | |? Hwa|]; subst. split.
    + intros (k & -> & H). rewrite E6. f_equal. inversion Hb; subst. by apply (same_array_order F l k).
    + destruct b as [| | | | |k|k]; rewrite ?E1, ?E2, ?E3, ?E4, ?E5, ?E6, ?E7; try done.
      intros [= H]. inversion Hb; subst. exists k. split; [done|]. by apply (same_array_order F l k).
  - rewrite same_object_inv, E7. inversion Ha as [| | | | | |? Hnda Hwa]; subst. split.
    + intros (k & k' & -> & Hp & H). rewrite E7. f_equal.
      inversion Hb as [| | | | | |? Hndb Hwb]; subst. apply (Hsame _ _ k'); [done..|].
      apply (same_members_order F l k'); [done..| |done]. by rewrite <-Hp.
    + destruct b as [| | | | |k|k]; rewrite ?E1, ?E2, ?E3, ?E4, ?E5, ?E6, ?E7; try done.
      intros [= H]. inversion Hb as [| | | | | |? Hndb Hwb]; subst.
      destruct (members_sorted F l k) as (k' & Hp & Hf).
      { by rewrite <-(Hperm (map _ l)), <-(Hperm (map _ k)), H. }
      exists k, k'. split_and!; [done|done|].
      apply (same_members_order F l k'); [done..| |done]. by rewrite <-Hp.
Qed.

Lemma same_value_canonical F order j : member_order F order → same_value j (F j).
Proof.
  intros [E1 E2 E3 E4 E5 E6 E7 Hperm _].
  induction j as [|x|x|s|s|l IH|l IH] using json_ind'; rewrite ?E1, ?E2, ?E3, ?E4, ?E5, ?E6, ?E7;
    try (by constructor); try (by eapply same_text).
  - constructor. induction IH; simpl; constructor; done.
  - apply same_object with (map (λ f, (f.1, F f.2)) l); [apply Hperm|].
    induction IH; simpl; constructor; done.
Qed.

(** Ordering the members keeps a value well formed. *)
Lemma well_formed_order F order j : member_order F order → well_formed j → well_formed (F j).
Proof.
  intros HF. pose proof HF as [E1 E2 E3 E4 E5 E6 E7 Hperm _].
  induction j as [|x|x|s|s|l IH|l IH] using json_ind'; rewrite ?E1, ?E2, ?E3, ?E4, ?E5, ?E6, ?E7;
    intros Hw; try constructor.
  - inversion Hw as [| | | | |? Hl|]; subst. clear Hw.
    induction IH; inversion Hl; subst; simpl; constructor; auto.
  - inversion Hw as [| | | | | |? Hnd _]; subst. rewrite Hperm.
    change (map _ l) with ((λ f : jsstr * json, (f.1, F f.2)) <$> l). by rewrite <-list_fmap_compose.
  - inversion Hw as [| | | | | |? _ Hl]; subst. rewrite Hperm. clear Hw.
    induction IH; inversion Hl; subst; simpl; constructor; auto.
Qed.

(** A value stored as JSONB has the canonical forms of the value. *)
Lemma stored_forms j : well_formed j →
  canonicalize (jsonb_order j) = canonicalize j ∧ jsonb_order (jsonb_order j) = jsonb_order j.
Proof.
  intros Hw. pose proof (same_value_canonical _ _ j jsonb_order_order) as Hsame.
  pose proof (well_formed_order _ _ j jsonb_order_order Hw) as Hw'. split; symmetry.
  - by apply (same_value_order _ _ j _ canonicalize_order).
  - by apply (same_value_order _ _ j _ jsonb_order_order).
Qed.

(** the canonical value (whose text is hashed and published) identifies a payload up to the
    order of object members and Date objects against their text, at every depth: two payloads
    without repeated keys have the same canonical value exactly when they are equal in that sense,
    for both the lexical order and PostgreSQL's jsonb order. *)
Theorem canonical_forms_exact (a b : json) (Ha : well_formed a) (Hb : well_formed b) :
  (canonicalize a = canonicalize b ↔ same_value a b) ∧
  (jsonb_order a = jsonb_order b ↔ same_value a b).
Proof.
  split; symmetry; by eapply same_value_order; [apply canonicalize_order || apply jsonb_order_order|..].
Qed.

Lemma canonical_forms_exact_witness :
  let a := JObject [(js "b", JArray [JNull; JDate (js "2025-08-15")]); (js "10", JBool true); (js "9", JNull)] in
  let b := JObject [(js "9", JNull); (js "10", JBool true); (js "b", JArray [JNull; JString (js "2025-08-15")])] in
  canonicalize a = canonicalize b.
Proof.
  intros a b.
  assert (∀ (l : list (jsstr * json)), bool_decide (NoDup l.*1) = true → NoDup l.*1) as Hnd
    by (intros l; apply bool_decide_eq_true).
  apply (canonical_forms_exact a b).
  - constructor; [apply Hnd; reflexivity|]. repeat constructor.
  - constructor; [apply Hnd; reflexivity|]. repeat constructor.
  - apply (same_object _ _ [(js "b", JArray [JNull; JString (js "2025-08-15")]); (js "10", JBool true);
      (js "9", JNull)]); [exact (Permutation_rev _)|]. repeat constructor. by eapply same_text.
Defined.
