(* ===== verification/CoreEntities.v ===== *)
(** * The entities of the core snapshot ([src/transformers/{events,teams,players,phases,fixtures}.ts],
      [src/domain/{teams,players,phases,fixtures}.ts])

    The client gives the bootstrap payload the types of its schemas ([src/clients/fpl.ts]); the
    transformers then check each entity again, more strictly, and rename its fields.  A raw number
    is a double; the validated integers are [Z].  A nullable field is an option ([undefined] is read
    as [null], as the code does), and [unknown] is [json].  A transformer that throws gives [None]. *)

From S2P Require Import Prelude JsCollections JsNumber JsDate Json.

(** ** Checks of schemas *)

(** [z.number()] *)
Definition z_number (x : number) : bool := match x with NaN => false | _ => true end.

(** [z.number().int()] with its bounds. *)
Definition z_int (ok : Z → bool) (x : number) : bool := is_integer x && ok (int_value x).

(** [z.string().min(1)], and with a maximum. *)
Definition z_text (s : jsstr) : bool := negb (is_nil s).
Definition z_text_max (max : nat) (s : jsstr) : bool := (1 <=? length s)%nat && (length s <=? max)%nat.

(** [.nullable()] *)
Definition z_nullable {A : Type} (ok : A → bool) (x : option A) : bool :=
  match x with Some a => ok a | None => true end.

Definition positive (n : Z) : bool := 0 <? n.
Definition natural (n : Z) : bool := 0 <=? n.
Definition between (low high n : Z) : bool := (low <=? n) && (n <=? high).
Definition any_int (n : Z) : bool := true.

(** A member of an object that must be a number, or a string. *)
Definition number_member (name : string) (fields : list (jsstr * json)) : option number :=
  match map_get (js name) fields with Some (JNumber n) => if z_number n then Some n else None | _ => None end.
Definition string_member (name : string) (fields : list (jsstr * json)) : option jsstr :=
  match map_get (js name) fields with Some (JString s) => Some s | _ => None end.

(** The transformers of lists: the entities that can be transformed, in order. *)
Definition transform_all {A B : Type} (transform : A → option B) (raws : list A) : list B :=
  omap transform raws.

(** ** Events *)

(** src: src/clients/fpl.ts:76-111 EventSchema *)
Record RawEvent := mkRawEvent {
  rv_id : number;
  rv_name : jsstr;
  rv_deadline_time : option jsstr;
  rv_average_entry_score : option number;
  rv_finished : bool;
  rv_data_checked : bool;
  rv_highest_scoring_entry : option number;
  rv_deadline_time_epoch : option number;
  rv_deadline_time_game_offset : option number;
  rv_highest_score : option number;
  rv_is_previous : bool;
  rv_is_current : bool;
  rv_is_next : bool;
  rv_cup_leagues_created : bool;
  rv_h2h_ko_matches_created : bool;
  rv_chip_plays : list json;
  rv_most_selected : option number;
  rv_most_transferred_in : option number;
  rv_top_element : option number;
  rv_top_element_info : json;
  rv_transfers_made : option number;
  rv_most_captained : option number;
  rv_most_vice_captained : option number;
}.

(** The fields the transformer leaves [null] are left out.
    src: src/types/index.ts:18-45 Event *)
Record Event := mkEvent {
  ev_id : Z;
  ev_name : jsstr;
  ev_deadlineTime : option jsstr;
  ev_averageEntryScore : option number;
  ev_finished : bool;
  ev_dataChecked : bool;
  ev_highestScoringEntry : option number;
  ev_deadlineTimeEpoch : option number;
  ev_deadlineTimeGameOffset : option number;
  ev_highestScore : option number;
  ev_isPrevious : bool;
  ev_isCurrent : bool;
  ev_isNext : bool;
  ev_cupLeagueCreate : bool;
  ev_h2hKoMatchesCreated : bool;
  ev_chipPlays : list (jsstr * number);
  ev_mostSelected : option number;
  ev_mostTransferredIn : option number;
  ev_topElement : option number;
  ev_topElementInfo : option (number * number);
  ev_transfersMade : option number;
  ev_mostCaptained : option number;
  ev_mostViceCaptained : option number;
}.

(** An object of one of two shapes: the first that fits.
    src: src/transformers/events.ts:8-11 ChipPlaySchema *)
Definition chip_play (value : json) : option (jsstr * number) :=
  match value with
  | JObject fields =>
      let shape name := n ← string_member name fields; p ← number_member "num_played" fields; Some (n, p) in
      match shape "chip_name"%string with Some c => Some c | None => shape "name"%string end
  | _ => None
  end.

(** src: src/transformers/events.ts:13-16 TopElementInfoSchema *)
Definition top_element_info (value : json) : option (option (number * number)) :=
  match value with
  | JNull => Some None
  | JObject fields =>
      let shape name := e ← number_member name fields; p ← number_member "points" fields; Some (e, p) in
      Some <$> match shape "element"%string with Some i => Some i | None => shape "id"%string end
  | _ => None
  end.

(** src: src/transformers/events.ts:18-42 RawFPLEventSchema *)
Definition RawFPLEventSchema (raw : RawEvent) : bool :=
  z_int positive (rv_id raw) && z_text (rv_name raw) &&
  z_nullable z_number (rv_average_entry_score raw) &&
  z_nullable z_number (rv_highest_scoring_entry raw) &&
  z_nullable z_number (rv_deadline_time_epoch raw) &&
  z_nullable z_number (rv_deadline_time_game_offset raw) &&
  z_nullable z_number (rv_highest_score raw) &&
  negb (is_null (mapM chip_play (rv_chip_plays raw))) &&
  z_nullable z_number (rv_most_selected raw) &&
  z_nullable z_number (rv_most_transferred_in raw) &&
  z_nullable z_number (rv_top_element raw) &&
  negb (is_null (top_element_info (rv_top_element_info raw))) &&
  z_nullable z_number (rv_transfers_made raw) &&
  z_nullable z_number (rv_most_captained raw) &&
  z_nullable z_number (rv_most_vice_captained raw).

(** src: src/transformers/events.ts:44-96 transformEvent *)
Definition transformEvent (raw : RawEvent) : option Event :=
  if negb (RawFPLEventSchema raw) then None else
  Some {| ev_id := int_value (rv_id raw);
          ev_name := rv_name raw;
          ev_deadlineTime := rv_deadline_time raw;
          ev_averageEntryScore := rv_average_entry_score raw;
          ev_finished := rv_finished raw;
          ev_dataChecked := rv_data_checked raw;
          ev_highestScoringEntry := rv_highest_scoring_entry raw;
          ev_deadlineTimeEpoch := rv_deadline_time_epoch raw;
          ev_deadlineTimeGameOffset := rv_deadline_time_game_offset raw;
          ev_highestScore := rv_highest_score raw;
          ev_isPrevious := rv_is_previous raw;
          ev_isCurrent := rv_is_current raw;
          ev_isNext := rv_is_next raw;
          ev_cupLeagueCreate := rv_cup_leagues_created raw;
          ev_h2hKoMatchesCreated := rv_h2h_ko_matches_created raw;
          ev_chipPlays := default [] (mapM chip_play (rv_chip_plays raw));
          ev_mostSelected := rv_most_selected raw;
          ev_mostTransferredIn := rv_most_transferred_in raw;
          ev_topElement := rv_top_element raw;
          ev_topElementInfo := default None (top_element_info (rv_top_element_info raw));
          ev_transfersMade := rv_transfers_made raw;
          ev_mostCaptained := rv_most_captained raw;
          ev_mostViceCaptained := rv_most_vice_captained raw |}.

(** src: src/transformers/events.ts:98-137 transformEvents *)
Definition transformEvents (raws : list RawEvent) : result (list Event) :=
  let events := transform_all transformEvent raws in
  reject_if is_nil events && negb (is_nil raws) with_code "ALL_EVENTS_INVALID" ;;
  Ok events.

(** ** Teams *)

(** src: src/clients/fpl.ts:113-135 TeamSchema *)
Record RawTeam := mkRawTeam {
  rt_id : number;
  rt_name : jsstr;
  rt_short_name : jsstr;
  rt_code : number;
  rt_draw : number;
  rt_form : option jsstr;
  rt_loss : number;
  rt_played : number;
  rt_points : number;
  rt_position : number;
  rt_strength : option number;
  rt_team_division : option number;
  rt_unavailable : bool;
  rt_win : number;
  rt_strength_overall_home : number;
  rt_strength_overall_away : number;
  rt_strength_attack_home : number;
  rt_strength_attack_away : number;
  rt_strength_defence_home : number;
  rt_strength_defence_away : number;
  rt_pulse_id : number;
}.

(** src: src/types/index.ts:59-83 Team *)
Record Team := mkTeam {
  tm_id : Z;
  tm_name : jsstr;
  tm_shortName : jsstr;
  tm_code : Z;
  tm_draw : Z;
  tm_form : option jsstr;
  tm_loss : Z;
  tm_played : Z;
  tm_points : Z;
  tm_position : Z;
  tm_strength : option Z;
  tm_teamDivision : option Z;
  tm_unavailable : bool;
  tm_win : Z;
  tm_strengthOverallHome : Z;
  tm_strengthOverallAway : Z;
  tm_strengthAttackHome : Z;
  tm_strengthAttackAway : Z;
  tm_strengthDefenceHome : Z;
  tm_strengthDefenceAway : Z;
  tm_pulseId : Z;
}.

(** src: src/domain/teams.ts:40-62 RawFPLTeamSchema *)
Definition RawFPLTeamSchema (raw : RawTeam) : bool :=
  z_int positive (rt_id raw) && z_text (rt_name raw) && z_text (rt_short_name raw) &&
  z_int positive (rt_code raw) && z_int natural (rt_draw raw) && z_int natural (rt_loss raw) &&
  z_int natural (rt_played raw) && z_int natural (rt_points raw) && z_int (between 0 20) (rt_position raw) &&
  z_nullable (z_int (between 1 5)) (rt_strength raw) && z_nullable (z_int any_int) (rt_team_division raw) &&
  z_int natural (rt_win raw) &&
  z_int any_int (rt_strength_overall_home raw) && z_int any_int (rt_strength_overall_away raw) &&
  z_int any_int (rt_strength_attack_home raw) && z_int any_int (rt_strength_attack_away raw) &&
  z_int any_int (rt_strength_defence_home raw) && z_int any_int (rt_strength_defence_away raw) &&
  z_int positive (rt_pulse_id raw).

(** The checks the first schema has not made.
    src: src/domain/teams.ts:9-38 TeamSchema *)
Definition TeamSchema (team : Team) : bool :=
  positive (tm_id team) && z_text_max 50 (tm_name team) && z_text_max 5 (tm_shortName team) &&
  positive (tm_code team) && natural (tm_draw team) && natural (tm_loss team) && natural (tm_played team) &&
  natural (tm_points team) && between 0 20 (tm_position team) &&
  z_nullable (between 1 5) (tm_strength team) && natural (tm_win team) &&
  between 0 1500 (tm_strengthOverallHome team) && between 0 1500 (tm_strengthOverallAway team) &&
  between 0 1500 (tm_strengthAttackHome team) && between 0 1500 (tm_strengthAttackAway team) &&
  between 0 1500 (tm_strengthDefenceHome team) && between 0 1500 (tm_strengthDefenceAway team) &&
  positive (tm_pulseId team).

(** src: src/transformers/teams.ts:10-52 transformTeam *)
Definition transformTeam (raw : RawTeam) : option Team :=
  if negb (RawFPLTeamSchema raw) then None else
  let team := {|
    tm_id := int_value (rt_id raw);
    tm_name := rt_name raw;
    tm_shortName := rt_short_name raw;
    tm_code := int_value (rt_code raw);
    tm_draw := int_value (rt_draw raw);
    tm_form := rt_form raw;
    tm_loss := int_value (rt_loss raw);
    tm_played := int_value (rt_played raw);
    tm_points := int_value (rt_points raw);
    tm_position := int_value (rt_position raw);
    tm_strength := int_value <$> rt_strength raw;
    tm_teamDivision := int_value <$> rt_team_division raw;
    tm_unavailable := rt_unavailable raw;
    tm_win := int_value (rt_win raw);
    tm_strengthOverallHome := int_value (rt_strength_overall_home raw);
    tm_strengthOverallAway := int_value (rt_strength_overall_away raw);
    tm_strengthAttackHome := int_value (rt_strength_attack_home raw);
    tm_strengthAttackAway := int_value (rt_strength_attack_away raw);
    tm_strengthDefenceHome := int_value (rt_strength_defence_home raw);
    tm_strengthDefenceAway := int_value (rt_strength_defence_away raw);
    tm_pulseId := int_value (rt_pulse_id raw) |} in
  if TeamSchema team then Some team else None.

(** src: src/transformers/teams.ts:57-97 transformTeams *)
Definition transformTeams (raws : list RawTeam) : result (list Team) :=
  let teams := transform_all transformTeam raws in
  reject_if is_nil teams with_code "ALL_TEAMS_INVALID" ;;
  Ok teams.

(** ** Players *)

(** The fields that the transformer or a check of its schema looks at.
    src: src/clients/fpl.ts:137-191 ElementSchema *)
Record RawElement := mkRawElement {
  re_id : number;
  re_code : number;
  re_element_type : number;
  re_team : number;
  re_now_cost : number;
  re_cost_change_start : number;
  re_first_name : jsstr;
  re_second_name : jsstr;
  re_web_name : jsstr;
  re_squad_number : option number;
  re_chance_of_playing_this_round : option number;
  re_chance_of_playing_next_round : option number;
  re_cost_change_event : number;
  re_cost_change_event_fall : number;
  re_cost_change_start_fall : number;
  re_total_points : number;
  re_dreamteam_count : number;
  re_transfers_in : number;
  re_transfers_out : number;
  re_transfers_in_event : number;
  re_transfers_out_event : number;
  re_minutes : number;
  re_goals_scored : number;
  re_assists : number;
  re_clean_sheets : number;
  re_goals_conceded : number;
  re_own_goals : number;
  re_penalties_saved : number;
  re_penalties_missed : number;
  re_yellow_cards : number;
  re_red_cards : number;
  re_saves : number;
  re_bonus : number;
  re_bps : number;
}.

(** The fields that may be any integer. *)
Definition element_counts (raw : RawElement) : list number :=
  [re_cost_change_event raw; re_cost_change_event_fall raw; re_cost_change_start_fall raw;
   re_total_points raw; re_dreamteam_count raw; re_transfers_in raw; re_transfers_out raw;
   re_transfers_in_event raw; re_transfers_out_event raw; re_minutes raw; re_goals_scored raw;
   re_assists raw; re_clean_sheets raw; re_goals_conceded raw; re_own_goals raw;
   re_penalties_saved raw; re_penalties_missed raw; re_yellow_cards raw; re_red_cards raw;
   re_saves raw; re_bonus raw; re_bps raw].

(** src: src/types/index.ts:47-57 Player *)
Record Player := mkPlayer {
  pl_id : Z;
  pl_code : Z;
  pl_type : Z;
  pl_teamId : Z;
  pl_price : Z;
  pl_startPrice : Z;
  pl_firstName : jsstr;
  pl_secondName : jsstr;
  pl_webName : jsstr;
}.

(** src: src/domain/players.ts:33-87 RawFPLElementSchema *)
Definition RawFPLElementSchema (raw : RawElement) : bool :=
  z_int positive (re_id raw) && z_int positive (re_code raw) &&
  z_int (between 1 4) (re_element_type raw) && z_int positive (re_team raw) &&
  z_int (between 35 200) (re_now_cost raw) && z_int any_int (re_cost_change_start raw) &&
  z_text (re_first_name raw) && z_text (re_second_name raw) && z_text (re_web_name raw) &&
  z_nullable (z_int any_int) (re_squad_number raw) &&
  z_nullable (z_int (between 0 100)) (re_chance_of_playing_this_round raw) &&
  z_nullable (z_int (between 0 100)) (re_chance_of_playing_next_round raw) &&
  forallb (z_int any_int) (element_counts raw).

(** src: src/domain/players.ts:9-31 PlayerSchema *)
Definition PlayerSchema (player : Player) : bool :=
  positive (pl_id player) && positive (pl_code player) && between 1 4 (pl_type player) &&
  positive (pl_teamId player) && between 35 200 (pl_price player) && between 35 200 (pl_startPrice player) &&
  z_text_max 50 (pl_firstName player) && z_text_max 50 (pl_secondName player) && z_text_max 30 (pl_webName player).

(** src: src/transformers/players.ts:14-40 transformPlayer *)
Definition transformPlayer (raw : RawElement) : option Player :=
  if negb (RawFPLElementSchema raw) then None else
  let player := {|
    pl_id := int_value (re_id raw);
    pl_code := int_value (re_code raw);
    pl_type := int_value (re_element_type raw);
    pl_teamId := int_value (re_team raw);
    pl_price := int_value (re_now_cost raw);
    pl_startPrice := int_value (re_now_cost raw) - int_value (re_cost_change_start raw);
    pl_firstName := re_first_name raw;
    pl_secondName := re_second_name raw;
    pl_webName := re_web_name raw |} in
  if PlayerSchema player then Some player else None.

(** src: src/transformers/players.ts:46-78 transformPlayers *)
Definition transformPlayers (raws : list RawElement) : list Player := transform_all transformPlayer raws.

(** src: src/transformers/players.ts:84-96 transformPlayersStrict *)
Definition transformPlayersStrict (raws : list RawElement) : result (list Player) :=
  match mapM transformPlayer raws with
  | Some players => Ok players
  | None => Throw "TRANSFORM_PLAYER"
  end.

(** ** Phases *)

(** src: src/clients/fpl.ts:220-226 PhaseSchema *)
Record RawPhase := mkRawPhase {
  rp_id : number;
  rp_name : jsstr;
  rp_start_event : number;
  rp_stop_event : number;
  rp_highest_score : option number;
}.

(** src: src/types/index.ts:85-91 Phase *)
Record Phase := mkPhase {
  ph_id : Z;
  ph_name : jsstr;
  ph_startEvent : Z;
  ph_stopEvent : Z;
  ph_highestScore : option Z;
}.

(** src: src/domain/phases.ts:25-31 RawFPLPhaseSchema *)
Definition RawFPLPhaseSchema (raw : RawPhase) : bool :=
  z_int positive (rp_id raw) && z_text (rp_name raw) && z_int (between 1 38) (rp_start_event raw) &&
  z_int (between 1 38) (rp_stop_event raw) && z_nullable (z_int natural) (rp_highest_score raw).

(** src: src/domain/phases.ts:9-23 PhaseSchema *)
Definition PhaseSchema (phase : Phase) : bool :=
  positive (ph_id phase) && z_text_max 50 (ph_name phase) && between 1 38 (ph_startEvent phase) &&
  between 1 38 (ph_stopEvent phase) && z_nullable natural (ph_highestScore phase).

(** src: src/domain/phases.ts:173-188 validateRawFPLPhase *)
Definition validateRawFPLPhase (raw : RawPhase) : bool :=
  RawFPLPhaseSchema raw && (int_value (rp_start_event raw) <=? int_value (rp_stop_event raw)).

(** src: src/domain/phases.ts:145-160 validatePhase *)
Definition validatePhase (phase : Phase) : bool :=
  PhaseSchema phase && (ph_startEvent phase <=? ph_stopEvent phase).

(** src: src/transformers/phases.ts:10-37 transformPhase *)
Definition transformPhase (raw : RawPhase) : option Phase :=
  if negb (validateRawFPLPhase raw) then None else
  let phase := {|
    ph_id := int_value (rp_id raw);
    ph_name := rp_name raw;
    ph_startEvent := int_value (rp_start_event raw);
    ph_stopEvent := int_value (rp_stop_event raw);
    ph_highestScore := int_value <$> rp_highest_score raw |} in
  if validatePhase phase then Some phase else None.

(** src: src/transformers/phases.ts:42-82 transformPhases *)
Definition transformPhases (raws : list RawPhase) : result (list Phase) :=
  let phases := transform_all transformPhase raws in
  reject_if is_nil phases with_code "ALL_PHASES_INVALID" ;;
  Ok phases.

(** ** Fixtures *)

(** src: src/clients/fpl.ts:240-254 FixtureStatSchema *)
Record RawStat := mkRawStat {
  rs_identifier : jsstr;
  rs_a : list (number * number);   (* value, element *)
  rs_h : list (number * number);
}.

(** src: src/clients/fpl.ts:256-274 FixtureSchema *)
Record RawFixture := mkRawFixture {
  rf_code : number;
  rf_event : option number;
  rf_finished : bool;
  rf_finished_provisional : bool;
  rf_id : number;
  rf_kickoff_time : option jsstr;
  rf_minutes : number;
  rf_provisional_start_time : bool;
  rf_started : option bool;
  rf_team_a : number;
  rf_team_a_score : option number;
  rf_team_h : number;
  rf_team_h_score : option number;
  rf_stats : list RawStat;
  rf_team_h_difficulty : option number;
  rf_team_a_difficulty : option number;
  rf_pulse_id : number;
}.

(** src: src/types/index.ts:93-97 FixtureStat *)
Record FixtureStat := mkFixtureStat {
  fs_identifier : jsstr;
  fs_a : list (Z * Z);
  fs_h : list (Z * Z);
}.

(** A kick-off is an instant in milliseconds.
    src: src/types/index.ts:99-119 Fixture *)
Record Fixture := mkFixture {
  fx_id : Z;
  fx_code : Z;
  fx_event : option Z;
  fx_finished : bool;
  fx_finishedProvisional : bool;
  fx_kickoffTime : option Z;
  fx_minutes : Z;
  fx_provisionalStartTime : bool;
  fx_started : option bool;
  fx_teamA : Z;
  fx_teamAScore : option Z;
  fx_teamH : Z;
  fx_teamHScore : option Z;
  fx_stats : list FixtureStat;
  fx_teamHDifficulty : option Z;
  fx_teamADifficulty : option Z;
  fx_pulseId : Z;
}.

Definition raw_stat_ok (s : RawStat) : bool :=
  forallb (λ v, z_int any_int v.1 && z_int positive v.2) (rs_a s ++ rs_h s).

(** src: src/domain/fixtures.ts:53-89 RawFPLFixtureSchema *)
Definition RawFPLFixtureSchema (raw : RawFixture) : bool :=
  z_int positive (rf_code raw) && z_nullable (z_int (between 1 38)) (rf_event raw) &&
  z_int positive (rf_id raw) && z_int natural (rf_minutes raw) && z_int positive (rf_team_a raw) &&
  z_nullable (z_int natural) (rf_team_a_score raw) && z_int positive (rf_team_h raw) &&
  z_nullable (z_int natural) (rf_team_h_score raw) && forallb raw_stat_ok (rf_stats raw) &&
  z_nullable (z_int (between 1 5)) (rf_team_h_difficulty raw) &&
  z_nullable (z_int (between 1 5)) (rf_team_a_difficulty raw) && z_int natural (rf_pulse_id raw).

(** src: src/domain/fixtures.ts:9-51 FixtureSchema *)
Definition FixtureSchema (f : Fixture) : bool :=
  positive (fx_id f) && positive (fx_code f) && z_nullable (between 1 38) (fx_event f) &&
  natural (fx_minutes f) && positive (fx_teamA f) && z_nullable natural (fx_teamAScore f) &&
  positive (fx_teamH f) && z_nullable natural (fx_teamHScore f) &&
  forallb (λ s, forallb (λ v, positive v.2) (fs_a s ++ fs_h s)) (fx_stats f) &&
  z_nullable (between 1 5) (fx_teamHDifficulty f) && z_nullable (between 1 5) (fx_teamADifficulty f) &&
  natural (fx_pulseId f).

Section fixtures.
Context (date_parse : jsstr → option Z).

Definition int_pair (v : number * number) : Z * Z := (int_value v.1, int_value v.2).

(** An empty kick-off text is falsy, and an invalid date is dropped.
    src: src/transformers/fixtures.ts:12-13 transformFixture *)
Definition safeKickoffTime (kickoff_time : option jsstr) : option Z :=
  match kickoff_time with
  | Some (c :: text) => date_parse (c :: text)
  | _ => None
  end.

(** src: src/transformers/fixtures.ts:8-46 transformFixture *)
Definition transformFixture (raw : RawFixture) : option Fixture :=
  if negb (RawFPLFixtureSchema raw) then None else
  let fixture := {|
    fx_id := int_value (rf_id raw);
    fx_code := int_value (rf_code raw);
    fx_event := int_value <$> rf_event raw;
    fx_finished := rf_finished raw;
    fx_finishedProvisional := rf_finished_provisional raw;
    fx_kickoffTime := safeKickoffTime (rf_kickoff_time raw);
    fx_minutes := int_value (rf_minutes raw);
    fx_provisionalStartTime := rf_provisional_start_time raw;
    fx_started := rf_started raw;
    fx_teamA := int_value (rf_team_a raw);
    fx_teamAScore := int_value <$> rf_team_a_score raw;
    fx_teamH := int_value (rf_team_h raw);
    fx_teamHScore := int_value <$> rf_team_h_score raw;
    fx_stats := (λ s, mkFixtureStat (rs_identifier s) (int_pair <$> rs_a s) (int_pair <$> rs_h s)) <$> rf_stats raw;
    fx_teamHDifficulty := int_value <$> rf_team_h_difficulty raw;
    fx_teamADifficulty := int_value <$> rf_team_a_difficulty raw;
    fx_pulseId := int_value (rf_pulse_id raw) |} in
  if FixtureSchema fixture then Some fixture else None.

(** src: src/transformers/fixtures.ts:49-93 transformFixtures *)
Definition transformFixtures (raws : list RawFixture) : result (list Fixture) :=
  let fixtures := transform_all transformFixture raws in
  reject_if is_nil fixtures && negb (is_nil raws) with_code "ALL_FIXTURES_INVALID" ;;
  Ok fixtures.
End fixtures.
