(* ===== verification/EventLives.v ===== *)
(** * Live statistics of a gameweek ([src/transformers/event-lives.ts],
      [src/transformers/event-live-fixture-breakdown.ts], [src/transformers/event-live-explains.ts],
      [src/transformers/fpl-player-fixture-stats.ts], [src/services/event-lives.service.ts])

    One response of the live endpoint becomes three projections: the totals of every player, the
    scoring items the totals consist of, and the evidence of every player in every fixture.  The
    client checks the statistics of an element; its [explain] is unchecked JSON, [None] if it is
    [null].  Errors of the schemas are one tag. *)

From S2P Require Import Prelude JsCollections JsNumber Json CoreEntities.

(** ** Raw elements *)

(** The fields that are read; of the optional ones, [undefined] is [None].
    src: src/clients/fpl.ts:302-331 EventLiveStatsSchema *)
Record RawLiveStats := mkRawLiveStats {
  rl_minutes : number; rl_goals_scored : number; rl_assists : number; rl_clean_sheets : number;
  rl_goals_conceded : number; rl_own_goals : number; rl_penalties_saved : number;
  rl_penalties_missed : number; rl_yellow_cards : number; rl_red_cards : number; rl_saves : number;
  rl_bonus : number; rl_bps : number; rl_defensive_contribution : option number; rl_starts : number;
  rl_expected_goals : jsstr; rl_expected_assists : jsstr; rl_expected_goal_involvements : jsstr;
  rl_expected_goals_conceded : jsstr; rl_total_points : number; rl_in_dreamteam : bool;
}.

(** src: src/clients/fpl.ts:333-338 EventLiveElementSchema *)
Record RawLiveElement := mkRawLiveElement {
  rl_id : number;
  rl_stats : RawLiveStats;
  rl_explain : option (list json);
}.

(** src: src/clients/fpl.ts:608-613 EventExplainStatSchema *)
Record ExplainStat := mkExplainStat {
  xs_identifier : jsstr;
  xs_points : number;
  xs_value : number;
  xs_points_modification : option number;
}.

(** src: src/clients/fpl.ts:615-618 EventExplainFixtureSchema *)
Record ExplainFixture := mkExplainFixture {
  xf_fixture : number;
  xf_stats : list ExplainStat;
}.

(** A member that may be missing or [null]; [None] is an invalid one. *)
Definition nullable_number_member (name : string) (fields : list (jsstr * json)) : option (option number) :=
  match map_get (js name) fields with
  | None | Some JNull => Some None
  | _ => Some <$> number_member name fields
  end.

(** src: src/clients/fpl.ts:608-613 EventExplainStatSchema *)
Definition parse_explain_stat (value : json) : option ExplainStat :=
  match value with
  | JObject fields =>
      identifier ← string_member "identifier" fields;
      points ← number_member "points" fields;
      stat ← number_member "value" fields;
      modification ← nullable_number_member "points_modification" fields;
      Some (mkExplainStat identifier points stat modification)
  | _ => None
  end.

(** src: src/clients/fpl.ts:615-618 EventExplainFixtureSchema *)
Definition parse_explain_fixture (value : json) : option ExplainFixture :=
  match value with
  | JObject fields =>
      fixture ← number_member "fixture" fields;
      stats ← (match map_get (js "stats") fields with Some (JArray l) => mapM parse_explain_stat l | _ => None end);
      Some (mkExplainFixture fixture stats)
  | _ => None
  end.

(** ** The totals of a player *)

(** src: src/domain/event-lives.ts:43-48 EventLiveFixtureBreakdownStat *)
Record BreakdownStat := mkBreakdownStat {
  bd_identifier : jsstr;
  bd_value : number;
  bd_points : number;
  bd_pointsModification : option number;
}.

(** src: src/domain/event-lives.ts:50-53 EventLiveFixtureBreakdown *)
Record FixtureBreakdown := mkFixtureBreakdown {
  bd_fixtureId : number;
  bd_stats : list BreakdownStat;
}.

(** The statistics the transformer never leaves [null] are not nullable here.
    src: src/domain/event-lives.ts:14-41 EventLive *)
Record EventLive := mkEventLive {
  el_eventId : Z; el_elementId : Z; el_minutes : Z; el_goalsScored : Z; el_assists : Z;
  el_cleanSheets : Z; el_goalsConceded : Z; el_ownGoals : Z; el_penaltiesSaved : Z;
  el_penaltiesMissed : Z; el_yellowCards : Z; el_redCards : Z; el_saves : Z; el_bonus : Z; el_bps : Z;
  el_defensiveContribution : option Z; el_starts : bool; el_expectedGoals : jsstr;
  el_expectedAssists : jsstr; el_expectedGoalInvolvements : jsstr; el_expectedGoalsConceded : jsstr;
  el_inDreamTeam : bool; el_totalPoints : Z;
  el_fixtureBreakdown : option (list FixtureBreakdown);
}.

(** The limits the schema puts on the totals.
    src: src/domain/event-lives.ts:64-106 EventLiveSchema *)
Definition EventLiveSchema (eventId elementId : number) (s : RawLiveStats) : bool :=
  z_int positive eventId && z_int positive elementId &&
  z_int (between 0 150) (rl_minutes s) && z_int natural (rl_goals_scored s) && z_int natural (rl_assists s) &&
  z_int (between 0 1) (rl_clean_sheets s) && z_int natural (rl_goals_conceded s) &&
  z_int natural (rl_own_goals s) && z_int natural (rl_penalties_saved s) &&
  z_int natural (rl_penalties_missed s) && z_int (between 0 2) (rl_yellow_cards s) &&
  z_int (between 0 1) (rl_red_cards s) && z_int natural (rl_saves s) && z_int (between 0 3) (rl_bonus s) &&
  z_int any_int (rl_bps s) && z_nullable (z_int natural) (rl_defensive_contribution s) &&
  z_int any_int (rl_total_points s).

(** src: src/transformers/event-lives.ts:7-38 transformEventLive *)
Definition transformEventLive (eventId : number) (raw : RawLiveElement) : result EventLive :=
  let s := rl_stats raw in
  reject_if negb (EventLiveSchema eventId (rl_id raw) s) with_code "ZodError" ;;
  Ok {| el_eventId := int_value eventId;
        el_elementId := int_value (rl_id raw);
        el_minutes := int_value (rl_minutes s);
        el_goalsScored := int_value (rl_goals_scored s);
        el_assists := int_value (rl_assists s);
        el_cleanSheets := int_value (rl_clean_sheets s);
        el_goalsConceded := int_value (rl_goals_conceded s);
        el_ownGoals := int_value (rl_own_goals s);
        el_penaltiesSaved := int_value (rl_penalties_saved s);
        el_penaltiesMissed := int_value (rl_penalties_missed s);
        el_yellowCards := int_value (rl_yellow_cards s);
        el_redCards := int_value (rl_red_cards s);
        el_saves := int_value (rl_saves s);
        el_bonus := int_value (rl_bonus s);
        el_bps := int_value (rl_bps s);
        el_defensiveContribution := int_value <$> rl_defensive_contribution s;
        el_starts := is_positive (rl_starts s);
        el_expectedGoals := rl_expected_goals s;
        el_expectedAssists := rl_expected_assists s;
        el_expectedGoalInvolvements := rl_expected_goal_involvements s;
        el_expectedGoalsConceded := rl_expected_goals_conceded s;
        el_inDreamTeam := rl_in_dreamteam s;
        el_totalPoints := int_value (rl_total_points s);
        el_fixtureBreakdown := None |}.

(** src: src/transformers/event-lives.ts:43-48 transformEventLives *)
Definition transformEventLives (eventId : number) (elements : list RawLiveElement) : result (list EventLive) :=
  map_throwing (transformEventLive eventId) elements.

(** ** The breakdown by fixture *)

(** [set.has(n)] for a set of numbers. *)
Definition has_number (n : number) (set : list number) : bool := existsb (number_eqb n) set.

(** src: src/transformers/event-live-fixture-breakdown.ts:30-50 normalizeFixtureBreakdown *)
Fixpoint breakdown_stats (identifiers : list jsstr) (stats : list ExplainStat) : result (list BreakdownStat) :=
  match stats with
  | [] => Ok []
  | stat :: stats' =>
      let identifier := js_trim (xs_identifier stat) in
      reject_if is_nil identifier with_code "EMPTY_LIVE_FIXTURE_STAT" ;;
      reject_if bool_decide (identifier ∈ identifiers) with_code "DUPLICATE_LIVE_FIXTURE_STAT" ;;
      let* rest := breakdown_stats (identifier :: identifiers) stats' in
      Ok (mkBreakdownStat identifier (xs_value stat) (xs_points stat) (xs_points_modification stat) :: rest)
  end.

(** src: src/transformers/event-live-fixture-breakdown.ts:19-54 normalizeFixtureBreakdown *)
Fixpoint breakdown_fixtures (fixtureIds : list number) (explain : list json) : result (list FixtureBreakdown) :=
  match explain with
  | [] => Ok []
  | candidate :: explain' =>
      match parse_explain_fixture candidate with
      | None => Throw "ZodError"
      | Some fixture =>
          reject_if has_number (xf_fixture fixture) fixtureIds with_code "DUPLICATE_LIVE_FIXTURE_BREAKDOWN" ;;
          let* stats := breakdown_stats [] (xf_stats fixture) in
          let* rest := breakdown_fixtures (xf_fixture fixture :: fixtureIds) explain' in
          Ok (mkFixtureBreakdown (xf_fixture fixture)
                (js_sort (λ x y, compare_str (bd_identifier x) (bd_identifier y)) stats) :: rest)
      end
  end.

(** src: src/transformers/event-live-fixture-breakdown.ts:13-56 normalizeFixtureBreakdown *)
Definition normalizeFixtureBreakdown (element : RawLiveElement) : result (list FixtureBreakdown) :=
  match rl_explain element with
  | None => Ok []
  | Some explain =>
      let* fixtures := breakdown_fixtures [] explain in
      Ok (js_sort (λ x y, number_cmp (bd_fixtureId x) (bd_fixtureId y)) fixtures)
  end.

Definition with_breakdown (e : EventLive) (breakdown : list FixtureBreakdown) : EventLive :=
  {| el_eventId := el_eventId e; el_elementId := el_elementId e; el_minutes := el_minutes e;
     el_goalsScored := el_goalsScored e; el_assists := el_assists e; el_cleanSheets := el_cleanSheets e;
     el_goalsConceded := el_goalsConceded e; el_ownGoals := el_ownGoals e;
     el_penaltiesSaved := el_penaltiesSaved e; el_penaltiesMissed := el_penaltiesMissed e;
     el_yellowCards := el_yellowCards e; el_redCards := el_redCards e; el_saves := el_saves e;
     el_bonus := el_bonus e; el_bps := el_bps e; el_defensiveContribution := el_defensiveContribution e;
     el_starts := el_starts e; el_expectedGoals := el_expectedGoals e;
     el_expectedAssists := el_expectedAssists e;
     el_expectedGoalInvolvements := el_expectedGoalInvolvements e;
     el_expectedGoalsConceded := el_expectedGoalsConceded e; el_inDreamTeam := el_inDreamTeam e;
     el_totalPoints := el_totalPoints e; el_fixtureBreakdown := Some breakdown |}.

(** [elementsById]: of elements with one id, the last.
    src: src/transformers/event-live-fixture-breakdown.ts:58-76 attachEventLiveFixtureBreakdowns *)
Definition attachEventLiveFixtureBreakdowns (eventLives : list EventLive) (elements : list RawLiveElement)
    : result (list EventLive) :=
  map_throwing (λ e,
    match find (λ element, number_eqb (rl_id element) (of_int (el_elementId e))) (rev elements) with
    | None => Throw "MISSING_LIVE_ELEMENT"
    | Some element =>
        let* breakdown := normalizeFixtureBreakdown element in Ok (with_breakdown e breakdown)
    end) eventLives.

(** ** Scoring items *)

(** A statistic and its points are a pair.
    src: src/domain/event-live-explains.ts:3-31 EventLiveExplain *)
Record EventLiveExplain := mkExplain {
  ex_eventId : number;
  ex_elementId : number;
  ex_bonus : number;
  ex_minutes : number;
  ex_minutesPoints : option number;
  ex_goalsScored : number * number;
  ex_assists : number * number;
  ex_cleanSheets : number * number;
  ex_goalsConceded : number * number;
  ex_ownGoals : number * number;
  ex_penaltiesSaved : number * number;
  ex_penaltiesMissed : number * number;
  ex_yellowCards : number * number;
  ex_redCards : number * number;
  ex_saves : number * number;
  ex_defensiveContribution : number * number;
}.

Definition zero : number := of_int 0.

(** src: src/transformers/event-live-explains.ts:10-21 toFiniteNumber *)
Definition toFiniteNumber (input : option json) : number :=
  match input with
  | Some (JNumber n) => if is_finite n then n else zero
  | Some (JString s) => if is_finite (parseFloat s) then parseFloat s else zero
  | _ => zero
  end.

(** The identifier and the members of a statistic, if it is one.
    src: src/transformers/event-live-explains.ts:33-39 isExplainStat *)
Definition isExplainStat (value : json) : option (jsstr * list (jsstr * json)) :=
  match value with
  | JObject fields => (λ identifier, (identifier, fields)) <$> string_member "identifier" fields
  | _ => None
  end.

(** The statistics of a fixture, if it is one.
    src: src/transformers/event-live-explains.ts:23-31 isExplainFixture *)
Definition isExplainFixture (value : json) : option (list json) :=
  match value with
  | JObject fields =>
      match map_get (js "fixture") fields, map_get (js "stats") fields with
      | Some _, Some (JArray stats) => Some stats
      | _, _ => None
      end
  | _ => None
  end.

(** src: src/transformers/event-live-explains.ts:53-72 buildStatAccumulator *)
Definition accumulate_stat (accumulator : list (jsstr * (number * number))) (stat : json)
    : list (jsstr * (number * number)) :=
  match isExplainStat stat with
  | None => accumulator
  | Some (name, fields) =>
      let identifier := js_trim name in
      if is_nil identifier then accumulator else
      let value := toFiniteNumber (map_get (js "value") fields) in
      let points := toFiniteNumber (map_get (js "points") fields) in
      let pointsModification := toFiniteNumber (map_get (js "points_modification") fields) in
      let prev := nullish (map_get identifier accumulator) (zero, zero) in
      map_set identifier
        (number_add prev.1 value, number_add (number_add prev.2 points) pointsModification) accumulator
  end.

(** src: src/transformers/event-live-explains.ts:41-76 buildStatAccumulator *)
Definition buildStatAccumulator (explain : option (list json)) : list (jsstr * (number * number)) :=
  fold_left (λ acc fixture,
    match isExplainFixture fixture with
    | None => acc
    | Some stats => fold_left accumulate_stat stats acc
    end) (default [] explain) [].

(** src: src/transformers/event-live-explains.ts:78-124 transformSingleEventLiveExplain *)
Definition transformSingleEventLiveExplain (eventId : number) (element : RawLiveElement) : EventLiveExplain :=
  let accumulator := buildStatAccumulator (rl_explain element) in
  let get stat := map_get (js stat) accumulator in
  let entry stat := nullish (get stat) (zero, zero) in
  {| ex_eventId := eventId;
     ex_elementId := rl_id element;
     ex_bonus := rl_bonus (rl_stats element);
     ex_minutes := rl_minutes (rl_stats element);
     ex_minutesPoints := snd <$> get "minutes"%string;
     ex_goalsScored := entry "goals_scored"%string;
     ex_assists := entry "assists"%string;
     ex_cleanSheets := entry "clean_sheets"%string;
     ex_goalsConceded := entry "goals_conceded"%string;
     ex_ownGoals := entry "own_goals"%string;
     ex_penaltiesSaved := entry "penalties_saved"%string;
     ex_penaltiesMissed := entry "penalties_missed"%string;
     ex_yellowCards := entry "yellow_cards"%string;
     ex_redCards := entry "red_cards"%string;
     ex_saves := entry "saves"%string;
     ex_defensiveContribution := entry "defensive_contribution"%string |}.

(** src: src/transformers/event-live-explains.ts:126-131 transformEventLiveExplains *)
Definition transformEventLiveExplains (eventId : number) (elements : list RawLiveElement) : list EventLiveExplain :=
  transformSingleEventLiveExplain eventId <$> elements.

(** src: src/domain/event-live-explains.ts:82-99 totalPoints *)
Definition totalPoints (explain : EventLiveExplain) : number :=
  fold_left number_add
    [nullish (ex_minutesPoints explain) zero; (ex_goalsScored explain).2; (ex_assists explain).2;
     (ex_cleanSheets explain).2; (ex_goalsConceded explain).2; (ex_ownGoals explain).2;
     (ex_penaltiesSaved explain).2; (ex_penaltiesMissed explain).2; (ex_yellowCards explain).2;
     (ex_redCards explain).2; (ex_saves explain).2; (ex_defensiveContribution explain).2; ex_bonus explain]
    zero.

(** ** Evidence by fixture *)

(** src: src/domain/fpl-player-fixture-stats.ts:1-12 FplPlayerFixtureEvidence *)
Record FixtureEvidence := mkEvidence {
  fe_eventId : number; fe_fixtureId : number; fe_elementId : number; fe_minutes : Z; fe_starts : option Z;
  fe_goals : Z; fe_assists : Z; fe_ownGoals : Z; fe_yellowCards : Z; fe_redCards : Z;
}.

(** src: src/transformers/fpl-player-fixture-stats.ts:16-22 selectedStatValue *)
Definition selectedStatValue (stats : list (jsstr * number)) (identifier : string) : result Z :=
  let value := nullish (map_get (js identifier) stats) zero in
  reject_if negb (is_integer value) || (int_value value <? 0) with_code "INVALID_FPL_FIXTURE_STAT" ;;
  Ok (int_value value).

(** src: src/transformers/fpl-player-fixture-stats.ts:24-26 optionalSelectedStatValue *)
Definition optionalSelectedStatValue (stats : list (jsstr * number)) (identifier : string) : result (option Z) :=
  if map_has (js identifier) stats then let* value := selectedStatValue stats identifier in Ok (Some value)
  else Ok None.

(** src: src/transformers/fpl-player-fixture-stats.ts:48-51 transformFplPlayerFixtureEvidence *)
Definition stat_values (stats : list ExplainStat) : list (jsstr * number) :=
  fold_left (λ m stat,
    map_set (xs_identifier stat) (number_add (nullish (map_get (xs_identifier stat) m) zero) (xs_value stat)) m)
    stats [].

(** src: src/transformers/fpl-player-fixture-stats.ts:52-63 transformFplPlayerFixtureEvidence *)
Definition evidence_row (eventId : number) (element : RawLiveElement) (fixture : ExplainFixture)
    : result FixtureEvidence :=
  let stats := stat_values (xf_stats fixture) in
  let* minutes := selectedStatValue stats "minutes" in
  let* starts := optionalSelectedStatValue stats "starts" in
  let* goals := selectedStatValue stats "goals_scored" in
  let* assists := selectedStatValue stats "assists" in
  let* ownGoals := selectedStatValue stats "own_goals" in
  let* yellowCards := selectedStatValue stats "yellow_cards" in
  let* redCards := selectedStatValue stats "red_cards" in
  Ok (mkEvidence eventId (xf_fixture fixture) (rl_id element) minutes starts goals assists ownGoals
        yellowCards redCards).

(** [identities]: the texts [fixture:element] as pairs.
    src: src/transformers/fpl-player-fixture-stats.ts:38-65 transformFplPlayerFixtureEvidence *)
Fixpoint evidence_rows (eventId : number) (element : RawLiveElement) (explain : list json)
    (identities : list (number * number)) : result (list FixtureEvidence * list (number * number)) :=
  match explain with
  | [] => Ok ([], identities)
  | candidate :: explain' =>
      match parse_explain_fixture candidate with
      | None => Throw "ZodError"
      | Some fixture =>
          reject_if existsb (λ i, number_eqb (xf_fixture fixture) i.1 && number_eqb (rl_id element) i.2) identities
            with_code "DUPLICATE_FPL_FIXTURE_EXPLAIN" ;;
          let* row := evidence_row eventId element fixture in
          let* rest := evidence_rows eventId element explain' ((xf_fixture fixture, rl_id element) :: identities) in
          Ok (row :: rest.1, rest.2)
      end
  end.

(** src: src/transformers/fpl-player-fixture-stats.ts:35-65 transformFplPlayerFixtureEvidence *)
Fixpoint evidence_loop (eventId : number) (elements : list RawLiveElement) (identities : list (number * number))
    : result (list FixtureEvidence) :=
  match elements with
  | [] => Ok []
  | element :: elements' =>
      let* rows := evidence_rows eventId element (default [] (rl_explain element)) identities in
      let* rest := evidence_loop eventId elements' rows.2 in
      Ok (rows.1 ++ rest)
  end.

(** src: src/transformers/fpl-player-fixture-stats.ts:28-70 transformFplPlayerFixtureEvidence *)
Definition transformFplPlayerFixtureEvidence (eventId : number) (elements : list RawLiveElement)
    : result (list FixtureEvidence) :=
  let* rows := evidence_loop eventId elements [] in
  Ok (js_sort (then_by (λ x y, number_cmp (fe_fixtureId x) (fe_fixtureId y))
                       (λ x y, number_cmp (fe_elementId x) (fe_elementId y))) rows).

(** ** All three *)

(** src: src/services/event-lives.service.ts:30-37 PreparedEventLives *)
Record PreparedEventLives := mkPreparedLives {
  pe_eventId : number;
  pe_sourceCount : Z;
  pe_eventLives : list EventLive;
  pe_explains : list EventLiveExplain;
  pe_fixtureEvidence : list FixtureEvidence;
  pe_errors : Z;
}.

(** src: src/services/event-lives.service.ts:39-58 prepareEventLives *)
Definition prepareEventLives (eventId : number) (elements : list RawLiveElement) : result PreparedEventLives :=
  let* totals := transformEventLives eventId elements in
  let* eventLives := attachEventLiveFixtureBreakdowns totals elements in
  let explains := transformEventLiveExplains eventId elements in
  let* fixtureEvidence := transformFplPlayerFixtureEvidence eventId elements in
  Ok (mkPreparedLives eventId (Z.of_nat (length elements)) eventLives explains fixtureEvidence
        (Z.of_nat (length elements) - Z.of_nat (length eventLives))).

(** ** The limits of the totals *)

(** The totals of one match always pass; those of two need not. *)
Definition over_limit (s : RawLiveStats) : bool :=
  (150 <? int_value (rl_minutes s)) || (1 <? int_value (rl_clean_sheets s)) || (3 <? int_value (rl_bonus s)) ||
  (1 <? int_value (rl_red_cards s)) || (2 <? int_value (rl_yellow_cards s)).

Lemma over_limit_throws eventId raw : over_limit (rl_stats raw) = true → is_ok (transformEventLive eventId raw) = false.
Proof.
  intros H. unfold transformEventLive, throw_when. destruct (EventLiveSchema _ _ _) eqn:Hs; [|done]. exfalso.
  unfold EventLiveSchema, z_int, between in Hs. boolsolve. unfold over_limit in H.
  repeat (apply orb_true_iff in H as [H|H]); boolsolve; lia.
Qed.

(** ** Scoring items and the breakdown *)

(** A statistic of the breakdown, added to the items. *)
Definition add_stat (acc : list (jsstr * (number * number))) (s : BreakdownStat) : list (jsstr * (number * number)) :=
  let prev := nullish (map_get (bd_identifier s) acc) (zero, zero) in
  map_set (bd_identifier s)
    (number_add prev.1 (bd_value s), number_add (number_add prev.2 (bd_points s)) (default zero (bd_pointsModification s)))
    acc.

Definition whole_stat (s : BreakdownStat) : Prop :=
  is_integer (bd_value s) = true ∧ is_integer (bd_points s) = true ∧
  (∀ n, bd_pointsModification s = Some n → is_integer n = true).

Definition stat_points (s : BreakdownStat) : Z :=
  int_value (bd_points s) + from_option int_value 0 (bd_pointsModification s).

(** A bound of every partial sum. *)
Definition stat_mass (s : BreakdownStat) : Z :=
  Z.abs (int_value (bd_value s)) + Z.abs (int_value (bd_points s)) +
  Z.abs (from_option int_value 0 (bd_pointsModification s)).

Definition of_stat (identifier : jsstr) (f : BreakdownStat → Z) (s : BreakdownStat) : Z :=
  if bool_decide (bd_identifier s = identifier) then f s else 0.

Lemma finite_integer n : is_integer n = true → is_finite n = true.
Proof. by destruct n. Qed.

Lemma accumulate_parsed j st acc :
  parse_explain_stat j = Some st → js_trim (xs_identifier st) ≠ [] →
  whole_stat (mkBreakdownStat (js_trim (xs_identifier st)) (xs_value st) (xs_points st) (xs_points_modification st)) →
  accumulate_stat acc j =
  add_stat acc (mkBreakdownStat (js_trim (xs_identifier st)) (xs_value st) (xs_points st) (xs_points_modification st)).
Proof.
  destruct j; try done. unfold parse_explain_stat, accumulate_stat, isExplainStat, add_stat. cbn [bd_identifier bd_value bd_points bd_pointsModification].
  intros H Hne (Hv & Hp & Hm). cbn [bd_value bd_points bd_pointsModification] in *.
  apply bind_Some in H as (identifier & Hid & H). apply bind_Some in H as (points & Hpts & H).
  apply bind_Some in H as (value & Hval & H). apply bind_Some in H as (modification & Hmod & [= <-]).
  cbn [xs_identifier xs_points xs_value xs_points_modification] in *. rewrite Hid. cbn [fmap option_fmap option_map].
  destruct (js_trim identifier) as [|c t] eqn:Ht; [done|]. cbn [is_nil].
  assert (∀ name n, number_member name fields = Some n → is_integer n = true →
    toFiniteNumber (map_get (js name) fields) = n) as Hnum.
  { intros name n Hn Hi. unfold number_member in Hn. destruct (map_get (js name) fields) as [[]|]; try done.
    destruct (z_number _); [|done]. injection Hn as ->. cbn. by rewrite (finite_integer n Hi). }
  rewrite (Hnum "value"%string value), (Hnum "points"%string points) by done.
  assert (toFiniteNumber (map_get (js "points_modification") fields) = default zero modification) as ->; [|done].
  unfold nullable_number_member in Hmod.
  destruct (map_get (js "points_modification") fields) as [j|] eqn:Hg; [|by injection Hmod as <-].
  assert (j = JNull ∨ fmap Some (number_member "points_modification" fields) = Some modification) as [->|Hs].
  { destruct j; auto. }
  { by injection Hmod as <-. }
  destruct (number_member "points_modification" fields) as [n|] eqn:Hn; [|done]. injection Hs as <-.
  rewrite <-Hg. apply Hnum; [done|]. by apply Hm.
Qed.

Lemma breakdown_stats_build seen stats bstats acc :
  breakdown_stats seen stats = Ok bstats → Forall whole_stat bstats →
  ∀ js, mapM parse_explain_stat js = Some stats →
  fold_left accumulate_stat js acc = fold_left add_stat bstats acc.
Proof.
  revert seen bstats acc. induction stats as [|st stats IH]; intros seen bstats acc H Hw jsons Hjs.
  - injection H as <-. by apply mapM_Some, Forall2_nil_inv_r in Hjs as ->.
  - apply mapM_Some, Forall2_cons_inv_r in Hjs as (j & jsons' & Hj & Hjs & ->). apply mapM_Some in Hjs.
    cbn in H. inv_ok. rename select (breakdown_stats _ _ = Ok _) into Hrec.
    apply Forall_cons in Hw as [Hst Hw]. cbn [fold_left].
    rewrite (accumulate_parsed j st) by (done || by destruct (js_trim (xs_identifier st))).
    by eapply IH.
Qed.

Lemma parse_explain_fixture_items j f :
  parse_explain_fixture j = Some f →
  ∃ stats, isExplainFixture j = Some stats ∧ mapM parse_explain_stat stats = Some (xf_stats f).
Proof.
  destruct j; try done. unfold parse_explain_fixture, isExplainFixture. intros H.
  apply bind_Some in H as (fixture & Hf & H). apply bind_Some in H as (stats & Hs & [= <-]).
  unfold number_member in Hf. destruct (map_get (js "fixture") fields); [|done].
  destruct (map_get (js "stats") fields) as [[]|]; try done. eauto.
Qed.

(** The stats of a breakdown, in the order of the payload or sorted. *)
Definition all_stats (fixtures : list FixtureBreakdown) : list BreakdownStat := flat_map bd_stats fixtures.

Lemma flat_map_perm {A B} (f : A → list B) l k : l ≡ₚ k → flat_map f l ≡ₚ flat_map f k.
Proof.
  induction 1; cbn; [done|by f_equiv|by rewrite !app_assoc, (Permutation_app_comm (f y))|by etrans].
Qed.

Lemma breakdown_fixtures_build seen explain fixtures acc :
  breakdown_fixtures seen explain = Ok fixtures → Forall whole_stat (all_stats fixtures) →
  ∃ stats, stats ≡ₚ all_stats fixtures ∧
    fold_left (λ acc fixture, match isExplainFixture fixture with
                              | None => acc
                              | Some stats => fold_left accumulate_stat stats acc
                              end) explain acc = fold_left add_stat stats acc.
Proof.
  revert seen fixtures acc. induction explain as [|j explain IH]; intros seen fixtures acc H Hw.
  { injection H as <-. by exists []. }
  cbn in H. destruct (parse_explain_fixture j) as [f|] eqn:Hj; [|done]. inv_ok.
  rename select (breakdown_stats _ _ = Ok _) into Hstats. rename select (breakdown_fixtures _ _ = Ok _) into Hrec.
  unfold all_stats in Hw. cbn in Hw. apply Forall_app in Hw as [Hw1 Hw2].
  apply parse_explain_fixture_items in Hj as (jsons & Hi & Hjs). cbn [fold_left]. rewrite Hi.
  rewrite js_sort_perm in Hw1.
  rewrite (breakdown_stats_build _ _ _ acc Hstats Hw1 _ Hjs).
  destruct (IH _ _ (fold_left add_stat x acc) Hrec Hw2) as (stats & Hperm & Heq).
  exists (x ++ stats). split; [|by rewrite fold_left_app].
  unfold all_stats. cbn. rewrite js_sort_perm. by f_equiv.
Qed.

Lemma abs_sum_le {A} (f g : A → Z) (l : list A) : (∀ x, Z.abs (f x) ≤ g x) → Z.abs (sum_by f l) ≤ sum_by g l.
Proof. intros H. unfold sum_by. induction l as [|x l IH]; cbn; [done|]. specialize (H x). lia. Qed.

Lemma stat_mass_bounds identifier s :
  Z.abs (of_stat identifier (int_value ∘ bd_value) s) ≤ stat_mass s ∧
  Z.abs (of_stat identifier stat_points s) ≤ stat_mass s ∧
  Z.abs (int_value (bd_value s)) + Z.abs (int_value (bd_points s)) + Z.abs (from_option int_value 0 (bd_pointsModification s))
    ≤ stat_mass s.
Proof. unfold of_stat, stat_points, stat_mass. cbn. case_bool_decide; lia. Qed.

Definition item_of (identifier : jsstr) (stats : list BreakdownStat) : number * number :=
  nullish (map_get identifier (fold_left add_stat stats [])) (zero, zero).

Lemma item_of_snoc identifier stats s :
  item_of identifier (stats ++ [s]) =
  let prev := item_of identifier stats in
  if bool_decide (bd_identifier s = identifier)
  then (number_add prev.1 (bd_value s),
        number_add (number_add prev.2 (bd_points s)) (default zero (bd_pointsModification s)))
  else prev.
Proof.
  unfold item_of. rewrite fold_left_app. cbn [fold_left]. unfold add_stat at 1. rewrite map_get_set.
  case_bool_decide as Hd; [subst; by rewrite decide_True|by rewrite decide_False].
Qed.

(** The items hold the sums, as long as the sums are small. *)
Lemma items_sum stats identifier :
  Forall whole_stat stats → sum_by stat_mass stats < 2 ^ 53 →
  is_integer (item_of identifier stats).1 = true ∧ is_integer (item_of identifier stats).2 = true ∧
  int_value (item_of identifier stats).1 = sum_by (of_stat identifier (int_value ∘ bd_value)) stats ∧
  int_value (item_of identifier stats).2 = sum_by (of_stat identifier stat_points) stats.
Proof.
  induction stats as [|s stats IH] using rev_ind; [done|].
  rewrite Forall_app, Forall_singleton, !sum_by_app, item_of_snoc. intros [Hstats (Hsv & Hsp & Hsm)].
  assert (∀ f, sum_by f [s] = f s) as Hone by (intros f; unfold sum_by; cbn; lia). rewrite !Hone. intros Hmass.
  destruct (stat_mass_bounds identifier s) as (Hb1 & Hb2 & Hb3).
  assert (0 ≤ sum_by stat_mass stats) by (apply sum_by_nonneg; intros x; unfold stat_mass; lia).
  destruct IH as (Hi1 & Hi2 & Hv & Hp); [done|lia|].
  pose proof (abs_sum_le _ stat_mass stats (λ x, proj1 (stat_mass_bounds identifier x))) as Hbv.
  pose proof (abs_sum_le _ stat_mass stats (λ x, proj1 (proj2 (stat_mass_bounds identifier x)))) as Hbp.
  unfold of_stat at 2 4. cbn zeta. case_bool_decide; [|rewrite !Z.add_0_r; done]. cbn [fst snd compose].
  destruct (number_add_exact (item_of identifier stats).1 (bd_value s)) as [-> ->]; [done..|lia|].
  destruct (number_add_exact (item_of identifier stats).2 (bd_points s)) as [Hj1 Hj2]; [done..|lia|].
  assert (is_integer (default zero (bd_pointsModification s)) = true ∧
    int_value (default zero (bd_pointsModification s)) = from_option int_value 0 (bd_pointsModification s)) as [Hm1 Hm2]
    by (destruct (bd_pointsModification s); cbn; auto).
  destruct (number_add_exact _ _ Hj1 Hm1) as [-> ->]; [lia|].
  split_and!; [done..|lia|]. rewrite Hj2, Hm2, Hp. unfold stat_points. lia.
Qed.

(** C27: the scoring items of a player are the sums of the breakdown by fixture: for every identifier, the item's
    value and points are the totals of the statistics with that identifier over all fixtures of the gameweek
    (with the modifications of points), whatever the order in which the payload lists them. *)
Theorem explains_sum_breakdown element fixtures identifier
  (H : normalizeFixtureBreakdown element = Ok fixtures)
  (Hwhole : Forall whole_stat (all_stats fixtures))
  (Hsmall : sum_by stat_mass (all_stats fixtures) < 2 ^ 53) :
  let item := nullish (map_get identifier (buildStatAccumulator (rl_explain element))) (zero, zero) in
  int_value item.1 = sum_by (of_stat identifier (int_value ∘ bd_value)) (all_stats fixtures) ∧
  int_value item.2 = sum_by (of_stat identifier stat_points) (all_stats fixtures).
Proof.
  unfold normalizeFixtureBreakdown, buildStatAccumulator in *. destruct (rl_explain element) as [explain|];
    [change (default [] (Some explain)) with explain|].
  2:{ injection H as <-. done. }
  inv_ok. rename select (breakdown_fixtures _ _ = Ok _) into Hb.
  assert (all_stats (js_sort (λ x y, number_cmp (bd_fixtureId x) (bd_fixtureId y)) x) ≡ₚ all_stats x) as Hperm
    by (apply flat_map_perm, js_sort_perm).
  rewrite Hperm in Hwhole. rewrite (sum_by_perm stat_mass _ _ Hperm) in Hsmall. cbn zeta.
  rewrite (sum_by_perm (of_stat identifier (int_value ∘ bd_value)) _ _ Hperm),
    (sum_by_perm (of_stat identifier stat_points) _ _ Hperm).
  destruct (breakdown_fixtures_build [] explain x [] Hb Hwhole) as (stats & Hstats & Heq). rewrite Heq.
  destruct (items_sum stats identifier) as (_ & _ & Hv & Hp).
  { by rewrite Hstats. }
  { by rewrite (sum_by_perm stat_mass _ _ Hstats). }
  rewrite <-(sum_by_perm (of_stat identifier (int_value ∘ bd_value)) _ _ Hstats),
    <-(sum_by_perm (of_stat identifier stat_points) _ _ Hstats). done.
Qed.

(** ** Examples *)

Definition sample_live_stats (minutes cleanSheets bonus : Z) : RawLiveStats :=
  let n := of_int in
  mkRawLiveStats (n minutes) (n 3) (n 0) (n cleanSheets) (n 0) (n 0) (n 0) (n 0) (n 0) (n 0) (n 0) (n bonus) (n 40)
    None (n 1) (js "0.5") (js "0.1") (js "0.6") (js "0.9") (n 14) false.

Definition sample_stat (identifier : string) (value points : Z) : json :=
  JObject [(js "identifier", JString (js identifier)); (js "points", JNumber (of_int points));
           (js "value", JNumber (of_int value)); (js "points_modification", JNumber (of_int 0))].

Definition sample_explain (fixture minutes goals : Z) : json :=
  JObject [(js "fixture", JNumber (of_int fixture));
           (js "stats", JArray [sample_stat "minutes" minutes 2; sample_stat "goals_scored" goals (4 * goals)])].

(** A player with two fixtures, the later one listed first. *)
Definition sample_double (minutes cleanSheets bonus : Z) : RawLiveElement :=
  mkRawLiveElement (of_int 7) (sample_live_stats minutes cleanSheets bonus)
    (Some [sample_explain 12 (minutes - 60) 2; sample_explain 11 60 1]).

Definition sample_breakdown : list FixtureBreakdown :=
  match normalizeFixtureBreakdown (sample_double 150 0 3) with Ok b => b | Throw _ => [] end.

Lemma explains_sum_breakdown_witness :
  let item := nullish (map_get (js "goals_scored")
    (buildStatAccumulator (rl_explain (sample_double 150 0 3)))) (zero, zero) in
  normalizeFixtureBreakdown (sample_double 150 0 3) = Ok sample_breakdown ∧
  int_value item.1 = sum_by (of_stat (js "goals_scored") (int_value ∘ bd_value)) (all_stats sample_breakdown) ∧
  int_value item.1 = 3 ∧ int_value item.2 = 12.
Proof.
  intros item.
  assert (normalizeFixtureBreakdown (sample_double 150 0 3) = Ok sample_breakdown) as H by (vm_compute; reflexivity).
  assert (Forall whole_stat (all_stats sample_breakdown)) as Hwhole.
  { vm_compute. repeat constructor; intros n [= <-]; reflexivity. }
  assert (sum_by stat_mass (all_stats sample_breakdown) < 2 ^ 53) as Hsmall by (vm_compute; reflexivity).
  destruct (explains_sum_breakdown _ _ (js "goals_scored") H Hwhole Hsmall) as [Hv Hp].
  split; [exact H|]. split; [exact Hv|]. split; vm_compute; reflexivity.
Defined.

(** Up to the limits the response is prepared. *)
Example sample_prepared : is_ok (prepareEventLives (of_int 3) [sample_double 150 1 3]) = true.
Proof. vm_compute. reflexivity. Qed.
