(* ===== verification/CoreSnapshot.v ===== *)
(** * The core snapshot ([src/domain/core-snapshot.ts], [src/domain/fpl-source-season.ts],
      [src/domain/fpl-season.ts])

    A bootstrap payload and the fixture list of a season become a snapshot, or are rejected: the
    snapshot is published as a whole, so it must be complete and consistent. *)

From S2P Require Import Prelude JsCollections JsNumber JsDate Json CoreEntities.

(** ** Seasons *)

(** src: src/domain/fpl-season.ts:6-14 isFplSeasonCode *)
Definition isFplSeasonCode (value : jsstr) : bool :=
  if negb ((length value =? 4)%nat && forallb is_digit value) then false else
  let startYear := digits_value 10 (take 2 value) in
  let endYear := digits_value 10 (drop 2 value) in
  endYear =? (startYear + 1) mod 100.

(** src: src/domain/fpl-season.ts:16-22 seasonIdFromCode *)
Definition seasonIdFromCode (seasonCode : jsstr) : result Z :=
  if negb (isFplSeasonCode seasonCode) then Throw "INVALID_SEASON_CODE"
  else Ok (2000 + digits_value 10 (take 2 seasonCode)).

(** [String(n).slice(-2)] *)
Definition last_two (n : Z) : jsstr := let s := print_int n in drop (length s - 2) s.

(** src: src/domain/fpl-source-season.ts:9-11 seasonCodeFromStartYear *)
Definition seasonCodeFromStartYear (startYear : Z) : jsstr := last_two startYear ++ last_two (startYear + 1).

Section source_season.
Context (date_parse : jsstr → option Z).

(** src: src/domain/fpl-source-season.ts:13-17 utcYear *)
Definition utcYear (value : option jsstr) : option Z :=
  match value with
  | Some (c :: text) => utc_year <$> date_parse (c :: text)
  | _ => None
  end.

(** src: src/domain/fpl-source-season.ts:23-29 deriveFplSeasonFromEvents *)
Definition deriveFplSeasonFromEvents (events : list RawEvent) : option jsstr :=
  gw1 ← find (λ e, number_eqb (rv_id e) (of_int 1)) events;
  seasonCodeFromStartYear <$> utcYear (rv_deadline_time gw1).

(** src: src/domain/fpl-source-season.ts:32-40 deriveFplSeasonFromFixtures *)
Definition deriveFplSeasonFromFixtures (fixtures : list RawFixture) : option jsstr :=
  let years := omap (λ f, utcYear (rf_kickoff_time f))
    (List.filter (λ f, match rf_event f with Some e => number_eqb e (of_int 1) | None => false end) fixtures) in
  match years with
  | [] => None
  | year :: rest => Some (seasonCodeFromStartYear (fold_left Z.min rest year))
  end.
End source_season.

(** ** Selection rules *)

(** src: src/domain/core-snapshot.ts:19-26 SelectionRulePosition *)
Record SelectionRulePosition := mkPosition {
  sp_id : Z; sp_name : jsstr; sp_shortName : jsstr; sp_squadSelect : Z; sp_minPlay : Z; sp_maxPlay : Z;
}.

(** src: src/domain/core-snapshot.ts:28-35 SelectionRuleChipWindow *)
Record SelectionRuleChipWindow := mkChipWindow {
  sc_id : Z; sc_name : jsstr; sc_number : Z; sc_startEvent : number; sc_stopEvent : number; sc_chipType : jsstr;
}.

(** src: src/domain/core-snapshot.ts:37-45 SelectionRules *)
Record SelectionRules := mkSelectionRules {
  sr_squadSize : Z; sr_startingSize : Z; sr_budget : Z; sr_maxPlayersPerTeam : Z; sr_currencyMultiplier : Z;
  sr_positions : list SelectionRulePosition;
  sr_chips : list SelectionRuleChipWindow;
}.

(** src: src/clients/fpl.ts:228-238 ChipSchema *)
Record RawChip := mkRawChip {
  rc_id : number; rc_name : jsstr; rc_number : number; rc_start_event : number; rc_stop_event : number;
  rc_chip_type : jsstr;
}.

(** src: src/clients/fpl.ts:276-299 BootstrapResponseSchema *)
Record Bootstrap := mkBootstrap {
  bs_events : list RawEvent;
  bs_teams : list RawTeam;
  bs_elements : list RawElement;
  bs_game_settings : json;
  bs_phases : list RawPhase;
  bs_element_types : list json;
  bs_chips : list RawChip;
}.

(** src: src/domain/core-snapshot.ts:73-76 asRecord *)
Definition asRecord (value : json) : option (list (jsstr * json)) :=
  match value with JObject fields => Some fields | _ => None end.

(** [undefined] is [None].
    src: src/domain/core-snapshot.ts:78-84 asFiniteNumber *)
Definition asFiniteNumber (value : option json) : option number :=
  match value with
  | Some (JNumber n) => if is_finite n then Some n else None
  | Some (JString s) =>
      if negb (is_nil (js_trim s)) && is_finite (Number s) then Some (Number s) else None
  | _ => None
  end.

Definition is_safe (n : number) : bool := is_integer n && (Z.abs (int_value n) <=? MAX_SAFE_INTEGER).

(** src: src/domain/core-snapshot.ts:86-89 asPositiveInteger *)
Definition asPositiveInteger (value : option json) : option Z :=
  n ← asFiniteNumber value; if is_safe n && (0 <? int_value n) then Some (int_value n) else None.

Definition text_or (value : option json) (fallback : jsstr) : jsstr :=
  match value with Some (JString s) => s | _ => fallback end.

(** src: src/domain/core-snapshot.ts:102-121 normalizeSelectionRules *)
Definition rule_position (position : list (jsstr * json)) : option SelectionRulePosition :=
  let field name := map_get (js name) position in
  id ← asPositiveInteger (field "id"%string);
  squadSelect ← asPositiveInteger (field "squad_select"%string);
  minPlay ← asPositiveInteger (field "squad_min_play"%string);
  maxPlay ← asPositiveInteger (field "squad_max_play"%string);
  if maxPlay <? minPlay then None else
  let name := text_or (field "singular_name"%string) (js "Position " ++ print_int id) in
  Some (mkPosition id name (text_or (field "singular_name_short"%string) name) squadSelect minPlay maxPlay).

(** src: src/domain/core-snapshot.ts:123-144 normalizeSelectionRules *)
Definition rule_chip (chip : RawChip) : option SelectionRuleChipWindow :=
  id ← asPositiveInteger (Some (JNumber (rc_id chip)));
  number ← asPositiveInteger (Some (JNumber (rc_number chip)));
  if number_ltb (rc_start_event chip) (of_int 1) || number_ltb (rc_stop_event chip) (rc_start_event chip) then None
  else Some (mkChipWindow id (rc_name chip) number (rc_start_event chip) (rc_stop_event chip) (rc_chip_type chip)).

(** The value of a setting, if it is a positive safe integer. *)
Definition setting (settings : option (list (jsstr * json))) (name : string) : option Z :=
  asPositiveInteger (settings ≫= map_get (js name)).

(** The checks of the whole; the sizes are positive by [setting].
    src: src/domain/core-snapshot.ts:145-173 normalizeSelectionRules *)
Definition rules_consistent (rules : SelectionRules) : bool :=
  let positions := sr_positions rules in
  negb (is_nil positions) && (length (dedup (sp_id <$> positions)) =? length positions)%nat &&
  (sr_startingSize rules <=? sr_squadSize rules) && (sr_maxPlayersPerTeam rules <=? sr_squadSize rules) &&
  (sum_by sp_squadSelect positions =? sr_squadSize rules) &&
  (sum_by sp_minPlay positions <=? sr_startingSize rules) &&
  (sr_startingSize rules <=? sum_by sp_maxPlay positions) &&
  (length (dedup (sc_id <$> sr_chips rules)) =? length (sr_chips rules))%nat.

(** [rawPositions]: the element types that are objects.
    src: src/domain/core-snapshot.ts:92-183 normalizeSelectionRules *)
Definition normalizeSelectionRules (bootstrap : Bootstrap) : option SelectionRules :=
  let settings := asRecord (bs_game_settings bootstrap) in
  let rawPositions := omap asRecord (bs_element_types bootstrap) in
  let positions := omap rule_position rawPositions in
  let chips := omap rule_chip (bs_chips bootstrap) in
  squadSize ← setting settings "squad_squadsize";
  startingSize ← setting settings "squad_squadplay";
  budget ← setting settings "squad_total_spend";
  maxPlayersPerTeam ← setting settings "squad_team_limit";
  currencyMultiplier ← setting settings "ui_currency_multiplier";
  let rules := mkSelectionRules squadSize startingSize budget maxPlayersPerTeam currencyMultiplier positions chips in
  if (length positions =? length rawPositions)%nat && (length chips =? length (bs_chips bootstrap))%nat &&
     rules_consistent rules
  then Some rules else None.

(** ** Completeness *)

(** src: src/domain/core-snapshot.ts:47-49 CORE_SNAPSHOT_EXPECTED_EVENTS *)
Definition CORE_SNAPSHOT_EXPECTED_EVENTS : Z := 38.
Definition CORE_SNAPSHOT_EXPECTED_TEAMS : Z := 20.
Definition CORE_SNAPSHOT_EXPECTED_FIXTURES : Z := 380.

(** src: src/domain/core-snapshot.ts:53-53 CORE_SNAPSHOT_MIN_PLAYERS_PER_TEAM *)
Definition CORE_SNAPSHOT_MIN_PLAYERS_PER_TEAM : Z := 11.

(** src: src/domain/core-snapshot.ts:63-71 CoreSnapshot *)
Record CoreSnapshot := mkCoreSnapshot {
  cs_season : jsstr;
  cs_events : list Event;
  cs_teams : list Team;
  cs_players : list Player;
  cs_phases : list Phase;
  cs_fixtures : list Fixture;
  cs_selectionRules : option SelectionRules;
}.

(** src: src/domain/core-snapshot.ts:185-191 reject *)
Definition reject : string := "CORE_SNAPSHOT_INCOMPLETE".

(** src: src/domain/core-snapshot.ts:193-195 requireExactCount *)
Definition requireExactCount {A : Type} (actual : list A) (expected : Z) : result unit :=
  reject_if negb (Z.of_nat (length actual) =? expected) with_code reject ;; Ok ().

(** src: src/domain/core-snapshot.ts:197-205 requireUniqueIds *)
Definition requireUniqueIds (ids : list Z) : result unit :=
  reject_if negb (length (dedup ids) =? length ids)%nat with_code reject ;; Ok ().

(** src: src/domain/core-snapshot.ts:207-212 requireCompleteEventRange *)
Definition requireCompleteEventRange (events : list Event) : result unit :=
  reject_if existsb (λ id, negb (bool_decide (id ∈ ev_id <$> events))) (seqZ 1 CORE_SNAPSHOT_EXPECTED_EVENTS)
    with_code reject ;;
  Ok ().

(** Every team starts with no count.
    src: src/domain/core-snapshot.ts:222-222 requirePlayerCoverage *)
Definition zero_counts (teamIds : list Z) : list (Z * Z) := map_of_entries ((λ id : Z, (id, 0)) <$> teamIds).

(** [counts.set(id, (counts.get(id) ?? 0) + 1)] *)
Definition count_team (id : Z) (appearances : list (Z * Z)) : list (Z * Z) :=
  map_set id (nullish (map_get id appearances) 0 + 1) appearances.

(** The loop over the players: it notes the positions and counts the players of each team.
    src: src/domain/core-snapshot.ts:223-228 requirePlayerCoverage *)
Fixpoint count_players (teamIds : list Z) (players : list Player) (positions : list Z)
    (playersByTeam : list (Z * Z)) : result (list Z * list (Z * Z)) :=
  match players with
  | [] => Ok (positions, playersByTeam)
  | player :: players' =>
      reject_if negb (bool_decide (pl_teamId player ∈ teamIds)) with_code reject ;;
      reject_if (pl_type player <? 1) || (4 <? pl_type player) with_code reject ;;
      count_players teamIds players' (pl_type player :: positions)
        (count_team (pl_teamId player) playersByTeam)
  end.

(** src: src/domain/core-snapshot.ts:214-240 requirePlayerCoverage *)
Definition requirePlayerCoverage (players : list Player) (teamIds : list Z) : result unit :=
  reject_if is_nil players with_code reject ;;
  let* _ := requireUniqueIds (pl_id <$> players) in
  let* counted := count_players teamIds players [] (zero_counts teamIds) in
  reject_if negb (length (dedup counted.1) =? 4)%nat with_code reject ;;
  reject_if existsb (λ c, c <? CORE_SNAPSHOT_MIN_PLAYERS_PER_TEAM) (map_values counted.2) with_code reject ;;
  Ok ().

(** src: src/domain/core-snapshot.ts:242-266 requirePhaseCoverage *)
Definition requirePhaseCoverage (phases : list Phase) : result unit :=
  reject_if is_nil phases with_code reject ;;
  let* _ := requireUniqueIds (ph_id <$> phases) in
  reject_if existsb (λ p, (ph_startEvent p <? 1) || (CORE_SNAPSHOT_EXPECTED_EVENTS <? ph_stopEvent p) ||
                          (ph_stopEvent p <? ph_startEvent p)) phases with_code reject ;;
  reject_if negb (existsb (λ p, (ph_startEvent p =? 1) && (ph_stopEvent p =? CORE_SNAPSHOT_EXPECTED_EVENTS)) phases)
    with_code reject ;;
  Ok ().

(** The checks of one fixture.
    src: src/domain/core-snapshot.ts:278-287 requireFixtureCoverage *)
Definition check_fixture (teamIds : list Z) (f : Fixture) : result unit :=
  reject_if negb (bool_decide (fx_teamH f ∈ teamIds)) || negb (bool_decide (fx_teamA f ∈ teamIds))
    with_code reject ;;
  reject_if fx_teamH f =? fx_teamA f with_code reject ;;
  reject_if match fx_event f with
            | Some e => (e <? 1) || (CORE_SNAPSHOT_EXPECTED_EVENTS <? e)
            | None => false
            end with_code reject ;;
  Ok ().

(** How often the lower and the upper team of a pair play at home; a pair stands for its text
    [lower:upper].
    src: src/domain/core-snapshot.ts:290-295 requireFixtureCoverage *)
Definition note_pairing (pairings : list (Z * Z * (Z * Z))) (f : Fixture) : list (Z * Z * (Z * Z)) :=
  let lower := Z.min (fx_teamH f) (fx_teamA f) in
  let upper := Z.max (fx_teamH f) (fx_teamA f) in
  let pairing := nullish (map_get (lower, upper) pairings) (0, 0) in
  map_set (lower, upper)
    (if fx_teamH f =? lower then (pairing.1 + 1, pairing.2) else (pairing.1, pairing.2 + 1)) pairings.

(** src: src/domain/core-snapshot.ts:275-296 requireFixtureCoverage *)
Fixpoint scan_fixtures (teamIds : list Z) (fixtures : list Fixture) (appearances : list (Z * Z))
    (pairings : list (Z * Z * (Z * Z))) : result (list (Z * Z) * list (Z * Z * (Z * Z))) :=
  match fixtures with
  | [] => Ok (appearances, pairings)
  | f :: fixtures' =>
      let* _ := check_fixture teamIds f in
      scan_fixtures teamIds fixtures' (count_team (fx_teamA f) (count_team (fx_teamH f) appearances))
        (note_pairing pairings f)
  end.

(** src: src/domain/core-snapshot.ts:268-319 requireFixtureCoverage *)
Definition requireFixtureCoverage (fixtures : list Fixture) (teamIds : list Z) : result unit :=
  let* _ := requireExactCount fixtures CORE_SNAPSHOT_EXPECTED_FIXTURES in
  let* _ := requireUniqueIds (fx_id <$> fixtures) in
  let* scanned := scan_fixtures teamIds fixtures (zero_counts teamIds) [] in
  reject_if existsb (λ count, negb (count =? CORE_SNAPSHOT_EXPECTED_EVENTS)) (map_values scanned.1)
    with_code reject ;;
  let n := Z.of_nat (length teamIds) in
  reject_if negb (Z.of_nat (length scanned.2) =? n * (n - 1) / 2) with_code reject ;;
  reject_if existsb (λ p : Z * Z, negb (p.1 =? 1) || negb (p.2 =? 1)) (map_values scanned.2)
    with_code reject ;;
  Ok ().

(** Whether the payload claims to have rules.
    src: src/domain/core-snapshot.ts:361-365 prepareCoreSnapshot *)
Definition hasRulePayload (bootstrap : Bootstrap) : bool :=
  match asRecord (bs_game_settings bootstrap) with Some (_ :: _) => true | _ => false end ||
  negb (is_nil (bs_element_types bootstrap)) || negb (is_nil (bs_chips bootstrap)).

Section prepare.
Context (date_parse : jsstr → option Z).

(** src: src/domain/core-snapshot.ts:321-377 prepareCoreSnapshot *)
Definition prepareCoreSnapshot (bootstrap : Bootstrap) (rawFixtures : list RawFixture) : result CoreSnapshot :=
  let* _ := requireExactCount (bs_events bootstrap) CORE_SNAPSHOT_EXPECTED_EVENTS in
  let* _ := requireExactCount (bs_teams bootstrap) CORE_SNAPSHOT_EXPECTED_TEAMS in
  let* _ := requireExactCount rawFixtures CORE_SNAPSHOT_EXPECTED_FIXTURES in
  let* events := transformEvents (bs_events bootstrap) in
  let* teams := transformTeams (bs_teams bootstrap) in
  let* players := transformPlayersStrict (bs_elements bootstrap) in
  let* phases := transformPhases (bs_phases bootstrap) in
  let* fixtures := transformFixtures date_parse rawFixtures in
  let* _ := requireExactCount events (Z.of_nat (length (bs_events bootstrap))) in
  let* _ := requireExactCount teams (Z.of_nat (length (bs_teams bootstrap))) in
  let* _ := requireExactCount players (Z.of_nat (length (bs_elements bootstrap))) in
  let* _ := requireExactCount phases (Z.of_nat (length (bs_phases bootstrap))) in
  let* _ := requireExactCount fixtures (Z.of_nat (length rawFixtures)) in
  let* _ := requireUniqueIds (ev_id <$> events) in
  let* _ := requireCompleteEventRange events in
  let* _ := requireUniqueIds (tm_id <$> teams) in
  let teamIds := dedup (tm_id <$> teams) in
  let* _ := requirePlayerCoverage players teamIds in
  let* _ := requirePhaseCoverage phases in
  let* _ := requireFixtureCoverage fixtures teamIds in
  match deriveFplSeasonFromEvents date_parse (bs_events bootstrap),
        deriveFplSeasonFromFixtures date_parse rawFixtures with
  | Some eventSeason, Some fixtureSeason =>
      reject_if negb (bool_decide (eventSeason = fixtureSeason)) with_code reject ;;
      let selectionRules := normalizeSelectionRules bootstrap in
      reject_if is_null selectionRules && hasRulePayload bootstrap with_code reject ;;
      Ok (mkCoreSnapshot eventSeason events teams players phases fixtures selectionRules)
  | _, _ => Throw reject
  end.
End prepare.

(** ** The fixture list of a season *)

(** How often [h] receives [a]. *)
Definition meetings (h a : Z) (fixtures : list Fixture) : Z :=
  sum_by (λ f, if bool_decide (fx_teamH f = h ∧ fx_teamA f = a) then 1 else 0) fixtures.

(** A fixture between two of the teams, in a gameweek of the season if it has one. *)
Definition proper_fixture (teamIds : list Z) (f : Fixture) : Prop :=
  fx_teamH f ∈ teamIds ∧ fx_teamA f ∈ teamIds ∧ fx_teamH f ≠ fx_teamA f ∧
  (∀ e, fx_event f = Some e → 1 ≤ e ≤ CORE_SNAPSHOT_EXPECTED_EVENTS).

(** One element of a set of distinct values is hit once. *)
Lemma sum_by_hit (x : Z) (l : list Z) :
  NoDup l → sum_by (λ y, if bool_decide (x = y) then 1 else 0) l = if bool_decide (x ∈ l) then 1 else 0.
Proof.
  induction l as [|y l IH]; cbn; [done|]. intros [Hy Hnd]%NoDup_cons. fold (sum_by (λ y, if bool_decide (x = y) then 1 else 0) l).
  rewrite IH by done. repeat case_bool_decide; set_solver || lia.
Qed.

Lemma meetings_nonneg h a fs : 0 ≤ meetings h a fs.
Proof. apply sum_by_nonneg. intros f. by case_bool_decide. Qed.

Lemma meetings_snoc h a fs f :
  meetings h a (fs ++ [f]) = meetings h a fs + (if bool_decide (fx_teamH f = h ∧ fx_teamA f = a) then 1 else 0).
Proof. unfold meetings. rewrite sum_by_app. cbn. lia. Qed.

(** The pairs of teams, the lower one first. *)
Fixpoint upper_pairs (T : list Z) : list (Z * Z) :=
  match T with
  | [] => []
  | x :: T => ((λ y, (Z.min x y, Z.max x y)) <$> T) ++ upper_pairs T
  end.

Lemma length_upper_pairs (l : list Z) :
  Z.of_nat (length (upper_pairs l)) = Z.of_nat (length l) * (Z.of_nat (length l) - 1) / 2.
Proof.
  assert (2 * Z.of_nat (length (upper_pairs l)) = Z.of_nat (length l) * (Z.of_nat (length l) - 1)) as H.
  { induction l as [|x l IH]; [done|]. cbn [upper_pairs]. rewrite length_app, length_fmap. cbn [length]. lia. }
  rewrite <-H. rewrite Z.mul_comm. by rewrite Z.div_mul.
Qed.

Lemma elem_of_upper_pairs (l : list Z) p :
  NoDup l → (p ∈ upper_pairs l ↔ p.1 < p.2 ∧ p.1 ∈ l ∧ p.2 ∈ l).
Proof.
  induction l as [|x l IH]; cbn.
  { intros _. split; [by intros ?%elem_of_nil|]. by intros (_ & ?%elem_of_nil & _). }
  intros [Hx Hnd]%NoDup_cons. rewrite elem_of_app, IH by done. rewrite list_elem_of_fmap. destruct p as [a b]. cbn.
  split.
  - intros [(y & [= -> ->] & Hy)|(Hlt & Ha & Hb)]; [|set_solver].
    assert (x ≠ y) by (intros ->; done). rewrite !elem_of_cons.
    destruct (Z.min_spec x y) as [[? ->]|[? ->]], (Z.max_spec x y) as [[? ->]|[? ->]]; (lia || auto).
    split_and!; auto; lia.
  - intros (Hlt & [->|Ha]%elem_of_cons & [->|Hb]%elem_of_cons).
    + lia.
    + left. exists b. split; [|done]. f_equal; lia.
    + left. exists a. split; [|done]. f_equal; lia.
    + right. auto.
Qed.

Lemma NoDup_upper_pairs (l : list Z) : NoDup l → NoDup (upper_pairs l).
Proof.
  induction l as [|x l IH]; cbn; [by intros; apply NoDup_nil_2|]. intros [Hx Hnd]%NoDup_cons.
  apply NoDup_app. split_and!; [| |by apply IH].
  - apply NoDup_fmap_2_strong; [|done]. intros y z Hy Hz [= H1 H2].
    assert (x ≠ y) by (by intros ->). assert (x ≠ z) by (by intros ->). lia.
  - intros p Hp [_ [Ha Hb]]%elem_of_upper_pairs; [|done].
    apply list_elem_of_fmap in Hp as (y & -> & Hy). cbn in *.
    destruct (Z.min_spec x y) as [[? Hm]|[? Hm]], (Z.max_spec x y) as [[? Hm']|[? Hm']]; rewrite ?Hm, ?Hm' in *;
      (done || lia).
Qed.

(** *** The scan *)

Lemma check_fixture_ok T f u : check_fixture T f = Ok u ↔ proper_fixture T f.
Proof.
  destruct u. unfold check_fixture, proper_fixture, throw_when, CORE_SNAPSHOT_EXPECTED_EVENTS.
  do 2 case_bool_decide; cbn [negb orb]; [|naive_solver..].
  destruct (Z.eqb_spec (fx_teamH f) (fx_teamA f)); [naive_solver|].
  destruct (fx_event f) as [e|]; [|naive_solver].
  destruct (Z.ltb_spec e 1), (Z.ltb_spec 38 e); cbn; (split; [intros [=]|intros (_ & _ & _ & He)]);
    try (split_and!; auto; intros ? [= <-]; lia); try (specialize (He e eq_refl); lia); done.
Qed.

Lemma scan_fixtures_ok T fs ap pr r :
  scan_fixtures T fs ap pr = Ok r ↔
  Forall (proper_fixture T) fs ∧
  r = (fold_left (λ a f, count_team (fx_teamA f) (count_team (fx_teamH f) a)) fs ap,
       fold_left note_pairing fs pr).
Proof.
  revert ap pr. induction fs as [|f fs IH]; intros ap pr; cbn.
  - split; [intros [= <-]; auto|]. by intros [_ ->].
  - rewrite Forall_cons. destruct (check_fixture T f) as [u|c] eqn:Hc; cbn.
    + rewrite IH. apply check_fixture_ok in Hc. naive_solver.
    + split; [done|]. intros [[Hp _] _]. apply (check_fixture_ok T f ()) in Hp. by rewrite Hp in Hc.
Qed.

(** *** What the pairings count *)

Definition pairing_of (l u : Z) (fs : list Fixture) : Z * Z := (meetings l u fs, meetings u l fs).

Record pairings_inv (T : list Z) (fs : list Fixture) (pr : list (Z * Z * (Z * Z))) : Prop := {
  pi_nodup : NoDup (map_keys pr);
  pi_pairs : ∀ p, p ∈ map_keys pr → p ∈ upper_pairs T;
  pi_count : ∀ l u, l < u → nullish (map_get (l, u) pr) (0, 0) = pairing_of l u fs;
  pi_known : ∀ l u, l < u → 0 < meetings l u fs + meetings u l fs → (l, u) ∈ map_keys pr;
}.

Lemma note_pairing_inv T fs pr f :
  NoDup T → proper_fixture T f → pairings_inv T fs pr → pairings_inv T (fs ++ [f]) (note_pairing pr f).
Proof.
  intros HT (Hh & Ha & Hne & _) [Hnd Hpairs Hcount Hknown]. unfold note_pairing.
  set (lo := Z.min _ _). set (up := Z.max _ _).
  assert (lo < up) as Hlt by lia.
  rewrite (Hcount lo up Hlt). constructor.
  - by apply map_keys_set_NoDup.
  - intros p [->|Hp]%elem_of_map_keys_set; [|by apply Hpairs]. apply elem_of_upper_pairs; [done|]. cbn.
    destruct (Z.min_spec (fx_teamH f) (fx_teamA f)) as [[? Hm]|[? Hm]],
      (Z.max_spec (fx_teamH f) (fx_teamA f)) as [[? Hx]|[? Hx]]; unfold lo, up; rewrite Hm, Hx; (done || lia || split_and!; (done || lia)).
  - intros l u Hlu. rewrite map_get_set. unfold pairing_of. rewrite !meetings_snoc.
    case_decide as Hd.
    + injection Hd as -> ->. cbn [nullish fst snd]. destruct (Z.eqb_spec (fx_teamH f) lo).
      * rewrite bool_decide_true by lia. rewrite bool_decide_false by lia. cbn. f_equal; lia.
      * rewrite bool_decide_false by lia. rewrite bool_decide_true by lia. cbn. f_equal; lia.
    + rewrite Hcount by done. unfold pairing_of.
      rewrite !bool_decide_false; [f_equal; lia| |]; intros [<- <-]; apply Hd; unfold lo, up; f_equal; lia.
  - intros l u Hlu. rewrite !meetings_snoc, elem_of_map_keys_set. intros Hm.
    destruct (decide ((l, u) = (lo, up))) as [|Hd]; [by left|]. right. apply Hknown; [done|].
    rewrite !bool_decide_false in Hm; [lia| |]; intros [<- <-]; apply Hd; unfold lo, up; f_equal; lia.
Qed.

Lemma fold_pairings T fs :
  NoDup T → Forall (proper_fixture T) fs → pairings_inv T fs (fold_left note_pairing fs []).
Proof.
  intros HT. induction fs as [|f fs IH] using rev_ind.
  - intros _. constructor; cbn; [constructor|by intros ? ?%elem_of_nil|done|intros; lia].
  - rewrite Forall_app. intros [Hfs Hf]. rewrite fold_left_app. cbn. apply note_pairing_inv; [done| |auto].
    by inversion Hf.
Qed.

(** *** What the appearances count *)

Definition appearances_of (id : Z) (fs : list Fixture) : Z :=
  sum_by (λ f, (if bool_decide (fx_teamH f = id) then 1 else 0) +
               (if bool_decide (fx_teamA f = id) then 1 else 0)) fs.

Lemma count_team_get id k m :
  nullish (map_get id (count_team k m)) 0 =
  nullish (map_get id m) 0 + (if bool_decide (k = id) then 1 else 0).
Proof.
  unfold count_team. rewrite map_get_set. case_bool_decide as Hd.
  - rewrite decide_True by done. by subst.
  - rewrite decide_False by done. lia.
Qed.

Lemma count_team_keys k m : k ∈ map_keys m → map_keys (count_team k m) = map_keys m.
Proof. apply map_keys_set_present. Qed.

(** The counts start at zero, for the teams only. *)
Lemma fold_appearances T fs ap :
  Forall (proper_fixture T) fs → map_keys ap ≡ₚ T →
  let ap' := fold_left (λ a f, count_team (fx_teamA f) (count_team (fx_teamH f) a)) fs ap in
  map_keys ap' ≡ₚ T ∧
  ∀ id, nullish (map_get id ap') 0 = nullish (map_get id ap) 0 + appearances_of id fs.
Proof.
  intros Hfs. revert ap. induction Hfs as [|f fs (Hh & Ha & _) Hfs IH]; intros ap Hap; cbn [fold_left].
  { split; [done|]. intros id. unfold appearances_of, sum_by. cbn [foldr]. lia. }
  destruct (IH (count_team (fx_teamA f) (count_team (fx_teamH f) ap))) as [Hk Hc].
  { rewrite !count_team_keys; rewrite ?count_team_keys; rewrite ?Hap; done. }
  split; [done|]. intros id. rewrite Hc, !count_team_get. unfold appearances_of, sum_by. cbn [foldr]. lia.
Qed.

(** *** Counting by pairs of teams *)

(** A fixture between two teams of [T] is one meeting. *)
Lemma one_meeting T f :
  NoDup T → fx_teamH f ∈ T → fx_teamA f ∈ T →
  sum_by (λ h, sum_by (λ a, meetings h a [f]) T) T = 1.
Proof.
  intros HT Hh Ha.
  rewrite (sum_by_single _ T (fx_teamH f)) by
    (done || (intros h _ Hne; apply sum_by_zero; intros a _; cbn; rewrite bool_decide_false by naive_solver; done)).
  rewrite (sum_by_single _ T (fx_teamA f)) by
    (done || (intros a _ Hne; cbn; rewrite bool_decide_false by naive_solver; done)).
  cbn. by rewrite bool_decide_true.
Qed.

Lemma meetings_cons h a f fs : meetings h a (f :: fs) = meetings h a [f] + meetings h a fs.
Proof. unfold meetings, sum_by. cbn. lia. Qed.

(** The fixtures are the meetings of all pairs. *)
Lemma length_meetings T fs :
  NoDup T → Forall (proper_fixture T) fs →
  Z.of_nat (length fs) = sum_by (λ h, sum_by (λ a, meetings h a fs) T) T.
Proof.
  intros HT Hfs. induction Hfs as [|f fs (Hh & Ha & _) Hfs IH].
  - symmetry. apply sum_by_zero. intros h _. by apply sum_by_zero.
  - rewrite (sum_by_ext_in _ (λ h, sum_by (λ a, meetings h a [f]) T + sum_by (λ a, meetings h a fs) T)).
    2:{ intros h _. rewrite <-sum_by_plus. apply sum_by_ext_in. intros a _. apply meetings_cons. }
    rewrite sum_by_plus, (one_meeting T f) by done. cbn [length]. lia.
Qed.

(** A team appears in its meetings at home and away. *)
Lemma appearances_meetings T fs id :
  NoDup T → Forall (proper_fixture T) fs →
  appearances_of id fs = sum_by (λ a, meetings id a fs) T + sum_by (λ h, meetings h id fs) T.
Proof.
  intros HT Hfs. rewrite <-sum_by_plus. induction Hfs as [|f fs (Hh & Ha & _) Hfs IH].
  - symmetry. by apply sum_by_zero.
  - rewrite (sum_by_ext_in _ (λ t, (meetings id t [f] + meetings t id [f]) + (meetings id t fs + meetings t id fs))).
    2:{ intros t _. rewrite (meetings_cons id t), (meetings_cons t id). lia. }
    rewrite sum_by_plus, <-IH, sum_by_plus.
    rewrite (sum_by_ext_in (λ t, meetings id t [f])
      (λ t, if bool_decide (fx_teamA f = t) then (if bool_decide (fx_teamH f = id) then 1 else 0) else 0)).
    2:{ intros t _. cbn. repeat case_bool_decide; naive_solver. }
    rewrite (sum_by_ext_in (λ t, meetings t id [f])
      (λ t, if bool_decide (fx_teamH f = t) then (if bool_decide (fx_teamA f = id) then 1 else 0) else 0)).
    2:{ intros t _. cbn. repeat case_bool_decide; naive_solver. }
    rewrite (sum_by_single _ T (fx_teamA f)) by (done || (intros; by rewrite bool_decide_false)).
    rewrite (sum_by_single _ T (fx_teamH f)) by (done || (intros; by rewrite bool_decide_false)).
    rewrite (bool_decide_true (fx_teamA f = fx_teamA f)), (bool_decide_true (fx_teamH f = fx_teamH f)) by done. unfold appearances_of, sum_by. cbn [foldr]. lia.
Qed.

Lemma meetings_self T fs h : Forall (proper_fixture T) fs → meetings h h fs = 0.
Proof.
  rewrite Forall_forall. intros Hfs. apply sum_by_zero. intros f Hf.
  destruct (Hfs f Hf) as (_ & _ & Hne & _). rewrite bool_decide_false; [done|]. intros [Heq ?]. apply Hne. by rewrite Heq.
Qed.

(** One value for a team and another for the rest. *)
Lemma sum_by_except (T : list Z) (h c : Z) :
  NoDup T → h ∈ T → sum_by (λ a, if bool_decide (h = a) then 0 else c) T = c * (Z.of_nat (length T) - 1).
Proof.
  intros HT Hh.
  rewrite (sum_by_ext_in _ (λ a, c + (if bool_decide (h = a) then - c else 0))).
  2:{ intros a _. case_bool_decide; lia. }
  rewrite sum_by_plus, sum_by_const, (sum_by_single _ T h) by (done || (intros; by rewrite bool_decide_false)).
  rewrite bool_decide_true by done. lia.
Qed.

(** Every team of [T] receives every other team exactly once. *)
Definition double_round_robin (T : list Z) (fs : list Fixture) : Prop :=
  ∀ h a, h ∈ T → a ∈ T → h ≠ a → meetings h a fs = 1.

Lemma double_round_robin_row T fs h :
  NoDup T → h ∈ T → Forall (proper_fixture T) fs → double_round_robin T fs →
  sum_by (λ a, meetings h a fs) T = Z.of_nat (length T) - 1 ∧
  sum_by (λ a, meetings a h fs) T = Z.of_nat (length T) - 1.
Proof.
  intros HT Hh Hfs Hrr. rewrite <-(Z.mul_1_l (_ - 1)), <-(sum_by_except T h 1) by done.
  split; apply sum_by_ext_in; intros a Ha; case_bool_decide as Hd;
    (subst; by apply (meetings_self T)) || (apply Hrr; by auto).
Qed.

Lemma double_round_robin_length T fs :
  NoDup T → Forall (proper_fixture T) fs → double_round_robin T fs →
  Z.of_nat (length fs) = Z.of_nat (length T) * (Z.of_nat (length T) - 1).
Proof.
  intros HT Hfs Hrr. rewrite (length_meetings T) by done.
  rewrite (sum_by_ext_in _ (λ _, Z.of_nat (length T) - 1)), sum_by_const; [lia|].
  intros h Hh. by apply double_round_robin_row.
Qed.

(** If every pair is known and each counts one and one, it is a double round robin. *)
Lemma pairings_round_robin T fs pr :
  NoDup T → pairings_inv T fs pr → Forall (proper_fixture T) fs →
  (length (map_keys pr) = length (upper_pairs T) ∧ (∀ p, p ∈ map_values pr → p = (1, 1)) ↔
   double_round_robin T fs).
Proof.
  intros HT [Hnd Hpairs Hcount Hknown] Hfs. split.
  - intros [Hlen Hval].
    assert (map_keys pr ≡ₚ upper_pairs T) as Hperm.
    { apply submseteq_length_Permutation; [|lia]. apply NoDup_submseteq; [done|]. intros p. apply Hpairs. }
    assert (∀ l u, l ∈ T → u ∈ T → l < u → pairing_of l u fs = (1, 1)) as Hone.
    { intros l u Hl Hu Hlu. rewrite <-Hcount by done.
      assert ((l, u) ∈ map_keys pr) as [v Hv]%map_get_is_Some.
      { rewrite Hperm. by apply elem_of_upper_pairs. }
      rewrite Hv. apply Hval. apply map_get_elem_of in Hv. unfold map_values. apply list_elem_of_fmap.
      by exists (l, u, v). }
    intros h a Hh Ha Hne. destruct (Z.lt_total h a) as [Hlt|[?|Hlt]]; [|done|];
      [pose proof (Hone h a Hh Ha Hlt) as H1|pose proof (Hone a h Ha Hh Hlt) as H1]; by injection H1.
  - intros Hrr. assert (∀ l u, (l, u) ∈ upper_pairs T → pairing_of l u fs = (1, 1)) as Hone.
    { intros l u (Hlt & Hl & Hu)%elem_of_upper_pairs; [|done]. cbn in *. unfold pairing_of.
      by rewrite !Hrr by (done || lia). }
    split.
    + apply Permutation_length, NoDup_Permutation; [done|by apply NoDup_upper_pairs|].
      intros [l u]. split; [apply Hpairs|]. intros Hp. pose proof (Hone l u Hp) as H1. unfold pairing_of in H1. injection H1 as H1 H2.
      apply elem_of_upper_pairs in Hp as (Hlt & _); [|done]. apply Hknown; [done|]. lia.
    + intros v ([[l u] v'] & -> & Hin)%list_elem_of_fmap. cbn.
      assert ((l, u) ∈ map_keys pr) as Hk by (apply list_elem_of_fmap; by exists (l, u, v')).
      apply elem_of_map_get in Hin; [|done]. apply Hpairs in Hk. rewrite <-(Hone l u Hk).
      apply elem_of_upper_pairs in Hk as (Hlt & _); [|done]. by rewrite <-Hcount, Hin.
Qed.

(** The appearances follow from the meetings. *)
Lemma appearances_round_robin T fs id :
  NoDup T → id ∈ T → Forall (proper_fixture T) fs → double_round_robin T fs →
  appearances_of id fs = 2 * (Z.of_nat (length T) - 1).
Proof.
  intros HT Hid Hfs Hrr. rewrite (appearances_meetings T) by done.
  destruct (double_round_robin_row T fs id) as [-> ->]; [done..|]. lia.
Qed.

Lemma requireExactCount_ok {A} (l : list A) n u : requireExactCount l n = Ok u ↔ Z.of_nat (length l) = n.
Proof. destruct u. unfold requireExactCount, throw_when. destruct (Z.eqb_spec (Z.of_nat (length l)) n); naive_solver. Qed.

Lemma requireUniqueIds_ok ids u : requireUniqueIds ids = Ok u ↔ NoDup ids.
Proof.
  destruct u. unfold requireUniqueIds, throw_when. rewrite <-length_dedup_NoDup.
  destruct (Nat.eqb_spec (length (dedup ids)) (length ids)); naive_solver.
Qed.

Lemma bind_ok_unit {B} (x : result unit) (f : unit → result B) (b : B) :
  result_bind x f = Ok b ↔ x = Ok () ∧ f () = Ok b.
Proof. rewrite result_bind_ok. split; [intros ([] & ? & ?); auto|intros []; eauto]. Qed.

(** Every value of a map whose keys are known. *)
Lemma map_values_forall {K V} `{EqDecision K} (m : list (K * V)) (P : V → Prop) :
  NoDup (map_keys m) →
  (∀ v, v ∈ map_values m → P v) ↔ (∀ k v, k ∈ map_keys m → map_get k m = Some v → P v).
Proof.
  intros Hnd. split.
  - intros H k v _ Hk. apply H. unfold map_values. apply list_elem_of_fmap. exists (k, v). split; [done|].
    by apply map_get_elem_of.
  - intros H v ([k v'] & -> & Hin)%list_elem_of_fmap. apply (H k); [|by apply elem_of_map_get].
    apply list_elem_of_fmap. by exists (k, v').
Qed.

(** The initial counts of the teams. *)
Lemma initial_counts T :
  NoDup T →
  map_keys (zero_counts T) ≡ₚ T ∧
  ∀ id, nullish (map_get id (zero_counts T)) 0 = 0.
Proof.
  intros HT. unfold zero_counts. split.
  - apply NoDup_Permutation; [apply map_of_entries_NoDup|done|]. intros id.
    rewrite map_of_entries_keys, <-list_fmap_compose, list_elem_of_fmap. naive_solver.
  - intros id. destruct (map_get id _) as [v|] eqn:Hv; [|done]. cbn.
    rewrite map_of_entries_get_last in Hv. apply map_get_elem_of in Hv.
    apply list_elem_of_In, in_rev, list_elem_of_In, list_elem_of_fmap in Hv as (? & [= _ ->] & _). done.
Qed.

Section fixture_coverage.
Context (T : list Z) (HT : NoDup T) (Hn : length T = 20%nat).

Lemma round_robin_accepted fs pr :
  Forall (proper_fixture T) fs → pairings_inv T fs pr →
  (existsb (λ p : Z * Z, negb (p.1 =? 1) || negb (p.2 =? 1)) (map_values pr) = false ↔
   ∀ p, p ∈ map_values pr → p = (1, 1)).
Proof.
  intros _ _. rewrite existsb_false.
  split; intros H p Hp; specialize (H p Hp); destruct p as [a b]; cbn in *.
  - boolsolve. by subst.
  - by injection H as -> ->.
Qed.

Lemma upper_pairs_count : Z.of_nat (length T) * (Z.of_nat (length T) - 1) / 2 = Z.of_nat (length (upper_pairs T)).
Proof. by rewrite length_upper_pairs. Qed.

Lemma requireFixtureCoverage_ok fs :
  requireFixtureCoverage fs T = Ok () ↔
  NoDup (fx_id <$> fs) ∧ Forall (proper_fixture T) fs ∧ double_round_robin T fs.
Proof.
  unfold requireFixtureCoverage. rewrite !bind_ok_unit, requireExactCount_ok, requireUniqueIds_ok, result_bind_ok.
  setoid_rewrite scan_fixtures_ok. do 3 setoid_rewrite throw_when_ok.
  destruct (initial_counts T HT) as [Hk0 Hc0].
  assert (Forall (proper_fixture T) fs →
    pairings_inv T fs (fold_left note_pairing fs [])) as Hinv by (by apply fold_pairings).
  split.
  - intros (Hlen & Hids & r & [Hfs ->] & _ & Hpairs & Hones & _). cbn [fst snd] in *.
    split_and!; [done..|]. apply (pairings_round_robin T fs _ HT (Hinv Hfs) Hfs). split.
    + boolsolve. unfold map_keys. rewrite length_fmap. rewrite upper_pairs_count in Hpairs. lia.
    + by apply (round_robin_accepted fs _ Hfs (Hinv Hfs)).
  - intros (Hids & Hfs & Hrr). pose proof (double_round_robin_length T fs HT Hfs Hrr) as Hlen.
    destruct (fold_appearances T fs _ Hfs Hk0) as [Hk Hc].
    pose proof (proj2 (pairings_round_robin T fs _ HT (Hinv Hfs) Hfs) Hrr) as [Hpl Hpv].
    unfold CORE_SNAPSHOT_EXPECTED_FIXTURES. split_and!; [lia|done|].
    eexists. split; [by split|]. cbn [fst snd]. split_and!; [| | |done].
    + apply existsb_false. apply map_values_forall; [by rewrite Hk|].
      intros id v Hid Hv. specialize (Hc id). rewrite Hv, Hc0, (appearances_round_robin T) in Hc; [|try done..].
      * cbn in Hc. subst v. by rewrite Hn.
      * by rewrite <-Hk.
    + rewrite upper_pairs_count, <-Hpl. unfold map_keys. rewrite length_fmap. by rewrite Z.eqb_refl.
    + by apply (round_robin_accepted fs _ Hfs (Hinv Hfs)).
Qed.
(** C23: [requireFixtureCoverage] accepts a fixture list exactly if it is a complete double round robin: the
    fixture ids are distinct, every fixture is between two different teams in a gameweek of the season (or
    postponed), and every team receives every other team exactly once.  The counts of the code (380 fixtures,
    38 appearances of each team, 190 pairings) add nothing to that and miss nothing of it. *)
Theorem requireFixtureCoverage_spec fs :
  requireFixtureCoverage fs T = Ok () ↔
  NoDup (fx_id <$> fs) ∧ Forall (proper_fixture T) fs ∧ double_round_robin T fs.
Proof. apply requireFixtureCoverage_ok. Qed.
End fixture_coverage.

(** ** The players *)

Definition squad_of (id : Z) (players : list Player) : Z :=
  sum_by (λ p, if bool_decide (pl_teamId p = id) then 1 else 0) players.

Lemma count_players_ok T players pos m r :
  (∀ id, id ∈ T → id ∈ map_keys m) → count_players T players pos m = Ok r →
  Forall (λ p, pl_teamId p ∈ T ∧ 1 ≤ pl_type p ≤ 4) players ∧
  (∀ x, x ∈ r.1 ↔ x ∈ pl_type <$> players ∨ x ∈ pos) ∧ map_keys r.2 = map_keys m ∧
  ∀ id, nullish (map_get id r.2) 0 = nullish (map_get id m) 0 + squad_of id players.
Proof.
  revert pos m. induction players as [|p players IH]; intros pos m Hkeys; cbn [count_players].
  - intros [= <-]. split_and!; [done|set_solver|done|]. intros id. unfold squad_of, sum_by. cbn [foldr fst snd]. lia.
  - intros H. inv_ok. boolsolve. rename select (count_players _ _ _ _ = _) into Hrec.
    apply IH in Hrec as (Hall & Hpos & Hk & Hc).
    + split_and!.
      * constructor; [split; [done|lia]|done].
      * intros x. rewrite Hpos. rewrite fmap_cons. set_solver.
      * rewrite Hk. by apply count_team_keys, Hkeys.
      * intros id. rewrite Hc, count_team_get. unfold squad_of, sum_by. cbn [foldr]. lia.
    + intros id Hid. rewrite count_team_keys by (by apply Hkeys). by apply Hkeys.
Qed.

(** The players of a snapshot with the teams [T]. *)
Record complete_players (T : list Z) (players : list Player) : Prop := {
  cp_ids : NoDup (pl_id <$> players);
  cp_teams : ∀ p, p ∈ players → pl_teamId p ∈ T;
  cp_types : ∀ type, type ∈ pl_type <$> players ↔ 1 ≤ type ≤ 4;
  cp_squads : ∀ id, id ∈ T → CORE_SNAPSHOT_MIN_PLAYERS_PER_TEAM ≤ squad_of id players;
}.

(** Four values of four are all of them. *)
Lemma four_of_four (l : list Z) :
  (∀ x, x ∈ l → 1 ≤ x ≤ 4) → length (dedup l) = 4%nat → ∀ x, x ∈ l ↔ 1 ≤ x ≤ 4.
Proof.
  intros Hl Hlen x. split; [apply Hl|]. intros Hx.
  assert (dedup l ≡ₚ seqZ 1 4) as Hperm.
  { apply submseteq_length_Permutation; [|by rewrite Hlen]. apply NoDup_submseteq; [apply NoDup_dedup|].
    intros y Hy%elem_of_dedup%Hl. apply elem_of_seqZ. lia. }
  apply elem_of_dedup. rewrite Hperm. apply elem_of_seqZ. lia.
Qed.

Lemma requirePlayerCoverage_ok T players u :
  NoDup T → requirePlayerCoverage players T = Ok u → complete_players T players.
Proof.
  intros HT H. unfold requirePlayerCoverage in H. inv_ok. destruct (initial_counts T HT) as [Hk0 Hc0].
  rename select (requireUniqueIds _ = _) into Hids. apply requireUniqueIds_ok in Hids.
  rename select (list Z * list (Z * Z))%type into counted.
  rename select (count_players _ _ _ _ = _) into Hcount.
  apply count_players_ok in Hcount as (Hall & Hpos & Hk & Hc); [|intros id Hid; by rewrite Hk0].
  rename select (existsb _ _ = false) into Hmin. rewrite existsb_false in Hmin. boolsolve.
  rename select ((length _ =? 4)%nat = true) into Hfour. apply Nat.eqb_eq in Hfour.
  rewrite Forall_forall in Hall. constructor; [done| | |].
  - intros p Hp. by apply Hall.
  - intros type. rewrite <-(λ Hb, four_of_four counted.1 Hb Hfour type), Hpos; [set_solver|]. intros y.
    rewrite Hpos. intros [(p & -> & Hp)%list_elem_of_fmap|?%elem_of_nil]; [|done]. by apply Hall.
  - intros id Hid. specialize (Hc id). rewrite Hc0, Z.add_0_l in Hc. rewrite <-Hc.
    assert (id ∈ map_keys counted.2) as [v Hv]%map_get_is_Some by (by rewrite Hk, Hk0).
    rewrite Hv. cbn. assert (v ∈ map_values counted.2) as Hin%Hmin.
    { apply list_elem_of_fmap. exists (id, v). split; [done|]. by apply map_get_elem_of. }
    by boolsolve.
Qed.

(** ** The whole snapshot *)

(** [filterMap] keeps everything if it keeps as many. *)
Lemma transform_all_complete {A B} (f : A → option B) raws l :
  transform_all f raws = l → Z.of_nat (length l) = Z.of_nat (length raws) → mapM f raws = Some l.
Proof.
  intros <-. unfold transform_all. induction raws as [|raw raws IH]; cbn; [done|].
  assert (∀ r, length (omap f r) ≤ length r)%nat as Hle.
  { intros r. induction r as [|y r IHr]; cbn; [done|]. destruct (f y); cbn; lia. }
  destruct (f raw) as [b|]; cbn; intros Hlen.
  - rewrite IH by lia. done.
  - specialize (Hle raws). lia.
Qed.

Lemma requireCompleteEventRange_ok events u :
  NoDup (ev_id <$> events) → Z.of_nat (length events) = CORE_SNAPSHOT_EXPECTED_EVENTS →
  requireCompleteEventRange events = Ok u → ev_id <$> events ≡ₚ seqZ 1 CORE_SNAPSHOT_EXPECTED_EVENTS.
Proof.
  intros Hnd Hlen H. unfold requireCompleteEventRange in H. inv_ok.
  rename select (existsb _ _ = false) into Hin. rewrite existsb_false in Hin. symmetry.
  apply submseteq_length_Permutation.
  - apply NoDup_submseteq; [apply NoDup_seqZ|]. intros id Hid%Hin. by boolsolve.
  - rewrite length_fmap, length_seqZ. unfold CORE_SNAPSHOT_EXPECTED_EVENTS in *. lia.
Qed.

(** The phases are ranges of gameweeks, and one is the season. *)
Record complete_phases (phases : list Phase) : Prop := {
  cp_phase_ids : NoDup (ph_id <$> phases);
  cp_ranges : ∀ p, p ∈ phases → 1 ≤ ph_startEvent p ≤ ph_stopEvent p ∧ ph_stopEvent p ≤ CORE_SNAPSHOT_EXPECTED_EVENTS;
  cp_season : ∃ p, p ∈ phases ∧ ph_startEvent p = 1 ∧ ph_stopEvent p = CORE_SNAPSHOT_EXPECTED_EVENTS;
}.

Lemma requirePhaseCoverage_ok phases u : requirePhaseCoverage phases = Ok u → complete_phases phases.
Proof.
  intros H. unfold requirePhaseCoverage in H. inv_ok.
  rename select (requireUniqueIds _ = _) into Hids. apply requireUniqueIds_ok in Hids.
  rename select (existsb _ _ = false) into Hr. rewrite existsb_false in Hr. boolsolve.
  rename select (existsb _ _ = true) into Hs. apply existsb_exists in Hs. constructor; [done| |].
  - intros p Hp%Hr. boolsolve. lia.
  - destruct Hs as (p & Hp%list_elem_of_In & Hs). exists p. by boolsolve.
Qed.

(** The rules fit together, and their sizes are positive. *)
Record consistent_rules (r : SelectionRules) : Prop := {
  cr_positive : 0 < sr_squadSize r ∧ 0 < sr_startingSize r ∧ 0 < sr_budget r ∧ 0 < sr_maxPlayersPerTeam r ∧
    0 < sr_currencyMultiplier r;
  cr_sizes : sr_startingSize r ≤ sr_squadSize r ∧ sr_maxPlayersPerTeam r ≤ sr_squadSize r;
  cr_position_ids : NoDup (sp_id <$> sr_positions r);
  cr_squad : sum_by sp_squadSelect (sr_positions r) = sr_squadSize r;
  cr_starting : sum_by sp_minPlay (sr_positions r) ≤ sr_startingSize r ≤ sum_by sp_maxPlay (sr_positions r);
  cr_positions : ∀ p, p ∈ sr_positions r → 0 < sp_minPlay p ≤ sp_maxPlay p;
  cr_chip_ids : NoDup (sc_id <$> sr_chips r);
}.

Lemma asPositiveInteger_pos v z : asPositiveInteger v = Some z → 0 < z.
Proof.
  unfold asPositiveInteger. intros (n & _ & H)%bind_Some. destruct (_ && _) eqn:Hc; [|done].
  injection H as <-. by boolsolve.
Qed.

Lemma rule_position_range fields p : rule_position fields = Some p → 0 < sp_minPlay p ≤ sp_maxPlay p.
Proof.
  unfold rule_position. intros H. repeat (apply bind_Some in H as (? & ?%asPositiveInteger_pos & H)).
  case_match; [done|]. injection H as <-. cbn. boolsolve. lia.
Qed.

Lemma normalizeSelectionRules_consistent bootstrap r :
  normalizeSelectionRules bootstrap = Some r → consistent_rules r.
Proof.
  unfold normalizeSelectionRules. intros H.
  repeat (apply bind_Some in H as (? & ?%asPositiveInteger_pos & H)).
  destruct (_ && _) eqn:Hc; [|done]. injection H as <-. unfold rules_consistent in Hc. cbn in Hc. boolsolve.
  repeat match goal with H : (_ =? _)%nat = true |- _ => apply Nat.eqb_eq in H end.
  constructor; cbn; try lia.
  - apply length_dedup_NoDup. by rewrite length_fmap.
  - intros p (fields & _ & Hp)%list_elem_of_omap. by apply rule_position_range in Hp.
  - apply length_dedup_NoDup. by rewrite length_fmap.
Qed.

(** What an accepted snapshot is: nothing of the payload is left out, and it is a season. *)
Record complete_snapshot (date_parse : jsstr → option Z) (bootstrap : Bootstrap) (rawFixtures : list RawFixture)
    (s : CoreSnapshot) : Prop := {
  cs_all_events : mapM transformEvent (bs_events bootstrap) = Some (cs_events s);
  cs_all_teams : mapM transformTeam (bs_teams bootstrap) = Some (cs_teams s);
  cs_all_players : mapM transformPlayer (bs_elements bootstrap) = Some (cs_players s);
  cs_all_phases : mapM transformPhase (bs_phases bootstrap) = Some (cs_phases s);
  cs_all_fixtures : mapM (transformFixture date_parse) rawFixtures = Some (cs_fixtures s);
  cs_gameweeks : ev_id <$> cs_events s ≡ₚ seqZ 1 CORE_SNAPSHOT_EXPECTED_EVENTS;
  cs_team_ids : NoDup (tm_id <$> cs_teams s) ∧ Z.of_nat (length (cs_teams s)) = CORE_SNAPSHOT_EXPECTED_TEAMS;
  cs_squads : complete_players (tm_id <$> cs_teams s) (cs_players s);
  cs_ranges : complete_phases (cs_phases s);
  cs_fixture_ids : NoDup (fx_id <$> cs_fixtures s);
  cs_proper : Forall (proper_fixture (tm_id <$> cs_teams s)) (cs_fixtures s);
  cs_round_robin : double_round_robin (tm_id <$> cs_teams s) (cs_fixtures s);
  cs_seasons : deriveFplSeasonFromEvents date_parse (bs_events bootstrap) = Some (cs_season s) ∧
               deriveFplSeasonFromFixtures date_parse rawFixtures = Some (cs_season s);
  cs_rules : match cs_selectionRules s with
             | Some rules => consistent_rules rules
             | None => hasRulePayload bootstrap = false
             end;
}.

Lemma prepareCoreSnapshot_is_complete date_parse bootstrap rawFixtures s
  (H : prepareCoreSnapshot date_parse bootstrap rawFixtures = Ok s) :
  complete_snapshot date_parse bootstrap rawFixtures s.
Proof.
  unfold prepareCoreSnapshot, transformEvents, transformTeams, transformPlayersStrict, transformPhases,
    transformFixtures in H.
  inv_ok.
  repeat match goal with
  | H : requireExactCount _ _ = Ok _ |- _ => apply requireExactCount_ok in H
  | H : requireUniqueIds _ = Ok _ |- _ => apply requireUniqueIds_ok in H
  end.
  rename select (NoDup (tm_id <$> _)) into Hteams. rewrite dedup_id in * by done.
  rename select (requirePlayerCoverage _ _ = Ok _) into Hplayers.
  apply requirePlayerCoverage_ok in Hplayers; [|done].
  rename select (requirePhaseCoverage _ = Ok _) into Hphases. apply requirePhaseCoverage_ok in Hphases.
  rename select (requireFixtureCoverage _ _ = _) into Hfix.
  match type of Hfix with _ = Ok ?u => destruct u end.
  apply requireFixtureCoverage_ok in Hfix as (Hids & Hproper & Hrr); [|done|].
  2:{ rewrite length_fmap. unfold CORE_SNAPSHOT_EXPECTED_TEAMS in *. lia. }
  destruct (deriveFplSeasonFromEvents _ _) as [eventSeason|] eqn:He; [|done].
  destruct (deriveFplSeasonFromFixtures _ _) as [fixtureSeason|] eqn:Hf; [|done]. inv_ok. boolsolve. subst.
  constructor; cbn [cs_season cs_events cs_teams cs_players cs_phases cs_fixtures cs_selectionRules];
    try done; try (by apply transform_all_complete); try (split; [done|congruence]).
  - by destruct (mapM transformPlayer _); simplify_eq/=.
  - eapply requireCompleteEventRange_ok; [done|congruence|done].
  - destruct (normalizeSelectionRules bootstrap) eqn:Hrules; [by apply normalizeSelectionRules_consistent in Hrules|].
    by boolsolve.
Qed.

(** C6: An accepted core snapshot is complete and consistent: it has every entity of the payload (a single
    invalid entity rejects it, although the transformers of lists leave invalid ones out), exactly the gameweeks
    1 to 38, twenty different teams with at least eleven players each and all four positions, phases that are
    ranges of gameweeks, a complete double round robin, the season that the first deadline and the first kick-off
    agree on, and selection rules that fit together (none only if the payload has none). *)
Theorem prepareCoreSnapshot_complete date_parse bootstrap rawFixtures s
  (H : prepareCoreSnapshot date_parse bootstrap rawFixtures = Ok s) :
  complete_snapshot date_parse bootstrap rawFixtures s.
Proof. by apply prepareCoreSnapshot_is_complete. Qed.

(** ** A season *)

(** A host in UTC that knows the standard format only. *)
Definition sample_date : jsstr → option Z := date_parse (λ _, 0) (λ _, None).

Definition sample_event (id : Z) : RawEvent := {|
  rv_id := of_int id; rv_name := js "Gameweek"; rv_deadline_time := Some (js "2025-08-15T17:30:00Z");
  rv_average_entry_score := None; rv_finished := false; rv_data_checked := false;
  rv_highest_scoring_entry := None; rv_deadline_time_epoch := None; rv_deadline_time_game_offset := None;
  rv_highest_score := None; rv_is_previous := false; rv_is_current := false; rv_is_next := false;
  rv_cup_leagues_created := false; rv_h2h_ko_matches_created := false; rv_chip_plays := [];
  rv_most_selected := None; rv_most_transferred_in := None; rv_top_element := None;
  rv_top_element_info := JNull; rv_transfers_made := None; rv_most_captained := None;
  rv_most_vice_captained := None |}.

Definition sample_team (id : Z) : RawTeam :=
  let n := of_int id in let z := of_int 0 in
  mkRawTeam n (js "Club") (js "CLB") n z None z z z z None None false z n n n n n n n.

(** Eleven players of each team, in all positions. *)
Definition sample_element (id : Z) : RawElement :=
  let n := of_int id in let z := of_int 0 in
  mkRawElement n n (of_int (id mod 4 + 1)) (of_int (id mod 20 + 1)) (of_int 50) z (js "A") (js "B") (js "C")
    None None None z z z z z z z z z z z z z z z z z z z z z z.

Definition sample_fixture (h a : Z) : RawFixture :=
  let id := of_int (100 * h + a) in let z := of_int 0 in
  mkRawFixture id (Some (of_int h)) false false id (Some (js "2025-08-15T19:00:00Z")) z false (Some false)
    (of_int a) None (of_int h) None [] None None z.

Definition sample_fixtures : list RawFixture :=
  let teams := seqZ 1 20 in
  h ← teams; a ← teams; if bool_decide (h = a) then [] else [sample_fixture h a].

Definition sample_position (id squadSelect minPlay maxPlay : Z) : json :=
  JObject [(js "id", JNumber (of_int id)); (js "squad_select", JNumber (of_int squadSelect));
           (js "squad_min_play", JNumber (of_int minPlay)); (js "squad_max_play", JNumber (of_int maxPlay))].

Definition sample_bootstrap : Bootstrap := {|
  bs_events := sample_event <$> seqZ 1 38;
  bs_teams := sample_team <$> seqZ 1 20;
  bs_elements := sample_element <$> seqZ 1 220;
  bs_game_settings := JObject [(js "squad_squadsize", JNumber (of_int 15)); (js "squad_squadplay", JNumber (of_int 11));
    (js "squad_total_spend", JNumber (of_int 1000)); (js "squad_team_limit", JNumber (of_int 3));
    (js "ui_currency_multiplier", JNumber (of_int 10))];
  bs_phases := [mkRawPhase (of_int 1) (js "Overall") (of_int 1) (of_int 38) None];
  bs_element_types := [sample_position 1 2 1 1; sample_position 2 5 3 5; sample_position 3 5 2 5; sample_position 4 3 1 3];
  bs_chips := [mkRawChip (of_int 1) (js "wildcard") (of_int 1) (of_int 2) (of_int 19) (js "transfer")] |}.

Lemma sample_accepted : is_ok (prepareCoreSnapshot sample_date sample_bootstrap sample_fixtures) = true.
Proof. vm_compute. reflexivity. Qed.

Lemma is_ok_inv {A} (x : result A) : is_ok x = true → ∃ a, x = Ok a.
Proof. destruct x; [by eexists|done]. Qed.

Lemma prepareCoreSnapshot_complete_witness :
  ∃ s, prepareCoreSnapshot sample_date sample_bootstrap sample_fixtures = Ok s ∧
       complete_snapshot sample_date sample_bootstrap sample_fixtures s.
Proof.
  destruct (is_ok_inv _ sample_accepted) as [s Hs]. exists s. split; [exact Hs|].
  exact (prepareCoreSnapshot_complete sample_date sample_bootstrap sample_fixtures s Hs).
Defined.

(** A fixture less, and the snapshot is rejected. *)
Example sample_incomplete : prepareCoreSnapshot sample_date sample_bootstrap (tail sample_fixtures) = Throw reject.
Proof. vm_compute. reflexivity. Qed.

Lemma sample_teams_distinct : NoDup (seqZ 1 20).
Proof. apply NoDup_seqZ. Qed.

Lemma requireFixtureCoverage_spec_witness :
  let fixtures := transform_all (transformFixture sample_date) sample_fixtures in
  NoDup (seqZ 1 20) ∧ requireFixtureCoverage fixtures (seqZ 1 20) = Ok () ∧ double_round_robin (seqZ 1 20) fixtures.
Proof.
  intros fixtures.
  assert (requireFixtureCoverage fixtures (seqZ 1 20) = Ok ()) as Hok by (vm_compute; reflexivity).
  split; [exact sample_teams_distinct|]. split; [exact Hok|].
  apply (requireFixtureCoverage_spec (seqZ 1 20) sample_teams_distinct eq_refl fixtures). exact Hok.
Defined.
