(* ===== verification/Postgres.v ===== *)
(** * Tables and transactions of PostgreSQL

    What the repositories use of the database.  A table is the list of its rows.  The database clock
    counts microseconds; a JS [Date] holds whole milliseconds.  A constraint that fails, or a throw
    of the code, rolls a transaction back. *)

From S2P Require Import Prelude JsCollections JsNumber.

(** ** Time *)

(** A database time read as a JS [Date].
    src: src/repositories/scheduler-obligations.ts:51-56 dateValue *)
Definition js_date (time : Z) : Z := time / 1000 * 1000.

(** The last instant a JS [Date] can hold, in milliseconds. *)
Definition MAX_DATE_MS : Z := 8640000000000000.

(** ** Columns *)

(** [btrim(value) <> '']. *)
Definition btrim_nonempty (s : jsstr) : bool := existsb (λ c, negb (c =? 32)) s.

(** The ranges of [integer] and [smallint]. *)
Definition is_int4 (n : Z) : bool := (- 2 ^ 31 <=? n) && (n <? 2 ^ 31).
Definition is_int2 (n : Z) : bool := (- 2 ^ 15 <=? n) && (n <? 2 ^ 15).

(** A count: an [integer] that a CHECK keeps from being negative. *)
Definition is_count (n : Z) : bool := (0 <=? n) && is_int4 n.

(** A constraint on a nullable column holds of NULL. *)
Definition null_or {A : Type} (p : A → bool) (x : option A) : bool :=
  match x with Some a => p a | None => true end.

(** ** Statements *)

(** [UPDATE ... WHERE where_]: the new table and the rows written. *)
Definition update_where {A : Type} (where_ : A → bool) (set : A → A) (table : list A)
    : list A * list A :=
  ((λ o, if where_ o then set o else o) <$> table, set <$> filter (λ o, where_ o) table).

(** The same under the constraints [ok] of the rows. *)
Definition update_checked {A : Type} (ok : A → bool) (where_ : A → bool) (set : A → A)
    (table : list A) : result (list A * list A) :=
  let '(table, updated) := update_where where_ set table in
  if forallb ok updated then Ok (table, updated) else Throw "CONSTRAINT".

(** [INSERT ... ON CONFLICT (key) DO UPDATE SET ... RETURNING]: [merge old row] is the row of the
    [SET] list.  A CHECK holds of the row proposed and of the row written; no other row may
    [conflict] with a written one under another unique constraint; the foreign keys hold at the end
    of the statement; and a statement does not write a row twice. *)
Section upsert_statements.
Context {A K : Type} `{EqDecision K} (key : A → K) (merge : A → A → A).
Context (conflict : A → A → bool) (checks foreign_keys : A → bool) (code : string).

Definition written_row (table : list A) (row : A) : A :=
  match find_by key (key row) table with Some old => merge old row | None => row end.

Fixpoint upsert_rows (rows table : list A) : result (list A * list A) :=
  match rows with
  | [] => Ok (table, [])
  | row :: rows' =>
      let written := written_row table row in
      reject_if negb (checks row && checks written) ||
                existsb (λ x, negb (bool_decide (key x = key row)) && conflict x written) table
        with_code code ;;
      let* rest := upsert_rows rows' (upsert key merge row table) in
      Ok (rest.1, written :: rest.2)
  end.

Definition upsert_returning (rows table : list A) : result (list A * list A) :=
  reject_if negb (bool_decide (NoDup (key <$> rows))) with_code code ;;
  let* result := upsert_rows rows table in
  reject_if negb (forallb foreign_keys result.2) with_code code ;;
  Ok result.
End upsert_statements.

(** A transaction: its new state if it commits, the old one if it throws. *)
Definition transaction {S A : Type} (body : S → result (S * A)) (s : S) : S * result A :=
  match body s with
  | Ok (s', a) => (s', Ok a)
  | Throw e => (s, Throw e)
  end.

(** ** Lemmas *)

Section updates.
Context {A : Type}.
Implicit Types (table : list A).

Lemma elem_of_update (where_ : A → bool) (set : A → A) table o' :
  o' ∈ (update_where where_ set table).1 ↔
  ∃ o, o ∈ table ∧ o' = if where_ o then set o else o.
Proof. cbn. rewrite list_elem_of_fmap. naive_solver. Qed.

Lemma update_checked_ok (ok where_ : A → bool) (set : A → A) table p :
  update_checked ok where_ set table = Ok p ↔
  p = update_where where_ set table ∧ forallb ok p.2 = true.
Proof.
  unfold update_checked. cbn. destruct (forallb ok _) eqn:E; split.
  - by intros [= <-].
  - by intros [-> _].
  - done.
  - intros [-> H]. cbn in H. congruence.
Qed.

(** Updates that keep a column keep it for the table. *)
Lemma update_keeps {B} (f : A → B) (where_ : A → bool) (set : A → A) table :
  (∀ o, where_ o = true → f (set o) = f o) → f <$> (update_where where_ set table).1 = f <$> table.
Proof.
  intros Hf. cbn. rewrite <-list_fmap_compose. apply list_fmap_ext. intros i o _. cbn.
  destruct (where_ o) eqn:E; [by apply Hf|done].
Qed.

(** Nothing to update. *)
Lemma update_none (where_ : A → bool) (set : A → A) table :
  (∀ o, o ∈ table → where_ o = false) → update_where where_ set table = (table, []).
Proof.
  intros Hn. unfold update_where. f_equal.
  - rewrite <-(list_fmap_id table) at 2. apply list_fmap_ext. intros i o Ho. cbn.
    by rewrite Hn by (by eapply list_elem_of_lookup_2).
  - rewrite filter_none; [done|]. intros o Ho. rewrite Hn by done. intros [].
Qed.

(** An update of the one row with a key. *)
Lemma update_key {K} `{EqDecision K} (key : A → K) k (set : A → A) table o :
  NoDup (key <$> table) → find_by key k table = Some o →
  (update_where (λ r, bool_decide (key r = k)) set table).2 = [set o].
Proof.
  unfold update_where. cbn [snd]. induction table as [|r t IH]; [done|]. cbn [fmap list_fmap].
  rewrite NoDup_cons. intros [Hr Hnd]. cbn [find_by]. destruct (decide (key r = k)) as [He|He].
  - intros [= ->]. rewrite filter_cons_True by (by apply bool_decide_pack).
    rewrite filter_none; [done|]. intros x Hx Hk. apply bool_decide_unpack in Hk.
    apply Hr. rewrite He, <-Hk. by apply list_elem_of_fmap_2.
  - intros Hf. rewrite filter_cons_False; [by apply IH|].
    intros H%bool_decide_unpack. done.
Qed.

(** Reading a row after an update. *)
Lemma find_by_update {K} `{EqDecision K} (key : A → K) k (where_ : A → bool) (set : A → A) table :
  (∀ o, key (set o) = key o) →
  find_by key k (update_where where_ set table).1 =
  (λ o, if where_ o then set o else o) <$> find_by key k table.
Proof.
  intros Hkey. induction table as [|o table IH]; [done|]. cbn.
  assert (key (if where_ o then set o else o) = key o) as -> by (by destruct (where_ o)).
  by destruct (decide (key o = k)).
Qed.

(** An update of the last row only. *)
Lemma update_last (where_ : A → bool) (set : A → A) table o :
  (∀ x, x ∈ table → where_ x = false) → where_ o = true →
  update_where where_ set (table ++ [o]) = (table ++ [set o], [set o]).
Proof.
  intros Hn Ho. pose proof (update_none where_ set table Hn) as H. unfold update_where in *.
  injection H as H1 H2. f_equal.
  - rewrite fmap_app, H1. cbn. by rewrite Ho.
  - rewrite filter_app, fmap_app, H2. rewrite filter_cons_True by (by rewrite Ho). done.
Qed.
End updates.

Lemma transaction_ok {S A} (body : S → result (S * A)) (s s' : S) (a : A) :
  transaction body s = (s', Ok a) ↔ body s = Ok (s', a).
Proof. unfold transaction. destruct (body s) as [[]|]; split; congruence || (intros [[=] ?]; congruence). Qed.

Lemma transaction_throw {S A} (body : S → result (S * A)) (s s' : S) e :
  transaction body s = (s', Throw e) ↔ body s = Throw e ∧ s' = s.
Proof.
  unfold transaction. destruct (body s) as [[]|]; split; try (intros [=]; by subst); intros [[=] ->]; by subst.
Qed.

(** A transaction that throws leaves the state alone. *)
Lemma transaction_cases {S A} (body : S → result (S * A)) (s : S) (P : S → Prop) :
  P s → (∀ s' a, body s = Ok (s', a) → P s') → P (transaction body s).1.
Proof. intros Hs Hb. unfold transaction. destruct (body s) as [[s' a]|e] eqn:E; [by eapply Hb|done]. Qed.

Section upsert_lemmas.
Context {A K : Type} `{EqDecision K} (key : A → K) (merge : A → A → A).
Context (merge_key : ∀ old row, key old = key row → key (merge old row) = key row).
Implicit Types (t rows : list A) (r : A) (k : K).

Lemma written_row_key t r : key (written_row key merge t r) = key r.
Proof.
  unfold written_row. destruct (find_by key (key r) t) as [old|] eqn:E; [|done].
  apply find_by_Some in E as [_ E]. by apply merge_key.
Qed.

(** Reading after one upsert, and after a batch. *)
Lemma find_by_upsert_one k r t :
  find_by key k (upsert key merge r t) =
  if decide (key r = k) then Some (written_row key merge t r) else find_by key k t.
Proof.
  unfold written_row. induction t as [|x t IH]; cbn; [done|].
  destruct (decide (key x = key r)) as [Hk|Hk]; cbn.
  - rewrite merge_key by done. rewrite Hk. by destruct (decide (key r = k)).
  - rewrite IH. destruct (decide (key r = k)) as [<-|Hr]; [|done].
    by rewrite decide_False.
Qed.

Lemma written_row_upsert r x t :
  key x ≠ key r → written_row key merge (upsert key merge r t) x = written_row key merge t x.
Proof. intros Hne. unfold written_row. by rewrite find_by_upsert_one, decide_False by done. Qed.

Lemma find_by_upsert_batch k rows t :
  NoDup (key <$> rows) →
  find_by key k (upsert_batch key merge rows t) =
  match find_by key k rows with
  | Some r => Some (written_row key merge t r)
  | None => find_by key k t
  end.
Proof.
  unfold upsert_batch. revert t. induction rows as [|r rows IH]; intros t Hnd; [done|].
  cbn in Hnd |- *. apply NoDup_cons in Hnd as [Hr Hnd]. rewrite IH by done.
  destruct (decide (key r = k)) as [<-|Hk].
  - rewrite (proj2 (find_by_None key (key r) rows) Hr), find_by_upsert_one. by rewrite decide_True.
  - destruct (find_by key k rows) as [x|] eqn:E.
    + apply find_by_Some in E as [_ <-]. by rewrite written_row_upsert.
    + rewrite find_by_upsert_one. by rewrite decide_False.
Qed.

Lemma upsert_one_keys r t :
  key <$> upsert key merge r t = if decide (key r ∈ key <$> t) then key <$> t else (key <$> t) ++ [key r].
Proof.
  induction t as [|x t IH]; cbn; [done|]. destruct (decide (key x = key r)) as [Hk|Hk]; cbn.
  - rewrite merge_key by done. rewrite Hk. by rewrite decide_True by set_solver.
  - rewrite IH. case_decide as H1; case_decide as H2; set_solver.
Qed.

Lemma upsert_batch_NoDup rows t : NoDup (key <$> t) → NoDup (key <$> upsert_batch key merge rows t).
Proof.
  unfold upsert_batch. revert t. induction rows as [|r rows IH]; intros t Hnd; [done|].
  cbn. apply IH. rewrite upsert_one_keys. case_decide; [done|].
  apply NoDup_app. split; [done|]. split; [set_solver|apply NoDup_singleton].
Qed.

(** What a statement that succeeds did. *)
Lemma upsert_rows_ok conflict checks code rows t t' ws :
  NoDup (key <$> rows) →
  upsert_rows key merge conflict checks code rows t = Ok (t', ws) →
  t' = upsert_batch key merge rows t ∧ ws = written_row key merge t <$> rows ∧ forallb checks ws = true.
Proof.
  unfold upsert_batch. revert t t' ws. induction rows as [|r rows IH]; intros t t' ws Hnd H; cbn in H.
  { by injection H as <- <-. }
  cbn in Hnd. apply NoDup_cons in Hnd as [Hr Hnd].
  apply throw_when_ok in H as [Hc H]. boolsolve.
  apply result_bind_ok in H as ([t1 ws1] & H & [= <- <-]). cbn [fst snd].
  apply IH in H as (-> & -> & Hall); [|done]. split; [done|].
  assert (written_row key merge (upsert key merge r t) <$> rows = written_row key merge t <$> rows) as Heq.
  { apply list_fmap_ext. intros i x Hx. apply written_row_upsert. intros Hk. apply Hr.
    rewrite <-Hk. apply list_elem_of_fmap_2. by eapply list_elem_of_lookup_2. }
  rewrite Heq in *. split; [done|]. cbn. apply andb_true_iff. by boolsolve.
Qed.

Lemma upsert_returning_ok conflict checks fks code rows t t' ws :
  upsert_returning key merge conflict checks fks code rows t = Ok (t', ws) →
  NoDup (key <$> rows) ∧ t' = upsert_batch key merge rows t ∧ ws = written_row key merge t <$> rows ∧
  forallb checks ws = true ∧ forallb fks ws = true.
Proof.
  intros H. apply throw_when_ok in H as [Hnd H]. apply negb_false_iff, bool_decide_eq_true in Hnd.
  apply result_bind_ok in H as ([t1 ws1] & H & H2). apply throw_when_ok in H2 as [Hf [= <- <-]].
  apply negb_false_iff in Hf. apply upsert_rows_ok in H as (-> & -> & Hall); done.
Qed.

(** The rows of a table after a batch. *)
Lemma elem_of_upsert_batch x rows t :
  NoDup (key <$> t) → NoDup (key <$> rows) → x ∈ upsert_batch key merge rows t →
  (∃ r, r ∈ rows ∧ x = written_row key merge t r) ∨ (x ∈ t ∧ key x ∉ key <$> rows).
Proof.
  intros Ht Hrows Hx. apply (find_by_elem key) in Hx; [|by apply upsert_batch_NoDup].
  rewrite find_by_upsert_batch in Hx by done. destruct (find_by key (key x) rows) as [r|] eqn:E.
  - apply find_by_Some in E as [Hr _]. left. exists r. split; [done|congruence].
  - right. apply find_by_Some in Hx as [Hx _]. split; [done|by apply find_by_None in E].
Qed.

Lemma upsert_batch_keys_subset k rows t :
  k ∈ key <$> upsert_batch key merge rows t ↔ k ∈ key <$> t ∨ k ∈ key <$> rows.
Proof.
  unfold upsert_batch. revert t. induction rows as [|r rows IH]; intros t; cbn; [set_solver|].
  rewrite IH, upsert_one_keys. case_decide; set_solver.
Qed.

Lemma elem_of_upsert_one x r t :
  NoDup (key <$> t) → x ∈ upsert key merge r t → x = written_row key merge t r ∨ (x ∈ t ∧ key x ≠ key r).
Proof.
  intros Ht Hx. change (upsert key merge r t) with (upsert_batch key merge [r] t) in Hx.
  apply elem_of_upsert_batch in Hx as [(y & Hy & ->)|[? Hne]]; [| |done|by apply NoDup_singleton].
  - left. by apply list_elem_of_singleton in Hy as ->.
  - right. split; [done|]. intros He. apply Hne. rewrite He. cbn. set_solver.
Qed.

(** A statement keeps the other unique constraint. *)
Definition unique_rows (conflict : A → A → bool) (t : list A) : Prop :=
  ∀ x y, x ∈ t → y ∈ t → conflict x y = true → key x = key y.

Lemma upsert_rows_unique conflict checks code rows t t' ws :
  (∀ x y, conflict x y = conflict y x) → NoDup (key <$> t) → unique_rows conflict t →
  upsert_rows key merge conflict checks code rows t = Ok (t', ws) → unique_rows conflict t'.
Proof.
  intros Hsym. revert t t' ws. induction rows as [|r rows IH]; intros t t' ws Ht Hu H; cbn in H.
  { by injection H as <- _. }
  apply throw_when_ok in H as [Hc H]. apply orb_false_iff in Hc as [_ Hc].
  assert (∀ x, x ∈ t → conflict x (written_row key merge t r) = true → key x = key r) as Hn.
  { intros x Hx Hxy. destruct (decide (key x = key r)) as [|Hne]; [done|]. exfalso.
    assert (existsb (λ x, negb (bool_decide (key x = key r)) && conflict x (written_row key merge t r)) t = true)
      as Ht'; [|congruence].
    apply existsb_exists. exists x. split; [by apply list_elem_of_In|]. rewrite Hxy.
    by rewrite bool_decide_false by done. }
  apply result_bind_ok in H as ([t1 ws1] & H & [= <- _]). eapply IH in H; [done| |].
  { rewrite upsert_one_keys. case_decide; [done|]. apply NoDup_app.
    split; [done|]. split; [set_solver|apply NoDup_singleton]. }
  intros x y Hx Hy Hxy. destruct (elem_of_upsert_one x r t Ht Hx) as [->|[Hx' Hxr]];
    destruct (elem_of_upsert_one y r t Ht Hy) as [->|[Hy' Hyr]]; [done|..].
  - rewrite written_row_key. symmetry. apply Hn; [done|]. by rewrite Hsym.
  - rewrite written_row_key. by apply Hn.
  - by apply Hu.
Qed.

Lemma upsert_returning_unique conflict checks fks code rows t t' ws :
  (∀ x y, conflict x y = conflict y x) → NoDup (key <$> t) → unique_rows conflict t →
  upsert_returning key merge conflict checks fks code rows t = Ok (t', ws) → unique_rows conflict t'.
Proof.
  intros Hsym Ht Hu H. apply throw_when_ok in H as [_ H]. apply result_bind_ok in H as ([t1 ws1] & H & H2).
  apply throw_when_ok in H2 as [_ [= <- _]]. by eapply upsert_rows_unique.
Qed.

Lemma upsert_returning_length conflict checks fks code rows t t' ws :
  upsert_returning key merge conflict checks fks code rows t = Ok (t', ws) → length ws = length rows.
Proof. intros (_ & _ & -> & _)%upsert_returning_ok. by rewrite length_fmap. Qed.
End upsert_lemmas.

(** A [SET] list that names every column. *)
Lemma written_row_replace {A K : Type} `{EqDecision K} (key : A → K) (t : list A) r :
  written_row key (λ _ row, row) t r = r.
Proof. unfold written_row. by destruct (find_by key (key r) t). Qed.
