(* ===== verification/Seeding.v ===== *)
(** * Tournament seeding ([src/domain/tournament.ts])

    Ordering of entries for seeding, the bracket seed order and the round-one pairs.  Ranks and
    entry identifiers are integers; [null] is [None].  [Math.log2] is exact on the integers the
    code passes (team counts), so [Math.ceil(Math.log2(v))] is [Z.log2_up v]. *)

From S2P Require Import Prelude JsCollections.

(** src: src/domain/tournament.ts:5-5 MAX_RANK *)
Definition MAX_RANK : Z := 2147483647.

(** src: src/domain/tournament.ts:178-181 EntrySeed *)
Record EntrySeed := mkEntrySeed {
  es_entryId : Z;
  es_overallRank : option Z;
}.

(** src: src/domain/tournament.ts:183-188 QualifiedEntry *)
Record QualifiedEntry := mkQualifiedEntry {
  qe_entryId : Z;
  qe_groupId : Z;
  qe_groupRank : option Z;
  qe_overallRank : option Z;
}.

(** src: src/domain/tournament.ts:289-289 SeedPair *)
Record SeedPair := mkSeedPair {
  sp_homeEntryId : option Z;
  sp_awayEntryId : option Z;
}.

(** src: src/domain/tournament.ts:365-370 nextPowerOfTwo *)
Definition nextPowerOfTwo (value : Z) : Z :=
  if value <=? 0 then 0 else 2 ^ Z.log2_up value.

(** One pass of the [flatMap] that doubles the bracket.
    src: src/domain/tournament.ts:375-376 buildBracketSeedOrder *)
Definition seed_order_step (nextSize : Z) (seedOrder : list Z) : list Z :=
  flat_map (λ seed, [seed; nextSize + 1 - seed]) seedOrder.

(** The [for] loop; it doubles [size] until it reaches [bracketSize], so [bracketSize] many
    iterations are always enough.
    src: src/domain/tournament.ts:374-377 buildBracketSeedOrder *)
Fixpoint seed_order_loop (fuel : nat) (size bracketSize : Z) (seedOrder : list Z) : list Z :=
  match fuel with
  | O => seedOrder
  | S fuel' =>
      if size <? bracketSize
      then seed_order_loop fuel' (size * 2) bracketSize (seed_order_step (size * 2) seedOrder)
      else seedOrder
  end.

(** src: src/domain/tournament.ts:372-379 buildBracketSeedOrder *)
Definition buildBracketSeedOrder (bracketSize : Z) : list Z :=
  seed_order_loop (Z.to_nat bracketSize) 2 bracketSize [1; 2].

(** The comparator of [sortEntrySeeds].
    src: src/domain/tournament.ts:514-520 sortEntrySeeds *)
Definition compare_entry_seeds : EntrySeed → EntrySeed → Z :=
  then_by (by_key (λ e, nullish (es_overallRank e) MAX_RANK)) (by_key es_entryId).

(** src: src/domain/tournament.ts:513-520 sortEntrySeeds *)
Definition sortEntrySeeds (entries : list EntrySeed) : list EntrySeed :=
  js_sort compare_entry_seeds entries.

(** The comparator of [sortQualifiedEntries].
    src: src/domain/tournament.ts:523-536 sortQualifiedEntries *)
Definition compare_qualified : QualifiedEntry → QualifiedEntry → Z :=
  then_by (by_key (λ e, nullish (qe_groupRank e) MAX_RANK))
    (then_by (by_key qe_groupId)
      (then_by (by_key (λ e, nullish (qe_overallRank e) MAX_RANK)) (by_key qe_entryId))).

(** src: src/domain/tournament.ts:522-536 sortQualifiedEntries *)
Definition sortQualifiedEntries (entries : list QualifiedEntry) : list QualifiedEntry :=
  js_sort compare_qualified entries.

(** [seed <= teamCount ? (normalized[seed - 1] ?? null) : null]; an absent [seed]
    ([undefined]) compares false.
    src: src/domain/tournament.ts:549-553 seedBracketEntries *)
Definition seeded_entry (normalized : list Z) (teamCount : Z) (seed : option Z) : option Z :=
  match seed with
  | Some s => if s <=? teamCount then normalized !! Z.to_nat (s - 1) else None
  | None => None
  end.

(** src: src/domain/tournament.ts:538-558 seedBracketEntries *)
Definition seedBracketEntries (entries : list Z) (teamCount : Z) : list SeedPair :=
  if teamCount <? 2 then [] else
  let bracketSize := nextPowerOfTwo teamCount in
  let normalized := take (Z.to_nat teamCount) entries in
  let seedOrder := buildBracketSeedOrder bracketSize in
  map (λ index : nat,
         mkSeedPair (seeded_entry normalized teamCount (seedOrder !! (index * 2)%nat))
                    (seeded_entry normalized teamCount (seedOrder !! (index * 2 + 1)%nat)))
      (seq 0 (Z.to_nat (bracketSize / 2))).

(** Entrants named by a list of pairs, in bracket order. *)
Definition pair_entrants (p : SeedPair) : list Z :=
  option_list (sp_homeEntryId p) ++ option_list (sp_awayEntryId p).

(** ** The seed order, level by level *)

(** [expand m n l]: [n] doublings of [l], which seeds a bracket of [2 ^ m] teams. *)
Fixpoint expand (m n : nat) (l : list Z) : list Z :=
  match n with
  | O => l
  | S n' => expand (S m) n' (seed_order_step (2 ^ Z.of_nat (S m)) l)
  end.

Lemma seed_order_loop_expand n m fuel l :
  (n ≤ fuel)%nat →
  seed_order_loop fuel (2 ^ Z.of_nat m) (2 ^ Z.of_nat (m + n)) l = expand m n l.
Proof.
  revert m fuel l. induction n as [|n IH]; intros m fuel l Hf.
  - rewrite Nat.add_0_r. destruct fuel; simpl; [done|]. by rewrite Z.ltb_irrefl.
  - destruct fuel as [|fuel]; [lia|]. simpl seed_order_loop.
    assert (2 ^ Z.of_nat m < 2 ^ Z.of_nat (m + S n)) as ->%Z.ltb_lt
      by (apply Z.pow_lt_mono_r; lia).
    replace (2 ^ Z.of_nat m * 2) with (2 ^ Z.of_nat (S m))
      by (rewrite Nat2Z.inj_succ, Z.pow_succ_r by lia; lia).
    replace (m + S n)%nat with (S m + n)%nat by lia.
    rewrite IH by lia. done.
Qed.

(** The loop terminates with the fully doubled order: the fuel is never exhausted. *)
Lemma buildBracketSeedOrder_expand n :
  buildBracketSeedOrder (2 ^ Z.of_nat (S n)) = expand 1 n [1; 2].
Proof.
  unfold buildBracketSeedOrder.
  change 2 with (2 ^ Z.of_nat 1) at 2.
  replace (S n) with (1 + n)%nat by lia. apply seed_order_loop_expand.
  pose proof (Z.pow_gt_lin_r 2 (Z.of_nat (1 + n))). lia.
Qed.

Lemma expand_app m n l k : expand m n (l ++ k) = expand m n l ++ expand m n k.
Proof.
  revert m l k. induction n as [|n IH]; intros m l k; simpl; [done|].
  unfold seed_order_step. by rewrite flat_map_app_distr, IH.
Qed.

Lemma expand_flat_map m n l : expand m n l = flat_map (λ s, expand m n [s]) l.
Proof.
  induction l as [|s l IH]; simpl; [|by rewrite <-IH, <-expand_app].
  revert m. induction n; intros; simpl; done.
Qed.

Lemma length_expand m n l : length (expand m n l) = (length l * 2 ^ n)%nat.
Proof.
  revert m l. induction n as [|n IH]; intros m l; simpl; [lia|].
  rewrite IH. unfold seed_order_step.
  rewrite (flat_map_length_const _ 2) by done. lia.
Qed.

Lemma expand_S m n l :
  expand m (S n) l = seed_order_step (2 ^ Z.of_nat (m + S n)) (expand m n l).
Proof.
  revert m l. induction n as [|n IH]; intros m l.
  - simpl. by rewrite Nat.add_1_r.
  - change (expand m (S (S n)) l) with (expand (S m) (S n) (seed_order_step (2 ^ Z.of_nat (S m)) l)).
    rewrite IH. simpl expand at 2. f_equal. f_equal. lia.
Qed.

(** Expanding one seed: it stays first in its block and meets only weaker seeds there. *)
Lemma expand_single m n s :
  1 ≤ s ≤ 2 ^ Z.of_nat m →
  ∃ l, expand m n [s] = s :: l ∧ Forall (λ x, 2 ^ Z.of_nat m < x ≤ 2 ^ Z.of_nat (m + n)) l.
Proof.
  intros Hs. induction n as [|n (l & Hl & Hfa)].
  { exists []. split; [done|constructor]. }
  rewrite expand_S, Hl. simpl.
  eexists; split; [done|].
  assert (2 ^ Z.of_nat (m + S n) = 2 * 2 ^ Z.of_nat (m + n)) as Hpow.
  { replace (m + S n)%nat with (S (m + n)) by lia.
    rewrite Nat2Z.inj_succ, Z.pow_succ_r; lia. }
  assert (2 ^ Z.of_nat m ≤ 2 ^ Z.of_nat (m + n)) by (apply Z.pow_le_mono_r; lia).
  constructor; [rewrite Hpow; lia|].
  apply Forall_forall. intros x Hx. unfold seed_order_step in Hx.
  apply list_elem_of_In, in_flat_map in Hx as (y & Hy & Hx).
  rewrite Forall_forall in Hfa. specialize (Hfa y (proj2 (list_elem_of_In _ _) Hy)).
  rewrite Hpow. destruct Hx as [<-|[<-|[]]]; lia.
Qed.

Lemma expand_range m n l x :
  Forall (λ s, 1 ≤ s ≤ 2 ^ Z.of_nat m) l → x ∈ expand m n l → 1 ≤ x ≤ 2 ^ Z.of_nat (m + n).
Proof.
  intros Hl Hx. rewrite expand_flat_map in Hx.
  apply list_elem_of_In, in_flat_map in Hx as (s & Hs & Hx).
  rewrite Forall_forall in Hl. specialize (Hl s (proj2 (list_elem_of_In _ _) Hs)).
  assert (2 ^ Z.of_nat m ≤ 2 ^ Z.of_nat (m + n)) by (apply Z.pow_le_mono_r; lia).
  destruct (expand_single m n s Hl) as (k & Hk & Hfa). rewrite Hk in Hx.
  rewrite Forall_forall in Hfa. pose proof (Z.pow_pos_nonneg 2 (Z.of_nat m)).
  destruct Hx as [<-|Hx]; [lia|]. specialize (Hfa x (proj2 (list_elem_of_In _ _) Hx)). lia.
Qed.

Lemma seed_order_step_NoDup m l :
  NoDup l → Forall (λ s, 1 ≤ s ≤ 2 ^ Z.of_nat m) l →
  NoDup (seed_order_step (2 ^ Z.of_nat (S m)) l).
Proof.
  rewrite Nat2Z.inj_succ, Z.pow_succ_r by lia.
  generalize (2 ^ Z.of_nat m). intros N.
  induction l as [|s l IH]; intros Hnd Hr; simpl; [constructor|].
  apply NoDup_cons in Hnd as [Hs Hnd]. apply Forall_cons in Hr as [Hsr Hr].
  assert (∀ x, x ∈ seed_order_step (2 * N) l → ∃ t, t ∈ l ∧ (x = t ∨ x = 2 * N + 1 - t)) as Hin.
  { intros x Hx. unfold seed_order_step in Hx.
    apply list_elem_of_In, in_flat_map in Hx as (t & Ht & Hx). exists t.
    rewrite list_elem_of_In. destruct Hx as [<-|[<-|[]]]; auto. }
  rewrite Forall_forall in Hr.
  repeat constructor; [..|by apply IH; [|apply Forall_forall]].
  - rewrite elem_of_cons. intros [?|(t & Ht & [->| ->])%Hin]; [lia|done|].
    specialize (Hr t Ht). lia.
  - intros (t & Ht & [Heq|Heq])%Hin; specialize (Hr t Ht); [lia|].
    assert (t = s) by lia. by subst.
Qed.

Lemma expand_NoDup m n l :
  NoDup l → Forall (λ s, 1 ≤ s ≤ 2 ^ Z.of_nat m) l → NoDup (expand m n l).
Proof.
  intros Hnd Hr. induction n as [|n IH]; [done|].
  rewrite expand_S. replace (m + S n)%nat with (S (m + n)) by lia.
  apply seed_order_step_NoDup; [done|].
  apply Forall_forall. intros x. by apply expand_range.
Qed.

Lemma length_seed_order n :
  length (buildBracketSeedOrder (2 ^ Z.of_nat (S n))) = Z.to_nat (2 ^ Z.of_nat (S n)).
Proof.
  rewrite buildBracketSeedOrder_expand, length_expand. simpl length.
  rewrite Nat2Z.inj_succ, Z.pow_succ_r, Z2Nat.inj_mul by lia.
  f_equal. change 2 with (Z.of_nat 2). rewrite <-Nat2Z.inj_pow. lia.
Qed.

Lemma seed_order_range n x :
  x ∈ buildBracketSeedOrder (2 ^ Z.of_nat (S n)) → 1 ≤ x ≤ 2 ^ Z.of_nat (S n).
Proof.
  rewrite buildBracketSeedOrder_expand. intros Hx%(expand_range 1 n [1;2]); [done|].
  repeat constructor; simpl; lia.
Qed.

Lemma seed_order_NoDup n : NoDup (buildBracketSeedOrder (2 ^ Z.of_nat (S n))).
Proof.
  rewrite buildBracketSeedOrder_expand. apply (expand_NoDup 1).
  - apply NoDup_cons; split; [set_solver|apply NoDup_singleton].
  - repeat constructor; simpl; lia.
Qed.

Lemma seed_order_perm n :
  buildBracketSeedOrder (2 ^ Z.of_nat (S n)) ≡ₚ seqZ 1 (2 ^ Z.of_nat (S n)).
Proof.
  apply (submseteq_length_Permutation).
  - apply NoDup_submseteq; [apply seed_order_NoDup|].
    intros x Hx%seed_order_range. apply elem_of_seqZ. lia.
  - rewrite length_seqZ, length_seed_order. lia.
Qed.

Lemma seed_order_pair n i :
  (i < 2 ^ n)%nat →
  ∃ s, buildBracketSeedOrder (2 ^ Z.of_nat (S n)) !! (i * 2)%nat = Some s ∧
       buildBracketSeedOrder (2 ^ Z.of_nat (S n)) !! (i * 2 + 1)%nat
         = Some (2 ^ Z.of_nat (S n) + 1 - s) ∧
       1 ≤ s ≤ 2 ^ Z.of_nat n.
Proof.
  intros Hi. rewrite buildBracketSeedOrder_expand.
  destruct n as [|n].
  { exists 1. destruct i; [|simpl in Hi; lia]. simpl. done. }
  rewrite (expand_S 1 n). set (l := expand 1 n [1;2]).
  assert (length l = (2 ^ S n)%nat) as Hlen by (unfold l; rewrite length_expand; simpl; lia).
  destruct (lookup_lt_is_Some_2 l i) as [s Hs]; [lia|].
  exists s. unfold seed_order_step.
  pose proof (flat_map_lookup_block (λ seed, [seed; 2 ^ Z.of_nat (1 + S n) + 1 - seed])
    2 l i 0 s) as H0.
  rewrite Nat.add_0_r in H0. rewrite H0; [|done|lia|done].
  rewrite (flat_map_lookup_block _ 2 l i 1 s); [|done|lia|done].
  split_and!; try done.
  all: apply list_elem_of_lookup_2 in Hs; unfold l in Hs;
    apply (expand_range 1 n [1;2]) in Hs; [|repeat constructor; simpl; lia]; simpl in *; lia.
Qed.

(** ** Round-one pairs *)

Lemma nextPowerOfTwo_bounds v :
  2 ≤ v → ∃ n, nextPowerOfTwo v = 2 ^ Z.of_nat (S n) ∧ 2 ^ Z.of_nat n < v ≤ 2 ^ Z.of_nat (S n).
Proof.
  intros Hv. unfold nextPowerOfTwo.
  destruct (Z.leb_spec v 0); [lia|].
  pose proof (Z.log2_up_spec v). pose proof (Z.log2_up_pos v).
  exists (Z.to_nat (Z.pred (Z.log2_up v))).
  replace (Z.of_nat (S (Z.to_nat (Z.pred (Z.log2_up v))))) with (Z.log2_up v) by lia.
  rewrite Z2Nat.id by lia. lia.
Qed.

Definition seed_slots (normalized : list Z) (teamCount : Z) (order : list Z) : list Z :=
  omap (λ s, seeded_entry normalized teamCount (Some s)) order.

Lemma seed_slots_seqZ (normalized : list Z) teamCount N :
  Z.of_nat (length normalized) = teamCount → teamCount ≤ N →
  seed_slots normalized teamCount (seqZ 1 N) = normalized.
Proof.
  intros Hlen HN. unfold seed_slots.
  assert (0 ≤ teamCount) by lia.
  replace N with (teamCount + (N - teamCount)) by lia. rewrite seqZ_app by lia.
  rewrite omap_app.
  assert (omap (λ s, seeded_entry normalized teamCount (Some s))
            (seqZ (1 + teamCount) (N - teamCount)) = []) as ->.
  { apply elem_of_nil_inv. intros x (s & Hs & Hx)%list_elem_of_omap.
    apply elem_of_seqZ in Hs. simpl in Hx.
    destruct (Z.leb_spec s teamCount); [lia|done]. }
  rewrite app_nil_r. clear HN. subst teamCount.
  apply list_eq. intros i.
  set (f := λ s, seeded_entry normalized (Z.of_nat (length normalized)) (Some s)).
  assert (∀ (k : nat) (l1 l2 : list Z), normalized = l1 ++ l2 → k = length l1 →
    omap f (seqZ (1 + Z.of_nat k) (Z.of_nat (length l2))) = l2) as Hgen.
  { intros k l1 l2. revert k l1. induction l2 as [|x l2 IH]; intros k l1 Hn ->; [done|].
    simpl length. rewrite seqZ_cons by lia. simpl.
    assert (f (1 + Z.of_nat (length l1)) = Some x) as ->.
    { unfold f, seeded_entry. rewrite Hn at 1. rewrite length_app. simpl length.
      rewrite (proj2 (Z.leb_le _ _)) by lia.
      replace (Z.to_nat (1 + Z.of_nat (length l1) - 1)) with (length l1) by lia.
      rewrite Hn. by rewrite list_lookup_middle. }
    f_equal. rewrite <-(IH (S (length l1)) (l1 ++ [x])) at 2.
    - f_equal. f_equal; lia.
    - rewrite Hn. by rewrite <-app_assoc.
    - rewrite length_app. simpl. lia. }
  f_equal. exact (Hgen 0%nat [] normalized eq_refl eq_refl).
Qed.

Lemma pairs_entrants_slots normalized teamCount (order : list Z) n :
  length order = (n * 2)%nat →
  flat_map pair_entrants
    (map (λ index : nat,
         mkSeedPair (seeded_entry normalized teamCount (order !! (index * 2)%nat))
                    (seeded_entry normalized teamCount (order !! (index * 2 + 1)%nat)))
      (seq 0 n)) = seed_slots normalized teamCount order.
Proof.
  revert order. induction n as [|n IH]; intros order Hlen.
  { destruct order; [done|discriminate]. }
  destruct order as [|a [|b order]]; [discriminate..|].
  simpl in Hlen. rewrite <-cons_seq. simpl map. simpl flat_map.
  rewrite <-seq_shift, map_map.
  rewrite (map_ext _ (λ index : nat,
         mkSeedPair (seeded_entry normalized teamCount (order !! (index * 2)%nat))
                    (seeded_entry normalized teamCount (order !! (index * 2 + 1)%nat)))).
  2:{ intros i. f_equal. }
  rewrite IH by lia. unfold seed_slots, pair_entrants. simpl.
  repeat (case_match; simpl); try done.
Qed.

Lemma nextPowerOfTwo_half v n :
  nextPowerOfTwo v = 2 ^ Z.of_nat (S n) → Z.to_nat (nextPowerOfTwo v / 2) = (2 ^ n)%nat.
Proof.
  intros ->. rewrite Nat2Z.inj_succ, Z.pow_succ_r by lia.
  rewrite Z.mul_comm, Z.div_mul by lia.
  change 2 with (Z.of_nat 2). rewrite <-Nat2Z.inj_pow. apply Nat2Z.id.
Qed.

Lemma length_seedBracketEntries entries teamCount :
  length (seedBracketEntries entries teamCount)
  = if teamCount <? 2 then 0%nat else Z.to_nat (nextPowerOfTwo teamCount / 2).
Proof.
  unfold seedBracketEntries. case_match; [done|]. by rewrite length_map, length_seq.
Qed.

Lemma seedBracketEntries_lookup entries teamCount n i :
  2 ≤ teamCount → nextPowerOfTwo teamCount = 2 ^ Z.of_nat (S n) → (i < 2 ^ n)%nat →
  ∃ s, 1 ≤ s ≤ 2 ^ Z.of_nat n ∧
    seedBracketEntries entries teamCount !! i =
      Some (mkSeedPair
        (seeded_entry (take (Z.to_nat teamCount) entries) teamCount (Some s))
        (seeded_entry (take (Z.to_nat teamCount) entries) teamCount
           (Some (2 ^ Z.of_nat (S n) + 1 - s)))).
Proof.
  intros Htc Hn Hi. destruct (seed_order_pair n i Hi) as (s & Hs & Hs' & Hr).
  exists s. split; [done|]. unfold seedBracketEntries.
  destruct (Z.ltb_spec teamCount 2); [lia|]. cbv zeta.
  rewrite (nextPowerOfTwo_half _ _ Hn), list_lookup_fmap, lookup_seq_lt by done.
  simpl. rewrite Hn, Hs, Hs'. done.
Qed.

(** Seeding [teamCount >= 2] entries of a longer list puts each of the first [teamCount]
    entries into exactly one slot of round one and nobody else, and uses half the bracket size
    many pairs. *)
Theorem seedBracketEntries_covers (entries : list Z) (teamCount : Z)
  (Htwo : 2 ≤ teamCount) (Hlen : teamCount ≤ Z.of_nat (length entries)) :
  flat_map pair_entrants (seedBracketEntries entries teamCount)
    ≡ₚ take (Z.to_nat teamCount) entries ∧
  length (seedBracketEntries entries teamCount) = Z.to_nat (nextPowerOfTwo teamCount / 2).
Proof.
  destruct (nextPowerOfTwo_bounds teamCount Htwo) as (n & Hn & Hb).
  split; [|rewrite length_seedBracketEntries; destruct (Z.ltb_spec teamCount 2); [lia|done]].
  unfold seedBracketEntries. destruct (Z.ltb_spec teamCount 2); [lia|].
  cbv zeta. rewrite (nextPowerOfTwo_half _ _ Hn), Hn.
  rewrite pairs_entrants_slots.
  - unfold seed_slots. rewrite (seed_order_perm n).
    change (omap _ _) with
      (seed_slots (take (Z.to_nat teamCount) entries) teamCount (seqZ 1 (2 ^ Z.of_nat (S n)))).
    rewrite seed_slots_seqZ; [done| |lia]. rewrite length_take. lia.
  - rewrite length_seed_order, Nat2Z.inj_succ, Z.pow_succ_r, Z2Nat.inj_mul by lia.
    change 2 with (Z.of_nat 2). rewrite <-Nat2Z.inj_pow. lia.
Qed.

Lemma seedBracketEntries_covers_witness :
  flat_map pair_entrants (seedBracketEntries [11; 22; 33; 44; 55; 66] 5) ≡ₚ [11; 22; 33; 44; 55]
  ∧ length (seedBracketEntries [11; 22; 33; 44; 55; 66] 5) = 4%nat.
Proof. apply (seedBracketEntries_covers [11; 22; 33; 44; 55; 66] 5); vm_compute; congruence. Defined.

(** Every round-one pair has a home entry, the seed [s] of the upper half; its opponent is
    the mirrored seed [size + 1 - s], and the byes go to exactly the strongest
    [size - teamCount] seeds. *)
Theorem seedBracketEntries_byes (entries : list Z) (teamCount : Z) (i : nat) (p : SeedPair)
  (Htwo : 2 ≤ teamCount) (Hlen : teamCount ≤ Z.of_nat (length entries))
  (Hp : seedBracketEntries entries teamCount !! i = Some p) :
  ∃ s, 1 ≤ s ≤ nextPowerOfTwo teamCount / 2 ∧
    sp_homeEntryId p = entries !! Z.to_nat (s - 1) ∧ is_Some (sp_homeEntryId p) ∧
    (if s <=? nextPowerOfTwo teamCount - teamCount
     then sp_awayEntryId p = None
     else sp_awayEntryId p = entries !! Z.to_nat (nextPowerOfTwo teamCount - s)
          ∧ is_Some (sp_awayEntryId p)).
Proof.
  destruct (nextPowerOfTwo_bounds teamCount Htwo) as (n & Hn & Hb).
  assert (i < 2 ^ n)%nat as Hi.
  { apply lookup_lt_Some in Hp. rewrite length_seedBracketEntries in Hp.
    destruct (Z.ltb_spec teamCount 2); [lia|]. by rewrite (nextPowerOfTwo_half _ _ Hn) in Hp. }
  destruct (seedBracketEntries_lookup entries teamCount n i Htwo Hn Hi) as (s & Hs & Heq).
  rewrite Heq in Hp. injection Hp as <-. exists s. simpl sp_homeEntryId. simpl sp_awayEntryId.
  assert (nextPowerOfTwo teamCount / 2 = 2 ^ Z.of_nat n) as ->.
  { rewrite Hn, Nat2Z.inj_succ, Z.pow_succ_r, Z.mul_comm, Z.div_mul; lia. }
  rewrite Hn. unfold seeded_entry.
  destruct (Z.leb_spec s teamCount); [|lia].
  rewrite lookup_take_lt by lia.
  split_and!; [lia|lia|done|apply lookup_lt_is_Some; lia|].
  destruct (Z.leb_spec s (2 ^ Z.of_nat (S n) - teamCount)),
    (Z.leb_spec (2 ^ Z.of_nat (S n) + 1 - s) teamCount); try lia; [done|].
  rewrite lookup_take_lt by lia.
  replace (2 ^ Z.of_nat (S n) + 1 - s - 1) with (2 ^ Z.of_nat (S n) - s) by lia.
  split; [done|]. apply lookup_lt_is_Some. lia.
Qed.

Lemma seedBracketEntries_byes_witness :
  ∃ s, 1 ≤ s ≤ 4 ∧ Some 22 = [11; 22; 33; 44; 55] !! Z.to_nat (s - 1).
Proof.
  destruct (seedBracketEntries_byes [11; 22; 33; 44; 55] 5 2 (mkSeedPair (Some 22) None))
    as (s & Hs & Hh & _); [done|vm_compute; congruence|reflexivity|].
  exists s. split; [exact Hs | exact Hh].
Defined.

Lemma expand_plus a m k l : expand a (m + k) l = expand (a + m) k (expand a m l).
Proof.
  revert a l. induction m as [|m IH]; intros a l; simpl; [by rewrite Nat.add_0_r|].
  rewrite IH. f_equal. lia.
Qed.

(** Seeds that were already in [l] sit at block boundaries after [k] more doublings. *)
Lemma expand_block_low m k l i s :
  Forall (λ s, 1 ≤ s ≤ 2 ^ Z.of_nat m) l → expand m k l !! i = Some s → s ≤ 2 ^ Z.of_nat m →
  ∃ b, i = (b * 2 ^ k)%nat ∧ l !! b = Some s.
Proof.
  intros Hr Hi Hs. pose proof (Nat.pow_nonzero 2 k).
  assert (i < length l * 2 ^ k)%nat by (rewrite <-(length_expand m k l); by eapply lookup_lt_Some).
  destruct (lookup_lt_is_Some_2 l (i / 2 ^ k)) as [y Hy].
  { apply Nat.Div0.div_lt_upper_bound. lia. }
  pose proof (Nat.div_mod_eq i (2 ^ k)) as Hdm.
  pose proof (Nat.mod_upper_bound i (2 ^ k)).
  rewrite Hdm, Nat.mul_comm, expand_flat_map in Hi.
  rewrite (flat_map_lookup_block _ (2 ^ k) l _ _ y) in Hi; [| |lia|done].
  2:{ intros z _. rewrite length_expand. simpl. lia. }
  rewrite Forall_lookup in Hr. destruct (expand_single m k y (Hr _ _ Hy)) as (tl & Htl & Hfa).
  rewrite Htl in Hi. destruct (i mod 2 ^ k)%nat as [|r] eqn:Hmod.
  - exists (i / 2 ^ k)%nat. simplify_eq/=. split; [lia|done].
  - simpl in Hi. rewrite Forall_lookup in Hfa. apply Hfa in Hi. lia.
Qed.

(** Strong seeds are kept apart: in a bracket of [2 ^ (m + k)] slots, two different slots
    holding seeds of the top [2 ^ m] lie in different blocks of [2 ^ k] slots, so they cannot
    meet in the first [k] rounds. *)
Theorem seed_order_separates (m k i j : nat) (s t : Z)
  (Hm : (1 ≤ m)%nat)
  (Hi : buildBracketSeedOrder (2 ^ Z.of_nat (m + k)) !! i = Some s)
  (Hj : buildBracketSeedOrder (2 ^ Z.of_nat (m + k)) !! j = Some t)
  (Hs : s ≤ 2 ^ Z.of_nat m) (Ht : t ≤ 2 ^ Z.of_nat m) (Hij : i ≠ j) :
  (i / 2 ^ k ≠ j / 2 ^ k)%nat.
Proof.
  destruct m as [|m]; [lia|].
  replace (S m + k)%nat with (S (m + k)) in Hi, Hj by lia.
  rewrite buildBracketSeedOrder_expand, expand_plus in Hi, Hj.
  assert (Forall (λ s, 1 ≤ s ≤ 2 ^ Z.of_nat (1 + m)) (expand 1 m [1; 2])) as Hr.
  { apply Forall_forall. intros x. apply expand_range. repeat constructor; simpl; lia. }
  destruct (expand_block_low _ _ _ _ _ Hr Hi Hs) as (b & -> & Hb).
  destruct (expand_block_low _ _ _ _ _ Hr Hj Ht) as (c & -> & Hc).
  pose proof (Nat.pow_nonzero 2 k). rewrite !Nat.div_mul by lia. intros ->. done.
Qed.

Lemma seed_order_separates_witness :
  buildBracketSeedOrder 16 !! 0%nat = Some 1 ∧ buildBracketSeedOrder 16 !! 4%nat = Some 4 ∧
  (0 / 2 ^ 2 ≠ 4 / 2 ^ 2)%nat.
Proof.
  split_and!; [reflexivity..|].
  apply (seed_order_separates 2 2 0 4 1 4); [lia|reflexivity|reflexivity|lia|lia|lia].
Defined.

#[export] Instance compare_entry_seeds_comparator : Comparator compare_entry_seeds.
Proof. apply _. Qed.
#[export] Instance compare_qualified_comparator : Comparator compare_qualified.
Proof. apply _. Qed.

(** The seeding does not depend on the order in which the database returns the entries:
    any permutation of a roster without repeated entry ids gives the same order, by overall
    rank (unranked entries last) and then by entry id. *)
Theorem sortEntrySeeds_deterministic (l k : list EntrySeed)
  (Hnd : NoDup (es_entryId <$> l)) (Hperm : l ≡ₚ k) :
  sortEntrySeeds l = sortEntrySeeds k ∧ sortEntrySeeds l ≡ₚ l ∧
  StronglySorted (λ a b, nullish (es_overallRank a) MAX_RANK < nullish (es_overallRank b) MAX_RANK
    ∨ (nullish (es_overallRank a) MAX_RANK = nullish (es_overallRank b) MAX_RANK
       ∧ es_entryId a ≤ es_entryId b)) (sortEntrySeeds l).
Proof.
  split_and!.
  - apply js_sort_unique; [apply _| |done].
    intros x y Hx Hy. unfold compare_entry_seeds, then_by, by_key.
    case_match; boolsolve; [|lia]. intros ?.
    apply (NoDup_fmap_inj_in es_entryId l); [done..|lia].
  - apply js_sort_perm.
  - eapply StronglySorted_impl, (js_sort_sorted compare_entry_seeds).
    intros x y. unfold cmp_le, compare_entry_seeds, then_by, by_key.
    case_match; boolsolve; lia.
Qed.

Lemma sortEntrySeeds_deterministic_witness :
  sortEntrySeeds [mkEntrySeed 7 None; mkEntrySeed 3 (Some 10)]
  = sortEntrySeeds [mkEntrySeed 3 (Some 10); mkEntrySeed 7 None].
Proof.
  apply (sortEntrySeeds_deterministic [mkEntrySeed 7 None; mkEntrySeed 3 (Some 10)]).
  - apply (bool_decide_unpack _). vm_compute. exact I.
  - apply Permutation_swap.
Defined.
