(* ===== verification/Tournament.v ===== *)
(** * Tournament data and small decisions ([src/domain/tournament.ts])

    Modes, the configuration records, the backfill window, the roster difference and the guards
    of the official head-to-head recovery. *)

From S2P Require Import Prelude JsCollections.

(** src: src/domain/tournament.ts:90-90 LeagueType *)
Inductive LeagueType := Classic | H2H.

(** src: src/domain/tournament.ts:89-89 TournamentRosterMode *)
Inductive TournamentRosterMode := Snapshot | OfficialSync.

(** src: src/domain/tournament.ts:101-101 GroupMode *)
Inductive GroupMode := NoGroup | PointsRaces | BattleRaces.

(** src: src/domain/tournament.ts:102-106 KnockoutMode *)
Inductive KnockoutMode := NoKnockout | SingleElimination | DoubleElimination | HeadToHead.

#[export] Instance LeagueType_eq_dec : EqDecision LeagueType.
Proof. solve_decision. Defined.
#[export] Instance TournamentRosterMode_eq_dec : EqDecision TournamentRosterMode.
Proof. solve_decision. Defined.
#[export] Instance GroupMode_eq_dec : EqDecision GroupMode.
Proof. solve_decision. Defined.
#[export] Instance KnockoutMode_eq_dec : EqDecision KnockoutMode.
Proof. solve_decision. Defined.

(** src: src/domain/tournament.ts:152-168 TournamentSyncContext *)
Record TournamentSyncContext := mkSyncContext {
  t_id : Z;
  t_leagueId : option Z;
  t_leagueType : option LeagueType;
  t_rosterMode : option TournamentRosterMode;
  t_totalTeamNum : Z;
  t_groupMode : GroupMode;
  t_groupStartedEventId : option Z;
  t_groupEndedEventId : option Z;
  t_groupQualifyNum : option Z;
  t_knockoutMode : KnockoutMode;
  t_knockoutTeamNum : option Z;
  t_knockoutEventNum : option Z;
  t_knockoutStartedEventId : option Z;
  t_knockoutEndedEventId : option Z;
  t_knockoutPlayAgainstNum : option Z;
}.

(** A configuration is a sync context with the number of groups.
    src: src/domain/tournament.ts:127-144 TournamentConfig *)
Record TournamentConfig := mkConfig {
  tc_ctx :> TournamentSyncContext;
  tc_groupNum : option Z;
}.

(** src: src/domain/tournament.ts:868-876 isOfficialH2HTournament *)
Definition isOfficialH2HTournament (t : TournamentSyncContext) : bool :=
  bool_decide (t_leagueType t = Some H2H) &&
  bool_decide (t_rosterMode t = Some OfficialSync) &&
  bool_decide (t_groupMode t = BattleRaces).

(** ** Setup request estimate *)

(** src: src/domain/tournament.ts:215-220 TournamentSetupRequestEstimate *)
Record TournamentSetupRequestEstimate := mkEstimate {
  unoptimizedColdStart : Z;
  optimizedColdStartUpperBound : Z;
  optimizedTransferHistoryRequests : Z;
  coreStandingsBaseline : Z;
}.

(** src: src/domain/tournament.ts:222-234 estimateTournamentSetupRequests *)
Definition estimateTournamentSetupRequests (entryCount eventCount : Z)
    : TournamentSetupRequestEstimate :=
  let entries := Z.max 0 entryCount in
  let events := Z.max 0 eventCount in
  {| unoptimizedColdStart := 2 * entries + events + 2 * entries * events;
     optimizedColdStartUpperBound := 3 * entries + events + entries * events;
     optimizedTransferHistoryRequests := entries;
     coreStandingsBaseline := 2 * entries |}.

(** ** Roster difference *)

(** [[...new Set(ids.filter((id) => id > 0))].sort((a, b) => a - b)]
    src: src/domain/tournament.ts:240-242 diffTournamentRoster *)
Definition normalize_ids (ids : list Z) : list Z :=
  js_sort (by_key (λ id, id)) (dedup (filter (λ id, 0 < id) ids)).

(** src: src/domain/tournament.ts:236-252 diffTournamentRoster *)
Definition diffTournamentRoster (existingEntryIds authoritativeEntryIds : list Z)
    : list Z * list Z :=
  let existing := normalize_ids existingEntryIds in
  let authoritative := normalize_ids authoritativeEntryIds in
  (filter (λ id, id ∉ existing) authoritative,
   filter (λ id, id ∉ authoritative) existing).

(** src: src/domain/tournament.ts:282-287 isAdditiveTournamentRosterRecovery *)
Definition isAdditiveTournamentRosterRecovery (existingEntryIds authoritativeEntryIds : list Z)
    : bool :=
  bool_decide (length (diffTournamentRoster existingEntryIds authoritativeEntryIds).2 = 0%nat).

(** src: src/domain/tournament.ts:258-258 OfficialH2HRosterRecoveryRecord *)
Inductive TournamentState := TActive | TInactive | TFinished.

(** src: src/domain/tournament.ts:259-259 OfficialH2HRosterRecoveryRecord *)
Inductive RosterSyncStatus := RPending | RProcessing | RReady | RFailed.

#[export] Instance TournamentState_eq_dec : EqDecision TournamentState.
Proof. solve_decision. Defined.
#[export] Instance RosterSyncStatus_eq_dec : EqDecision RosterSyncStatus.
Proof. solve_decision. Defined.

(** src: src/domain/tournament.ts:254-261 OfficialH2HRosterRecoveryRecord *)
Record RosterRecoveryRecord := mkRecovery {
  rr_ctx : TournamentSyncContext;
  rr_state : TournamentState;
  rr_rosterSyncStatus : option RosterSyncStatus;
  rr_officialScheduleLockedAt : option string;
}.

(** src: src/domain/tournament.ts:268-280 isUnlockedOfficialH2HRosterRecoveryState *)
Definition isUnlockedOfficialH2HRosterRecoveryState (t : RosterRecoveryRecord)
    (expectedStatus : RosterSyncStatus) (hasResultRows : bool) : bool :=
  isOfficialH2HTournament (rr_ctx t) &&
  bool_decide (rr_state t = TActive) &&
  bool_decide (rr_rosterSyncStatus t = Some expectedStatus) &&
  is_null (rr_officialScheduleLockedAt t) &&
  negb hasResultRows.

(** ** Backfill window *)

(** src: src/domain/tournament.ts:668-691 getTournamentBackfillWindow *)
Definition getTournamentBackfillWindow (t : TournamentConfig) (currentEventId : option Z)
    : option (Z * Z) :=
  let startEventId :=
    if bool_decide (t_groupMode t ≠ NoGroup) then t_groupStartedEventId t
    else nullish_or (t_knockoutStartedEventId t) (t_groupStartedEventId t) in
  let configuredEndEventId :=
    if bool_decide (t_knockoutMode t ≠ NoKnockout) then t_knockoutEndedEventId t
    else t_groupEndedEventId t in
  if negb (truthy startEventId) || negb (truthy configuredEndEventId)
     || is_null currentEventId then None else
  match startEventId, configuredEndEventId, currentEventId with
  | Some start, Some configuredEnd, Some current =>
      let endEventId := Z.min configuredEnd current in
      if endEventId <? start then None else Some (start, endEventId)
  | _, _, _ => None
  end.

(** ** Setup retries ([src/domain/tournament-setup-retry.ts]) *)

(** src: src/domain/tournament-setup-retry.ts:2-2 TOURNAMENT_SETUP_BACKOFF_DELAY_MS *)
Definition TOURNAMENT_SETUP_BACKOFF_DELAY_MS : Z := 60000.

(** src: src/domain/tournament-setup-retry.ts:4-6 getTournamentSetupRetryDelayMs *)
Definition getTournamentSetupRetryDelayMs (attempt : Z) : Z :=
  TOURNAMENT_SETUP_BACKOFF_DELAY_MS * 2 ^ Z.max 0 (attempt - 1).

(** ** Properties *)

Lemma elem_of_normalize_ids x ids : x ∈ normalize_ids ids ↔ x ∈ ids ∧ 0 < x.
Proof.
  unfold normalize_ids. rewrite elem_of_js_sort, elem_of_dedup, list_elem_of_filter. tauto.
Qed.

Lemma NoDup_normalize_ids ids : NoDup (normalize_ids ids).
Proof. unfold normalize_ids. rewrite js_sort_perm. apply NoDup_dedup. Qed.

Lemma normalize_ids_sorted ids : StronglySorted Z.lt (normalize_ids ids).
Proof.
  pose proof (NoDup_normalize_ids ids) as Hnd. unfold normalize_ids in *.
  pose proof (js_sort_sorted (by_key (λ id : Z, id))
    (dedup (filter (λ id, 0 < id) ids))) as Hs.
  revert Hnd. induction Hs as [|x l Hs IH Hx]; [constructor|].
  intros [Hnx Hnd]%NoDup_cons. constructor; [by apply IH|].
  rewrite Forall_forall in Hx |- *. intros y Hy.
  specialize (Hx y Hy). unfold cmp_le, by_key in Hx.
  assert (x ≠ y) by (intros ->; done). lia.
Qed.

(** Applying the roster difference turns the stored roster into the authoritative one: an id
    is in the new roster iff it was kept or added, the two lists are ascending, and no id is
    both added and removed. *)
Theorem diffTournamentRoster_correct (existing authoritative : list Z) :
  let '(added, removed) := diffTournamentRoster existing authoritative in
  (∀ x, (x ∈ added ∨ (x ∈ existing ∧ 0 < x ∧ x ∉ removed)) ↔ (x ∈ authoritative ∧ 0 < x)) ∧
  (∀ x, x ∈ added → x ∉ existing) ∧
  (∀ x, x ∈ removed → x ∈ existing ∧ x ∉ authoritative) ∧
  NoDup (added ++ removed).
Proof.
  unfold diffTournamentRoster.
  assert (∀ P (l : list Z) `{∀ x, Decision (P x)}, NoDup l → NoDup (filter P l)) as Hf.
  { intros. by apply NoDup_filter. }
  split_and!.
  - intros x. rewrite !list_elem_of_filter, !elem_of_normalize_ids.
    destruct (decide (x ∈ authoritative)), (decide (x ∈ existing)); naive_solver.
  - intros x. rewrite !list_elem_of_filter, !elem_of_normalize_ids. naive_solver.
  - intros x. rewrite !list_elem_of_filter, !elem_of_normalize_ids. naive_solver.
  - apply NoDup_app. split_and!; [apply Hf, NoDup_normalize_ids| |apply Hf, NoDup_normalize_ids].
    intros x. rewrite !list_elem_of_filter, !elem_of_normalize_ids. naive_solver.
Qed.

(** A live-gameweek recovery is additive exactly when no stored entry would disappear. *)
Lemma isAdditive_spec existing authoritative :
  isAdditiveTournamentRosterRecovery existing authoritative = true
  ↔ ∀ x, x ∈ existing → 0 < x → x ∈ authoritative.
Proof.
  unfold isAdditiveTournamentRosterRecovery, diffTournamentRoster. simpl.
  rewrite bool_decide_eq_true, length_zero_iff_nil. split.
  - intros Hnil x Hx Hpos. destruct (decide (x ∈ authoritative)); [done|exfalso].
    assert (x ∈ filter (λ id, id ∉ normalize_ids authoritative) (normalize_ids existing)) as Hin.
    { rewrite list_elem_of_filter, !elem_of_normalize_ids. tauto. }
    rewrite Hnil in Hin. set_solver.
  - intros Hall. apply elem_of_nil_inv. intros x.
    rewrite list_elem_of_filter, !elem_of_normalize_ids. naive_solver.
Qed.

(** The history backfill window is a non-empty range that starts at the configured first
    event and never passes the current event nor the configured end; it is absent only when an
    endpoint is missing or the tournament has not started. *)
Theorem getTournamentBackfillWindow_spec (t : TournamentConfig) (current first last : Z)
  (Hfirst : (if bool_decide (t_groupMode t ≠ NoGroup) then t_groupStartedEventId t
     else nullish_or (t_knockoutStartedEventId t) (t_groupStartedEventId t)) = Some first)
  (Hlast : (if bool_decide (t_knockoutMode t ≠ NoKnockout) then t_knockoutEndedEventId t
     else t_groupEndedEventId t) = Some last)
  (Hpos : 0 < first ∧ 0 < last) :
  (getTournamentBackfillWindow t (Some current) = None ↔ Z.min last current < first) ∧
  ∀ s e, getTournamentBackfillWindow t (Some current) = Some (s, e) →
    s = first ∧ s ≤ e ∧ e ≤ current ∧ e ≤ last ∧ (e = current ∨ e = last).
Proof.
  unfold getTournamentBackfillWindow. rewrite Hfirst, Hlast. simpl.
  destruct (Z.eqb_spec first 0), (Z.eqb_spec last 0); try lia. simpl.
  destruct (Z.ltb_spec (Z.min last current) first).
  - split; [tauto|done].
  - split; [split; [done|lia]|]. intros s e ?. simplify_eq. lia.
Qed.

Lemma getTournamentBackfillWindow_spec_witness :
  let ctx := mkSyncContext 1 None None None 8 PointsRaces (Some 3) (Some 10) (Some 2)
               SingleElimination (Some 4) (Some 2) (Some 11) (Some 12) (Some 1) in
  getTournamentBackfillWindow (mkConfig ctx (Some 2)) (Some 7) = Some (3, 7) ∧ 7 ≤ 12.
Proof.
  intros ctx. split; [reflexivity|].
  refine (proj1 (proj2 (proj2 (proj2 (proj2 (getTournamentBackfillWindow_spec
    (mkConfig ctx (Some 2)) 7 3 12 _ _ _) 3 7 _))))); reflexivity || lia.
Defined.
