(* ===== verification/GroupDraw.v ===== *)
(** * Group draw ([buildGroupRows] of [src/domain/tournament.ts])

    Entries are dealt to the groups in snake order: left to right, then right to left. *)

From stdpp Require Import pretty.
From S2P Require Import Prelude JsCollections Tournament Seeding.

(** src: src/domain/tournament.ts:506-511 groupNameForIndex *)
Definition groupNameForIndex (index : nat) : string :=
  if (index <? 26)%nat
  then String (Ascii.ascii_of_nat (65 + index)) EmptyString
  else ("Group " ++ pretty (index + 1)%nat)%string.

(** [Math.max(tournament.groupNum ?? 1, 1)]
    src: src/domain/tournament.ts:564-564 buildGroupRows *)
Definition group_count (t : TournamentConfig) : nat :=
  Z.to_nat (Z.max (nullish (tc_groupNum t) 1) 1).

(** The group an entry of rank [index] is dealt to.
    src: src/domain/tournament.ts:569-571 buildGroupRows *)
Definition snake_group (groupCount index : nat) : nat :=
  let cycle := (index / groupCount)%nat in
  let offset := (index mod groupCount)%nat in
  if Nat.even cycle then offset else (groupCount - offset - 1)%nat.

(** The [forEach] that pushes every ordered entry, starting at position [index].
    src: src/domain/tournament.ts:568-573 buildGroupRows *)
Fixpoint deal {A : Type} (groupCount index : nat) (entries : list A) (groups : list (list A))
    : list (list A) :=
  match entries with
  | [] => groups
  | e :: entries' =>
      deal groupCount (S index) entries'
        (alter (λ g, g ++ [e]) (snake_group groupCount index) groups)
  end.

(** src: src/domain/tournament.ts:578-597 buildGroupRows *)
Record GroupRow := mkGroupRow {
  gr_tournament_id : Z;
  gr_group_id : nat;
  gr_group_name : string;
  gr_group_index : nat;
  gr_entry_id : Z;
  gr_started_event_id : option Z;
  gr_ended_event_id : option Z;
  gr_group_points : Z;
  gr_group_rank : option Z;
  gr_played : Z;
  gr_won : Z;
  gr_drawn : Z;
  gr_lost : Z;
  gr_total_points : Z;
  gr_total_transfers_cost : Z;
  gr_total_net_points : Z;
  gr_qualified : Z;
  gr_overall_rank : option Z;
}.

(** src: src/domain/tournament.ts:578-597 buildGroupRows *)
Definition group_row (t : TournamentConfig) (groupIndex slotIndex : nat) (entry : EntrySeed)
    : GroupRow :=
  {| gr_tournament_id := t_id t;
     gr_group_id := groupIndex + 1;
     gr_group_name := groupNameForIndex groupIndex;
     gr_group_index := slotIndex + 1;
     gr_entry_id := es_entryId entry;
     gr_started_event_id := t_groupStartedEventId t;
     gr_ended_event_id := t_groupEndedEventId t;
     gr_group_points := 0; gr_group_rank := None; gr_played := 0; gr_won := 0; gr_drawn := 0;
     gr_lost := 0; gr_total_points := 0; gr_total_transfers_cost := 0;
     gr_total_net_points := 0; gr_qualified := 0;
     gr_overall_rank := es_overallRank entry |}.

(** src: src/domain/tournament.ts:560-602 buildGroupRows *)
Definition buildGroupRows (t : TournamentConfig) (entries : list EntrySeed) : list GroupRow :=
  let groupCount := group_count t in
  let groupedEntries := deal groupCount 0 (sortEntrySeeds entries) (replicate groupCount []) in
  concat (imap (λ groupIndex groupEntries, imap (group_row t groupIndex) groupEntries)
    groupedEntries).

(** ** The deal in closed form *)

(** Rank of the entry in slot [j] of group [g]. *)
Definition snake_rank (groupCount g j : nat) : nat :=
  (j * groupCount + (if Nat.even j then g else groupCount - g - 1))%nat.

Section deal.
Context (n : nat) (Hn : (0 < n)%nat).

Lemma snake_rank_div g j : (g < n)%nat → (snake_rank n g j / n = j)%nat.
Proof.
  intros Hg. unfold snake_rank. symmetry. eapply Nat.div_unique.
  2: { rewrite (Nat.mul_comm n). reflexivity. } case_match; lia.
Qed.

Lemma snake_group_rank g j : (g < n)%nat → snake_group n (snake_rank n g j) = g.
Proof.
  intros Hg. unfold snake_group. rewrite snake_rank_div by done.
  assert (snake_rank n g j mod n = if Nat.even j then g else n - g - 1)%nat as ->.
  { unfold snake_rank. symmetry. eapply Nat.mod_unique.
    2: { rewrite (Nat.mul_comm n). reflexivity. } case_match; lia. }
  case_match; lia.
Qed.

Lemma snake_group_lt i : (snake_group n i < n)%nat.
Proof.
  unfold snake_group. pose proof (Nat.mod_upper_bound i n). case_match; lia.
Qed.

Lemma snake_rank_group i : snake_rank n (snake_group n i) (i / n) = i.
Proof.
  unfold snake_rank, snake_group. pose proof (Nat.div_mod_eq i n).
  pose proof (Nat.mod_upper_bound i n). case_match; lia.
Qed.

(** After dealing the first [k] of [all], slot [j] of group [g] holds the entry of rank
    [snake_rank n g j] if that one was dealt already. *)
Definition dealt {A} (all : list A) (k : nat) (groups : list (list A)) : Prop :=
  length groups = n ∧
  ∀ g l, groups !! g = Some l →
    ∀ j, l !! j = if (snake_rank n g j <? k)%nat then all !! snake_rank n g j else None.

Lemma dealt_length {A} (all : list A) k groups g l :
  (k ≤ length all)%nat → dealt all k groups → groups !! g = Some l →
  ∀ j, (j < length l)%nat ↔ (snake_rank n g j < k)%nat.
Proof.
  intros Hk [_ Hd] Hg j. rewrite <-lookup_lt_is_Some, (Hd _ _ Hg j).
  destruct (Nat.ltb_spec (snake_rank n g j) k) as [Hlt|Hge].
  - split; [done|]. intros _. apply lookup_lt_is_Some. lia.
  - split; [by intros []|lia].
Qed.

Lemma dealt_step {A} (all : list A) k groups e :
  all !! k = Some e → dealt all k groups →
  dealt all (S k) (alter (λ g, g ++ [e]) (snake_group n k) groups).
Proof.
  intros He Hd. pose proof Hd as [Hlen Hlk].
  assert (k < length all)%nat by (by eapply lookup_lt_Some).
  split; [by rewrite length_alter|]. intros g l Hg j.
  destruct (decide (g = snake_group n k)) as [->|Hne].
  - rewrite list_lookup_alter_eq in Hg. apply fmap_Some in Hg as (l0 & Hl0 & ->).
    pose proof (dealt_length all k groups _ l0 ltac:(lia) Hd Hl0) as Hll.
    assert (length l0 = k / n)%nat as Hl0len.
    { pose proof (snake_rank_group k). pose proof (snake_group_lt k).
      assert (∀ j, (j < k / n)%nat → (snake_rank n (snake_group n k) j < k)%nat) as Hmono.
      { intros j' Hj'. destruct (Nat.lt_ge_cases (snake_rank n (snake_group n k) j') k); [done|].
        pose proof (Nat.Div0.div_le_mono k (snake_rank n (snake_group n k) j') n ltac:(done)).
        rewrite snake_rank_div in *; lia. }
      assert (¬ (k / n < length l0)%nat) by (rewrite Hll; lia).
      destruct (Nat.lt_ge_cases (length l0) (k / n)); [|lia].
      specialize (Hmono (length l0) ltac:(lia)). apply Hll in Hmono. lia. }
    destruct (decide (j = k / n)%nat) as [->|Hj].
    + rewrite lookup_app_r, Hl0len, Nat.sub_diag by lia. rewrite snake_rank_group. simpl.
      destruct (Nat.ltb_spec k (S k)); [done|lia].
    + assert (snake_rank n (snake_group n k) j ≠ k).
      { intros Heq. apply Hj. rewrite <-Heq.
        symmetry. apply snake_rank_div, snake_group_lt. }
      trans (l0 !! j).
      { destruct (decide (j < length l0)%nat); [by rewrite lookup_app_l|].
        rewrite lookup_app_r by lia. rewrite (lookup_ge_None_2 l0) by lia.
        apply lookup_ge_None_2. simpl. lia. }
      rewrite (Hlk _ _ Hl0).
      destruct (Nat.ltb_spec (snake_rank n (snake_group n k) j) k),
        (Nat.ltb_spec (snake_rank n (snake_group n k) j) (S k)); try done; lia.
  - rewrite list_lookup_alter_ne in Hg by done. rewrite (Hlk _ _ Hg).
    assert (snake_rank n g j ≠ k).
    { intros Heq. apply Hne. rewrite <-Heq. symmetry. apply snake_group_rank.
      rewrite <-Hlen. by eapply lookup_lt_Some. }
    destruct (Nat.ltb_spec (snake_rank n g j) k), (Nat.ltb_spec (snake_rank n g j) (S k));
      try done; lia.
Qed.

Lemma deal_dealt {A} (all : list A) pre post groups :
  all = pre ++ post → dealt all (length pre) groups →
  dealt all (length all) (deal n (length pre) post groups).
Proof.
  revert pre groups. induction post as [|e post IH]; intros pre groups Hall Hd; simpl.
  - subst all. by rewrite app_nil_r in *.
  - specialize (IH (pre ++ [e])). rewrite length_app, Nat.add_1_r in IH.
    apply IH; [by rewrite <-app_assoc|]. apply dealt_step; [|done].
    rewrite Hall. apply list_lookup_middle. done.
Qed.

Lemma deal_all_dealt {A} (all : list A) : dealt all (length all) (deal n 0 all (replicate n [])).
Proof.
  apply (deal_dealt all [] all); [done|]. split; [apply length_replicate|].
  intros g l [-> _]%lookup_replicate j. simpl. done.
Qed.

Lemma deal_perm {A} (index : nat) (entries : list A) groups :
  length groups = n → concat (deal n index entries groups) ≡ₚ concat groups ++ entries.
Proof.
  revert index groups. induction entries as [|e entries IH]; intros index groups Hlen; simpl.
  - by rewrite app_nil_r.
  - rewrite IH by (by rewrite length_alter).
    assert (concat (alter (λ g, g ++ [e]) (snake_group n index) groups)
            ≡ₚ concat groups ++ [e]) as ->.
    { assert (snake_group n index < length groups)%nat as Hlt
        by (rewrite Hlen; apply snake_group_lt).
      revert Hlt.
      generalize (snake_group n index). clear.
      induction groups as [|g groups IH]; intros i Hi; simpl in *; [lia|].
      destruct i as [|i]; simpl.
      - rewrite <-!app_assoc. f_equiv. apply Permutation_app_comm.
      - change (list_alter ?f i groups) with (alter f i groups).
        rewrite (IH i) by lia. by rewrite app_assoc. }
    by rewrite <-app_assoc.
Qed.
End deal.

(** ** Properties *)

Lemma group_count_pos t : (0 < group_count t)%nat.
Proof. unfold group_count. lia. Qed.

Lemma concat_imap_fmap {A B C} (f : nat → nat → A → B) (h : B → C) (h' : A → C) (ls : list (list A)) :
  (∀ i j x, h (f i j x) = h' x) →
  h <$> concat (imap (λ i l, imap (f i) l) ls) = h' <$> concat ls.
Proof.
  intros Hh. revert f Hh. induction ls as [|l ls IH]; intros f Hh; simpl; [done|].
  rewrite !fmap_app. f_equal; [|by apply (IH (λ i, f (S i)))].
  clear IH. generalize (f 0%nat) (Hh 0%nat). clear.
  induction l as [|x l IH]; intros f Hf; simpl; [done|]. f_equal; [done|].
  by apply (IH (λ j, f (S j))).
Qed.

(** Membership in the flattened table of rows. *)
Lemma elem_of_concat_imap {A B} (f : nat → nat → A → B) (ls : list (list A)) (b : B) :
  b ∈ concat (imap (λ i l, imap (f i) l) ls) ↔
  ∃ i j l x, ls !! i = Some l ∧ l !! j = Some x ∧ b = f i j x.
Proof.
  rewrite list_elem_of_In, in_concat. split.
  - intros (rs & Hrs & Hb). apply list_elem_of_In, list_elem_of_lookup in Hrs as [i Hi].
    apply list_elem_of_In, list_elem_of_lookup in Hb as [j Hj].
    rewrite list_lookup_imap in Hi. apply fmap_Some in Hi as (l & Hl & ->).
    rewrite list_lookup_imap in Hj. apply fmap_Some in Hj as (x & Hx & ->). eauto 8.
  - intros (i & j & l & x & Hl & Hx & ->). exists (imap (f i) l). split.
    + apply list_elem_of_In, list_elem_of_lookup. exists i. by rewrite list_lookup_imap, Hl.
    + apply list_elem_of_In, list_elem_of_lookup. exists j. by rewrite list_lookup_imap, Hx.
Qed.

(** The draw is the snake draft of the seeding order: the table contains a row for slot
    [j + 1] of group [g + 1] exactly when an entry of rank [j * groups + g] (even slots) or
    [j * groups + groups - 1 - g] (odd slots) exists, and that row carries this entry. *)
Theorem buildGroupRows_snake (t : TournamentConfig) (entries : list EntrySeed) (row : GroupRow) :
  row ∈ buildGroupRows t entries ↔
  ∃ g j entry, (g < group_count t)%nat ∧
    sortEntrySeeds entries !! snake_rank (group_count t) g j = Some entry ∧
    row = group_row t g j entry.
Proof.
  unfold buildGroupRows. rewrite elem_of_concat_imap.
  pose proof (deal_all_dealt (group_count t) (group_count_pos t) (sortEntrySeeds entries))
    as [Hlen Hlk].
  split.
  - intros (g & j & l & x & Hg & Hj & ->). exists g, j, x. split_and!; [| |done].
    + rewrite <-Hlen. by eapply lookup_lt_Some.
    + rewrite (Hlk _ _ Hg) in Hj. by case_match.
  - intros (g & j & x & Hg & Hx & ->).
    destruct (lookup_lt_is_Some_2 (deal (group_count t) 0 (sortEntrySeeds entries)
      (replicate (group_count t) [])) g) as [l Hl]; [lia|].
    exists g, j, l, x. split_and!; [done| |done].
    rewrite (Hlk _ _ Hl). apply lookup_lt_Some in Hx as Hlt.
    by rewrite (proj2 (Nat.ltb_lt _ _) Hlt).
Qed.

Lemma filter_imap_const (t : TournamentConfig) (k i : nat) (l : list EntrySeed) :
  length (filter (λ r, gr_group_id r = k) (imap (group_row t i) l))
  = if decide (i + 1 = k)%nat then length l else 0%nat.
Proof.
  assert (∀ f : nat → nat, length (filter (λ r, gr_group_id r = k)
    (imap (λ j, group_row t i (f j)) l)) = if decide (i + 1 = k)%nat then length l else 0%nat)
    as Hgen; [|apply (Hgen (λ j, j))].
  induction l as [|x l IH]; intros f; simpl; [by case_decide|].
  rewrite filter_cons. simpl. specialize (IH (λ j, f (S j))). unfold compose in *.
  revert IH. case_decide; intros IH; simpl; by rewrite IH.
Qed.

Lemma filter_concat_imap_row t g (ls : list (list EntrySeed)) l :
  ls !! g = Some l →
  length (filter (λ r, gr_group_id r = (g + 1)%nat)
    (concat (imap (λ i l, imap (group_row t i) l) ls))) = length l.
Proof.
  assert (∀ f : nat → nat, (∀ i j, f i = f j → i = j) → ls !! g = Some l →
    length (filter (λ r, gr_group_id r = (f g + 1)%nat)
      (concat (imap (λ i l, imap (group_row t (f i)) l) ls))) = length l) as Hgen.
  { revert g. induction ls as [|k ls IH]; intros g f Hf Hg; [done|].
    simpl. rewrite filter_app, length_app, filter_imap_const.
    destruct g as [|g]; simplify_eq/=.
    - rewrite decide_True by done.
      assert (∀ h : nat → nat, (∀ i, h i ≠ f 0%nat) →
        length (filter (λ r, gr_group_id r = (f 0 + 1)%nat)
          (concat (imap (λ i l0, imap (group_row t (h i)) l0) ls))) = 0%nat) as Hz.
      { clear. induction ls as [|k ls IH]; intros h Hh; simpl; [done|].
        rewrite filter_app, length_app, filter_imap_const.
        rewrite decide_False by (intros ?; apply (Hh 0%nat); lia).
        apply (IH (λ i, h (S i))). done. }
      assert (∀ i, f (S i) ≠ f 0%nat) as Hf0 by (intros i Hi%Hf; lia).
      pose proof (Hz (λ i, f (S i)) Hf0) as Hz0. etrans; [|apply Nat.add_0_r].
      f_equal. exact Hz0.
    - rewrite decide_False; [|intros Heq; assert (f 0 = f (S g))%nat as ?%Hf by lia; lia].
      apply (IH g (λ i, f (S i))); [|done]. intros i j Hij%Hf. lia. }
  intros Hg. apply (Hgen (λ i, i)); done.
Qed.

Lemma buildGroupRows_entries (t : TournamentConfig) (entries : list EntrySeed) :
  (gr_entry_id <$> buildGroupRows t entries) ≡ₚ (es_entryId <$> entries).
Proof.
  pose proof (group_count_pos t) as Hpos.
  unfold buildGroupRows. rewrite (concat_imap_fmap _ _ es_entryId) by done.
  rewrite deal_perm by (done || apply length_replicate).
  assert (∀ m, concat (replicate m (@nil EntrySeed)) = []) as ->
    by (intros m; by induction m).
  apply fmap_Permutation, js_sort_perm.
Qed.

(** The draw is a balanced partition: every entry of the roster gets exactly one row, and
    each of the groups receives either [floor] or [ceil] of [entries / groups] of them. *)
Theorem buildGroupRows_balanced (t : TournamentConfig) (entries : list EntrySeed) :
  (gr_entry_id <$> buildGroupRows t entries) ≡ₚ (es_entryId <$> entries) ∧
  ∀ g, (g < group_count t)%nat →
    let size := length (filter (λ r, gr_group_id r = (g + 1)%nat) (buildGroupRows t entries)) in
    (length entries / group_count t ≤ size ≤
     (length entries + group_count t - 1) / group_count t)%nat.
Proof.
  pose proof (group_count_pos t) as Hpos. split.
  - apply buildGroupRows_entries.
  - intros g Hg size. subst size.
    pose proof (deal_all_dealt (group_count t) Hpos (sortEntrySeeds entries)) as Hd.
    pose proof Hd as [Hlen _].
    destruct (lookup_lt_is_Some_2 (deal (group_count t) 0 (sortEntrySeeds entries)
      (replicate (group_count t) [])) g) as [l Hl]; [lia|].
    assert (length (filter (λ r, gr_group_id r = (g + 1)%nat) (buildGroupRows t entries))
            = length l) as ->.
    { unfold buildGroupRows. apply filter_concat_imap_row. done. }
    pose proof (dealt_length _ Hpos _ _ _ _ _ (le_n _) Hd Hl) as Hll.
    unfold sortEntrySeeds in Hll. rewrite length_js_sort in Hll.
    split.
    + destruct (Nat.le_gt_cases (length entries / group_count t) (length l)); [done|exfalso].
      pose proof (Nat.mul_div_le (length entries) (group_count t)).
      specialize (Hll (length l)). unfold snake_rank in Hll. case_match; nia.
    + apply Nat.div_le_lower_bound; [lia|].
      destruct (length l) as [|k]; [lia|]. specialize (Hll k).
      unfold snake_rank in Hll. case_match; nia.
Qed.
