(* ===== verification/Bracket.v ===== *)
(** * Knockout bracket ([buildKnockoutRows] of [src/domain/tournament.ts])

    [bracketSize / 2 ** round] is exact for every round up to [log2 bracketSize], which is the
    number of rounds the planner stores ([Planner.v]); one round further the division still gives
    the loop bound below, and only later rounds would leave the integers. *)

From S2P Require Import Prelude JsCollections Tournament Seeding.

(** src: src/domain/tournament.ts:190-199 KnockoutMatchRow *)
Record KnockoutMatchRow := mkMatchRow {
  km_tournament_id : Z;
  km_round : Z;
  km_started_event_id : Z;
  km_ended_event_id : Z;
  km_match_id : Z;
  km_next_match_id : option Z;
  km_home_entry_id : option Z;
  km_away_entry_id : option Z;
}.

(** src: src/domain/tournament.ts:201-208 KnockoutResultRow *)
Record KnockoutResultRow := mkResultRow {
  kr_tournament_id : Z;
  kr_event_id : Z;
  kr_match_id : Z;
  kr_play_against_id : Z;
  kr_home_entry_id : option Z;
  kr_away_entry_id : option Z;
}.

(** The loop that fills [roundStartIds].
    src: src/domain/tournament.ts:621-624 buildKnockoutRows *)
Fixpoint round_starts (rounds : nat) (round nextMatchId bracketSize : Z) : list Z :=
  match rounds with
  | O => []
  | S rounds' =>
      nextMatchId ::
        round_starts rounds' (round + 1) (nextMatchId + bracketSize / 2 ^ round) bracketSize
  end.

(** Iterations of [for (index = 0; index < bracketSize / 2 ** round; index += 1)].
    src: src/domain/tournament.ts:630-630 buildKnockoutRows *)
Definition matches_in_round (bracketSize round : Z) : Z :=
  (bracketSize + 2 ^ round - 1) / 2 ^ round.

(** src: src/domain/tournament.ts:638-638 buildKnockoutRows *)
Definition seeded_pair (seededRoundOne : option (list SeedPair)) (round index : Z)
    : option SeedPair :=
  if round =? 1 then seededRoundOne ≫= λ l, l !! Z.to_nat index else None.

(** src: src/domain/tournament.ts:640-649 buildKnockoutRows *)
Definition ko_match (t : TournamentConfig) (seeded : option SeedPair)
    (round startedEventId endedEventId matchId index : Z) (nextRoundStart : option Z)
    : KnockoutMatchRow :=
  {| km_tournament_id := t_id t;
     km_round := round;
     km_started_event_id := startedEventId;
     km_ended_event_id := endedEventId;
     km_match_id := matchId;
     km_next_match_id := (λ n, n + index / 2) <$> nextRoundStart;
     km_home_entry_id := seeded ≫= sp_homeEntryId;
     km_away_entry_id := seeded ≫= sp_awayEntryId |}.

(** src: src/domain/tournament.ts:651-661 buildKnockoutRows *)
Definition ko_leg (t : TournamentConfig) (seeded : option SeedPair)
    (startedEventId matchId leg : Z) : KnockoutResultRow :=
  let swap := leg mod 2 =? 1 in
  {| kr_tournament_id := t_id t;
     kr_event_id := startedEventId + leg;
     kr_match_id := matchId;
     kr_play_against_id := leg + 1;
     kr_home_entry_id := seeded ≫= λ s, if swap then sp_awayEntryId s else sp_homeEntryId s;
     kr_away_entry_id := seeded ≫= λ s, if swap then sp_homeEntryId s else sp_awayEntryId s |}.

(** src: src/domain/tournament.ts:604-666 buildKnockoutRows *)
Definition buildKnockoutRows (t : TournamentConfig) (seededRoundOne : option (list SeedPair))
    : list KnockoutMatchRow * list KnockoutResultRow :=
  let teamCount := nullish (t_knockoutTeamNum t) 0 in
  let eventNum := nullish (t_knockoutEventNum t) 0 in
  let playAgainstNum := nullish (t_knockoutPlayAgainstNum t) 1 in
  let knockoutStart := nullish (t_knockoutStartedEventId t) 0 in
  if (teamCount <? 2) || (eventNum <? 1) || (knockoutStart <? 1) then ([], []) else
  let bracketSize := nextPowerOfTwo teamCount in
  let roundStartIds := round_starts (Z.to_nat eventNum) 1 1 bracketSize in
  let per_round {R} (row : Z → Z → Z → Z → option Z → list R) : list R :=
    flat_map (λ round,
      let roundStart := roundStartIds !!! Z.to_nat (round - 1) in
      let nextRoundStart :=
        if round <? eventNum then Some (roundStartIds !!! Z.to_nat round) else None in
      let startedEventId := knockoutStart + (round - 1) * playAgainstNum in
      flat_map (λ index, row round startedEventId (roundStart + index) index nextRoundStart)
        (seqZ 0 (matches_in_round bracketSize round)))
      (seqZ 1 eventNum) in
  (per_round (λ round startedEventId matchId index nextRoundStart,
     [ko_match t (seeded_pair seededRoundOne round index) round startedEventId
        (startedEventId + playAgainstNum - 1) matchId index nextRoundStart]),
   per_round (λ round startedEventId matchId index nextRoundStart,
     map (ko_leg t (seeded_pair seededRoundOne round index) startedEventId matchId)
       (seqZ 0 playAgainstNum))).

(** The rows a match is fed by. *)
Definition feeders (ms : list KnockoutMatchRow) (id : Z) : list KnockoutMatchRow :=
  filter (λ m, km_next_match_id m = Some id) ms.

(** Leg [leg] of a match, from the match row. *)
Definition leg_of (m : KnockoutMatchRow) (leg : Z) : KnockoutResultRow :=
  let home_first := leg mod 2 =? 0 in
  {| kr_tournament_id := km_tournament_id m;
     kr_event_id := km_started_event_id m + leg;
     kr_match_id := km_match_id m;
     kr_play_against_id := leg + 1;
     kr_home_entry_id := if home_first then km_home_entry_id m else km_away_entry_id m;
     kr_away_entry_id := if home_first then km_away_entry_id m else km_home_entry_id m |}.

(** ** Closed form of a bracket of [2 ^ L] slots *)

(** First match id of round [r]. *)
Definition round_start (L r : Z) : Z := 2 ^ L - 2 ^ (L - r + 1) + 1.

Lemma pow_div L r : 0 ≤ r ≤ L → 2 ^ L / 2 ^ r = 2 ^ (L - r).
Proof. intros. symmetry. apply Z.pow_sub_r; lia. Qed.

Lemma matches_in_round_pow L r : 0 ≤ r ≤ L → matches_in_round (2 ^ L) r = 2 ^ (L - r).
Proof.
  intros. unfold matches_in_round. pose proof (Z.pow_pos_nonneg 2 r).
  assert (2 ^ L = 2 ^ (L - r) * 2 ^ r) as HL by (rewrite <-Z.pow_add_r by lia; f_equal; lia).
  replace (2 ^ L + 2 ^ r - 1) with (2 ^ (L - r) * 2 ^ r + (2 ^ r - 1)) by lia.
  rewrite Z.div_add_l, Z.div_small by lia. lia.
Qed.

Lemma round_start_succ L r : 1 ≤ r ≤ L → round_start L r + 2 ^ (L - r) = round_start L (r + 1).
Proof.
  intros. unfold round_start.
  replace (L - r + 1) with (Z.succ (L - r)) by lia. rewrite Z.pow_succ_r by lia.
  replace (L - (r + 1) + 1) with (L - r) by lia. lia.
Qed.

Lemma round_starts_lookup L (n : nat) r (i : nat) :
  1 ≤ r → r + Z.of_nat n - 1 ≤ L → (i < n)%nat →
  round_starts n r (round_start L r) (2 ^ L) !! i = Some (round_start L (r + Z.of_nat i)).
Proof.
  revert r i. induction n as [|n IH]; intros r i Hr Hn Hi; [lia|]. simpl.
  destruct i as [|i]; simpl.
  - by rewrite Z.add_0_r.
  - rewrite pow_div, round_start_succ by lia. rewrite IH by lia. f_equal. f_equal. lia.
Qed.

Lemma round_starts_total L r :
  1 ≤ r ≤ L → round_starts (Z.to_nat L) 1 1 (2 ^ L) !!! Z.to_nat (r - 1) = round_start L r.
Proof.
  intros Hr. apply list_lookup_total_correct.
  pose proof (round_starts_lookup L (Z.to_nat L) 1 (Z.to_nat (r - 1))) as H.
  assert (round_start L 1 = 1) as H1 by (unfold round_start; replace (L - 1 + 1) with L by lia; lia).
  rewrite H1 in H. rewrite H by lia. f_equal. f_equal. lia.
Qed.

(** A configuration whose knockout stage has as many rounds as its bracket needs. *)
Record bracket_config (t : TournamentConfig) (tc start legs : Z) : Prop := {
  bc_teams : t_knockoutTeamNum t = Some tc;
  bc_two : 2 ≤ tc;
  bc_rounds : t_knockoutEventNum t = Some (Z.log2_up tc);
  bc_start : t_knockoutStartedEventId t = Some start;
  bc_start_pos : 1 ≤ start;
  bc_legs : t_knockoutPlayAgainstNum t = Some legs;
  bc_legs_pos : 1 ≤ legs;
}.

Section bracket.
Context (t : TournamentConfig) (tc start legs : Z) (Hbc : bracket_config t tc start legs).
Context (seeded : option (list SeedPair)).
Notation L := (Z.log2_up tc).

Lemma bracket_L_pos : 1 ≤ L.
Proof. pose proof (bc_two _ _ _ _ Hbc). pose proof (Z.log2_up_pos tc). lia. Qed.

Lemma bracket_size : nextPowerOfTwo tc = 2 ^ L.
Proof.
  pose proof (bc_two _ _ _ _ Hbc). unfold nextPowerOfTwo. destruct (Z.leb_spec tc 0); [lia|done].
Qed.

Definition closed_round {R} (row : Z → Z → Z → Z → option Z → list R) (round : Z) : list R :=
  flat_map (λ index, row round (start + (round - 1) * legs) (round_start L round + index) index
    (if round <? L then Some (round_start L (round + 1)) else None)) (seqZ 0 (2 ^ (L - round))).

Lemma buildKnockoutRows_closed :
  buildKnockoutRows t seeded =
  (flat_map (closed_round (λ round startedEventId matchId index nextRoundStart,
     [ko_match t (seeded_pair seeded round index) round startedEventId
        (startedEventId + legs - 1) matchId index nextRoundStart])) (seqZ 1 L),
   flat_map (closed_round (λ round startedEventId matchId index nextRoundStart,
     map (ko_leg t (seeded_pair seeded round index) startedEventId matchId)
       (seqZ 0 legs))) (seqZ 1 L)).
Proof.
  destruct Hbc as [Ht Htwo Hr Hs Hs1 Hl Hl1]. pose proof bracket_L_pos.
  unfold buildKnockoutRows. rewrite Ht, Hr, Hs, Hl. unfold nullish. simpl default.
  destruct (Z.ltb_spec tc 2), (Z.ltb_spec L 1), (Z.ltb_spec start 1); try lia.
  simpl orb. cbv iota zeta. rewrite bracket_size.
  f_equal; apply flat_map_ext_in; intros r Hr'%elem_of_seqZ; unfold closed_round;
    rewrite matches_in_round_pow, round_starts_total by lia;
    (destruct (Z.ltb_spec r L);
      [ replace (Z.to_nat r) with (Z.to_nat (r + 1 - 1)) by lia;
        rewrite ?round_starts_total by lia | ]); done.
Qed.

Lemma elem_of_closed {R} (row : Z → Z → Z → Z → option Z → list R) x :
  x ∈ flat_map (closed_round row) (seqZ 1 L) ↔
  ∃ round index, 1 ≤ round ≤ L ∧ 0 ≤ index < 2 ^ (L - round) ∧
    x ∈ row round (start + (round - 1) * legs) (round_start L round + index) index
      (if round <? L then Some (round_start L (round + 1)) else None).
Proof.
  rewrite list_elem_of_In, in_flat_map. split.
  - intros (r & Hr%list_elem_of_In%elem_of_seqZ & Hx). unfold closed_round in Hx.
    apply in_flat_map in Hx as (i & Hi%list_elem_of_In%elem_of_seqZ & Hx%list_elem_of_In).
    exists r, i. split_and!; [lia..|done].
  - intros (r & i & Hr & Hi & Hx). exists r. split.
    + apply list_elem_of_In, elem_of_seqZ. lia.
    + apply in_flat_map. exists i. split; [apply list_elem_of_In, elem_of_seqZ; lia|].
      by apply list_elem_of_In.
Qed.

(** A match of the bracket, by round and index. *)
Lemma elem_of_matches m :
  m ∈ (buildKnockoutRows t seeded).1 ↔
  ∃ round index, 1 ≤ round ≤ L ∧ 0 ≤ index < 2 ^ (L - round) ∧
    m = ko_match t (seeded_pair seeded round index) round (start + (round - 1) * legs)
          (start + round * legs - 1) (round_start L round + index) index
          (if round <? L then Some (round_start L (round + 1)) else None).
Proof.
  rewrite buildKnockoutRows_closed. simpl. rewrite elem_of_closed.
  split; intros (r & i & Hr & Hi & Hm); exists r, i; (split_and!; [lia..|]).
  - apply list_elem_of_singleton in Hm as ->. f_equal. lia.
  - apply list_elem_of_singleton. rewrite Hm. f_equal. lia.
Qed.

Lemma match_ids_prefix k :
  0 ≤ k ≤ L →
  km_match_id <$> flat_map (closed_round (λ round startedEventId matchId index nextRoundStart,
     [ko_match t (seeded_pair seeded round index) round startedEventId
        (startedEventId + legs - 1) matchId index nextRoundStart])) (seqZ 1 k)
  = seqZ 1 (2 ^ L - 2 ^ (L - k)).
Proof.
  intros Hk. rewrite <-(Z2Nat.id k) in * by lia. revert Hk. generalize (Z.to_nat k). clear k.
  induction n as [|n IH]; intros Hn.
  - simpl Z.of_nat. rewrite Z.sub_0_r, Z.sub_diag. done.
  - rewrite Nat2Z.inj_succ, <-Z.add_1_r, seqZ_app, flat_map_app_distr, fmap_app, IH by lia.
    simpl flat_map. rewrite app_nil_r.
    set (r := 1 + Z.of_nat n).
    assert (∀ (g : Z → KnockoutMatchRow) l,
      km_match_id <$> flat_map (λ i, [g i]) l = (λ i, km_match_id (g i)) <$> l) as Hfm.
    { intros g l. induction l as [|x l IHl]; simpl; [done|]. f_equal. exact IHl. }
    unfold closed_round. cbv beta. rewrite Hfm. simpl km_match_id.
    change (Z.of_nat 0 + r) with r.
    assert (seqZ (round_start L r) (2 ^ (L - r))
      = (λ i, round_start L r + i) <$> seqZ 0 (2 ^ (L - r))) as <-.
    { rewrite fmap_add_seqZ. f_equal. lia. }
    unfold round_start. replace (L - r + 1) with (L - Z.of_nat n) by lia.
    replace (2 ^ L - 2 ^ (L - Z.of_nat n) + 1) with (1 + (2 ^ L - 2 ^ (L - Z.of_nat n))) by lia.
    assert (2 ^ (L - Z.of_nat n) = 2 * 2 ^ (L - r)) as Hd.
    { rewrite <-Z.pow_succ_r by lia. f_equal. lia. }
    assert (2 ^ (L - Z.of_nat n) ≤ 2 ^ L) by (apply Z.pow_le_mono_r; lia).
    pose proof (Z.pow_pos_nonneg 2 (L - r)).
    rewrite <-seqZ_app by lia. f_equal.
    replace (L - (Z.of_nat n + 1)) with (L - r) by lia. lia.
Qed.
End bracket.

Lemma round_start_parity L r index :
  1 ≤ r ≤ L → (round_start L r + index) mod 2 = (index + 1) mod 2.
Proof.
  intros Hr. unfold round_start.
  replace (2 ^ L) with (2 ^ (L - 1) * 2) by (rewrite Z.mul_comm, <-Z.pow_succ_r by lia; f_equal; lia).
  replace (2 ^ (L - r + 1)) with (2 ^ (L - r) * 2)
    by (rewrite Z.mul_comm, <-Z.pow_succ_r by lia; f_equal; lia).
  replace (2 ^ (L - 1) * 2 - 2 ^ (L - r) * 2 + 1 + index)
    with (index + 1 + (2 ^ (L - 1) - 2 ^ (L - r)) * 2) by lia.
  apply Z.mod_add. lia.
Qed.

(** The next match in terms of the match id alone. *)
Lemma next_match_closed L r index :
  1 ≤ r < L → 0 ≤ index →
  round_start L (r + 1) + index / 2 = 2 ^ (L - 1) + (round_start L r + index + 1) / 2.
Proof.
  intros Hr Hi. unfold round_start.
  assert (2 ^ L = 2 ^ (L - 1) * 2) as HL
    by (rewrite Z.mul_comm, <-Z.pow_succ_r by lia; f_equal; lia).
  assert (2 ^ (L - r + 1) = 2 ^ (L - r) * 2) as Hr'
    by (rewrite Z.mul_comm, <-Z.pow_succ_r by lia; f_equal; lia).
  replace (L - (r + 1) + 1) with (L - r) by lia. rewrite HL, Hr'.
  replace (2 ^ (L - 1) * 2 - 2 ^ (L - r) * 2 + 1 + index + 1)
    with (index + (2 ^ (L - 1) - 2 ^ (L - r) + 1) * 2) by lia.
  rewrite Z.div_add by lia. lia.
Qed.

Section bracket_properties.
Context (t : TournamentConfig) (tc start legs : Z) (Hbc : bracket_config t tc start legs).
Context (seeded : option (list SeedPair)).
Notation L := (Z.log2_up tc).
Notation ms := ((buildKnockoutRows t seeded).1).
Notation rs := ((buildKnockoutRows t seeded).2).

Lemma match_ids_seq : km_match_id <$> ms = seqZ 1 (nextPowerOfTwo tc - 1).
Proof.
  rewrite (buildKnockoutRows_closed _ _ _ _ Hbc). simpl.
  rewrite match_ids_prefix by (pose proof (bracket_L_pos _ _ _ _ Hbc); lia).
  rewrite (bracket_size _ _ _ _ Hbc), Z.sub_diag. done.
Qed.

Lemma match_id_inj m m' : m ∈ ms → m' ∈ ms → km_match_id m = km_match_id m' → m = m'.
Proof.
  intros. apply (NoDup_fmap_inj_in km_match_id ms); try done.
  rewrite match_ids_seq. apply NoDup_seqZ.
Qed.

Lemma match_round_pos m : m ∈ ms → 1 ≤ km_round m ≤ L ∧ 1 ≤ km_match_id m ≤ 2 ^ L - 1.
Proof.
  intros Hm. split.
  - apply (elem_of_matches _ _ _ _ Hbc) in Hm as (r & i & Hr & Hi & ->). simpl. lia.
  - apply (list_elem_of_fmap_2 km_match_id) in Hm. rewrite match_ids_seq in Hm.
    rewrite (bracket_size _ _ _ _ Hbc) in Hm. apply elem_of_seqZ in Hm. lia.
Qed.

Lemma match_window m :
  m ∈ ms →
  1 ≤ km_round m ≤ L ∧ km_started_event_id m = start + (km_round m - 1) * legs ∧
  km_ended_event_id m = start + km_round m * legs - 1.
Proof. intros (r & i & Hr & Hi & ->)%(elem_of_matches _ _ _ _ Hbc). simpl. lia. Qed.

Lemma match_next m :
  m ∈ ms →
  km_next_match_id m = if km_round m <? L
    then Some (2 ^ (L - 1) + (km_match_id m + 1) / 2) else None.
Proof.
  intros (r & i & Hr & Hi & ->)%(elem_of_matches _ _ _ _ Hbc). simpl.
  destruct (Z.ltb_spec r L); simpl; [|done]. f_equal. apply next_match_closed; lia.
Qed.

Lemma match_round_of_id m :
  m ∈ ms → (km_round m < L ↔ km_match_id m < 2 ^ L - 1) ∧
           (1 < km_round m ↔ 2 ^ (L - 1) < km_match_id m).
Proof.
  intros (r & i & Hr & Hi & ->)%(elem_of_matches _ _ _ _ Hbc). simpl. unfold round_start.
  assert (2 ^ (L - r + 1) = 2 * 2 ^ (L - r)) as Hp by (rewrite <-Z.pow_succ_r by lia; f_equal; lia).
  assert (2 ^ L = 2 * 2 ^ (L - 1)) as HL by (rewrite <-Z.pow_succ_r by lia; f_equal; lia).
  split; split; intros Hlt.
  - assert (2 ^ 1 ≤ 2 ^ (L - r)) by (apply Z.pow_le_mono_r; lia). lia.
  - destruct (Z.eq_dec r L) as [->|]; [|lia].
    replace (L - L) with 0 in * by lia. simpl in *. lia.
  - assert (2 ^ (L - r + 1) ≤ 2 ^ (L - 1)) by (apply Z.pow_le_mono_r; lia). lia.
  - destruct (Z.eq_dec r 1) as [->|]; [|lia]. replace (L - 1 + 1) with L in * by lia. lia.
Qed.
Lemma match_successor m n :
  m ∈ ms → km_next_match_id m = Some n →
  ∃ m', m' ∈ ms ∧ km_match_id m' = n ∧ km_round m' = km_round m + 1.
Proof.
  intros (r & i & Hr & Hi & ->)%(elem_of_matches _ _ _ _ Hbc) Hn. simpl in Hn |- *.
  destruct (Z.ltb_spec r L); [|done]. simpl in Hn. simplify_eq.
  assert (2 ^ (L - r) = 2 * 2 ^ (L - (r + 1))) by (rewrite <-Z.pow_succ_r by lia; f_equal; lia).
  assert (0 ≤ i / 2 < 2 ^ (L - (r + 1)))
    by (split; [apply Z.div_pos; lia|apply Z.div_lt_upper_bound; lia]).
  exists (ko_match t (seeded_pair seeded (r + 1) (i / 2)) (r + 1) (start + (r + 1 - 1) * legs)
    (start + (r + 1) * legs - 1) (round_start L (r + 1) + i / 2) (i / 2)
    (if r + 1 <? L then Some (round_start L (r + 1 + 1)) else None)).
  split_and!; [|done..].
  apply (elem_of_matches _ _ _ _ Hbc). exists (r + 1), (i / 2). split_and!; [lia..|done].
Qed.

Lemma results_are_legs : rs = flat_map (λ m, leg_of m <$> seqZ 0 legs) ms.
Proof.
  rewrite (buildKnockoutRows_closed _ _ _ _ Hbc). simpl.
  rewrite flat_map_flat_map. apply flat_map_ext_in. intros r _. unfold closed_round.
  rewrite flat_map_flat_map. apply flat_map_ext_in. intros i _. simpl. rewrite app_nil_r.
  apply list_fmap_ext. intros _ leg _. unfold ko_leg, leg_of. simpl.
  destruct (Z.eqb_spec (leg mod 2) 1) as [Hodd|], (Z.eqb_spec (leg mod 2) 0); try divlia;
    f_equal; by destruct (seeded_pair seeded r i).
Qed.
End bracket_properties.

Lemma elem_of_flat_map_legs ms legs x :
  x ∈ flat_map (λ m, leg_of m <$> seqZ 0 legs) ms ↔
  ∃ m leg, m ∈ ms ∧ 0 ≤ leg < legs ∧ x = leg_of m leg.
Proof.
  rewrite list_elem_of_In, in_flat_map. split.
  - intros (m & Hm%list_elem_of_In & Hx%list_elem_of_In).
    apply list_elem_of_fmap in Hx as (leg & -> & Hleg%elem_of_seqZ).
    exists m, leg. split_and!; [done|lia..|done].
  - intros (m & leg & Hm & Hleg & ->). exists m. split; [by apply list_elem_of_In|].
    apply list_elem_of_In, list_elem_of_fmap. exists leg. rewrite elem_of_seqZ. split; [done|lia].
Qed.

Lemma NoDup_leg_keys ms legs :
  NoDup (km_match_id <$> ms) →
  NoDup ((λ x, (kr_match_id x, kr_play_against_id x)) <$>
    flat_map (λ m, leg_of m <$> seqZ 0 legs) ms).
Proof.
  induction ms as [|m ms IH]; simpl; [intros; constructor|].
  intros [Hm Hnd]%NoDup_cons. rewrite fmap_app, NoDup_app. split_and!.
  - rewrite <-list_fmap_compose. apply NoDup_fmap_2; [|apply NoDup_seqZ].
    intros i j Hij. unfold compose in Hij. simpl in Hij. injection Hij. lia.
  - intros [id pa] Hx Hy. apply Hm.
    apply list_elem_of_fmap in Hx as (? & Hx1 & Hx). apply list_elem_of_fmap in Hx as (i & -> & _).
    apply list_elem_of_fmap in Hy as (? & Hy1 & Hy).
    apply elem_of_flat_map_legs in Hy as (m' & j & Hm' & _ & ->).
    simpl in *. assert (km_match_id m = km_match_id m') as -> by congruence.
    by apply list_elem_of_fmap_2.
  - by apply IH.
Qed.

(** C5: The bracket is a complete single-elimination tree: its match ids are 1, 2, ...,
    [size - 1] in order, the final (the last id) has no successor, every other match leads into
    exactly one match of the next round, and every match after round one is fed by exactly two
    matches, the odd id [2 (id - size / 2) - 1] and the even id [2 (id - size / 2)] of the round
    before. *)
Theorem buildKnockoutRows_tree (t : TournamentConfig) (tc start legs : Z)
  (Hbc : bracket_config t tc start legs) (seeded : option (list SeedPair)) :
  let size := nextPowerOfTwo tc in
  let ms := (buildKnockoutRows t seeded).1 in
  (km_match_id <$> ms) = seqZ 1 (size - 1) ∧
  (∀ m, m ∈ ms → (km_next_match_id m = None ↔ km_match_id m = size - 1)) ∧
  (∀ m n, m ∈ ms → km_next_match_id m = Some n →
     ∃ m', m' ∈ ms ∧ km_match_id m' = n ∧ km_round m' = km_round m + 1) ∧
  (∀ m, m ∈ ms → 1 < km_round m →
     (km_match_id <$> feeders ms (km_match_id m))
       = [2 * (km_match_id m - size / 2) - 1; 2 * (km_match_id m - size / 2)]).
Proof.
  intros size ms. subst size. rewrite (bracket_size _ _ _ _ Hbc).
  pose proof (match_ids_seq _ _ _ _ Hbc seeded) as Hids.
  rewrite (bracket_size _ _ _ _ Hbc) in Hids. fold ms in Hids.
  pose proof (bracket_L_pos _ _ _ _ Hbc) as HL.
  set (L := Z.log2_up tc) in *.
  assert (2 ^ L = 2 * 2 ^ (L - 1)) as Hpow by (rewrite <-Z.pow_succ_r by lia; f_equal; lia).
  assert (2 ^ L / 2 = 2 ^ (L - 1)) as Hhalf by (rewrite Hpow, Z.mul_comm, Z.div_mul; lia).
  split_and!; [done| | |].
  - intros m Hm. rewrite (match_next _ _ _ _ Hbc _ _ Hm).
    pose proof (match_round_of_id _ _ _ _ Hbc _ _ Hm) as [Hr _].
    pose proof (match_round_pos _ _ _ _ Hbc _ _ Hm) as Hrp. fold L in Hr, Hrp |- *.
    destruct (Z.ltb_spec (km_round m) L); split; try done; try lia; intros; exfalso; lia.
  - intros m n. apply (match_successor _ _ _ _ Hbc).
  - intros m Hm Hr. rewrite Hhalf.
    pose proof (match_round_of_id _ _ _ _ Hbc _ _ Hm) as [_ Hr1].
    pose proof (match_round_pos _ _ _ _ Hbc _ _ Hm) as [_ Hid]. fold L in Hr1, Hid.
    unfold feeders.
    assert (∀ m', m' ∈ ms → km_next_match_id m' = Some (km_match_id m) ↔
      km_match_id m' = 2 * (km_match_id m - 2 ^ (L - 1)) - 1 ∨
      km_match_id m' = 2 * (km_match_id m - 2 ^ (L - 1))) as Hfeed.
    { intros m' Hm'. rewrite (match_next _ _ _ _ Hbc _ _ Hm'). fold L.
      pose proof (match_round_of_id _ _ _ _ Hbc _ _ Hm') as [Hr' _].
      pose proof (match_round_pos _ _ _ _ Hbc _ _ Hm') as Hrp. fold L in Hr', Hrp.
      destruct (Z.ltb_spec (km_round m') L); (split; [intros Heq; simplify_eq; divlia|intros Heq]).
      - f_equal. divlia.
      - lia. }
    rewrite (fmap_filter_iff km_match_id _ (λ y,
      y = 2 * (km_match_id m - 2 ^ (L - 1)) - 1 ∨ y = 2 * (km_match_id m - 2 ^ (L - 1)))) by done.
    rewrite Hids. rewrite (filter_seqZ_pair _ _ _ (2 * (km_match_id m - 2 ^ (L - 1)) - 1)).
    + f_equal. f_equal. lia.
    + lia.
    + lia.
    + intros y. split; intros; lia.
Qed.

Lemma buildKnockoutRows_tree_witness :
  let t := mkConfig (mkSyncContext 9 None None None 6 NoGroup (Some 1) (Some 1) None
             SingleElimination (Some 6) (Some 3) (Some 5) (Some 7) (Some 1)) (Some 1) in
  (km_match_id <$> (buildKnockoutRows t None).1) = [1; 2; 3; 4; 5; 6; 7].
Proof.
  intros t. apply (buildKnockoutRows_tree t 6 5 1).
  split; [reflexivity|lia|reflexivity|reflexivity|lia|reflexivity|lia].
Defined.

(** Match windows follow each other: round [r] occupies the [legs] gameweeks from
    [start + (r - 1) * legs], so a match only starts after the matches feeding it have ended, and
    the final ends at [start + rounds * legs - 1]. *)
Theorem buildKnockoutRows_windows (t : TournamentConfig) (tc start legs : Z)
  (Hbc : bracket_config t tc start legs) (seeded : option (list SeedPair))
  (m : KnockoutMatchRow) (Hm : m ∈ (buildKnockoutRows t seeded).1) :
  let rounds := Z.log2_up tc in
  km_started_event_id m = start + (km_round m - 1) * legs ∧
  km_ended_event_id m = km_started_event_id m + legs - 1 ∧
  km_ended_event_id m ≤ start + rounds * legs - 1 ∧
  (km_next_match_id m = None → km_ended_event_id m = start + rounds * legs - 1) ∧
  (∀ m', m' ∈ (buildKnockoutRows t seeded).1 → km_next_match_id m = Some (km_match_id m') →
     km_ended_event_id m + 1 = km_started_event_id m').
Proof.
  intros rounds. pose proof (bc_legs_pos _ _ _ _ Hbc).
  pose proof (match_next _ _ _ _ Hbc _ _ Hm) as Hnext.
  pose proof (match_successor _ _ _ _ Hbc seeded) as Hsucc.
  pose proof Hm as (r & i & Hr & Hi & Heq)%(elem_of_matches _ _ _ _ Hbc).
  assert (km_round m = r ∧ km_started_event_id m = start + (r - 1) * legs ∧
    km_ended_event_id m = start + r * legs - 1) as (Hmr & -> & ->) by (by rewrite Heq).
  rewrite Hmr. split_and!; [done|lia|nia| |].
  - rewrite Hnext, Hmr. destruct (Z.ltb_spec r (Z.log2_up tc)); [done|]. intros _.
    unfold rounds. assert (r = Z.log2_up tc) as -> by lia. done.
  - intros m' Hm' Hn. destruct (Hsucc _ _ Hm Hn) as (m'' & Hm'' & Hid & Hround).
    assert (m'' = m') as -> by (by apply (match_id_inj _ _ _ _ Hbc seeded)).
    apply (elem_of_matches _ _ _ _ Hbc) in Hm' as (r' & i' & Hr' & Hi' & ->). simpl in *. nia.
Qed.

Lemma buildKnockoutRows_windows_witness :
  let t := mkConfig (mkSyncContext 9 None None None 4 NoGroup (Some 1) (Some 1) None
             SingleElimination (Some 4) (Some 2) (Some 5) (Some 8) (Some 2)) (Some 1) in
  let m := mkMatchRow 9 2 7 8 3 None None None in
  km_ended_event_id m ≤ 5 + 2 * 2 - 1.
Proof.
  intros t m.
  refine (proj1 (proj2 (proj2 (buildKnockoutRows_windows t 4 5 2 _ None m _)))).
  - split; [reflexivity|lia|reflexivity|reflexivity|lia|reflexivity|lia].
  - apply list_elem_of_In. vm_compute. tauto.
Defined.

(** Every match has one result row per leg and there are no other result rows: leg [k]
    (counted from zero) is played in gameweek [start of the match + k] under
    [play_against_id = k + 1], the entrants of the match are at home in turn, and the pair
    (match id, play-against id) identifies the row. *)
Theorem buildKnockoutRows_legs (t : TournamentConfig) (tc start legs : Z)
  (Hbc : bracket_config t tc start legs) (seeded : option (list SeedPair)) :
  let ms := (buildKnockoutRows t seeded).1 in
  let rs := (buildKnockoutRows t seeded).2 in
  (∀ x, x ∈ rs ↔ ∃ m leg, m ∈ ms ∧ 0 ≤ leg < legs ∧ x = leg_of m leg) ∧
  NoDup ((λ x, (kr_match_id x, kr_play_against_id x)) <$> rs) ∧
  (∀ x y, x ∈ rs → y ∈ rs → kr_match_id x = kr_match_id y →
     kr_play_against_id y = kr_play_against_id x + 1 →
     kr_home_entry_id y = kr_away_entry_id x ∧ kr_away_entry_id y = kr_home_entry_id x ∧
     kr_event_id y = kr_event_id x + 1) ∧
  Z.of_nat (length rs) = (nextPowerOfTwo tc - 1) * legs.
Proof.
  intros ms rs. pose proof (bc_legs_pos _ _ _ _ Hbc) as Hlegs.
  pose proof (match_ids_seq _ _ _ _ Hbc seeded) as Hids. fold ms in Hids.
  assert (NoDup (km_match_id <$> ms)) as Hnd by (rewrite Hids; apply NoDup_seqZ).
  assert (∀ x, x ∈ rs ↔ ∃ m leg, m ∈ ms ∧ 0 ≤ leg < legs ∧ x = leg_of m leg) as Hrs.
  { intros x. unfold rs. rewrite (results_are_legs _ _ _ _ Hbc). apply elem_of_flat_map_legs. }
  split_and!; [done| | |].
  - unfold rs. rewrite (results_are_legs _ _ _ _ Hbc). by apply NoDup_leg_keys.
  - intros x y (m & i & Hm & Hi & ->)%Hrs (m' & j & Hm' & Hj & ->)%Hrs. simpl. intros Hid Hpa.
    assert (m' = m) as -> by (symmetry; by apply (match_id_inj _ _ _ _ Hbc seeded)).
    assert (j = i + 1) as -> by lia.
    destruct (Z.eqb_spec (i mod 2) 0), (Z.eqb_spec ((i + 1) mod 2) 0);
      try (exfalso; divlia); split_and!; done || lia.
  - unfold rs. rewrite (results_are_legs _ _ _ _ Hbc).
    rewrite (flat_map_length_const _ (Z.to_nat legs))
      by (intros; by rewrite length_fmap, length_seqZ).
    apply (f_equal length) in Hids. rewrite length_fmap, length_seqZ in Hids. fold ms.
    rewrite Hids. pose proof (Z.log2_up_pos tc). pose proof (bc_two _ _ _ _ Hbc).
    rewrite (bracket_size _ _ _ _ Hbc). pose proof (Z.pow_pos_nonneg 2 (Z.log2_up tc)).
    rewrite Nat2Z.inj_mul, !Z2Nat.id by lia. lia.
Qed.

Lemma buildKnockoutRows_legs_witness :
  let t := mkConfig (mkSyncContext 9 None None None 4 NoGroup (Some 1) (Some 1) None
             SingleElimination (Some 4) (Some 2) (Some 5) (Some 8) (Some 2)) (Some 1) in
  Z.of_nat (length (buildKnockoutRows t None).2) = 6.
Proof.
  intros t. refine (proj2 (proj2 (proj2 (buildKnockoutRows_legs t 4 5 2 _ None)))).
  split; [reflexivity|lia|reflexivity|reflexivity|lia|reflexivity|lia].
Defined.
