(* ===== verification/Planner.v ===== *)
(** * Tournament planner ([src/domain/tournament.ts])

    From the validated creation input to the structure plan: the input schema, the parsing of
    gameweeks, numbers and league URLs, and [planTournamentStructure] with every rejection in the
    order the code tests it.  The WHATWG [URL] parser and zod's [url()] check are not part of the
    repository and appear as parameters. *)

From S2P Require Import Prelude JsCollections JsNumber Seeding Tournament Bracket.

(** src: src/domain/tournament.ts:23-23 tournamentCreateInputSchema *)
Inductive ParticipantSource := Official | Custom.
(** src: src/domain/tournament.ts:33-33 tournamentCreateInputSchema *)
Inductive GroupFormat := GroupNone | GroupPoints.
(** src: src/domain/tournament.ts:38-38 tournamentCreateInputSchema *)
Inductive KnockoutFormat := KnockoutNone | KnockoutSingle | KnockoutDouble.

#[export] Instance ParticipantSource_eq_dec : EqDecision ParticipantSource.
Proof. solve_decision. Defined.
#[export] Instance GroupFormat_eq_dec : EqDecision GroupFormat.
Proof. solve_decision. Defined.
#[export] Instance KnockoutFormat_eq_dec : EqDecision KnockoutFormat.
Proof. solve_decision. Defined.

(** The input object; [tournamentType] is the constant ["standard"] and carries nothing.
    src: src/domain/tournament.ts:15-50 tournamentCreateInputSchema *)
Record TournamentCreateInput := mkInput {
  in_tournamentName : jsstr;
  in_adminId : jsstr;
  in_creator : jsstr;
  in_platformAdmin : option bool;
  in_participantSource : ParticipantSource;
  in_leagueUrl : jsstr;
  in_groupFormat : GroupFormat;
  in_startGameweek : jsstr;
  in_endGameweek : jsstr;
  in_groupNum : option jsstr;
  in_qualifiersPerGroup : option jsstr;
  in_knockoutFormat : KnockoutFormat;
  in_selectedParticipantIds : option (list jsstr);
  in_previewToken : option jsstr;
}.

(** src: src/domain/tournament.ts:108-114 TournamentParticipant *)
Record TournamentParticipant := mkParticipant {
  p_id : jsstr;
  p_team : jsstr;
  p_manager : jsstr;
  p_overallRank : Z;
  p_totalPoints : Z;
}.

(** src: src/domain/tournament.ts:291-319 TournamentStructurePlan *)
Record TournamentStructurePlan := mkPlan {
  pl_leagueId : Z;
  pl_leagueType : LeagueType;
  pl_sourceLeagueName : option jsstr;
  pl_rosterMode : TournamentRosterMode;
  pl_tournamentName : jsstr;
  pl_creator : jsstr;
  pl_adminEntryId : number;
  pl_selectedParticipants : list TournamentParticipant;
  pl_groupMode : GroupMode;
  pl_groupTeamNum : Z;
  pl_groupNum : Z;
  pl_groupAutoAverages : bool;
  pl_groupStartedEventId : Z;
  pl_groupEndedEventId : Z;
  pl_groupRounds : Z;
  pl_groupQualifyNum : option Z;
  pl_knockoutMode : KnockoutMode;
  pl_knockoutTeamNum : option Z;
  pl_knockoutEventNum : option Z;
  pl_knockoutRounds : option Z;
  pl_knockoutStartedEventId : option Z;
  pl_knockoutEndedEventId : option Z;
  pl_knockoutPlayAgainstNum : option Z;
}.

(** src: src/domain/tournament.ts:321-324 groupModeMap *)
Definition groupModeMap (f : GroupFormat) : GroupMode :=
  match f with GroupNone => NoGroup | GroupPoints => PointsRaces end.

(** src: src/domain/tournament.ts:326-330 knockoutModeMap *)
Definition knockoutModeMap (f : KnockoutFormat) : KnockoutMode :=
  match f with
  | KnockoutNone => NoKnockout
  | KnockoutSingle => SingleElimination
  | KnockoutDouble => DoubleElimination
  end.

(** src: src/domain/tournament.ts:332-332 normalizeTournamentName *)
Definition normalizeTournamentName (value : jsstr) : jsstr := js_trim value.

(** src: src/domain/tournament.ts:334-335 uniqueParticipantIds *)
Definition uniqueParticipantIds (ids : option (list jsstr)) : list jsstr :=
  dedup (filter (λ value, js_trim value ≠ []) (nullish ids [])).

(** src: src/domain/tournament.ts:352-363 toOptionalPositiveInteger *)
Definition toOptionalPositiveInteger (value : option jsstr) : option Z :=
  match value with
  | None => None
  | Some v =>
      if is_nil (js_trim v) then None
      else if negb (is_integer (Number v)) || negb (is_positive (Number v)) then None
      else Some (int_value (Number v))
  end.

(** ** Gameweeks *)

(** [value.match(/^GW(\d{1,2})$/i)], first group
    src: src/domain/tournament.ts:462-465 parseGameweek *)
Definition match_gameweek (value : jsstr) : option jsstr :=
  match value with
  | g :: w :: ds =>
      if (ascii_lower g =? 103) && (ascii_lower w =? 119)
         && ((length ds =? 1)%nat || (length ds =? 2)%nat) && forallb is_digit ds
      then Some ds else None
  | _ => None
  end.

(** src: src/domain/tournament.ts:457-469 parseGameweek *)
Definition parseGameweek (value : option jsstr) : option Z :=
  match value with
  | None => None
  | Some v =>
      if is_nil (js_trim v) then None else
      match match_gameweek v with
      | None => None
      | Some ds =>
          let parsed := Number ds in
          if is_integer parsed && (1 <=? int_value parsed) && (int_value parsed <=? 38)
          then Some (int_value parsed) else None
      end
  end.

(** [/^GW(?:[1-9]|[12]\d|3[0-8])$/i]
    src: src/domain/tournament.ts:9-9 gameweekSchema *)
Definition gameweekSchema (s : jsstr) : bool :=
  match s with
  | g :: w :: ds =>
      (ascii_lower g =? 103) && (ascii_lower w =? 119) &&
      match ds with
      | [d] => (49 <=? d) && (d <=? 57)
      | [d1; d2] =>
          (((d1 =? 49) || (d1 =? 50)) && is_digit d2)
          || ((d1 =? 51) && (48 <=? d2) && (d2 <=? 56))
      | _ => false
      end
  | _ => false
  end.

(** [/^[1-9]\d*$/]
    src: src/domain/tournament.ts:12-12 optionalPositiveIntegerStringSchema *)
Definition positive_integer_string (s : jsstr) : bool :=
  match s with
  | d :: ds => (49 <=? d) && (d <=? 57) && forallb is_digit ds
  | [] => false
  end.

(** src: src/domain/tournament.ts:10-13 optionalPositiveIntegerStringSchema *)
Definition optionalPositiveIntegerStringSchema (s : jsstr) : bool :=
  is_nil s || positive_integer_string s.

(** ** League URLs *)

(** The parts of a parsed [URL] the code reads. *)
Record ParsedUrl := mkUrl {
  url_protocol : jsstr;
  url_hostname : jsstr;
  url_port : jsstr;
  url_username : jsstr;
  url_password : jsstr;
  url_pathname : jsstr;
}.

(** src: src/domain/tournament.ts:7-7 FPL_HOSTNAME *)
Definition FPL_HOSTNAME : jsstr := js "fantasy.premierleague.com".

(** [s.split('/')] *)
Fixpoint split_slash (s : jsstr) : list jsstr :=
  match s with
  | [] => [[]]
  | c :: s' =>
      if c =? 47 then [] :: split_slash s'
      else match split_slash s' with
           | seg :: segs => (c :: seg) :: segs
           | [] => [[c]]
           end
  end.

(** [/^[a-z]{2}(?:-[a-z]{2})?$/i]
    src: src/domain/tournament.ts:415-415 parseLeagueUrl *)
Definition is_locale (s : jsstr) : bool :=
  let letter c := is_lower (ascii_lower c) in
  match s with
  | [a; b] => letter a && letter b
  | [a; b; h; c; d] => letter a && letter b && (h =? 45) && letter c && letter d
  | _ => false
  end.

(** src: src/domain/tournament.ts:381-387 inferLeagueType *)
Definition inferLeagueType (segments : list jsstr) : LeagueType :=
  let suffix :=
    match list_find (λ s, s = js "standings" ∨ s = js "new-entries") segments with
    | Some (i, _) => segments !! S i
    | None => None
    end in
  if bool_decide (suffix = Some (js "h") ∨ suffix = Some (js "h2h")) then H2H else Classic.

Section parse_url.
Context (URL : jsstr → option ParsedUrl).

(** src: src/domain/tournament.ts:389-455 parseLeagueUrl *)
Definition parseLeagueUrl (rawUrl : jsstr) : result (Z * LeagueType) :=
  match URL rawUrl with
  | None => Throw "TOURNAMENT_LEAGUE_URL_INVALID"
  | Some u =>
      reject_if bool_decide (url_protocol u ≠ js "https:")
             || bool_decide (url_hostname u ≠ FPL_HOSTNAME)
             || negb (is_nil (url_port u)) || negb (is_nil (url_username u))
             || negb (is_nil (url_password u))
        with_code "TOURNAMENT_LEAGUE_URL_HOST_INVALID" ;;
      let pathSegments := filter (λ s, s ≠ []) (split_slash (url_pathname u)) in
      let hasLocalePrefix := is_locale (nullish (pathSegments !! 0%nat) []) in
      let leaguesIndex :=
        if bool_decide (pathSegments !! 0%nat = Some (js "leagues")) then Some 0%nat
        else if hasLocalePrefix && bool_decide (pathSegments !! 1%nat = Some (js "leagues"))
        then Some 1%nat else None in
      match leaguesIndex with
      | None => Throw "TOURNAMENT_LEAGUE_URL_FORMAT_INVALID"
      | Some ix =>
          reject_if (length pathSegments <? ix + 3)%nat
            with_code "TOURNAMENT_LEAGUE_URL_FORMAT_INVALID" ;;
          let surface := pathSegments !!! (ix + 2)%nat in
          reject_if bool_decide
              (surface ∉ [js "standings"; js "new-entries"; js "admin"; js "join"])
            with_code "TOURNAMENT_LEAGUE_URL_FORMAT_INVALID" ;;
          let standingsSuffix :=
            if bool_decide (surface = js "standings" ∨ surface = js "new-entries")
            then pathSegments !! (ix + 3)%nat else None in
          reject_if match standingsSuffix with
              | Some s => bool_decide
                  (map ascii_lower s ∉ [js "c"; js "classic"; js "h"; js "h2h"])
              | None => false
              end
            with_code "TOURNAMENT_LEAGUE_URL_FORMAT_INVALID" ;;
          let leagueId := Number (pathSegments !!! (ix + 1)%nat) in
          reject_if negb (is_integer leagueId && (Z.abs (int_value leagueId) <=? MAX_SAFE_INTEGER))
              || (int_value leagueId <=? 0)
            with_code "TOURNAMENT_LEAGUE_ID_INVALID" ;;
          Ok (int_value leagueId, inferLeagueType (drop ix pathSegments))
      end
  end.
End parse_url.

(** ** The input schema *)

(** [!s] for an optional string *)
Definition falsy_string (s : option jsstr) : bool :=
  match s with Some v => is_nil v | None => true end.

Section schema.
Context (zod_url : jsstr → bool) (URL : jsstr → option ParsedUrl).

(** The field checks, on the trimmed name and creator.
    src: src/domain/tournament.ts:16-47 tournamentCreateInputSchema *)
Definition schema_fields (v : TournamentCreateInput) : bool :=
  let name := js_trim (in_tournamentName v) in
  let creator := js_trim (in_creator v) in
  (3 <=? length name)%nat && (length name <=? 80)%nat &&
  negb (is_nil (in_adminId v)) && forallb is_digit (in_adminId v) &&
  (1 <=? length creator)%nat && (length creator <=? 80)%nat &&
  (length (in_leagueUrl v) <=? 512)%nat && zod_url (in_leagueUrl v) &&
  match URL (in_leagueUrl v) with
  | Some u => bool_decide (url_protocol u = js "https:" ∧ url_hostname u = FPL_HOSTNAME)
  | None => false
  end &&
  gameweekSchema (in_startGameweek v) && gameweekSchema (in_endGameweek v) &&
  match in_groupNum v with Some s => optionalPositiveIntegerStringSchema s | None => true end &&
  match in_qualifiersPerGroup v with
  | Some s => optionalPositiveIntegerStringSchema s
  | None => true
  end &&
  match in_selectedParticipantIds v with
  | Some ids => forallb positive_integer_string ids && (length ids <=? 5000)%nat
  | None => true
  end &&
  match in_previewToken v with
  | Some s => (32 <=? length s)%nat && (length s <=? 128)%nat
  | None => true
  end.

(** src: src/domain/tournament.ts:48-76 tournamentCreateInputSchema *)
Definition schema_refine (v : TournamentCreateInput) : bool :=
  let startGameweek := parseGameweek (Some (in_startGameweek v)) in
  let endGameweek := parseGameweek (Some (in_endGameweek v)) in
  truthy startGameweek && truthy endGameweek &&
  negb (nullish endGameweek 0 <? nullish startGameweek 0) &&
  negb (bool_decide (in_groupFormat v = GroupPoints) && falsy_string (in_groupNum v)) &&
  negb (bool_decide (in_groupFormat v = GroupPoints) &&
        bool_decide (in_knockoutFormat v ≠ KnockoutNone) &&
        falsy_string (in_qualifiersPerGroup v)).

(** src: src/domain/tournament.ts:96-99 safeValidateTournamentCreateInput *)
Definition safeValidateTournamentCreateInput (v : TournamentCreateInput)
    : option TournamentCreateInput :=
  if schema_fields v && schema_refine v then
    Some {| in_tournamentName := js_trim (in_tournamentName v);
            in_adminId := in_adminId v;
            in_creator := js_trim (in_creator v);
            in_platformAdmin := in_platformAdmin v;
            in_participantSource := in_participantSource v;
            in_leagueUrl := in_leagueUrl v;
            in_groupFormat := in_groupFormat v;
            in_startGameweek := in_startGameweek v;
            in_endGameweek := in_endGameweek v;
            in_groupNum := in_groupNum v;
            in_qualifiersPerGroup := in_qualifiersPerGroup v;
            in_knockoutFormat := in_knockoutFormat v;
            in_selectedParticipantIds := in_selectedParticipantIds v;
            in_previewToken := in_previewToken v |}
  else None.
End schema.

(** src: src/domain/tournament.ts:493-504 selectParticipants *)
Definition selectParticipants (participantSource : ParticipantSource)
    (participants : list TournamentParticipant) (selectedIds : list jsstr)
    : list TournamentParticipant :=
  if bool_decide (participantSource = Official) then participants
  else filter (λ p, p_id p ∈ selectedIds) participants.

(** ** The plan *)

(** [sourceConfig], from the official league.
    src: src/domain/tournament.ts:699-699 planTournamentStructure *)
Record SourceConfig := mkSourceConfig {
  sc_startEventId : option Z;
  sc_knockoutRounds : option Z;
}.

(** The official head-to-head branch.
    src: src/domain/tournament.ts:729-766 planTournamentStructure *)
Definition planOfficialH2H (payload : TournamentCreateInput)
    (selectedParticipants : list TournamentParticipant) (leagueId : Z) (leagueType : LeagueType)
    (sourceLeagueName : option jsstr) (sourceConfig : option SourceConfig)
    (groupStartedEventId : Z) : result TournamentStructurePlan :=
  let officialStartEventId :=
    nullish (sourceConfig ≫= sc_startEventId) groupStartedEventId in
  let officialKnockoutRounds := Z.max 0 (nullish (sourceConfig ≫= sc_knockoutRounds) 0) in
  let officialGroupEndedEventId := 38 - officialKnockoutRounds in
  reject_if officialGroupEndedEventId <? officialStartEventId
    with_code "TOURNAMENT_H2H_WINDOW_INVALID" ;;
  let hasKnockout := 0 <? officialKnockoutRounds in
  let when {A} (x : A) : option A := if hasKnockout then Some x else None in
  Ok {| pl_leagueId := leagueId;
        pl_leagueType := leagueType;
        pl_sourceLeagueName := sourceLeagueName;
        pl_rosterMode := OfficialSync;
        pl_tournamentName := normalizeTournamentName (in_tournamentName payload);
        pl_creator := js_trim (in_creator payload);
        pl_adminEntryId := Number (in_adminId payload);
        pl_selectedParticipants := selectedParticipants;
        pl_groupMode := BattleRaces;
        pl_groupTeamNum := Z.of_nat (length selectedParticipants);
        pl_groupNum := 1;
        pl_groupAutoAverages := Z.of_nat (length selectedParticipants) mod 2 =? 1;
        pl_groupStartedEventId := officialStartEventId;
        pl_groupEndedEventId := officialGroupEndedEventId;
        pl_groupRounds := officialGroupEndedEventId - officialStartEventId + 1;
        pl_groupQualifyNum := None;
        pl_knockoutMode := if hasKnockout then HeadToHead else NoKnockout;
        pl_knockoutTeamNum := when (2 ^ officialKnockoutRounds);
        pl_knockoutEventNum := when officialKnockoutRounds;
        pl_knockoutRounds := when officialKnockoutRounds;
        pl_knockoutStartedEventId := when (officialGroupEndedEventId + 1);
        pl_knockoutEndedEventId := when 38;
        pl_knockoutPlayAgainstNum := when 1 |}.

(** [Math.ceil(Math.log2(teams))]
    src: src/domain/tournament.ts:784-785 planTournamentStructure *)
Definition plan_event_num (knockoutTeamNum : option Z) : option Z :=
  match knockoutTeamNum with
  | Some n => if 2 <=? n then Some (Z.log2_up n) else None
  | None => None
  end.

(** The knockout fields of a plan. *)
Record KnockoutPlan := mkKnockoutPlan {
  kn_teamNum : option Z;
  kn_eventNum : option Z;
  kn_rounds : option Z;
  kn_startedEventId : option Z;
  kn_endedEventId : option Z;
}.

(** src: src/domain/tournament.ts:777-800 planTournamentStructure *)
Definition plan_knockout (payload : TournamentCreateInput) (size groupNum : Z)
    (qualifiersPerGroup : option Z) (groupStartedEventId groupEndedEventId : Z) : KnockoutPlan :=
  let points := bool_decide (in_groupFormat payload = GroupPoints) in
  let knockout := bool_decide (in_knockoutFormat payload ≠ KnockoutNone) in
  let knockoutTeamNum :=
    if negb knockout then None
    else if points then Some (groupNum * nullish qualifiersPerGroup 0)
    else Some size in
  let knockoutEventNum := plan_event_num knockoutTeamNum in
  let knockoutRounds :=
    match in_knockoutFormat payload with
    | KnockoutNone => None
    | KnockoutDouble => Some (nullish knockoutEventNum 0 * 2)
    | KnockoutSingle => knockoutEventNum
    end in
  let knockoutStartedEventId :=
    if negb knockout then None
    else if bool_decide (in_groupFormat payload = GroupNone) then Some groupStartedEventId
    else Some (groupEndedEventId + 1) in
  let knockoutEndedEventId :=
    if negb knockout || negb (truthy knockoutStartedEventId) || negb (truthy knockoutRounds)
    then None
    else Some (nullish knockoutStartedEventId 0 + Z.max (nullish knockoutRounds 0 - 1) 0) in
  {| kn_teamNum := knockoutTeamNum;
     kn_eventNum := knockoutEventNum;
     kn_rounds := knockoutRounds;
     kn_startedEventId := knockoutStartedEventId;
     kn_endedEventId := knockoutEndedEventId |}.

(** src: src/domain/tournament.ts:834-865 planTournamentStructure *)
Definition standard_plan (payload : TournamentCreateInput)
    (selectedParticipants : list TournamentParticipant) (leagueId : Z) (leagueType : LeagueType)
    (sourceLeagueName : option jsstr) (groupStartedEventId groupEndedEventId groupNum : Z)
    (qualifiersPerGroup : option Z) (kn : KnockoutPlan) : TournamentStructurePlan :=
  let size := Z.of_nat (length selectedParticipants) in
  let points := bool_decide (in_groupFormat payload = GroupPoints) in
  {| pl_leagueId := leagueId;
     pl_leagueType := leagueType;
     pl_sourceLeagueName := sourceLeagueName;
     pl_rosterMode :=
       if bool_decide (in_participantSource payload = Official)
          && bool_decide (leagueType = Classic) && points && (groupNum =? 1)
          && bool_decide (in_knockoutFormat payload = KnockoutNone)
       then OfficialSync else Snapshot;
     pl_tournamentName := normalizeTournamentName (in_tournamentName payload);
     pl_creator := js_trim (in_creator payload);
     pl_adminEntryId := Number (in_adminId payload);
     pl_selectedParticipants := selectedParticipants;
     pl_groupMode := groupModeMap (in_groupFormat payload);
     pl_groupTeamNum := if points then (size + groupNum - 1) / groupNum else size;
     pl_groupNum := if bool_decide (in_groupFormat payload = GroupNone) then 1 else groupNum;
     pl_groupAutoAverages := false;
     pl_groupStartedEventId := groupStartedEventId;
     pl_groupEndedEventId := groupEndedEventId;
     pl_groupRounds := Z.max (groupEndedEventId - groupStartedEventId + 1) 0;
     pl_groupQualifyNum :=
       if bool_decide (in_groupFormat payload = GroupNone) then None else qualifiersPerGroup;
     pl_knockoutMode := knockoutModeMap (in_knockoutFormat payload);
     pl_knockoutTeamNum := kn_teamNum kn;
     pl_knockoutEventNum := kn_eventNum kn;
     pl_knockoutRounds := kn_rounds kn;
     pl_knockoutStartedEventId := kn_startedEventId kn;
     pl_knockoutEndedEventId := kn_endedEventId kn;
     pl_knockoutPlayAgainstNum :=
       match in_knockoutFormat payload with
       | KnockoutSingle => Some 1
       | KnockoutDouble => Some 2
       | KnockoutNone => None
       end |}.

(** src: src/domain/tournament.ts:768-865 planTournamentStructure *)
Definition planStandard (payload : TournamentCreateInput)
    (selectedParticipants : list TournamentParticipant) (leagueId : Z) (leagueType : LeagueType)
    (sourceLeagueName : option jsstr) (groupStartedEventId groupEndedEventId : Z)
    : result TournamentStructurePlan :=
  let size := Z.of_nat (length selectedParticipants) in
  let points := bool_decide (in_groupFormat payload = GroupPoints) in
  let knockout := bool_decide (in_knockoutFormat payload ≠ KnockoutNone) in
  let groupNum := nullish (toOptionalPositiveInteger (in_groupNum payload)) 1 in
  let qualifiersPerGroup := toOptionalPositiveInteger (in_qualifiersPerGroup payload) in
  let kn := plan_knockout payload size groupNum qualifiersPerGroup
              groupStartedEventId groupEndedEventId in
  reject_if bool_decide (in_groupFormat payload ≠ GroupNone) && knockout
         && negb (truthy qualifiersPerGroup)
    with_code "TOURNAMENT_QUALIFIERS_REQUIRED" ;;
  reject_if points && knockout && (size <? groupNum * nullish qualifiersPerGroup 0)
    with_code "TOURNAMENT_QUALIFY_TOTAL_EXCEEDS" ;;
  reject_if knockout && (negb (truthy (kn_teamNum kn)) || (nullish (kn_teamNum kn) 0 <? 2)
         || negb (truthy (kn_eventNum kn)))
    with_code "TOURNAMENT_KNOCKOUT_INVALID" ;;
  reject_if knockout && (negb (truthy (kn_endedEventId kn))
         || (38 <? nullish (kn_endedEventId kn) 0))
    with_code "TOURNAMENT_KNOCKOUT_EXCEEDS_GW38" ;;
  Ok (standard_plan payload selectedParticipants leagueId leagueType sourceLeagueName
        groupStartedEventId groupEndedEventId groupNum qualifiersPerGroup kn).

(** src: src/domain/tournament.ts:693-728 planTournamentStructure *)
Definition planTournamentStructure (payload : TournamentCreateInput)
    (selectedParticipants : list TournamentParticipant) (leagueId : Z) (leagueType : LeagueType)
    (sourceLeagueName : option jsstr) (sourceConfig : option SourceConfig)
    : result TournamentStructurePlan :=
  reject_if (length selectedParticipants <? 2)%nat
    with_code "TOURNAMENT_PARTICIPANTS_TOO_FEW" ;;
  let adminEntryId := Number (in_adminId payload) in
  reject_if bool_decide (in_platformAdmin payload ≠ Some true)
         && negb (existsb (λ p, number_eqb (Number (p_id p)) adminEntryId) selectedParticipants)
    with_code "TOURNAMENT_ADMIN_NOT_PARTICIPANT" ;;
  let groupStartedEventId := parseGameweek (Some (in_startGameweek payload)) in
  let groupEndedEventId := parseGameweek (Some (in_endGameweek payload)) in
  reject_if negb (truthy groupStartedEventId) || negb (truthy groupEndedEventId)
         || (nullish groupEndedEventId 0 <? nullish groupStartedEventId 0)
    with_code "TOURNAMENT_GROUP_GAMEWEEKS_INVALID" ;;
  let first := nullish groupStartedEventId 0 in
  let last := nullish groupEndedEventId 0 in
  if bool_decide (in_participantSource payload = Official) && bool_decide (leagueType = H2H)
  then planOfficialH2H payload selectedParticipants leagueId leagueType sourceLeagueName
         sourceConfig first
  else planStandard payload selectedParticipants leagueId leagueType sourceLeagueName first last.

(** The configuration the setup reads back for the stored plan.
    src: src/repositories/tournament-infos.ts:835-866 createTournamentWithEntries *)
Definition config_of_plan (tournamentId : Z) (plan : TournamentStructurePlan) : TournamentConfig :=
  mkConfig
    {| t_id := tournamentId;
       t_leagueId := Some (pl_leagueId plan);
       t_leagueType := Some (pl_leagueType plan);
       t_rosterMode := Some (pl_rosterMode plan);
       t_totalTeamNum := Z.of_nat (length (pl_selectedParticipants plan));
       t_groupMode := pl_groupMode plan;
       t_groupStartedEventId := Some (pl_groupStartedEventId plan);
       t_groupEndedEventId := Some (pl_groupEndedEventId plan);
       t_groupQualifyNum := pl_groupQualifyNum plan;
       t_knockoutMode := pl_knockoutMode plan;
       t_knockoutTeamNum := pl_knockoutTeamNum plan;
       t_knockoutEventNum := pl_knockoutEventNum plan;
       t_knockoutStartedEventId := pl_knockoutStartedEventId plan;
       t_knockoutEndedEventId := pl_knockoutEndedEventId plan;
       t_knockoutPlayAgainstNum := pl_knockoutPlayAgainstNum plan |}
    (Some (pl_groupNum plan)).

#[global] Arguments parseGameweek : simpl never.
#[global] Arguments toOptionalPositiveInteger : simpl never.

(** ** Lemmas *)

Lemma truthy_spec x : truthy x = true ↔ ∃ n, x = Some n ∧ n ≠ 0.
Proof.
  destruct x as [n|]; simpl; [|naive_solver].
  rewrite negb_true_iff, Z.eqb_neq. naive_solver.
Qed.

Lemma parseGameweek_range v k : parseGameweek v = Some k → 1 ≤ k ≤ 38.
Proof. unfold parseGameweek. intros. split_ifs. boolsolve. lia. Qed.

Lemma gameweekSchema_parses s :
  gameweekSchema s = true → ∃ k, parseGameweek (Some s) = Some k.
Proof.
  intros Hs.
  assert (∃ g w ds, s = g :: w :: ds ∧ ascii_lower g = 103 ∧ ascii_lower w = 119 ∧
    (length ds = 1 ∨ length ds = 2)%nat ∧ forallb is_digit ds = true ∧ ds ≠ [] ∧
    1 ≤ digits_value 10 ds ≤ 38) as (g & w & ds & -> & Hg & Hw & Hl & Hd & Hne & Hv).
  { destruct s as [|g [|w ds]]; try done. simpl in Hs. boolsolve.
    exists g, w, ds. destruct ds as [|d1 [|d2 [|]]]; try done; boolsolve.
    - assert (is_digit d1 = true) as Hd by (unfold is_digit; apply andb_true_iff; lia).
      simpl. rewrite Hd. unfold digits_value, digit_value. simpl. rewrite Hd.
      split_and!; auto; lia.
    - assert (is_digit d1 = true ∧ is_digit d2 = true ∧ 10 ≤ digits_value 10 [d1; d2] ≤ 38)
        as (Hd1 & Hd2 & Hv); [|simpl; rewrite Hd1, Hd2; split_and!; auto; lia].
      unfold digits_value, digit_value. simpl.
      apply orb_true_iff in H0 as [H0|H0]; boolsolve.
      + pose proof (ascii_lower_digit d2 ltac:(done)).
        apply orb_true_iff in H0 as [?|?]; boolsolve; subst d1; simpl;
          match goal with H : is_digit d2 = true |- _ => rewrite H end; split_and!; done || lia.
      + subst d1. assert (is_digit d2 = true) as Hd by (unfold is_digit; apply andb_true_iff; lia).
        simpl. rewrite Hd. split_and!; done || lia. }
  pose proof (Number_digits_exact ds Hne Hd ltac:(lia)) as (Hi & Hval & _).
  exists (digits_value 10 ds).
  assert (match_gameweek (g :: w :: ds) = Some ds) as Hm.
  { unfold match_gameweek. rewrite Hg, Hw, Hd. simpl.
    by destruct Hl as [-> | ->]. }
  unfold parseGameweek. rewrite Hm, js_trim_id.
  - cbn [is_nil]. cbv iota zeta. rewrite Hi, Hval.
    destruct (Z.leb_spec 1 (digits_value 10 ds)), (Z.leb_spec (digits_value 10 ds) 38);
      done || lia.
  - intros c Hc. rewrite !elem_of_cons in Hc. destruct Hc as [->|[->|Hc]].
    + by apply ascii_lower_letter_not_space; rewrite Hg.
    + by apply ascii_lower_letter_not_space; rewrite Hw.
    + apply is_digit_not_space. rewrite forallb_forall in Hd. apply Hd. by apply list_elem_of_In.
Qed.

(** What the structure builder needs of a plan with a knockout stage of [tc] teams over
    [legs]-legged rounds from gameweek [start]. *)
Record knockout_planned (tid : Z) (p : TournamentStructurePlan) (tc start legs : Z) : Prop := {
  kp_config : bracket_config (config_of_plan tid p) tc start legs;
  kp_end : pl_knockoutEndedEventId p = Some (start + Z.log2_up tc * legs - 1);
  kp_season : start + Z.log2_up tc * legs - 1 ≤ 38;
  kp_after_groups : pl_groupMode p ≠ NoGroup → start = pl_groupEndedEventId p + 1;
  kp_teams : pl_groupMode p ≠ BattleRaces → tc ≤ Z.of_nat (length (pl_selectedParticipants p));
  kp_qualify : pl_groupMode p = PointsRaces →
    ∃ q, pl_groupQualifyNum p = Some q ∧ 1 ≤ q ∧ tc = pl_groupNum p * q;
}.

Lemma planOfficialH2H_knockout tid payload ps lid lty name cfg first p :
  1 ≤ first → (∀ s, cfg ≫= sc_startEventId = Some s → 1 ≤ s) →
  planOfficialH2H payload ps lid lty name cfg first = Ok p →
  pl_knockoutMode p ≠ NoKnockout → ∃ tc start legs, knockout_planned tid p tc start legs.
Proof.
  intros Hfirst Hsrc. unfold planOfficialH2H.
  set (rounds := Z.max 0 _). set (start := nullish _ first).
  assert (1 ≤ start) as Hstart.
  { unfold start, nullish. destruct (cfg ≫= sc_startEventId) eqn:E; simpl; [by apply Hsrc|done]. }
  intros H. inv_ok. boolsolve. simpl.
  destruct (Z.ltb_spec 0 rounds) as [Hr|]; [|done]. intros _.
  exists (2 ^ rounds), (38 - rounds + 1), 1.
  assert (Z.log2_up (2 ^ rounds) = rounds) as Hlog by (apply Z.log2_up_pow2; lia).
  assert (2 ^ 1 ≤ 2 ^ rounds) by (apply Z.pow_le_mono_r; lia).
  split; simpl; rewrite ?Hlog.
  - split; simpl; rewrite ?Hlog; done || lia.
  - f_equal. lia.
  - lia.
  - done.
  - done.
  - done.
Qed.

Lemma plan_event_num_truthy tc :
  2 ≤ tc → plan_event_num (Some tc) = Some (Z.log2_up tc) ∧ 1 ≤ Z.log2_up tc.
Proof.
  intros Htc. unfold plan_event_num. pose proof (Z.log2_up_pos tc).
  destruct (Z.leb_spec 2 tc); [split; [done|lia]|lia].
Qed.

(** Legs per round, teams and first gameweek of the knockout stage the standard branch plans. *)
Definition planned_legs (f : KnockoutFormat) : Z :=
  match f with KnockoutDouble => 2 | _ => 1 end.
Definition planned_teams (f : GroupFormat) (size groupNum : Z) (q : option Z) : Z :=
  match f with GroupPoints => groupNum * nullish q 0 | GroupNone => size end.
Definition planned_start (f : GroupFormat) (first last : Z) : Z :=
  match f with GroupPoints => last + 1 | GroupNone => first end.

Lemma plan_knockout_eq payload size g q first last :
  in_knockoutFormat payload ≠ KnockoutNone → 1 ≤ first ≤ last →
  let tc := planned_teams (in_groupFormat payload) size g q in
  let legs := planned_legs (in_knockoutFormat payload) in
  let start := planned_start (in_groupFormat payload) first last in
  let kn := plan_knockout payload size g q first last in
  kn_teamNum kn = Some tc ∧ kn_startedEventId kn = Some start ∧
  (2 ≤ tc → kn_eventNum kn = Some (Z.log2_up tc) ∧
            kn_rounds kn = Some (Z.log2_up tc * legs) ∧
            kn_endedEventId kn = Some (start + Z.log2_up tc * legs - 1)).
Proof.
  intros Hko Hfl. unfold plan_knockout, planned_teams, planned_start, planned_legs.
  rewrite (bool_decide_eq_true_2 _ Hko). cbn [negb orb].
  split_and!.
  - by destruct (in_groupFormat payload).
  - by destruct (in_groupFormat payload).
  - intros Htc. cbn [kn_eventNum kn_rounds kn_endedEventId].
    assert (truthy (if bool_decide (in_groupFormat payload = GroupNone)
      then Some first else Some (last + 1)) = true) as ->.
    { apply truthy_spec. destruct (in_groupFormat payload); simpl; eexists; (split; [done|lia]). }
    set (tc := match in_groupFormat payload with GroupNone => size | _ => _ end) in *.
    assert ((if bool_decide (in_groupFormat payload = GroupPoints)
      then Some (g * nullish q 0) else Some size) = Some tc) as ->
      by (unfold tc; by destruct (in_groupFormat payload)).
    destruct (plan_event_num_truthy tc Htc) as [-> Hlog].
    split_and!; [done|destruct (in_knockoutFormat payload); simpl; done || f_equal; lia|].
    destruct (in_knockoutFormat payload); [done|..]; simpl;
      (destruct (Z.eqb_spec (Z.log2_up tc) 0); [lia|]); simpl.
    + destruct (in_groupFormat payload); simpl; f_equal; lia.
    + destruct (Z.eqb_spec (Z.log2_up tc * 2) 0); [lia|]. simpl.
      destruct (in_groupFormat payload); simpl; f_equal; lia.
Qed.

Lemma toOptionalPositiveInteger_pos s n : toOptionalPositiveInteger s = Some n → 0 < n.
Proof.
  unfold toOptionalPositiveInteger. destruct s as [v|]; [|done].
  destruct (is_nil (js_trim v)); [done|].
  destruct (negb (is_integer (Number v)) || negb (is_positive (Number v))) eqn:Hn; [done|].
  apply orb_false_iff in Hn as [Hi%negb_false_iff Hp%negb_false_iff]. intros [= <-].
  destruct (Number v) as [| |m e]; try done.
  simpl in *. boolsolve.
  destruct (Z.leb_spec 0 e); simpl in *; [pose proof (Z.pow_pos_nonneg 2 e); nia|].
  apply Z.eqb_eq in Hi. pose proof (Z.pow_pos_nonneg 2 (-e)).
  apply Z.div_exact in Hi; [|lia]. nia.
Qed.

(** The standard branch, case by case in the order of its rejections. *)
Lemma planStandard_eq payload ps lid lty name first last :
  1 ≤ first ≤ last → in_knockoutFormat payload ≠ KnockoutNone →
  let size := Z.of_nat (length ps) in
  let g := nullish (toOptionalPositiveInteger (in_groupNum payload)) 1 in
  let q := toOptionalPositiveInteger (in_qualifiersPerGroup payload) in
  let tc := planned_teams (in_groupFormat payload) size g q in
  let points := bool_decide (in_groupFormat payload = GroupPoints) in
  planStandard payload ps lid lty name first last =
    if points && is_null q then Throw "TOURNAMENT_QUALIFIERS_REQUIRED"
    else if points && (size <? tc) then Throw "TOURNAMENT_QUALIFY_TOTAL_EXCEEDS"
    else if tc <? 2 then Throw "TOURNAMENT_KNOCKOUT_INVALID"
    else if 38 <? planned_start (in_groupFormat payload) first last
                  + Z.log2_up tc * planned_legs (in_knockoutFormat payload) - 1
    then Throw "TOURNAMENT_KNOCKOUT_EXCEEDS_GW38"
    else Ok (standard_plan payload ps lid lty name first last g q
               (plan_knockout payload size g q first last)).
Proof.
  intros Hfl Hko size g q tc points. unfold planStandard. fold size g q points.
  destruct (plan_knockout_eq payload size g q first last Hko Hfl) as (Htn & Hst & Hrest).
  fold tc in Htn, Hrest. set (kn := plan_knockout _ _ _ _ _ _) in *.
  clearbody kn.
  rewrite (bool_decide_eq_true_2 _ Hko), !andb_true_r. cbn [andb]. rewrite Htn. unfold throw_when.
  assert (bool_decide (in_groupFormat payload ≠ GroupNone) = points) as ->.
  { unfold points. by destruct (in_groupFormat payload). }
  assert (negb (truthy q) = is_null q) as ->.
  { destruct q as [n|] eqn:Hq; [|done]. apply toOptionalPositiveInteger_pos in Hq. simpl.
    destruct (Z.eqb_spec n 0); [lia|done]. }
  assert (points && (size <? g * nullish q 0) = points && (size <? tc)) as ->.
  { unfold points, tc, planned_teams. by destruct (in_groupFormat payload). }
  do 2 (case_match; [done|]). simpl nullish.
  destruct (Z.ltb_spec tc 2) as [Hlt|Hge]; [by rewrite orb_true_r|].
  destruct (Hrest Hge) as (-> & _ & ->). pose proof (Z.log2_up_pos tc).
  assert (0 < planned_start (in_groupFormat payload) first last).
  { unfold planned_start. destruct (in_groupFormat payload); lia. }
  assert (1 ≤ planned_legs (in_knockoutFormat payload)) by (destruct (in_knockoutFormat payload); simpl; lia).
  simpl truthy. simpl nullish.
  destruct (Z.eqb_spec tc 0), (Z.eqb_spec (Z.log2_up tc) 0); try lia. simpl.
  destruct (Z.eqb_spec (planned_start (in_groupFormat payload) first last
    + Z.log2_up tc * planned_legs (in_knockoutFormat payload) - 1) 0); [nia|done].
Qed.

Lemma planStandard_knockout tid payload ps lid lty name first last p :
  1 ≤ first ≤ last → planStandard payload ps lid lty name first last = Ok p →
  pl_knockoutMode p ≠ NoKnockout → ∃ tc start legs, knockout_planned tid p tc start legs.
Proof.
  intros Hfl Hok Hmode. destruct (decide (in_knockoutFormat payload = KnockoutNone)) as [Hn|Hko].
  { exfalso. revert Hok. unfold planStandard. intros. inv_ok. simpl in Hmode.
    by rewrite Hn in Hmode. }
  rewrite planStandard_eq in Hok by done. cbv zeta in Hok.
  set (size := Z.of_nat (length ps)) in *.
  set (g := nullish (toOptionalPositiveInteger (in_groupNum payload)) 1) in *.
  set (q := toOptionalPositiveInteger (in_qualifiersPerGroup payload)) in *.
  destruct (plan_knockout_eq payload size g q first last Hko Hfl) as (Htn & Hst & Hrest).
  set (tc := planned_teams _ _ _ _) in *. set (start := planned_start _ _ _) in *.
  set (legs := planned_legs _) in *.
  destruct (bool_decide (in_groupFormat payload = GroupPoints) && is_null q) eqn:Hq; [done|].
  destruct (bool_decide (in_groupFormat payload = GroupPoints) && (size <? tc)) eqn:Hsz; [done|].
  destruct (Z.ltb_spec tc 2); [done|].
  destruct (Z.ltb_spec 38 (start + Z.log2_up tc * legs - 1)); [done|].
  injection Hok as <-. destruct (Hrest ltac:(lia)) as (Hev & Hr & Hend).
  exists tc, start, legs. split.
  - split; simpl; rewrite ?Htn, ?Hev, ?Hst; try done.
    + unfold start, planned_start. destruct (in_groupFormat payload); lia.
    + unfold legs. by destruct (in_knockoutFormat payload).
    + unfold legs, planned_legs. destruct (in_knockoutFormat payload); lia.
  - exact Hend.
  - lia.
  - simpl. unfold start, planned_start. by destruct (in_groupFormat payload).
  - simpl. intros _. unfold tc, planned_teams in *.
    destruct (in_groupFormat payload); [done|]. simpl in Hsz. boolsolve. lia.
  - simpl. unfold tc, planned_teams in *. destruct (in_groupFormat payload); [done|]. intros _.
    simpl in *. destruct q as [n|] eqn:E; [|done]. exists n. split_and!; [done| |done].
    apply toOptionalPositiveInteger_pos in E. lia.
Qed.

Lemma planTournamentStructure_knockout_planned tid payload ps lid lty name cfg p :
  (∀ s, cfg ≫= sc_startEventId = Some s → 1 ≤ s) →
  planTournamentStructure payload ps lid lty name cfg = Ok p →
  pl_knockoutMode p ≠ NoKnockout → ∃ tc start legs, knockout_planned tid p tc start legs.
Proof.
  intros Hsrc Hok Hmode. unfold planTournamentStructure in Hok. inv_ok. boolsolve.
  match goal with H : truthy (parseGameweek (Some (in_startGameweek _))) = true |- _ =>
    apply truthy_spec in H as (first & Hf & _) end.
  match goal with H : truthy (parseGameweek (Some (in_endGameweek _))) = true |- _ =>
    apply truthy_spec in H as (last & Hl & _) end.
  rewrite Hf, Hl in *.
  apply parseGameweek_range in Hf. apply parseGameweek_range in Hl. cbn [nullish from_option id] in *.
  case_match.
  - eapply planOfficialH2H_knockout; [| |done..]; [lia|done].
  - eapply planStandard_knockout; [|done..]. lia.
Qed.

(** C25: A plan the planner accepts with a knockout stage can be built and played: the bracket
    builder gets as many rounds as the team count needs, the stored end of the stage is the end of
    its final, every match lies between the stage's first gameweek and gameweek 38, a stage behind
    groups starts in the gameweek after the groups end, and it takes exactly the qualifiers of the
    groups, of whom there are no more than participants. *)
Theorem planTournamentStructure_playable (tid : Z) (payload : TournamentCreateInput)
  (ps : list TournamentParticipant) (lid : Z) (lty : LeagueType) (name : option jsstr)
  (cfg : option SourceConfig) (p : TournamentStructurePlan)
  (Hsrc : ∀ s, cfg ≫= sc_startEventId = Some s → 1 ≤ s)
  (Hok : planTournamentStructure payload ps lid lty name cfg = Ok p)
  (Hko : pl_knockoutMode p ≠ NoKnockout) :
  ∃ teams start legs last,
    bracket_config (config_of_plan tid p) teams start legs ∧
    pl_knockoutEndedEventId p = Some last ∧ last ≤ 38 ∧
    (pl_groupMode p ≠ NoGroup → start = pl_groupEndedEventId p + 1) ∧
    (pl_groupMode p = PointsRaces → ∃ q, pl_groupQualifyNum p = Some q ∧ 1 ≤ q ∧
       teams = pl_groupNum p * q ∧ teams ≤ Z.of_nat (length (pl_selectedParticipants p))) ∧
    ∀ seeded m, m ∈ (buildKnockoutRows (config_of_plan tid p) seeded).1 →
      start ≤ km_started_event_id m ≤ km_ended_event_id m ∧ km_ended_event_id m ≤ last.
Proof.
  destruct (planTournamentStructure_knockout_planned tid _ _ _ _ _ _ _ Hsrc Hok Hko)
    as (tc & start & legs & [Hbc Hend Hlast Hafter Hteams Hq]).
  exists tc, start, legs, (start + Z.log2_up tc * legs - 1). split_and!; try done.
  - intros Hmode. destruct (Hq Hmode) as (q & ? & ? & ?). exists q. split_and!; try done.
    apply Hteams. by rewrite Hmode.
  - intros seeded m Hm. pose proof (bc_legs_pos _ _ _ _ Hbc).
    destruct (match_window _ _ _ _ Hbc _ _ Hm) as (Hr & -> & ->). nia.
Qed.

Definition sample_input (groupNum q : string) : TournamentCreateInput :=
  mkInput (js "Cup") (js "1") (js "Ann") None Custom [] GroupPoints (js "GW1") (js "GW30")
    (Some (js groupNum)) (Some (js q)) KnockoutDouble None None.
Definition sample_participants : list TournamentParticipant :=
  (λ id, mkParticipant (js id) [] [] 0 0) <$> ["1"; "2"; "3"; "4"; "5"; "6"]%string.

Lemma planTournamentStructure_playable_witness :
  is_ok (planTournamentStructure (sample_input "2" "2") sample_participants 9 Classic None None)
    = true ∧
  match planTournamentStructure (sample_input "2" "2") sample_participants 9 Classic None None with
  | Ok p => ∃ teams start legs last,
      bracket_config (config_of_plan 7 p) teams start legs ∧
      pl_knockoutEndedEventId p = Some last ∧ last ≤ 38
  | Throw _ => False
  end.
Proof.
  split; [reflexivity|].
  destruct (planTournamentStructure (sample_input "2" "2") sample_participants 9 Classic None None)
    as [p|] eqn:E; [|vm_compute in E; discriminate].
  assert (pl_knockoutMode p ≠ NoKnockout) as Hmode
    by (vm_compute in E; injection E as <-; discriminate).
  assert (∀ s, @None SourceConfig ≫= sc_startEventId = Some s → 1 ≤ s) as Hsrc
    by (intros s H; discriminate H).
  destruct (planTournamentStructure_playable 7 _ _ _ _ _ _ p Hsrc E Hmode)
    as (teams & start & legs & last & H1 & H2 & H3 & _).
  exists teams, start, legs, last. exact (conj H1 (conj H2 H3)).
Defined.

(** For a validated input whose numeric fields are read as positive integers where the
    formats need them, the standard planner accepts exactly when the tournament fits: at least two
    participants, the administrator among them (or platform-attested), and for a knockout stage at
    least two teams, no more qualifiers than participants and a last round in gameweek 38 or
    before. *)
Theorem planTournamentStructure_accepts (zod_url : jsstr → bool) (URL : jsstr → option ParsedUrl)
  (raw payload : TournamentCreateInput) (ps : list TournamentParticipant) (lid : Z)
  (lty : LeagueType) (name : option jsstr) (cfg : option SourceConfig) (first last : Z)
  (Hvalid : safeValidateTournamentCreateInput zod_url URL raw = Some payload)
  (Hstandard : ¬ (in_participantSource payload = Official ∧ lty = H2H))
  (Hfirst : parseGameweek (Some (in_startGameweek payload)) = Some first)
  (Hlast : parseGameweek (Some (in_endGameweek payload)) = Some last)
  (Hq : in_groupFormat payload = GroupPoints → in_knockoutFormat payload ≠ KnockoutNone →
     is_Some (toOptionalPositiveInteger (in_qualifiersPerGroup payload))) :
  let size := Z.of_nat (length ps) in
  let teams := planned_teams (in_groupFormat payload) size
                 (nullish (toOptionalPositiveInteger (in_groupNum payload)) 1)
                 (toOptionalPositiveInteger (in_qualifiersPerGroup payload)) in
  is_ok (planTournamentStructure payload ps lid lty name cfg) = true ↔
    2 ≤ size ∧
    (in_platformAdmin payload = Some true ∨
     ∃ p, p ∈ ps ∧ number_eqb (Number (p_id p)) (Number (in_adminId payload)) = true) ∧
    (in_knockoutFormat payload ≠ KnockoutNone →
       2 ≤ teams ≤ size ∧
       planned_start (in_groupFormat payload) first last
         + Z.log2_up teams * planned_legs (in_knockoutFormat payload) - 1 ≤ 38).
Proof.
  intros size teams.
  assert (first ≤ last) as Hfl.
  { unfold safeValidateTournamentCreateInput in Hvalid.
    destruct (schema_fields _ _ _ && schema_refine _) eqn:E; [|done]. injection Hvalid as <-.
    simpl in *. apply andb_true_iff in E as [_ Hr]. unfold schema_refine in Hr.
    rewrite Hfirst, Hlast in Hr. boolsolve. simpl in *. lia. }
  pose proof (parseGameweek_range _ _ Hfirst). pose proof (parseGameweek_range _ _ Hlast).
  unfold planTournamentStructure. rewrite Hfirst, Hlast. unfold throw_when. simpl nullish.
  destruct (Nat.ltb_spec (length ps) 2); [split; [done|lia]|].
  destruct (bool_decide (in_platformAdmin payload ≠ Some true)
    && negb (existsb (λ p, number_eqb (Number (p_id p)) (Number (in_adminId payload))) ps)) eqn:Ha.
  { split; [done|]. intros (_ & Hadm & _). exfalso. boolsolve.
    destruct Hadm as [?|(p & Hp & He)]; [done|].
    assert (existsb (λ p, number_eqb (Number (p_id p)) (Number (in_adminId payload))) ps = true)
      as Ht by (apply existsb_exists; exists p; split; [by apply list_elem_of_In|done]).
    congruence. }
  assert (in_platformAdmin payload = Some true ∨
     ∃ p, p ∈ ps ∧ number_eqb (Number (p_id p)) (Number (in_adminId payload)) = true) as Hadm.
  { apply andb_false_iff in Ha as [Ha|Ha]; boolsolve; [left; by apply dec_stable|right].
    apply existsb_exists in Ha as (p & Hp%list_elem_of_In & He). by exists p. }
  assert (negb (truthy (Some first)) || negb (truthy (Some last)) || (last <? first) = false) as ->.
  { unfold truthy. rewrite !orb_false_iff, !negb_false_iff, !negb_true_iff, !Z.eqb_neq, Z.ltb_ge.
    clear -Hfl H H0. lia. }
  assert (bool_decide (in_participantSource payload = Official) && bool_decide (lty = H2H)
    = false) as ->.
  { apply andb_false_iff. rewrite !bool_decide_eq_false. destruct (decide (lty = H2H)); tauto. }
  destruct (decide (in_knockoutFormat payload = KnockoutNone)) as [Hn|Hko].
  { unfold planStandard, throw_when. rewrite Hn. simpl. rewrite !andb_false_r. simpl.
    split; [intros _; split_and!; done || lia|done]. }
  rewrite planStandard_eq by (done || lia). fold size. cbv zeta. fold teams.
  assert (bool_decide (in_groupFormat payload = GroupPoints)
    && is_null (toOptionalPositiveInteger (in_qualifiersPerGroup payload)) = false) as ->.
  { destruct (in_groupFormat payload); [done|]. by destruct Hq as [? ->]. }
  assert (bool_decide (in_groupFormat payload = GroupPoints) && (size <? teams) = (size <? teams))
    as ->.
  { unfold teams, planned_teams. destruct (in_groupFormat payload); [|done].
    simpl. symmetry. apply Z.ltb_ge. lia. }
  destruct (Z.ltb_spec size teams); [split; [done|]; intros (_ & _ & Hk); specialize (Hk Hko); lia|].
  destruct (Z.ltb_spec teams 2); [split; [done|]; intros (_ & _ & Hk); specialize (Hk Hko); lia|].
  destruct (Z.ltb_spec 38 (planned_start (in_groupFormat payload) first last
    + Z.log2_up teams * planned_legs (in_knockoutFormat payload) - 1)).
  - split; [done|]. intros (_ & _ & Hk). specialize (Hk Hko). lia.
  - split; [|done]. intros _. split_and!; [lia|done|]. intros _. lia.
Qed.

Definition sample_url : ParsedUrl :=
  mkUrl (js "https:") FPL_HOSTNAME [] [] [] (js "/leagues/5/standings/c").

Lemma planTournamentStructure_accepts_witness :
  (is_ok (planTournamentStructure (sample_input "2" "2") sample_participants 9 Classic None None)
     = true ↔
   2 ≤ 6 ∧ (in_platformAdmin (sample_input "2" "2") = Some true ∨
     ∃ p, p ∈ sample_participants ∧
       number_eqb (Number (p_id p)) (Number (in_adminId (sample_input "2" "2"))) = true) ∧
   (in_knockoutFormat (sample_input "2" "2") ≠ KnockoutNone →
     2 ≤ 4 ≤ 6 ∧ planned_start GroupPoints 1 30 + Z.log2_up 4 * planned_legs KnockoutDouble - 1 ≤ 38)).
Proof.
  exact (planTournamentStructure_accepts (λ _, true) (λ _, Some sample_url)
    (sample_input "2" "2") (sample_input "2" "2") sample_participants 9 Classic None None 1 30
    ltac:(reflexivity) ltac:(intros [H _]; discriminate H) ltac:(reflexivity) ltac:(reflexivity)
    ltac:(intros _ _; exists 2; reflexivity)).
Defined.

(** A head-to-head standings URL whose suffix is written in capitals passes the suffix test, which
    folds case, but is inferred to be a classic league, which does not. *)
Lemma parseLeagueUrl_capital_suffix :
  parseLeagueUrl (λ _, Some (mkUrl (js "https:") FPL_HOSTNAME [] [] []
    (js "/leagues/5/standings/H"))) [] = Ok (5, Classic) ∧
  parseLeagueUrl (λ _, Some (mkUrl (js "https:") FPL_HOSTNAME [] [] []
    (js "/leagues/5/standings/h"))) [] = Ok (5, H2H).
Proof. split; vm_compute; reflexivity. Qed.
