(* ===== verification/KnockoutSync.v ===== *)
(** * Knockout results ([src/services/tournament-knockout-results.service.ts])

    Scoring of the knockout legs of a gameweek, the decision of the matches that end with it and
    the seeding of the next round, over the two tables the service writes
    ([src/repositories/tournament-knockouts.ts], [src/repositories/tournament-knockout-results.ts]).

    Half wins: the code counts a drawn leg as [0.5]; wins are kept here in halves.  The columns
    [home_wins] and [away_wins] are declared [integer] in [src/db/schemas/platform.schema.ts], and
    PostgreSQL rejects ['0.5'] for such a column, so writing an odd number of halves throws. *)

From S2P Require Import Prelude JsCollections Tournament Seeding Bracket.

(** ** Rows *)

(** src: src/db/schemas/platform.schema.ts:2824-2841 tournamentKnockoutsInCompetition *)
Record KMatch := mkKMatch {
  m_round : Z;
  m_startedEventId : Z;
  m_endedEventId : Z;
  m_matchId : Z;
  m_nextMatchId : option Z;
  m_homeEntryId : option Z;
  m_homeNetPoints : option Z;
  m_homeGoalsScored : option Z;
  m_homeGoalsConceded : option Z;
  m_homeWins : option Z;
  m_awayEntryId : option Z;
  m_awayNetPoints : option Z;
  m_awayGoalsScored : option Z;
  m_awayGoalsConceded : option Z;
  m_awayWins : option Z;
  m_roundWinner : option Z;
}.

(** src: src/db/schemas/platform.schema.ts:2452-2464 tournamentKnockoutResultsInCompetition *)
Record KLeg := mkKLeg {
  l_eventId : Z;
  l_matchId : Z;
  l_playAgainstId : Z;
  l_homeEntryId : option Z;
  l_homeNetPoints : option Z;
  l_homeGoalsScored : option Z;
  l_homeGoalsConceded : option Z;
  l_awayEntryId : option Z;
  l_awayNetPoints : option Z;
  l_awayGoalsScored : option Z;
  l_awayGoalsConceded : option Z;
  l_matchWinner : option Z;
}.

(** The two knockout tables of one tournament. *)
Record KnockoutTables := mkTables {
  kt_matches : list KMatch;
  kt_legs : list KLeg;
}.

Definition leg_key (l : KLeg) : Z * Z * Z := (l_eventId l, l_matchId l, l_playAgainstId l).

(** The [SET] list of the upsert of matches.
    src: src/repositories/tournament-knockouts.ts:259-272 upsertBatch *)
Definition merge_match (old row : KMatch) : KMatch :=
  {| m_round := m_round old;
     m_startedEventId := m_startedEventId old;
     m_endedEventId := m_endedEventId old;
     m_matchId := m_matchId old;
     m_nextMatchId := m_nextMatchId old;
     m_homeEntryId := m_homeEntryId row;
     m_homeNetPoints := m_homeNetPoints row;
     m_homeGoalsScored := m_homeGoalsScored row;
     m_homeGoalsConceded := m_homeGoalsConceded row;
     m_homeWins := m_homeWins row;
     m_awayEntryId := m_awayEntryId row;
     m_awayNetPoints := m_awayNetPoints row;
     m_awayGoalsScored := m_awayGoalsScored row;
     m_awayGoalsConceded := m_awayGoalsConceded row;
     m_awayWins := m_awayWins row;
     m_roundWinner := m_roundWinner row |}.

(** The [SET] list of the upsert of legs.
    src: src/repositories/tournament-knockout-results.ts:193-204 upsertBatch *)
Definition merge_leg (old row : KLeg) : KLeg :=
  {| l_eventId := l_eventId old;
     l_matchId := l_matchId old;
     l_playAgainstId := l_playAgainstId old;
     l_homeEntryId := l_homeEntryId row;
     l_homeNetPoints := l_homeNetPoints row;
     l_homeGoalsScored := l_homeGoalsScored row;
     l_homeGoalsConceded := l_homeGoalsConceded row;
     l_awayEntryId := l_awayEntryId row;
     l_awayNetPoints := l_awayNetPoints row;
     l_awayGoalsScored := l_awayGoalsScored row;
     l_awayGoalsConceded := l_awayGoalsConceded row;
     l_matchWinner := l_matchWinner row |}.

(** An integer column takes a count of halves only when it is whole. *)
Definition whole_wins (w : option Z) : bool :=
  match w with Some h => Z.even h | None => true end.

(** src: src/repositories/tournament-knockouts.ts:234-285 upsertBatch *)
Definition upsert_matches (rows table : list KMatch) : result (list KMatch) :=
  reject_if negb (forallb (λ m, whole_wins (m_homeWins m) && whole_wins (m_awayWins m)) rows)
    with_code "TOURNAMENT_KNOCKOUT_UPSERT_ERROR" ;;
  Ok (upsert_batch m_matchId merge_match rows table).

(** src: src/repositories/tournament-knockout-results.ts:166-217 upsertBatch *)
Definition upsert_legs (rows table : list KLeg) : list KLeg :=
  upsert_batch leg_key merge_leg rows table.

(** src: src/repositories/tournament-knockouts.ts:21-56 findByTournamentAndEndedEvent *)
Definition find_matches_by_ended (eventId : Z) (table : list KMatch) : list KMatch :=
  js_sort (by_key m_matchId) (filter (λ m, m_endedEventId m = eventId) table).

(** src: src/repositories/tournament-knockouts.ts:58-93 findByTournamentAndRound *)
Definition find_matches_by_round (round : Z) (table : list KMatch) : list KMatch :=
  js_sort (by_key m_matchId) (filter (λ m, m_round m = round) table).

(** src: src/repositories/tournament-knockout-results.ts:21-56 findByTournamentAndEvent *)
Definition find_legs_by_event (eventId : Z) (table : list KLeg) : list KLeg :=
  js_sort (by_key l_matchId) (filter (λ l, l_eventId l = eventId) table).

(** src: src/repositories/tournament-knockout-results.ts:58-95 findByTournamentAndMatchIds *)
Definition find_legs_by_match_ids (matchIds : list Z) (table : list KLeg) : list KLeg :=
  if is_nil matchIds then [] else filter (λ l, l_matchId l ∈ matchIds) table.

(** ** Inputs of a gameweek *)

(** One element of the picks payload. *)
Record Pick := mkPick { pk_element : Z; pk_position : Z }.

(** The columns of an entry's event result the service reads ([eventPicks] that is not an array
    is no picks).
    src: src/db/schemas/platform.schema.ts:2999-3013 entryEventResultsInCompetition *)
Record EntryEventResult := mkEventResult {
  er_entryId : Z;
  er_eventNetPoints : Z;
  er_eventChip : option string;
  er_eventPicks : list Pick;
}.

(** src: src/services/tournament-knockout-results.service.ts:49-55 loadFinalizedKnockoutLiveMap *)
Record EventLive := mkLive {
  el_elementId : Z;
  el_goalsScored : option Z;
  el_goalsConceded : option Z;
}.

(** src: src/services/tournament-knockout-results.service.ts:38-43 pickElements *)
Definition pickElements (picks : list Pick) (chip : option string) : list Z :=
  if bool_decide (chip = Some "bboost") then pk_element <$> picks
  else pk_element <$> filter (λ p, pk_position p ≤ 11) picks.

(** src: src/services/tournament-knockout-results.service.ts:45-74 loadFinalizedKnockoutLiveMap *)
Definition loadFinalizedKnockoutLiveMap (eventLives : list EventLive)
    (requiredElementIds : list Z) : result (list (Z * (option Z * option Z))) :=
  let liveMap := map_of_entries
    ((λ live, (el_elementId live, (el_goalsScored live, el_goalsConceded live))) <$> eventLives) in
  let missingElementIds := filter (λ id, map_has id liveMap = false) (dedup requiredElementIds) in
  reject_if negb (is_nil missingElementIds) with_code "KNOCKOUT_LIVE_INCOMPLETE" ;;
  Ok liveMap.

(** src: src/services/tournament-knockout-results.service.ts:76-89 sumGoals *)
Definition sumGoals (elementIds : list Z) (liveMap : list (Z * (option Z * option Z))) : Z * Z :=
  fold_left (λ acc elementId,
    let live := map_get elementId liveMap in
    (acc.1 + nullish (live ≫= fst) 0, acc.2 + nullish (live ≫= snd) 0)) elementIds (0, 0).

(** src: src/services/tournament-knockout-results.service.ts:91-117 resolveMatchWinner *)
Definition resolveMatchWinner (homeEntryId awayEntryId : option Z)
    (homeNetPoints awayNetPoints homeGoalsScored awayGoalsScored
     homeGoalsConceded awayGoalsConceded : Z) : option Z :=
  if negb (truthy homeEntryId) then awayEntryId else
  if negb (truthy awayEntryId) then homeEntryId else
  if awayNetPoints <? homeNetPoints then homeEntryId else
  if homeNetPoints <? awayNetPoints then awayEntryId else
  if awayGoalsScored <? homeGoalsScored then homeEntryId else
  if homeGoalsScored <? awayGoalsScored then awayEntryId else
  if homeGoalsConceded <? awayGoalsConceded then homeEntryId else
  if awayGoalsConceded <? homeGoalsConceded then awayEntryId else
  if nullish homeEntryId 0 <=? nullish awayEntryId 0 then homeEntryId else awayEntryId.

(** Twice what one leg adds to [winningNum].
    src: src/services/tournament-knockout-results.service.ts:133-149 calcEntryWinningNum *)
Definition leg_half_wins (r : KLeg) (entryId : option Z) : Z :=
  let homeNet := nullish (l_homeNetPoints r) 0 in
  let awayNet := nullish (l_awayNetPoints r) 0 in
  let home := bool_decide (l_homeEntryId r = entryId) in
  let away := bool_decide (l_awayEntryId r = entryId) in
  if home && is_null (l_awayEntryId r) then 2
  else if away && is_null (l_homeEntryId r) then 2
  else if home && (awayNet <? homeNet) then 2
  else if away && (homeNet <? awayNet) then 2
  else if (homeNet =? awayNet) && (home || away) then 1
  else 0.

(** src: src/services/tournament-knockout-results.service.ts:119-152 calcEntryWinningNum *)
Definition calcEntryWinningNum (results : list KLeg) (entryId : option Z) : Z :=
  if negb (truthy entryId) then 0
  else fold_left (λ winningNum r, winningNum + leg_half_wins r entryId) results 0.

(** Net points, goals scored and goals conceded of one entrant. *)
Record SideTotals := mkTotals { st_net : Z; st_scored : Z; st_conceded : Z }.

Definition add_home (acc : SideTotals) (r : KLeg) : SideTotals :=
  {| st_net := st_net acc + nullish (l_homeNetPoints r) 0;
     st_scored := st_scored acc + nullish (l_homeGoalsScored r) 0;
     st_conceded := st_conceded acc + nullish (l_homeGoalsConceded r) 0 |}.
Definition add_away (acc : SideTotals) (r : KLeg) : SideTotals :=
  {| st_net := st_net acc + nullish (l_awayNetPoints r) 0;
     st_scored := st_scored acc + nullish (l_awayGoalsScored r) 0;
     st_conceded := st_conceded acc + nullish (l_awayGoalsConceded r) 0 |}.

(** The accumulation of the legs for the two entrants (written out twice in the code, once here
    and once in the transaction).
    src: src/services/tournament-knockout-results.service.ts:182-214 resolveRoundWinner *)
Definition leg_totals (results : list KLeg) (homeEntryId awayEntryId : option Z)
    : SideTotals * SideTotals :=
  fold_left (λ acc r,
    let '(home, away) := acc in
    let home := if bool_decide (l_homeEntryId r = homeEntryId) then add_home home r else home in
    let home := if bool_decide (l_awayEntryId r = homeEntryId) then add_away home r else home in
    let away := if bool_decide (l_homeEntryId r = awayEntryId) then add_home away r else away in
    let away := if bool_decide (l_awayEntryId r = awayEntryId) then add_away away r else away in
    (home, away)) results (mkTotals 0 0 0, mkTotals 0 0 0).

(** src: src/services/tournament-knockout-results.service.ts:154-226 resolveRoundWinner *)
Definition resolveRoundWinner (matchResults : list KLeg) (homeEntryId awayEntryId : option Z)
    : option Z :=
  match matchResults with
  | [] => None
  | [r] => l_matchWinner r
  | _ =>
      let winners := dedup (filter (λ w, truthy w = true) (l_matchWinner <$> matchResults)) in
      match winners with
      | [w] => w
      | _ =>
          let '(home, away) := leg_totals matchResults homeEntryId awayEntryId in
          resolveMatchWinner homeEntryId awayEntryId (st_net home) (st_net away)
            (st_scored home) (st_scored away) (st_conceded home) (st_conceded away)
      end
  end.

(** ** One gameweek *)

(** Net points and goals of an entrant of a leg.
    src: src/services/tournament-knockout-results.service.ts:295-306 syncKnockoutForTournament *)
Definition leg_score (eventResultMap : list (Z * EntryEventResult))
    (liveMap : list (Z * (option Z * option Z))) (entryId : option Z) : Z * (Z * Z) :=
  let entryResult := match entryId with
    | Some id => if negb (id =? 0) then map_get id eventResultMap else None
    | None => None
    end in
  let picks := match entryResult with Some r => er_eventPicks r | None => [] end in
  let elements := pickElements picks (entryResult ≫= er_eventChip) in
  (match entryResult with Some r => er_eventNetPoints r | None => 0 end,
   sumGoals elements liveMap).

(** src: src/services/tournament-knockout-results.service.ts:294-328 syncKnockoutForTournament *)
Definition score_leg (eventResultMap : list (Z * EntryEventResult))
    (liveMap : list (Z * (option Z * option Z))) (result : KLeg) : KLeg :=
  let '(homeNet, (homeScored, homeConceded)) :=
    leg_score eventResultMap liveMap (l_homeEntryId result) in
  let '(awayNet, (awayScored, awayConceded)) :=
    leg_score eventResultMap liveMap (l_awayEntryId result) in
  {| l_eventId := l_eventId result;
     l_matchId := l_matchId result;
     l_playAgainstId := l_playAgainstId result;
     l_homeEntryId := l_homeEntryId result;
     l_homeNetPoints := Some homeNet;
     l_homeGoalsScored := Some homeScored;
     l_homeGoalsConceded := Some homeConceded;
     l_awayEntryId := l_awayEntryId result;
     l_awayNetPoints := Some awayNet;
     l_awayGoalsScored := Some awayScored;
     l_awayGoalsConceded := Some awayConceded;
     l_matchWinner := resolveMatchWinner (l_homeEntryId result) (l_awayEntryId result)
       homeNet awayNet homeScored awayScored homeConceded awayConceded |}.

(** A match that ends with the gameweek, decided by its legs.
    src: src/services/tournament-knockout-results.service.ts:367-415 syncKnockoutForTournament *)
Definition decide_match (allMatchResults : list KLeg) (knockout : KMatch) : KMatch :=
  let results := filter (λ r, l_matchId r = m_matchId knockout) allMatchResults in
  let homeEntryId := m_homeEntryId knockout in
  let awayEntryId := m_awayEntryId knockout in
  let '(home, away) := leg_totals results homeEntryId awayEntryId in
  {| m_round := m_round knockout;
     m_startedEventId := m_startedEventId knockout;
     m_endedEventId := m_endedEventId knockout;
     m_matchId := m_matchId knockout;
     m_nextMatchId := m_nextMatchId knockout;
     m_homeEntryId := homeEntryId;
     m_homeNetPoints := Some (st_net home);
     m_homeGoalsScored := Some (st_scored home);
     m_homeGoalsConceded := Some (st_conceded home);
     m_homeWins := Some (calcEntryWinningNum results homeEntryId);
     m_awayEntryId := awayEntryId;
     m_awayNetPoints := Some (st_net away);
     m_awayGoalsScored := Some (st_scored away);
     m_awayGoalsConceded := Some (st_conceded away);
     m_awayWins := Some (calcEntryWinningNum results awayEntryId);
     m_roundWinner := resolveRoundWinner results homeEntryId awayEntryId |}.

(** The fields of [KnockoutRoundSummary] that are read again.
    src: src/services/tournament-knockout-results.service.ts:21-29 KnockoutRoundSummary *)
Record KnockoutRoundSummary := mkSummary {
  ks_nextRound : Z;
  ks_nextHomeEntryId : option Z;
  ks_nextAwayEntryId : option Z;
}.

(** src: src/services/tournament-knockout-results.service.ts:417-433 syncKnockoutForTournament *)
Definition note_winner (nextRoundMap : list (Z * KnockoutRoundSummary)) (knockout : KMatch)
    : list (Z * KnockoutRoundSummary) :=
  match m_nextMatchId knockout, m_roundWinner knockout with
  | Some next, Some winner =>
      if negb (next =? 0) && negb (winner =? 0) then
        let existing := default
          {| ks_nextRound := m_round knockout + 1;
             ks_nextHomeEntryId := None;
             ks_nextAwayEntryId := None |} (map_get next nextRoundMap) in
        let updated :=
          if m_matchId knockout mod 2 =? 1
          then mkSummary (ks_nextRound existing) (Some winner) (ks_nextAwayEntryId existing)
          else mkSummary (ks_nextRound existing) (ks_nextHomeEntryId existing) (Some winner) in
        map_set next updated nextRoundMap
      else nextRoundMap
  | _, _ => nextRoundMap
  end.

Definition set_match_entries (m : KMatch) (home away : option Z) : KMatch :=
  {| m_round := m_round m;
     m_startedEventId := m_startedEventId m;
     m_endedEventId := m_endedEventId m;
     m_matchId := m_matchId m;
     m_nextMatchId := m_nextMatchId m;
     m_homeEntryId := home;
     m_homeNetPoints := m_homeNetPoints m;
     m_homeGoalsScored := m_homeGoalsScored m;
     m_homeGoalsConceded := m_homeGoalsConceded m;
     m_homeWins := m_homeWins m;
     m_awayEntryId := away;
     m_awayNetPoints := m_awayNetPoints m;
     m_awayGoalsScored := m_awayGoalsScored m;
     m_awayGoalsConceded := m_awayGoalsConceded m;
     m_awayWins := m_awayWins m;
     m_roundWinner := m_roundWinner m |}.

Definition set_leg_entries (l : KLeg) (home away : option Z) : KLeg :=
  {| l_eventId := l_eventId l;
     l_matchId := l_matchId l;
     l_playAgainstId := l_playAgainstId l;
     l_homeEntryId := home;
     l_homeNetPoints := l_homeNetPoints l;
     l_homeGoalsScored := l_homeGoalsScored l;
     l_homeGoalsConceded := l_homeGoalsConceded l;
     l_awayEntryId := away;
     l_awayNetPoints := l_awayNetPoints l;
     l_awayGoalsScored := l_awayGoalsScored l;
     l_awayGoalsConceded := l_awayGoalsConceded l;
     l_matchWinner := l_matchWinner l |}.

(** src: src/services/tournament-knockout-results.service.ts:447-457 syncKnockoutForTournament *)
Definition seed_next_match (nextRoundMap : list (Z * KnockoutRoundSummary)) (knockout : KMatch)
    : KMatch :=
  match map_get (m_matchId knockout) nextRoundMap with
  | None => knockout
  | Some nextData =>
      set_match_entries knockout
        (nullish_or (ks_nextHomeEntryId nextData) (m_homeEntryId knockout))
        (nullish_or (ks_nextAwayEntryId nextData) (m_awayEntryId knockout))
  end.

(** src: src/services/tournament-knockout-results.service.ts:466-482 syncKnockoutForTournament *)
Definition seed_next_leg (nextRoundMap : list (Z * KnockoutRoundSummary)) (result : KLeg)
    : KLeg :=
  match map_get (l_matchId result) nextRoundMap with
  | None => result
  | Some nextData =>
      let homeEntryId := ks_nextHomeEntryId nextData in
      let awayEntryId := ks_nextAwayEntryId nextData in
      if negb (truthy homeEntryId) || negb (truthy awayEntryId) then result else
      if l_playAgainstId result mod 2 =? 0
      then set_leg_entries result awayEntryId homeEntryId
      else set_leg_entries result homeEntryId awayEntryId
  end.

(** Seeding of the next round from the recorded winners.
    src: src/services/tournament-knockout-results.service.ts:438-484 syncKnockoutForTournament *)
Definition seed_next_round (nextRoundMap : list (Z * KnockoutRoundSummary)) (tables : KnockoutTables)
    : result KnockoutTables :=
  match nextRoundMap with
  | [] => Ok tables
  | (_, first) :: _ =>
      let nextRound := ks_nextRound first in
      if nextRound =? 0 then Ok tables else
      let nextKnockouts := find_matches_by_round nextRound (kt_matches tables) in
      let* matches := upsert_matches (seed_next_match nextRoundMap <$> nextKnockouts)
                        (kt_matches tables) in
      let nextResults := find_legs_by_match_ids (map_keys nextRoundMap) (kt_legs tables) in
      Ok (mkTables matches
            (upsert_legs (seed_next_leg nextRoundMap <$> nextResults) (kt_legs tables)))
  end.

(** The transaction.
    src: src/services/tournament-knockout-results.service.ts:334-491 syncKnockoutForTournament *)
Definition knockout_transaction (eventId : Z) (updatedResults : list KLeg)
    (tables : KnockoutTables) : result KnockoutTables :=
  let legs := upsert_legs updatedResults (kt_legs tables) in
  let matchIds := dedup (l_matchId <$> updatedResults) in
  let allMatchResults := find_legs_by_match_ids matchIds legs in
  let knockouts := find_matches_by_ended eventId (kt_matches tables) in
  let updatedKnockouts := decide_match allMatchResults <$> knockouts in
  let nextRoundMap := fold_left note_winner updatedKnockouts [] in
  let* matches := upsert_matches updatedKnockouts (kt_matches tables) in
  seed_next_round nextRoundMap (mkTables matches legs).

(** The elements whose live rows must be final.
    src: src/services/tournament-knockout-results.service.ts:281-291 syncKnockoutForTournament *)
Fixpoint required_elements (eventResultMap : list (Z * EntryEventResult)) (entryIds : list Z)
    : result (list Z) :=
  match entryIds with
  | [] => Ok []
  | id :: rest =>
      match map_get id eventResultMap with
      | None => Throw "KNOCKOUT_PICKS_MISSING"
      | Some r =>
          reject_if is_nil (er_eventPicks r) with_code "KNOCKOUT_PICKS_MISSING" ;;
          let* more := required_elements eventResultMap rest in
          Ok (pickElements (er_eventPicks r) (er_eventChip r) ++ more)
      end
  end.

(** From the fixtures of the gameweek on; [tables] is what the round-one seeding left, and
    [eventResults] and [eventLives] are the rows of the gameweek.
    src: src/services/tournament-knockout-results.service.ts:246-492 syncKnockoutForTournament *)
Definition sync_seeded (eventId : Z) (eventResults : list EntryEventResult)
    (eventLives : list EventLive) (tables : KnockoutTables) : result KnockoutTables :=
  if is_nil eventResults then Ok tables else
  let eventResultMap := map_by er_entryId eventResults in
  let knockoutResults := find_legs_by_event eventId (kt_legs tables) in
  if is_nil knockoutResults then Ok tables else
  reject_if existsb (λ r, is_null (l_homeEntryId r) && is_null (l_awayEntryId r)) knockoutResults
    with_code "KNOCKOUT_NOT_SEEDED" ;;
  let participatingEntryIds := dedup (filter (λ id, 0 < id)
    (omap id (flat_map (λ r, [l_homeEntryId r; l_awayEntryId r]) knockoutResults))) in
  let* requiredElementIds := required_elements eventResultMap participatingEntryIds in
  let* liveMap := loadFinalizedKnockoutLiveMap eventLives requiredElementIds in
  knockout_transaction eventId (score_leg eventResultMap liveMap <$> knockoutResults) tables.

(** ** Winner of a match *)

(** [a] beats [b]: more net points, then more goals scored, then fewer goals conceded, then the
    lower entry id. *)
Definition beats (a : Z) (na sa ca : Z) (b : Z) (nb sb cb : Z) : Prop :=
  nb < na ∨ na = nb ∧ (sb < sa ∨ sa = sb ∧ (ca < cb ∨ ca = cb ∧ a < b)).

(** Between two entrants the winner is decided by net points, goals scored, goals conceded and
    entry id, in that order, so it is always one of the two and does not depend on who is written
    as the home side; an entrant without opponent wins. *)
Theorem resolveMatchWinner_fair (h a hn an hs sa hc ac : Z)
  (Hh : 0 < h) (Ha : 0 < a) (Hne : h ≠ a) :
  let winner := resolveMatchWinner (Some h) (Some a) hn an hs sa hc ac in
  (winner = Some h ↔ beats h hn hs hc a an sa ac) ∧
  (winner = Some a ↔ beats a an sa ac h hn hs hc) ∧
  (winner = Some h ∨ winner = Some a) ∧
  winner = resolveMatchWinner (Some a) (Some h) an hn sa hs ac hc ∧
  resolveMatchWinner (Some h) None hn an hs sa hc ac = Some h ∧
  resolveMatchWinner None (Some a) hn an hs sa hc ac = Some a.
Proof.
  unfold resolveMatchWinner, beats, truthy.
  destruct (Z.eqb_spec h 0), (Z.eqb_spec a 0); try lia. cbn [negb nullish from_option id].
  destruct (Z.ltb_spec an hn), (Z.ltb_spec hn an); try lia;
    destruct (Z.ltb_spec sa hs), (Z.ltb_spec hs sa); try lia;
    destruct (Z.ltb_spec hc ac), (Z.ltb_spec ac hc); try lia;
    destruct (Z.leb_spec h a), (Z.leb_spec a h); try lia;
    split_and!; try (split; intros; simplify_eq; done || lia || (exfalso; lia)); auto.
Qed.

Lemma resolveMatchWinner_fair_witness :
  (0 < 7 ∧ 0 < 4 ∧ 7 ≠ 4) ∧
  resolveMatchWinner (Some 7) (Some 4) 50 50 3 3 1 1
  = resolveMatchWinner (Some 4) (Some 7) 50 50 3 3 1 1.
Proof.
  split; [lia|].
  exact (proj1 (proj2 (proj2 (proj2
    (resolveMatchWinner_fair 7 4 50 50 3 3 1 1 ltac:(lia) ltac:(lia) ltac:(lia)))))).
Defined.

(** ** The seeding map *)

(** The last recorded winner that goes to slot [n] from matches of the given parity. *)
Definition feeds (n : Z) (odd : bool) (m : KMatch) : option Z :=
  if bool_decide (m_nextMatchId m = Some n) && Bool.eqb (m_matchId m mod 2 =? 1) odd
     && truthy (m_roundWinner m)
  then m_roundWinner m else None.

Lemma feeds_Some n odd m w :
  feeds n odd m = Some w ↔
  m_nextMatchId m = Some n ∧ (m_matchId m mod 2 =? 1) = odd ∧ m_roundWinner m = Some w ∧ w ≠ 0.
Proof.
  unfold feeds. rewrite <-eqb_true_iff. destruct (m_roundWinner m) as [w'|]; simpl.
  - destruct (Z.eqb_spec w' 0), (Bool.eqb _ odd), (decide (m_nextMatchId m = Some n));
      rewrite ?bool_decide_eq_true_2, ?bool_decide_eq_false_2 by done; simpl; naive_solver.
  - rewrite andb_false_r. naive_solver.
Qed.

Definition slot_winner (n : Z) (odd : bool) (ms : list KMatch) : option Z :=
  last (omap (feeds n odd) ms).

Lemma slot_winner_snoc n odd ms m :
  slot_winner n odd (ms ++ [m]) =
  match feeds n odd m with Some w => Some w | None => slot_winner n odd ms end.
Proof.
  unfold slot_winner. rewrite omap_app. simpl. destruct (feeds n odd m); simpl.
  - by rewrite last_snoc.
  - by rewrite app_nil_r.
Qed.

Definition summary_of (r n : Z) (ms : list KMatch) : option KnockoutRoundSummary :=
  let home := slot_winner n true ms in
  let away := slot_winner n false ms in
  if is_null home && is_null away then None else Some (mkSummary (r + 1) home away).

Lemma seeding_map_get r ms n :
  n ≠ 0 → (∀ m, m ∈ ms → m_round m = r) →
  map_get n (fold_left note_winner ms []) = summary_of r n ms.
Proof.
  intros Hn. induction ms as [|m ms IH] using rev_ind; intros Hr; [done|].
  rewrite fold_left_app. simpl. unfold summary_of. rewrite !slot_winner_snoc.
  specialize (IH ltac:(set_solver)). unfold summary_of in IH.
  assert (m_round m = r) as Hmr by set_solver.
  unfold note_winner at 1, feeds, truthy.
  destruct (m_nextMatchId m) as [next|]; [|by rewrite bool_decide_eq_false_2].
  destruct (m_roundWinner m) as [w|]; [|by rewrite !andb_false_r].
  destruct (Z.eqb_spec w 0) as [->|Hw]; simpl negb; [by rewrite !andb_false_r|].
  rewrite !andb_true_r.
  destruct (Z.eqb_spec next 0) as [->|Hnext]; simpl negb.
  { by rewrite bool_decide_eq_false_2 by congruence. }
  cbn [andb]. rewrite map_get_set. destruct (decide (n = next)) as [->|Hne].
  - rewrite bool_decide_eq_true_2 by done. rewrite IH. cbn [andb].
    destruct (m_matchId m mod 2 =? 1); simpl;
      destruct (slot_winner next true ms), (slot_winner next false ms); simpl; by rewrite ?Hmr.
  - rewrite bool_decide_eq_false_2 by congruence. done.
Qed.

Lemma seeding_map_keys ms n :
  n ∈ map_keys (fold_left note_winner ms []) →
  ∃ m, m ∈ ms ∧ m_nextMatchId m = Some n ∧ truthy (m_roundWinner m) = true ∧ n ≠ 0.
Proof.
  induction ms as [|m ms IH] using rev_ind; [simpl; set_solver|].
  assert (n ∈ map_keys (fold_left note_winner ms []) → ∃ m', m' ∈ ms ++ [m] ∧
    m_nextMatchId m' = Some n ∧ truthy (m_roundWinner m') = true ∧ n ≠ 0) as Hold.
  { intros Hin. destruct (IH Hin) as (m' & ? & ?). exists m'. rewrite elem_of_app. auto. }
  rewrite fold_left_app. simpl. unfold note_winner at 1.
  destruct (m_nextMatchId m) as [next|] eqn:En; [|done].
  destruct (m_roundWinner m) as [w|] eqn:Ew; [|done].
  destruct (Z.eqb_spec next 0), (Z.eqb_spec w 0); simpl; try done.
  intros [->|Hin]%elem_of_map_keys_set; [|by apply Hold].
  exists m. rewrite Ew, En. simpl. destruct (Z.eqb_spec w 0); [done|].
  split_and!; [|done..]. rewrite elem_of_app, list_elem_of_singleton. auto.
Qed.

Lemma slot_winner_unique n odd ms m w :
  (∀ m', m' ∈ ms → m_nextMatchId m' = Some n → (m_matchId m' mod 2 =? 1) = odd → m' = m) →
  m ∈ ms → feeds n odd m = Some w → slot_winner n odd ms = Some w.
Proof.
  induction ms as [|x ms IH] using rev_ind; [set_solver|].
  intros Huniq Hm Hw. rewrite slot_winner_snoc. destruct (feeds n odd x) as [w'|] eqn:Ex.
  - assert (x = m) as ->; [|congruence].
    apply feeds_Some in Ex as (? & ? & _). apply Huniq; set_solver.
  - apply IH; [set_solver| |done]. apply elem_of_app in Hm as [Hm|Hm]; [done|].
    assert (m = x) as -> by set_solver. congruence.
Qed.

(** ** The transaction in closed form *)

(** Tables before the transaction of the last gameweek [e] of round [r]. *)
Record knockout_shape (e r : Z) (results : list KLeg) (t : KnockoutTables) : Prop := {
  sh_ids : NoDup (m_matchId <$> kt_matches t);
  sh_legs : NoDup (leg_key <$> kt_legs t);
  sh_round : ∀ m, m ∈ kt_matches t → m_endedEventId m = e → m_round m = r;
  sh_round_pos : 0 < r;
  sh_next : ∀ m n, m ∈ kt_matches t → m_endedEventId m = e → m_nextMatchId m = Some n →
    n ≠ 0 ∧ ∀ x, x ∈ kt_matches t → m_matchId x = n → m_round x = r + 1;
  sh_parity : ∀ m m', m ∈ kt_matches t → m' ∈ kt_matches t →
    m_endedEventId m = e → m_endedEventId m' = e → is_Some (m_nextMatchId m) →
    m_nextMatchId m = m_nextMatchId m' → m_matchId m mod 2 = m_matchId m' mod 2 → m = m';
  sh_results : NoDup (leg_key <$> results);
  sh_results_in : ∀ x, x ∈ results → leg_key x ∈ leg_key <$> kt_legs t;
}.

Section transaction.
Context (e r : Z) (results : list KLeg).

Definition tx_legs (t : KnockoutTables) : list KLeg := upsert_legs results (kt_legs t).
Definition tx_results (t : KnockoutTables) : list KLeg :=
  find_legs_by_match_ids (dedup (l_matchId <$> results)) (tx_legs t).
Definition tx_decided (t : KnockoutTables) (m : KMatch) : KMatch :=
  if decide (m_endedEventId m = e) then decide_match (tx_results t) m else m.
Definition tx_seeding (t : KnockoutTables) : list (Z * KnockoutRoundSummary) :=
  fold_left note_winner (decide_match (tx_results t) <$> find_matches_by_ended e (kt_matches t)) [].

Lemma merge_leg_key old row : leg_key (merge_leg old row) = leg_key old.
Proof. done. Qed.
Lemma merge_match_key old row : m_matchId (merge_match old row) = m_matchId old.
Proof. done. Qed.

Lemma decide_match_static rs m :
  m_matchId (decide_match rs m) = m_matchId m ∧ m_round (decide_match rs m) = m_round m ∧
  m_endedEventId (decide_match rs m) = m_endedEventId m ∧
  m_nextMatchId (decide_match rs m) = m_nextMatchId m ∧
  m_homeEntryId (decide_match rs m) = m_homeEntryId m ∧
  m_awayEntryId (decide_match rs m) = m_awayEntryId m ∧
  merge_match m (decide_match rs m) = decide_match rs m.
Proof. unfold decide_match. destruct (leg_totals _ _ _). by split_and!. Qed.

Lemma seed_next_match_static nrm m :
  m_matchId (seed_next_match nrm m) = m_matchId m ∧ m_round (seed_next_match nrm m) = m_round m ∧
  m_endedEventId (seed_next_match nrm m) = m_endedEventId m ∧
  m_nextMatchId (seed_next_match nrm m) = m_nextMatchId m ∧
  m_roundWinner (seed_next_match nrm m) = m_roundWinner m ∧
  merge_match m (seed_next_match nrm m) = seed_next_match nrm m.
Proof. unfold seed_next_match. destruct (map_get _ _), m; by split_and!. Qed.

Lemma seed_next_leg_static nrm l :
  leg_key (seed_next_leg nrm l) = leg_key l ∧
  l_matchId (seed_next_leg nrm l) = l_matchId l ∧
  merge_leg l (seed_next_leg nrm l) = seed_next_leg nrm l.
Proof. unfold seed_next_leg. destruct (map_get _ _), l; [|done]. case_match; [done|]. by case_match. Qed.

Lemma tx_decided_static t m :
  m_matchId (tx_decided t m) = m_matchId m ∧ m_round (tx_decided t m) = m_round m ∧
  m_endedEventId (tx_decided t m) = m_endedEventId m ∧
  m_nextMatchId (tx_decided t m) = m_nextMatchId m.
Proof.
  unfold tx_decided. case_decide; [|done]. pose proof (decide_match_static (tx_results t) m). tauto.
Qed.

Lemma tx_decided_keys t : m_matchId <$> (tx_decided t <$> kt_matches t) = m_matchId <$> kt_matches t.
Proof. rewrite <-list_fmap_compose. apply list_fmap_ext. intros. apply tx_decided_static. Qed.

Lemma tx_legs_keys t :
  knockout_shape e r results t → leg_key <$> tx_legs t = leg_key <$> kt_legs t.
Proof. intros Hs. apply upsert_batch_keys; [done|]. apply (sh_results_in _ _ _ _ Hs). Qed.

Lemma elem_of_ended t m :
  m ∈ decide_match (tx_results t) <$> find_matches_by_ended e (kt_matches t) ↔
  ∃ m0, m0 ∈ kt_matches t ∧ m_endedEventId m0 = e ∧ m = decide_match (tx_results t) m0.
Proof.
  rewrite list_elem_of_fmap. unfold find_matches_by_ended.
  setoid_rewrite elem_of_js_sort. setoid_rewrite list_elem_of_filter. naive_solver.
Qed.

Lemma tx_round t m :
  knockout_shape e r results t →
  m ∈ decide_match (tx_results t) <$> find_matches_by_ended e (kt_matches t) → m_round m = r.
Proof.
  intros Hs (m0 & Hm0 & He & ->)%elem_of_ended.
  destruct (decide_match_static (tx_results t) m0) as (_ & -> & _).
  by apply (sh_round _ _ _ _ Hs).
Qed.

(** Only matches of the next round are seeded. *)
Lemma seed_next_match_other t m :
  knockout_shape e r results t → m ∈ kt_matches t → m_round (tx_decided t m) ≠ r + 1 →
  seed_next_match (tx_seeding t) (tx_decided t m) = tx_decided t m.
Proof.
  intros Hs Hm Hr. unfold seed_next_match.
  destruct (map_get _ _) eqn:Hget; [|done]. exfalso. apply Hr.
  assert (m_matchId m ∈ map_keys (tx_seeding t)) as Hin.
  { apply map_get_is_Some. destruct (tx_decided_static t m) as (<- & _). by eexists. }
  apply seeding_map_keys in Hin as (x & (x0 & Hx0 & He & ->)%elem_of_ended & Hnext & _ & _).
  destruct (decide_match_static (tx_results t) x0) as (_ & _ & _ & Hn & _). rewrite Hn in Hnext.
  destruct (sh_next _ _ _ _ Hs _ _ Hx0 He Hnext) as [_ Hx].
  destruct (tx_decided_static t m) as (_ & -> & _). by apply Hx.
Qed.

Lemma knockout_transaction_closed t t' :
  knockout_shape e r results t → knockout_transaction e results t = Ok t' →
  kt_matches t' = (λ m, seed_next_match (tx_seeding t) (tx_decided t m)) <$> kt_matches t ∧
  kt_legs t' = seed_next_leg (tx_seeding t) <$> tx_legs t.
Proof.
  intros Hs Hok. unfold knockout_transaction in Hok. fold (tx_legs t) in Hok.
  fold (tx_results t) (tx_seeding t) in Hok.
  apply result_bind_ok in Hok as (matches & Hm & Hok).
  assert (matches = tx_decided t <$> kt_matches t) as ->.
  { unfold upsert_matches in Hm. inv_ok.
    apply (upsert_batch_image m_matchId merge_match merge_match_key).
    - apply (sh_ids _ _ _ _ Hs).
    - unfold find_matches_by_ended. by rewrite js_sort_perm.
    - intros. apply decide_match_static.
    - intros. apply decide_match_static. }
  clear Hm. unfold seed_next_round in Hok.
  destruct (tx_seeding t) as [|[n0 first] rest] eqn:Enrm.
  { injection Hok as <-. simpl. split; [done|]. symmetry. apply list_fmap_id. }
  assert (ks_nextRound first = r + 1) as Hnext.
  { assert (map_get n0 (tx_seeding t) = Some first) as Hget
      by (rewrite Enrm; simpl; by rewrite decide_True).
    assert (n0 ∈ map_keys (tx_seeding t)) as Hin by (rewrite Enrm; simpl; set_solver).
    apply seeding_map_keys in Hin as (? & _ & _ & _ & Hn0).
    unfold tx_seeding in Hget. rewrite (seeding_map_get r) in Hget; [|done|intros; by eapply tx_round].
    unfold summary_of in Hget. case_match; by simplify_eq/=. }
  pose proof (sh_round_pos _ _ _ _ Hs). rewrite Hnext in Hok.
  destruct (Z.eqb_spec (r + 1) 0); [lia|]. rewrite <-Enrm in *.
  apply result_bind_ok in Hok as (matches & Hm & Hok). injection Hok as <-. simpl. split.
  - unfold upsert_matches in Hm. inv_ok.
    rewrite (upsert_batch_image m_matchId merge_match merge_match_key
      (λ m, m_round m = r + 1) (seed_next_match (tx_seeding t))).
    + rewrite <-list_fmap_compose. apply list_fmap_ext. intros i m Hm%list_elem_of_lookup_2.
      unfold compose. case_decide as Hr1; [done|]. symmetry. by apply (seed_next_match_other t).
    + rewrite tx_decided_keys. apply (sh_ids _ _ _ _ Hs).
    + unfold find_matches_by_round. by rewrite js_sort_perm.
    + intros. apply seed_next_match_static.
    + intros. apply seed_next_match_static.
  - unfold upsert_legs. unfold find_legs_by_match_ids.
    destruct (is_nil (map_keys (tx_seeding t))) eqn:Enil; [rewrite Enrm in Enil; done|].
    rewrite (upsert_batch_image leg_key merge_leg merge_leg_key
      (λ l, l_matchId l ∈ map_keys (tx_seeding t)) (seed_next_leg (tx_seeding t))).
    + apply list_fmap_ext. intros i l _. case_decide as Hin; [done|].
      unfold seed_next_leg. by rewrite (proj2 (map_get_None _ _) Hin).
    + rewrite tx_legs_keys by done. apply (sh_legs _ _ _ _ Hs).
    + done.
    + intros. apply seed_next_leg_static.
    + intros. apply seed_next_leg_static.
Qed.

Lemma slot_of_winner t m n w :
  knockout_shape e r results t → m ∈ kt_matches t → m_endedEventId m = e →
  m_nextMatchId m = Some n → m_roundWinner (decide_match (tx_results t) m) = Some w → w ≠ 0 →
  n ≠ 0 ∧
  slot_winner n (m_matchId m mod 2 =? 1)
    (decide_match (tx_results t) <$> find_matches_by_ended e (kt_matches t)) = Some w.
Proof.
  intros Hs Hm He Hn Hw Hw0. destruct (sh_next _ _ _ _ Hs _ _ Hm He Hn) as [Hn0 _].
  split; [done|].
  destruct (decide_match_static (tx_results t) m) as (Hid & _ & _ & Hnx & _).
  apply (slot_winner_unique _ _ _ (decide_match (tx_results t) m)).
  - intros x' (x & Hx & Hex & ->)%elem_of_ended Hnx' Hpar. f_equal.
    destruct (decide_match_static (tx_results t) x) as (Hidx & _ & _ & Hnxx & _).
    rewrite Hnxx in Hnx'. rewrite Hidx in Hpar. symmetry.
    apply (sh_parity _ _ _ _ Hs); try done; try (by eexists); try congruence.
    destruct (Z.eqb_spec (m_matchId x mod 2) 1), (Z.eqb_spec (m_matchId m mod 2) 1);
      try done; divlia.
  - apply elem_of_ended. by exists m.
  - apply feeds_Some. rewrite Hnx, Hid. done.
Qed.

Lemma seeding_of_winner t m n w :
  knockout_shape e r results t → m ∈ kt_matches t → m_endedEventId m = e →
  m_nextMatchId m = Some n → m_roundWinner (decide_match (tx_results t) m) = Some w → w ≠ 0 →
  ∃ s, map_get n (tx_seeding t) = Some s ∧
    (if m_matchId m mod 2 =? 1 then ks_nextHomeEntryId s else ks_nextAwayEntryId s) = Some w.
Proof.
  intros Hs Hm He Hn Hw Hw0. destruct (slot_of_winner t m n w) as [Hn0 Hslot]; try done.
  unfold tx_seeding. rewrite (seeding_map_get r); [|done|intros; by eapply tx_round].
  unfold summary_of. destruct (m_matchId m mod 2 =? 1); rewrite Hslot; simpl.
  - by eexists.
  - rewrite andb_false_r. by eexists.
Qed.

(** A match of the new table, from the match of the old one. *)
Lemma elem_of_new_matches t t' m' :
  knockout_shape e r results t → knockout_transaction e results t = Ok t' →
  m' ∈ kt_matches t' ↔
  ∃ m, m ∈ kt_matches t ∧ m' = seed_next_match (tx_seeding t) (tx_decided t m).
Proof.
  intros Hs Hok. destruct (knockout_transaction_closed _ _ Hs Hok) as [-> _].
  rewrite list_elem_of_fmap. naive_solver.
Qed.

Lemma new_winner t t' m' n w :
  knockout_shape e r results t → knockout_transaction e results t = Ok t' →
  m' ∈ kt_matches t' → m_endedEventId m' = e → m_nextMatchId m' = Some n →
  m_roundWinner m' = Some w → w ≠ 0 →
  ∃ s, map_get n (tx_seeding t) = Some s ∧
    (if m_matchId m' mod 2 =? 1 then ks_nextHomeEntryId s else ks_nextAwayEntryId s) = Some w.
Proof.
  intros Hs Hok Hm' He Hn Hw Hw0.
  apply (elem_of_new_matches t t') in Hm' as (m & Hm & ->); [|done..].
  destruct (seed_next_match_static (tx_seeding t) (tx_decided t m)) as (Hid & _ & He' & Hn' & Hw' & _).
  destruct (tx_decided_static t m) as (Hid0 & _ & He0 & Hn0).
  rewrite Hid, Hid0. rewrite He', He0 in He. rewrite Hn', Hn0 in Hn. rewrite Hw' in Hw.
  apply seeding_of_winner; try done. unfold tx_decided in Hw. by rewrite decide_True in Hw.
Qed.
End transaction.

Lemma transaction_advances (e r : Z) (results : list KLeg) (t t' : KnockoutTables)
  (Hs : knockout_shape e r results t) (Hok : knockout_transaction e results t = Ok t') :
  (m_matchId <$> kt_matches t') = (m_matchId <$> kt_matches t) ∧
  (∀ m n w x, m ∈ kt_matches t' → m_endedEventId m = e → m_nextMatchId m = Some n →
     m_roundWinner m = Some w → w ≠ 0 → x ∈ kt_matches t' → m_matchId x = n →
     (if m_matchId m mod 2 =? 1 then m_homeEntryId x else m_awayEntryId x) = Some w) ∧
  (∀ m1 m2 n w1 w2 l, m1 ∈ kt_matches t' → m2 ∈ kt_matches t' →
     m_endedEventId m1 = e → m_endedEventId m2 = e →
     m_nextMatchId m1 = Some n → m_nextMatchId m2 = Some n →
     m_matchId m1 mod 2 = 1 → m_matchId m2 mod 2 = 0 →
     m_roundWinner m1 = Some w1 → m_roundWinner m2 = Some w2 → w1 ≠ 0 → w2 ≠ 0 →
     l ∈ kt_legs t' → l_matchId l = n →
     (l_homeEntryId l, l_awayEntryId l) =
       if l_playAgainstId l mod 2 =? 0 then (Some w2, Some w1) else (Some w1, Some w2)) ∧
  (∀ m, m ∈ kt_matches t → m_endedEventId m ≠ e →
     (∀ m', m' ∈ kt_matches t' → m_endedEventId m' = e → m_nextMatchId m' = Some (m_matchId m) →
        truthy (m_roundWinner m') = false) → m ∈ kt_matches t').
Proof.
  pose proof (knockout_transaction_closed _ _ _ _ _ Hs Hok) as [Hms Hls]. split_and!.
  - rewrite Hms, <-list_fmap_compose. apply list_fmap_ext. intros i m _. unfold compose.
    destruct (seed_next_match_static (tx_seeding e results t) (tx_decided e results t m)) as [-> _].
    by destruct (tx_decided_static e results t m) as [-> _].
  - intros m n w x Hm He Hn Hw Hw0 Hx Hid.
    destruct (new_winner _ _ _ _ _ _ _ _ Hs Hok Hm He Hn Hw Hw0) as (s & Hget & Hside).
    apply (elem_of_new_matches _ _ _ _ _ _ Hs Hok) in Hx as (x0 & Hx0 & ->).
    destruct (seed_next_match_static (tx_seeding e results t) (tx_decided e results t x0)) as [Hidx _].
    rewrite Hidx in Hid. unfold seed_next_match. rewrite Hid, Hget.
    destruct (m_matchId m mod 2 =? 1); simpl; by rewrite Hside.
  - intros m1 m2 n w1 w2 l Hm1 Hm2 He1 He2 Hn1 Hn2 Hp1 Hp2 Hw1 Hw2 Hw10 Hw20 Hl Hid.
    destruct (new_winner _ _ _ _ _ _ _ _ Hs Hok Hm1 He1 Hn1 Hw1 Hw10) as (s & Hget & Hhome).
    destruct (new_winner _ _ _ _ _ _ _ _ Hs Hok Hm2 He2 Hn2 Hw2 Hw20) as (s' & Hget' & Haway).
    rewrite Hp1 in Hhome. rewrite Hp2 in Haway. simpl in Hhome, Haway.
    rewrite Hget in Hget'. injection Hget' as <-.
    rewrite Hls in Hl. apply list_elem_of_fmap in Hl as (l0 & -> & Hl0).
    destruct (seed_next_leg_static (tx_seeding e results t) l0) as (_ & Hidl & _).
    rewrite Hidl in Hid. unfold seed_next_leg. rewrite Hid, Hget, Hhome, Haway. simpl.
    destruct (Z.eqb_spec w1 0), (Z.eqb_spec w2 0); try done. simpl.
    by destruct (l_playAgainstId l0 mod 2 =? 0) eqn:Epa; simpl; rewrite Epa.
  - intros m Hm He Hno. apply (elem_of_new_matches _ _ _ _ _ _ Hs Hok). exists m. split; [done|].
    unfold tx_decided. rewrite decide_False by done. unfold seed_next_match.
    destruct (map_get (m_matchId m) (tx_seeding e results t)) eqn:Hget; [exfalso|done].
    assert (m_matchId m ∈ map_keys (tx_seeding e results t)) as Hin
      by (apply map_get_is_Some; by eexists).
    apply seeding_map_keys in Hin as (x & (x0 & Hx0 & Hex & ->)%elem_of_ended & Hnext & Htr & _).
    assert (seed_next_match (tx_seeding e results t) (tx_decided e results t x0) ∈ kt_matches t')
      as Hx' by (apply (elem_of_new_matches _ _ _ _ _ _ Hs Hok); by exists x0).
    specialize (Hno _ Hx').
    destruct (seed_next_match_static (tx_seeding e results t) (tx_decided e results t x0))
      as (_ & _ & He' & Hn' & Hw' & _).
    destruct (tx_decided_static e results t x0) as (_ & _ & He0 & Hn0).
    destruct (decide_match_static (tx_results results t) x0) as (_ & _ & _ & Hnx & _).
    rewrite He', He0, Hn', Hn0, Hw' in Hno. rewrite Hnx in Hnext.
    specialize (Hno Hex Hnext). unfold tx_decided in Hno. rewrite decide_True in Hno by done.
    congruence.
Qed.

(** An entrant of match [n] after the sync: as before, or the winner of a match that feeds that side. *)
Definition entrant (e n : Z) (odd : bool) (old new : option Z) (t' : KnockoutTables) : Prop :=
  new = old ∨
  ∃ f w, f ∈ kt_matches t' ∧ m_endedEventId f = e ∧ feeds n odd f = Some w ∧ new = Some w.

Lemma slot_winner_feeder n odd ms w : slot_winner n odd ms = Some w → ∃ f, f ∈ ms ∧ feeds n odd f = Some w.
Proof. unfold slot_winner. intros H%last_Some_elem_of. by apply list_elem_of_omap in H. Qed.

Lemma set_same_entries m : set_match_entries m (m_homeEntryId m) (m_awayEntryId m) = m.
Proof. by destruct m. Qed.

(** A match that the gameweek does not end keeps everything but its entrants. *)
Lemma transaction_entrants (e r : Z) (results : list KLeg) (t t' : KnockoutTables) (m : KMatch)
  (Hs : knockout_shape e r results t) (Hok : knockout_transaction e results t = Ok t')
  (Hm : m ∈ kt_matches t) (He : m_endedEventId m ≠ e) :
  ∃ home away, set_match_entries m home away ∈ kt_matches t' ∧
    entrant e (m_matchId m) true (m_homeEntryId m) home t' ∧
    entrant e (m_matchId m) false (m_awayEntryId m) away t'.
Proof.
  assert (seed_next_match (tx_seeding e results t) m ∈ kt_matches t') as Hin.
  { apply (elem_of_new_matches _ _ _ _ _ _ Hs Hok). exists m. split; [done|].
    unfold tx_decided. by rewrite decide_False. }
  unfold seed_next_match in Hin. destruct (map_get (m_matchId m) (tx_seeding e results t)) as [s|] eqn:Hget.
  2: { exists (m_homeEntryId m), (m_awayEntryId m). rewrite set_same_entries. split_and!; [done|by left..]. }
  assert (m_matchId m ≠ 0) as Hn0.
  { assert (m_matchId m ∈ map_keys (tx_seeding e results t)) as Hk by (apply map_get_is_Some; by eexists).
    by apply seeding_map_keys in Hk as (_ & _ & _ & _ & ?). }
  unfold tx_seeding in Hget. rewrite (seeding_map_get r) in Hget; [|done|intros; by eapply tx_round].
  assert (∀ odd w, slot_winner (m_matchId m) odd
      (decide_match (tx_results results t) <$> find_matches_by_ended e (kt_matches t)) = Some w →
    ∃ f, f ∈ kt_matches t' ∧ m_endedEventId f = e ∧ feeds (m_matchId m) odd f = Some w) as Hfeed.
  { intros odd w (f & (f0 & Hf0 & Hfe & ->)%elem_of_ended & Hw)%slot_winner_feeder.
    exists (seed_next_match (tx_seeding e results t) (tx_decided e results t f0)).
    destruct (seed_next_match_static (tx_seeding e results t) (tx_decided e results t f0))
      as (Hid & _ & He' & Hn' & Hw' & _).
    unfold tx_decided in *. rewrite decide_True in * by done.
    split_and!; [| |by apply feeds_Some; apply feeds_Some in Hw; rewrite Hid, Hn', Hw'].
    - apply (elem_of_new_matches _ _ _ _ _ _ Hs Hok). exists f0. split; [done|]. unfold tx_decided.
      by rewrite decide_True.
    - rewrite He'. by destruct (decide_match_static (tx_results results t) f0) as (_ & _ & -> & _). }
  unfold summary_of in Hget. destruct (_ && _); [done|]. injection Hget as <-. cbn in Hin.
  eexists _, _. split; [exact Hin|].
  split; [destruct (slot_winner _ true _) as [w|] eqn:Hw|destruct (slot_winner _ false _) as [w|] eqn:Hw];
    try by left.
  all: right; destruct (Hfeed _ _ Hw) as (f & ? & ? & ?); by exists f, w.
Qed.

(** ** From the structure builder to the tables *)

(** src: src/services/tournament-structure.service.ts:66-75 rebuildTournamentStructure *)
Definition match_of_row (row : KnockoutMatchRow) : KMatch :=
  {| m_round := km_round row;
     m_startedEventId := km_started_event_id row;
     m_endedEventId := km_ended_event_id row;
     m_matchId := km_match_id row;
     m_nextMatchId := km_next_match_id row;
     m_homeEntryId := km_home_entry_id row;
     m_homeNetPoints := None;
     m_homeGoalsScored := None;
     m_homeGoalsConceded := None;
     m_homeWins := None;
     m_awayEntryId := km_away_entry_id row;
     m_awayNetPoints := None;
     m_awayGoalsScored := None;
     m_awayGoalsConceded := None;
     m_awayWins := None;
     m_roundWinner := None |}.

(** src: src/services/tournament-structure.service.ts:76-83 rebuildTournamentStructure *)
Definition leg_of_row (row : KnockoutResultRow) : KLeg :=
  {| l_eventId := kr_event_id row;
     l_matchId := kr_match_id row;
     l_playAgainstId := kr_play_against_id row;
     l_homeEntryId := kr_home_entry_id row;
     l_homeNetPoints := None;
     l_homeGoalsScored := None;
     l_homeGoalsConceded := None;
     l_awayEntryId := kr_away_entry_id row;
     l_awayNetPoints := None;
     l_awayGoalsScored := None;
     l_awayGoalsConceded := None;
     l_matchWinner := None |}.

(** The columns no upsert of the service writes. *)
Definition match_static (m : KMatch) : Z * Z * Z * Z * option Z :=
  (m_round m, m_startedEventId m, m_endedEventId m, m_matchId m, m_nextMatchId m).

(** Tables that hold the bracket of configuration [cfg]. *)
Definition bracket_tables (cfg : TournamentConfig) (t : KnockoutTables) : Prop :=
  match_static <$> kt_matches t = match_static ∘ match_of_row <$> (buildKnockoutRows cfg None).1 ∧
  leg_key <$> kt_legs t = leg_key ∘ leg_of_row <$> (buildKnockoutRows cfg None).2.

Section bracket_tables.
Context (cfg : TournamentConfig) (tc start legs : Z) (Hbc : bracket_config cfg tc start legs).
Notation L := (Z.log2_up tc).

Lemma built_statics_any seeded :
  match_static ∘ match_of_row <$> (buildKnockoutRows cfg seeded).1
    = match_static ∘ match_of_row <$> (buildKnockoutRows cfg None).1 ∧
  leg_key ∘ leg_of_row <$> (buildKnockoutRows cfg seeded).2
    = leg_key ∘ leg_of_row <$> (buildKnockoutRows cfg None).2.
Proof.
  rewrite !(buildKnockoutRows_closed _ _ _ _ Hbc). simpl. unfold closed_round.
  split; rewrite !fmap_flat_map; apply flat_map_ext_in; intros r _;
    rewrite !fmap_flat_map; apply flat_map_ext_in; intros i _; [done|].
  rewrite <-!list_fmap_compose. apply list_fmap_ext. done.
Qed.

Lemma built_tables seeded :
  bracket_tables cfg (mkTables (match_of_row <$> (buildKnockoutRows cfg seeded).1)
                               (leg_of_row <$> (buildKnockoutRows cfg seeded).2)).
Proof.
  destruct (built_statics_any seeded) as [H1 H2].
  split; simpl; rewrite <-list_fmap_compose; [apply H1|apply H2].
Qed.

Context (t : KnockoutTables) (Ht : bracket_tables cfg t).
Notation ms := ((buildKnockoutRows cfg None).1).

Lemma table_match_row m :
  m ∈ kt_matches t → ∃ row, row ∈ ms ∧ match_static m = match_static (match_of_row row).
Proof.
  intros Hm. apply (list_elem_of_fmap_2 match_static) in Hm. rewrite (proj1 Ht) in Hm.
  apply list_elem_of_fmap in Hm as (row & Heq & Hrow). by exists row.
Qed.

Lemma table_ids : m_matchId <$> kt_matches t = seqZ 1 (nextPowerOfTwo tc - 1).
Proof.
  rewrite <-(match_ids_seq _ _ _ _ Hbc None).
  trans ((λ s : Z * Z * Z * Z * option Z, s.1.2) <$> (match_static <$> kt_matches t)).
  - by rewrite <-list_fmap_compose.
  - rewrite (proj1 Ht), <-list_fmap_compose. done.
Qed.

Lemma table_leg_keys_NoDup : NoDup (leg_key <$> kt_legs t).
Proof.
  rewrite (proj2 Ht). rewrite (results_are_legs _ _ _ _ Hbc).
  apply (NoDup_fmap_1 (λ k : Z * Z * Z, (k.1.2, k.2))). rewrite <-list_fmap_compose.
  apply NoDup_leg_keys. rewrite (match_ids_seq _ _ _ _ Hbc). apply NoDup_seqZ.
Qed.

Lemma table_match_inj m m' :
  m ∈ kt_matches t → m' ∈ kt_matches t → m_matchId m = m_matchId m' → m = m'.
Proof.
  intros. apply (NoDup_fmap_inj_in m_matchId (kt_matches t)); try done.
  rewrite table_ids. apply NoDup_seqZ.
Qed.

Lemma table_match_facts m :
  m ∈ kt_matches t →
  1 ≤ m_round m ≤ L ∧ m_endedEventId m = start + m_round m * legs - 1 ∧ 1 ≤ m_matchId m ∧
  (m_nextMatchId m = if m_round m <? L then Some (2 ^ (L - 1) + (m_matchId m + 1) / 2) else None) ∧
  (∀ n x, m_nextMatchId m = Some n → x ∈ kt_matches t → m_matchId x = n →
     m_round x = m_round m + 1).
Proof.
  intros (row & Hrow & Hst)%table_match_row. unfold match_static in Hst.
  injection Hst as Hrd _ Hend Hmid Hnx.
  destruct (match_window _ _ _ _ Hbc _ _ Hrow) as (Hr & _ & He).
  destruct (match_round_pos _ _ _ _ Hbc _ _ Hrow) as (_ & Hid & _).
  rewrite Hrd, Hend, Hmid, Hnx. simpl. split_and!; try lia.
  - apply (match_next _ _ _ _ Hbc _ _ Hrow).
  - intros n x Hn (rx & Hrx & Hx)%table_match_row Hxn. unfold match_static in Hx.
    injection Hx as Hxr _ _ Hxid _.
    destruct (match_successor _ _ _ _ Hbc _ _ _ Hrow Hn) as (row' & Hrow' & Hid' & Hround).
    assert (rx = row') as -> by
      (apply (match_id_inj _ _ _ _ Hbc None); simpl in *; congruence).
    simpl in *. congruence.
Qed.

(** The round a gameweek can end. *)
Definition round_of (e : Z) : Z := Z.max 1 ((e + 1 - start) / legs).

Lemma round_of_end r : 1 ≤ r → round_of (start + r * legs - 1) = r.
Proof.
  intros Hr. pose proof (bc_legs_pos _ _ _ _ Hbc). unfold round_of.
  replace (start + r * legs - 1 + 1 - start) with (r * legs) by lia.
  rewrite Z.div_mul by lia. lia.
Qed.

(** Every gameweek finds tables in which the transaction is well behaved. *)
Lemma bracket_tables_shape e results :
  NoDup (leg_key <$> results) → (∀ x, x ∈ results → leg_key x ∈ leg_key <$> kt_legs t) →
  knockout_shape e (round_of e) results t.
Proof.
  intros Hnd Hin. pose proof (bc_legs_pos _ _ _ _ Hbc).
  assert (∀ m, m ∈ kt_matches t → m_endedEventId m = e → m_round m = round_of e) as Hround.
  { intros m Hm <-. destruct (table_match_facts m Hm) as (Hr & -> & _).
    rewrite round_of_end; lia. }
  split; try done.
  - rewrite table_ids. apply NoDup_seqZ.
  - apply table_leg_keys_NoDup.
  - unfold round_of. lia.
  - intros m n Hm Hme Hn. destruct (table_match_facts m Hm) as (_ & _ & Hid & Hnx & Hx).
    rewrite <-(Hround m Hm Hme). split; [|intros; by eapply Hx].
    rewrite Hnx in Hn. case_match; simplify_eq.
    pose proof (bracket_L_pos _ _ _ _ Hbc). pose proof (Z.pow_pos_nonneg 2 (L - 1)).
    pose proof (Z.div_pos (m_matchId m + 1) 2). lia.
  - intros m m' Hm Hm' Hme Hme' [n Hn] Hnn Hpar. apply table_match_inj; [done..|].
    destruct (table_match_facts m Hm) as (_ & _ & _ & Hnx & _).
    destruct (table_match_facts m' Hm') as (_ & _ & _ & Hnx' & _).
    rewrite <-Hnn, Hn in Hnx'. rewrite Hn in Hnx. do 2 case_match; simplify_eq.
    assert ((m_matchId m' + 1) / 2 = (m_matchId m + 1) / 2) by lia. divlia.
Qed.

Lemma round_exists r : 1 ≤ r ≤ L → ∃ m, m ∈ kt_matches t ∧ m_round m = r.
Proof.
  intros Hr. pose proof (Z.pow_pos_nonneg 2 (L - r)).
  assert (∃ row, row ∈ ms ∧ km_round row = r) as (row & Hrow & Hrr).
  { eexists. split; [apply (elem_of_matches _ _ _ _ Hbc); exists r, 0|]; [split_and!; done || lia|].
    done. }
  apply (list_elem_of_fmap_2 (match_static ∘ match_of_row)) in Hrow. rewrite <-(proj1 Ht) in Hrow.
  apply list_elem_of_fmap in Hrow as (m & Heq & Hm). exists m. split; [done|].
  unfold match_static in Heq. simpl in Heq. injection Heq as Heq _ _ _ _. congruence.
Qed.

(** The last gameweek of a round has a fixture of each of its matches. *)
Lemma round_has_fixture m :
  m ∈ kt_matches t →
  ∃ l, l ∈ find_legs_by_event (m_endedEventId m) (kt_legs t) ∧ l_matchId l = m_matchId m.
Proof.
  intros Hm. pose proof (bc_legs_pos _ _ _ _ Hbc).
  destruct (table_match_facts m Hm) as (_ & Hend & _).
  destruct (table_match_row m Hm) as (row & Hrow & Hst). unfold match_static in Hst.
  injection Hst as Hrd _ Hend' Hmid _. simpl in *.
  destruct (match_window _ _ _ _ Hbc _ _ Hrow) as (_ & Hstart & _).
  assert (leg_key (leg_of_row (leg_of row (legs - 1))) ∈ leg_key <$> kt_legs t) as Hin.
  { rewrite (proj2 Ht), (results_are_legs _ _ _ _ Hbc).
    apply (list_elem_of_fmap_2 (leg_key ∘ leg_of_row)), elem_of_flat_map_legs.
    exists row, (legs - 1). split_and!; [done|lia..|done]. }
  apply list_elem_of_fmap in Hin as (l & Hkey & Hl). unfold leg_key in Hkey. simpl in Hkey.
  injection Hkey as Hev Hlm _. exists l. split; [|congruence].
  unfold find_legs_by_event. rewrite elem_of_js_sort, list_elem_of_filter. split; [|done]. nia.
Qed.
End bracket_tables.

(** ** The whole sync of a gameweek *)

Section sync.
Context (e : Z) (er : list EntryEventResult) (lives : list EventLive).

Lemma score_leg_key erm lm l : leg_key (score_leg erm lm l) = leg_key l.
Proof. unfold score_leg. by destruct (leg_score _ _ _) as [? []], (leg_score _ _ _) as [? []]. Qed.

Lemma scored_keys erm lm t :
  NoDup (leg_key <$> kt_legs t) →
  NoDup (leg_key <$> (score_leg erm lm <$> find_legs_by_event e (kt_legs t))) ∧
  ∀ x, x ∈ score_leg erm lm <$> find_legs_by_event e (kt_legs t) →
    leg_key x ∈ leg_key <$> kt_legs t.
Proof.
  intros Hnd.
  assert (leg_key <$> (score_leg erm lm <$> find_legs_by_event e (kt_legs t))
    = leg_key <$> find_legs_by_event e (kt_legs t)) as Hk.
  { rewrite <-list_fmap_compose. apply list_fmap_ext. intros. apply score_leg_key. }
  split.
  - rewrite Hk. unfold find_legs_by_event. rewrite js_sort_perm.
    eapply sublist_NoDup; [exact Hnd|]. apply fmap_sublist, sublist_filter.
  - intros x Hx. apply (list_elem_of_fmap_2 leg_key) in Hx. rewrite Hk in Hx.
    apply list_elem_of_fmap in Hx as (l & -> & Hl). apply list_elem_of_fmap_2.
    unfold find_legs_by_event in Hl. rewrite elem_of_js_sort, list_elem_of_filter in Hl. tauto.
Qed.

(** A run either changes nothing or is one transaction over the scored fixtures. *)
Lemma sync_seeded_cases t t' :
  sync_seeded e er lives t = Ok t' →
  (t' = t ∧ (er = [] ∨ find_legs_by_event e (kt_legs t) = [])) ∨
  ∃ lm, knockout_transaction e (score_leg (map_by er_entryId er) lm
          <$> find_legs_by_event e (kt_legs t)) t = Ok t'.
Proof.
  unfold sync_seeded. destruct er as [|r0 er0] eqn:Eer; simpl.
  { intros [= <-]. left. auto. }
  destruct (find_legs_by_event e (kt_legs t)) as [|l0 ls] eqn:Els; simpl.
  { intros [= <-]. left. auto. }
  intros Hok. inv_ok. right. by eexists.
Qed.

Lemma transaction_statics r results t t' :
  knockout_shape e r results t → knockout_transaction e results t = Ok t' →
  match_static <$> kt_matches t' = match_static <$> kt_matches t ∧
  leg_key <$> kt_legs t' = leg_key <$> kt_legs t.
Proof.
  intros Hs Hok. destruct (knockout_transaction_closed _ _ _ _ _ Hs Hok) as [-> ->]. split.
  - rewrite <-list_fmap_compose. apply list_fmap_ext. intros i m _. unfold compose.
    unfold seed_next_match, tx_decided, decide_match.
    case_decide; [destruct (leg_totals _ _ _)|]; by case_match.
  - rewrite <-list_fmap_compose. rewrite <-(tx_legs_keys e r results t Hs).
    apply list_fmap_ext. intros. apply seed_next_leg_static.
Qed.
End sync.

(** Tables of the same bracket have matches with the same static columns. *)
Lemma same_static cfg t t' m :
  bracket_tables cfg t → bracket_tables cfg t' → m ∈ kt_matches t →
  ∃ x, x ∈ kt_matches t' ∧ m_matchId x = m_matchId m ∧ m_round x = m_round m.
Proof.
  intros Ht Ht' Hm. apply (list_elem_of_fmap_2 match_static) in Hm.
  rewrite (proj1 Ht), <-(proj1 Ht') in Hm.
  apply list_elem_of_fmap in Hm as (x & Heq & Hx). exists x.
  unfold match_static in Heq. injection Heq. auto.
Qed.

Section bracket_sync.
Context (cfg : TournamentConfig) (tc start legs : Z) (Hbc : bracket_config cfg tc start legs).
Context (e : Z) (er : list EntryEventResult) (lives : list EventLive).
Notation L := (Z.log2_up tc).

Lemma sync_seeded_statics t t' :
  bracket_tables cfg t → sync_seeded e er lives t = Ok t' → bracket_tables cfg t'.
Proof.
  intros Ht [[-> _]|[lm Hok]]%sync_seeded_cases; [done|].
  destruct (scored_keys e (map_by er_entryId er) lm t
    (table_leg_keys_NoDup _ _ _ _ Hbc _ Ht)) as [Hnd Hin].
  pose proof (bracket_tables_shape _ _ _ _ Hbc _ Ht e _ Hnd Hin) as Hs.
  destruct (transaction_statics _ _ _ _ _ Hs Hok) as [Hm Hl].
  split; [rewrite Hm; apply Ht | rewrite Hl; apply Ht].
Qed.

(** The winner recorded for a match is the one its recorded legs give. *)
Lemma transaction_winner results t t' m :
  knockout_shape e (round_of start legs e) results t →
  knockout_transaction e results t = Ok t' →
  (∀ m0, m0 ∈ kt_matches t → m_endedEventId m0 = e → m_matchId m0 ∈ l_matchId <$> results) →
  m ∈ kt_matches t' → m_endedEventId m = e →
  m_roundWinner m = resolveRoundWinner (filter (λ l, l_matchId l = m_matchId m) (kt_legs t'))
    (m_homeEntryId m) (m_awayEntryId m).
Proof.
  intros Hs Hok Hres Hm He.
  pose proof (knockout_transaction_closed _ _ _ _ _ Hs Hok) as [_ Hls].
  apply (elem_of_new_matches _ _ _ _ _ _ Hs Hok) in Hm as (m0 & Hm0 & ->).
  set (nrm := tx_seeding e results t) in *.
  destruct (seed_next_match_static nrm (tx_decided e results t m0)) as (_ & _ & He' & _).
  destruct (tx_decided_static e results t m0) as (Hid & Hround & He0 & _).
  rewrite He', He0 in He. pose proof (sh_round _ _ _ _ Hs m0 Hm0 He) as Hr0.
  assert (m_matchId m0 ∉ map_keys nrm) as Hkey.
  { intros Hin. apply seeding_map_keys in Hin
      as (x & (x0 & Hx0 & Hex & ->)%elem_of_ended & Hnext & _ & _).
    destruct (decide_match_static (tx_results results t) x0) as (_ & _ & _ & Hn & _).
    rewrite Hn in Hnext. destruct (sh_next _ _ _ _ Hs _ _ Hx0 Hex Hnext) as [_ Hx].
    specialize (Hx m0 Hm0 eq_refl). lia. }
  assert (seed_next_match nrm (tx_decided e results t m0) = tx_decided e results t m0) as ->.
  { unfold seed_next_match. rewrite Hid. by rewrite (proj2 (map_get_None _ _) Hkey). }
  rewrite Hid. unfold tx_decided. rewrite decide_True by done.
  destruct (decide_match_static (tx_results results t) m0) as (_ & _ & _ & _ & -> & -> & _).
  assert (filter (λ l, l_matchId l = m_matchId m0) (kt_legs t')
    = filter (λ r, l_matchId r = m_matchId m0) (tx_results results t)) as ->.
  { rewrite Hls. unfold tx_results, find_legs_by_match_ids.
    assert (m_matchId m0 ∈ dedup (l_matchId <$> results)) as Hin
      by (apply elem_of_dedup; by apply Hres).
    destruct (dedup (l_matchId <$> results)) as [|id0 ids]; [set_solver|]. cbn [is_nil].
    generalize (tx_legs results t). intros ls. induction ls as [|l ls IH]; [done|].
    rewrite fmap_cons, !filter_cons.
    destruct (seed_next_leg_static nrm l) as (_ & -> & _). rewrite IH.
    destruct (decide (l_matchId l = m_matchId m0)) as [Hl|Hl].
    - rewrite (decide_True (P:=l_matchId l ∈ _)) by (by rewrite Hl).
      rewrite filter_cons, decide_True by done. f_equal. unfold seed_next_leg.
      rewrite Hl. by rewrite (proj2 (map_get_None _ _) Hkey).
    - case_decide; [|done]. by rewrite filter_cons, decide_False. }
  unfold decide_match. by destruct (leg_totals _ _ _).
Qed.
End bracket_sync.

(** C4: The knockout sync of a bracket built by the structure builder, in the last gameweek of
    round [r], when event results of that gameweek are recorded (with none the sync returns early and
    changes nothing): if it returns, the tables still hold the same bracket, each match of the round has
    the winner its recorded legs give, that winner stands in the next match (home for an odd match
    id, away for an even one), and when both feeders of a match are decided all its legs hold the
    two entrants with sides swapped in the even legs; a match of the next round changes in its two
    entrants only, each of which is as before or the recorded winner of the match that feeds its side;
    matches of all other rounds are unchanged. *)
Theorem syncKnockout_advances (cfg : TournamentConfig) (tc start legs e r : Z)
  (er : list EntryEventResult) (lives : list EventLive) (t t' : KnockoutTables)
  (Hbc : bracket_config cfg tc start legs) (Ht : bracket_tables cfg t)
  (Hr : 1 ≤ r ≤ Z.log2_up tc) (He : e = start + r * legs - 1) (Her : er ≠ [])
  (Hok : sync_seeded e er lives t = Ok t') :
  bracket_tables cfg t' ∧
  (∀ m, m ∈ kt_matches t' → m_round m = r →
     m_roundWinner m = resolveRoundWinner (filter (λ l, l_matchId l = m_matchId m) (kt_legs t'))
       (m_homeEntryId m) (m_awayEntryId m)) ∧
  (∀ m n w x, m ∈ kt_matches t' → m_round m = r → m_nextMatchId m = Some n →
     m_roundWinner m = Some w → w ≠ 0 → x ∈ kt_matches t' → m_matchId x = n →
     (if m_matchId m mod 2 =? 1 then m_homeEntryId x else m_awayEntryId x) = Some w) ∧
  (∀ m1 m2 n w1 w2 l, m1 ∈ kt_matches t' → m2 ∈ kt_matches t' → m_round m1 = r →
     m_round m2 = r → m_nextMatchId m1 = Some n → m_nextMatchId m2 = Some n →
     m_matchId m1 mod 2 = 1 → m_matchId m2 mod 2 = 0 →
     m_roundWinner m1 = Some w1 → m_roundWinner m2 = Some w2 → w1 ≠ 0 → w2 ≠ 0 →
     l ∈ kt_legs t' → l_matchId l = n →
     (l_homeEntryId l, l_awayEntryId l) =
       if l_playAgainstId l mod 2 =? 0 then (Some w2, Some w1) else (Some w1, Some w2)) ∧
  (∀ m, m ∈ kt_matches t → m_round m = r + 1 →
     ∃ home away, set_match_entries m home away ∈ kt_matches t' ∧
       entrant e (m_matchId m) true (m_homeEntryId m) home t' ∧
       entrant e (m_matchId m) false (m_awayEntryId m) away t') ∧
  (∀ m, m ∈ kt_matches t → m_round m ≠ r → m_round m ≠ r + 1 → m ∈ kt_matches t').
Proof.
  pose proof (bc_legs_pos _ _ _ _ Hbc) as Hlegs.
  pose proof (sync_seeded_statics _ _ _ _ Hbc _ _ _ _ _ Ht Hok) as Ht'.
  apply sync_seeded_cases in Hok as [[-> Hnil]|[lm Hok]].
  { exfalso. destruct Hnil as [->|Hnil]; [done|].
    destruct (round_exists _ _ _ _ Hbc _ Ht r Hr) as (m & Hm & Hmr).
    destruct (round_has_fixture _ _ _ _ Hbc _ Ht m Hm) as (l & Hl & _).
    destruct (table_match_facts _ _ _ _ Hbc _ Ht m Hm) as (_ & Hend & _).
    rewrite Hend, Hmr, <-He, Hnil in Hl. set_solver. }
  assert (∀ m, m ∈ kt_matches t' → m_round m = r → m_endedEventId m = e) as Hend.
  { intros m Hm <-. by destruct (table_match_facts _ _ _ _ Hbc _ Ht' m Hm) as (_ & -> & _). }
  destruct (scored_keys e (map_by er_entryId er) lm t
    (table_leg_keys_NoDup _ _ _ _ Hbc _ Ht)) as [Hnd Hin].
  pose proof (bracket_tables_shape _ _ _ _ Hbc _ Ht e _ Hnd Hin) as Hs.
  destruct (transaction_advances _ _ _ _ _ Hs Hok) as (_ & Hwin & Hleg & Hframe).
  split_and!; [done| | | | |].
  - intros m Hm Hmr. eapply transaction_winner; [exact Hbc|exact Hs|exact Hok| |done|by apply Hend].
    intros m0 Hm0 He0. destruct (round_has_fixture _ _ _ _ Hbc _ Ht m0 Hm0) as (l & Hl & Hlm).
    rewrite He0 in Hl. rewrite <-Hlm.
    apply (list_elem_of_fmap_2 (score_leg (map_by er_entryId er) lm)),
      (list_elem_of_fmap_2 l_matchId) in Hl.
    pose proof (score_leg_key (map_by er_entryId er) lm l) as Hk. unfold leg_key in Hk.
    injection Hk as _ Hk _. by rewrite <-Hk.
  - intros m n w x Hm Hmr. eapply Hwin; [done|by apply Hend].
  - intros m1 m2 n w1 w2 l Hm1 Hm2 Hr1 Hr2. eapply Hleg; [done..|by apply Hend|by apply Hend].
  - intros m Hm Hmr. eapply transaction_entrants; [exact Hs|exact Hok|done|].
    destruct (table_match_facts _ _ _ _ Hbc _ Ht m Hm) as (_ & -> & _). nia.
  - intros m Hm Hmr Hmr1. apply Hframe; [done| |].
    + destruct (table_match_facts _ _ _ _ Hbc _ Ht m Hm) as (_ & -> & _). nia.
    + intros m' Hm' He' Hn'. exfalso.
      destruct (table_match_facts _ _ _ _ Hbc _ Ht' m' Hm') as (_ & Hend' & _ & _ & Hx).
      assert (m_round m' = r) as Hr' by nia.
      assert (∃ x, x ∈ kt_matches t' ∧ m_matchId x = m_matchId m ∧ m_round x = m_round m)
        as (x & Hx' & Hxid & Hxr) by (by apply (same_static cfg t t')).
      specialize (Hx _ _ Hn' Hx' Hxid). lia.
Qed.

(** A four-team single-leg bracket from gameweek 5 with its first round drawn and scored. *)
Definition sample_cfg : TournamentConfig :=
  mkConfig (mkSyncContext 9 None None None 4 NoGroup (Some 1) (Some 1) None
    SingleElimination (Some 4) (Some 2) (Some 5) (Some 6) (Some 1)) (Some 1).
Definition sample_tables : KnockoutTables :=
  let rows := buildKnockoutRows sample_cfg (Some (seedBracketEntries [11; 12; 13; 14] 4)) in
  mkTables (match_of_row <$> rows.1) (leg_of_row <$> rows.2).
Definition sample_event (nets : list Z) : list EntryEventResult :=
  zip_with (λ id net, mkEventResult id net None [mkPick 1 1]) [11; 12; 13; 14] nets.
Definition sample_lives : list EventLive := [mkLive 1 (Some 2) None].

Lemma sample_bracket : bracket_config sample_cfg 4 5 1.
Proof. split; [reflexivity|lia|reflexivity|reflexivity|lia|reflexivity|lia]. Qed.

Lemma syncKnockout_advances_witness :
  match sync_seeded 5 (sample_event [50; 40; 30; 20]) sample_lives sample_tables with
  | Ok t' => bracket_tables sample_cfg t' ∧ omap m_roundWinner (kt_matches t') = [11; 12]
  | Throw _ => False
  end.
Proof.
  destruct (sync_seeded 5 (sample_event [50; 40; 30; 20]) sample_lives sample_tables)
    as [t'|] eqn:E; [|vm_compute in E; discriminate].
  split; [|vm_compute in E; injection E as <-; reflexivity].
  exact (proj1 (syncKnockout_advances sample_cfg 4 5 1 5 1
    (sample_event [50; 40; 30; 20]) sample_lives sample_tables t' sample_bracket
    (built_tables _ _ _ _ sample_bracket _)
    ltac:(split; [lia|by vm_compute]) ltac:(lia) ltac:(discriminate) E)).
Defined.

(** ** Drawn legs *)

Lemma leg_half_wins_draw l h a :
  l_homeEntryId l = Some h → l_awayEntryId l = Some a →
  nullish (l_homeNetPoints l) 0 = nullish (l_awayNetPoints l) 0 →
  leg_half_wins l (Some h) = 1.
Proof.
  intros Hh Ha Hn. unfold leg_half_wins. rewrite Hh, Ha, Hn, Z.ltb_irrefl, Z.eqb_refl.
  rewrite bool_decide_eq_true_2 by done. simpl. by rewrite !andb_false_r.
Qed.

Lemma scored_filter (ids : list Z) (sc : KLeg → KLeg) e id (l : KLeg) ls :
  (∀ x, l_matchId (sc x) = l_matchId x) → id ∈ ids → l_eventId l = e →
  filter (λ x, l_matchId x = id) ls = [l] →
  filter (λ x, l_matchId x = id)
    (if is_nil ids then [] else
       filter (λ x, l_matchId x ∈ ids) ((λ x, if decide (l_eventId x = e) then sc x else x) <$> ls))
  = [sc l].
Proof.
  intros Hsc Hid Hl Hls. destruct ids as [|i ids]; [set_solver|]. cbn [is_nil].
  rewrite list_filter_filter.
  assert (∀ k : list KLeg, filter (λ x, l_matchId x = id ∧ l_matchId x ∈ i :: ids)
      ((λ x, if decide (l_eventId x = e) then sc x else x) <$> k)
    = (λ x, if decide (l_eventId x = e) then sc x else x) <$> filter (λ x, l_matchId x = id) k)
    as Hgen.
  { induction k as [|x k IH]; [done|]. rewrite fmap_cons, !filter_cons.
    assert (l_matchId (if decide (l_eventId x = e) then sc x else x) = l_matchId x) as ->
      by (case_decide; [apply Hsc|done]).
    rewrite IH. destruct (decide (l_matchId x = id)) as [Hx|Hx].
    - rewrite decide_True by (by rewrite Hx). done.
    - rewrite decide_False by tauto. done. }
  rewrite Hgen, Hls. simpl. by rewrite decide_True.
Qed.

(** C29: A single-leg match whose two entrants have the same net points stops the round: the draw
    counts half a win for each side, the integer win column of the match row cannot hold it, and
    the sync throws instead of recording the winner by goals. *)
Theorem drawn_single_leg_throws (e h a : Z) (er : list EntryEventResult) (lives : list EventLive)
  (t : KnockoutTables) (m : KMatch) (l : KLeg)
  (Hnd : NoDup (leg_key <$> kt_legs t))
  (Hm : m ∈ kt_matches t) (He : m_endedEventId m = e) (Hmh : m_homeEntryId m = Some h)
  (Hlegs : filter (λ x, l_matchId x = m_matchId m) (kt_legs t) = [l])
  (Hle : l_eventId l = e) (Hh : l_homeEntryId l = Some h) (Ha : l_awayEntryId l = Some a)
  (Hpos : 0 < h ∧ 0 < a)
  (Hdraw : er_eventNetPoints <$> map_get h (map_by er_entryId er)
           = er_eventNetPoints <$> map_get a (map_by er_entryId er))
  (Her : er ≠ []) :
  is_ok (sync_seeded e er lives t) = false.
Proof.
  destruct (sync_seeded e er lives t) as [t'|] eqn:Hok; [exfalso|done].
  assert (l ∈ kt_legs t ∧ l_matchId l = m_matchId m) as [Hl Hlid].
  { assert (l ∈ filter (λ x, l_matchId x = m_matchId m) (kt_legs t)) as Hin
      by (rewrite Hlegs; set_solver). rewrite list_elem_of_filter in Hin. tauto. }
  assert (l ∈ find_legs_by_event e (kt_legs t)) as Hfx
    by (unfold find_legs_by_event; by rewrite elem_of_js_sort, list_elem_of_filter).
  apply sync_seeded_cases in Hok as [[_ [?|Hnil]]|[lm Hok]]; [done|rewrite Hnil in Hfx; set_solver|].
  set (erm := map_by er_entryId er) in *. set (sc := score_leg erm lm) in *.
  unfold knockout_transaction in Hok. set (results := sc <$> _) in *.
  apply result_bind_ok in Hok as (ms & Hup & _). unfold upsert_matches in Hup.
  apply throw_when_ok in Hup as [H%negb_false_iff _].
  rewrite forallb_forall in H. set (all := find_legs_by_match_ids _ _) in *.
  specialize (H (decide_match all m)). unfold whole_wins in H.
  assert (m_homeWins (decide_match all m) = Some 1) as Hone; [|rewrite Hone in H; simpl in H].
  - assert (filter (λ r, l_matchId r = m_matchId m) all = [sc l]) as Hall.
    { unfold all, find_legs_by_match_ids, upsert_legs, results.
      rewrite (upsert_batch_image leg_key merge_leg merge_leg_key (λ x, l_eventId x = e) sc);
        [|done|unfold find_legs_by_event; by rewrite js_sort_perm|intros; apply score_leg_key|].
      2: { intros x _. unfold sc, score_leg. by destruct (leg_score _ _ _) as [? []], (leg_score _ _ _) as [? []]. }
      apply scored_filter; try done.
      - intros x. pose proof (score_leg_key erm lm x) as Hk. unfold leg_key in Hk. by injection Hk.
      - apply elem_of_dedup. rewrite <-Hlid.
        pose proof (score_leg_key erm lm l) as Hk. unfold leg_key in Hk. injection Hk as _ Hk _.
        rewrite <-Hk. by apply list_elem_of_fmap_2, list_elem_of_fmap_2. }
    unfold decide_match. rewrite Hall. destruct (leg_totals _ _ _). simpl.
    unfold calcEntryWinningNum. rewrite Hmh. simpl. destruct (Z.eqb_spec h 0); [lia|]. simpl.
    f_equal. unfold sc, score_leg.
    destruct (leg_score erm lm (l_homeEntryId l)) as [n1 [s1 c1]] eqn:E1,
      (leg_score erm lm (l_awayEntryId l)) as [n2 [s2 c2]] eqn:E2.
    assert (n1 = n2) as ->; [|by apply (leg_half_wins_draw _ h a)].
    unfold leg_score in E1, E2. rewrite Hh in E1. rewrite Ha in E2.
    destruct (Z.eqb_spec h 0), (Z.eqb_spec a 0); try lia. simpl in E1, E2.
    destruct (map_get h erm), (map_get a erm); simplify_eq/=; congruence.
  - assert (decide_match all m ∈ decide_match all <$> find_matches_by_ended e (kt_matches t)) as Hin.
    { apply list_elem_of_fmap_2. unfold find_matches_by_ended.
      by rewrite elem_of_js_sort, list_elem_of_filter. }
    apply list_elem_of_In in Hin. specialize (H Hin). done.
Qed.

(** The draw is decided by goals, but only when it does not have to be written. *)
Lemma drawn_single_leg_throws_witness :
  is_ok (sync_seeded 5 (sample_event [50; 40; 30; 50]) sample_lives sample_tables) = false.
Proof.
  refine (drawn_single_leg_throws 5 11 14 _ _ _
    (mkKMatch 1 5 5 1 (Some 3) (Some 11) None None None None (Some 14) None None None None None)
    (mkKLeg 5 1 1 (Some 11) None None None (Some 14) None None None None) _ _ _ _ _ _ _ _ _ _ _).
  - exact (table_leg_keys_NoDup _ _ _ _ sample_bracket _ (built_tables _ _ _ _ sample_bracket _)).
  - apply list_elem_of_In. vm_compute. tauto.
  - reflexivity.
  - reflexivity.
  - reflexivity.
  - reflexivity.
  - reflexivity.
  - reflexivity.
  - lia.
  - reflexivity.
  - discriminate.
Defined.
