(* ===== verification/KnockoutSeeding.v ===== *)
(** * Round-one seeding ([src/services/tournament-seed.service.ts]) and the knockout sync

    A tournament without groups is seeded when its structure is built; behind groups, round one is
    seeded when the qualifiers are known.  Both ways give the same tables. *)

From S2P Require Import Prelude JsCollections Tournament Seeding Bracket KnockoutSync.

(** src: src/repositories/tournament-knockouts.ts:134-166 findRoundOne *)
Definition find_round_one (table : list KMatch) : list KMatch :=
  js_sort (by_key m_matchId) (filter (λ m, m_round m = 1) table).

(** src: src/repositories/tournament-knockouts.ts:168-211 seedRoundOneBulk *)
Definition seedRoundOneBulk (pairs : list (Z * SeedPair)) (table : list KMatch) : list KMatch :=
  (λ m, match map_get (m_matchId m) pairs with
        | Some sp => set_match_entries m (sp_homeEntryId sp) (sp_awayEntryId sp)
        | None => m
        end) <$> table.

(** src: src/repositories/tournament-knockout-results.ts:97-143 seedRoundOneResultsBulk *)
Definition seedRoundOneResultsBulk (assignments : list (Z * Z * SeedPair)) (table : list KLeg)
    : list KLeg :=
  (λ l, match map_get (l_matchId l, l_playAgainstId l) assignments with
        | Some sp => set_leg_entries l (sp_homeEntryId sp) (sp_awayEntryId sp)
        | None => l
        end) <$> table.

(** src: src/services/tournament-seed.service.ts:35-41 seedRoundOne *)
Definition match_updates (roundOneMatches : list KMatch) (seededPairs : list SeedPair)
    : list (Z * SeedPair) :=
  concat (imap (λ index m, match seededPairs !! index with
                           | Some sp => [(m_matchId m, sp)]
                           | None => []
                           end) roundOneMatches).

(** src: src/services/tournament-seed.service.ts:43-53 seedRoundOne *)
Definition result_updates (playAgainstNum : Z) (updates : list (Z * SeedPair))
    : list (Z * Z * SeedPair) :=
  flat_map (λ u : Z * SeedPair, let '(matchId, sp) := u in
    (λ leg, let swap := leg mod 2 =? 1 in
       (matchId, leg + 1,
        mkSeedPair (if swap then sp_awayEntryId sp else sp_homeEntryId sp)
                   (if swap then sp_homeEntryId sp else sp_awayEntryId sp)))
    <$> seqZ 0 playAgainstNum) updates.

(** src: src/services/tournament-seed.service.ts:13-62 seedRoundOne *)
Definition seedRoundOne (seededPairs : list SeedPair) (playAgainstNum : Z) (t : KnockoutTables)
    : KnockoutTables :=
  if is_nil seededPairs then t else
  let roundOneMatches := find_round_one (kt_matches t) in
  if is_nil roundOneMatches then t else
  let matchUpdates := match_updates roundOneMatches seededPairs in
  let resultUpdates := result_updates playAgainstNum matchUpdates in
  mkTables (seedRoundOneBulk matchUpdates (kt_matches t))
           (seedRoundOneResultsBulk resultUpdates (kt_legs t)).

(** [config] is the stored configuration, [entrySeeds] and [qualifiedEntries] the rows the two
    queries of [src/repositories/tournament-entries.ts] return.
    src: src/services/tournament-seed.service.ts:64-123 ensureKnockoutRoundOneSeeded *)
Definition ensureKnockoutRoundOneSeeded (config : option TournamentConfig)
    (entrySeeds : list EntrySeed) (qualifiedEntries : list QualifiedEntry) (t : KnockoutTables)
    : KnockoutTables :=
  match config with
  | None => t
  | Some tournament =>
      match t_knockoutTeamNum tournament, t_knockoutPlayAgainstNum tournament with
      | Some teamNum, Some playAgainstNum =>
          if bool_decide (t_knockoutMode tournament = NoKnockout) || (teamNum =? 0)
             || (playAgainstNum =? 0) then t else
          let roundOne := find_round_one (kt_matches t) in
          if is_nil roundOne then t else
          if forallb (λ row, negb (is_null (m_homeEntryId row))
                             || negb (is_null (m_awayEntryId row))) roundOne then t else
          let qualified :=
            if bool_decide (t_groupMode tournament = NoGroup)
            then Some (es_entryId <$> take (Z.to_nat teamNum) (sortEntrySeeds entrySeeds))
            else if Z.of_nat (length qualifiedEntries) <? teamNum then None
            else Some (qe_entryId <$> take (Z.to_nat teamNum)
                         (sortQualifiedEntries qualifiedEntries)) in
          match qualified with
          | None => t
          | Some seededEntryIds =>
              if Z.of_nat (length seededEntryIds) <? teamNum then t else
              seedRoundOne (seedBracketEntries seededEntryIds teamNum) playAgainstNum t
          end
      | _, _ => t
      end
  end.

(** src: src/services/tournament-knockout-results.service.ts:228-252 syncKnockoutForTournament *)
Definition syncKnockoutForTournament (tournament : TournamentSyncContext)
    (config : option TournamentConfig) (entrySeeds : list EntrySeed)
    (qualifiedEntries : list QualifiedEntry) (eventId : Z) (eventResults : list EntryEventResult)
    (eventLives : list EventLive) (t : KnockoutTables) : result KnockoutTables :=
  if negb (truthy (t_knockoutStartedEventId tournament))
     || negb (truthy (t_knockoutEndedEventId tournament)) then Ok t else
  sync_seeded eventId eventResults eventLives
    (ensureKnockoutRoundOneSeeded config entrySeeds qualifiedEntries t).

(** src: src/services/tournament-knockout-results.service.ts:494-521 syncTournamentKnockoutResultsForTournamentId *)
Definition syncTournamentKnockoutResultsForTournamentId (tournament : option TournamentSyncContext)
    (config : option TournamentConfig) (entrySeeds : list EntrySeed)
    (qualifiedEntries : list QualifiedEntry) (eventId : Z) (eventResults : list EntryEventResult)
    (eventLives : list EventLive) (t : KnockoutTables) : result KnockoutTables :=
  match tournament with
  | None => Ok t
  | Some tournament =>
      if isOfficialH2HTournament tournament
         || bool_decide (t_knockoutMode tournament = NoKnockout)
         || negb (truthy (t_knockoutStartedEventId tournament))
         || negb (truthy (t_knockoutEndedEventId tournament))
         || (eventId <? nullish (t_knockoutStartedEventId tournament) 0)
         || (nullish (t_knockoutEndedEventId tournament) 0 <? eventId)
      then Ok t
      else syncKnockoutForTournament tournament config entrySeeds qualifiedEntries eventId
             eventResults eventLives t
  end.

(** ** Seeding later is seeding at once *)

Lemma match_updates_zip ms ps : match_updates ms ps = zip (m_matchId <$> ms) ps.
Proof.
  unfold match_updates. revert ps. induction ms as [|m ms IH]; intros [|p ps]; simpl; [done..| |].
  - change (concat (imap (λ _ _, @nil (Z * SeedPair)) ms) = []).
    generalize ms. intros k. induction k; simpl; done.
  - f_equal. apply IH.
Qed.

Definition leg_pair (sp : SeedPair) (leg : Z) : SeedPair :=
  mkSeedPair (if leg mod 2 =? 1 then sp_awayEntryId sp else sp_homeEntryId sp)
             (if leg mod 2 =? 1 then sp_homeEntryId sp else sp_awayEntryId sp).

Lemma map_get_legs (n : Z) (id id' : Z) (pa : Z) sp :
  map_get (id, pa) ((λ leg, (id', leg + 1, leg_pair sp leg)) <$> seqZ 0 n) =
    if decide (id = id') then
      if (1 <=? pa) && (pa <=? n) then Some (leg_pair sp (pa - 1)) else None
    else None.
Proof.
  assert (∀ s k, 0 ≤ k → map_get (id, pa) ((λ leg, (id', leg + 1, leg_pair sp leg)) <$> seqZ s k) =
    if decide (id = id') then
      if (s + 1 <=? pa) && (pa <=? s + k) then Some (leg_pair sp (pa - 1)) else None
    else None) as Hgen.
  { intros s k Hk. rewrite <-(Z2Nat.id k) by done. revert s. generalize (Z.to_nat k). clear k Hk.
    induction n0 as [|k IH]; intros s.
    - rewrite seqZ_nil by lia. simpl. case_decide; [|done].
      destruct (Z.leb_spec (s + 1) pa), (Z.leb_spec pa (s + Z.of_nat 0)); done || lia.
    - rewrite seqZ_cons by lia. rewrite fmap_cons. simpl map_get.
      rewrite Nat2Z.inj_succ, Z.pred_succ, IH.
      destruct (decide (id = id')) as [->|Hne].
      + destruct (decide (pa = s + 1)) as [->|Hpa].
        * rewrite decide_True by done.
          destruct (Z.leb_spec (s + 1) (s + 1)), (Z.leb_spec (s + 1) (s + Z.succ (Z.of_nat k)));
            try lia. simpl. do 2 f_equal. lia.
        * rewrite decide_False by congruence.
          destruct (Z.leb_spec (Z.succ s + 1) pa), (Z.leb_spec (s + 1) pa),
            (Z.leb_spec pa (Z.succ s + Z.of_nat k)), (Z.leb_spec pa (s + Z.succ (Z.of_nat k)));
            done || lia.
      + rewrite decide_False by congruence. done. }
  destruct (Z.leb_spec 0 n).
  - rewrite Hgen by done. done.
  - rewrite seqZ_nil by lia. simpl. case_decide; [|done].
    destruct (Z.leb_spec 1 pa), (Z.leb_spec pa n); done || lia.
Qed.

Lemma result_updates_get n updates id pa :
  map_get (id, pa) (result_updates n updates) =
    match map_get id updates with
    | Some sp => if (1 <=? pa) && (pa <=? n) then Some (leg_pair sp (pa - 1)) else None
    | None => None
    end.
Proof.
  induction updates as [|[id' sp] updates IH]; simpl; [done|].
  change (_ <$> seqZ 0 n) with ((λ leg, (id', leg + 1, leg_pair sp leg)) <$> seqZ 0 n).
  rewrite map_get_app, map_get_legs. case_decide; [|exact IH].
  destruct ((1 <=? pa) && (pa <=? n)) eqn:Hpa; [done|]. rewrite IH. by case_match.
Qed.

(** The tables [rebuildTournamentStructure] stores for a bracket. *)
Definition built (cfg : TournamentConfig) (seeded : option (list SeedPair)) : KnockoutTables :=
  mkTables (match_of_row <$> (buildKnockoutRows cfg seeded).1)
           (leg_of_row <$> (buildKnockoutRows cfg seeded).2).

Section seed_later.
Context (cfg : TournamentConfig) (tc start legs : Z) (Hbc : bracket_config cfg tc start legs).
Notation L := (Z.log2_up tc).

Lemma round_one_ids seeded :
  m_matchId <$> find_round_one (kt_matches (built cfg seeded)) = seqZ 1 (2 ^ (L - 1)).
Proof.
  pose proof (bracket_L_pos _ _ _ _ Hbc) as HL.
  set (l := filter (λ m, m_round m = 1) (kt_matches (built cfg seeded))).
  assert (m_matchId <$> l = seqZ 1 (2 ^ (L - 1))) as Hids.
  { unfold l, built. simpl.
    rewrite (fmap_filter_iff m_matchId _ (λ id, id ≤ 2 ^ (L - 1))).
    - rewrite <-list_fmap_compose.
      change (m_matchId ∘ match_of_row <$> _) with (km_match_id <$> (buildKnockoutRows cfg seeded).1).
      rewrite (match_ids_seq _ _ _ _ Hbc), (bracket_size _ _ _ _ Hbc).
      assert (2 ^ L = 2 * 2 ^ (L - 1)) as Hp by (rewrite <-Z.pow_succ_r by lia; f_equal; lia).
      pose proof (Z.pow_pos_nonneg 2 (L - 1)).
      replace (2 ^ L - 1) with (2 ^ (L - 1) + (2 ^ (L - 1) - 1)) by lia.
      rewrite seqZ_app, filter_app by lia.
      rewrite filter_all, (filter_none _ (seqZ _ (2 ^ (L - 1) - 1))), app_nil_r; [done|..];
        intros y Hy%elem_of_seqZ; lia.
    - intros m (row & -> & Hrow)%list_elem_of_fmap. simpl.
      destruct (match_round_of_id _ _ _ _ Hbc _ _ Hrow) as [_ Hr].
      destruct (match_round_pos _ _ _ _ Hbc _ _ Hrow) as [Hpos _]. lia. }
  unfold find_round_one. fold l. rewrite js_sort_id; [done|].
  assert (StronglySorted Z.le (m_matchId <$> l)) as Hs by (rewrite Hids; apply StronglySorted_seqZ).
  clearbody l. clear Hids. induction l as [|m l IH]; [constructor|].
  rewrite fmap_cons in Hs. inversion Hs as [|? ? Hs' Hm]; subst.
  constructor; [by apply IH|]. rewrite Forall_fmap in Hm. eapply Forall_impl; [exact Hm|].
  intros x Hx. unfold cmp_le, by_key. unfold compose in Hx. lia.
Qed.

Lemma seeding_update seeded pairs r i :
  1 ≤ r ≤ L → 0 ≤ i < 2 ^ (L - r) →
  map_get (round_start L r + i)
    (match_updates (find_round_one (kt_matches (built cfg seeded))) pairs)
  = seeded_pair (Some pairs) r i.
Proof.
  intros Hr Hi. rewrite match_updates_zip, round_one_ids.
  pose proof (Z.pow_pos_nonneg 2 (L - 1)). rewrite map_get_zip_seqZ by lia.
  unfold seeded_pair, round_start.
  assert (2 ^ (L - r + 1) = 2 * 2 ^ (L - r)) as Hp by (rewrite <-Z.pow_succ_r by lia; f_equal; lia).
  assert (2 ^ L = 2 * 2 ^ (L - 1)) as HpL by (rewrite <-Z.pow_succ_r by lia; f_equal; lia).
  destruct (Z.eqb_spec r 1) as [->|Hne].
  - replace (L - 1 + 1) with L by lia. rewrite Z.sub_diag. simpl.
    destruct (Z.leb_spec 1 (0 + 1 + i)), (Z.ltb_spec (0 + 1 + i) (1 + 2 ^ (L - 1))); try lia.
    simpl. f_equal. lia.
  - assert (2 ^ (L - r + 1) ≤ 2 ^ (L - 1)) by (apply Z.pow_le_mono_r; lia).
    destruct (Z.ltb_spec (2 ^ L - 2 ^ (L - r + 1) + 1 + i) (1 + 2 ^ (L - 1))); [lia|].
    by rewrite andb_false_r.
Qed.
End seed_later.

(** Seeding round one after the structure was built without entrants leaves exactly the tables
    the builder writes when it knows the seeded pairs from the start: home and away of every match
    of round one, and of every leg with sides swapped in the even legs. *)
Theorem seedRoundOne_is_built (cfg : TournamentConfig) (tc start legs : Z)
  (Hbc : bracket_config cfg tc start legs) (pairs : list SeedPair) :
  seedRoundOne pairs legs (built cfg None) = built cfg (Some pairs).
Proof.
  pose proof (bracket_L_pos _ _ _ _ Hbc) as HL.
  assert (mkTables
    (seedRoundOneBulk (match_updates (find_round_one (kt_matches (built cfg None))) pairs)
       (kt_matches (built cfg None)))
    (seedRoundOneResultsBulk
       (result_updates legs (match_updates (find_round_one (kt_matches (built cfg None))) pairs))
       (kt_legs (built cfg None)))
    = built cfg (Some pairs)) as Hall.
  { pose proof (seeding_update _ _ _ _ Hbc None pairs) as Hupd.
    set (updates := match_updates _ pairs) in *. clearbody updates.
    unfold built. rewrite !(buildKnockoutRows_closed _ _ _ _ Hbc). simpl.
    unfold seedRoundOneBulk, seedRoundOneResultsBulk.
    f_equal; rewrite !fmap_flat_map; apply flat_map_ext_in; intros r Hr%elem_of_seqZ;
      unfold closed_round; rewrite !fmap_flat_map; apply flat_map_ext_in;
      intros i Hi%elem_of_seqZ;
      (assert (seeded_pair None r i = None) as -> by (unfold seeded_pair; by destruct (r =? 1))).
    - simpl. f_equal. rewrite Hupd by lia. by destruct (seeded_pair (Some pairs) r i).
    - rewrite <-!list_fmap_compose. apply list_fmap_ext. intros ix leg Hleg%list_elem_of_lookup_2.
      apply elem_of_seqZ in Hleg. unfold compose. simpl l_matchId. simpl l_playAgainstId.
      rewrite result_updates_get, Hupd by lia.
      destruct (seeded_pair (Some pairs) r i) as [sp|]; [|done].
      destruct (Z.leb_spec 1 (leg + 1)), (Z.leb_spec (leg + 1) legs); try lia. simpl.
      replace (leg + 1 - 1) with leg by lia. unfold leg_of_row, ko_leg, set_leg_entries, leg_pair.
      simpl. by destruct (leg mod 2 =? 1). }
  unfold seedRoundOne. destruct pairs as [|p pairs].
  - cbn [is_nil]. rewrite <-Hall. rewrite match_updates_zip.
    destruct (m_matchId <$> _); simpl; unfold seedRoundOneBulk, seedRoundOneResultsBulk;
      simpl; rewrite !list_fmap_id; done.
  - cbn [is_nil]. destruct (is_nil (find_round_one (kt_matches (built cfg None)))) eqn:E;
      [exfalso|exact Hall].
    pose proof (round_one_ids _ _ _ _ Hbc None) as Hids.
    destruct (find_round_one _); [|done]. apply (f_equal length) in Hids.
    rewrite length_seqZ in Hids. pose proof (Z.pow_pos_nonneg 2 (Z.log2_up tc - 1)). simpl in Hids. lia.
Qed.

Lemma seedRoundOne_is_built_witness :
  seedRoundOne (seedBracketEntries [11; 12; 13] 4) 1 (built sample_cfg None)
  = built sample_cfg (Some (seedBracketEntries [11; 12; 13] 4)).
Proof. exact (seedRoundOne_is_built sample_cfg 4 5 1 sample_bracket _). Defined.
