(* ===== verification/Races.v ===== *)
(** * Group races ([src/services/tournament-points-race-results.service.ts],
    [src/services/tournament-battle-race-results.service.ts])

    Standings of the group stage: a points race ranks entries by their net points over the group
    window, a battle race by the match points of their fixtures.  The state is the three tables
    the services write; [EventResultRow]s are the scored gameweeks of the entries. *)

From S2P Require Import Prelude JsCollections Tournament Seeding GroupDraw.

(** ** Ranking *)

(** Points and overall rank of an entry of a group. *)
Definition standing : Type := Z * option Z.

(** The parts of the template string [`${points}-${overallRank ?? MAX_SAFE_INTEGER}`]; ranks are
    not negative, so the string determines them.
    src: src/services/tournament-points-race-results.service.ts:18-20 groupRankKey *)
Definition groupRankKey (s : standing) : Z * Z := (s.1, nullish s.2 MAX_SAFE_INTEGER).

(** src: src/services/tournament-points-race-results.service.ts:25-32 rankGroups *)
Definition compare_standing : standing → standing → Z :=
  then_by (by_key (λ s, - s.1)) (by_key (λ s, nullish s.2 MAX_SAFE_INTEGER)).

(** src: src/services/tournament-points-race-results.service.ts:22-40 rankGroups *)
Definition rankGroups (groups : list standing) : list (Z * Z * Z) :=
  let sorted := js_sort compare_standing groups in
  map_of_entries (imap (λ index entry, (groupRankKey entry, Z.of_nat index + 1)) sorted).

(** src: src/services/tournament-battle-race-results.service.ts:65-81 rankBattleGroups *)
Definition rankBattleGroups (groups : list standing) : list (Z * Z * Z) :=
  let sorted := js_sort compare_standing groups in
  map_of_entries (imap (λ index entry, (groupRankKey entry, Z.of_nat index + 1)) sorted).

(** src: src/services/tournament-battle-race-results.service.ts:83-87 matchPoints *)
Definition matchPoints (homeNet awayNet : Z) : Z :=
  if awayNet <? homeNet then 3 else if homeNet <? awayNet then 0 else 1.

(** ** Rows *)

(** The columns of a scored gameweek of an entry that the races read.
    src: src/db/schemas/platform.schema.ts:2995-3018 entryEventResultsInCompetition *)
Record EventResultRow := mkEventResultRow {
  x_entryId : Z;
  x_eventId : Z;
  x_eventPoints : Z;
  x_eventTransfersCost : Z;
  x_eventNetPoints : Z;
  x_eventRank : option Z;
  x_overallRank : Z;
}.

(** A row of [tournament_points_group_results]. *)
Record PointsResult := mkPointsResult {
  pr_groupId : nat;
  pr_eventId : Z;
  pr_entryId : Z;
  pr_eventGroupRank : Z;
  pr_eventPoints : Z;
  pr_eventCost : Z;
  pr_eventNetPoints : Z;
  pr_eventRank : option Z;
}.

(** A row of [tournament_battle_group_results]. *)
Record BattleResult := mkBattleResult {
  br_groupId : nat;
  br_eventId : Z;
  br_homeIndex : Z;
  br_awayIndex : Z;
  br_homeEntryId : option Z;
  br_homeNetPoints : option Z;
  br_homeRank : option Z;
  br_homeMatchPoints : option Z;
  br_awayEntryId : option Z;
  br_awayNetPoints : option Z;
  br_awayRank : option Z;
  br_awayMatchPoints : option Z;
  br_officialMatchId : option Z;
}.

(** The group tables of one tournament. *)
Record RaceTables := mkRaceTables {
  rt_groups : list GroupRow;
  rt_points : list PointsResult;
  rt_battles : list BattleResult;
}.

Definition group_key (g : GroupRow) : nat * Z := (gr_group_id g, gr_entry_id g).
Definition points_key (p : PointsResult) : Z * Z := (pr_eventId p, pr_entryId p).
Definition battle_key (b : BattleResult) : nat * Z * Z * Z :=
  (br_groupId b, br_eventId b, br_homeIndex b, br_awayIndex b).

(** The [SET] list of the upsert of groups: every column but the key.
    src: src/repositories/tournament-groups.ts:168-184 upsertBatch *)
Definition merge_group (old row : GroupRow) : GroupRow :=
  {| gr_tournament_id := gr_tournament_id old;
     gr_group_id := gr_group_id old;
     gr_group_name := gr_group_name row;
     gr_group_index := gr_group_index row;
     gr_entry_id := gr_entry_id old;
     gr_started_event_id := gr_started_event_id row;
     gr_ended_event_id := gr_ended_event_id row;
     gr_group_points := gr_group_points row;
     gr_group_rank := gr_group_rank row;
     gr_played := gr_played row;
     gr_won := gr_won row;
     gr_drawn := gr_drawn row;
     gr_lost := gr_lost row;
     gr_total_points := gr_total_points row;
     gr_total_transfers_cost := gr_total_transfers_cost row;
     gr_total_net_points := gr_total_net_points row;
     gr_qualified := gr_qualified row;
     gr_overall_rank := gr_overall_rank row |}.

(** src: src/repositories/tournament-points-group-results.ts:107-118 upsertBatch *)
Definition merge_points (old row : PointsResult) : PointsResult :=
  {| pr_groupId := pr_groupId old;
     pr_eventId := pr_eventId old;
     pr_entryId := pr_entryId old;
     pr_eventGroupRank := pr_eventGroupRank row;
     pr_eventPoints := pr_eventPoints row;
     pr_eventCost := pr_eventCost row;
     pr_eventNetPoints := pr_eventNetPoints row;
     pr_eventRank := pr_eventRank row |}.

(** src: src/repositories/tournament-battle-group-results.ts:189-197 upsertBatch *)
Definition merge_battle (old row : BattleResult) : BattleResult :=
  {| br_groupId := br_groupId old;
     br_eventId := br_eventId old;
     br_homeIndex := br_homeIndex old;
     br_awayIndex := br_awayIndex old;
     br_homeEntryId := br_homeEntryId old;
     br_homeNetPoints := br_homeNetPoints row;
     br_homeRank := br_homeRank row;
     br_homeMatchPoints := br_homeMatchPoints row;
     br_awayEntryId := br_awayEntryId old;
     br_awayNetPoints := br_awayNetPoints row;
     br_awayRank := br_awayRank row;
     br_awayMatchPoints := br_awayMatchPoints row;
     br_officialMatchId := br_officialMatchId old |}.

(** ** Queries *)

(** src: src/repositories/entry-event-results.ts:263-286 findByEventAndEntryIds *)
Definition find_event_results (eventId : Z) (entryIds : list Z) (db : list EventResultRow)
    : list EventResultRow :=
  filter (λ x, x_eventId x = eventId ∧ x_entryId x ∈ entryIds) db.

(** src: src/services/tournament-points-race-results.service.ts:12-16 EntryTotals *)
Record EntryTotals := mkEntryTotals {
  et_totalPoints : Z;
  et_totalTransfersCost : Z;
  et_totalNetPoints : Z;
}.

(** Rows of one entry between two gameweeks. *)
Definition entry_rows (entryId first last : Z) (db : list EventResultRow) : list EventResultRow :=
  filter (λ x, x_entryId x = entryId ∧ first ≤ x_eventId x ∧ x_eventId x ≤ last) db.

(** [SELECT ... SUM(...) ... GROUP BY entry_id] as the map the services make of it.
    src: src/repositories/entry-event-results.ts:217-250 aggregateTotalsByEntry *)
Definition aggregateTotalsByEntry (entryIds : list Z) (first last : Z) (db : list EventResultRow)
    : list (Z * EntryTotals) :=
  let rows := filter (λ x, x_entryId x ∈ entryIds ∧ first ≤ x_eventId x ∧ x_eventId x ≤ last) db in
  (λ id, let mine := filter (λ x, x_entryId x = id) rows in
     (id, mkEntryTotals (sum_by x_eventPoints mine) (sum_by x_eventTransfersCost mine)
            (sum_by x_eventNetPoints mine))) <$> dedup (x_entryId <$> rows).

(** src: src/services/tournament-points-race-results.service.ts:145-149 syncTournamentPointsRaceResultsForTournament *)
Definition zero_totals : EntryTotals := mkEntryTotals 0 0 0.

(** src: src/repositories/tournament-groups.ts:21-55 findByTournamentAndEntries *)
Definition find_groups (entryIds : list Z) (table : list GroupRow) : list GroupRow :=
  filter (λ g, gr_entry_id g ∈ entryIds) table.

(** ** Points race *)

(** The update of one group row, before ranking.
    src: src/services/tournament-points-race-results.service.ts:145-173 syncTournamentPointsRaceResultsForTournament *)
Definition points_update (eventId groupStartedEventId : Z) (totals : EntryTotals)
    (eventResult : EventResultRow) (group : GroupRow) : GroupRow :=
  {| gr_tournament_id := gr_tournament_id group;
     gr_group_id := gr_group_id group;
     gr_group_name := gr_group_name group;
     gr_group_index := gr_group_index group;
     gr_entry_id := gr_entry_id group;
     gr_started_event_id := gr_started_event_id group;
     gr_ended_event_id := gr_ended_event_id group;
     gr_group_points := et_totalNetPoints totals;
     gr_group_rank := gr_group_rank group;
     gr_played := eventId - groupStartedEventId + 1;
     gr_won := gr_won group;
     gr_drawn := gr_drawn group;
     gr_lost := gr_lost group;
     gr_total_points := et_totalPoints totals;
     gr_total_transfers_cost := et_totalTransfersCost totals;
     gr_total_net_points := et_totalNetPoints totals;
     gr_qualified := gr_qualified group;
     gr_overall_rank := Some (x_overallRank eventResult) |}.

(** The rank and the qualification flag of an updated row.
    src: src/services/tournament-points-race-results.service.ts:206-215 syncTournamentPointsRaceResultsForTournament *)
Definition set_rank (groupQualifyNum : option Z) (rank : Z) (group : GroupRow) : GroupRow :=
  {| gr_tournament_id := gr_tournament_id group;
     gr_group_id := gr_group_id group;
     gr_group_name := gr_group_name group;
     gr_group_index := gr_group_index group;
     gr_entry_id := gr_entry_id group;
     gr_started_event_id := gr_started_event_id group;
     gr_ended_event_id := gr_ended_event_id group;
     gr_group_points := gr_group_points group;
     gr_group_rank := Some rank;
     gr_played := gr_played group;
     gr_won := gr_won group;
     gr_drawn := gr_drawn group;
     gr_lost := gr_lost group;
     gr_total_points := gr_total_points group;
     gr_total_transfers_cost := gr_total_transfers_cost group;
     gr_total_net_points := gr_total_net_points group;
     gr_qualified :=
       if truthy groupQualifyNum
       then (if (0 <? rank) && (rank <=? nullish groupQualifyNum 0) then 1 else 0)
       else gr_qualified group;
     gr_overall_rank := gr_overall_rank group |}.

(** The counts a sync returns: updated groups, updated results, skipped entries. *)
Definition counts : Type := Z * Z * Z.

(** src: src/services/tournament-points-race-results.service.ts:66-238 syncTournamentPointsRaceResultsForTournament *)
Definition syncTournamentPointsRaceResultsForTournament (tournament : TournamentSyncContext)
    (entryIds : list Z) (db : list EventResultRow) (eventId : Z) (s : RaceTables)
    : RaceTables * counts :=
  match t_groupStartedEventId tournament, t_groupEndedEventId tournament with
  | Some groupStartedEventId, Some groupEndedEventId =>
      let missing := (s, (0, 0, Z.of_nat (length entryIds))) in
      if (groupStartedEventId =? 0) || (groupEndedEventId =? 0) then (s, (0, 0, 0)) else
      if is_nil entryIds then (s, (0, 0, 0)) else
      let eventResults := find_event_results eventId entryIds db in
      if is_nil eventResults then missing else
      let eventResultMap := map_by x_entryId eventResults in
      let tournamentGroups := find_groups entryIds (rt_groups s) in
      if is_nil tournamentGroups then missing else
      let totalsMap := aggregateTotalsByEntry entryIds groupStartedEventId
                         (Z.min eventId groupEndedEventId) db in
      let pointsGroupResultsMap := map_by pr_entryId
        (filter (λ p, pr_eventId p = eventId ∧ pr_entryId p ∈ entryIds) (rt_points s)) in
      let totals_of entryId := nullish (map_get entryId totalsMap) zero_totals in
      let updated := omap (λ group,
        (λ r, points_update eventId groupStartedEventId (totals_of (gr_entry_id group)) r group)
          <$> map_get (gr_entry_id group) eventResultMap) tournamentGroups in
      let skipped := Z.of_nat (length tournamentGroups) - Z.of_nat (length updated) in
      let groupRankMap groupId := rankGroups
        ((λ g, (gr_total_net_points g, gr_overall_rank g)) <$>
           filter (λ g, gr_group_id g = groupId) updated) in
      let updatedGroups := (λ group,
        set_rank (t_groupQualifyNum tournament)
          (nullish (map_get (groupRankKey (gr_total_net_points group, gr_overall_rank group))
                            (groupRankMap (gr_group_id group))) 0) group) <$> updated in
      let updatedResults := omap (λ group,
        (λ r, let existing := map_get (gr_entry_id group) pointsGroupResultsMap in
              {| pr_groupId := gr_group_id group;
                 pr_eventId := eventId;
                 pr_entryId := gr_entry_id group;
                 pr_eventGroupRank := nullish
                   (map_get (groupRankKey (et_totalNetPoints (totals_of (gr_entry_id group)),
                                           Some (x_overallRank r)))
                            (groupRankMap (gr_group_id group)))
                   (nullish (pr_eventGroupRank <$> existing) 0);
                 pr_eventPoints := x_eventPoints r;
                 pr_eventCost := x_eventTransfersCost r;
                 pr_eventNetPoints := x_eventPoints r - x_eventTransfersCost r;
                 pr_eventRank := x_eventRank r |})
          <$> map_get (gr_entry_id group) eventResultMap) tournamentGroups in
      (mkRaceTables (upsert_batch group_key merge_group updatedGroups (rt_groups s))
         (upsert_batch points_key merge_points updatedResults (rt_points s))
         (rt_battles s),
       (Z.of_nat (length updatedGroups), Z.of_nat (length updatedResults), skipped))
  | _, _ => (s, (0, 0, 0))
  end.

(** src: src/services/tournament-points-race-results.service.ts:240-266 syncTournamentPointsRaceResultsForTournamentId *)
Definition syncTournamentPointsRaceResultsForTournamentId
    (tournament : option TournamentSyncContext) (entryIds : list Z) (db : list EventResultRow)
    (eventId : Z) (s : RaceTables) : RaceTables * counts :=
  match tournament with
  | None => (s, (0, 0, 0))
  | Some t =>
      if bool_decide (t_groupMode t ≠ PointsRaces)
         || negb (truthy (t_groupStartedEventId t)) || negb (truthy (t_groupEndedEventId t))
         || (eventId <? nullish (t_groupStartedEventId t) 0)
         || (nullish (t_groupEndedEventId t) 0 <? eventId)
      then (s, (0, 0, 0))
      else syncTournamentPointsRaceResultsForTournament t entryIds db eventId s
  end.

(** ** Battle race *)

(** The scoring of a fixture of the gameweek: [None] for a row the strategy does not own, points
    cleared when an entrant has no result.
    src: src/services/tournament-battle-race-results.service.ts:145-197 syncTournamentBattleRaceResultsForTournament *)
Definition score_battle (eventResultMap : list (Z * EventResultRow)) (result : BattleResult)
    : option BattleResult :=
  let scored home away :=
    {| br_groupId := br_groupId result;
       br_eventId := br_eventId result;
       br_homeIndex := br_homeIndex result;
       br_awayIndex := br_awayIndex result;
       br_homeEntryId := br_homeEntryId result;
       br_homeNetPoints := home.1.1;
       br_homeRank := home.1.2;
       br_homeMatchPoints := home.2;
       br_awayEntryId := br_awayEntryId result;
       br_awayNetPoints := away.1.1;
       br_awayRank := away.1.2;
       br_awayMatchPoints := away.2;
       br_officialMatchId := br_officialMatchId result |} in
  match br_officialMatchId result, br_homeEntryId result, br_awayEntryId result with
  | None, Some home, Some away =>
      match map_get home eventResultMap, map_get away eventResultMap with
      | Some h, Some a =>
          let homeNet := x_eventNetPoints h in
          let awayNet := x_eventNetPoints a in
          Some (scored (Some homeNet, x_eventRank h, Some (matchPoints homeNet awayNet))
                       (Some awayNet, x_eventRank a, Some (matchPoints awayNet homeNet)))
      | _, _ => Some (scored (None, None, None) (None, None, None))
      end
  | _, _, _ => None
  end.

(** src: src/services/tournament-battle-race-results.service.ts:257-258 syncTournamentBattleRaceResultsForTournament *)
Record Counter := mkCounter { c_points : Z; c_won : Z; c_drawn : Z; c_lost : Z }.

Definition newCounter : Counter := mkCounter 0 0 0 0.

(** src: src/services/tournament-battle-race-results.service.ts:273-281 syncTournamentBattleRaceResultsForTournament *)
Definition count_points (counter : Counter) (points : Z) : Counter :=
  {| c_points := c_points counter + points;
     c_won := if points =? 3 then c_won counter + 1 else c_won counter;
     c_drawn := if points =? 3 then c_drawn counter
                else if points =? 1 then c_drawn counter + 1 else c_drawn counter;
     c_lost := if (points =? 3) || (points =? 1) then c_lost counter else c_lost counter + 1 |}.

(** The counters after one row of the history, keyed by group and entry.
    src: src/services/tournament-battle-race-results.service.ts:261-285 syncTournamentBattleRaceResultsForTournament *)
Definition count_row (counters : list (nat * Z * Counter)) (row : BattleResult)
    : list (nat * Z * Counter) :=
  match br_homeMatchPoints row, br_awayMatchPoints row, br_homeEntryId row, br_awayEntryId row with
  | Some homePoints, Some awayPoints, Some home, Some away =>
      fold_left (λ cs ep,
        let '(entryId, points) := ep in
        let k := (br_groupId row, entryId) in
        map_set k (count_points (nullish (map_get k cs) newCounter) points) cs)
        [(home, homePoints); (away, awayPoints)] counters
  | _, _, _, _ => counters
  end.

(** [findMaxEventIdInRange]: the latest scored gameweek of the window.
    src: src/repositories/tournament-battle-group-results.ts:102-137 findMaxEventIdInRange *)
Definition findMaxEventIdInRange (first last : Z) (table : list BattleResult) : option Z :=
  let scored := filter (λ b, (first ≤ br_eventId b ∧ br_eventId b ≤ last) ∧
    is_null (br_homeMatchPoints b) = false ∧ is_null (br_awayMatchPoints b) = false) table in
  match scored with
  | [] => None
  | b :: bs => Some (foldr (λ b acc, Z.max (br_eventId b) acc) (br_eventId b) bs)
  end.

(** src: src/services/tournament-battle-race-results.service.ts:322-343 syncTournamentBattleRaceResultsForTournament *)
Definition battle_update (played : Z) (counter : Counter) (totals : EntryTotals)
    (eventResult : EventResultRow) (group : GroupRow) : GroupRow :=
  {| gr_tournament_id := gr_tournament_id group;
     gr_group_id := gr_group_id group;
     gr_group_name := gr_group_name group;
     gr_group_index := gr_group_index group;
     gr_entry_id := gr_entry_id group;
     gr_started_event_id := gr_started_event_id group;
     gr_ended_event_id := gr_ended_event_id group;
     gr_group_points := c_points counter;
     gr_group_rank := gr_group_rank group;
     gr_played := played;
     gr_won := c_won counter;
     gr_drawn := c_drawn counter;
     gr_lost := c_lost counter;
     gr_total_points := et_totalPoints totals;
     gr_total_transfers_cost := et_totalTransfersCost totals;
     gr_total_net_points := et_totalNetPoints totals;
     gr_qualified := gr_qualified group;
     gr_overall_rank := Some (x_overallRank eventResult) |}.

(** The standings of one group, recomputed.
    src: src/services/tournament-battle-race-results.service.ts:309-365 syncTournamentBattleRaceResultsForTournament *)
Definition battle_group_updates (groupQualifyNum : option Z) (played : Z)
    (counters : list (nat * Z * Counter)) (totalsMap : list (Z * EntryTotals))
    (rankingResultMap : list (Z * EventResultRow)) (groupEntries : list GroupRow)
    : list GroupRow :=
  let filtered := omap (λ group,
    (λ eventResult, battle_update played
       (nullish (map_get (group_key group) counters) newCounter)
       (nullish (map_get (gr_entry_id group) totalsMap) zero_totals) eventResult group)
      <$> map_get (gr_entry_id group) rankingResultMap) groupEntries in
  let rankMap := rankBattleGroups
    ((λ g, (gr_group_points g, gr_overall_rank g)) <$> filtered) in
  (λ entry, set_rank groupQualifyNum
     (nullish (map_get (groupRankKey (gr_group_points entry, gr_overall_rank entry)) rankMap) 0)
     entry) <$> filtered.

(** The fixture table after the gameweek's scores are written.
    src: src/services/tournament-battle-race-results.service.ts:144-204 syncTournamentBattleRaceResultsForTournament *)
Definition write_scores (eventResultMap : list (Z * EventResultRow)) (eventId : Z)
    (table : list BattleResult) : list BattleResult :=
  upsert_batch battle_key merge_battle
    (omap (score_battle eventResultMap) (filter (λ b, br_eventId b = eventId) table)) table.

(** src: src/services/tournament-battle-race-results.service.ts:210-219 syncTournamentBattleRaceResultsForTournament *)
Definition recompute_through (groupStartedEventId groupEndedEventId eventId : Z)
    (table : list BattleResult) : Z :=
  Z.min groupEndedEventId
    (Z.max eventId (nullish (findMaxEventIdInRange groupStartedEventId groupEndedEventId table)
                            eventId)).

(** src: src/services/tournament-battle-race-results.service.ts:225-230 syncTournamentBattleRaceResultsForTournament *)
Definition battle_history (groupStartedEventId through : Z) (table : list BattleResult)
    : list BattleResult :=
  filter (λ b, groupStartedEventId ≤ br_eventId b ∧ br_eventId b ≤ through) table.

(** The group table after the standings of every group with fixtures are recomputed.
    src: src/services/tournament-battle-race-results.service.ts:259-367 syncTournamentBattleRaceResultsForTournament *)
Definition recompute_groups (groupQualifyNum : option Z) (played : Z) (history : list BattleResult)
    (totalsMap : list (Z * EntryTotals)) (rankingResultMap : list (Z * EventResultRow))
    (entryIds : list Z) (table : list GroupRow) : list GroupRow :=
  let groupIds := dedup (br_groupId <$> history) in
  let counters := fold_left count_row history [] in
  let allGroupEntries := find_groups entryIds table in
  upsert_batch group_key merge_group
    (flat_map (λ groupId, battle_group_updates groupQualifyNum played counters totalsMap
                 rankingResultMap (filter (λ g, gr_group_id g = groupId) allGroupEntries)) groupIds)
    table.

(** src: src/services/tournament-battle-race-results.service.ts:89-370 syncTournamentBattleRaceResultsForTournament *)
Definition syncTournamentBattleRaceResultsForTournament (tournament : TournamentSyncContext)
    (entryIds : list Z) (db : list EventResultRow) (eventId : Z) (s : RaceTables)
    : RaceTables * counts :=
  match t_groupStartedEventId tournament, t_groupEndedEventId tournament with
  | Some groupStartedEventId, Some groupEndedEventId =>
      let missing := (s, (0, 0, Z.of_nat (length entryIds))) in
      if (groupStartedEventId =? 0) || (groupEndedEventId =? 0) then (s, (0, 0, 0)) else
      if is_nil entryIds then (s, (0, 0, 0)) else
      let eventResults := find_event_results eventId entryIds db in
      if is_nil eventResults then missing else
      let eventResultMap := map_by x_entryId eventResults in
      let battleResults := filter (λ b, br_eventId b = eventId) (rt_battles s) in
      if is_nil battleResults then missing else
      let battles := write_scores eventResultMap eventId (rt_battles s) in
      let through := recompute_through groupStartedEventId groupEndedEventId eventId battles in
      let history := battle_history groupStartedEventId through battles in
      let totalsMap := aggregateTotalsByEntry entryIds groupStartedEventId through db in
      let rankingResultMap :=
        if through =? eventId then eventResultMap
        else map_by x_entryId (find_event_results through entryIds db) in
      let groups := recompute_groups (t_groupQualifyNum tournament)
        (through - groupStartedEventId + 1) history totalsMap rankingResultMap entryIds
        (rt_groups s) in
      let skippedRows := filter (λ b,
        match score_battle eventResultMap b with
        | Some r => is_null (br_homeMatchPoints r)
        | None => true
        end = true) battleResults in
      let standing_rows := filter (λ g, gr_group_id g ∈ br_groupId <$> history)
                             (find_groups entryIds (rt_groups s)) in
      let ranked_rows := filter (λ g, is_null (map_get (gr_entry_id g) rankingResultMap) = false)
                           standing_rows in
      (mkRaceTables groups (rt_points s) battles,
       (Z.of_nat (length ranked_rows),
        Z.of_nat (length (omap (score_battle eventResultMap) battleResults)),
        Z.of_nat (length skippedRows)
          + (Z.of_nat (length standing_rows) - Z.of_nat (length ranked_rows))))
  | _, _ => (s, (0, 0, 0))
  end.

(** ** What a rank means *)

(** [a] stands at or before [b]: more points, or as many points and no worse overall rank. *)
Definition at_or_before (a b : standing) : Prop :=
  b.1 < a.1 ∨ a.1 = b.1 ∧ nullish a.2 MAX_SAFE_INTEGER ≤ nullish b.2 MAX_SAFE_INTEGER.

#[export] Instance at_or_before_dec a b : Decision (at_or_before a b).
Proof. unfold at_or_before. apply _. Defined.

#[export] Instance compare_standing_comparator : Comparator compare_standing.
Proof. unfold compare_standing. apply _. Qed.

Lemma compare_standing_le a b : cmp_le compare_standing a b ↔ at_or_before a b.
Proof.
  unfold cmp_le, compare_standing, then_by, by_key, at_or_before.
  destruct (Z.eqb_spec (- a.1 - - b.1) 0); lia.
Qed.

Lemma groupRankKey_eq a b : groupRankKey a = groupRankKey b ↔ at_or_before a b ∧ at_or_before b a.
Proof.
  unfold groupRankKey, at_or_before. split; [intros [= H1 H2]; lia|].
  intros [Ha Hb]. f_equal; lia.
Qed.

Definition rank_entries (sorted : list standing) : list (Z * Z * Z) :=
  imap (λ index entry, (groupRankKey entry, Z.of_nat index + 1)) sorted.

Lemma rank_entries_last (l : list standing) e :
  StronglySorted (cmp_le compare_standing) l → e ∈ l →
  map_get (groupRankKey e) (rev (rank_entries l))
    = Some (Z.of_nat (length (filter (λ f, at_or_before f e) l))).
Proof.
  induction l as [|x l IH] using rev_ind; [set_solver|].
  intros Hs He. unfold rank_entries in *. rewrite imap_app, rev_app_distr. simpl.
  rewrite Nat.add_0_r. rewrite filter_app, length_app.
  apply StronglySorted_app in Hs as (Hlx & Hl & _).
  destruct (decide (groupRankKey e = groupRankKey x)) as [Hk|Hk].
  - apply groupRankKey_eq in Hk as [Hex Hxe].
    rewrite filter_all.
    + rewrite filter_cons_True by done. simpl. f_equal. lia.
    + intros f Hf. specialize (Hlx f x Hf ltac:(set_solver)).
      apply compare_standing_le in Hlx. unfold at_or_before in *. lia.
  - assert (e ∈ l) as Hel by (apply elem_of_app in He as [?|?]; [done|set_solver]).
    rewrite IH by done. specialize (Hlx e x Hel ltac:(set_solver)).
    apply compare_standing_le in Hlx.
    rewrite filter_cons_False; [simpl; f_equal; lia|].
    intros Hxe. apply Hk, groupRankKey_eq. done.
Qed.

Lemma rankGroups_get groups e :
  e ∈ groups →
  map_get (groupRankKey e) (rankGroups groups)
    = Some (Z.of_nat (length (filter (λ f, at_or_before f e) groups))).
Proof.
  intros He. unfold rankGroups. rewrite map_of_entries_get_last.
  change (imap _ _) with (rank_entries (js_sort compare_standing groups)).
  rewrite rank_entries_last; [|apply js_sort_sorted, _|by rewrite elem_of_js_sort].
  by rewrite (js_sort_perm compare_standing groups).
Qed.

Lemma rankBattleGroups_get groups e :
  e ∈ groups →
  map_get (groupRankKey e) (rankBattleGroups groups)
    = Some (Z.of_nat (length (filter (λ f, at_or_before f e) groups))).
Proof. apply rankGroups_get. Qed.

Lemma at_most_q (groups : list standing) (q : Z) :
  0 ≤ q →
  Z.of_nat (length (filter (λ e, Z.of_nat (length (filter (λ f, at_or_before f e) groups)) ≤ q)
                      groups)) ≤ q.
Proof.
  intros Hq. set (S := filter _ groups).
  destruct (js_sort compare_standing S) as [|m l] eqn:Es using rev_ind; [|clear IHl].
  { apply (f_equal length) in Es. rewrite length_js_sort in Es. simpl in Es. lia. }
  assert (m ∈ S) as Hm by (rewrite <-(elem_of_js_sort compare_standing), Es; set_solver).
  assert (∀ x, x ∈ S → at_or_before x m) as Hmax.
  { intros x Hx. pose proof (js_sort_sorted compare_standing S) as Hs. rewrite Es in Hs.
    apply StronglySorted_app in Hs as (Hlx & _ & _).
    rewrite <-(elem_of_js_sort compare_standing), Es in Hx.
    apply elem_of_app in Hx as [Hx|Hx%list_elem_of_singleton].
    - apply compare_standing_le, Hlx; set_solver.
    - subst. unfold at_or_before. lia. }
  assert (Z.of_nat (length (filter (λ f, at_or_before f m) groups)) ≤ q) as Hcount.
  { unfold S in Hm. by apply list_elem_of_filter in Hm as [? _]. }
  assert (length S ≤ length (filter (λ f, at_or_before f m) groups))%nat; [|lia].
  apply length_filter_mono. intros x Hx HP. apply Hmax. by apply list_elem_of_filter.
Qed.

(** The rank of an entry is the number of entries of its group at or before it: entries level
    on points and overall rank share the lowest place among them, and the first [q] places go to
    at most [q] entries. *)
Theorem rankGroups_spec (groups : list standing) (q : Z) (Hq : 0 ≤ q) :
  (∀ e, e ∈ groups → map_get (groupRankKey e) (rankGroups groups)
     = Some (Z.of_nat (length (filter (λ f, at_or_before f e) groups)))) ∧
  Z.of_nat (length (filter (λ e, nullish (map_get (groupRankKey e) (rankGroups groups)) 0 ≤ q)
                      groups)) ≤ q.
Proof.
  split.
  - intros. by apply rankGroups_get.
  - rewrite (filter_ext_in _ (λ e, Z.of_nat (length (filter (λ f, at_or_before f e) groups)) ≤ q)).
    2: { intros e He. rewrite rankGroups_get by done. done. }
    by apply at_most_q.
Qed.

Lemma rankGroups_spec_witness :
  map_get (groupRankKey (50, Some 7)) (rankGroups [(50, Some 7); (60, Some 9); (50, Some 7)])
    = Some 3 ∧ 0 ≤ 2.
Proof.
  split; [|lia].
  exact (proj1 (rankGroups_spec [(50, Some 7); (60, Some 9); (50, Some 7)] 2 ltac:(lia))
    (50, Some 7) ltac:(apply list_elem_of_In; simpl; tauto)).
Defined.

(** ** Counters *)

(** Match points of an entry over the scored rows of a group. *)
Definition row_points (k : nat * Z) (row : BattleResult) : list Z :=
  match br_homeMatchPoints row, br_awayMatchPoints row, br_homeEntryId row, br_awayEntryId row with
  | Some hp, Some ap, Some h, Some a =>
      if bool_decide (br_groupId row = k.1)
      then (if bool_decide (h = k.2) then [hp] else []) ++ (if bool_decide (a = k.2) then [ap] else [])
      else []
  | _, _, _, _ => []
  end.

Definition tally (points : list Z) : Counter := fold_left count_points points newCounter.

Lemma tally_snoc l p : tally (l ++ [p]) = count_points (tally l) p.
Proof. unfold tally. by rewrite fold_left_app. Qed.

Lemma tally_if l (P : Prop) `{Decision P} p :
  tally (l ++ (if bool_decide P then [p] else [])) =
    if bool_decide P then count_points (tally l) p else tally l.
Proof. case_bool_decide; [apply tally_snoc|by rewrite app_nil_r]. Qed.

Lemma counter_set (cs : list (nat * Z * Counter)) k k' p :
  nullish (map_get k (map_set k' (count_points (nullish (map_get k' cs) newCounter) p) cs)) newCounter
  = if bool_decide (k' = k) then count_points (nullish (map_get k cs) newCounter) p
    else nullish (map_get k cs) newCounter.
Proof.
  rewrite map_get_set. destruct (decide (k = k')) as [->|Hne].
  - by rewrite bool_decide_eq_true_2.
  - by rewrite bool_decide_eq_false_2 by congruence.
Qed.

(** The counter map holds the tally of every entry's match points. *)
Lemma counters_get (history : list BattleResult) k :
  nullish (map_get k (fold_left count_row history [])) newCounter
    = tally (flat_map (row_points k) history).
Proof.
  induction history as [|row history IH] using rev_ind; [done|].
  rewrite fold_left_app, flat_map_app_distr. simpl. rewrite app_nil_r.
  unfold count_row at 1, row_points at 2.
  destruct (br_homeMatchPoints row) as [hp|]; [|by rewrite app_nil_r].
  destruct (br_awayMatchPoints row) as [ap|]; [|by rewrite app_nil_r].
  destruct (br_homeEntryId row) as [h|]; [|by rewrite app_nil_r].
  destruct (br_awayEntryId row) as [a|]; [|by rewrite app_nil_r].
  set (cs := fold_left count_row history []) in *. cbn [fold_left].
  rewrite !counter_set, IH. destruct k as [g id]. simpl fst. simpl snd.
  destruct (decide (br_groupId row = g)) as [<-|Hg].
  - rewrite (bool_decide_eq_true_2 (br_groupId row = br_groupId row)) by done.
    rewrite app_assoc, !tally_if.
    rewrite (bool_decide_ext ((br_groupId row, h) = (br_groupId row, id)) (h = id))
      by (split; congruence).
    by rewrite (bool_decide_ext ((br_groupId row, a) = (br_groupId row, id)) (a = id))
      by (split; congruence).
  - rewrite (bool_decide_eq_false_2 (br_groupId row = g)) by done.
    rewrite !bool_decide_eq_false_2 by congruence. by rewrite app_nil_r.
Qed.

(** Match points are a win, a draw or a defeat. *)
Definition legal_points (p : Z) : Prop := p = 3 ∨ p = 1 ∨ p = 0.

Lemma matchPoints_legal h a : legal_points (matchPoints h a).
Proof. unfold matchPoints, legal_points. repeat case_match; auto. Qed.

Lemma tally_sound l :
  Forall legal_points l →
  c_points (tally l) = 3 * c_won (tally l) + c_drawn (tally l) ∧
  c_won (tally l) + c_drawn (tally l) + c_lost (tally l) = Z.of_nat (length l) ∧
  c_points (tally l) = sum_by (λ p, p) l ∧
  0 ≤ c_won (tally l) ∧ 0 ≤ c_drawn (tally l) ∧ 0 ≤ c_lost (tally l).
Proof.
  induction l as [|p l IH] using rev_ind; [done|].
  intros [Hl Hp]%Forall_app. apply Forall_cons in Hp as [Hp _]. specialize (IH Hl).
  assert (sum_by (λ p, p) (l ++ [p]) = sum_by (λ p, p) l + p) as Hsum.
  { clear. unfold sum_by. induction l; simpl; [lia|]. rewrite IHl. lia. }
  rewrite tally_snoc, length_app, Hsum. unfold count_points. simpl.
  destruct Hp as [Hp|[Hp|Hp]]; subst p; simpl; lia.
Qed.

(** ** One pass over the tables *)

Lemma score_battle_key erm b b' :
  score_battle erm b = Some b' → battle_key b' = battle_key b ∧ merge_battle b b' = b'.
Proof.
  unfold score_battle. destruct (br_officialMatchId b) eqn:Eo; [done|].
  destruct (br_homeEntryId b) eqn:Eh; [|done]. destruct (br_awayEntryId b) eqn:Ea; [|done].
  intros H. destruct b; simpl in *; subst.
  destruct (map_get _ _); [destruct (map_get _ _)|]; injection H as <-; done.
Qed.

Definition score_row (erm : list (Z * EventResultRow)) (e : Z) (b : BattleResult) : BattleResult :=
  if decide (br_eventId b = e) then default b (score_battle erm b) else b.

Lemma battle_row_after (erm : list (Z * EventResultRow)) (e : Z) (table : list BattleResult) :
  NoDup (battle_key <$> table) →
  write_scores erm e table = score_row erm e <$> table.
Proof.
  intros Hnd. unfold write_scores.
  rewrite (omap_filter_default _ (λ b, is_Some (score_battle erm b))) by done.
  rewrite list_filter_filter.
  rewrite (upsert_batch_image battle_key merge_battle (λ _ _, eq_refl)
    (λ b, is_Some (score_battle erm b) ∧ br_eventId b = e) (λ b, default b (score_battle erm b)));
    [|done|done|..].
  - apply list_fmap_ext. intros _ b _. unfold score_row.
    destruct (score_battle erm b) as [b'|] eqn:E; simpl.
    + destruct (decide (br_eventId b = e)).
      * by rewrite decide_True.
      * by rewrite decide_False by tauto.
    + by repeat case_decide.
  - intros b [[b' Hb] _]. rewrite Hb. simpl. by apply score_battle_key in Hb as [? _].
  - intros b [[b' Hb] _]. rewrite Hb. simpl. by apply score_battle_key in Hb as [_ ?].
Qed.

Section recompute.
Context (q : option Z) (played : Z) (history : list BattleResult).
Context (totals : list (Z * EntryTotals)) (ranking : list (Z * EventResultRow)).
Context (entryIds : list Z).

(** The rows a recomputation writes. *)
Definition ranked (g : GroupRow) : Prop :=
  gr_entry_id g ∈ entryIds ∧ gr_group_id g ∈ br_groupId <$> history ∧
  is_Some (map_get (gr_entry_id g) ranking).

#[export] Instance ranked_dec g : Decision (ranked g).
Proof. unfold ranked. apply _. Defined.

(** The recomputed row before it is ranked. *)
Definition recomputed (g : GroupRow) : GroupRow :=
  match map_get (gr_entry_id g) ranking with
  | Some r => battle_update played (tally (flat_map (row_points (group_key g)) history))
                (nullish (map_get (gr_entry_id g) totals) zero_totals) r g
  | None => g
  end.

Definition group_standing (g : GroupRow) : standing := (gr_group_points g, gr_overall_rank g).

(** Place of a row among the recomputed rows of its group. *)
Definition battle_place (table : list GroupRow) (g : GroupRow) : Z :=
  Z.of_nat (length (filter
    (λ f, ranked f ∧ gr_group_id f = gr_group_id g ∧
          at_or_before (group_standing (recomputed f)) (group_standing (recomputed g))) table)).

Lemma battle_group_updates_eq (entries : list GroupRow) :
  battle_group_updates q played (fold_left count_row history []) totals ranking entries =
  (λ g, set_rank q (Z.of_nat (length (filter
      (λ f, is_Some (map_get (gr_entry_id f) ranking) ∧
            at_or_before (group_standing (recomputed f)) (group_standing (recomputed g))) entries)))
    (recomputed g)) <$> filter (λ g, is_Some (map_get (gr_entry_id g) ranking)) entries.
Proof.
  unfold battle_group_updates.
  rewrite (omap_filter_default _ (λ g, is_Some (map_get (gr_entry_id g) ranking))).
  2: { intros g. destruct (map_get (gr_entry_id g) ranking); simpl; naive_solver. }
  set (l := filter _ entries).
  assert ((λ x, default x ((λ eventResult, battle_update played
      (nullish (map_get (group_key x) (fold_left count_row history [])) newCounter)
      (nullish (map_get (gr_entry_id x) totals) zero_totals) eventResult x)
      <$> map_get (gr_entry_id x) ranking)) <$> l = recomputed <$> l) as ->.
  { apply list_fmap_ext. intros _ g _. unfold recomputed.
    destruct (map_get (gr_entry_id g) ranking); simpl; [|done]. by rewrite counters_get. }
  rewrite <-!list_fmap_compose. apply list_fmap_ext. intros i g Hg%list_elem_of_lookup_2.
  unfold compose at 1. simpl.
  f_equal. change (λ g0, (gr_group_points g0, gr_overall_rank g0)) with group_standing.
  change (gr_group_points (recomputed g), gr_overall_rank (recomputed g))
    with ((group_standing ∘ recomputed) g).
  rewrite rankBattleGroups_get by (by apply list_elem_of_fmap_2). simpl nullish. f_equal.
  rewrite <-(fmap_filter_iff (group_standing ∘ recomputed)
    (λ f, at_or_before (group_standing (recomputed f)) (group_standing (recomputed g)))
    (λ f, at_or_before f ((group_standing ∘ recomputed) g))) by done.
  rewrite length_fmap. unfold l. rewrite list_filter_filter. f_equal.
  apply list_filter_iff. tauto.
Qed.

Lemma recompute_groups_eq (table : list GroupRow) :
  NoDup (group_key <$> table) →
  recompute_groups q played history totals ranking entryIds table =
    (λ g, if decide (ranked g) then set_rank q (battle_place table g) (recomputed g) else g)
      <$> table.
Proof.
  intros Hnd. unfold recompute_groups.
  rewrite (upsert_batch_image group_key merge_group (λ _ _, eq_refl) ranked
    (λ g, set_rank q (battle_place table g) (recomputed g))); [done|done|..].
  - trans ((λ g, set_rank q (battle_place table g) (recomputed g)) <$>
      flat_map (λ id, filter (λ g, gr_group_id g = id)
        (filter (λ g, is_Some (map_get (gr_entry_id g) ranking)) (find_groups entryIds table)))
      (dedup (br_groupId <$> history))).
    + rewrite fmap_flat_map. apply reflexive_eq, flat_map_ext_in. intros id Hid.
      rewrite elem_of_dedup in Hid. rewrite battle_group_updates_eq. unfold find_groups.
      rewrite !list_filter_filter.
      match goal with |- _ = _ <$> ?k => match goal with |- _ <$> ?l = _ =>
        assert (l = k) as <- by (apply list_filter_iff; tauto) end end.
      apply list_fmap_ext. intros i g Hg%list_elem_of_lookup_2.
      apply list_elem_of_filter in Hg as [(_ & Hgid & _) _].
      do 2 f_equal. unfold battle_place. rewrite list_filter_filter.
      do 2 f_equal. apply list_filter_iff. intros f.
      unfold ranked. rewrite Hgid.
      split; intros; destruct_and!; split_and!; try done; congruence.
    + rewrite (flat_map_filter_key gr_group_id) by apply NoDup_dedup.
      unfold find_groups. rewrite !list_filter_filter.
      apply reflexive_eq. f_equal. apply list_filter_iff. intros g. unfold ranked.
      rewrite elem_of_dedup. tauto.
  - intros g Hg. unfold recomputed. by case_match.
  - intros g Hg. unfold recomputed. destruct g. by case_match.
Qed.
End recompute.

Section recompute_again.
Context (q : option Z) (played : Z) (history : list BattleResult).
Context (totals : list (Z * EntryTotals)) (ranking : list (Z * EventResultRow)).
Context (entryIds : list Z) (table : list GroupRow).
Notation ranked' := (ranked history ranking entryIds).
Notation recomputed' := (recomputed played history totals ranking).
Notation place := (battle_place played history totals ranking entryIds).

Definition after (g : GroupRow) : GroupRow :=
  if decide (ranked' g) then set_rank q (place table g) (recomputed' g) else g.

Lemma after_key g : group_key (after g) = group_key g.
Proof. unfold after, recomputed. case_decide; [|done]. by case_match. Qed.

Lemma ranked_key g g' : group_key g = group_key g' → ranked' g ↔ ranked' g'.
Proof. unfold group_key, ranked. intros [= -> ->]. done. Qed.

Lemma recomputed_standing g g' :
  group_key g = group_key g' → ranked' g →
  group_standing (recomputed' g) = group_standing (recomputed' g').
Proof.
  intros Hk (_ & _ & [r Hr]). unfold recomputed. unfold group_key in *. injection Hk as Hg He.
  rewrite <-He, Hr, <-Hg. done.
Qed.

Lemma after_standing g : ranked' g → group_standing (after g) = group_standing (recomputed' g).
Proof. intros Hr. unfold after. by rewrite decide_True. Qed.

(** Places can be read off the recomputed table. *)
Lemma place_after g :
  ranked' g →
  place table g = Z.of_nat (length (filter
    (λ f, ranked' f ∧ gr_group_id f = gr_group_id g ∧
          at_or_before (group_standing f) (group_standing (after g))) (after <$> table))).
Proof.
  intros Hg. unfold battle_place.
  rewrite <-(fmap_filter_iff after
    (λ f, ranked' f ∧ gr_group_id f = gr_group_id g ∧
          at_or_before (group_standing (recomputed' f)) (group_standing (recomputed' g)))
    (λ f, ranked' f ∧ gr_group_id f = gr_group_id g ∧
          at_or_before (group_standing f) (group_standing (after g)))).
  - by rewrite length_fmap.
  - intros f _. pose proof (after_key f) as Hk. rewrite (ranked_key _ _ Hk).
    rewrite (after_standing g) by done. unfold group_key in Hk. injection Hk as -> _.
    split; intros (Hf & ? & ?); rewrite (after_standing f) in * by done; done.
Qed.

Lemma set_rank_again p g :
  ranked' g → set_rank q p (recomputed' (after g)) = set_rank q p (recomputed' g).
Proof.
  intros Hg. pose proof Hg as (_ & _ & [r Hget]). unfold after. rewrite decide_True by done.
  unfold recomputed. rewrite Hget. simpl gr_entry_id. rewrite Hget.
  unfold set_rank. simpl. by destruct (truthy q).
Qed.

Lemma recompute_groups_again :
  NoDup (group_key <$> table) →
  recompute_groups q played history totals ranking entryIds
    (recompute_groups q played history totals ranking entryIds table)
  = recompute_groups q played history totals ranking entryIds table.
Proof.
  intros Hnd. rewrite (recompute_groups_eq _ _ _ _ _ _ table Hnd).
  change (λ g, if decide (ranked' g) then set_rank q (place table g) (recomputed' g) else g)
    with after.
  assert (group_key <$> (after <$> table) = group_key <$> table) as Hkeys.
  { rewrite <-list_fmap_compose. apply list_fmap_ext. intros. apply after_key. }
  rewrite recompute_groups_eq by (by rewrite Hkeys).
  rewrite <-list_fmap_compose. apply list_fmap_ext. intros _ g _. unfold compose.
  pose proof (after_key g) as Hk. pose proof (ranked_key _ _ Hk) as Hr.
  destruct (decide (ranked' g)) as [Hg|Hg].
  - rewrite decide_True by (by apply Hr).
    assert (place (after <$> table) (after g) = place table g) as ->.
    { rewrite (place_after g) by done. unfold battle_place. do 2 f_equal.
      apply filter_ext_in. intros f (f0 & -> & _)%list_elem_of_fmap.
      injection Hk as -> _. split; intros (Hf & Hgid & Hab); (split_and!; [done..|]).
      - rewrite (recomputed_standing (after f0) f0) in Hab by (done || apply after_key).
        rewrite (recomputed_standing (after g) g) in Hab by (done || apply after_key || by apply Hr).
        rewrite (ranked_key _ _ (after_key f0)) in Hf. by rewrite !after_standing.
      - rewrite (recomputed_standing (after f0) f0) by (done || apply after_key).
        rewrite (recomputed_standing (after g) g) by (done || apply after_key || by apply Hr).
        rewrite (ranked_key _ _ (after_key f0)) in Hf. by rewrite !after_standing in Hab. }
    rewrite set_rank_again by done. unfold after. by rewrite decide_True.
  - rewrite decide_False by (by rewrite Hr). done.
Qed.
End recompute_again.

(** ** The whole battle sync *)

Lemma score_battle_again erm b b' : score_battle erm b = Some b' → score_battle erm b' = Some b'.
Proof.
  unfold score_battle. destruct (br_officialMatchId b) eqn:Eo; [done|].
  destruct (br_homeEntryId b) as [h|] eqn:Eh; [|done].
  destruct (br_awayEntryId b) as [a|] eqn:Ea; [|done].
  destruct (map_get h erm) eqn:Hh; [destruct (map_get a erm) eqn:Ha|];
    intros H; injection H as <-; simpl; rewrite ?Eo, ?Eh, ?Ea, ?Hh, ?Ha; done.
Qed.

Lemma write_scores_keys erm e table :
  NoDup (battle_key <$> table) →
  battle_key <$> write_scores erm e table = battle_key <$> table.
Proof.
  intros Hnd. rewrite battle_row_after by done. rewrite <-list_fmap_compose.
  apply list_fmap_ext. intros _ b _. unfold compose, score_row. case_decide; [|done].
  destruct (score_battle erm b) as [b'|] eqn:E; [|done]. by apply score_battle_key in E as [? _].
Qed.

Lemma write_scores_again erm e table :
  NoDup (battle_key <$> table) →
  write_scores erm e (write_scores erm e table) = write_scores erm e table.
Proof.
  intros Hnd. rewrite (battle_row_after _ _ (write_scores erm e table))
    by (by rewrite write_scores_keys).
  rewrite battle_row_after by done. rewrite <-list_fmap_compose. apply list_fmap_ext.
  intros _ b _. unfold compose, score_row. destruct (decide (br_eventId b = e)) as [He|He].
  - destruct (score_battle erm b) as [b'|] eqn:E; simpl.
    + pose proof (score_battle_again _ _ _ E) as ->. by case_decide.
    + by rewrite decide_True, E.
  - by rewrite decide_False.
Qed.

Lemma write_scores_event erm e table :
  NoDup (battle_key <$> table) →
  is_nil (filter (λ b, br_eventId b = e) table) = false →
  is_nil (filter (λ b, br_eventId b = e) (write_scores erm e table)) = false.
Proof.
  intros Hnd. rewrite battle_row_after by done. intros Hne.
  destruct (filter (λ b, br_eventId b = e) table) as [|b l] eqn:E; [done|].
  assert (b ∈ filter (λ b, br_eventId b = e) table) as Hb by (rewrite E; set_solver).
  apply list_elem_of_filter in Hb as [He Hb].
  destruct (filter (λ b, br_eventId b = e) (score_row erm e <$> table)) eqn:E2; [exfalso|done].
  assert (score_row erm e b ∈ filter (λ b, br_eventId b = e) (score_row erm e <$> table)) as Hin;
    [|rewrite E2 in Hin; set_solver].
  apply list_elem_of_filter. split; [|by apply list_elem_of_fmap_2].
  unfold score_row. case_decide; [|done]. destruct (score_battle erm b) as [b'|] eqn:Es; [|done].
  apply score_battle_key in Es as [Hk _]. unfold battle_key in Hk. simpl. congruence.
Qed.

(** Running the battle-race sync of a gameweek again, with the same scored gameweeks, changes
    nothing: no counter is added twice, whatever was played or rescored in between runs over the
    same data. *)
Theorem battle_race_idempotent (t : TournamentSyncContext) (entryIds : list Z)
  (db : list EventResultRow) (e : Z) (s : RaceTables)
  (Hg : NoDup (group_key <$> rt_groups s)) (Hb : NoDup (battle_key <$> rt_battles s)) :
  let once := (syncTournamentBattleRaceResultsForTournament t entryIds db e s).1 in
  (syncTournamentBattleRaceResultsForTournament t entryIds db e once).1 = once.
Proof.
  unfold syncTournamentBattleRaceResultsForTournament.
  destruct (t_groupStartedEventId t) as [first|]; [|done].
  destruct (t_groupEndedEventId t) as [last|]; [|done].
  destruct ((first =? 0) || (last =? 0)); [done|]. destruct (is_nil entryIds); [done|].
  destruct (is_nil (find_event_results e entryIds db)); [done|].
  destruct (is_nil (filter (λ b, br_eventId b = e) (rt_battles s))) eqn:Hn; [simpl; by rewrite Hn|].
  cbn [fst rt_battles rt_groups rt_points]. rewrite write_scores_event by done.
  cbn [fst]. rewrite write_scores_again by done. f_equal.
  by apply recompute_groups_again.
Qed.

Definition sample_group (entry : Z) : GroupRow :=
  mkGroupRow 1 1 "A" 1 entry (Some 1) (Some 3) 0 None 0 0 0 0 0 0 0 0 None.
Definition sample_race : RaceTables :=
  mkRaceTables [sample_group 11; sample_group 12] []
    [mkBattleResult 1 1 1 2 (Some 11) None None None (Some 12) None None None None].
Definition sample_db : list EventResultRow :=
  [mkEventResultRow 11 1 60 4 56 None 100; mkEventResultRow 12 1 56 0 56 None 50].
Definition sample_ctx : TournamentSyncContext :=
  mkSyncContext 1 None None None 2 BattleRaces (Some 1) (Some 3) (Some 1) NoKnockout
    None None None None None.

Lemma sample_groups_NoDup : NoDup (group_key <$> rt_groups sample_race).
Proof. apply (bool_decide_unpack _). vm_compute. exact I. Qed.
Lemma sample_battles_NoDup : NoDup (battle_key <$> rt_battles sample_race).
Proof. apply (bool_decide_unpack _). vm_compute. exact I. Qed.

Lemma battle_race_idempotent_witness :
  let once := (syncTournamentBattleRaceResultsForTournament sample_ctx [11; 12] sample_db 1
                 sample_race).1 in
  (syncTournamentBattleRaceResultsForTournament sample_ctx [11; 12] sample_db 1 once).1 = once.
Proof.
  exact (battle_race_idempotent sample_ctx [11; 12] sample_db 1 sample_race
    sample_groups_NoDup
    sample_battles_NoDup).
Defined.

Lemma map_by_is_Some {A : Type} (key : A → Z) (rows : list A) k :
  is_Some (map_get k (map_by key rows)) ↔ k ∈ key <$> rows.
Proof.
  unfold map_by. rewrite map_get_is_Some, map_of_entries_keys.
  rewrite <-list_fmap_compose. done.
Qed.

Definition legal_row (b : BattleResult) : Prop :=
  (∀ p, br_homeMatchPoints b = Some p → legal_points p) ∧
  (∀ p, br_awayMatchPoints b = Some p → legal_points p).

Lemma score_battle_legal erm b b' : score_battle erm b = Some b' → legal_row b'.
Proof.
  unfold score_battle. destruct (br_officialMatchId b); [done|].
  destruct (br_homeEntryId b); [|done]. destruct (br_awayEntryId b); [|done].
  destruct (map_get _ _); [destruct (map_get _ _)|]; intros H; injection H as <-;
    split; simpl; intros p Hp; try done; injection Hp as <-; apply matchPoints_legal.
Qed.

Lemma row_points_legal k history :
  Forall legal_row history → Forall legal_points (flat_map (row_points k) history).
Proof.
  induction 1 as [|b history [Hh Ha] _ IH]; simpl; [constructor|].
  apply Forall_app. split; [|done]. unfold row_points.
  destruct (br_homeMatchPoints b), (br_awayMatchPoints b), (br_homeEntryId b), (br_awayEntryId b);
    try apply Forall_nil_2. case_bool_decide; [|apply Forall_nil_2].
  apply Forall_app. split; (case_bool_decide; [|apply Forall_nil_2]);
    apply Forall_cons; (split; [eauto|apply Forall_nil_2]).
Qed.

Lemma write_scores_legal erm e table :
  NoDup (battle_key <$> table) → Forall legal_row table → Forall legal_row (write_scores erm e table).
Proof.
  intros Hnd Hl. rewrite battle_row_after by done. apply Forall_fmap.
  eapply Forall_impl; [exact Hl|]. intros b Hb. unfold compose, score_row. case_decide; [|done].
  destruct (score_battle erm b) eqn:E; [|done]. by eapply score_battle_legal.
Qed.

(** The place of a ranked row is at least one: the row itself is at or before itself. *)
Lemma place_pos (q : option Z) played history totals ranking entryIds table g :
  g ∈ table → ranked history ranking entryIds g →
  0 < battle_place played history totals ranking entryIds table g.
Proof.
  intros Hin Hg. rewrite (place_after q played history totals ranking entryIds table g Hg).
  set (g' := after q played history totals ranking entryIds table g).
  assert (g' ∈ filter (λ f, ranked history ranking entryIds f ∧ gr_group_id f = gr_group_id g ∧
    at_or_before (group_standing f) (group_standing g'))
    (after q played history totals ranking entryIds table <$> table)) as Hin'.
  { apply list_elem_of_filter. split; [|by apply list_elem_of_fmap_2].
    pose proof (after_key q played history totals ranking entryIds table g) as Hk. fold g' in Hk.
    split_and!; [by rewrite (ranked_key _ _ _ _ _ Hk)|unfold group_key in Hk; by injection Hk|].
    unfold at_or_before. lia. }
  destruct (filter _ _); [set_solver|]. simpl. lia.
Qed.

Lemma after_counters (q : option Z) (played : Z) history totals ranking entryIds table g :
  ranked history ranking entryIds g →
  let g' := after q played history totals ranking entryIds table g in
  let counted := tally (flat_map (row_points (group_key g)) history) in
  gr_group_points g' = c_points counted ∧ gr_won g' = c_won counted ∧
  gr_drawn g' = c_drawn counted ∧ gr_lost g' = c_lost counted.
Proof.
  intros Hg. unfold after. rewrite decide_True by done. destruct Hg as (_ & _ & [r Hr]).
  unfold recomputed. by rewrite Hr.
Qed.

Lemma history_legal scores (e first through : Z) battles k :
  NoDup (battle_key <$> battles) → Forall legal_row battles →
  Forall legal_points (flat_map (row_points k) (battle_history first through (write_scores scores e battles))).
Proof.
  intros Hb Hlegal. apply row_points_legal. unfold battle_history. apply Forall_forall.
  intros b [_ Hin]%list_elem_of_filter.
  pose proof (write_scores_legal scores e _ Hb Hlegal) as Hl. rewrite Forall_forall in Hl. by apply Hl.
Qed.

(** The tables after a sync that has results and fixtures. *)
Lemma battle_sync_tables (t : TournamentSyncContext) (entryIds : list Z)
  (db : list EventResultRow) (e first last : Z) (s : RaceTables) :
  NoDup (group_key <$> rt_groups s) →
  t_groupStartedEventId t = Some first → t_groupEndedEventId t = Some last → 0 < first ∧ 0 < last →
  entryIds ≠ [] → find_event_results e entryIds db ≠ [] →
  filter (λ b, br_eventId b = e) (rt_battles s) ≠ [] →
  let s' := (syncTournamentBattleRaceResultsForTournament t entryIds db e s).1 in
  let through := recompute_through first last e (rt_battles s') in
  let ranking := map_by x_entryId (find_event_results through entryIds db) in
  rt_battles s' = write_scores (map_by x_entryId (find_event_results e entryIds db)) e (rt_battles s) ∧
  ∃ played totals, rt_groups s' =
    after (t_groupQualifyNum t) played (battle_history first through (rt_battles s')) totals ranking entryIds
      (rt_groups s) <$> rt_groups s.
Proof.
  intros Hg Hfirst Hlast Hpos Hids Hres Hfix.
  unfold syncTournamentBattleRaceResultsForTournament. rewrite Hfirst, Hlast.
  destruct (Z.eqb_spec first 0), (Z.eqb_spec last 0); try lia. cbn [orb].
  assert (is_nil entryIds = false) as -> by by destruct entryIds.
  assert (is_nil (find_event_results e entryIds db) = false) as -> by by destruct (find_event_results _ _ _).
  assert (is_nil (filter (λ b, br_eventId b = e) (rt_battles s)) = false) as -> by by destruct (filter _ _).
  cbn [fst rt_groups rt_battles]. split; [done|].
  eexists (_ - first + 1), _.
  set (through := recompute_through first last e _).
  assert ((if through =? e then map_by x_entryId (find_event_results e entryIds db)
    else map_by x_entryId (find_event_results through entryIds db))
    = map_by x_entryId (find_event_results through entryIds db)) as ->
    by by destruct (Z.eqb_spec through e) as [->|].
  by rewrite recompute_groups_eq.
Qed.

(** C22: After a battle-race sync of a gameweek for which the entries have results and the tournament
    has fixtures (without them the sync returns early and every row stays as it was), every group
    row whose entry has a result in the horizon gameweek and whose group has fixtures in the window
    shows the tally of all its scored fixtures up to
    that horizon: points are three per win and one per draw, wins, draws and defeats add up to the
    fixtures scored, the rank is the number of rows of the group at or before it, and
    qualification is a rank within the quota. *)
Theorem battle_race_standings (t : TournamentSyncContext) (entryIds : list Z)
  (db : list EventResultRow) (e first last : Z) (s : RaceTables)
  (Hg : NoDup (group_key <$> rt_groups s)) (Hb : NoDup (battle_key <$> rt_battles s))
  (Hlegal : Forall legal_row (rt_battles s))
  (Hfirst : t_groupStartedEventId t = Some first) (Hlast : t_groupEndedEventId t = Some last)
  (Hpos : 0 < first ∧ 0 < last)
  (Hres : find_event_results e entryIds db ≠ [])
  (Hfix : filter (λ b, br_eventId b = e) (rt_battles s) ≠ []) :
  let s' := (syncTournamentBattleRaceResultsForTournament t entryIds db e s).1 in
  let through := recompute_through first last e (rt_battles s') in
  let history := battle_history first through (rt_battles s') in
  let ranks g := gr_group_id g ∈ br_groupId <$> history ∧
                 gr_entry_id g ∈ x_entryId <$> find_event_results through entryIds db in
  ∀ g, g ∈ rt_groups s → gr_entry_id g ∈ entryIds → ranks g →
  ∃ g', g' ∈ rt_groups s' ∧ group_key g' = group_key g ∧
    let points := flat_map (row_points (group_key g)) history in
    gr_group_points g' = sum_by (λ p, p) points ∧
    gr_group_points g' = 3 * gr_won g' + gr_drawn g' ∧
    gr_won g' + gr_drawn g' + gr_lost g' = Z.of_nat (length points) ∧
    gr_group_rank g' = Some (Z.of_nat (length (filter
      (λ f, (gr_entry_id f ∈ entryIds ∧ ranks f) ∧ gr_group_id f = gr_group_id g ∧
            at_or_before (group_standing f) (group_standing g')) (rt_groups s')))) ∧
    (truthy (t_groupQualifyNum t) = true →
       gr_qualified g' = if nullish (gr_group_rank g') 0 <=? nullish (t_groupQualifyNum t) 0
                         then 1 else 0).
Proof.
  intros s' through history ranks g Hin Hent Hrk.
  assert (entryIds ≠ []) as Hids by (intros ->; set_solver).
  destruct (battle_sync_tables t entryIds db e first last s) as (Hbattles & played & totals & Hgroups); [done..|].
  fold s' through history in Hbattles, Hgroups. rewrite Hgroups. clear Hgroups.
  set (ranking := map_by x_entryId (find_event_results through entryIds db)).
  set (q := t_groupQualifyNum t).
  assert (∀ f, ranked history ranking entryIds f ↔ gr_entry_id f ∈ entryIds ∧ ranks f) as Hranked.
  { intros f. unfold ranked, ranking. by rewrite map_by_is_Some. }
  assert (ranked history ranking entryIds g) as Hg' by by apply Hranked.
  pose proof (history_legal (map_by x_entryId (find_event_results e entryIds db)) e first through _
    (group_key g) Hb Hlegal) as Hpts.
  rewrite <-Hbattles in Hpts. fold history in Hpts.
  exists (after q played history totals ranking entryIds (rt_groups s) g).
  destruct (tally_sound _ Hpts) as (H3 & Hlen & Hsum & _).
  pose proof (place_after q played history totals ranking entryIds (rt_groups s) g Hg') as Hplace.
  set (g' := after q played history totals ranking entryIds (rt_groups s) g) in *.
  assert (g' = set_rank q (battle_place played history totals ranking entryIds (rt_groups s) g)
    (recomputed played history totals ranking g)) as Heq by (unfold g', after; by rewrite decide_True).
  destruct (after_counters q played history totals ranking entryIds (rt_groups s) g Hg')
    as (Hp & Hw & Hd & Hl). fold g' in Hp, Hw, Hd, Hl. rewrite Hp, Hw, Hd, Hl.
  assert (gr_group_rank g' = Some (battle_place played history totals ranking entryIds
    (rt_groups s) g)) as Hrank by (by rewrite Heq).
  cbv zeta. split_and!; [by apply list_elem_of_fmap_2|apply after_key|done|done|done| |].
  - rewrite Hrank, Hplace. do 3 f_equal. apply filter_ext_in. intros f _.
    rewrite Hranked. tauto.
  - intros Hq. rewrite Hrank, Heq. simpl. rewrite Hq.
    pose proof (place_pos q played history totals ranking entryIds (rt_groups s) g Hin Hg') as Hpl.
    destruct (Z.ltb_spec 0 (battle_place played history totals ranking entryIds (rt_groups s) g));
      [done|lia].
Qed.

Lemma sample_battles_legal : Forall legal_row (rt_battles sample_race).
Proof.
  apply Forall_cons. split; [|apply Forall_nil_2].
  split; intros p Hp; discriminate Hp.
Qed.

Lemma battle_race_standings_witness :
  let s' := (syncTournamentBattleRaceResultsForTournament sample_ctx [11; 12] sample_db 1
               sample_race).1 in
  ∃ g', g' ∈ rt_groups s' ∧ group_key g' = (1%nat, 11) ∧
    gr_group_points g' = 3 * gr_won g' + gr_drawn g'.
Proof.
  destruct (battle_race_standings sample_ctx [11; 12] sample_db 1 1 3 sample_race
    sample_groups_NoDup
    sample_battles_NoDup
    sample_battles_legal eq_refl eq_refl ltac:(lia)
    ltac:(discriminate) ltac:(discriminate) (sample_group 11)
    ltac:(apply list_elem_of_In; vm_compute; tauto) ltac:(apply list_elem_of_In; simpl; tauto)
    ltac:(split; apply list_elem_of_In; vm_compute; tauto))
    as (g' & Hin & Hk & _ & H3 & _).
  exists g'. exact (conj Hin (conj Hk H3)).
Defined.

(** ** The points race *)

Lemma map_get_fmap {A : Type} (f : Z → A) (ids : list Z) k :
  map_get k ((λ id, (id, f id)) <$> ids) = if decide (k ∈ ids) then Some (f k) else None.
Proof.
  induction ids as [|id ids IH].
  { destruct (decide (k ∈ [])); [set_solver|done]. }
  rewrite fmap_cons. cbn [map_get]. rewrite IH.
  destruct (decide (k ∈ ids)) as [Hin|Hin], (decide (k = id)) as [Heq|Hne]; [subst id| |subst id|].
  all: destruct (decide (_ ∈ _ :: ids)); set_solver.
Qed.

Lemma aggregate_get (entryIds : list Z) first last db id :
  id ∈ entryIds →
  nullish (map_get id (aggregateTotalsByEntry entryIds first last db)) zero_totals =
    mkEntryTotals (sum_by x_eventPoints (entry_rows id first last db))
      (sum_by x_eventTransfersCost (entry_rows id first last db))
      (sum_by x_eventNetPoints (entry_rows id first last db)).
Proof.
  intros Hid. unfold aggregateTotalsByEntry. rewrite map_get_fmap.
  assert (filter (λ x, x_entryId x = id) (filter (λ x, x_entryId x ∈ entryIds ∧
    first ≤ x_eventId x ∧ x_eventId x ≤ last) db) = entry_rows id first last db) as Hrows.
  { unfold entry_rows. rewrite list_filter_filter. apply list_filter_iff.
    intros x. split; [tauto|]. intros (-> & ? & ?). tauto. }
  rewrite Hrows. case_decide as Hin; [done|]. simpl nullish.
  assert (entry_rows id first last db = []) as ->; [|done].
  rewrite <-Hrows. apply filter_none. intros x Hx Heq. apply Hin. rewrite elem_of_dedup, <-Heq.
  by apply list_elem_of_fmap_2.
Qed.

Section points.
Context (t : TournamentSyncContext) (entryIds : list Z) (db : list EventResultRow).
Context (e first last : Z).
Notation erm := (map_by x_entryId (find_event_results e entryIds db)).
Notation through := (Z.min e last).

(** A group row whose entry has a result in the gameweek. *)
Definition scored (g : GroupRow) : Prop :=
  gr_entry_id g ∈ entryIds ∧ is_Some (map_get (gr_entry_id g) erm).
#[export] Instance scored_dec g : Decision (scored g).
Proof. unfold scored. apply _. Defined.

Definition points_row (g : GroupRow) : GroupRow :=
  match map_get (gr_entry_id g) erm with
  | Some r => points_update e first
      (mkEntryTotals (sum_by x_eventPoints (entry_rows (gr_entry_id g) first through db))
        (sum_by x_eventTransfersCost (entry_rows (gr_entry_id g) first through db))
        (sum_by x_eventNetPoints (entry_rows (gr_entry_id g) first through db))) r g
  | None => g
  end.

Definition net_standing (g : GroupRow) : standing := (gr_total_net_points g, gr_overall_rank g).

Definition points_place (table : list GroupRow) (g : GroupRow) : Z :=
  Z.of_nat (length (filter (λ f, scored f ∧ gr_group_id f = gr_group_id g ∧
    at_or_before (net_standing (points_row f)) (net_standing (points_row g))) table)).

Definition points_after (table : list GroupRow) (g : GroupRow) : GroupRow :=
  if decide (scored g)
  then set_rank (t_groupQualifyNum t) (points_place table g) (points_row g) else g.

Lemma points_row_key g : group_key (points_row g) = group_key g.
Proof. unfold points_row. by case_match. Qed.

Lemma points_updated_eq (table : list GroupRow) :
  omap (λ group, (λ r, points_update e first
      (nullish (map_get (gr_entry_id group) (aggregateTotalsByEntry entryIds first through db))
               zero_totals) r group)
    <$> map_get (gr_entry_id group) erm) (find_groups entryIds table)
  = points_row <$> filter scored table.
Proof.
  rewrite (omap_filter_default _ (λ g, is_Some (map_get (gr_entry_id g) erm))).
  2: { intros g. destruct (map_get (gr_entry_id g) erm); simpl; split; intros [? ?]; eauto; done. }
  unfold find_groups. rewrite list_filter_filter.
  assert (filter (λ a, is_Some (map_get (gr_entry_id a) erm) ∧ gr_entry_id a ∈ entryIds) table
    = filter scored table) as -> by (apply list_filter_iff; intros; unfold scored; tauto).
  apply list_fmap_ext. intros i g [[Hent _] _]%list_elem_of_lookup_2%list_elem_of_filter.
  unfold points_row. destruct (map_get (gr_entry_id g) erm); [|done]. simpl.
  by rewrite aggregate_get.
Qed.

Lemma points_groups_eq (table : list GroupRow) :
  NoDup (group_key <$> table) →
  upsert_batch group_key merge_group
    ((λ group, set_rank (t_groupQualifyNum t)
        (nullish (map_get (groupRankKey (net_standing group))
           (rankGroups (net_standing <$>
              filter (λ g, gr_group_id g = gr_group_id group) (points_row <$> filter scored table)))) 0)
        group) <$> (points_row <$> filter scored table)) table
  = points_after table <$> table.
Proof.
  intros Hnd.
  rewrite (upsert_batch_image group_key merge_group (λ _ _, eq_refl) scored
    (λ g, set_rank (t_groupQualifyNum t) (points_place table g) (points_row g))); [done|done|..].
  - rewrite <-list_fmap_compose. apply reflexive_eq, list_fmap_ext.
    intros i g Hg%list_elem_of_lookup_2. unfold compose. f_equal.
    assert (filter (λ g0, gr_group_id g0 = gr_group_id (points_row g)) (points_row <$> filter scored table)
      = points_row <$> filter (λ g0, gr_group_id g0 = gr_group_id g) (filter scored table)) as ->.
    { symmetry. apply fmap_filter_iff. intros f _.
      pose proof (points_row_key f) as [= -> _]. by pose proof (points_row_key g) as [= -> _]. }
    rewrite rankGroups_get.
    + simpl. unfold points_place. f_equal.
      rewrite <-list_fmap_compose.
      rewrite <-(fmap_filter_iff (net_standing ∘ points_row)
        (λ f, at_or_before (net_standing (points_row f)) (net_standing (points_row g)))
        (λ f, at_or_before f (net_standing (points_row g)))) by done.
      rewrite length_fmap, !list_filter_filter. f_equal. apply list_filter_iff. tauto.
    + do 2 apply list_elem_of_fmap_2. by apply list_elem_of_filter.
  - intros g _. pose proof (points_row_key g) as Hk. unfold group_key in *. done.
  - intros g _. unfold points_row. destruct g. by case_match.
Qed.

Lemma points_after_key table g : group_key (points_after table g) = group_key g.
Proof. unfold points_after. case_decide; [|done]. unfold set_rank. apply points_row_key. Qed.

Lemma scored_key g g' : group_key g = group_key g' → scored g ↔ scored g'.
Proof. unfold group_key, scored. intros [= _ ->]. done. Qed.

Lemma points_after_standing table g :
  scored g → net_standing (points_after table g) = net_standing (points_row g).
Proof. intros Hg. unfold points_after. by rewrite decide_True. Qed.

Lemma points_place_after table g :
  scored g →
  points_place table g = Z.of_nat (length (filter
    (λ f, scored f ∧ gr_group_id f = gr_group_id g ∧
          at_or_before (net_standing f) (net_standing (points_after table g)))
    (points_after table <$> table))).
Proof.
  intros Hg. unfold points_place.
  rewrite <-(fmap_filter_iff (points_after table)
    (λ f, scored f ∧ gr_group_id f = gr_group_id g ∧
          at_or_before (net_standing (points_row f)) (net_standing (points_row g)))
    (λ f, scored f ∧ gr_group_id f = gr_group_id g ∧
          at_or_before (net_standing f) (net_standing (points_after table g)))).
  - by rewrite length_fmap.
  - intros f _. pose proof (points_after_key table f) as Hk. rewrite (scored_key _ _ Hk).
    rewrite (points_after_standing table g) by done. unfold group_key in Hk. injection Hk as -> _.
    split; intros (Hf & ? & ?); rewrite (points_after_standing table f) in * by done; done.
Qed.

Lemma points_place_pos table g : g ∈ table → scored g → 0 < points_place table g.
Proof.
  intros Hin Hg. unfold points_place.
  assert (g ∈ filter (λ f, scored f ∧ gr_group_id f = gr_group_id g ∧
    at_or_before (net_standing (points_row f)) (net_standing (points_row g))) table) as Hf.
  { apply list_elem_of_filter. split; [|done]. split_and!; [done|done|]. unfold at_or_before. lia. }
  destruct (filter _ table); [set_solver|]. simpl. lia.
Qed.

(** With no scored row the group table is left alone. *)
Lemma points_sync_untouched s g :
  g ∈ rt_groups s → (∀ f, f ∈ rt_groups s → ¬ scored f) →
  g ∈ rt_groups (syncTournamentPointsRaceResultsForTournament t entryIds db e s).1.
Proof.
  intros Hg Hno. unfold syncTournamentPointsRaceResultsForTournament.
  destruct (t_groupStartedEventId t) as [a|]; [|done].
  destruct (t_groupEndedEventId t) as [b|]; [|done].
  do 4 (case_match; [done|]). cbn [fst rt_groups].
  assert (omap (λ group, (λ r, points_update e a
      (nullish (map_get (gr_entry_id group) (aggregateTotalsByEntry entryIds a (Z.min e b) db))
               zero_totals) r group)
    <$> map_get (gr_entry_id group) erm) (find_groups entryIds (rt_groups s)) = []) as ->; [|done].
  rewrite (omap_filter_default _ (λ g, is_Some (map_get (gr_entry_id g) erm))).
  2: { intros f. destruct (map_get (gr_entry_id f) erm); simpl; split; intros [? ?]; eauto; done. }
  rewrite filter_none; [done|]. intros f [Hent Hf]%list_elem_of_filter Hs. by apply (Hno f).
Qed.
End points.

(** After a points-race sync, every group row whose entry has a result in the gameweek shows
    the sums of its scored gameweeks in the group window so far, the number of gameweeks played
    since the group start, a rank that counts the scored rows of its group at or before it on net
    points and overall rank, and qualification by that rank; rows of entries without a result are
    left as they were. *)
Theorem points_race_standings (t : TournamentSyncContext) (entryIds : list Z)
  (db : list EventResultRow) (e first last : Z) (s : RaceTables)
  (Hg : NoDup (group_key <$> rt_groups s))
  (Hfirst : t_groupStartedEventId t = Some first) (Hlast : t_groupEndedEventId t = Some last)
  (Hpos : 0 < first ∧ 0 < last) :
  let s' := (syncTournamentPointsRaceResultsForTournament t entryIds db e s).1 in
  let has_result g := gr_entry_id g ∈ entryIds ∧
                      gr_entry_id g ∈ x_entryId <$> find_event_results e entryIds db in
  ∀ g, g ∈ rt_groups s →
  (¬ has_result g → g ∈ rt_groups s') ∧
  (has_result g → ∃ g', g' ∈ rt_groups s' ∧ group_key g' = group_key g ∧
     let rows := entry_rows (gr_entry_id g) first (Z.min e last) db in
     gr_total_net_points g' = sum_by x_eventNetPoints rows ∧
     gr_group_points g' = sum_by x_eventNetPoints rows ∧
     gr_total_points g' = sum_by x_eventPoints rows ∧
     gr_played g' = e - first + 1 ∧
     ∃ rank, gr_group_rank g' = Some rank ∧
       rank = Z.of_nat (length (filter
         (λ f, has_result f ∧ gr_group_id f = gr_group_id g ∧
               at_or_before (net_standing f) (net_standing g')) (rt_groups s'))) ∧
       (truthy (t_groupQualifyNum t) = true →
          gr_qualified g' = if rank <=? nullish (t_groupQualifyNum t) 0 then 1 else 0)).
Proof.
  intros s' has_result.
  assert (∀ g, scored entryIds db e g ↔ has_result g) as Hsc.
  { intros g. unfold scored, has_result. by rewrite map_by_is_Some. }
  assert (∀ g, g ∈ rt_groups s → has_result g →
    rt_groups s' = points_after t entryIds db e first last (rt_groups s) <$> rt_groups s) as Hrun.
  { intros g Hg' [Hent Hres]. unfold s', syncTournamentPointsRaceResultsForTournament.
    rewrite Hfirst, Hlast. destruct (Z.eqb_spec first 0), (Z.eqb_spec last 0); try lia. cbn [orb].
    assert (is_nil entryIds = false) as -> by (destruct entryIds; [set_solver|done]).
    assert (is_nil (find_event_results e entryIds db) = false) as ->
      by (destruct (find_event_results e entryIds db); [set_solver|done]).
    assert (is_nil (find_groups entryIds (rt_groups s)) = false) as ->.
    { assert (g ∈ find_groups entryIds (rt_groups s)) by (by apply list_elem_of_filter).
      destruct (find_groups entryIds (rt_groups s)); [set_solver|done]. }
    cbn [fst rt_groups]. rewrite points_updated_eq.
    apply (points_groups_eq t entryIds db e first last). done. }
  intros g Hin. split.
  - intros Hno. destruct (decide (Exists (scored entryIds db e) (rt_groups s))) as [Hex|Hn].
    + apply Exists_exists in Hex as (f & Hf & Hs).
      rewrite (Hrun f) by (done || by apply Hsc). apply list_elem_of_fmap. exists g. split; [|done].
      unfold points_after. rewrite decide_False; [done|]. by rewrite Hsc.
    + apply points_sync_untouched; [done|]. intros f Hf Hs. apply Hn, Exists_exists. by exists f.
  - intros Hres. rewrite (Hrun g) by done.
    set (g' := points_after t entryIds db e first last (rt_groups s) g).
    exists g'. assert (scored entryIds db e g) as Hs by (by apply Hsc).
    assert (g' = set_rank (t_groupQualifyNum t) (points_place entryIds db e first last (rt_groups s) g)
      (points_row entryIds db e first last g)) as Heq by (unfold g', points_after; by rewrite decide_True).
    split; [by apply list_elem_of_fmap_2|]. split; [apply points_after_key|]. cbv zeta.
    split; [|split; [|split; [|split]]].
    1-4: rewrite Heq; unfold points_row; by destruct Hs as [_ [r ->]].
    exists (points_place entryIds db e first last (rt_groups s) g).
    split_and!; [by rewrite Heq|..].
    + rewrite (points_place_after t) by done. fold g'. do 2 f_equal. apply filter_ext_in.
      intros f _. by rewrite Hsc.
    + intros Hq. rewrite Heq. simpl. rewrite Hq.
      assert (0 < points_place entryIds db e first last (rt_groups s) g) as Hp
        by (by apply points_place_pos).
      destruct (Z.ltb_spec 0 (points_place entryIds db e first last (rt_groups s) g)); [done|lia].
Qed.

Lemma points_race_standings_witness :
  let s' := (syncTournamentPointsRaceResultsForTournament sample_ctx [11; 12] sample_db 1
               sample_race).1 in
  ∃ g', g' ∈ rt_groups s' ∧ group_key g' = (1%nat, 11) ∧ gr_total_net_points g' = 56.
Proof.
  destruct (points_race_standings sample_ctx [11; 12] sample_db 1 1 3 sample_race
    sample_groups_NoDup eq_refl eq_refl ltac:(lia) (sample_group 11)
    ltac:(apply list_elem_of_In; vm_compute; tauto)) as [_ Hyes].
  destruct Hyes as (g' & Hin & Hk & Hnet & _).
  - split; apply list_elem_of_In; vm_compute; tauto.
  - exists g'. exact (conj Hin (conj Hk Hnet)).
Defined.
