(* ===== verification/OfficialH2H.v ===== *)
(** * Official head-to-head mirror ([src/services/tournament-official-h2h.service.ts])

    Reading the paginated standings and matches of an official head-to-head league, checking that
    the schedule covers the roster, and projecting it on the local group, result and bracket rows.
    The HTTP client and [contentHash] (a SHA-256) are parameters.

    [configuredTeamCount / 2 ** round] is a JS fraction.  Its comparisons are cross-multiplied here,
    so they are exact for every configuration; match ids use [Z] division, which is exact for the
    team counts [2 ^ rounds] the planner stores for these tournaments ([Planner.planOfficialH2H]). *)

From S2P Require Import Prelude JsCollections JsNumber Tournament Seeding GroupDraw Bracket Planner Races.

(** ** Source data *)

(** src: src/services/tournament-official-h2h.service.ts:21-21 MAX_H2H_PAGES *)
Definition MAX_H2H_PAGES : nat := 100.

(** A row of the standings; numbers the code checks for being
    integers are [number]s; [rank] goes to an integer column unchecked.
    src: src/clients/fpl.ts:427-449 StandingsResultSchema *)
Record Standing := mkStanding {
  st_entry : option Z;
  st_rank : option Z;
  st_total : option number;
  st_points_total : option Z;
  st_matches_played : option Z;
  st_matches_won : option Z;
  st_matches_drawn : option Z;
  st_matches_lost : option Z;
  st_points_for : option Z;
}.

(** A tiebreak of unknown shape: a string, or another JSON value kept as its [JSON.stringify]. *)
Inductive Tiebreak := TieString (s : jsstr) | TieJson (serialized : jsstr).

(** src: src/clients/fpl.ts:475-501 LeagueH2HMatchSchema *)
Record RawMatch := mkRaw {
  h_id : Z;
  h_event : Z;
  h_entry_1 : option Z;
  h_points_1 : option Z;
  h_outcome_1 : option Z * option Z * option Z;  (* win, draw, loss *)
  h_total_1 : option Z;
  h_entry_2 : option Z;
  h_points_2 : option Z;
  h_outcome_2 : option Z * option Z * option Z;
  h_total_2 : option Z;
  h_winner : option Z;
  h_is_knockout : option bool;
  h_is_bye : option bool;
  h_knockout_name : option jsstr;
  h_tiebreak : option Tiebreak;
}.

(** src: src/clients/fpl.ts:450-455 StandingsSchema *)
Record StandingsPage := mkStandingsPage { sp_has_next : bool; sp_results : list Standing }.

(** src: src/clients/fpl.ts:503-509 LeagueH2HMatchesPageSchema *)
Record MatchesPage := mkMatchesPage { mp_has_next : bool; mp_results : list RawMatch }.

(** [RawFPLLeagueH2HMatch & { sourceOrder: number }] *)
Record SourceMatch := mkSource { sm_raw :> RawMatch; sm_sourceOrder : Z }.

(** src: src/services/tournament-official-h2h.service.ts:27-30 OfficialH2HSourceSnapshot *)
Record SourceSnapshot := mkSnapshot {
  ss_standings : list (Z * Standing);
  ss_matches : list SourceMatch;
}.

(** ** Small helpers *)

(** The entry of a row that is a real participant.
    src: src/services/tournament-official-h2h.service.ts:32-36 isRealOfficialH2HStanding *)
Definition isRealOfficialH2HStanding (standing : Standing) : option (Z * Standing) :=
  match st_entry standing with
  | Some entry => if 0 <? entry then Some (entry, standing) else None
  | None => None
  end.

(** src: src/services/tournament-official-h2h.service.ts:38-40 nonNegativeInteger *)
Definition nonNegativeInteger (value : option number) : Z :=
  match value with
  | Some x => if is_integer x && (0 <=? int_value x) then int_value x else 0
  | None => 0
  end.

(** src: src/services/tournament-official-h2h.service.ts:42-44 integerOrZero *)
Definition integerOrZero (value : option Z) : Z := nullish value 0.

(** src: src/services/tournament-official-h2h.service.ts:46-92 matchPoints *)
Definition matchPoints (m : RawMatch) : option Z * option Z :=
  let '(win_1, draw_1, loss_1) := h_outcome_1 m in
  let '(win_2, draw_2, loss_2) := h_outcome_2 m in
  let hasExplicitOutcomeContract :=
    existsb (λ v, negb (is_null v))
      [win_1; draw_1; loss_1; h_total_1 m; win_2; draw_2; loss_2; h_total_2 m] in
  let outcome win draw : option Z :=
    Some (if truthy win then 3 else if truthy draw then 1 else 0) in
  let rest :=
    if 0 <? nullish win_1 0 + nullish draw_1 0 + nullish loss_1 0 +
            nullish win_2 0 + nullish draw_2 0 + nullish loss_2 0
    then (outcome win_1 draw_1, outcome win_2 draw_2)
    else match h_winner m with
    | Some w =>
        (Some (if opt_eqb (Some w) (h_entry_1 m) then 3 else 0),
         Some (if opt_eqb (Some w) (h_entry_2 m) then 3 else 0))
    | None =>
        if hasExplicitOutcomeContract then (None, None) else
        match h_points_1 m, h_points_2 m with
        | Some a, Some b =>
            if b <? a then (Some 3, Some 0) else if a <? b then (Some 0, Some 3)
            else (Some 1, Some 1)
        | _, _ => (None, None)
        end
    end in
  match h_total_1 m, h_total_2 m with
  | Some a, Some b =>
      if (a + b =? 2) || (a + b =? 3) then (Some a, Some b) else rest
  | _, _ => rest
  end.

(** src: src/services/tournament-official-h2h.service.ts:94-97 serializeTiebreak *)
Definition serializeTiebreak (value : option Tiebreak) : option jsstr :=
  match value with
  | None => None
  | Some (TieString s) => Some s
  | Some (TieJson serialized) => Some serialized
  end.

(** src: src/services/tournament-official-h2h.service.ts:99-101 officialKnockoutName *)
Definition officialKnockoutName (m : RawMatch) : option jsstr :=
  match js_trim <$> h_knockout_name m with
  | Some (c :: s) => Some (c :: s)
  | _ => None
  end.

(** src: src/services/tournament-official-h2h.service.ts:103-105 isOfficialKnockoutMatch *)
Definition isOfficialKnockoutMatch (m : RawMatch) : bool :=
  negb (is_null (officialKnockoutName m)) || bool_decide (h_is_knockout m = Some true).

(** ** Pagination *)

(** [ids.join(',')]: [null] is printed as the empty string. *)
Fixpoint join_comma (ids : list jsstr) : jsstr :=
  match ids with
  | [] => []
  | [s] => s
  | s :: ids' => s ++ [44] ++ join_comma ids'
  end.

Definition print_id (id : option Z) : jsstr := match id with Some n => print_int n | None => [] end.

(** src: src/services/tournament-official-h2h.service.ts:120-120 signature *)
Definition signature (ids : list (option Z)) : jsstr := join_comma (print_id <$> ids).

Definition opt_str_eqb (x y : option jsstr) : bool := bool_decide (x = y).

Section client.
(** The two endpoints of the client for one league, by page number. *)
Context (getLeagueH2HStandings : nat → result StandingsPage).
Context (getLeagueH2HMatches : nat → result MatchesPage).

(** [remaining] counts the pages up to [MAX_H2H_PAGES]: the loop is left with the limit error
    when [standingsPage] exceeds it.
    src: src/services/tournament-official-h2h.service.ts:111-140 fetchOfficialH2HSourceSnapshot *)
Fixpoint fetch_standings (remaining page : nat) (previous : option jsstr)
    (standings : list (Z * Standing)) : result (list (Z * Standing)) :=
  match remaining with
  | O => Throw "TOURNAMENT_OFFICIAL_H2H_STANDINGS_LIMIT"
  | S remaining' =>
      let* response := getLeagueH2HStandings page in
      let standings := standings ++ omap isRealOfficialH2HStanding (sp_results response) in
      let sig := signature (st_entry <$> sp_results response) in
      reject_if sp_has_next response && opt_str_eqb previous (Some sig)
        with_code "TOURNAMENT_OFFICIAL_H2H_STANDINGS_STALLED" ;;
      if negb (sp_has_next response) then Ok standings else
      fetch_standings remaining' (S page) (Some sig) standings
  end.

(** src: src/services/tournament-official-h2h.service.ts:142-170 fetchOfficialH2HSourceSnapshot *)
Fixpoint fetch_matches (remaining page : nat) (previous : option jsstr)
    (matches : list SourceMatch) : result (list SourceMatch) :=
  match remaining with
  | O => Throw "TOURNAMENT_OFFICIAL_H2H_MATCHES_LIMIT"
  | S remaining' =>
      let* response := getLeagueH2HMatches page in
      let sig := signature (Some ∘ h_id <$> mp_results response) in
      reject_if mp_has_next response && opt_str_eqb previous (Some sig)
        with_code "TOURNAMENT_OFFICIAL_H2H_MATCHES_STALLED" ;;
      let matches := fold_left (λ acc m, acc ++ [mkSource m (Z.of_nat (length acc))])
                       (mp_results response) matches in
      if negb (mp_has_next response) then Ok matches else
      fetch_matches remaining' (S page) (Some sig) matches
  end.

(** src: src/services/tournament-official-h2h.service.ts:172-181 fetchOfficialH2HSourceSnapshot *)
Fixpoint reject_repeats (code : string) (seen ids : list Z) : result unit :=
  match ids with
  | [] => Ok ()
  | id :: ids' =>
      reject_if bool_decide (id ∈ seen) with_code code ;; reject_repeats code (id :: seen) ids'
  end.

(** src: src/services/tournament-official-h2h.service.ts:107-193 fetchOfficialH2HSourceSnapshot *)
Definition fetchOfficialH2HSourceSnapshot : result SourceSnapshot :=
  let* standings := fetch_standings MAX_H2H_PAGES 1 None [] in
  let* matches := fetch_matches MAX_H2H_PAGES 1 None [] in
  let* _ := reject_repeats "TOURNAMENT_OFFICIAL_H2H_MATCH_DUPLICATE" []
              ((λ m : SourceMatch, h_id m) <$> matches) in
  let* _ := reject_repeats "TOURNAMENT_OFFICIAL_H2H_STANDINGS_DUPLICATE" [] standings.*1 in
  Ok (mkSnapshot standings matches).
End client.

(** ** Standings *)

(** A stored group row merged with the official standing of its entry.
    src: src/services/tournament-official-h2h.service.ts:195-220 projectOfficialH2HStandings *)
Definition projectOfficialH2HStandings (currentGroups : list GroupRow)
    (standings : list (Z * Standing)) (totalsByEntry : option (list (Z * EntryTotals)))
    : list GroupRow :=
  let standingsByEntry := map_of_entries standings in
  (λ group,
    match map_get (gr_entry_id group) standingsByEntry with
    | None => group
    | Some standing =>
        let totals := totalsByEntry ≫= map_get (gr_entry_id group) in
        {| gr_tournament_id := gr_tournament_id group;
           gr_group_id := gr_group_id group;
           gr_group_name := gr_group_name group;
           gr_group_index := gr_group_index group;
           gr_entry_id := gr_entry_id group;
           gr_started_event_id := gr_started_event_id group;
           gr_ended_event_id := gr_ended_event_id group;
           gr_group_points :=
             nonNegativeInteger (nullish_or (st_total standing)
               (of_int <$> st_points_total standing));
           gr_group_rank := st_rank standing;
           gr_played := nonNegativeInteger (of_int <$> st_matches_played standing);
           gr_won := nonNegativeInteger (of_int <$> st_matches_won standing);
           gr_drawn := nonNegativeInteger (of_int <$> st_matches_drawn standing);
           gr_lost := nonNegativeInteger (of_int <$> st_matches_lost standing);
           gr_total_points :=
             if is_null totalsByEntry then gr_total_points group
             else nullish (et_totalPoints <$> totals) 0;
           gr_total_transfers_cost :=
             if is_null totalsByEntry then gr_total_transfers_cost group
             else nullish (et_totalTransfersCost <$> totals) 0;
           gr_total_net_points := integerOrZero (st_points_for standing);
           gr_qualified := gr_qualified group;
           gr_overall_rank := gr_overall_rank group |}
    end) <$> currentGroups.

(** ** Schedule validation *)

(** Sides of a match, and every entry it references. *)
Definition match_sides (m : RawMatch) : list (option Z) := [h_entry_1 m; h_entry_2 m].

(** src: src/services/tournament-official-h2h.service.ts:222-261 assertMatchSides *)
Definition assertMatchSides (m : RawMatch) (entryIds : gset Z) : result unit :=
  reject_if negb (isOfficialKnockoutMatch m) && is_null (h_entry_1 m) && is_null (h_entry_2 m)
    with_code "TOURNAMENT_OFFICIAL_H2H_MATCH_INVALID" ;;
  reject_if negb (is_null (h_entry_1 m)) && negb (is_null (h_entry_2 m)) &&
            opt_eqb (h_entry_1 m) (h_entry_2 m)
    with_code "TOURNAMENT_OFFICIAL_H2H_MATCH_INVALID" ;;
  reject_if existsb (λ e, match e with Some id => bool_decide (id ∉ entryIds) | None => false end)
              [h_entry_1 m; h_entry_2 m; h_winner m]
    with_code "TOURNAMENT_OFFICIAL_H2H_ROSTER_MISMATCH" ;;
  reject_if negb (is_null (h_winner m)) && negb (opt_eqb (h_winner m) (h_entry_1 m)) &&
            negb (opt_eqb (h_winner m) (h_entry_2 m))
    with_code "TOURNAMENT_OFFICIAL_H2H_MATCH_INVALID" ;;
  Ok ().

(** [for (const x of xs) body(x)] where the body may throw. *)
Fixpoint for_each {A : Type} (body : A → result unit) (xs : list A) : result unit :=
  match xs with
  | [] => Ok ()
  | x :: xs' => let* _ := body x in for_each body xs'
  end.

(** The regular matches by gameweek, each inside the group window.
    src: src/services/tournament-official-h2h.service.ts:281-292 validateOfficialH2HSchedule *)
Fixpoint by_event (startEventId endEventId : Z) (byEvent : list (Z * list SourceMatch))
    (regularMatches : list SourceMatch) : result (list (Z * list SourceMatch)) :=
  match regularMatches with
  | [] => Ok byEvent
  | m :: rest =>
      reject_if (h_event m <? startEventId) || (endEventId <? h_event m)
        with_code "TOURNAMENT_OFFICIAL_H2H_SCHEDULE_INVALID" ;;
      let eventMatches := nullish (map_get (h_event m) byEvent) [] in
      by_event startEventId endEventId (map_set (h_event m) (eventMatches ++ [m]) byEvent) rest
  end.

(** The entries seen and the average sides counted over the sides of a gameweek.
    src: src/services/tournament-official-h2h.service.ts:304-320 validateOfficialH2HSchedule *)
Fixpoint scan_sides (sides : list (option Z)) (seenEntries : gset Z) (averageSides : Z)
    : result (gset Z * Z) :=
  match sides with
  | [] => Ok (seenEntries, averageSides)
  | None :: rest => scan_sides rest seenEntries (averageSides + 1)
  | Some entryId :: rest =>
      reject_if bool_decide (entryId ∈ seenEntries)
        with_code "TOURNAMENT_OFFICIAL_H2H_SCHEDULE_INVALID" ;;
      scan_sides rest ({[entryId]} ∪ seenEntries) averageSides
  end.

(** One gameweek of the group window.
    src: src/services/tournament-official-h2h.service.ts:294-327 validateOfficialH2HSchedule *)
Definition validate_event (entryIds : gset Z) (byEvent : list (Z * list SourceMatch))
    (eventId : Z) : result unit :=
  let size := Z.of_nat (size entryIds) in
  let expectedMatchesPerEvent := (size + 1) / 2 in
  let expectedAverageSides := size mod 2 in
  let eventMatches := nullish (map_get eventId byEvent) [] in
  reject_if negb (Z.of_nat (length eventMatches) =? expectedMatchesPerEvent)
    with_code "TOURNAMENT_OFFICIAL_H2H_SCHEDULE_INCOMPLETE" ;;
  let* seen := scan_sides (flat_map match_sides (sm_raw <$> eventMatches)) ∅ 0 in
  reject_if negb (bool_decide (stdpp.base.size seen.1 = stdpp.base.size entryIds)) ||
            negb (seen.2 =? expectedAverageSides)
    with_code "TOURNAMENT_OFFICIAL_H2H_SCHEDULE_INCOMPLETE" ;;
  Ok ().

(** src: src/services/tournament-official-h2h.service.ts:263-328 validateOfficialH2HSchedule *)
Definition validateOfficialH2HSchedule (tournament : TournamentSyncContext) (entryIds : gset Z)
    (snapshot : SourceSnapshot) : result unit :=
  if is_nil (ss_matches snapshot) then Ok () else
  let* _ := for_each (λ m : SourceMatch, assertMatchSides m entryIds) (ss_matches snapshot) in
  let regularMatches :=
    filter (λ m : SourceMatch, isOfficialKnockoutMatch m = false) (ss_matches snapshot) in
  match t_groupStartedEventId tournament, t_groupEndedEventId tournament, regularMatches with
  | Some startEventId, Some endEventId, _ :: _ =>
      let* byEvent := by_event startEventId endEventId [] regularMatches in
      for_each (validate_event entryIds byEvent)
        (seqZ startEventId (endEventId - startEventId + 1))
  | _, _, _ => Throw "TOURNAMENT_OFFICIAL_H2H_SCHEDULE_INCOMPLETE"
  end.

(** ** Rows *)

(** Lower case as far as the search of ASCII words can see it: ASCII capitals, and the two other
    characters whose lower case holds an ASCII letter (U+0130, U+212A). *)
Definition to_lower (s : jsstr) : jsstr :=
  flat_map (λ c, if c =? 304 then [105; 775] else if c =? 8490 then [107] else [ascii_lower c]) s.

Fixpoint is_prefix (needle s : jsstr) : bool :=
  match needle, s with
  | [], _ => true
  | a :: needle', b :: s' => (a =? b) && is_prefix needle' s'
  | _ :: _, [] => false
  end.

(** [s.includes(needle)] *)
Fixpoint includes (needle s : jsstr) : bool :=
  is_prefix needle s || match s with [] => false | _ :: s' => includes needle s' end.

(** src: src/services/tournament-official-h2h.service.ts:330-341 resolveKnockoutRound *)
Definition resolveKnockoutRound (tournament : TournamentSyncContext) (m : RawMatch) : Z :=
  let rounds := nullish (t_knockoutEventNum tournament) 0 in
  let normalizedName := nullish (to_lower ∘ js_trim <$> h_knockout_name m) [] in
  if includes (js "quarter") normalizedName then Z.max 1 (rounds - 2) else
  if includes (js "semi") normalizedName then Z.max 1 (rounds - 1) else
  if includes (js "final") normalizedName then Z.max 1 rounds else
  let start := nullish (t_knockoutStartedEventId tournament) (h_event m) in
  Z.min (Z.max (h_event m - start + 1) 1) (Z.max rounds 1).

(** src: src/services/tournament-official-h2h.service.ts:367-387 buildOfficialH2HRows *)
Record OfficialBattleRow := mkOfficialBattle {
  ob_tournamentId : Z;
  ob_groupId : Z;
  ob_eventId : Z;
  ob_homeIndex : Z;
  ob_homeEntryId : option Z;
  ob_homeNetPoints : option Z;
  ob_homeRank : option Z;
  ob_homeMatchPoints : option Z;
  ob_awayIndex : Z;
  ob_awayEntryId : option Z;
  ob_awayNetPoints : option Z;
  ob_awayRank : option Z;
  ob_awayMatchPoints : option Z;
  ob_officialMatchId : Z;
  ob_sourceOrder : Z;
  ob_homeIsAverage : bool;
  ob_awayIsAverage : bool;
  ob_isBye : bool;
  ob_sourceCheckedAt : Z;
}.

(** src: src/services/tournament-official-h2h.service.ts:404-419 buildOfficialH2HRows *)
Record OfficialKnockoutRow := mkOfficialKnockout {
  ok_tournamentId : Z;
  ok_eventId : Z;
  ok_matchId : Z;
  ok_playAgainstId : Z;
  ok_homeEntryId : option Z;
  ok_homeNetPoints : option Z;
  ok_awayEntryId : option Z;
  ok_awayNetPoints : option Z;
  ok_matchWinner : option Z;
  ok_officialMatchId : Z;
  ok_sourceOrder : Z;
  ok_knockoutName : option jsstr;
  ok_tiebreak : option jsstr;
  ok_sourceCheckedAt : Z;
}.

(** src: src/services/tournament-official-h2h.service.ts:437-451 buildOfficialH2HRows *)
Record OfficialBracketRow := mkOfficialBracket {
  bk_tournamentId : Z;
  bk_round : Z;
  bk_startedEventId : Z;
  bk_endedEventId : Z;
  bk_matchId : Z;
  bk_nextMatchId : option Z;
  bk_homeEntryId : option Z;
  bk_homeNetPoints : option Z;
  bk_homeWins : Z;
  bk_awayEntryId : option Z;
  bk_awayNetPoints : option Z;
  bk_awayWins : Z;
  bk_roundWinner : option Z;
}.

(** src: src/services/tournament-official-h2h.service.ts:364-387 buildOfficialH2HRows *)
Definition battle_row (tournament : TournamentSyncContext) (checkedAt : Z) (m : SourceMatch)
    : OfficialBattleRow :=
  let points := matchPoints m in
  {| ob_tournamentId := t_id tournament;
     ob_groupId := 1;
     ob_eventId := h_event m;
     ob_homeIndex := sm_sourceOrder m * 2 + 1;
     ob_homeEntryId := h_entry_1 m;
     ob_homeNetPoints := h_points_1 m;
     ob_homeRank := None;
     ob_homeMatchPoints := points.1;
     ob_awayIndex := sm_sourceOrder m * 2 + 2;
     ob_awayEntryId := h_entry_2 m;
     ob_awayNetPoints := h_points_2 m;
     ob_awayRank := None;
     ob_awayMatchPoints := points.2;
     ob_officialMatchId := h_id m;
     ob_sourceOrder := sm_sourceOrder m;
     ob_homeIsAverage := is_null (h_entry_1 m);
     ob_awayIsAverage := is_null (h_entry_2 m);
     ob_isBye := nullish (h_is_bye m) false;
     ob_sourceCheckedAt := checkedAt |}.

(** src: src/services/tournament-official-h2h.service.ts:404-419 buildOfficialH2HRows *)
Definition knockout_row (tournament : TournamentSyncContext) (checkedAt localMatchId : Z)
    (m : SourceMatch) : OfficialKnockoutRow :=
  {| ok_tournamentId := t_id tournament;
     ok_eventId := h_event m;
     ok_matchId := localMatchId;
     ok_playAgainstId := 1;
     ok_homeEntryId := h_entry_1 m;
     ok_homeNetPoints := h_points_1 m;
     ok_awayEntryId := h_entry_2 m;
     ok_awayNetPoints := h_points_2 m;
     ok_matchWinner := h_winner m;
     ok_officialMatchId := h_id m;
     ok_sourceOrder := sm_sourceOrder m;
     ok_knockoutName := officialKnockoutName m;
     ok_tiebreak := serializeTiebreak (h_tiebreak m);
     ok_sourceCheckedAt := checkedAt |}.

(** What the loop over the matches accumulates.
    src: src/services/tournament-official-h2h.service.ts:354-359 buildOfficialH2HRows *)
Record RowState := mkRowState {
  rs_battleRows : list OfficialBattleRow;
  rs_knockoutRows : list OfficialKnockoutRow;
  rs_roundMatchCounts : list (Z * Z);
  rs_knockoutByLocalMatchId : list (Z * SourceMatch);
}.

(** Places a knockout match in the first free slot of its round.
    src: src/services/tournament-official-h2h.service.ts:391-402 buildOfficialH2HRows *)
Definition place_knockout (tournament : TournamentSyncContext) (counts : list (Z * Z))
    (m : SourceMatch) : result (Z * list (Z * Z)) :=
  let configuredRounds := nullish (t_knockoutEventNum tournament) 0 in
  let configuredTeamCount := nullish (t_knockoutTeamNum tournament) 0 in
  let round := resolveKnockoutRound tournament m in
  let roundIndex := nullish (map_get round counts) 0 in
  reject_if (configuredRounds <? 1) || (configuredTeamCount <? 2 ^ round) ||
            (configuredTeamCount <=? roundIndex * 2 ^ round)
    with_code "TOURNAMENT_OFFICIAL_H2H_KNOCKOUT_INVALID" ;;
  let roundStart := configuredTeamCount - configuredTeamCount / 2 ^ (round - 1) + 1 in
  Ok (roundStart + roundIndex, map_set round (roundIndex + 1) counts).

(** src: src/services/tournament-official-h2h.service.ts:363-420 buildOfficialH2HRows *)
Fixpoint project_matches (tournament : TournamentSyncContext) (checkedAt : Z)
    (matches : list SourceMatch) (s : RowState) : result RowState :=
  match matches with
  | [] => Ok s
  | m :: rest =>
      if negb (isOfficialKnockoutMatch m) then
        project_matches tournament checkedAt rest
          (mkRowState (rs_battleRows s ++ [battle_row tournament checkedAt m])
             (rs_knockoutRows s) (rs_roundMatchCounts s) (rs_knockoutByLocalMatchId s))
      else
        let* placed := place_knockout tournament (rs_roundMatchCounts s) m in
        project_matches tournament checkedAt rest
          (mkRowState (rs_battleRows s)
             (rs_knockoutRows s ++ [knockout_row tournament checkedAt placed.1 m])
             placed.2 (map_set placed.1 m (rs_knockoutByLocalMatchId s)))
  end.

(** src: src/services/tournament-official-h2h.service.ts:429-451 buildOfficialH2HRows *)
Definition bracket_row (tournament : TournamentSyncContext)
    (knockoutByLocalMatchId : list (Z * SourceMatch)) (round localMatchId index : Z)
    (nextRoundStart : option Z) : OfficialBracketRow :=
  let source := map_get localMatchId knockoutByLocalMatchId in
  let won (side : RawMatch → option Z) : bool :=
    match source with
    | Some m => negb (is_null (h_winner m)) && opt_eqb (h_winner m) (side m)
    | None => false
    end in
  let event := nullish ((λ m : SourceMatch, h_event m) <$> source)
                 (nullish (t_knockoutStartedEventId tournament) 1 + round - 1) in
  {| bk_tournamentId := t_id tournament;
     bk_round := round;
     bk_startedEventId := event;
     bk_endedEventId := event;
     bk_matchId := localMatchId;
     bk_nextMatchId := (λ n, n + index / 2) <$> nextRoundStart;
     bk_homeEntryId := source ≫= λ m : SourceMatch, h_entry_1 m;
     bk_homeNetPoints := source ≫= λ m : SourceMatch, h_points_1 m;
     bk_homeWins := if won h_entry_1 then 1 else 0;
     bk_awayEntryId := source ≫= λ m : SourceMatch, h_entry_2 m;
     bk_awayNetPoints := source ≫= λ m : SourceMatch, h_points_2 m;
     bk_awayWins := if won h_entry_2 then 1 else 0;
     bk_roundWinner := source ≫= λ m : SourceMatch, h_winner m |}.

(** The rounds from [round] on, the first match id being [matchId].
    src: src/services/tournament-official-h2h.service.ts:424-454 buildOfficialH2HRows *)
Fixpoint bracket_rounds (rounds : nat) (tournament : TournamentSyncContext)
    (knockoutByLocalMatchId : list (Z * SourceMatch))
    (configuredRounds configuredTeamCount round matchId : Z) : list OfficialBracketRow :=
  match rounds with
  | O => []
  | S rounds' =>
      let matchesInRound := configuredTeamCount / 2 ^ round in
      let nextRoundStart :=
        if round <? configuredRounds then Some (matchId + matchesInRound) else None in
      map (λ index, bracket_row tournament knockoutByLocalMatchId round (matchId + index) index
                      nextRoundStart)
        (seqZ 0 (matches_in_round configuredTeamCount round)) ++
      bracket_rounds rounds' tournament knockoutByLocalMatchId configuredRounds
        configuredTeamCount (round + 1) (matchId + matchesInRound)
  end.

(** The regular match data the schedule hash covers.
    src: src/services/tournament-official-h2h.service.ts:457-468 buildOfficialH2HRows *)
Definition schedule_key (m : SourceMatch) : Z * Z * Z * option Z * option Z * bool :=
  (h_id m, h_event m, sm_sourceOrder m, h_entry_1 m, h_entry_2 m, nullish (h_is_bye m) false).

Record OfficialRows (hash : Type) := mkOfficialRows {
  or_scheduleHash : hash;
  or_battleRows : list OfficialBattleRow;
  or_knockoutRows : list OfficialKnockoutRow;
  or_bracketRows : list OfficialBracketRow;
}.
Arguments mkOfficialRows {hash}.
Arguments or_scheduleHash {hash}.
Arguments or_battleRows {hash}.
Arguments or_knockoutRows {hash}.
Arguments or_bracketRows {hash}.

Section rows.
Context {hash : Type} (contentHash : list (Z * Z * Z * option Z * option Z * bool) → hash).

(** src: src/services/tournament-official-h2h.service.ts:343-470 buildOfficialH2HRows *)
Definition buildOfficialH2HRows (tournament : TournamentSyncContext) (entryIds : gset Z)
    (snapshot : SourceSnapshot) (checkedAt : Z) : result (OfficialRows hash) :=
  let* _ := validateOfficialH2HSchedule tournament entryIds snapshot in
  let knockoutMatches :=
    filter (λ m : SourceMatch, isOfficialKnockoutMatch m = true) (ss_matches snapshot) in
  let configuredRounds := nullish (t_knockoutEventNum tournament) 0 in
  let configuredTeamCount := nullish (t_knockoutTeamNum tournament) 0 in
  let* s := project_matches tournament checkedAt (ss_matches snapshot) (mkRowState [] [] [] []) in
  let bracketRows :=
    if negb (is_nil knockoutMatches) && (0 <? configuredRounds) && (1 <? configuredTeamCount)
    then bracket_rounds (Z.to_nat configuredRounds) tournament (rs_knockoutByLocalMatchId s)
           configuredRounds configuredTeamCount 1 1
    else [] in
  let scheduleHash := contentHash (schedule_key <$>
    filter (λ m : SourceMatch, isOfficialKnockoutMatch m = false) (ss_matches snapshot)) in
  Ok (mkOfficialRows scheduleHash (rs_battleRows s) (rs_knockoutRows s) bracketRows).
End rows.

(** ** Pagination lemmas *)

Section paginate.
Context {P : Type} (get : nat → result P) (has_next : P → bool) (sig : P → jsstr).
Context (stalled limit : string).

(** Both fetch loops read pages the same way. *)
Fixpoint paginate (remaining page : nat) (previous : option jsstr) : result (list P) :=
  match remaining with
  | O => Throw limit
  | S remaining' =>
      let* response := get page in
      reject_if has_next response && opt_str_eqb previous (Some (sig response))
        with_code stalled ;;
      if negb (has_next response) then Ok [response] else
      let* rest := paginate remaining' (S page) (Some (sig response)) in Ok (response :: rest)
  end.

(** Pages [page], [page + 1], ... of the source, up to the first that has no next page, such that
    no page that announces another repeats the signature of the page before it. *)
Fixpoint complete_pages (page : nat) (previous : option jsstr) (pages : list P) : Prop :=
  match pages with
  | [] => False
  | p :: rest =>
      get page = Ok p ∧
      if has_next p then previous ≠ Some (sig p) ∧ complete_pages (S page) (Some (sig p)) rest
      else rest = []
  end.

Lemma paginate_complete remaining page previous pages :
  paginate remaining page previous = Ok pages ↔
  (length pages ≤ remaining)%nat ∧ complete_pages page previous pages.
Proof.
  revert page previous pages. induction remaining as [|n IH]; intros page previous pages; simpl.
  { split; [done|]. destruct pages; simpl; [tauto | lia]. }
  rewrite result_bind_ok. setoid_rewrite throw_when_ok. split.
  - intros (p & Hget & Hstall & Hrest). destruct (has_next p) eqn:Hn; simpl in *.
    + apply result_bind_ok in Hrest as (rest & [Hl Hc]%IH & Heq). simplify_eq. simpl.
      rewrite Hn. split; [lia|]. split; [done|]. split; [|done].
      intros ->. unfold opt_str_eqb in Hstall. by rewrite bool_decide_eq_false in Hstall.
    + simplify_eq. simpl. rewrite Hn. split; [lia|done].
  - intros [Hl Hc]. destruct pages as [|p rest]; simpl in *; [done|].
    destruct Hc as [Hget Hc]. exists p. split; [done|]. destruct (has_next p) eqn:Hn; simpl.
    + destruct Hc as [Hs Hc]. split; [unfold opt_str_eqb; by apply bool_decide_eq_false|].
      apply result_bind_ok. exists rest. split; [|done]. apply IH. split; [lia|done].
    + subst. done.
Qed.
End paginate.

Lemma fetch_standings_paginate get remaining page previous acc :
  fetch_standings get remaining page previous acc =
  (let* pages := paginate get sp_has_next (λ p, signature (st_entry <$> sp_results p))
     "TOURNAMENT_OFFICIAL_H2H_STANDINGS_STALLED" "TOURNAMENT_OFFICIAL_H2H_STANDINGS_LIMIT"
     remaining page previous in
   Ok (acc ++ flat_map (λ p, omap isRealOfficialH2HStanding (sp_results p)) pages)).
Proof.
  revert page previous acc. induction remaining as [|n IH]; intros; simpl; [done|].
  destruct (get page) as [p|]; simpl; [|done]. unfold throw_when.
  case_match; simpl; [done|]. destruct (sp_has_next p); simpl; [|by rewrite app_nil_r].
  rewrite IH. destruct (paginate _ _ _ _ _ _ _ _); simpl; [|done]. by rewrite app_assoc.
Qed.

(** [sourceOrder] is the position in the whole list. *)
Definition with_order (start : Z) (ms : list RawMatch) : list SourceMatch :=
  imap (λ i m, mkSource m (start + Z.of_nat i)) ms.

Lemma with_order_app start ms ms' :
  with_order start (ms ++ ms') = with_order start ms ++ with_order (start + Z.of_nat (length ms)) ms'.
Proof.
  unfold with_order. rewrite imap_app. f_equal. apply imap_ext. intros i m _. simpl. f_equal. lia.
Qed.

Lemma push_matches ms acc :
  fold_left (λ acc m, acc ++ [mkSource m (Z.of_nat (length acc))]) ms acc =
  acc ++ with_order (Z.of_nat (length acc)) ms.
Proof.
  revert acc. induction ms as [|m ms IH]; intros acc; simpl; [by rewrite app_nil_r|].
  rewrite IH, <-app_assoc. f_equal. unfold with_order. simpl. f_equal; [f_equal; lia|].
  apply imap_ext. intros i x _. simpl. f_equal. rewrite length_app. simpl. lia.
Qed.

Lemma fetch_matches_paginate get remaining page previous acc :
  fetch_matches get remaining page previous acc =
  (let* pages := paginate get mp_has_next (λ p, signature (Some ∘ h_id <$> mp_results p))
     "TOURNAMENT_OFFICIAL_H2H_MATCHES_STALLED" "TOURNAMENT_OFFICIAL_H2H_MATCHES_LIMIT"
     remaining page previous in
   Ok (acc ++ with_order (Z.of_nat (length acc)) (flat_map mp_results pages))).
Proof.
  revert page previous acc. induction remaining as [|n IH]; intros; simpl; [done|].
  destruct (get page) as [p|]; simpl; [|done]. unfold throw_when.
  case_match; simpl; [done|]. rewrite push_matches.
  destruct (mp_has_next p); simpl; [|by rewrite app_nil_r].
  rewrite IH. destruct (paginate _ _ _ _ _ _ _ _); simpl; [|done].
  assert (length (with_order (Z.of_nat (length acc)) (mp_results p)) = length (mp_results p)) as Hl
    by apply length_imap.
  rewrite with_order_app, <-app_assoc, length_app, Hl, Nat2Z.inj_add. done.
Qed.

Lemma reject_repeats_ok code seen ids u :
  reject_repeats code seen ids = Ok u ↔ NoDup ids ∧ ∀ x, x ∈ ids → x ∉ seen.
Proof.
  destruct u. revert seen. induction ids as [|id ids IH]; intros seen; simpl.
  { split; [|done]. intros _. split; [constructor|set_solver]. }
  rewrite throw_when_ok, IH, bool_decide_eq_false, NoDup_cons. split.
  - intros (Hn & Hnd & Hs). split_and!; [|done|].
    + intros Hin. by apply (Hs id Hin), elem_of_cons; left.
    + intros x [->|Hx]%elem_of_cons; [done|]. intros Hin. apply (Hs x Hx). set_solver.
  - intros ([Hn Hnd] & Hs). split_and!; [apply Hs; set_solver|done|].
    intros x Hx [->|Hin]%elem_of_cons; [done|]. apply (Hs x); set_solver.
Qed.

(** reading the official league returns a snapshot exactly when both paginated sources end
    within 100 pages without repeating a page and without a repeated match or entry; the snapshot
    is then every match, numbered in source order, and every real standing of every page (no page
    skipped or read twice), and never a partial read. *)
Theorem fetchOfficialH2HSourceSnapshot_complete
    (getStandings : nat → result StandingsPage) (getMatches : nat → result MatchesPage)
    (snapshot : SourceSnapshot) :
  fetchOfficialH2HSourceSnapshot getStandings getMatches = Ok snapshot ↔
  ∃ standingsPages matchPages,
    (length standingsPages ≤ MAX_H2H_PAGES)%nat ∧ (length matchPages ≤ MAX_H2H_PAGES)%nat ∧
    complete_pages getStandings sp_has_next (λ p, signature (st_entry <$> sp_results p))
      1 None standingsPages ∧
    complete_pages getMatches mp_has_next (λ p, signature (Some ∘ h_id <$> mp_results p))
      1 None matchPages ∧
    ss_standings snapshot =
      flat_map (λ p, omap isRealOfficialH2HStanding (sp_results p)) standingsPages ∧
    ss_matches snapshot = with_order 0 (flat_map mp_results matchPages) ∧
    NoDup ((λ m : SourceMatch, h_id m) <$> ss_matches snapshot) ∧
    NoDup (ss_standings snapshot).*1.
Proof.
  unfold fetchOfficialH2HSourceSnapshot. rewrite fetch_standings_paginate, fetch_matches_paginate.
  split.
  - intros H. inv_ok. repeat match goal with
    | H : paginate _ _ _ _ _ _ _ _ = Ok _ |- _ => apply paginate_complete in H as [? ?]
    | H : reject_repeats _ _ _ = Ok _ |- _ => apply reject_repeats_ok in H as [? _]
    end. simpl in *. eexists _, _. split_and!; done.
  - intros (sps & mps & Hl1 & Hl2 & Hc1 & Hc2 & Hs & Hm & Hnd1 & Hnd2).
    rewrite (proj2 (paginate_complete _ _ _ _ _ _ _ _ sps)) by done.
    rewrite (proj2 (paginate_complete _ _ _ _ _ _ _ _ mps)) by done. cbn [result_bind app].
    change (Z.of_nat (length (@nil SourceMatch))) with 0.
    rewrite <-Hm, <-Hs, !(proj2 (reject_repeats_ok _ [] _ ())) by (split; [done|set_solver]).
    simpl. by destruct snapshot.
Qed.

(** ** Schedule lemmas *)

Lemma for_each_ok {A} (body : A → result unit) xs u :
  for_each body xs = Ok u ↔ ∀ x, x ∈ xs → body x = Ok ().
Proof.
  destruct u. induction xs as [|x xs IH]; simpl; [split; [set_solver|done]|].
  rewrite result_bind_ok. split.
  - intros ([] & Hx & Hxs). intros y [->|Hy]%elem_of_cons; [done|]. by apply IH.
  - intros H. exists (). split; [apply H; set_solver|]. apply IH. intros y Hy. apply H. set_solver.
Qed.

(** Regular matches of a gameweek. *)
Definition regular_in (eventId : Z) (ms : list SourceMatch) : list SourceMatch :=
  filter (λ m : SourceMatch, isOfficialKnockoutMatch m = false ∧ h_event m = eventId) ms.

Lemma by_event_ok start last acc ms be :
  by_event start last acc ms = Ok be →
  (∀ m, m ∈ ms → start ≤ h_event (sm_raw m) ≤ last) ∧
  ∀ k, nullish (map_get k be) [] =
       nullish (map_get k acc) [] ++ filter (λ m : SourceMatch, h_event m = k) ms.
Proof.
  revert acc. induction ms as [|m ms IH]; intros acc; simpl; intros H.
  { simplify_eq. split; [set_solver|]. intros k. by rewrite filter_nil, app_nil_r. }
  apply throw_when_ok in H as [Hw H]. boolsolve. apply IH in H as [Hwin Hget]. split.
  - intros x [->|Hx]%elem_of_cons; [lia|]. by apply Hwin.
  - intros k. rewrite Hget, map_get_set, filter_cons.
    destruct (decide (k = h_event m)) as [->|Hk].
    + rewrite decide_True by done. simpl. by rewrite <-app_assoc.
    + by rewrite decide_False by done.
Qed.

(** Real entries and empty sides of a list of sides. *)
Definition real_sides (sides : list (option Z)) : list Z := omap id sides.
Definition average_sides (sides : list (option Z)) : Z :=
  Z.of_nat (length (filter (λ s, s = None) sides)).

Lemma scan_sides_ok sides seen n seen' n' :
  scan_sides sides seen n = Ok (seen', n') →
  NoDup (real_sides sides) ∧ (∀ x, x ∈ real_sides sides → x ∉ seen) ∧
  seen' = list_to_set (real_sides sides) ∪ seen ∧ n' = n + average_sides sides.
Proof.
  revert seen n. induction sides as [|[e|] sides IH]; intros seen n; simpl; intros H.
  - simplify_eq. split_and!; [constructor|set_solver|set_solver|]. unfold average_sides. simpl. lia.
  - apply throw_when_ok in H as [He%bool_decide_eq_false H]. apply IH in H as (Hnd & Hs & -> & ->).
    unfold real_sides, average_sides in *. simpl. split_and!; [|set_solver|set_solver|done].
    constructor; [|done]. intros Hin. apply (Hs e Hin). set_solver.
  - apply IH in H as (Hnd & Hs & -> & ->). unfold real_sides, average_sides in *. simpl.
    split_and!; [done|done|done|]. simpl. lia.
Qed.

Lemma assertMatchSides_ok m entryIds u :
  assertMatchSides m entryIds = Ok u →
  (∀ e, Some e ∈ match_sides m → e ∈ entryIds) ∧
  (∀ w, h_winner m = Some w → Some w ∈ match_sides m) ∧
  (h_entry_1 m = h_entry_2 m → h_entry_1 m = None) ∧
  (isOfficialKnockoutMatch m = false → real_sides (match_sides m) ≠ []).
Proof.
  unfold assertMatchSides, match_sides, opt_eqb. intros H.
  apply throw_when_ok in H as [H1 H]. apply throw_when_ok in H as [H2 H].
  apply throw_when_ok in H as [H3 H]. apply throw_when_ok in H as [H4 _].
  destruct (h_entry_1 m) as [a|], (h_entry_2 m) as [b|], (h_winner m) as [w|];
    simpl in *; boolsolve; (split_and!; [intros e He| intros w' Hw'| intros Heq|intros Hk]);
    simplify_eq; rewrite ?Hk in *; try done;
    repeat match goal with
    | H : Some _ ∈ _ :: _ |- _ => apply elem_of_cons in H as [H|H]; simplify_eq
    | H : _ ∈ [] |- _ => by apply not_elem_of_nil in H
    | H : ¬ (_ ∉ _) |- _ => apply dec_stable in H
    | H : _ && _ = false |- _ => apply andb_false_iff in H as [H|H]
    end; boolsolve; simplify_eq; try done;
    try (destruct (decide (Some w' = Some a)); [set_solver|]);
    try (destruct (decide (w' = a)); [set_solver|]);
    set_solver.
Qed.

Lemma validate_event_ok entryIds be e u :
  validate_event entryIds be e = Ok u →
  (∀ x, x ∈ real_sides (flat_map match_sides (sm_raw <$> nullish (map_get e be) [])) → x ∈ entryIds) →
  let sides := flat_map match_sides (sm_raw <$> nullish (map_get e be) []) in
  Z.of_nat (length (nullish (map_get e be) [])) = (Z.of_nat (size entryIds) + 1) / 2 ∧
  real_sides sides ≡ₚ elements entryIds ∧
  average_sides sides = Z.of_nat (size entryIds) mod 2.
Proof.
  intros H Hin sides. unfold validate_event in H. inv_ok. fold sides in H0, Hin.
  destruct x as [seen n]. apply scan_sides_ok in H0 as (Hnd & _ & -> & ->). simpl in *. boolsolve.
  split; [done|]. split; [|lia].
  assert (list_to_set (real_sides sides) ∪ (∅ : gset Z) ⊆ entryIds) as Hsub.
  { intros x Hx. apply Hin. set_solver. }
  assert (list_to_set (real_sides sides) ∪ (∅ : gset Z) = entryIds) as <-.
  { apply leibniz_equiv, set_subseteq_size_equiv; [done|lia]. }
  rewrite union_empty_r_L. symmetry. by apply elements_list_to_set.
Qed.

(** when a non-empty official schedule is accepted, every regular match falls in the group
    window, and in every gameweek of the window the regular matches pair the roster off: their real
    sides are each roster entry exactly once, with one average side exactly when the roster is odd,
    in ceil(n/2) matches. *)
Theorem validateOfficialH2HSchedule_covers (tournament : TournamentSyncContext)
    (entryIds : gset Z) (snapshot : SourceSnapshot) (first last : Z)
    (Hok : validateOfficialH2HSchedule tournament entryIds snapshot = Ok ())
    (Hne : ss_matches snapshot ≠ [])
    (Hfirst : t_groupStartedEventId tournament = Some first)
    (Hlast : t_groupEndedEventId tournament = Some last) :
  (∀ m : SourceMatch, m ∈ ss_matches snapshot → isOfficialKnockoutMatch m = false →
     first ≤ h_event m ≤ last) ∧
  ∀ eventId, first ≤ eventId ≤ last →
    let matches := regular_in eventId (ss_matches snapshot) in
    let sides := flat_map match_sides (sm_raw <$> matches) in
    real_sides sides ≡ₚ elements entryIds ∧
    average_sides sides = Z.of_nat (size entryIds) mod 2 ∧
    Z.of_nat (length matches) = (Z.of_nat (size entryIds) + 1) / 2.
Proof.
  unfold validateOfficialH2HSchedule in Hok. rewrite Hfirst, Hlast in Hok.
  destruct (is_nil _) eqn:Hnil; [by destruct (ss_matches snapshot)|]. inv_ok.
  destruct (filter _ _) as [|m0 rest] eqn:Hreg; [done|]. inv_ok. rewrite <-Hreg in *. clear Hreg.
  rename H into Hsides, H0 into Hby, H1 into Hev.
  apply by_event_ok in Hby as [Hwin Hget]. split.
  { intros m Hm Hk. apply Hwin, list_elem_of_filter. done. }
  intros e He. assert (validate_event entryIds x0 e = Ok ()) as H.
  { apply (proj1 (for_each_ok _ _ ()) Hev), elem_of_seqZ. lia. }
  assert (nullish (map_get e x0) [] = regular_in e (ss_matches snapshot)) as Hbe.
  { rewrite Hget. simpl. unfold regular_in. rewrite list_filter_filter.
    apply list_filter_iff. intros m. tauto. }
  apply validate_event_ok in H; rewrite Hbe in *.
  { destruct H as (? & ? & ?). done. }
  intros z Hz. apply list_elem_of_omap in Hz as (s & Hs & Heq).
  unfold id in Heq. subst s.
  apply list_elem_of_In, in_flat_map in Hs as (m & Hm & Hs).
  apply list_elem_of_In, list_elem_of_fmap in Hm as (sm & -> & Hm).
  apply list_elem_of_filter in Hm as [_ Hm].
  pose proof (proj1 (for_each_ok _ _ _) Hsides sm Hm) as Hside.
  by apply assertMatchSides_ok in Hside as [Hin _]; apply Hin, list_elem_of_In.
Qed.

(** A three-entry league: one average side each gameweek. *)
Definition sample_official : TournamentSyncContext :=
  mkSyncContext 7 (Some 99) (Some H2H) (Some OfficialSync) 3 BattleRaces (Some 1) (Some 2) None
    HeadToHead (Some 2) (Some 1) (Some 3) (Some 3) (Some 1).
Definition sample_match (id event : Z) (home away winner : option Z) (ko : bool) : RawMatch :=
  mkRaw id event home (Some 50) (None, None, None) None away (Some 40) (None, None, None) None
    winner (Some ko) None None None.
Definition sample_snapshot : SourceSnapshot :=
  mkSnapshot []
    (with_order 0
      [sample_match 1 1 (Some 10) (Some 20) None false; sample_match 2 1 (Some 30) None None false;
       sample_match 3 2 (Some 30) (Some 10) None false; sample_match 4 2 None (Some 20) None false;
       sample_match 5 3 (Some 10) (Some 20) (Some 10) true]).

Lemma validateOfficialH2HSchedule_covers_witness :
  let sides := flat_map match_sides (sm_raw <$> regular_in 2 (ss_matches sample_snapshot)) in
  real_sides sides ≡ₚ elements ({[10; 20; 30]} : gset Z).
Proof.
  assert (validateOfficialH2HSchedule sample_official {[10; 20; 30]} sample_snapshot = Ok ()) as H
    by (vm_compute; reflexivity).
  apply (validateOfficialH2HSchedule_covers sample_official {[10; 20; 30]} sample_snapshot 1 2 H
    ltac:(discriminate) eq_refl eq_refl). split; discriminate.
Defined.

(** ** Bracket lemmas *)

(** What the planner stores for an official tournament with [R] knockout rounds. *)
Record official_config (t : TournamentSyncContext) (R start : Z) : Prop := {
  oc_rounds_pos : 1 ≤ R;
  oc_rounds : t_knockoutEventNum t = Some R;
  oc_teams : t_knockoutTeamNum t = Some (2 ^ R);
  oc_start : t_knockoutStartedEventId t = Some start;
  oc_start_pos : 1 ≤ start;
  oc_legs : t_knockoutPlayAgainstNum t = Some 1;
}.

Lemma round_start_mono R r r' : 1 ≤ r → r < r' ≤ R → round_start R r + 2 ^ (R - r) ≤ round_start R r'.
Proof.
  intros Hr Hr'. rewrite round_start_succ by lia. unfold round_start.
  assert (2 ^ (R - r' + 1) ≤ 2 ^ (R - (r + 1) + 1)) by (apply Z.pow_le_mono_r; lia). lia.
Qed.

Lemma slot_inj R r r' i i' :
  1 ≤ r ≤ R → 1 ≤ r' ≤ R → 0 ≤ i < 2 ^ (R - r) → 0 ≤ i' < 2 ^ (R - r') →
  round_start R r + i = round_start R r' + i' → r = r' ∧ i = i'.
Proof.
  intros. destruct (Z.lt_trichotomy r r') as [Hlt|[->|Hlt]]; [|lia|].
  - pose proof (round_start_mono R r r'). lia.
  - pose proof (round_start_mono R r' r). lia.
Qed.

Lemma resolveKnockoutRound_range t R start m :
  official_config t R start → 1 ≤ resolveKnockoutRound t m ≤ R.
Proof.
  intros Hc. pose proof (oc_rounds_pos _ _ _ Hc). unfold resolveKnockoutRound.
  rewrite (oc_rounds _ _ _ Hc). unfold nullish. simpl. repeat case_match; lia.
Qed.

Section official.
Context (t : TournamentSyncContext) (R start : Z) (Hc : official_config t R start) (checkedAt : Z).

Definition count (counts : list (Z * Z)) (r : Z) : Z := nullish (map_get r counts) 0.

Lemma place_knockout_ok counts m id counts' :
  place_knockout t counts m = Ok (id, counts') →
  ∃ r, 1 ≤ r ≤ R ∧ count counts r < 2 ^ (R - r) ∧ id = round_start R r + count counts r ∧
       counts' = map_set r (count counts r + 1) counts.
Proof.
  pose proof (resolveKnockoutRound_range t R start m Hc) as Hr. unfold place_knockout.
  rewrite (oc_rounds _ _ _ Hc), (oc_teams _ _ _ Hc). simpl. intros H.
  apply throw_when_ok in H as [H Heq]. boolsolve. simplify_eq.
  set (r := resolveKnockoutRound t m) in *. fold (count counts r) in *.
  exists r. assert (2 ^ R = 2 ^ (R - r) * 2 ^ r) as HL
    by (rewrite <-Z.pow_add_r by lia; f_equal; lia).
  pose proof (Z.pow_pos_nonneg 2 r). split_and!; [lia|lia| | |done].
  - apply (Z.mul_lt_mono_pos_r (2 ^ r)); lia.
  - unfold round_start. rewrite pow_div by lia.
    replace (R - (r - 1)) with (R - r + 1) by lia. lia.
Qed.

(** Every knockout row so far has a slot of its own. *)
Record placed (s : RowState) : Prop := {
  pl_counts : ∀ r, 0 ≤ count (rs_roundMatchCounts s) r;
  pl_nodup : NoDup (ok_matchId <$> rs_knockoutRows s);
  pl_slot : ∀ k, k ∈ rs_knockoutRows s → ∃ r i, 1 ≤ r ≤ R ∧
    0 ≤ i < count (rs_roundMatchCounts s) r ∧ i < 2 ^ (R - r) ∧ ok_matchId k = round_start R r + i;
  pl_source : ∀ k, k ∈ rs_knockoutRows s → ∃ m,
    map_get (ok_matchId k) (rs_knockoutByLocalMatchId s) = Some m ∧
    k = knockout_row t checkedAt (ok_matchId k) m;
  pl_only : ∀ id, is_Some (map_get id (rs_knockoutByLocalMatchId s)) →
    id ∈ ok_matchId <$> rs_knockoutRows s;
}.

Lemma placed_empty : placed (mkRowState [] [] [] []).
Proof. split; simpl; [done|constructor|set_solver..|]. intros id [? [=]]. Qed.

Lemma placed_step s m id counts' :
  placed s → place_knockout t (rs_roundMatchCounts s) m = Ok (id, counts') →
  placed (mkRowState (rs_battleRows s) (rs_knockoutRows s ++ [knockout_row t checkedAt id m]) counts'
            (map_set id m (rs_knockoutByLocalMatchId s))).
Proof.
  intros Hs (r & Hr & Hlt & -> & ->)%place_knockout_ok.
  set (c := count (rs_roundMatchCounts s)) in *.
  assert (∀ r', count (map_set r (c r + 1) (rs_roundMatchCounts s)) r' =
                if decide (r' = r) then c r + 1 else c r') as Hcount.
  { intros r'. unfold count. rewrite map_get_set. by case_decide. }
  pose proof (pl_counts s Hs) as Hpos. fold c in Hpos.
  assert (round_start R r + c r ∉ ok_matchId <$> rs_knockoutRows s) as Hnew.
  { intros (k & Hk & Hin)%list_elem_of_fmap. pose proof (Hpos r).
    destruct (pl_slot s Hs k Hin) as (r' & i & Hr' & Hi & Hi' & Hid). fold c in Hi.
    destruct (slot_inj R r r' (c r) i) as [<- Hii]; lia. }
  split; simpl; rewrite ?fmap_app; simpl.
  - intros r'. rewrite Hcount. pose proof (Hpos r). pose proof (Hpos r'). case_decide; lia.
  - apply NoDup_app. split_and!; [apply (pl_nodup s Hs)| |apply NoDup_singleton].
    intros x Hx ->%list_elem_of_singleton. done.
  - intros k [Hk| ->%list_elem_of_singleton]%elem_of_app.
    + destruct (pl_slot s Hs k Hk) as (r' & i & Hr' & Hi & Hi' & Hid). fold c in Hi.
      exists r', i. rewrite Hcount. split_and!; try done; try case_decide; subst; lia.
    + exists r, (c r). rewrite Hcount, decide_True by done. pose proof (Hpos r).
      split_and!; simpl; lia.
  - intros k [Hk| ->%list_elem_of_singleton]%elem_of_app.
    + destruct (pl_source s Hs k Hk) as (m' & Hm' & Heq). exists m'. split; [|done].
      rewrite map_get_set_ne; [done|]. intros Hid. apply Hnew. rewrite <-Hid.
      apply list_elem_of_fmap_2. exact Hk.
    + exists m. simpl. by rewrite map_get_set_eq.
  - intros id Hid. rewrite map_get_set in Hid. apply elem_of_app.
    case_decide; [right; subst; apply list_elem_of_singleton; done|].
    left. by apply (pl_only s Hs).
Qed.

Lemma project_matches_placed ms s s' :
  project_matches t checkedAt ms s = Ok s' → placed s →
  placed s' ∧
  (ob_officialMatchId <$> rs_battleRows s') ++ (ok_officialMatchId <$> rs_knockoutRows s') ≡ₚ
  (ob_officialMatchId <$> rs_battleRows s) ++ (ok_officialMatchId <$> rs_knockoutRows s) ++
  ((λ m : SourceMatch, h_id m) <$> ms).
Proof.
  revert s. induction ms as [|m ms IH]; intros s; simpl; intros H Hs.
  { simplify_eq. split; [done|]. by rewrite app_nil_r. }
  destruct (negb _) eqn:Hko.
  - apply IH in H as [Hp Hperm]; [|by destruct Hs; split]. split; [done|]. rewrite Hperm. simpl.
    rewrite fmap_app. simpl. rewrite <-!app_assoc. apply Permutation_app_head.
    simpl. apply (Permutation_middle (ok_officialMatchId <$> rs_knockoutRows s)).
  - apply result_bind_ok in H as ([id counts'] & Hpl & H).
    apply IH in H as [Hp Hperm]; [|by apply placed_step]. split; [done|]. rewrite Hperm. simpl.
    rewrite fmap_app. simpl. by rewrite <-!app_assoc.
Qed.

(** The closed form of the bracket rows. *)
Lemma bracket_rounds_closed n byLocal r :
  1 ≤ r → r + Z.of_nat n - 1 = R →
  bracket_rounds n t byLocal R (2 ^ R) r (round_start R r) =
  flat_map (λ round, map (λ index, bracket_row t byLocal round (round_start R round + index) index
      (if round <? R then Some (round_start R (round + 1)) else None))
    (seqZ 0 (2 ^ (R - round)))) (seqZ r (Z.of_nat n)).
Proof.
  revert r. induction n as [|n IH]; intros r Hr Hn; simpl bracket_rounds; [done|].
  rewrite Nat2Z.inj_succ, (seqZ_cons r) by lia. simpl flat_map. rewrite matches_in_round_pow, pow_div by lia.
  rewrite round_start_succ by lia. f_equal.
  replace (Z.succ r) with (r + 1) by lia. replace (Z.pred (Z.succ (Z.of_nat n))) with (Z.of_nat n) by lia.
  destruct n as [|n]; [done|]. apply IH; lia.
Qed.

Lemma bracket_rounds_all byLocal :
  1 ≤ R →
  bracket_rounds (Z.to_nat R) t byLocal R (2 ^ R) 1 1 =
  flat_map (λ round, map (λ index, bracket_row t byLocal round (round_start R round + index) index
      (if round <? R then Some (round_start R (round + 1)) else None))
    (seqZ 0 (2 ^ (R - round)))) (seqZ 1 R).
Proof.
  intros HR. pose proof (bracket_rounds_closed (Z.to_nat R) byLocal 1) as H.
  replace (round_start R 1) with 1 in H
    by (unfold round_start; replace (R - 1 + 1) with R by lia; lia).
  rewrite H, Z2Nat.id by lia. done.
Qed.
End official.

Lemma official_bracket_config t R start n :
  official_config t R start → bracket_config (mkConfig t n) (2 ^ R) start 1 ∧ Z.log2_up (2 ^ R) = R.
Proof.
  intros [HR Hr Ht Hs Hs1 Hl]. rewrite Z.log2_up_pow2 by lia. split; [|done].
  assert (2 ^ 1 ≤ 2 ^ R) by (apply Z.pow_le_mono_r; lia).
  split; simpl; rewrite ?Z.log2_up_pow2 by lia; try done; lia.
Qed.

(** The identity of a bracket row: round, match and successor. *)
Definition bracket_node (b : OfficialBracketRow) : Z * Z * option Z :=
  (bk_round b, bk_matchId b, bk_nextMatchId b).

Lemma bracket_rounds_nodes t R start n byLocal :
  official_config t R start →
  bracket_node <$> bracket_rounds (Z.to_nat R) t byLocal R (2 ^ R) 1 1 =
  (λ m, (km_round m, km_match_id m, km_next_match_id m)) <$>
    (buildKnockoutRows (mkConfig t n) None).1.
Proof.
  intros Hc. destruct (official_bracket_config t R start n Hc) as [Hb HL].
  pose proof (oc_rounds_pos _ _ _ Hc).
  rewrite bracket_rounds_all by lia.
  rewrite (buildKnockoutRows_closed _ _ _ _ Hb). cbn [fst]. rewrite HL.
  rewrite !fmap_flat_map. apply flat_map_ext_in. intros r _. unfold closed_round. rewrite HL.
  rewrite fmap_flat_map. simpl.
  induction (seqZ 0 (2 ^ (R - r))) as [|i l IH]; simpl; [done|]. f_equal. exact IH.
Qed.

Lemma elem_of_bracket_rounds t R byLocal r i :
  1 ≤ r ≤ R → 0 ≤ i < 2 ^ (R - r) →
  bracket_row t byLocal r (round_start R r + i) i
    (if r <? R then Some (round_start R (r + 1)) else None)
  ∈ bracket_rounds (Z.to_nat R) t byLocal R (2 ^ R) 1 1.
Proof.
  intros Hr Hi.
  rewrite bracket_rounds_all by lia.
  apply list_elem_of_In, in_flat_map. exists r.
  split; apply list_elem_of_In; [apply elem_of_seqZ; lia|].
  apply list_elem_of_fmap. exists i. split; [done|]. apply elem_of_seqZ. lia.
Qed.

Lemma project_matches_no_knockout t checkedAt ms s s' :
  project_matches t checkedAt ms s = Ok s' →
  filter (λ m : SourceMatch, isOfficialKnockoutMatch m = true) ms = [] →
  rs_knockoutRows s' = rs_knockoutRows s.
Proof.
  revert s. induction ms as [|m ms IH]; intros s; simpl; [by intros [= ->]|].
  intros H. rewrite filter_cons. destruct (isOfficialKnockoutMatch m); simpl; [done|].
  intros Hf. by apply IH in H.
Qed.

(** projecting an official league with [R] knockout rounds puts every source match in exactly
    one row; the bracket it writes is node for node the bracket [buildKnockoutRows] would build
    (rounds, match ids, successors), every official knockout match gets a match id of its own, and
    the bracket row of that id carries the match's sides, gameweek and winner. *)
Theorem buildOfficialH2HRows_bracket {hash : Type}
    (contentHash : list (Z * Z * Z * option Z * option Z * bool) → hash)
    (t : TournamentSyncContext) (R start : Z) (groupNum : option Z) (entryIds : gset Z)
    (snapshot : SourceSnapshot) (checkedAt : Z) (rows : OfficialRows hash)
    (Hconfig : official_config t R start)
    (Hok : buildOfficialH2HRows contentHash t entryIds snapshot checkedAt = Ok rows) :
  (ob_officialMatchId <$> or_battleRows rows) ++ (ok_officialMatchId <$> or_knockoutRows rows) ≡ₚ
    ((λ m : SourceMatch, h_id m) <$> ss_matches snapshot) ∧
  NoDup (ok_matchId <$> or_knockoutRows rows) ∧
  (or_bracketRows rows = [] ∧ or_knockoutRows rows = [] ∨
   bracket_node <$> or_bracketRows rows =
     (λ m, (km_round m, km_match_id m, km_next_match_id m)) <$>
       (buildKnockoutRows (mkConfig t groupNum) None).1) ∧
  ∀ k, k ∈ or_knockoutRows rows → ∃ b, b ∈ or_bracketRows rows ∧
    bk_matchId b = ok_matchId k ∧ bk_startedEventId b = ok_eventId k ∧
    bk_homeEntryId b = ok_homeEntryId k ∧ bk_awayEntryId b = ok_awayEntryId k ∧
    bk_roundWinner b = ok_matchWinner k.
Proof.
  unfold buildOfficialH2HRows in Hok. rewrite (oc_rounds _ _ _ Hconfig), (oc_teams _ _ _ Hconfig) in Hok.
  cbn [nullish default] in Hok. inv_ok. rename x0 into s, H0 into Hp. clear H x. cbn.
  pose proof (oc_rounds_pos _ _ _ Hconfig) as HR.
  pose proof (Z.pow_gt_1 2 R ltac:(lia)) as [HT _]. specialize (HT ltac:(lia)).
  rewrite (proj2 (Z.ltb_lt 0 R)), (proj2 (Z.ltb_lt 1 (2 ^ R))), !andb_true_r by lia.
  destruct (project_matches_placed t R start Hconfig checkedAt _ _ _ Hp (placed_empty t R start Hconfig checkedAt))
    as [Hs Hperm]. simpl in Hperm.
  split; [exact Hperm|]. split; [apply (pl_nodup _ _ _ _ Hs)|].
  destruct (is_nil _) eqn:Hnil; simpl.
  { assert (rs_knockoutRows s = []) as ->; [|split; [by left|set_solver]].
    eapply (project_matches_no_knockout _ _ _ _ _ Hp).
    by destruct (filter _ _). }
  split; [right; by eapply bracket_rounds_nodes|].
  intros k Hk. destruct (pl_slot _ _ _ _ Hs k Hk) as (r & i & Hr & Hi & Hi' & Hid).
  destruct (pl_source _ _ _ _ Hs k Hk) as (m & Hm & Heq).
  eexists. split; [apply (elem_of_bracket_rounds t R _ r i); lia|].
  rewrite Hid in Hm. rewrite Heq. simpl. rewrite Hm, Hid. done.
Qed.

Lemma buildOfficialH2HRows_bracket_witness :
  let rows := buildOfficialH2HRows (λ l, length l) sample_official {[10; 20; 30]}
                sample_snapshot 0 in
  match rows with
  | Ok rows => NoDup (ok_matchId <$> or_knockoutRows rows) ∧ length (or_bracketRows rows) = 1%nat
  | Throw _ => False
  end.
Proof.
  assert (official_config sample_official 1 3) as Hc by (split; (done || lia)).
  destruct (buildOfficialH2HRows (λ l, length l) sample_official {[10; 20; 30]} sample_snapshot 0)
    as [rows|] eqn:E; [|vm_compute in E; discriminate E].
  split; [|vm_compute in E; injection E as <-; reflexivity].
  apply (buildOfficialH2HRows_bracket (λ l, length l) sample_official 1 3 None {[10; 20; 30]}
    sample_snapshot 0 rows Hc E).
Defined.
