(* ===== verification/Structure.v ===== *)
(** * Building the stored structure ([src/services/tournament-structure.service.ts])

    [rebuildTournamentStructure] deletes every group, result and bracket row of the tournament and
    writes the drawn ones, in one transaction. *)

From S2P Require Import Prelude JsCollections Tournament Seeding GroupDraw Bracket KnockoutSync KnockoutSeeding Races.

(** Every structure and result table of one tournament. *)
Record StructureTables := mkStructure {
  tb_knockout : KnockoutTables;
  tb_races : RaceTables;
}.

(** [Number(null)] is [0]: a missing group window is stored as gameweek 0.
    src: src/services/tournament-structure.service.ts:23-44 groupInsert *)
Definition groupInsert (row : GroupRow) : GroupRow :=
  {| gr_tournament_id := gr_tournament_id row;
     gr_group_id := gr_group_id row;
     gr_group_name := gr_group_name row;
     gr_group_index := gr_group_index row;
     gr_entry_id := gr_entry_id row;
     gr_started_event_id := Some (nullish (gr_started_event_id row) 0);
     gr_ended_event_id := Some (nullish (gr_ended_event_id row) 0);
     gr_group_points := gr_group_points row;
     gr_group_rank := gr_group_rank row;
     gr_played := gr_played row;
     gr_won := gr_won row;
     gr_drawn := gr_drawn row;
     gr_lost := gr_lost row;
     gr_total_points := gr_total_points row;
     gr_total_transfers_cost := gr_total_transfers_cost row;
     gr_total_net_points := gr_total_net_points row;
     gr_qualified := gr_qualified row;
     gr_overall_rank := gr_overall_rank row |}.

(** The round-one pairs known when the structure is built.
    src: src/services/tournament-structure.service.ts:51-57 rebuildTournamentStructure *)
Definition seeded_round_one (tournament : TournamentConfig) (entrySeeds : list EntrySeed)
    : option (list SeedPair) :=
  let entryIds := es_entryId <$> sortEntrySeeds entrySeeds in
  let shouldSeedRoundOneImmediately :=
    bool_decide (t_knockoutMode tournament ≠ NoKnockout) &&
    bool_decide (t_groupMode tournament = NoGroup) in
  match t_knockoutTeamNum tournament with
  | Some n =>
      if shouldSeedRoundOneImmediately && truthy (Some n) then Some (seedBracketEntries entryIds n)
      else None
  | None => None
  end.

(** [deleteByTournament] of the five repositories.
    src: src/services/tournament-structure.service.ts:94-98 rebuildTournamentStructure *)
Definition delete_structure (tables : StructureTables) : StructureTables :=
  mkStructure (mkTables [] []) (mkRaceTables [] [] []).

(** src: src/repositories/tournament-groups.ts:149-198 upsertBatch *)
Definition upsert_groups (rows table : list GroupRow) : list GroupRow :=
  upsert_batch group_key merge_group rows table.

(** src: src/services/tournament-structure.service.ts:46-104 rebuildTournamentStructure *)
Definition rebuildTournamentStructure (tournament : TournamentConfig) (entrySeeds : list EntrySeed)
    (tables : StructureTables) : result StructureTables :=
  let seededRoundOne := seeded_round_one tournament entrySeeds in
  let groupRows :=
    if bool_decide (t_groupMode tournament = NoGroup) then []
    else groupInsert <$> buildGroupRows tournament entrySeeds in
  let knockoutRows :=
    if bool_decide (t_knockoutMode tournament = NoKnockout) then ([], [])
    else buildKnockoutRows tournament seededRoundOne in
  let knockoutMatches := match_of_row <$> knockoutRows.1 in
  let knockoutResults := leg_of_row <$> knockoutRows.2 in
  let publishedKnockoutResults :=
    if isOfficialH2HTournament tournament then [] else knockoutResults in
  let deleted := delete_structure tables in
  let groups := upsert_groups groupRows (rt_groups (tb_races deleted)) in
  let* matches := upsert_matches knockoutMatches (kt_matches (tb_knockout deleted)) in
  let legs := upsert_legs publishedKnockoutResults (kt_legs (tb_knockout deleted)) in
  Ok (mkStructure (mkTables matches legs)
        (mkRaceTables groups (rt_points (tb_races deleted)) (rt_battles (tb_races deleted)))).

(** ** The rebuilt tables *)

Lemma match_rows_whole rows :
  forallb (λ m, whole_wins (m_homeWins m) && whole_wins (m_awayWins m)) (match_of_row <$> rows) = true.
Proof. by induction rows. Qed.

Lemma group_keys_NoDup cfg entrySeeds :
  NoDup (es_entryId <$> entrySeeds) →
  NoDup (group_key <$> (groupInsert <$> buildGroupRows cfg entrySeeds)).
Proof.
  intros Hnd. apply (NoDup_fmap_1 snd). rewrite <-!list_fmap_compose.
  change (snd ∘ (group_key ∘ groupInsert) <$> _) with (gr_entry_id <$> buildGroupRows cfg entrySeeds).
  rewrite buildGroupRows_entries. done.
Qed.

(** whatever the tables held before, a rebuild of a tournament with distinct entrants succeeds
    and leaves exactly the drawn structure: the group rows of the draw (none without a group
    stage), no race result at all, and the bracket of the configuration with its legs, already
    seeded when there is no group stage to wait for (official mirrors keep no legs). *)
Theorem rebuildTournamentStructure_fresh (cfg : TournamentConfig) (tc start legs : Z)
    (entrySeeds : list EntrySeed) (tables : StructureTables)
    (Hbc : bracket_config cfg tc start legs) (Hko : t_knockoutMode cfg ≠ NoKnockout)
    (Hentries : NoDup (es_entryId <$> entrySeeds)) :
  let seeded :=
    if bool_decide (t_groupMode cfg = NoGroup)
    then Some (seedBracketEntries (es_entryId <$> sortEntrySeeds entrySeeds) tc) else None in
  let groups :=
    if bool_decide (t_groupMode cfg = NoGroup) then []
    else groupInsert <$> buildGroupRows cfg entrySeeds in
  let bracket := built cfg seeded in
  rebuildTournamentStructure cfg entrySeeds tables =
  Ok (mkStructure
        (mkTables (kt_matches bracket)
           (if isOfficialH2HTournament cfg then [] else kt_legs bracket))
        (mkRaceTables groups [] [])).
Proof.
  intros seeded groups bracket.
  assert (seeded_round_one cfg entrySeeds = seeded) as Hs.
  { unfold seeded_round_one. rewrite (bc_teams _ _ _ _ Hbc), (bool_decide_eq_true_2 _ Hko).
    pose proof (bc_two _ _ _ _ Hbc). unfold seeded.
    destruct (bool_decide (t_groupMode cfg = NoGroup)); simpl; [|done].
    by destruct (Z.eqb_spec tc 0); [lia|]. }
  unfold rebuildTournamentStructure. rewrite Hs, (bool_decide_eq_false_2 _ Hko). cbn zeta.
  unfold upsert_matches, throw_when. rewrite match_rows_whole. simpl negb. cbn iota.
  cbn [result_bind delete_structure tb_knockout tb_races kt_matches kt_legs rt_groups rt_points rt_battles].
  fold groups. unfold upsert_groups, upsert_legs.
  pose proof (built_tables _ _ _ _ Hbc seeded) as Ht.
  rewrite !upsert_batch_fresh; simpl; [done|..].
  - unfold groups. case_bool_decide; [constructor|]. by apply group_keys_NoDup.
  - destruct (isOfficialH2HTournament cfg); [constructor|].
    apply (table_leg_keys_NoDup _ _ _ _ Hbc _ Ht).
  - pose proof (table_ids _ _ _ _ Hbc _ Ht) as Hids. simpl in Hids. rewrite Hids. apply NoDup_seqZ.
Qed.

Lemma rebuildTournamentStructure_fresh_witness :
  let stale := mkStructure (built sample_cfg None) sample_race in
  is_ok (rebuildTournamentStructure sample_cfg
           [mkEntrySeed 11 (Some 5); mkEntrySeed 12 None; mkEntrySeed 13 (Some 2)] stale) = true.
Proof.
  pose proof (rebuildTournamentStructure_fresh sample_cfg 4 5 1
    [mkEntrySeed 11 (Some 5); mkEntrySeed 12 None; mkEntrySeed 13 (Some 2)]
    (mkStructure (built sample_cfg None) sample_race) sample_bracket) as H.
  cbv zeta in *. rewrite H; [reflexivity|discriminate|].
  apply (bool_decide_unpack _). vm_compute. exact I.
Defined.
