(* ===== verification/OfficialPublish.v ===== *)
(** * Publishing the official head-to-head mirror ([src/repositories/tournament-official-h2h.ts],
      [src/services/tournament-official-h2h.service.ts])

    A sync reads the league, projects it with [OfficialH2H.v], and writes the rows of one tournament
    in one transaction, under the row lock of the tournament.  The result tables of a mirrored
    tournament hold official rows only: a rebuild leaves them empty ([Structure.v]).  So the [SET]
    list of an upsert, which names every column of such a row but its key, replaces the row.

    The foreign keys are parameters.  Differences from local results are logged only and are left
    out. *)

From S2P Require Import Prelude JsCollections JsNumber Postgres Tournament Seeding GroupDraw Bracket.
From S2P Require Import Planner KnockoutSync Races OfficialH2H Structure.

(** ** Tables *)

(** The columns of the tournament that the publication uses.
    src: src/db/schemas/platform.schema.ts:774-782 tournamentsInCompetition *)
Record OfficialSchedule {hash : Type} := mkSchedule {
  os_hash : option hash;
  os_syncedAt : option Z;
  os_lockedAt : option Z;
}.
Arguments OfficialSchedule : clear implicits.
Arguments mkSchedule {hash}.

(** The rows of one tournament; [of_schedule] is [None] when the tournament is gone. *)
Record OfficialTables {hash : Type} := mkOfficial {
  of_schedule : option (OfficialSchedule hash);
  of_battles : list OfficialBattleRow;
  of_knockouts : list OfficialKnockoutRow;
  of_groups : list GroupRow;
  of_matches : list KMatch;
}.
Arguments OfficialTables : clear implicits.
Arguments mkOfficial {hash}.

#[export] Instance OfficialBattleRow_eq_dec : EqDecision OfficialBattleRow.
Proof. solve_decision. Defined.
#[export] Instance OfficialKnockoutRow_eq_dec : EqDecision OfficialKnockoutRow.
Proof. solve_decision. Defined.

Section publish.
Context {hash : Type} `{!EqDecision hash}.
Context (contentHash : list (Z * Z * Z * option Z * option Z * bool) → hash).
Context (eventExists entryExists : Z → bool).     (* the foreign keys *)
Implicit Types (s : OfficialTables hash) (t : TournamentSyncContext).

(** src: src/repositories/tournament-official-h2h.ts:20-28 OfficialH2HPublication *)
Record OfficialH2HPublication := mkPublication {
  op_rows : OfficialRows hash;
  op_checkedAt : Z;
  op_lockSchedule : bool;
  op_groupRows : list GroupRow;
}.

(** [home_entry_id <> away_entry_id], where both are known. *)
Definition distinct_sides (home away : option Z) : bool :=
  match home, away with Some h, Some a => negb (h =? a) | _, _ => true end.

(** One side of a result: an average side has no entry, another has one.
    src: src/db/schemas/platform.schema.ts:2343-2346 tournamentBattleGroupResultsInCompetition *)
Definition side_contract (isAverage : bool) (entryId : option Z) : bool :=
  if isAverage then is_null entryId else match entryId with Some e => 0 <? e | None => false end.

(** src: src/db/schemas/platform.schema.ts:2335-2350 tournamentBattleGroupResultsInCompetition *)
Definition battle_checks (b : OfficialBattleRow) : bool :=
  distinct_sides (ob_homeEntryId b) (ob_awayEntryId b) &&
  (0 <? ob_groupId b) && (0 <? ob_eventId b) && (0 <? ob_officialMatchId b) && (0 <=? ob_sourceOrder b) &&
  side_contract (ob_homeIsAverage b) (ob_homeEntryId b) &&
  side_contract (ob_awayIsAverage b) (ob_awayEntryId b) &&
  negb (ob_homeIsAverage b && ob_awayIsAverage b) &&
  eventExists (ob_eventId b) && null_or entryExists (ob_homeEntryId b) &&
  null_or entryExists (ob_awayEntryId b).

(** src: src/db/schemas/platform.schema.ts:2552-2563 tournamentKnockoutResultsInCompetition *)
Definition knockout_checks (k : OfficialKnockoutRow) : bool :=
  (0 <? ok_eventId k) && (0 <? ok_matchId k) && (0 <? ok_playAgainstId k) &&
  distinct_sides (ok_homeEntryId k) (ok_awayEntryId k) &&
  (0 <? ok_officialMatchId k) && (0 <=? ok_sourceOrder k) &&
  eventExists (ok_eventId k) && null_or entryExists (ok_homeEntryId k) &&
  null_or entryExists (ok_awayEntryId k) && null_or entryExists (ok_matchWinner k).

(** src: src/db/schemas/platform.schema.ts:2328-2334 tournamentBattleGroupResultsInCompetition *)
Definition battle_business (b : OfficialBattleRow) : Z * Z * Z * Z :=
  (ob_groupId b, ob_eventId b, ob_homeIndex b, ob_awayIndex b).

(** src: src/db/schemas/platform.schema.ts:2546-2551 tournamentKnockoutResultsInCompetition *)
Definition knockout_business (k : OfficialKnockoutRow) : Z * Z * Z :=
  (ok_eventId k, ok_matchId k, ok_playAgainstId k).

(** One statement that replaces rows, in a table that another constraint keeps unique on [business]. *)
Definition upsert_statement {A K B : Type} `{EqDecision K} `{EqDecision B} (key : A → K)
    (business : A → B) (checks : A → bool) (rows table : list A) : result (list A) :=
  let* result := upsert_returning key (λ _ row, row) (λ x y, bool_decide (business x = business y)) checks
                   (λ _, true) "TOURNAMENT_OFFICIAL_H2H_PUBLISH_ERROR" rows table in
  Ok result.1.

(** src: src/repositories/tournament-official-h2h.ts:147-154 publish *)
Definition knockout_changed (existing incoming : OfficialKnockoutRow) : bool :=
  negb (ok_eventId existing =? ok_eventId incoming) ||
  negb (ok_matchId existing =? ok_matchId incoming) ||
  negb (ok_playAgainstId existing =? ok_playAgainstId incoming) ||
  negb (ok_sourceOrder existing =? ok_sourceOrder incoming) ||
  (negb (is_null (ok_homeEntryId existing)) && negb (opt_eqb (ok_homeEntryId existing) (ok_homeEntryId incoming))) ||
  (negb (is_null (ok_awayEntryId existing)) && negb (opt_eqb (ok_awayEntryId existing) (ok_awayEntryId incoming))) ||
  (negb (is_null (ok_knockoutName existing)) &&
   negb (bool_decide (ok_knockoutName existing = ok_knockoutName incoming))).

(** src: src/repositories/tournament-official-h2h.ts:110-161 publish *)
Definition check_knockouts (rows existing : list OfficialKnockoutRow) : result unit :=
  let incomingByMatchId := map_by ok_officialMatchId rows in
  for_each (λ k, match map_get (ok_officialMatchId k) incomingByMatchId with
                 | Some incoming => reject_if knockout_changed k incoming
                     with_code "TOURNAMENT_OFFICIAL_H2H_KNOCKOUT_CHANGED" ;; Ok ()
                 | None => Ok ()
                 end) existing.

(** A bracket row as the repository of matches takes it; wins are counted in halves there. *)
Definition match_of_bracket (b : OfficialBracketRow) : KMatch :=
  {| m_round := bk_round b;
     m_startedEventId := bk_startedEventId b;
     m_endedEventId := bk_endedEventId b;
     m_matchId := bk_matchId b;
     m_nextMatchId := bk_nextMatchId b;
     m_homeEntryId := bk_homeEntryId b;
     m_homeNetPoints := bk_homeNetPoints b;
     m_homeGoalsScored := None;
     m_homeGoalsConceded := None;
     m_homeWins := Some (2 * bk_homeWins b);
     m_awayEntryId := bk_awayEntryId b;
     m_awayNetPoints := bk_awayNetPoints b;
     m_awayGoalsScored := None;
     m_awayGoalsConceded := None;
     m_awayWins := Some (2 * bk_awayWins b);
     m_roundWinner := bk_roundWinner b |}.

(** A schedule is locked by the first publication that asks for it.
    src: src/repositories/tournament-official-h2h.ts:202-206 publish *)
Definition next_schedule (current : OfficialSchedule hash) (publication : OfficialH2HPublication)
    : OfficialSchedule hash :=
  mkSchedule (Some (or_scheduleHash (op_rows publication))) (Some (op_checkedAt publication))
    (nullish_or (os_lockedAt current)
       (if op_lockSchedule publication then Some (op_checkedAt publication) else None)).

(** A hash is a nonempty text.
    src: src/repositories/tournament-official-h2h.ts:60-69 publish *)
Definition schedule_conflict (current : OfficialSchedule hash) (scheduleHash : hash) : bool :=
  negb (is_null (os_lockedAt current)) &&
  match os_hash current with Some h => negb (bool_decide (h = scheduleHash)) | None => false end.

(** src: src/repositories/tournament-official-h2h.ts:38-236 publish *)
Definition publish_body (publication : OfficialH2HPublication) s
    : result (OfficialTables hash * (Z * Z * Z)) :=
  match of_schedule s with
  | None => Throw "TOURNAMENT_OFFICIAL_H2H_NOT_FOUND"
  | Some current =>
      let rows := op_rows publication in
      reject_if schedule_conflict current (or_scheduleHash rows)
        with_code "TOURNAMENT_OFFICIAL_H2H_SCHEDULE_CHANGED" ;;
      let* battles := upsert_statement ob_officialMatchId battle_business battle_checks
                        (or_battleRows rows) (of_battles s) in
      let* _ := check_knockouts (or_knockoutRows rows)
                  (filter (λ k, ok_officialMatchId k ∈ ok_officialMatchId <$> or_knockoutRows rows)
                     (of_knockouts s)) in
      let* knockouts := upsert_statement ok_officialMatchId knockout_business knockout_checks
                          (or_knockoutRows rows) (of_knockouts s) in
      let groups := upsert_groups (op_groupRows publication) (of_groups s) in
      let* matches := upsert_matches (match_of_bracket <$> or_bracketRows rows) (of_matches s) in
      Ok (mkOfficial (Some (next_schedule current publication)) battles knockouts groups matches,
          (Z.of_nat (length (or_battleRows rows)), Z.of_nat (length (or_knockoutRows rows)),
           Z.of_nat (length (op_groupRows publication))))
  end.

(** src: src/repositories/tournament-official-h2h.ts:31-246 publish *)
Definition publish (publication : OfficialH2HPublication)
    : OfficialTables hash → OfficialTables hash * result (Z * Z * Z) :=
  transaction (publish_body publication).

(** ** The sync *)

(** The checks of the standings and of the stored group.
    src: src/services/tournament-official-h2h.service.ts:488-517 syncOfficialH2HTournament *)
Definition check_roster (entryIds : list Z) (standings : list (Z * Standing))
    (currentGroups : list GroupRow) : result unit :=
  let entryIdSet := dedup entryIds in
  reject_if negb (is_nil standings) && negb (length standings =? length entryIdSet)%nat
    with_code "TOURNAMENT_OFFICIAL_H2H_STANDINGS_INCOMPLETE" ;;
  let* _ := for_each (λ standing, reject_if negb (bool_decide (standing.1 ∈ entryIdSet))
                       with_code "TOURNAMENT_OFFICIAL_H2H_ROSTER_MISMATCH" ;; Ok ()) standings in
  reject_if negb (length currentGroups =? length entryIdSet)%nat ||
            existsb (λ g, negb (bool_decide (gr_entry_id g ∈ entryIdSet))) currentGroups
    with_code "TOURNAMENT_OFFICIAL_H2H_GROUP_MISMATCH" ;;
  Ok ().

(** What a sync publishes, from the league it read.
    src: src/services/tournament-official-h2h.service.ts:548-562 syncOfficialH2HTournament *)
Definition publication_of_snapshot t (entryIds : list Z) (db : list EventResultRow)
    (reconcileEventId : option Z) (checkedAt : Z) (currentGroups : list GroupRow)
    (snapshot : SourceSnapshot) : result OfficialH2HPublication :=
  let* officialRows := buildOfficialH2HRows contentHash t (list_to_set entryIds) snapshot checkedAt in
  let totalsByEntry := aggregateTotalsByEntry entryIds (nullish (t_groupStartedEventId t) 1)
                         (nullish (nullish_or (t_groupEndedEventId t) reconcileEventId) 38) db in
  let groupRows := projectOfficialH2HStandings currentGroups (ss_standings snapshot) (Some totalsByEntry) in
  Ok (mkPublication officialRows checkedAt
        (existsb (λ m : SourceMatch, negb (isOfficialKnockoutMatch m)) (ss_matches snapshot)) groupRows).

(** Everything before the publication; it does not write.
    src: src/services/tournament-official-h2h.service.ts:477-562 syncOfficialH2HTournament *)
Definition prepare_sync (getLeagueH2HStandings : nat → result StandingsPage)
    (getLeagueH2HMatches : nat → result MatchesPage) t (entryIds : list Z) (db : list EventResultRow)
    (reconcileEventId : option Z) (checkedAt : Z) s : result OfficialH2HPublication :=
  reject_if negb (isOfficialH2HTournament t) || negb (truthy (t_leagueId t))
    with_code "TOURNAMENT_OFFICIAL_H2H_REQUIRED" ;;
  let* snapshot := fetchOfficialH2HSourceSnapshot getLeagueH2HStandings getLeagueH2HMatches in
  let currentGroups := find_groups entryIds (of_groups s) in
  let* _ := check_roster entryIds (ss_standings snapshot) currentGroups in
  publication_of_snapshot t entryIds db reconcileEventId checkedAt currentGroups snapshot.

(** The updated groups, the updated results and the skipped ones.
    src: src/services/tournament-official-h2h.service.ts:472-575 syncOfficialH2HTournament *)
Definition syncOfficialH2HTournament (getLeagueH2HStandings : nat → result StandingsPage)
    (getLeagueH2HMatches : nat → result MatchesPage) t (entryIds : list Z) (db : list EventResultRow)
    (reconcileEventId : option Z) (checkedAt : Z) s : OfficialTables hash * result (Z * Z * Z) :=
  match prepare_sync getLeagueH2HStandings getLeagueH2HMatches t entryIds db reconcileEventId checkedAt s with
  | Throw e => (s, Throw e)
  | Ok publication =>
      let '(s, published) := publish publication s in
      (s, let* counts := published in Ok (counts.2, counts.1.1 + counts.1.2, 0))
  end.
End publish.
Arguments OfficialH2HPublication : clear implicits.

(** ** Lemmas *)

(** Writing rows over rows with the same keys, in order, leaves the written rows. *)
Lemma upsert_batch_over {A K : Type} `{EqDecision K} (key : A → K) (rows table : list A) :
  NoDup (key <$> rows) → key <$> table = key <$> rows →
  upsert_batch key (λ _ row, row) rows table = rows.
Proof.
  unfold upsert_batch. revert table. induction rows as [|r rows IH]; intros table Hnd Hk.
  { by apply fmap_nil_inv in Hk. }
  destruct table as [|o table]; [done|]. cbn in Hk, Hnd. injection Hk as Ho Hk. apply NoDup_cons in Hnd as [Hr Hnd].
  cbn. rewrite decide_True by done.
  assert (∀ rows' table', key r ∉ key <$> rows' →
    fold_left (λ t row, upsert key (λ _ row, row) row t) rows' (r :: table') =
    r :: fold_left (λ t row, upsert key (λ _ row, row) row t) rows' table') as Hskip.
  { induction rows' as [|x rows' IH']; intros table' Hx; [done|]. cbn in Hx |- *.
    rewrite decide_False by set_solver. apply IH'. set_solver. }
  rewrite Hskip by done. f_equal. by apply IH.
Qed.

Lemma upsert_statement_ok {A K B : Type} `{EqDecision K} `{EqDecision B} (key : A → K) (business : A → B)
    checks rows table table' :
  upsert_statement key business checks rows table = Ok table' →
  NoDup (key <$> rows) ∧ table' = upsert_batch key (λ _ row, row) rows table ∧ forallb checks rows = true.
Proof.
  intros H. apply result_bind_ok in H as ([t ws] & H & [= <-]).
  apply upsert_returning_ok in H as (Hnd & -> & -> & Hc & _); [|done].
  rewrite (list_fmap_ext _ id), list_fmap_id in Hc; [done|]. intros i r _. apply written_row_replace.
Qed.

(** Reading after a batch that replaces rows. *)
Lemma find_by_batch {A K : Type} `{EqDecision K} (key : A → K) k (rows table : list A) :
  NoDup (key <$> rows) →
  find_by key k (upsert_batch key (λ _ row, row) rows table) =
    match find_by key k rows with Some r => Some r | None => find_by key k table end.
Proof.
  intros Hnd. rewrite find_by_upsert_batch by done. destruct (find_by key k rows) as [r|]; [|done].
  unfold written_row. by destruct (find_by key (key r) table).
Qed.

Lemma batch_NoDup {A K : Type} `{EqDecision K} (key : A → K) (rows table : list A) :
  NoDup (key <$> table) → NoDup (key <$> upsert_batch key (λ _ row, row) rows table).
Proof.
  unfold upsert_batch. revert table. induction rows as [|r rows IH]; intros table Hnd; [done|]. cbn.
  apply IH. clear IH rows. induction table as [|o table IHt]; cbn; [by apply NoDup_singleton|].
  cbn in Hnd. apply NoDup_cons in Hnd as [Ho Hnd]. destruct (decide (key o = key r)) as [He|He]; cbn.
  { rewrite <-He. by apply NoDup_cons. }
  apply NoDup_cons. split; [|by apply IHt]. intros Hin. apply Ho. clear -Hin He.
  induction table as [|x table IH]; cbn in Hin |- *; [set_solver|].
  destruct (decide (key x = key r)) as [Hx|Hx]; cbn in Hin; [|set_solver].
  rewrite Hx. set_solver.
Qed.

Section regular_rows.
Context (t : TournamentSyncContext) (checkedAt : Z).

(** The regular matches of a league. *)
Definition regular_matches (ms : list SourceMatch) : list SourceMatch :=
  filter (λ m : SourceMatch, isOfficialKnockoutMatch m = false) ms.

Lemma project_matches_battles ms s s' :
  project_matches t checkedAt ms s = Ok s' →
  rs_battleRows s' = rs_battleRows s ++ (battle_row t checkedAt <$> regular_matches ms).
Proof.
  revert s. induction ms as [|m ms IH]; intros s H; cbn in H.
  { injection H as <-. by rewrite app_nil_r. }
  unfold regular_matches. destruct (isOfficialKnockoutMatch m) eqn:E; cbn in H.
  - inv_ok. apply IH in H0. rewrite filter_cons_False by congruence. done.
  - apply IH in H. cbn [rs_battleRows] in H. rewrite H, filter_cons_True by done. by rewrite <-app_assoc.
Qed.
End regular_rows.

Section built_rows.
Context {hash : Type} (contentHash : list (Z * Z * Z * option Z * option Z * bool) → hash).

Lemma build_regular t entryIds snapshot checkedAt rows :
  buildOfficialH2HRows contentHash t entryIds snapshot checkedAt = Ok rows →
  or_battleRows rows = battle_row t checkedAt <$> regular_matches (ss_matches snapshot) ∧
  or_scheduleHash rows = contentHash (schedule_key <$> regular_matches (ss_matches snapshot)).
Proof.
  unfold buildOfficialH2HRows. intros H. inv_ok. cbn. split; [|done].
  match goal with H : project_matches _ _ _ _ = Ok _ |- _ => by apply project_matches_battles in H end.
Qed.

Lemma no_regular ms :
  existsb (λ m : SourceMatch, negb (isOfficialKnockoutMatch m)) ms = false → regular_matches ms = [].
Proof.
  intros H. apply filter_none. intros m Hm. rewrite existsb_false in H. specialize (H m Hm).
  apply negb_false_iff in H. congruence.
Qed.
End built_rows.

(** What the hash covers of a stored row. *)
Definition battle_schedule (b : OfficialBattleRow) : Z * Z * Z * option Z * option Z * bool :=
  (ob_officialMatchId b, ob_eventId b, ob_sourceOrder b, ob_homeEntryId b, ob_awayEntryId b, ob_isBye b).

Lemma battle_schedule_row t checkedAt (ms : list SourceMatch) :
  battle_schedule <$> (battle_row t checkedAt <$> ms) = schedule_key <$> ms.
Proof. rewrite <-list_fmap_compose. by apply list_fmap_ext. Qed.

Lemma schedule_ids (bs bs' : list OfficialBattleRow) :
  battle_schedule <$> bs = battle_schedule <$> bs' → ob_officialMatchId <$> bs = ob_officialMatchId <$> bs'.
Proof.
  intros H. assert (∀ l : list OfficialBattleRow, ob_officialMatchId <$> l = (λ k, k.1.1.1.1.1) <$> (battle_schedule <$> l)) as Hf.
  { intros l. by rewrite <-list_fmap_compose. }
  by rewrite !Hf, H.
Qed.

(** ** Any sequence of syncs and rebuilds *)

Section mirror.
Context {hash : Type} `{!EqDecision hash}.
Context (contentHash : list (Z * Z * Z * option Z * option Z * bool) → hash).
Context (eventExists entryExists : Z → bool).
Implicit Types (s : OfficialTables hash).

(** A sync, successful or not, of whatever the league says then; or a rebuild of the structure, which
    empties the result tables and draws the others anew. *)
Inductive mirror_step s : OfficialTables hash → Prop :=
| ms_sync getStandings getMatches t entryIds db reconcileEventId checkedAt :
    mirror_step s (syncOfficialH2HTournament contentHash eventExists entryExists getStandings getMatches
                     t entryIds db reconcileEventId checkedAt s).1
| ms_rebuild groups matches :
    mirror_step s (mkOfficial (of_schedule s) [] [] groups matches).

(** What every reachable state satisfies: the stored results follow the locked schedule. *)
Record mirrored s : Prop := {
  mr_battles : NoDup (ob_officialMatchId <$> of_battles s);
  mr_knockouts : NoDup (ok_officialMatchId <$> of_knockouts s);
  mr_unlocked sched : of_schedule s = Some sched → os_lockedAt sched = None → of_battles s = [];
  mr_locked sched time : of_schedule s = Some sched → os_lockedAt sched = Some time →
    ∃ ks, os_hash sched = Some (contentHash ks) ∧
      (of_battles s = [] ∨ battle_schedule <$> of_battles s = ks);
}.

(** A publication that commits. *)
Record published (publication : OfficialH2HPublication hash) (current : OfficialSchedule hash)
    s s' : Prop := {
  pu_current : of_schedule s = Some current;
  pu_agrees : schedule_conflict current (or_scheduleHash (op_rows publication)) = false;
  pu_next : of_schedule s' = Some (next_schedule current publication);
  pu_battles : of_battles s' =
    upsert_batch ob_officialMatchId (λ _ row, row) (or_battleRows (op_rows publication)) (of_battles s);
  pu_battle_ids : NoDup (ob_officialMatchId <$> or_battleRows (op_rows publication));
  pu_knockouts : of_knockouts s' =
    upsert_batch ok_officialMatchId (λ _ row, row) (or_knockoutRows (op_rows publication)) (of_knockouts s);
  pu_knockout_ids : NoDup (ok_officialMatchId <$> or_knockoutRows (op_rows publication));
  pu_frozen k : k ∈ of_knockouts s → ∀ row,
    find_by ok_officialMatchId (ok_officialMatchId k) (or_knockoutRows (op_rows publication)) = Some row →
    knockout_changed k row = false;
  pu_groups : of_groups s' = upsert_groups (op_groupRows publication) (of_groups s);
}.

Lemma publish_ok publication s s' counts :
  publish eventExists entryExists publication s = (s', Ok counts) →
  ∃ current, published publication current s s'.
Proof.
  intros H%transaction_ok. unfold publish_body in H. destruct (of_schedule s) as [current|] eqn:Hs; [|done].
  exists current. inv_ok. cbn in *.
  match goal with H : upsert_statement ob_officialMatchId _ _ _ _ = _ |- _ =>
    apply upsert_statement_ok in H as (Hb & -> & _) end.
  match goal with H : upsert_statement ok_officialMatchId _ _ _ _ = _ |- _ =>
    apply upsert_statement_ok in H as (Hk & -> & _) end.
  split; try done. intros k Hin row Hrow.
  match goal with H : check_knockouts _ _ = _ |- _ => unfold check_knockouts in H; rewrite for_each_ok in H;
    specialize (H k) end.
  rewrite map_get_map_by, Hrow in H1 by done. apply throw_when_ok in H1 as [H1 _]; [done|].
  apply list_elem_of_filter. split; [|done]. apply find_by_Some in Hrow as [Hin' <-].
  by apply list_elem_of_fmap_2.
Qed.

Lemma sync_cases getStandings getMatches t entryIds db reconcileEventId checkedAt s s' r :
  syncOfficialH2HTournament contentHash eventExists entryExists getStandings getMatches t entryIds db
    reconcileEventId checkedAt s = (s', r) →
  (∃ e, r = Throw e ∧ s' = s) ∨
  ∃ snapshot publication counts, r = Ok counts ∧
    fetchOfficialH2HSourceSnapshot getStandings getMatches = Ok snapshot ∧
    publication_of_snapshot contentHash t entryIds db reconcileEventId checkedAt
      (find_groups entryIds (of_groups s)) snapshot = Ok publication ∧
    ∃ current, published publication current s s'.
Proof.
  unfold syncOfficialH2HTournament. destruct (prepare_sync _ _ _ _ _ _ _ _ _) as [publication|e] eqn:Hp.
  2: { intros [= <- <-]. left. by eexists. }
  destruct (publish _ _ _ s) as [s1 [counts|e]] eqn:E; intros [= <- <-].
  - right. unfold prepare_sync in Hp. inv_ok. apply publish_ok in E. by eexists _, publication, _.
  - left. apply transaction_throw in E as [_ ->]. by eexists.
Qed.

(** The battle rows after a sync are those of the snapshot, and the schedule is its schedule. *)
Lemma published_mirrored t entryIds db reconcileEventId checkedAt groups snapshot publication current s s' :
  Inj (=) (=) contentHash →
  publication_of_snapshot contentHash t entryIds db reconcileEventId checkedAt groups snapshot =
    Ok publication →
  published publication current s s' → mirrored s →
  of_battles s' = battle_row t checkedAt <$> regular_matches (ss_matches snapshot) ∧ mirrored s'.
Proof.
  intros Hinj Hp Hpub Hs. unfold publication_of_snapshot in Hp. inv_ok.
  match goal with H : buildOfficialH2HRows _ _ _ _ _ = _ |- _ => apply build_regular in H as [Hrows Hhash] end.
  destruct Hpub as [Hc Hagree Hnext Hb Hbid Hk Hkid _ _]. cbn in *. rewrite Hrows in *.
  set (rows := battle_row t checkedAt <$> regular_matches (ss_matches snapshot)) in *.
  assert (battle_schedule <$> rows = schedule_key <$> regular_matches (ss_matches snapshot)) as Hsched
    by apply battle_schedule_row.
  assert (os_lockedAt current ≠ None → ∀ ks, os_hash current = Some (contentHash ks) →
    ks = schedule_key <$> regular_matches (ss_matches snapshot)) as Hks.
  { intros Hl ks Hh. unfold schedule_conflict in Hagree. rewrite Hh in Hagree.
    destruct (os_lockedAt current); [|done]. cbn in Hagree.
    apply negb_false_iff, bool_decide_eq_true in Hagree. rewrite Hhash in Hagree. by apply Hinj. }
  assert (of_battles s' = rows) as Hrows'.
  { rewrite Hb. destruct (os_lockedAt current) as [time|] eqn:Hl.
    - destruct (mr_locked s Hs current time Hc Hl) as (ks & Hh & [->|He]).
      + by rewrite upsert_batch_fresh.
      + apply upsert_batch_over; [done|]. apply schedule_ids. rewrite He, Hsched. by apply Hks.
    - rewrite (mr_unlocked s Hs current Hc Hl). by rewrite upsert_batch_fresh. }
  split; [done|]. split.
  - by rewrite Hrows'.
  - rewrite Hk. apply batch_NoDup, Hs.
  - intros sched. rewrite Hnext. intros [= <-]. cbn. rewrite Hrows'. destruct (os_lockedAt current); [done|].
    cbn. destruct (existsb _ _) eqn:E; [done|]. intros _. unfold rows. by rewrite no_regular.
  - intros sched time. rewrite Hnext. intros [= <-]. cbn. intros _. rewrite Hhash.
    eexists. split; [done|]. right. by rewrite Hrows', Hsched.
Qed.

Lemma mirror_step_ok s s' : Inj (=) (=) contentHash → mirror_step s s' → mirrored s → mirrored s'.
Proof.
  intros Hinj Hstep Hs. destruct Hstep as [getStandings getMatches t entryIds db reconcileEventId checkedAt|groups matches].
  - destruct (syncOfficialH2HTournament _ _ _ _ _ _ _ _ _ _ s) as [s' r] eqn:E.
    apply sync_cases in E as [(e & _ & ->)|(snapshot & publication & counts & _ & _ & Hp & current & Hpub)]; [done|].
    by eapply published_mirrored.
  - destruct Hs as [_ _ Hu Hl]. split; cbn; [by constructor|by constructor|done|].
    intros sched time Hs Ht. destruct (Hl sched time Hs Ht) as (ks & Hh & _). exists ks. auto.
Qed.

(** The lock of the schedule is kept. *)
Lemma mirror_step_lock s s' sched time :
  mirror_step s s' → of_schedule s = Some sched → os_lockedAt sched = Some time → is_Some (os_hash sched) →
  ∃ sched', of_schedule s' = Some sched' ∧ os_hash sched' = os_hash sched ∧ os_lockedAt sched' = Some time.
Proof.
  intros Hstep Hs Ht [h Hh]. destruct Hstep as [getStandings getMatches t entryIds db reconcileEventId checkedAt|groups matches].
  - destruct (syncOfficialH2HTournament _ _ _ _ _ _ _ _ _ _ s) as [s' r] eqn:E.
    apply sync_cases in E as [(e & _ & ->)|(snapshot & publication & counts & _ & _ & Hp & current & Hpub)];
      [by exists sched|].
    destruct Hpub as [Hc Hagree Hnext _ _ _ _ _ _]. rewrite Hs in Hc. injection Hc as <-.
    exists (next_schedule sched publication). split; [done|]. cbn. rewrite Ht. split; [|done].
    unfold schedule_conflict in Hagree. rewrite Ht, Hh in Hagree. cbn in Hagree.
    apply negb_false_iff, bool_decide_eq_true in Hagree. by rewrite Hh, Hagree.
  - by exists sched.
Qed.
End mirror.

(** ** Properties *)

(** C24: once the schedule of a mirrored league is locked, it stays: whatever the league says at later
    syncs, in whatever order they run, fail or alternate with rebuilds, the hash and the lock time of
    the tournament never change, and the stored results (absent after a rebuild, until the next sync)
    follow match by match the one schedule the hash was taken of: ids, gameweeks, order, sides, byes. *)
Theorem official_schedule_locked {hash : Type} `{!EqDecision hash}
    (contentHash : list (Z * Z * Z * option Z * option Z * bool) → hash)
    (eventExists entryExists : Z → bool) (s0 s : OfficialTables hash) (sched : OfficialSchedule hash)
    (time : Z)
    (Hinj : Inj (=) (=) contentHash)
    (Hempty : of_battles s0 = [] ∧ of_knockouts s0 = [])
    (Hunlocked : of_schedule s0 = Some (mkSchedule None None None))
    (Hreach : rtc (mirror_step contentHash eventExists entryExists) s0 s)
    (Hsched : of_schedule s = Some sched) (Hlocked : os_lockedAt sched = Some time) :
  ∃ ks, os_hash sched = Some (contentHash ks) ∧
    ∀ s', rtc (mirror_step contentHash eventExists entryExists) s s' →
      (∃ sched', of_schedule s' = Some sched' ∧ os_hash sched' = os_hash sched ∧
         os_lockedAt sched' = Some time) ∧
      (of_battles s' = [] ∨ battle_schedule <$> of_battles s' = ks).
Proof.
  assert (mirrored contentHash s) as Hs.
  { assert (mirrored contentHash s0) as H0.
    { destruct Hempty as [Hb Hk]. split; rewrite ?Hb, ?Hk; try by constructor.
      intros sched0 time0. rewrite Hunlocked. by intros [= <-]. }
    clear Hsched Hlocked Hempty Hunlocked. induction Hreach; [done|]. apply IHHreach. by eapply mirror_step_ok. }
  destruct (mr_locked _ _ Hs sched time Hsched Hlocked) as (ks & Hh & _).
  exists ks. split; [done|]. intros s' Hlater.
  assert (mirrored contentHash s' ∧ ∃ sched', of_schedule s' = Some sched' ∧ os_hash sched' = os_hash sched ∧
         os_lockedAt sched' = Some time) as [Hs' (sched' & Hsc & Hh' & Ht')].
  { clear Hreach. induction Hlater as [s|s s1 s2 Hstep _ IH] in sched, Hs, Hsched, Hlocked, Hh |- *.
    { split; [done|by exists sched]. }
    destruct (mirror_step_lock _ _ _ _ _ _ _ Hstep Hsched Hlocked ltac:(by rewrite Hh))
      as (sched1 & Hs1 & Hh1 & Ht1).
    destruct (IH sched1) as [H1 (sched' & ? & Heq & ?)]; [done|done|by eapply mirror_step_ok|congruence|].
    split; [done|]. exists sched'. split_and!; congruence. }
  split; [by exists sched'|].
  destruct (mr_locked _ _ Hs' sched' time Hsc Ht') as (ks' & Hks' & Hb).
  assert (contentHash ks' = contentHash ks) as Heq%Hinj by congruence. by rewrite <-Heq.
Qed.

(** a sync either throws and changes nothing, or stores the league as it was read: every regular
    match is a result row with its scores, and there are no others; every knockout match is a row
    under its official id, and no knockout row stored before moved to another gameweek, slot or
    place, or lost an entry it had; the group rows of the roster carry the official standings. *)
Theorem syncOfficialH2HTournament_stores {hash : Type} `{!EqDecision hash}
    (contentHash : list (Z * Z * Z * option Z * option Z * bool) → hash)
    (eventExists entryExists : Z → bool) (getStandings : nat → result StandingsPage)
    (getMatches : nat → result MatchesPage) (t : TournamentSyncContext) (entryIds : list Z)
    (db : list EventResultRow) (reconcileEventId : option Z) (checkedAt : Z)
    (s s' : OfficialTables hash) (r : result (Z * Z * Z))
    (Hinj : Inj (=) (=) contentHash) (Hs : mirrored contentHash s)
    (Hsync : syncOfficialH2HTournament contentHash eventExists entryExists getStandings getMatches t
               entryIds db reconcileEventId checkedAt s = (s', r)) :
  match r with
  | Throw _ => s' = s
  | Ok _ => ∃ snapshot rows,
      fetchOfficialH2HSourceSnapshot getStandings getMatches = Ok snapshot ∧
      buildOfficialH2HRows contentHash t (list_to_set entryIds) snapshot checkedAt = Ok rows ∧
      of_battles s' = battle_row t checkedAt <$> regular_matches (ss_matches snapshot) ∧
      (∀ k, k ∈ or_knockoutRows rows →
         find_by ok_officialMatchId (ok_officialMatchId k) (of_knockouts s') = Some k) ∧
      (∀ k, k ∈ of_knockouts s → ∃ k',
         find_by ok_officialMatchId (ok_officialMatchId k) (of_knockouts s') = Some k' ∧
         ok_eventId k' = ok_eventId k ∧ ok_matchId k' = ok_matchId k ∧ ok_sourceOrder k' = ok_sourceOrder k ∧
         (ok_homeEntryId k = None ∨ ok_homeEntryId k' = ok_homeEntryId k) ∧
         (ok_awayEntryId k = None ∨ ok_awayEntryId k' = ok_awayEntryId k)) ∧
      ∃ totals, of_groups s' = upsert_groups
        (projectOfficialH2HStandings (find_groups entryIds (of_groups s)) (ss_standings snapshot) totals)
        (of_groups s)
  end.
Proof.
  apply sync_cases in Hsync as [(e & -> & ->)|(snapshot & publication & counts & -> & Hf & Hp & current & Hpub)]; [done|].
  destruct (published_mirrored _ _ _ _ _ _ _ _ _ _ _ _ Hinj Hp Hpub Hs) as [Hbattles _].
  unfold publication_of_snapshot in Hp. inv_ok.
  match goal with H : buildOfficialH2HRows _ _ _ _ _ = Ok ?x |- _ => exists snapshot, x end.
  destruct Hpub as [_ _ _ _ _ Hk Hkid Hfrozen Hgroups]. cbn in *.
  split_and!; [done|done|done| | |by eexists].
  - intros k Hin. rewrite Hk, find_by_batch by done. by rewrite (find_by_elem _ _ k Hkid Hin).
  - intros k Hin. rewrite Hk, find_by_batch by done. specialize (Hfrozen k Hin).
    destruct (find_by ok_officialMatchId (ok_officialMatchId k) _) as [row|] eqn:Hrow.
    + specialize (Hfrozen row eq_refl). exists row. split; [done|].
      unfold knockout_changed, opt_eqb in Hfrozen. boolsolve. split_and!; try lia.
      all: match goal with |- ?x = None ∨ _ => destruct x; [right|by left] end; cbn in *; boolsolve; congruence.
    + exists k. rewrite find_by_elem by (done || apply Hs). split_and!; auto.
Qed.

(** ** A concrete league *)

Definition sample_standings (page : nat) : result StandingsPage := Ok (mkStandingsPage false []).
Definition sample_matches (page : nat) : result MatchesPage :=
  Ok (mkMatchesPage false (sm_raw <$> ss_matches sample_snapshot)).

(** The hash of the sample is its argument. *)
Definition sample_hash : Type := list (Z * Z * Z * option Z * option Z * bool).

Definition sample_league : OfficialTables sample_hash :=
  mkOfficial (Some (mkSchedule None None None)) [] [] (sample_group <$> [10; 20; 30]) [].

Definition sample_sync (checkedAt : Z) (s : OfficialTables sample_hash)
    : OfficialTables sample_hash * result (Z * Z * Z) :=
  syncOfficialH2HTournament (λ l, l) (λ _, true) (λ _, true) sample_standings sample_matches
    sample_official [10; 20; 30] [] None checkedAt s.

Lemma sample_mirror_empty : mirrored (λ l, l) sample_league.
Proof.
  split; cbn; [by apply NoDup_nil_2|by apply NoDup_nil_2|done|]. intros sched time [= <-]. discriminate.
Qed.

Lemma official_schedule_locked_witness :
  let s := (sample_sync 5 sample_league).1 in
  let s' := (sample_sync 9 (mkOfficial (of_schedule s) [] [] (sample_group <$> [10; 20; 30]) [])).1 in
  ∃ sched', of_schedule s' = Some sched' ∧ os_lockedAt sched' = Some 5 ∧ length (of_battles s') = 4%nat.
Proof.
  cbn zeta. set (s := (sample_sync 5 sample_league).1).
  set (s1 := mkOfficial (of_schedule s) [] [] (sample_group <$> [10; 20; 30]) []).
  destruct (of_schedule s) as [sched|] eqn:Hs; [|vm_compute in Hs; discriminate].
  assert (os_lockedAt sched = Some 5) as Hl by (vm_compute in Hs; injection Hs as <-; reflexivity).
  destruct (official_schedule_locked (λ l, l) (λ _, true) (λ _, true) sample_league s sched 5
    ltac:(by intros x y) (conj eq_refl eq_refl) eq_refl) as (ks & Hks & Hall).
  - apply rtc_once. apply ms_sync.
  - exact Hs.
  - exact Hl.
  - destruct (Hall (sample_sync 9 s1).1) as [(sched' & Hsched & _ & Ht) _].
    { eapply rtc_l; [|apply rtc_once, ms_sync]. unfold s1. rewrite <-Hs. apply ms_rebuild. }
    exists sched'. split; [exact Hsched|]. split; [exact Ht|].
    unfold s1. rewrite <-Hs. vm_compute. reflexivity.
Defined.

Lemma syncOfficialH2HTournament_stores_witness :
  ∃ s' counts, sample_sync 5 sample_league = (s', Ok counts) ∧ length (of_battles s') = 4%nat ∧
    length (of_knockouts s') = 1%nat.
Proof.
  destruct (sample_sync 5 sample_league) as [s' [counts|e]] eqn:E; [|vm_compute in E; discriminate].
  exists s', counts. split; [reflexivity|].
  destruct (syncOfficialH2HTournament_stores (λ l, l) (λ _, true) (λ _, true) sample_standings sample_matches
    sample_official [10; 20; 30] [] None 5 sample_league s' (Ok counts) ltac:(by intros x y)
    sample_mirror_empty E) as (snapshot & rows & Hf & _ & Hb & _).
  split.
  - refine (eq_trans (f_equal length Hb) _). vm_compute in Hf. injection Hf as <-. vm_compute. reflexivity.
  - vm_compute in E. injection E as <- _. reflexivity.
Defined.
