(* ===== verification/LiveBonus.v ===== *)
(** * Live bonus points ([src/domain/live-bonus.ts])

    The provisional 3/2/1 bonus of a fixture, and its sum over the fixtures of a gameweek. *)

From S2P Require Import Prelude JsCollections.

(** src: src/types/index.ts:93-97 FixtureStat *)
Record StatItem := mkStatItem { si_value : Z; si_element : Z }.
Record FixtureStat := mkFixtureStat {
  fs_identifier : string;
  fs_a : list StatItem;
  fs_h : list StatItem;
}.

(** The fields of a fixture the bonus reads; [started] may be [null].
    src: src/types/index.ts:99-119 Fixture *)
Record BonusFixture := mkBonusFixture {
  bf_started : option bool;
  bf_finished : bool;
  bf_finishedProvisional : bool;
  bf_stats : list FixtureStat;
  bf_teamA : Z;
  bf_teamH : Z;
}.

(** src: src/domain/live-bonus.ts:41-45 BonusCandidate *)
Record BonusCandidate := mkCandidate { bc_elementId : Z; bc_teamId : Z; bc_value : Z }.

(** src: src/domain/live-bonus.ts:47-64 statCandidates *)
Definition statCandidates (stat : option FixtureStat) (fixture : BonusFixture)
    : list BonusCandidate :=
  match stat with
  | None => []
  | Some stat =>
      map (λ item, mkCandidate (si_element item) (bf_teamH fixture) (si_value item)) (fs_h stat) ++
      map (λ item, mkCandidate (si_element item) (bf_teamA fixture) (si_value item)) (fs_a stat)
  end.

(** The comparator [right.value - left.value]. *)
Definition compare_value : BonusCandidate → BonusCandidate → Z := by_key (λ c, - bc_value c).

(** Awards [bonus] to the candidates of [tierValue] at the head of [ranked]; returns the map and
    the number of candidates passed.
    src: src/domain/live-bonus.ts:77-85 awardTier *)
Fixpoint award_while (bonus tierValue : Z) (ranked : list BonusCandidate) (index : nat)
    (bonusByElement : list (Z * Z)) : list (Z * Z) * nat :=
  match ranked with
  | c :: ranked' =>
      if bc_value c =? tierValue
      then award_while bonus tierValue ranked' (S index) (map_set (bc_elementId c) bonus bonusByElement)
      else (bonusByElement, index)
  | [] => (bonusByElement, index)
  end.

(** src: src/domain/live-bonus.ts:77-85 awardTier *)
Definition awardTier (ranked : list BonusCandidate) (bonus : Z) (fromIndex : nat)
    (bonusByElement : list (Z * Z)) : list (Z * Z) * nat :=
  match ranked !! fromIndex with
  | Some c => award_while bonus (bc_value c) (drop fromIndex ranked) fromIndex bonusByElement
  | None => (bonusByElement, fromIndex)
  end.

(** src: src/domain/live-bonus.ts:69-95 calculateFixtureBonus *)
Definition calculateFixtureBonus (candidates : list BonusCandidate) : list (Z * Z) :=
  let ranked := js_sort compare_value (filter (λ c, 0 < bc_value c) candidates) in
  if is_nil ranked then [] else
  let '(bonus, index) := awardTier ranked 3 0 [] in
  if (3 <=? index)%nat || (length ranked <=? index)%nat then bonus else
  if (index =? 1)%nat then
    let '(bonus, index) := awardTier ranked 2 index bonus in
    if (3 <=? index)%nat || (length ranked <=? index)%nat then bonus else
    (awardTier ranked 1 index bonus).1
  else (awardTier ranked 1 index bonus).1.

(** [byTeam], a map of maps. *)
Definition TeamBonus : Type := list (Z * list (Z * Z)).

(** src: src/domain/live-bonus.ts:112-123 addBonus *)
Definition addBonus (byTeam : TeamBonus) (candidate : BonusCandidate) : TeamBonus :=
  if (bc_elementId candidate <=? 0) || (bc_value candidate <=? 0) then byTeam else
  let team := nullish (map_get (bc_teamId candidate) byTeam) [] in
  let team := map_set (bc_elementId candidate)
    (nullish (map_get (bc_elementId candidate) team) 0 + bc_value candidate) team in
  map_set (bc_teamId candidate) team byTeam.

Definition find_stat (identifier : string) (fixture : BonusFixture) : option FixtureStat :=
  find_by fs_identifier identifier (bf_stats fixture).

(** What one fixture adds, in order.
    src: src/domain/live-bonus.ts:126-150 computeFixtureSummedBonusByTeam *)
Definition fixture_awards (fixture : BonusFixture) : list BonusCandidate :=
  if negb (nullish (bf_started fixture) false) && negb (bf_finished fixture) &&
     negb (bf_finishedProvisional fixture) then [] else
  let official :=
    filter (λ c, 0 < bc_value c) (statCandidates (find_stat "bonus" fixture) fixture) in
  if negb (is_nil official) then official else
  if bf_finished fixture || bf_finishedProvisional fixture then [] else
  let bps := statCandidates (find_stat "bps" fixture) fixture in
  let teamByElement := map_of_entries (map (λ c, (bc_elementId c, bc_teamId c)) bps) in
  omap (λ '(elementId, value),
    (λ teamId, mkCandidate elementId teamId value) <$> map_get elementId teamByElement)
    (calculateFixtureBonus bps).

(** src: src/domain/live-bonus.ts:104-154 computeFixtureSummedBonusByTeam *)
Definition computeFixtureSummedBonusByTeam (fixtures : list BonusFixture) : TeamBonus :=
  fold_left (λ byTeam fixture, fold_left addBonus (fixture_awards fixture) byTeam) fixtures [].

(** src: src/domain/live-bonus.ts:29-35 getBonusForElement *)
Definition getBonusForElement (byTeam : TeamBonus) (teamId elementId : Z) : Z :=
  nullish (map_get teamId byTeam ≫= map_get elementId) 0.

(** ** The tiers of one fixture *)

(** How many candidates of the fixture have a strictly better value. *)
Definition better (candidates : list BonusCandidate) (value : Z) : nat :=
  length (filter (λ c, value < bc_value c) candidates).

Definition descending (l : list BonusCandidate) : Prop :=
  StronglySorted (λ x y, bc_value y ≤ bc_value x) l.

Definition award_all (bonus : Z) (l : list BonusCandidate) (m : list (Z * Z)) : list (Z * Z) :=
  fold_left (λ m c, map_set (bc_elementId c) bonus m) l m.

Lemma award_while_spec bonus v ranked index m :
  ∃ tier rest, ranked = tier ++ rest ∧ (∀ c, c ∈ tier → bc_value c = v) ∧
    (∀ c, head rest = Some c → bc_value c ≠ v) ∧
    award_while bonus v ranked index m = (award_all bonus tier m, (index + length tier)%nat).
Proof.
  revert index m. induction ranked as [|c ranked IH]; intros index m; simpl.
  { exists [], []. split_and!; [done|set_solver|done|simpl; f_equal; lia]. }
  destruct (Z.eqb_spec (bc_value c) v) as [Hv|Hv].
  - destruct (IH (S index) (map_set (bc_elementId c) bonus m)) as (tier & rest & -> & Ht & Hr & ->).
    exists (c :: tier), rest. split_and!; [done|set_solver|done|simpl; f_equal; lia].
  - exists [], (c :: ranked). split_and!; [done|set_solver| |simpl; f_equal; lia].
    simpl. intros ? [= <-]. done.
Qed.

Lemma award_all_get bonus l m e :
  map_get e (award_all bonus l m) =
    if decide (e ∈ bc_elementId <$> l) then Some bonus else map_get e m.
Proof.
  unfold award_all. revert m. induction l as [|c l IH]; intros m; simpl.
  { done. }
  rewrite IH, map_get_set. repeat case_decide; set_solver.
Qed.

(** One tier of a descending list after [pre]. *)
Lemma awardTier_spec pre l bonus m :
  descending l → l ≠ [] →
  ∃ tier rest, l = tier ++ rest ∧ tier ≠ [] ∧
    (∀ c d, c ∈ tier → d ∈ tier → bc_value c = bc_value d) ∧
    (∀ c d, c ∈ tier → d ∈ rest → bc_value d < bc_value c) ∧
    awardTier (pre ++ l) bonus (length pre) m =
      (award_all bonus tier m, length (pre ++ tier)).
Proof.
  intros Hd Hl. destruct l as [|c l]; [done|]. unfold awardTier.
  rewrite list_lookup_middle by done. rewrite drop_app_length.
  destruct (award_while_spec bonus (bc_value c) (c :: l) (length pre) m)
    as (tier & rest & Heq & Ht & Hr & ->).
  rewrite Heq in Hd. apply StronglySorted_app in Hd as (Hcross & _ & Hrest).
  exists tier, rest. destruct tier as [|c' tier].
  { simpl in Heq. subst rest. by specialize (Hr c eq_refl). }
  split_and!; [done|done| | |by rewrite length_app].
  - intros x y Hx Hy. rewrite (Ht x), (Ht y) by done. done.
  - intros x y Hx Hy. rewrite (Ht x Hx). destruct rest as [|r rest]; [set_solver|].
    assert (bc_value r ≤ bc_value c).
    { rewrite <-(Ht c'); [|set_solver]. apply Hcross; set_solver. }
    pose proof (Hr r eq_refl). apply StronglySorted_inv in Hrest as [_ Hrest].
    apply elem_of_cons in Hy as [->|Hy]; [lia|].
    rewrite Forall_forall in Hrest. specialize (Hrest y Hy). simpl in Hrest. lia.
Qed.

Lemma better_split pre tier rest c :
  (∀ a b, a ∈ pre → b ∈ tier ++ rest → bc_value b < bc_value a) →
  (∀ a b, a ∈ tier → b ∈ tier → bc_value a = bc_value b) →
  (∀ a b, a ∈ tier → b ∈ rest → bc_value b < bc_value a) →
  c ∈ tier → better (pre ++ tier ++ rest) (bc_value c) = length pre.
Proof.
  intros Hp Ht Hr Hc. unfold better. rewrite !filter_app, filter_all.
  - rewrite (filter_none _ tier), (filter_none _ rest), !app_nil_r; [done|..]; intros y Hy.
    + specialize (Hr c y Hc Hy). lia.
    + rewrite (Ht y c) by done. lia.
  - intros y Hy. apply Hp; set_solver.
Qed.

Lemma better_ge pre rest v :
  (∀ a, a ∈ pre → v < bc_value a) → (length pre ≤ better (pre ++ rest) v)%nat.
Proof. intros H. unfold better. rewrite filter_app, filter_all, length_app by done. lia. Qed.

(** The descending list cut into the tiers that get 3, 2 and 1. *)
Record tiers (ranked t1 t2 t3 rest : list BonusCandidate) : Prop := {
  ti_cut : ranked = t1 ++ t2 ++ t3 ++ rest;
  ti_equal : ∀ t, t = t1 ∨ t = t2 ∨ t = t3 →
    ∀ a b, a ∈ t → b ∈ t → bc_value a = bc_value b;
  ti_1 : ∀ a b, a ∈ t1 → b ∈ t2 ++ t3 ++ rest → bc_value b < bc_value a;
  ti_2 : ∀ a b, a ∈ t2 → b ∈ t3 ++ rest → bc_value b < bc_value a;
  ti_3 : ∀ a b, a ∈ t3 → b ∈ rest → bc_value b < bc_value a;
  ti_second : t2 ≠ [] → length t1 = 1%nat;
  ti_third : t3 ≠ [] → length (t1 ++ t2) = 2%nat;
  ti_rest : rest ≠ [] → (3 ≤ length (t1 ++ t2 ++ t3))%nat;
}.

Definition award_tiers (ranked : list BonusCandidate) : list (Z * Z) :=
  let '(bonus, index) := awardTier ranked 3 0 [] in
  if (3 <=? index)%nat || (length ranked <=? index)%nat then bonus else
  if (index =? 1)%nat then
    let '(bonus, index) := awardTier ranked 2 index bonus in
    if (3 <=? index)%nat || (length ranked <=? index)%nat then bonus else
    (awardTier ranked 1 index bonus).1
  else (awardTier ranked 1 index bonus).1.

(** Awarding the last tier, after two candidates. *)
Lemma award_last pre l m :
  descending l → l ≠ [] → length pre = 2%nat →
  ∃ t3 rest, l = t3 ++ rest ∧ t3 ≠ [] ∧
    (∀ a b, a ∈ t3 → b ∈ t3 → bc_value a = bc_value b) ∧
    (∀ a b, a ∈ t3 → b ∈ rest → bc_value b < bc_value a) ∧
    (awardTier (pre ++ l) 1 2 m).1 = award_all 1 t3 m.
Proof.
  intros Hd Hl Hp. destruct (awardTier_spec pre l 1 m Hd Hl) as (t3 & rest & -> & Hn & He & Hc & Ha).
  exists t3, rest. rewrite Hp in Ha. rewrite Ha. done.
Qed.

Lemma descending_app_r l k : descending (l ++ k) → descending k.
Proof. intros H. apply StronglySorted_app in H. tauto. Qed.

(** Nothing is in an empty tier. *)
Ltac vacuous :=
  intros; match goal with
  | H : _ ∈ [] |- _ => by apply not_elem_of_nil in H
  | H : [] ≠ [] |- _ => done
  end.

Lemma award_tiers_spec ranked :
  descending ranked → ranked ≠ [] →
  ∃ t1 t2 t3 rest, tiers ranked t1 t2 t3 rest ∧
    award_tiers ranked = award_all 1 t3 (award_all 2 t2 (award_all 3 t1 [])).
Proof.
  intros Hd Hne.
  destruct (awardTier_spec [] ranked 3 [] Hd Hne) as (t1 & r1 & -> & Hn1 & He1 & Hc1 & Ha1).
  unfold award_tiers. simpl in Ha1. rewrite Ha1. apply descending_app_r in Hd.
  destruct (Nat.leb_spec 3 (length t1)) as [H3|H3]; cbn [orb].
  { exists t1, [], [], r1. split; [|done]. split; simpl; try done.
    - intros t [->|[->| ->]]; [exact He1|vacuous..].
    - vacuous.
    - vacuous.
    - rewrite app_nil_r. lia. }
  rewrite length_app. destruct r1 as [|c r1].
  { destruct (Nat.leb_spec (length t1 + length (@nil BonusCandidate)) (length t1)); [|simpl in *; lia].
    exists t1, [], [], []. split; [|done]. split; simpl; try done; try vacuous.
    intros t [->|[->| ->]]; [exact He1|vacuous..]. }
  set (l := c :: r1) in *. assert (l ≠ []) as Hl by done.
  destruct (Nat.leb_spec (length t1 + length l) (length t1)); [simpl in *; lia|].
  destruct (Nat.eqb_spec (length t1) 1) as [H1|H1].
  - destruct (awardTier_spec t1 l 2 (award_all 3 t1 []) Hd Hl) as (t2 & r2 & Heq & Hn2 & He2 & Hc2 & Ha2).
    rewrite Ha2. rewrite Heq in Hd, Hc1 |- *. apply descending_app_r in Hd. rewrite !length_app.
    destruct (Nat.leb_spec 3 (length t1 + length t2)) as [H32|H32]; cbn [orb].
    { exists t1, t2, [], r2. split; [|done]. split; simpl; try done.
      - intros t [->|[->| ->]]; [exact He1|exact He2|vacuous].
      - vacuous.
      - rewrite app_nil_r, length_app. lia. }
    destruct r2 as [|d r2].
    { destruct (Nat.leb_spec (length t1 + (length t2 + length (@nil BonusCandidate))) (length t1 + length t2));
        [|simpl in *; lia].
      exists t1, t2, [], []. split; [|done]. split; simpl; try done; try vacuous.
      intros t [->|[->| ->]]; [exact He1|exact He2|vacuous]. }
    set (k := d :: r2) in *.
    destruct (Nat.leb_spec (length t1 + (length t2 + length k)) (length t1 + length t2));
      [simpl in *; lia|].
    assert (length t2 = 1%nat) as Hl2 by (destruct t2; [done|]; simpl in *; lia).
    rewrite H1, Hl2. simpl Nat.add.
    destruct (award_last (t1 ++ t2) k (award_all 2 t2 (award_all 3 t1 [])) Hd ltac:(done))
      as (t3 & rest & Heq3 & Hn3 & He3 & Hc3 & Ha3); [rewrite length_app; lia|].
    rewrite app_assoc, Ha3. rewrite Heq3 in Hc1, Hc2 |- *.
    exists t1, t2, t3, rest. split; [|done]. split; try done.
    + by rewrite <-app_assoc.
    + intros t [->|[->| ->]]; done.
    + intros _. rewrite length_app. lia.
    + intros _. destruct t3; [done|]. rewrite !length_app. simpl. lia.
  - assert (length t1 = 2%nat) as H2 by (destruct t1; [done|]; simpl in *; lia).
    destruct (award_last t1 l (award_all 3 t1 []) Hd Hl H2) as (t3 & rest & Heq3 & Hn3 & He3 & Hc3 & Ha3).
    rewrite H2, Ha3. rewrite Heq3 in Hc1 |- *.
    exists t1, [], t3, rest. split; [|done]. split; simpl; try done; try vacuous.
    + intros t [->|[->| ->]]; [exact He1|vacuous|exact He3].
    + intros _. by rewrite app_nil_r.
    + intros _. destruct t3; [done|]. rewrite !length_app. simpl. lia.
Qed.

(** The award of one element of the cut list. *)
Lemma award_tiers_get ranked t1 t2 t3 rest c :
  tiers ranked t1 t2 t3 rest → NoDup (bc_elementId <$> ranked) → c ∈ ranked →
  nullish (map_get (bc_elementId c) (award_all 1 t3 (award_all 2 t2 (award_all 3 t1 [])))) 0 =
  Z.max 0 (3 - Z.of_nat (better ranked (bc_value c))).
Proof.
  intros [-> He H1 H2 H3 Hs Ht Hr] Hnd Hc. rewrite !award_all_get. simpl.
  rewrite !fmap_app in Hnd.
  apply NoDup_app in Hnd as (_ & Hd1 & Hnd). apply NoDup_app in Hnd as (_ & Hd2 & Hnd).
  apply NoDup_app in Hnd as (_ & Hd3 & _).
  assert (∀ t, c ∈ t → bc_elementId c ∈ bc_elementId <$> t) as Hin
    by (intros t Hct; by apply list_elem_of_fmap_2).
  rewrite !elem_of_app in Hc. destruct Hc as [Hc|[Hc|[Hc|Hc]]].
  - specialize (Hin t1 Hc). specialize (Hd1 _ Hin). rewrite !elem_of_app in Hd1.
    rewrite (decide_False (P := _ ∈ _ <$> t3)), (decide_False (P := _ ∈ _ <$> t2)), decide_True by tauto.
    rewrite (better_split [] t1 (t2 ++ t3 ++ rest)); [done|intros ?? []%not_elem_of_nil|..|done];
      [apply (He t1); tauto|done].
  - specialize (Hin t2 Hc). specialize (Hd2 _ Hin). rewrite !elem_of_app in Hd2.
    rewrite decide_False, decide_True by tauto.
    rewrite (better_split t1 t2 (t3 ++ rest)); [|done|apply (He t2); tauto|done|done].
    rewrite Hs by (intros ->; by apply not_elem_of_nil in Hc). done.
  - specialize (Hin t3 Hc). rewrite decide_True by done.
    rewrite app_assoc, (better_split (t1 ++ t2) t3 rest); [| |apply (He t3); tauto|done|done].
    + rewrite Ht by (intros ->; by apply not_elem_of_nil in Hc). done.
    + intros a b [Ha|Ha]%elem_of_app Hb; [apply H1; set_solver|by apply H2].
  - specialize (Hin rest Hc).
    rewrite !decide_False; cycle 1.
    { intros Hx. specialize (Hd1 _ Hx). rewrite !elem_of_app in Hd1. tauto. }
    { intros Hx. specialize (Hd2 _ Hx). rewrite !elem_of_app in Hd2. tauto. }
    { intros Hx. exact (Hd3 _ Hx Hin). }
    simpl. assert (3 ≤ better (t1 ++ t2 ++ t3 ++ rest) (bc_value c))%nat; [|lia].
    etrans; [apply Hr; intros ->; by apply not_elem_of_nil in Hc|].
    replace (t1 ++ t2 ++ t3 ++ rest) with ((t1 ++ t2 ++ t3) ++ rest) by (by rewrite <-!app_assoc).
    apply better_ge. intros a [Ha|[Ha|Ha]%elem_of_app]%elem_of_app;
      [apply H1|apply H2|apply H3]; set_solver.
Qed.

Lemma calculateFixtureBonus_award candidates :
  calculateFixtureBonus candidates =
  let ranked := js_sort compare_value (filter (λ c, 0 < bc_value c) candidates) in
  if is_nil ranked then [] else award_tiers ranked.
Proof. done. Qed.

Lemma ranked_descending candidates :
  descending (js_sort compare_value (filter (λ c, 0 < bc_value c) candidates)).
Proof.
  pose proof (js_sort_sorted compare_value (filter (λ c, 0 < bc_value c) candidates)) as H.
  eapply StronglySorted_impl; [|exact H]. unfold cmp_le, compare_value, by_key. lia.
Qed.

Lemma better_ranked candidates v :
  0 < v → better (js_sort compare_value (filter (λ c, 0 < bc_value c) candidates)) v
          = better candidates v.
Proof.
  intros Hv. unfold better. rewrite js_sort_perm, list_filter_filter. f_equal.
  apply list_filter_iff. intros c. lia.
Qed.

Lemma calculateFixtureBonus_spec_lemma (candidates : list BonusCandidate)
    (Hnd : NoDup (bc_elementId <$> candidates)) :
  (∀ c, c ∈ candidates →
     nullish (map_get (bc_elementId c) (calculateFixtureBonus candidates)) 0 =
     if 0 <? bc_value c then Z.max 0 (3 - Z.of_nat (better candidates (bc_value c))) else 0) ∧
  (∀ e, e ∉ bc_elementId <$> candidates → map_get e (calculateFixtureBonus candidates) = None).
Proof.
  rewrite calculateFixtureBonus_award. cbv zeta.
  set (ranked := js_sort compare_value (filter (λ c, 0 < bc_value c) candidates)).
  assert (∀ c, c ∈ ranked ↔ 0 < bc_value c ∧ c ∈ candidates) as Hin.
  { intros c. unfold ranked. by rewrite elem_of_js_sort, list_elem_of_filter. }
  assert (NoDup (bc_elementId <$> ranked)) as Hndr.
  { unfold ranked. rewrite js_sort_perm. eapply sublist_NoDup; [exact Hnd|].
    apply fmap_sublist, sublist_filter. }
  destruct (is_nil ranked) eqn:Hnil.
  { destruct ranked as [|]; [|done]. split; [|done]. intros c Hc. simpl.
    destruct (Z.ltb_spec 0 (bc_value c)); [|done].
    assert (c ∈ []) as []%not_elem_of_nil by (apply Hin; done). }
  destruct (award_tiers_spec ranked) as (t1 & t2 & t3 & rest & Ht & ->);
    [apply ranked_descending|by intros Heq; rewrite Heq in Hnil|].
  assert (∀ e, e ∉ bc_elementId <$> ranked →
    map_get e (award_all 1 t3 (award_all 2 t2 (award_all 3 t1 []))) = None) as Hout.
  { intros e He. rewrite (ti_cut _ _ _ _ _ Ht), !fmap_app, !elem_of_app in He.
    rewrite !award_all_get, !decide_False by tauto. done. }
  split.
  - intros c Hc. destruct (Z.ltb_spec 0 (bc_value c)) as [Hv|Hv].
    + rewrite (award_tiers_get ranked t1 t2 t3 rest c Ht Hndr) by (apply Hin; done).
      unfold ranked. by rewrite better_ranked.
    + rewrite Hout; [done|]. intros (d & Heq & Hd)%list_elem_of_fmap.
      apply Hin in Hd as [Hd Hdc].
      assert (c = d) as <- by (by apply (NoDup_fmap_inj_in bc_elementId candidates)). lia.
  - intros e He. apply Hout. intros (d & -> & Hd)%list_elem_of_fmap. apply He.
    apply list_elem_of_fmap_2, Hin. done.
Qed.

(** C26: the bonus of a fixture in one formula: with one candidate per player, a player with a
    positive value gets max(0, 3 - b), where b is how many candidates have a strictly better value
    (so ties share 3, 2 or 1 and push the next tier down), a player without gets nothing, and
    nobody outside the candidates is awarded. *)
Theorem calculateFixtureBonus_spec (candidates : list BonusCandidate)
    (Hnd : NoDup (bc_elementId <$> candidates)) :
  (∀ c, c ∈ candidates →
     nullish (map_get (bc_elementId c) (calculateFixtureBonus candidates)) 0 =
     if 0 <? bc_value c then Z.max 0 (3 - Z.of_nat (better candidates (bc_value c))) else 0) ∧
  (∀ e, e ∉ bc_elementId <$> candidates → map_get e (calculateFixtureBonus candidates) = None).
Proof. exact (calculateFixtureBonus_spec_lemma candidates Hnd). Qed.

Lemma calculateFixtureBonus_spec_witness :
  let cs := [mkCandidate 1 10 30; mkCandidate 2 10 25; mkCandidate 3 20 30; mkCandidate 4 20 7;
             mkCandidate 5 20 0] in
  nullish (map_get 2 (calculateFixtureBonus cs)) 0 = 1.
Proof.
  intros cs. assert (NoDup (bc_elementId <$> cs)) as Hnd
    by (apply (bool_decide_unpack _); vm_compute; exact I).
  refine (proj1 (calculateFixtureBonus_spec cs Hnd) (mkCandidate 2 10 25) _).
  right. left.
Defined.

(** ** The sum over a gameweek *)

Lemma map_get_addBonus m c t e :
  getBonusForElement (addBonus m c) t e =
  getBonusForElement m t e +
  (if bool_decide (bc_teamId c = t ∧ bc_elementId c = e ∧ 0 < e ∧ 0 < bc_value c)
   then bc_value c else 0).
Proof.
  unfold addBonus, getBonusForElement.
  destruct (Z.leb_spec (bc_elementId c) 0), (Z.leb_spec (bc_value c) 0); cbn [orb];
    try (rewrite bool_decide_eq_false_2 by lia; lia).
  rewrite map_get_set. destruct (decide (t = bc_teamId c)) as [->|Ht].
  - simpl. rewrite map_get_set. destruct (decide (e = bc_elementId c)) as [->|He].
    + rewrite bool_decide_eq_true_2 by done. simpl. by destruct (map_get (bc_teamId c) m).
    + rewrite bool_decide_eq_false_2 by (intros (_ & He' & _); done).
      destruct (map_get (bc_teamId c) m); simpl; lia.
  - rewrite bool_decide_eq_false_2 by (intros (Ht' & _); done). lia.
Qed.

(** The value of a candidate for player [e] of team [t]. *)
Definition value_for (t e : Z) (c : BonusCandidate) : Z :=
  if bool_decide (bc_teamId c = t ∧ bc_elementId c = e) then Z.max 0 (bc_value c) else 0.

Lemma getBonus_fold cs m t e :
  0 < e →
  getBonusForElement (fold_left addBonus cs m) t e =
  getBonusForElement m t e + sum_by (value_for t e) cs.
Proof.
  intros He. revert m. induction cs as [|c cs IH]; intros m; simpl; [lia|].
  rewrite IH, map_get_addBonus. unfold value_for at 2.
  repeat case_bool_decide; lia.
Qed.

Lemma compute_fold fixtures m t e :
  0 < e →
  getBonusForElement
    (fold_left (λ byTeam fixture, fold_left addBonus (fixture_awards fixture) byTeam) fixtures m) t e =
  getBonusForElement m t e + sum_by (λ f, sum_by (value_for t e) (fixture_awards f)) fixtures.
Proof.
  intros He. revert m. induction fixtures as [|f fixtures IH]; intros m; simpl; [lia|].
  rewrite IH, getBonus_fold by done. lia.
Qed.

(** What player [e] of team [t] gets from one fixture: nothing before kick-off; the official rows
    once there are any; nothing while a finished fixture waits for them; otherwise the provisional
    share of the fixture's bps. *)
Definition fixture_bonus (t e : Z) (fixture : BonusFixture) : Z :=
  let official := statCandidates (find_stat "bonus" fixture) fixture in
  let bps := statCandidates (find_stat "bps" fixture) fixture in
  let over := bf_finished fixture || bf_finishedProvisional fixture in
  if negb (nullish (bf_started fixture) false) && negb over then 0 else
  if existsb (λ c, 0 <? bc_value c) official then sum_by (value_for t e) official else
  if over then 0 else
  sum_by (λ c, if bool_decide (bc_teamId c = t ∧ bc_elementId c = e) && (0 <? bc_value c)
               then Z.max 0 (3 - Z.of_nat (better bps (bc_value c))) else 0) bps.

Lemma calculateFixtureBonus_keys candidates : NoDup (map_keys (calculateFixtureBonus candidates)).
Proof.
  assert (∀ bonus l m, NoDup (map_keys m) → NoDup (map_keys (award_all bonus l m))) as Hall.
  { intros bonus l. unfold award_all. induction l as [|c l IH]; intros m Hm; simpl; [done|].
    by apply IH, map_keys_set_NoDup. }
  rewrite calculateFixtureBonus_award. cbv zeta. destruct (is_nil _) eqn:Hnil; [constructor|].
  destruct (award_tiers_spec (js_sort compare_value (filter (λ c, 0 < bc_value c) candidates)))
    as (t1 & t2 & t3 & rest & _ & ->);
    [apply ranked_descending|by intros Heq; rewrite Heq in Hnil|].
  do 3 apply Hall. constructor.
Qed.

Lemma sum_by_omap {A B} (F : A → option B) (f : B → Z) (l : list A) :
  sum_by f (omap F l) = sum_by (λ x, match F x with Some y => f y | None => 0 end) l.
Proof.
  unfold sum_by. induction l as [|x l IH]; simpl; [done|].
  destruct (F x); simpl; [by f_equal|exact IH].
Qed.

Lemma sum_by_filter_zero {A} (P : A → Prop) `{∀ x, Decision (P x)} (f : A → Z) (l : list A) :
  (∀ x, x ∈ l → ¬ P x → f x = 0) → sum_by f (filter P l) = sum_by f l.
Proof.
  intros Hz. unfold sum_by. induction l as [|x l IH]; [done|]. rewrite filter_cons. simpl.
  case_decide; simpl; rewrite IH by (intros; apply Hz; [by right|done]); [done|].
  rewrite (Hz x) by (done || left). done.
Qed.

(** The sum over a map in which only key [e] counts. *)
Lemma sum_by_key (g : Z * Z → Z) (m : list (Z * Z)) e :
  NoDup (map_keys m) → (∀ k v, k ≠ e → g (k, v) = 0) →
  sum_by g m = match map_get e m with Some v => g (e, v) | None => 0 end.
Proof.
  intros Hnd Hg. destruct (map_get e m) as [v|] eqn:Hv.
  - apply (sum_by_single g m (e, v)); [by apply (NoDup_fmap_1 fst)|by apply map_get_elem_of|].
    intros [k w] Hin Hne. apply Hg. intros ->. apply Hne.
    rewrite (elem_of_map_get e w m) in Hv by done. congruence.
  - apply sum_by_zero. intros [k w] Hin. apply Hg. intros ->.
    rewrite (elem_of_map_get e w m) in Hv by done. done.
Qed.

Lemma provisional_sum bps t e :
  NoDup (bc_elementId <$> bps) →
  sum_by (value_for t e) (omap (λ '(elementId, value),
    (λ teamId, mkCandidate elementId teamId value) <$>
      map_get elementId (map_of_entries (map (λ c, (bc_elementId c, bc_teamId c)) bps)))
    (calculateFixtureBonus bps)) =
  sum_by (λ c, if bool_decide (bc_teamId c = t ∧ bc_elementId c = e) && (0 <? bc_value c)
               then Z.max 0 (3 - Z.of_nat (better bps (bc_value c))) else 0) bps.
Proof.
  intros Hnd. destruct (calculateFixtureBonus_spec_lemma bps Hnd) as [Hspec Hout].
  set (teams := map_of_entries _). rewrite sum_by_omap.
  rewrite (sum_by_key _ _ e); [|apply calculateFixtureBonus_keys|].
  2: { intros k v Hk. destruct (map_get k teams); simpl; [|done].
       unfold value_for. rewrite bool_decide_eq_false_2; [done|]. simpl. tauto. }
  destruct (decide (e ∈ bc_elementId <$> bps)) as [He|He].
  - apply list_elem_of_fmap in He as (c & -> & Hc).
    rewrite (sum_by_single _ bps c); [|by apply (NoDup_fmap_1 bc_elementId)|done|].
    2: { intros d Hd Hne. rewrite bool_decide_eq_false_2; [done|]. intros [_ Heq].
         apply Hne. by apply (NoDup_fmap_inj_in bc_elementId bps). }
    assert (map_get (bc_elementId c) teams = Some (bc_teamId c)) as Hteam.
    { unfold teams. rewrite map_of_entries_get_last. apply elem_of_map_get.
      - unfold map_keys. rewrite <-(Permutation_rev _).
        change (map _ bps) with ((λ c, (bc_elementId c, bc_teamId c)) <$> bps).
        rewrite <-list_fmap_compose. exact Hnd.
      - rewrite <-(Permutation_rev _).
        apply (list_elem_of_fmap_2 (λ c, (bc_elementId c, bc_teamId c))). done. }
    specialize (Hspec c Hc). unfold value_for.
    destruct (map_get (bc_elementId c) (calculateFixtureBonus bps)) as [v|]; simpl in Hspec |- *.
    + rewrite Hteam. simpl. rewrite Hspec. unfold value_for. simpl.
      destruct (Z.ltb_spec 0 (bc_value c)); case_bool_decide; simpl; try lia; tauto.
    + destruct (Z.ltb_spec 0 (bc_value c)); case_bool_decide; simpl; done.
  - rewrite (Hout e He), sum_by_zero; [done|]. intros c Hc.
    rewrite bool_decide_eq_false_2; [done|]. intros [_ <-]. apply He. by apply list_elem_of_fmap_2.
Qed.

Lemma fixture_awards_bonus f t e :
  NoDup (bc_elementId <$> statCandidates (find_stat "bps" f) f) →
  sum_by (value_for t e) (fixture_awards f) = fixture_bonus t e f.
Proof.
  intros Hnd. unfold fixture_awards, fixture_bonus. rewrite negb_orb, andb_assoc.
  destruct (negb _ && negb _ && negb _); [done|].
  set (official := statCandidates (find_stat "bonus" f) f).
  assert (is_nil (filter (λ c, 0 < bc_value c) official) =
          negb (existsb (λ c, 0 <? bc_value c) official)) as ->.
  { induction official as [|c l IH]; [done|]. rewrite filter_cons. simpl.
    destruct (Z.ltb_spec 0 (bc_value c)); case_decide; (done || lia). }
  rewrite negb_involutive. destruct (existsb _ _).
  - apply sum_by_filter_zero. intros c _ Hc. unfold value_for. case_bool_decide; lia.
  - destruct (_ || _); [done|]. by apply provisional_sum.
Qed.

(** the live bonus of a player of a team over a gameweek is the sum over its fixtures of what
    each fixture gives (the official rows, or the provisional 3/2/1 share while it is played), so a
    double gameweek adds up and a fixture that has not started or awaits its official rows adds
    nothing. *)
Theorem computeFixtureSummedBonusByTeam_sum (fixtures : list BonusFixture) (t e : Z)
    (He : 0 < e)
    (Hbps : ∀ f, f ∈ fixtures → NoDup (bc_elementId <$> statCandidates (find_stat "bps" f) f)) :
  getBonusForElement (computeFixtureSummedBonusByTeam fixtures) t e =
  sum_by (fixture_bonus t e) fixtures.
Proof.
  unfold computeFixtureSummedBonusByTeam. rewrite compute_fold by done. simpl.
  apply sum_by_ext_in. intros f Hf. by apply fixture_awards_bonus, Hbps.
Qed.

(** A double gameweek: one fixture being played, one with official rows. *)
Definition sample_fixtures : list BonusFixture :=
  [mkBonusFixture (Some true) false false
     [mkFixtureStat "bps" [mkStatItem 20 4] [mkStatItem 30 1; mkStatItem 25 2]] 7 5;
   mkBonusFixture (Some true) true true
     [mkFixtureStat "bps" [mkStatItem 9 1] []; mkFixtureStat "bonus" [mkStatItem 2 1] []] 5 8].

Lemma computeFixtureSummedBonusByTeam_sum_witness :
  getBonusForElement (computeFixtureSummedBonusByTeam sample_fixtures) 5 1 = 5.
Proof.
  rewrite (computeFixtureSummedBonusByTeam_sum sample_fixtures 5 1); [reflexivity|lia|].
  apply Forall_forall. repeat constructor; apply (bool_decide_unpack _); vm_compute; exact I.
Defined.
