(* ===== verification/MutationScope.v ===== *)
(** * Mutation scopes ([src/domain/mutation-scope.ts], [src/utils/mutation-scopes.ts])

    Which named scopes a job locks, and the protocol that locks them: one PostgreSQL row lock per
    scope, taken in lexical order on the transaction of the job and kept until it ends.  A call of
    [withMutationScopes] inside another one runs on the outer transaction (as a savepoint,
    [src/db/singleton.ts]), so its locks are added to those of the outer call and are kept as long.

    A job is one outer call and the calls inside it, one after the other; a call without scopes opens
    no transaction, so the calls inside such a one are jobs of their own.  A step is a lock, the
    beginning of the next call, the commit, or a failure: a lock that is not granted within 120
    seconds ([lock_timeout] and [statement_timeout]), the database's own deadlock detection, or any
    error of an operation, which undoes an inner call up to its savepoint or ends the transaction.

    An id is [None] when the code's [Number.isFinite] is false. *)

From S2P Require Import Prelude JsCollections JsNumber.

(** ** Scope names *)

Definition scope : Type := jsstr.

(** [`${name}:${id}`] *)
Definition tagged (name : string) (id : Z) : scope := js name ++ print_int id.

(** src: src/domain/mutation-scope.ts:21-21 TOURNAMENT_STRUCTURE_GLOBAL_SCOPE *)
Definition TOURNAMENT_STRUCTURE_GLOBAL_SCOPE : scope := js "tournament-structure:global".

(** src: src/domain/mutation-scope.ts:24-31 tournamentSetupRebuildScopes *)
Definition tournamentSetupRebuildScopes (tournamentId : option Z) : list scope :=
  [ match tournamentId with
    | Some id => tagged "tournament-structure:tournament:" id
    | None => js "tournament-structure:all"
    end;
    TOURNAMENT_STRUCTURE_GLOBAL_SCOPE ].

(** src: src/domain/mutation-scope.ts:34-39 tournamentSetupBackfillEventScopes *)
Definition tournamentSetupBackfillEventScopes (eventId : option Z) : list scope :=
  [ match eventId with
    | Some id => tagged "tournament-structure:event:" id
    | None => js "tournament-structure:all"
    end;
    TOURNAMENT_STRUCTURE_GLOBAL_SCOPE ].

(** src: src/domain/mutation-scope.ts:46-50 tournamentSetupLifecycleScope *)
Definition tournamentSetupLifecycleScope (tournamentId : option Z) : scope :=
  match tournamentId with
  | Some id => tagged "tournament-setup:tournament:" id
  | None => js "tournament-setup:all"
  end.

(** src: src/domain/mutation-scope.ts:57-65 tournamentEntryCoreScopes *)
Definition tournamentEntryCoreScopes (seasonId : Z) (entryIds : list Z) : list scope :=
  js_sort compare_str (dedup
    ((λ entryId, tagged "entry-core:" seasonId ++ js ":" ++ print_int entryId) <$>
       filter (λ entryId, 0 < entryId) entryIds)).

(** src: src/domain/mutation-scope.ts:68-72 tournamentSetupEnqueueScope *)
Definition tournamentSetupEnqueueScope (tournamentId : option Z) : scope :=
  match tournamentId with
  | Some id => tagged "tournament-setup-enqueue:tournament:" id
  | None => js "tournament-setup-enqueue:all"
  end.

(** src: src/domain/mutation-scope.ts:74-76 withEvent *)
Definition withEvent (name : string) (eventId : option Z) : scope :=
  match eventId with
  | Some id => js name ++ tagged ":event:" id
  | None => js name ++ js ":all"
  end.

(** src: src/domain/mutation-scope.ts:78-80 withTournament *)
Definition withTournament (name : string) (tournamentId : option Z) : scope :=
  match tournamentId with
  | Some id => js name ++ tagged ":tournament:" id
  | None => js name ++ js ":all"
  end.

(** src: src/domain/mutation-scope.ts:1-6 MutationScopeInput *)
Record MutationScopeInput := mkScopeInput {
  ms_queueName : string;
  ms_jobName : string;
  ms_eventId : option Z;
  ms_tournamentId : option Z;
}.

Definition one_of (s : string) (names : list string) : bool := bool_decide (s ∈ names).

(** src: src/domain/mutation-scope.ts:86-104 resolveMutationScopes *)
Definition data_sync_scopes (jobName : string) : list scope :=
  if one_of jobName ["core-snapshot"] then
    [js "data-core:events"; js "data-core:teams"; js "data-core:players"; js "data-core:phases";
     js "data-core:fixtures"]
  else if one_of jobName ["player-prices"; "player-stats"] then [js "data-core:players"]
  else if one_of jobName ["player-values"] then [js "data-core:player-values"]
  else [].

(** src: src/domain/mutation-scope.ts:106-123 resolveMutationScopes *)
Definition entry_sync_scopes (jobName : string) (eventId : option Z) : list scope :=
  if one_of jobName ["entry-picks"] then [withEvent "entry-event-picks" eventId]
  else if one_of jobName ["entry-transfers"] then [withEvent "entry-event-transfers" eventId]
  else if one_of jobName ["entry-results"] then [withEvent "entry-event-results" eventId]
  else [].

(** src: src/domain/mutation-scope.ts:134-150 resolveMutationScopes *)
Definition league_sync_scopes (jobName : string) (eventId tournamentId : option Z) : list scope :=
  if one_of jobName ["league-event-picks"] then
    [withEvent "entry-event-picks" eventId; withTournament "league-event-picks" tournamentId]
  else if one_of jobName ["league-event-results"] then
    [withEvent "entry-event-results" eventId; withEvent "league-event-results" eventId;
     withTournament "league-event-results" tournamentId]
  else [].

(** src: src/domain/mutation-scope.ts:152-202 resolveMutationScopes *)
Definition tournament_sync_scopes (jobName : string) (eventId : option Z) : list scope :=
  if one_of jobName ["tournament-event-results"] then
    [js "data-core:events"; withEvent "entry-event-picks" eventId;
     withEvent "entry-event-transfers" eventId; withEvent "entry-event-results" eventId;
     withEvent "tournament-event-results" eventId]
  else if one_of jobName ["tournament-event-picks"] then
    [withEvent "entry-event-picks" eventId; withEvent "tournament-event-mutations" eventId]
  else if one_of jobName ["tournament-transfers-pre"; "tournament-transfers-post"] then
    [withEvent "entry-event-transfers" eventId; withEvent "tournament-event-mutations" eventId]
  else if one_of jobName ["tournament-selection-stats"] then
    [withEvent "tournament-event-mutations" eventId]
  else if one_of jobName ["tournament-points-race"; "tournament-battle-race";
                          "tournament-knockout"; "tournament-official-h2h"] then
    [withEvent "tournament-structure" eventId; TOURNAMENT_STRUCTURE_GLOBAL_SCOPE]
  else if one_of jobName ["tournament-cup-results"] then
    [withEvent "tournament-cup-results" eventId]
  else if one_of jobName ["tournament-materialized-views-refresh"] then
    [TOURNAMENT_STRUCTURE_GLOBAL_SCOPE; js "data-core:events"]
  else if one_of jobName ["tournament-info"] then [js "tournament-info:all"]
  else [].

(** src: src/domain/mutation-scope.ts:82-228 resolveMutationScopes *)
Definition resolveMutationScopes (input : MutationScopeInput) : list scope :=
  let queue := ms_queueName input in
  let jobName := ms_jobName input in
  let eventId := ms_eventId input in
  if one_of queue ["data-sync"] then data_sync_scopes jobName
  else if one_of queue ["entry-sync"] then entry_sync_scopes jobName eventId
  else if one_of queue ["live-data"] then
    if one_of jobName ["live-snapshot"]
    then [js "data-core:fixtures"; withEvent "live-snapshot" eventId] else []
  else if one_of queue ["league-sync"] then
    league_sync_scopes jobName eventId (ms_tournamentId input)
  else if one_of queue ["tournament-sync"] then tournament_sync_scopes jobName eventId
  else if one_of queue ["tournament-setup"] then []
  else if one_of queue ["understat-mappings"; "understat-team-sync"; "understat-player-sync"]
    then [js "understat:reference:all"]
  else if one_of queue ["bridge"] then [js "bridge:all"]
  else [].

(** [[...new Set(scopes.map((scope) => scope.trim()).filter(Boolean))].sort()]
    src: src/utils/mutation-scopes.ts:29-29 acquireMutationScopes *)
Definition normalizedScopes (scopes : list scope) : list scope :=
  js_sort compare_str (dedup (filter (λ s, s ≠ []) (js_trim <$> scopes))).

(** The scopes one call locks.
    src: src/utils/mutation-scopes.ts:102-115 withMutationScopes *)
Definition call_scopes (input : MutationScopeInput) (scopes : option (list scope)) : list scope :=
  match scopes with
  | Some (s :: scopes') => normalizedScopes (s :: scopes')
  | _ => normalizedScopes (resolveMutationScopes input)
  end.

(** ** The lock protocol *)

(** The scopes of one call of [withMutationScopes]. *)
Notation call := (list scope).

(** A job: the calls whose operation has begun and that are behind it, the scopes locked for them, those
    locked for the current call, the lock requests of it that are still ahead, and the calls to come. *)
Inductive Job :=
| Running (entered : list call) (kept acquired todo : list scope) (current : call) (later : list call)
| Done.

Definition held_by (j : Job) : list scope :=
  match j with Running _ kept acquired _ _ _ => acquired ++ kept | Done => [] end.

(** The operation of the call has begun, and its transaction has not ended. *)
Definition operating (j : Job) (c : call) : Prop :=
  match j with
  | Running entered _ _ todo current _ => c ∈ entered ∨ todo = [] ∧ c = current
  | Done => False
  end.

(** A transaction with an outer call and the calls inside it. *)
Definition begin_job (calls : list call) : Job :=
  match calls with
  | [] => Done
  | outer :: later => Running [] [] [] (normalizedScopes outer) outer later
  end.

(** What a job does next, and the scope that must be free for it: it locks the next scope, begins the
    next call on the same transaction, or commits, which releases every lock.
    src: src/utils/mutation-scopes.ts:25-100 withDatabaseMutationScopes *)
Definition next_of (j : Job) : option (option scope * Job) :=
  match j with
  | Running entered kept acquired (s :: todo) current later =>
      Some (Some s, Running entered kept (s :: acquired) todo current later)
  | Running entered kept acquired [] current (next :: later) =>
      Some (None, Running (current :: entered) (acquired ++ kept) [] (normalizedScopes next) next later)
  | Running _ _ _ [] _ [] => Some (None, Done)
  | Done => None
  end.

(** No other job holds the scope. *)
Definition free (s : scope) (i : nat) (jobs : list Job) : bool :=
  forallb (λ p : nat * Job, bool_decide (p.1 = i) || bool_decide (s ∉ held_by p.2)) (imap pair jobs).

Inductive advance (jobs : list Job) : list Job → Prop :=
| advance_job (i : nat) j lock j' :
    jobs !! i = Some j → next_of j = Some (lock, j') → (∀ s, lock = Some s → free s i jobs = true) →
    advance jobs (<[i := j']> jobs).

(** A failure, of a lock request or of an operation: it releases the locks of the current call, down to
    its savepoint, and the operation around it goes on, with the calls to come or without; or it ends
    the transaction.
    src: src/utils/mutation-scopes.ts:64-81 withDatabaseMutationScopes *)
Inductive job_fails : Job → Job → Prop :=
| job_fails_call previous entered kept acquired todo current later later' :
    later' = later ∨ later' = [] →
    job_fails (Running (previous :: entered) kept acquired todo current later)
      (Running (previous :: entered) kept [] [] previous later')
| job_fails_job entered kept acquired todo current later :
    job_fails (Running entered kept acquired todo current later) Done.

Inductive step (jobs : list Job) : list Job → Prop :=
| step_advance jobs' : advance jobs jobs' → step jobs jobs'
| step_job_fails (i : nat) j j' : jobs !! i = Some j → job_fails j j' → step jobs (<[i := j']> jobs).

(** Jobs that run transactions with these calls. *)
Definition start (requests : list (list call)) : list Job := begin_job <$> requests.

Definition reachable (requests : list (list call)) (jobs : list Job) : Prop :=
  rtc step (start requests) jobs.

(** Somebody has not finished, and only a failure lets anybody go on. *)
Definition deadlocked (jobs : list Job) : Prop :=
  (∃ (i : nat) j, jobs !! i = Some j ∧ j ≠ Done) ∧ ∀ jobs', ¬ advance jobs jobs'.

(** ** Order *)

(** Strictly before in the lexical order. *)
Definition before (a b : scope) : Prop := compare_str a b < 0.

Lemma normalizedScopes_sorted scopes : StronglySorted before (normalizedScopes scopes).
Proof.
  unfold normalizedScopes. set (l := dedup _).
  pose proof (js_sort_sorted compare_str l) as Hs.
  assert (NoDup (js_sort compare_str l)) as Hnd by (rewrite js_sort_perm; apply NoDup_dedup).
  induction Hs as [|x k Hk IH Hx]; [constructor|]. apply NoDup_cons in Hnd as [Hnx Hnd].
  constructor; [by apply IH|]. rewrite Forall_forall in Hx |- *. intros y Hy.
  specialize (Hx y Hy). unfold cmp_le, before in *.
  destruct (Z.eq_dec (compare_str x y) 0) as [->%compare_str_eq|]; [done|lia].
Qed.

Lemma exists_last (l : list scope) :
  l ≠ [] → ∃ x, x ∈ l ∧ ∀ y, y ∈ l → ¬ before x y.
Proof.
  induction l as [|a l IH]; [done|]. intros _. destruct l as [|b l].
  { exists a. split; [by left|]. intros y ->%list_elem_of_singleton.
    unfold before. pose proof (compare_str_flip a a). lia. }
  destruct IH as (x & Hx & Hmax); [done|]. destruct (Z_lt_dec (compare_str x a) 0) as [Hlt|Hge].
  - exists a. split; [by left|]. intros y [->|Hy]%elem_of_cons Hay; unfold before in *.
    + pose proof (compare_str_flip a a). lia.
    + specialize (Hmax y Hy). pose proof (compare_str_trans x a y). 
      pose proof (compare_str_flip x y). pose proof (compare_str_flip y a).
      destruct (Z.eq_dec (compare_str x y) 0) as [<-%compare_str_eq|]; [|lia].
      pose proof (compare_str_flip a x). lia.
  - exists x. split; [by right|]. intros y [->|Hy]%elem_of_cons; [done|by apply Hmax].
Qed.

(** ** Invariants of the protocol *)

Lemma free_spec s i jobs :
  free s i jobs = true ↔ ∀ (k : nat) j, k ≠ i → jobs !! k = Some j → s ∉ held_by j.
Proof.
  unfold free. rewrite forallb_forall. split.
  - intros H k j Hk Hj. specialize (H (k, j)).
    assert (List.In (k, j) (imap pair jobs)) as Hin.
    { apply list_elem_of_In, list_elem_of_lookup. exists k. by rewrite list_lookup_imap, Hj. }
    specialize (H Hin). simpl in H. rewrite bool_decide_eq_false_2 in H by done.
    by apply bool_decide_eq_true in H.
  - intros H [k j] Hin. apply list_elem_of_In, list_elem_of_lookup in Hin as [n Hn].
    rewrite list_lookup_imap in Hn. destruct (jobs !! n) as [j'|] eqn:E; simpl in Hn; [|done].
    injection Hn as -> ->. simpl. case_bool_decide; [done|]. simpl.
    apply bool_decide_eq_true_2. by apply (H k).
Qed.

Lemma not_free s i jobs :
  free s i jobs = false → ∃ (k : nat) j, k ≠ i ∧ jobs !! k = Some j ∧ s ∈ held_by j.
Proof.
  intros H. apply not_true_iff_false in H. unfold free in H. rewrite forallb_forall in H.
  destruct (existsb (λ p : nat * Job, negb (bool_decide (p.1 = i) || bool_decide (s ∉ held_by p.2))) (imap pair jobs)) eqn:E.
  - apply existsb_exists in E as ([k j] & Hin & Hn). apply list_elem_of_In, list_elem_of_lookup in Hin as [n Hl].
    rewrite list_lookup_imap in Hl. destruct (jobs !! n) as [j'|] eqn:Hj; simpl in Hl; [|done]. injection Hl as -> ->.
    apply negb_true_iff, orb_false_iff in Hn as [Hk Hs]. simpl in Hk, Hs.
    apply bool_decide_eq_false in Hk, Hs. exists k, j. split_and!; [done|done|].
    destruct (decide (s ∈ held_by j)); [done|by destruct Hs].
  - destruct H. intros p Hp. apply not_false_iff_true. intros Hf.
    assert (existsb (λ p : nat * Job, negb (bool_decide (p.1 = i) || bool_decide (s ∉ held_by p.2))) (imap pair jobs) = true) as Hx; [|congruence].
    apply existsb_exists. exists p. by rewrite Hf.
Qed.

(** A step is the move of one job. *)
Definition moves (jobs : list Job) (i : nat) (j j' : Job) : Prop :=
  job_fails j j' ∨ ∃ lock, next_of j = Some (lock, j') ∧ ∀ s, lock = Some s → free s i jobs = true.

Lemma step_moves jobs jobs' :
  step jobs jobs' → ∃ (i : nat) j j', jobs !! i = Some j ∧ jobs' = <[i := j']> jobs ∧ moves jobs i j j'.
Proof.
  intros [? [i j lock j' Hj Hn Hf]|i j j' Hj Hg]; exists i, j, j'; (split_and!; [done|done|]); [right|by left].
  by exists lock.
Qed.

Lemma moves_held jobs i j j' s :
  moves jobs i j j' → s ∈ held_by j' → s ∈ held_by j ∨ free s i jobs = true.
Proof.
  intros [Hg|(lock & Hn & Hf)] Hs.
  - left. destruct Hg; simpl in *; [set_solver|by apply elem_of_nil in Hs].
  - destruct j as [ent kept acq [|s' todo] cur [|next later]|]; simplify_eq/=; try set_solver.
    all: apply elem_of_cons in Hs as [->|Hs]; [right; by apply Hf|by left].
Qed.

(** What holds of every job at the start and after its moves. *)
Lemma jobs_invariant (P : Job → Prop) requests jobs :
  (∀ calls, calls ∈ requests → P (begin_job calls)) →
  (∀ jobs i j j', P j → moves jobs i j j' → P j') →
  reachable requests jobs → Forall P jobs.
Proof.
  intros H0 Hmove Hr. assert (Forall P (start requests)) as Hs.
  { apply Forall_forall. intros j (calls & -> & Hc)%list_elem_of_fmap. by apply H0. }
  revert Hs. unfold reachable in Hr. induction Hr as [|x y z Hxy _ IH]; [done|]. intros Hs. apply IH.
  apply step_moves in Hxy as (i & j & j' & Hj & -> & Hm). apply Forall_insert; [done|].
  eapply Hmove; [|done]. by eapply Forall_lookup_1 in Hs.
Qed.

(** No scope is locked by two jobs. *)
Definition exclusive (jobs : list Job) : Prop :=
  ∀ (i k : nat) j1 j2 s, i ≠ k → jobs !! i = Some j1 → jobs !! k = Some j2 →
    s ∈ held_by j1 → s ∉ held_by j2.

Lemma insert_inv (jobs : list Job) (i k : nat) (x y : Job) :
  <[i := x]> jobs !! k = Some y → (k = i ∧ y = x) ∨ (k ≠ i ∧ jobs !! k = Some y).
Proof. intros [(-> & -> & _)|[Hne Hk]]%list_lookup_insert_Some; [by left|]. right. split; congruence. Qed.

Lemma step_exclusive jobs jobs' : exclusive jobs → step jobs jobs' → exclusive jobs'.
Proof.
  intros Hex (i & j & j' & Hi & -> & Hm)%step_moves a b j1 j2 s Hab Ha Hb Hs1 Hs2.
  apply insert_inv in Ha as [[-> ->]|[Hai Ha]], Hb as [[-> ->]|[Hbi Hb]]; [done|..].
  - destruct (moves_held _ _ _ _ _ Hm Hs1) as [Hs|Hf]; [by apply (Hex i b j j2 s)|].
    by apply (proj1 (free_spec _ _ _) Hf b j2).
  - destruct (moves_held _ _ _ _ _ Hm Hs2) as [Hs|Hf]; [by apply (Hex a i j1 j s)|].
    by apply (proj1 (free_spec _ _ _) Hf a j1).
  - by apply (Hex a b j1 j2 s).
Qed.

Lemma reachable_exclusive requests jobs : reachable requests jobs → exclusive jobs.
Proof.
  unfold reachable. intros H. assert (exclusive (start requests)) as H0.
  { intros a b j1 j2 s _ Ha _ Hs. unfold start in Ha. rewrite list_lookup_fmap in Ha.
    destruct (requests !! a) as [[|c calls]|]; simplify_eq/=; by apply elem_of_nil in Hs. }
  revert H0. induction H; [done|]. intros. apply IHrtc. by eapply step_exclusive.
Qed.

(** The scopes of a call whose operation has begun are locked. *)
Definition job_ok (j : Job) : Prop :=
  match j with
  | Running entered kept acquired todo current _ =>
      (∀ c s, c ∈ entered → s ∈ normalizedScopes c → s ∈ kept) ∧
      (rev acquired ++ todo = normalizedScopes current ∨ todo = [] ∧ acquired = [] ∧ current ∈ entered)
  | Done => True
  end.

Lemma reachable_ok requests jobs : reachable requests jobs → Forall job_ok jobs.
Proof.
  apply jobs_invariant.
  - intros [|c calls] _; [done|]. split; [by intros c' s ?%elem_of_nil|by left].
  - intros js i j j' Hok [Hg|(lock & Hn & _)].
    + destruct Hg as [previous ent kept acq todo cur later later' _|]; [|done]. destruct Hok as [Hk _].
      split; [done|]. right. split_and!; [done|done|by left].
    + destruct j as [ent kept acq [|s todo] cur [|next later]|]; simplify_eq/=; try done; destruct Hok as [Hk Hc].
      * split; [|by left]. intros c s [->|Hin]%elem_of_cons Hs; apply elem_of_app; [|right; by eapply Hk].
        destruct Hc as [Hc|(_ & _ & Hc)]; [left|right; by eapply Hk].
        rewrite app_nil_r in Hc. by rewrite <-Hc, <-(Permutation_rev acq) in Hs.
      * split; [done|]. left. destruct Hc as [<-|[? _]]; [|done]. by rewrite <-app_assoc.
      * split; [done|]. left. destruct Hc as [<-|[? _]]; [|done]. by rewrite <-app_assoc.
Qed.

Lemma operating_locked j c s : job_ok j → operating j c → s ∈ normalizedScopes c → s ∈ held_by j.
Proof.
  destruct j as [ent kept acq todo cur later|]; [|done]. intros [Hk Hc] Hop Hs. simpl. apply elem_of_app.
  destruct Hop as [Hin|[-> ->]]; [right; by eapply Hk|].
  destruct Hc as [Hc|(_ & _ & Hin)]; [left|right; by eapply Hk].
  rewrite app_nil_r in Hc. by rewrite <-Hc, <-(Permutation_rev acq) in Hs.
Qed.

(** ** Jobs of one call *)

Definition single (j : Job) : Prop :=
  match j with
  | Running entered kept acquired todo current later =>
      entered = [] ∧ kept = [] ∧ later = [] ∧ rev acquired ++ todo = normalizedScopes current
  | Done => True
  end.

Lemma single_moves jobs i j j' : single j → moves jobs i j j' → single j'.
Proof.
  intros Hs [Hg|(lock & Hn & _)].
  - destruct Hg; [by destruct Hs|done].
  - destruct j as [ent kept acq [|s todo] cur [|next later]|]; simplify_eq/=; try done;
      destruct Hs as (-> & -> & ? & Hs); try done.
    split_and!; try done. by rewrite <-Hs, <-app_assoc.
Qed.

Lemma reachable_single (calls : list call) jobs :
  reachable ((λ c, [c]) <$> calls) jobs → Forall single jobs.
Proof.
  apply jobs_invariant; [|by apply single_moves].
  intros l (c & -> & _)%list_elem_of_fmap. by split_and!.
Qed.

Definition job_work (j : Job) : Z :=
  match j with Running _ _ _ todo _ _ => Z.of_nat (length todo) + 1 | Done => 0 end.

Lemma sum_by_insert {A} (f : A → Z) (l : list A) (i : nat) x y :
  l !! i = Some x → sum_by f (<[i := y]> l) = sum_by f l - f x + f y.
Proof.
  intros Hi. rewrite <-(take_drop_middle l i x) at 2 by done.
  rewrite insert_take_drop by (by eapply lookup_lt_Some).
  rewrite !sum_by_app. unfold sum_by. simpl. lia.
Qed.

Lemma step_work jobs jobs' :
  Forall single jobs → step jobs jobs' →
  Forall single jobs' ∧ sum_by job_work jobs' + 1 ≤ sum_by job_work jobs.
Proof.
  intros Hs (i & j & j' & Hi & -> & Hm)%step_moves. pose proof (Forall_lookup_1 _ _ _ _ Hs Hi) as Hj.
  split; [apply Forall_insert; [done|by eapply single_moves]|]. rewrite (sum_by_insert _ _ _ _ _ Hi).
  destruct Hm as [Hg|(lock & Hn & _)].
  - destruct Hg; [by destruct Hj|]. simpl. lia.
  - destruct j as [ent kept acq [|s todo] cur [|next later]|]; simplify_eq/=; try lia.
    by destruct Hj as (_ & _ & [=] & _).
Qed.

(** Some job can go on: the one that waits for the last scope. *)
Lemma ordered_progress jobs : Forall single jobs → ¬ deadlocked jobs.
Proof.
  intros Hs [(i0 & j0 & H0 & Hne) Hstuck]. rewrite Forall_lookup in Hs.
  (* every running job waits for a scope somebody else holds *)
  assert (∀ (i : nat) j, jobs !! i = Some j → j ≠ Done → ∃ acq s rest cur (k : nat) acq' todo' cur',
    j = Running [] [] acq (s :: rest) cur [] ∧ jobs !! k = Some (Running [] [] acq' todo' cur' []) ∧ s ∈ acq') as Hwait.
  { intros i j Hi Hj. pose proof (Hs _ _ Hi) as Hsj. destruct j as [ent kept acq todo cur later|]; [|done].
    destruct Hsj as (-> & -> & -> & _). destruct todo as [|s rest].
    { by destruct (Hstuck _ (advance_job _ i _ None _ Hi eq_refl ltac:(done))). }
    destruct (free s i jobs) eqn:Hf.
    { destruct (Hstuck _ (advance_job _ i _ (Some s) _ Hi eq_refl ltac:(by intros ? [= <-]))). }
    apply not_free in Hf as (k & [ent' kept' acq' todo' cur' later'|] & _ & Hk & Hin); [|by apply elem_of_nil in Hin].
    destruct (Hs _ _ Hk) as (-> & -> & -> & _). simpl in Hin. rewrite app_nil_r in Hin.
    by exists acq, s, rest, cur, k, acq', todo', cur'. }
  set (heads := omap (λ j, match j with Running _ _ _ (s :: _) _ _ => Some s | _ => None end) jobs).
  assert (∀ (i : nat) acq s rest cur, jobs !! i = Some (Running [] [] acq (s :: rest) cur []) → s ∈ heads) as Hhead.
  { intros i acq s rest cur Hi. apply list_elem_of_omap. eexists.
    split; [by eapply list_elem_of_lookup_2|done]. }
  destruct (exists_last heads) as (m & Hm & Hmax).
  { destruct (Hwait _ _ H0 Hne) as (acq & s & rest & cur & _ & _ & _ & _ & -> & _).
    apply Hhead in H0. intros Heq. rewrite Heq in H0. by apply not_elem_of_nil in H0. }
  apply list_elem_of_omap in Hm as (j & Hj & Heq).
  destruct j as [ent kept acq [|s rest] cur later|]; simplify_eq. apply list_elem_of_lookup in Hj as [i Hi].
  destruct (Hwait _ _ Hi ltac:(done)) as (acq1 & s1 & rest1 & cur1 & k & acq' & todo' & cur' & Hj1 & Hk & Hin).
  destruct (Hwait _ _ Hk ltac:(done)) as (acq2 & s2 & rest2 & cur2 & _ & _ & _ & _ & Hj2 & _).
  simplify_eq. apply (Hmax s2); [by eapply Hhead|].
  destruct (Hs _ _ Hk) as (_ & _ & _ & Horder).
  pose proof (normalizedScopes_sorted cur2) as Hsorted. rewrite <-Horder in Hsorted.
  apply StronglySorted_app in Hsorted as (Hc & _ & _).
  apply Hc; [by rewrite <-(Permutation_rev acq2)|by left].
Qed.

(** C28: jobs that each lock the scopes of one [withMutationScopes] call never deadlock: in every
    reachable interleaving, in which jobs may also fail at any time, some unfinished job can go on
    without any failure, and no interleaving is longer than the number of locks plus one end per job,
    so all of them finish. *)
Theorem mutation_scopes_progress (calls : list call) :
  (∀ jobs, reachable ((λ c, [c]) <$> calls) jobs → ¬ deadlocked jobs) ∧
  (∀ n jobs, nsteps step n (start ((λ c, [c]) <$> calls)) jobs →
     Z.of_nat n ≤ sum_by (λ scopes, Z.of_nat (length (normalizedScopes scopes)) + 1) calls).
Proof.
  split.
  - intros jobs Hr. by eapply ordered_progress, reachable_single.
  - intros n jobs H.
    assert (sum_by job_work (start ((λ c, [c]) <$> calls)) =
            sum_by (λ scopes, Z.of_nat (length (normalizedScopes scopes)) + 1) calls) as <-.
    { unfold start. by rewrite !sum_by_fmap. }
    assert (Forall single (start ((λ c, [c]) <$> calls))) as Hs by (apply (reachable_single calls); apply rtc_refl).
    assert (Z.of_nat n + sum_by job_work jobs ≤ sum_by job_work (start ((λ c, [c]) <$> calls))) as Hn.
    { induction H as [|n x y z Hxy _ IH]; [lia|]. destruct (step_work _ _ Hs Hxy) as [Hy Hw].
      specialize (IH Hy). lia. }
    assert (0 ≤ sum_by job_work jobs); [|lia].
    clear. unfold sum_by. induction jobs as [|[ent kept acq todo cur later|] jobs IH]; simpl; lia.
Qed.

(** ** Structure writers *)

(** The calls that guard writes of tournament structure tables. *)
Inductive structure_call : list scope → Prop :=
| call_rebuild tid : structure_call (tournamentSetupRebuildScopes tid)
| call_backfill ev : structure_call (tournamentSetupBackfillEventScopes ev)
| call_results name ev tid :
    name ∈ ["tournament-points-race"; "tournament-battle-race"; "tournament-knockout";
            "tournament-official-h2h"; "tournament-materialized-views-refresh"]%string →
    structure_call (resolveMutationScopes (mkScopeInput "tournament-sync" name ev tid)).

Lemma elem_of_normalizedScopes s scopes :
  s ∈ normalizedScopes scopes ↔ s ≠ [] ∧ ∃ s', s = js_trim s' ∧ s' ∈ scopes.
Proof.
  unfold normalizedScopes. by rewrite elem_of_js_sort, elem_of_dedup, list_elem_of_filter, list_elem_of_fmap.
Qed.

Lemma structure_call_global scopes :
  structure_call scopes → TOURNAMENT_STRUCTURE_GLOBAL_SCOPE ∈ normalizedScopes scopes.
Proof.
  intros Hc. apply elem_of_normalizedScopes. split; [discriminate|].
  exists TOURNAMENT_STRUCTURE_GLOBAL_SCOPE. split; [reflexivity|].
  destruct Hc as [tid|ev|name ev tid Hname]; [by right; left..|].
  repeat (apply elem_of_cons in Hname as [->|Hname];
    [first [by left | by right; left]|]). by apply not_elem_of_nil in Hname.
Qed.

(** C20: at no moment of any interleaving, failures included, has the operation of a call that writes
    tournament structure (a setup rebuild, a backfilled gameweek, a points, battle, knockout or official
    results job, the refresh of the materialized views) begun in two jobs whose transactions have not
    ended: not even when the call is nested in another one and the job goes on to lock the scopes of
    later calls, and for whatever tournaments and gameweeks. So a rebuild cannot tear structure down
    under a results job. *)
Theorem structure_writers_exclude (requests : list (list call)) (jobs : list Job) (i k : nat)
    (job1 job2 : Job) (c1 c2 : call)
    (Hr : reachable requests jobs) (Hik : i ≠ k)
    (Hi : jobs !! i = Some job1) (Hk : jobs !! k = Some job2)
    (Hs1 : structure_call c1) (Hs2 : structure_call c2) (Hop : operating job1 c1) :
  ¬ operating job2 c2.
Proof.
  intros Hop2. pose proof (reachable_ok _ _ Hr) as Hok.
  apply (reachable_exclusive _ _ Hr i k job1 job2 TOURNAMENT_STRUCTURE_GLOBAL_SCOPE Hik Hi Hk).
  - eapply operating_locked; [by eapply Forall_lookup_1|done|by apply structure_call_global].
  - eapply operating_locked; [by eapply Forall_lookup_1|done|by apply structure_call_global].
Qed.

(** ** Nested calls *)

(** The calls of a tournament setup: inside the lifecycle call of the worker, that of the entries, that
    of the rebuild, those that fetch the results missing for a gameweek, those that calculate the
    standings of a gameweek (one for each of its modes), and those of the entries that complete its
    history.
    src: src/services/tournament-setup.service.ts:260-372 setupTournamentStructure *)
Definition setup_calls (tournamentId seasonId : Z) (entryIds : list Z) (missing : list (list Z))
    (events : list Z) (history : list (list Z)) : list call :=
  [tournamentSetupLifecycleScope (Some tournamentId)] ::
  tournamentEntryCoreScopes seasonId entryIds ::
  tournamentSetupRebuildScopes (Some tournamentId) ::
  (tournamentEntryCoreScopes seasonId <$> missing) ++
  ((λ e, tournamentSetupBackfillEventScopes (Some e)) <$> events) ++
  (tournamentEntryCoreScopes seasonId <$> history).

(** The next step of job [i], executable. *)
Definition exec_step (i : nat) (jobs : list Job) : option (list Job) :=
  j ← jobs !! i;
  '(lock, j') ← next_of j;
  if match lock with Some s => free s i jobs | None => true end then Some (<[i := j']> jobs) else None.

Fixpoint exec (schedule : list nat) (jobs : list Job) : option (list Job) :=
  match schedule with
  | [] => Some jobs
  | i :: schedule' => exec_step i jobs ≫= exec schedule'
  end.

Lemma exec_step_advance i jobs jobs' : exec_step i jobs = Some jobs' → advance jobs jobs'.
Proof.
  unfold exec_step. intros H. apply bind_Some in H as (j & Hj & H). apply bind_Some in H as ([lock j'] & Hn & H).
  destruct (match lock with Some s => free s i jobs | None => true end) eqn:Hf; simplify_eq.
  eapply advance_job; [done|done|]. by intros s ->.
Qed.

Lemma exec_reachable schedule requests jobs :
  exec schedule (start requests) = Some jobs → reachable requests jobs.
Proof.
  unfold reachable. generalize (start requests). induction schedule as [|i schedule IH]; simpl; intros js H; [by simplify_eq|].
  apply bind_Some in H as (js1 & H1 & H2).
  eapply rtc_l; [|by apply IH]. by eapply step_advance, exec_step_advance.
Qed.

(** A setup whose rebuild has begun, and a knockout job that waits for the global scope. *)
Lemma structure_writers_exclude_witness :
  let rebuild := tournamentSetupRebuildScopes (Some 7) in
  let results :=
    resolveMutationScopes (mkScopeInput "tournament-sync" "tournament-knockout" (Some 5) None) in
  let requests := [setup_calls 7 2025 [11; 12] [] [5] []; [results]] in
  ∃ jobs job1 job2, reachable requests jobs ∧ jobs !! 0%nat = Some job1 ∧ jobs !! 1%nat = Some job2 ∧
    operating job1 rebuild ∧ next_of job1 ≠ Some (None, Done) ∧
    held_by job2 = [tagged "tournament-structure:event:" 5] ∧ ¬ operating job2 results.
Proof.
  intros rebuild results requests.
  destruct (exec [0; 0; 0; 0; 0; 0; 0; 1]%nat (start requests)) as [jobs|] eqn:E; [|vm_compute in E; discriminate E].
  pose proof (exec_reachable _ _ _ E) as Hr. vm_compute in E. injection E as E.
  destruct (jobs !! 0%nat) as [job1|] eqn:E1; [|rewrite <-E in E1; discriminate E1].
  destruct (jobs !! 1%nat) as [job2|] eqn:E2; [|rewrite <-E in E2; discriminate E2].
  assert (operating job1 rebuild) as Hop.
  { rewrite <-E in E1. injection E1 as <-. right. split; [reflexivity|vm_compute; reflexivity]. }
  exists jobs, job1, job2. split; [exact Hr|]. split; [exact E1|]. split; [exact E2|]. split; [exact Hop|].
  split; [rewrite <-E in E1; injection E1 as <-; discriminate|].
  split; [rewrite <-E in E2; injection E2 as <-; vm_compute; reflexivity|].
  apply (structure_writers_exclude requests jobs 0 1 job1 job2 rebuild results Hr); try assumption.
  - discriminate.
  - apply call_rebuild.
  - apply call_results. right; right; left.
Defined.

(** ** Names of scopes *)

Definition event_scope_name (e : Z) : scope := tagged "tournament-structure:event:" e.

Definition no_space (s : scope) : Prop := ∀ c, c ∈ s → is_space c = false.

Lemma no_space_app a b : no_space a → no_space b → no_space (a ++ b).
Proof. intros Ha Hb c [?|?]%elem_of_app; [by apply Ha|by apply Hb]. Qed.

Lemma no_space_js (s : string) : forallb (λ c, negb (is_space c)) (js s) = true → no_space (js s).
Proof. rewrite forallb_forall. intros H c Hc%list_elem_of_In. by apply negb_true_iff, H. Qed.

Lemma no_space_print n : no_space (print_int n).
Proof.
  assert (∀ m, 0 ≤ m → no_space (print_int m)) as Hpos.
  { intros m Hm c Hc. apply is_digit_not_space. pose proof (print_int_digits m Hm) as Hd.
    rewrite forallb_forall in Hd. by apply Hd, list_elem_of_In. }
  destruct (Z.ltb_spec n 0) as [Hn|Hn]; [|by apply Hpos]. intros c Hc. unfold print_int in Hc.
  rewrite (proj2 (Z.ltb_lt n 0)) in Hc by done. specialize (Hpos (- n) ltac:(lia)). unfold print_int in Hpos.
  rewrite (proj2 (Z.ltb_ge (- n) 0)) in Hpos by lia.
  apply elem_of_cons in Hc as [->|Hc]; [done|by apply Hpos].
Qed.

#[local] Hint Resolve no_space_app no_space_print : scopes.
#[local] Hint Extern 1 (no_space (js _)) => (apply no_space_js; reflexivity) : scopes.

Lemma no_space_tagged name n : no_space (js name) → no_space (tagged name n).
Proof. intros H. unfold tagged. auto with scopes. Qed.

#[local] Hint Resolve no_space_tagged : scopes.

(** Names with different beginnings. *)
Lemma take_ne {A} (n : nat) (a b : list A) : take n a ≠ take n b → a ≠ b.
Proof. by intros H ->. Qed.

Lemma setup_scope_name c s e tournamentId seasonId :
  (c = [tournamentSetupLifecycleScope (Some tournamentId)] ∨ (∃ ids, c = tournamentEntryCoreScopes seasonId ids) ∨
   c = tournamentSetupRebuildScopes (Some tournamentId) ∨
   ∃ e', 0 < e' ∧ 0 < e ∧ e' ≠ e ∧ c = tournamentSetupBackfillEventScopes (Some e')) →
  s ∈ normalizedScopes c → s ≠ event_scope_name e.
Proof.
  intros Hc [_ (s' & -> & Hs)]%elem_of_normalizedScopes.
  assert (no_space s' → s' ≠ event_scope_name e → js_trim s' ≠ event_scope_name e) as Htrim
    by (intros H; by rewrite js_trim_id).
  destruct Hc as [->|[[ids ->]|[->|(e' & He' & He & Hne & ->)]]].
  - apply list_elem_of_singleton in Hs as ->. apply Htrim; [unfold tournamentSetupLifecycleScope; auto with scopes|].
    apply (take_ne 13). vm_compute. discriminate.
  - unfold tournamentEntryCoreScopes in Hs. rewrite elem_of_js_sort, elem_of_dedup in Hs.
    apply list_elem_of_fmap in Hs as (id & -> & _). apply Htrim; [auto 6 with scopes|].
    apply (take_ne 1). vm_compute. discriminate.
  - unfold tournamentSetupRebuildScopes in Hs. apply elem_of_cons in Hs as [->|Hs%list_elem_of_singleton].
    + apply Htrim; [auto with scopes|]. apply (take_ne 22). vm_compute. discriminate.
    + subst s'. apply Htrim; [by apply no_space_js|]. apply (take_ne 22). vm_compute. discriminate.
  - unfold tournamentSetupBackfillEventScopes in Hs. apply elem_of_cons in Hs as [->|Hs%list_elem_of_singleton].
    + apply Htrim; [auto with scopes|]. unfold event_scope_name, tagged. intros Heq%app_inv_head.
      apply print_int_inj in Heq; [done|lia..].
    + subst s'. apply Htrim; [by apply no_space_js|]. apply (take_ne 22). vm_compute. discriminate.
Qed.

(** The scope of a gameweek comes before the global one. *)
Lemma event_then_global e :
  normalizedScopes [event_scope_name e; TOURNAMENT_STRUCTURE_GLOBAL_SCOPE] =
  [event_scope_name e; TOURNAMENT_STRUCTURE_GLOBAL_SCOPE].
Proof.
  unfold normalizedScopes. cbn [fmap list_fmap]. rewrite !js_trim_id.
  - unfold event_scope_name, tagged. generalize (print_int e). intros x. vm_compute. reflexivity.
  - by apply no_space_js.
  - change (no_space (event_scope_name e)). unfold event_scope_name. auto with scopes.
Qed.

Lemma results_scopes name e tid :
  name ∈ ["tournament-points-race"; "tournament-battle-race"; "tournament-knockout"; "tournament-official-h2h"]%string →
  resolveMutationScopes (mkScopeInput "tournament-sync" name (Some e) tid) =
    [event_scope_name e; TOURNAMENT_STRUCTURE_GLOBAL_SCOPE].
Proof.
  intros Hname. repeat (apply elem_of_cons in Hname as [->|Hname]; [reflexivity|]). by apply elem_of_nil in Hname.
Qed.

(** ** A setup that runs alone *)

Lemma alone_free s jobs1 (j0 : Job) : held_by jobs1 = [] → free s 0 [j0; jobs1] = true.
Proof.
  intros H. apply free_spec. intros [|[|k]] j Hk Hj; simplify_eq/=. rewrite H. apply not_elem_of_nil.
Qed.

Lemma step_first j lock j' j1 : held_by j1 = [] → next_of j = Some (lock, j') → step [j; j1] [j'; j1].
Proof.
  intros H1 Hn. apply step_advance. apply (advance_job [j; j1] 0 j lock j'); [done|done|].
  intros s _. by apply alone_free.
Qed.

Lemma run_locks entered kept acquired todo current later j1 :
  held_by j1 = [] →
  rtc step [Running entered kept acquired todo current later; j1]
    [Running entered kept (rev todo ++ acquired) [] current later; j1].
Proof.
  intros H1. revert acquired. induction todo as [|s todo IH]; intros acquired; [apply rtc_refl|].
  eapply rtc_l; [by eapply step_first|]. simpl. rewrite <-app_assoc. apply IH.
Qed.

Lemma run_calls calls entered kept acquired todo current c later j1 :
  held_by j1 = [] →
  ∃ entered' kept',
    rtc step [Running entered kept acquired todo current (calls ++ c :: later); j1]
      [Running entered' kept' [] (normalizedScopes c) c later; j1] ∧
    (∀ x, x ∈ entered' ↔ x ∈ current :: calls ∨ x ∈ entered) ∧
    (∀ s, s ∈ kept' ↔ s ∈ kept ++ acquired ++ todo ∨ ∃ x, x ∈ calls ∧ s ∈ normalizedScopes x).
Proof.
  intros H1. revert entered kept acquired todo current.
  induction calls as [|next calls IH]; intros entered kept acquired todo current.
  - exists (current :: entered), ((rev todo ++ acquired) ++ kept). split_and!.
    + eapply rtc_r; [by apply run_locks|]. by eapply step_first.
    + intros x. set_solver.
    + intros s. rewrite !elem_of_app, <-(Permutation_rev todo). set_solver.
  - destruct (IH (current :: entered) ((rev todo ++ acquired) ++ kept) [] (normalizedScopes next) next)
      as (entered' & kept' & Hrun & Hent & Hkept).
    exists entered', kept'. split_and!.
    + etrans; [by apply run_locks|]. eapply rtc_l; [|exact Hrun]. by eapply step_first.
    + intros x. rewrite Hent. set_solver.
    + intros s. rewrite Hkept, !elem_of_app, <-(Permutation_rev todo). set_solver.
Qed.

(** C30: the order is lost across nested calls: whatever a tournament setup works on, it keeps
    tournament-structure:global from its rebuild while it asks for the scope of a gameweek whose
    standings it calculates, and any points, battle, knockout or official results job of that gameweek
    may hold that scope while it asks for the global one. In that reachable state, with the rebuild
    of the setup not committed, neither job can go on before one of them fails: by the lock timeout of
    120 seconds, or when the database detects the deadlock. *)
Theorem nested_setup_deadlocks (tournamentId seasonId : Z) (entryIds : list Z) (missing : list (list Z))
    (earlier : list Z) (e : Z) (rest : list Z) (history : list (list Z)) (name : string) (resultsTournament : option Z)
    (Hname : name ∈ ["tournament-points-race"; "tournament-battle-race"; "tournament-knockout";
                     "tournament-official-h2h"]%string)
    (He : 0 < e) (Hearlier : ∀ x, x ∈ earlier → 0 < x ∧ x ≠ e) :
  let results := resolveMutationScopes (mkScopeInput "tournament-sync" name (Some e) resultsTournament) in
  ∃ setup job, reachable [setup_calls tournamentId seasonId entryIds missing (earlier ++ e :: rest) history; [results]]
      [setup; job] ∧
    deadlocked [setup; job] ∧ operating setup (tournamentSetupRebuildScopes (Some tournamentId)) ∧
    held_by job = [event_scope_name e] ∧ TOURNAMENT_STRUCTURE_GLOBAL_SCOPE ∈ held_by setup.
Proof.
  cbn zeta. rewrite results_scopes by done.
  set (rebuild := tournamentSetupRebuildScopes (Some tournamentId)).
  set (inner := tournamentEntryCoreScopes seasonId entryIds :: rebuild :: (tournamentEntryCoreScopes seasonId <$> missing) ++
    ((λ x, tournamentSetupBackfillEventScopes (Some x)) <$> earlier)).
  set (later := ((λ x, tournamentSetupBackfillEventScopes (Some x)) <$> rest) ++ (tournamentEntryCoreScopes seasonId <$> history)).
  set (outer := [tournamentSetupLifecycleScope (Some tournamentId)]).
  set (backfill := [event_scope_name e; TOURNAMENT_STRUCTURE_GLOBAL_SCOPE]).
  assert (setup_calls tournamentId seasonId entryIds missing (earlier ++ e :: rest) history =
    outer :: inner ++ backfill :: later) as ->.
  { unfold setup_calls, inner, later. rewrite fmap_app. cbn [fmap list_fmap app]. by rewrite <-!app_assoc. }
  set (waiting := Running [] [] [] (normalizedScopes backfill) backfill []).
  destruct (run_calls inner [] [] [] (normalizedScopes outer) outer backfill later waiting eq_refl)
    as (entered & kept & Hrun & Hent & Hkept).
  assert (TOURNAMENT_STRUCTURE_GLOBAL_SCOPE ∈ kept) as Hglobal.
  { apply Hkept. right. exists rebuild. split; [by right; left|]. apply structure_call_global, call_rebuild. }
  assert (event_scope_name e ∉ kept) as Hfree.
  { intros [Hs|(x & Hx & Hs)]%Hkept; [simpl in Hs|].
    - apply (setup_scope_name _ _ e tournamentId seasonId) in Hs; [done|by left].
    - apply (setup_scope_name _ _ e tournamentId seasonId) in Hs; [done|]. right.
      apply elem_of_cons in Hx as [->|Hx]; [left; by eexists|].
      apply elem_of_cons in Hx as [->|Hx]; [by right; left|].
      apply elem_of_app in Hx as [(ids & -> & _)%list_elem_of_fmap|(x' & -> & Hx')%list_elem_of_fmap]; [left; by eexists|].
      right; right. exists x'. by destruct (Hearlier x' Hx'). }
  set (setup := Running entered kept [] (normalizedScopes backfill) backfill later) in *.
  set (job := Running [] [] [event_scope_name e] [TOURNAMENT_STRUCTURE_GLOBAL_SCOPE] backfill []).
  exists setup, job. split_and!; [| | |done|by apply elem_of_app; right].
  - eapply rtc_r; [exact Hrun|]. apply step_advance, (advance_job [setup; waiting] 1 waiting (Some (event_scope_name e)) job);
      [done|unfold waiting, backfill; by rewrite event_then_global|].
    intros s [= <-]. apply free_spec. intros [|[|k]] j Hk Hj; [|done|done]. by injection Hj as <-.
  - split; [by exists 0%nat, setup|]. intros jobs' [i j lock j' Hj Hn Hf]. destruct i as [|[|i]]; [| |done].
    + injection Hj as <-. unfold setup, backfill in Hn. rewrite event_then_global in Hn. injection Hn as <- _.
      apply (proj1 (free_spec _ _ _) (Hf _ eq_refl) 1%nat job); [done|done|by left].
    + injection Hj as <-. injection Hn as <- _.
      apply (proj1 (free_spec _ _ _) (Hf _ eq_refl) 0%nat setup); [done|done|by apply elem_of_app; right].
  - left. apply Hent. left. by right; right; left.
Qed.

Lemma nested_setup_deadlocks_witness :
  ∃ setup job,
    reachable [setup_calls 7 2025 [11; 12] [[12]] [4; 5] []; [resolveMutationScopes
      (mkScopeInput "tournament-sync" "tournament-points-race" (Some 5) None)]] [setup; job] ∧
    deadlocked [setup; job].
Proof.
  destruct (nested_setup_deadlocks 7 2025 [11; 12] [[12]] [4] 5 [] [] "tournament-points-race" None)
    as (setup & job & Hr & Hd & _).
  - apply list_elem_of_here.
  - reflexivity.
  - intros x ->%list_elem_of_singleton. split; [reflexivity|discriminate].
  - exists setup, job. split; [exact Hr|exact Hd].
Defined.
