(* ===== verification/Redis.v ===== *)
(** * The Redis commands the publications use

    Redis is a service: the development relies on the documented effect of the commands on the
    string keys they name, stated as the laws of a class.  A key may have a time to live, as [PTTL]
    reports it; the passing of time takes it down, and removes the keys whose time is over and
    nothing else.  An instance on finite maps shows that the laws can be met. *)

From S2P Require Import Prelude JsNumber.

Class Redis (S V : Type) := {
  r_get : jsstr → S → option V;
  r_pttl : jsstr → S → option Z;             (* the milliseconds left; None for a key that stays, or no key *)
  r_set : jsstr → V → S → S;                 (* SET key value *)
  r_set_nx_px : jsstr → V → Z → S → S;       (* SET key value PX ms NX *)
  r_persist : jsstr → S → S;
  r_pexpire : jsstr → Z → S → S;
  r_del : jsstr → S → S;
  r_elapse : Z → S → S → Prop;               (* that many milliseconds pass *)
}.

Class RedisLaws (S V : Type) `{Redis S V} : Prop := {
  get_set k k' v s : r_get k (r_set k' v s) = if decide (k = k') then Some v else r_get k s;
  pttl_set k k' v s : r_pttl k (r_set k' v s) = if decide (k = k') then None else r_pttl k s;
  get_set_nx k k' v ms s :
    r_get k (r_set_nx_px k' v ms s) =
    if decide (k = k') then Some (nullish (r_get k s) v) else r_get k s;
  pttl_set_nx k k' v ms s :
    r_pttl k (r_set_nx_px k' v ms s) =
    if decide (k = k') then (if is_null (r_get k s) then Some ms else r_pttl k s) else r_pttl k s;
  get_persist k k' s : r_get k (r_persist k' s) = r_get k s;
  pttl_persist k k' s : r_pttl k (r_persist k' s) = if decide (k = k') then None else r_pttl k s;
  get_pexpire k k' ms s : 0 < ms → r_get k (r_pexpire k' ms s) = r_get k s;
  pttl_pexpire k k' ms s : 0 < ms →
    r_pttl k (r_pexpire k' ms s) =
    if decide (k = k') then (if is_null (r_get k s) then r_pttl k s else Some ms) else r_pttl k s;
  get_del k k' s : r_get k (r_del k' s) = if decide (k = k') then None else r_get k s;
  pttl_del k k' s : k ≠ k' → r_pttl k (r_del k' s) = r_pttl k s;
  elapse_get k ms s s' : r_elapse ms s s' →
    r_get k s' = r_get k s ∨ (∃ t, r_pttl k s = Some t ∧ t ≤ ms) ∧ r_get k s' = None;
  elapse_pttl k ms s s' : r_elapse ms s s' →
    match r_pttl k s with
    | None => r_pttl k s' = None
    | Some t => ms < t → r_pttl k s' = Some (t - ms)
    end;
}.

(** ** Volatile keys *)

Definition r_volatile {S V} `{Redis S V} (k : jsstr) (s : S) : bool := negb (is_null (r_pttl k s)).

Section volatile.
Context {S V : Type} `{RedisLaws S V}.
Implicit Types (s : S).

Lemma volatile_set k k' v s :
  r_volatile k (r_set k' v s) = if decide (k = k') then false else r_volatile k s.
Proof. unfold r_volatile. rewrite pttl_set. by case_decide. Qed.

Lemma volatile_set_nx k k' v ms s :
  r_volatile k (r_set_nx_px k' v ms s) =
  if decide (k = k') then (if is_null (r_get k s) then true else r_volatile k s) else r_volatile k s.
Proof. unfold r_volatile. rewrite pttl_set_nx. case_decide; [|done]. by destruct (is_null (r_get k s)). Qed.

Lemma volatile_persist k k' s : r_volatile k (r_persist k' s) = if decide (k = k') then false else r_volatile k s.
Proof. unfold r_volatile. rewrite pttl_persist. by case_decide. Qed.

Lemma volatile_pexpire k k' ms s : 0 < ms → k ≠ k' → r_volatile k (r_pexpire k' ms s) = r_volatile k s.
Proof. intros Hms Hne. unfold r_volatile. by rewrite pttl_pexpire, decide_False. Qed.

Lemma volatile_del k k' s : k ≠ k' → r_volatile k (r_del k' s) = r_volatile k s.
Proof. intros Hne. unfold r_volatile. by rewrite pttl_del. Qed.

(** A key that stays does, whatever time passes. *)
Lemma elapse_stays k ms s s' :
  r_elapse ms s s' → r_volatile k s = false → r_get k s' = r_get k s ∧ r_volatile k s' = false.
Proof.
  unfold r_volatile. intros He Hv. pose proof (elapse_pttl k ms s s' He) as Hp.
  destruct (r_pttl k s) as [t|] eqn:E; [done|]. split; [|by rewrite Hp].
  destruct (elapse_get k ms s s' He) as [|[(t & Ht & _) _]]; congruence.
Qed.
End volatile.

(** ** An instance: keys mapped to a value and the milliseconds left *)

Notation memory V := (gmap jsstr (V * option Z)).

(** An entry after some milliseconds. *)
Definition aged {V : Type} (ms : Z) (p : V * option Z) : option (V * option Z) :=
  match p.2 with
  | None => Some p
  | Some t => if t <=? ms then None else Some (p.1, Some (t - ms))
  end.

#[export] Instance memory_redis (V : Type) : Redis (memory V) V := {
  r_get k s := fst <$> s !! k;
  r_pttl k s := s !! k ≫= snd;
  r_set k v s := <[k := (v, None)]> s;
  r_set_nx_px k v ms s := match s !! k with Some _ => s | None => <[k := (v, Some ms)]> s end;
  r_persist k s := alter (λ p, (p.1, None)) k s;
  r_pexpire k ms s := alter (λ p, (p.1, Some ms)) k s;
  r_del k s := delete k s;
  r_elapse ms s s' := s' = omap (aged ms) s;
}.

#[export] Instance memory_laws (V : Type) : RedisLaws (memory V) V.
Proof.
  split; cbn [r_get r_pttl r_set r_set_nx_px r_persist r_pexpire r_del r_elapse memory_redis].
  - intros k k' v s. destruct (decide (k = k')) as [->|]; [by rewrite lookup_insert_eq|].
    by rewrite lookup_insert_ne.
  - intros k k' v s. destruct (decide (k = k')) as [->|]; [by rewrite lookup_insert_eq|].
    by rewrite lookup_insert_ne.
  - intros k k' v ms s. destruct (s !! k') as [p|] eqn:E.
    + destruct (decide (k = k')) as [->|]; [by rewrite E|done].
    + destruct (decide (k = k')) as [->|]; [by rewrite lookup_insert_eq, E|].
      by rewrite lookup_insert_ne.
  - intros k k' v ms s. destruct (s !! k') as [p|] eqn:E.
    + destruct (decide (k = k')) as [->|]; [by rewrite E|done].
    + destruct (decide (k = k')) as [->|]; [by rewrite lookup_insert_eq, E|].
      by rewrite lookup_insert_ne.
  - intros k k' s. destruct (decide (k = k')) as [->|].
    + rewrite lookup_alter_eq. by destruct (s !! k').
    + by rewrite lookup_alter_ne.
  - intros k k' s. destruct (decide (k = k')) as [->|].
    + rewrite lookup_alter_eq. by destruct (s !! k').
    + by rewrite lookup_alter_ne.
  - intros k k' ms s _. destruct (decide (k = k')) as [->|].
    + rewrite lookup_alter_eq. by destruct (s !! k').
    + by rewrite lookup_alter_ne.
  - intros k k' ms s _. destruct (decide (k = k')) as [->|].
    + rewrite lookup_alter_eq. by destruct (s !! k').
    + by rewrite lookup_alter_ne.
  - intros k k' s. destruct (decide (k = k')) as [->|]; [by rewrite lookup_delete_eq|].
    by rewrite lookup_delete_ne.
  - intros k k' s Hne. by rewrite lookup_delete_ne.
  - intros k ms s _ ->. rewrite lookup_omap. destruct (s !! k) as [[v [t|]]|]; cbn; [|by left..].
    destruct (Z.leb_spec t ms); cbn; [|by left]. right. split; [by exists t|done].
  - intros k ms s _ ->. rewrite lookup_omap. destruct (s !! k) as [[v [t|]]|]; cbn; [|done..].
    intros Ht. unfold aged. cbn. by rewrite (proj2 (Z.leb_gt _ _)).
Qed.
