(* ===== verification/DataPublication.v ===== *)
(** * Versioned publications ([src/cache/data-publication.ts])

    A publication is a set of immutable items, staged under revisioned keys with a time to live,
    and a manifest; activating it moves the pointer of its scope in one Lua script and gives the items
    it replaces a day to live.  A reader takes the pointer and the items by two commands, so
    [readActiveDataPublication] is given the stores of both.  Redis is the
    class of [Redis.v].  JSON texts, byte lengths and SHA-256 are the class [Codec] below.

    Timestamps are epoch milliseconds: the scripts compare [toISOString] texts, whose order is the
    order of time from year 0 to 9999.  An invalid [Date] is [None]. *)

From S2P Require Import Prelude JsCollections JsNumber Json Redis.

(** src: src/cache/data-publication.ts:10-10 DATA_PUBLICATION_STAGING_TTL_MS *)
Definition DATA_PUBLICATION_STAGING_TTL_MS : Z := 15 * 60 * 1000.

(** src: src/cache/data-publication.ts:11-11 DATA_PUBLICATION_RETIRED_TTL_MS *)
Definition DATA_PUBLICATION_RETIRED_TTL_MS : Z := 24 * 60 * 60 * 1000.

(** src: src/cache/data-publication.ts:20-20 DataPublicationDataset *)
Inductive Dataset := DatasetCore | DatasetLive | DatasetMarket.

(** src: src/cache/data-publication.ts:31-31 DataPublicationState *)
Inductive PublicationState := PActive | PScheduled | PLive | PSettled.

#[export] Instance Dataset_eq_dec : EqDecision Dataset.
Proof. solve_decision. Defined.
#[export] Instance PublicationState_eq_dec : EqDecision PublicationState.
Proof. solve_decision. Defined.

(** src: src/cache/data-publication.ts:33-37 DataPublicationScope *)
Record Scope := mkScope {
  sc_dataset : Dataset;
  sc_seasonCode : jsstr;
  sc_eventId : option Z;
}.

(** The only item type is ['string'], so the field is left out.
    src: src/cache/data-publication.ts:44-51 DataPublicationManifestItem *)
Record ManifestItem := mkItem {
  mi_name : jsstr;
  mi_key : jsstr;
  mi_count : Z;
  mi_bytes : Z;
  mi_sha256 : jsstr;
}.

(** src: src/cache/data-publication.ts:53-65 DataPublicationManifest *)
Record Manifest := mkManifest {
  mf_dataset : Dataset;
  mf_seasonCode : jsstr;
  mf_eventId : option Z;
  mf_revision : Z;
  mf_publicationId : jsstr;
  mf_sourceCheckedAt : Z;
  mf_lastSuccessfulFetchAt : option Z;
  mf_publishedAt : Z;
  mf_state : PublicationState;
  mf_items : list ManifestItem;
}.

#[export] Instance Scope_eq_dec : EqDecision Scope.
Proof. solve_decision. Defined.
#[export] Instance ManifestItem_eq_dec : EqDecision ManifestItem.
Proof. solve_decision. Defined.
#[export] Instance Manifest_eq_dec : EqDecision Manifest.
Proof. solve_decision. Defined.

(** src: src/cache/data-publication.ts:72-79 PublishDataRevisionInput *)
Record PublishInput := mkPublish {
  pi_scope : Scope;
  pi_revision : Z;
  pi_publicationId : jsstr;
  pi_sourceCheckedAt : option Z;
  pi_lastSuccessfulFetchAt : option (option Z);
  pi_state : PublicationState;
  pi_items : list (jsstr * json);
}.

(** Texts of values and their measures: what the code asks of [JSON.stringify], [JSON.parse],
    [Buffer.byteLength], [createHash('sha256')] and the [cjson] of the scripts. *)
Class Codec (V : Type) := {
  codec_eq_dec :: EqDecision V;
  encode_manifest : Manifest → V;
  decode_manifest : V → option Manifest;
  canonicalJson : json → V;
  postgresJsonbCanonicalJson : json → V;
  parse_text : V → option json;
  byte_length : V → Z;
  sha256 : V → jsstr;
}.

(** ** Validity *)

(** [/^\d{4}$/] *)
Definition is_season (s : jsstr) : bool := (length s =? 4)%nat && forallb is_digit s.

Definition is_alnum (c : Z) : bool := is_lower c || is_upper c || is_digit c.

(** [/^[a-z][a-zA-Z0-9]*$/] *)
Definition is_item_name (s : jsstr) : bool :=
  match s with c :: rest => is_lower c && forallb is_alnum rest | [] => false end.

Definition is_hex (c : Z) : bool := is_digit c || ((97 <=? c) && (c <=? 102)).

(** [/^[0-9a-f]{64}$/] *)
Definition is_sha256 (s : jsstr) : bool := (length s =? 64)%nat && forallb is_hex s.

(** A character class per position of the pattern of [isDataPublicationId]. *)
Definition uuid_classes : list (Z → bool) :=
  let hex c := is_hex (ascii_lower c) in
  let dash c := c =? 45 in
  repeat hex 8 ++ [dash] ++ repeat hex 4 ++ [dash] ++
  (λ c, (49 <=? c) && (c <=? 56)) :: repeat hex 3 ++ [dash] ++
  (λ c, bool_decide (ascii_lower c ∈ js "89ab")) :: repeat hex 3 ++ [dash] ++ repeat hex 12.

(** src: src/cache/data-publication.ts:13-18 isDataPublicationId *)
Definition isDataPublicationId (s : jsstr) : bool :=
  (length s =? length uuid_classes)%nat && forallb (λ p, p.1 p.2) (zip uuid_classes s).

(** src: src/cache/data-publication.ts:122-134 DATASET_ITEM_NAMES *)
Definition DATASET_ITEM_NAMES (dataset : Dataset) : list jsstr :=
  match dataset with
  | DatasetCore => [js "events"; js "teams"; js "players"; js "phases"; js "fixtures";
                    js "currentEventId"; js "selectionRules"]
  | DatasetLive => [js "eventLive"; js "fixtures"]
  | DatasetMarket => [js "context"]
  end.

(** src: src/cache/data-publication.ts:135-142 LEGACY_CORE_ITEM_NAMES *)
Definition LEGACY_CORE_ITEM_NAMES : list jsstr :=
  [js "events"; js "teams"; js "players"; js "phases"; js "fixtures"; js "currentEventId"].

(** src: src/cache/data-publication.ts:164-170 hasExactNames *)
Definition hasExactNames (names expectedNames : list jsstr) : bool :=
  bool_decide (js_sort compare_str names = js_sort compare_str expectedNames).

(** src: src/cache/data-publication.ts:156-162 hasExactItemNames *)
Definition hasExactItemNames (dataset : Dataset) (names : list jsstr) : bool :=
  hasExactNames names (DATASET_ITEM_NAMES dataset).

(** src: src/cache/data-publication.ts:172-177 hasAcceptedItemNames *)
Definition hasAcceptedItemNames (dataset : Dataset) (names : list jsstr) : bool :=
  hasExactItemNames dataset names ||
  (bool_decide (dataset = DatasetCore) && hasExactNames names LEGACY_CORE_ITEM_NAMES).

(** src: src/cache/data-publication.ts:179-185 isCanonicalState *)
Definition isCanonicalState (dataset : Dataset) (state : PublicationState) : bool :=
  match dataset with
  | DatasetCore | DatasetMarket => bool_decide (state = PActive)
  | DatasetLive => bool_decide (state ≠ PActive)
  end.

(** src: src/cache/data-publication.ts:299-318 assertScope *)
Definition assertScope (scope : Scope) : result unit :=
  reject_if negb (is_season (sc_seasonCode scope)) with_code "DATA_PUBLICATION_SEASON_INVALID" ;;
  match sc_dataset scope with
  | DatasetLive =>
      reject_if match sc_eventId scope with Some e => e <=? 0 | None => true end
        with_code "DATA_PUBLICATION_EVENT_INVALID" ;;
      Ok ()
  | _ =>
      reject_if negb (is_null (sc_eventId scope))
        with_code "DATA_PUBLICATION_CORE_EVENT_INVALID" ;;
      Ok ()
  end.

Definition dataset_name (dataset : Dataset) : jsstr :=
  match dataset with
  | DatasetCore => js "fpl:core"
  | DatasetLive => js "fpl:live"
  | DatasetMarket => js "fpl:market"
  end.

(** src: src/cache/data-publication.ts:9-9 DATA_CACHE_NAMESPACE *)
Definition DATA_CACHE_NAMESPACE : jsstr := js "llm:data".

(** [:] *)
Definition colon : Z := 58.

(** src: src/cache/data-publication.ts:320-325 scopePrefix *)
Definition scopePrefix (scope : Scope) : result jsstr :=
  let* _ := assertScope scope in
  let base := DATA_CACHE_NAMESPACE ++ colon :: dataset_name (sc_dataset scope) ++
                colon :: sc_seasonCode scope in
  Ok (match sc_dataset scope with
      | DatasetLive => base ++ colon :: print_int (nullish (sc_eventId scope) 0)
      | _ => base
      end).

(** src: src/cache/data-publication.ts:327-329 activeDataPublicationKey *)
Definition activeDataPublicationKey (scope : Scope) : result jsstr :=
  let* prefix := scopePrefix scope in Ok (prefix ++ colon :: js "active").

(** src: src/cache/data-publication.ts:331-346 dataPublicationItemKey *)
Definition dataPublicationItemKey (scope : Scope) (revision : Z) (itemName : jsstr) : result jsstr :=
  reject_if (revision <=? 0) || (MAX_SAFE_INTEGER <? revision)
    with_code "DATA_PUBLICATION_REVISION_INVALID" ;;
  reject_if negb (is_item_name itemName) with_code "DATA_PUBLICATION_ITEM_NAME_INVALID" ;;
  let* prefix := scopePrefix scope in
  Ok (prefix ++ colon :: print_int revision ++ colon :: itemName).

(** src: src/cache/data-publication.ts:348-352 itemCount *)
Definition itemCount (value : json) : Z :=
  match value with
  | JArray l => Z.of_nat (length l)
  | JObject l => Z.of_nat (length l)
  | JDate _ => 0
  | JNull => 0
  | _ => 1
  end.

(** ** Preparing a publication *)

Section publication.
Context {S V : Type} `{!Codec V} `{!Redis S V}.

(** src: src/cache/data-publication.ts:95-98 SerializedItem *)
Record SerializedItem := mkSerialized { se_item : ManifestItem; se_payload : V }.

(** src: src/cache/data-publication.ts:374-396 serializeItems *)
Definition serialize_item (input : PublishInput) (item : jsstr * json) : result SerializedItem :=
  let payload := match sc_dataset (pi_scope input) with
    | DatasetLive => postgresJsonbCanonicalJson item.2
    | _ => canonicalJson item.2
    end in
  let* key := dataPublicationItemKey (pi_scope input) (pi_revision input) item.1 in
  Ok (mkSerialized (mkItem item.1 key (itemCount item.2) (byte_length payload) (sha256 payload))
        payload).

(** The loop of [serializeItems], [names] being the names seen.
    src: src/cache/data-publication.ts:365-397 serializeItems *)
Fixpoint serialize_each (input : PublishInput) (names : list jsstr) (items : list (jsstr * json))
    : result (list SerializedItem) :=
  match items with
  | [] => Ok []
  | item :: items' =>
      reject_if bool_decide (item.1 ∈ names) with_code "DATA_PUBLICATION_ITEM_DUPLICATE" ;;
      let* serialized := serialize_item input item in
      let* rest := serialize_each input (item.1 :: names) items' in
      Ok (serialized :: rest)
  end.

(** src: src/cache/data-publication.ts:358-405 serializeItems *)
Definition serializeItems (input : PublishInput) : result (list SerializedItem) :=
  reject_if is_nil (pi_items input) with_code "DATA_PUBLICATION_ITEMS_EMPTY" ;;
  let* serialized := serialize_each input [] (pi_items input) in
  reject_if negb (hasExactItemNames (sc_dataset (pi_scope input)) (pi_items input).*1)
    with_code "DATA_PUBLICATION_ITEM_SET_INVALID" ;;
  Ok serialized.

(** [now] is the clock of [new Date()].
    src: src/cache/data-publication.ts:407-443 createManifest *)
Definition createManifest (now : Z) (input : PublishInput) (items : list SerializedItem)
    : result Manifest :=
  match pi_sourceCheckedAt input with
  | None => Throw "DATA_PUBLICATION_SOURCE_TIME_INVALID"
  | Some sourceCheckedAt =>
      reject_if bool_decide (pi_lastSuccessfulFetchAt input = Some None)
        with_code "DATA_PUBLICATION_SUCCESSFUL_FETCH_TIME_INVALID" ;;
      reject_if negb (isDataPublicationId (pi_publicationId input))
        with_code "DATA_PUBLICATION_ID_INVALID" ;;
      reject_if negb (isCanonicalState (sc_dataset (pi_scope input)) (pi_state input))
        with_code "DATA_PUBLICATION_STATE_INVALID" ;;
      Ok {| mf_dataset := sc_dataset (pi_scope input);
            mf_seasonCode := sc_seasonCode (pi_scope input);
            mf_eventId := sc_eventId (pi_scope input);
            mf_revision := pi_revision input;
            mf_publicationId := pi_publicationId input;
            mf_sourceCheckedAt := sourceCheckedAt;
            mf_lastSuccessfulFetchAt := pi_lastSuccessfulFetchAt input ≫= id;
            mf_publishedAt := now;
            mf_state := pi_state input;
            mf_items := se_item <$> items |}
  end.

(** src: src/cache/data-publication.ts:450-457 prepareDataPublication *)
Definition prepareDataPublication (now : Z) (input : PublishInput)
    : result (Manifest * list SerializedItem) :=
  let* _ := assertScope (pi_scope input) in
  let* items := serializeItems input in
  let* manifest := createManifest now input items in
  Ok (manifest, items).

(** ** Staging *)

(** [redis.mget] *)
Definition r_mget (keys : list jsstr) (s : S) : list (option V) := (λ k, r_get k s) <$> keys.

(** The pipeline of [SET ... PX ... NX] and the read-back; the state changes even when it throws.
    src: src/cache/data-publication.ts:459-497 stageDataPublicationItems *)
Definition stageDataPublicationItems (manifest : Manifest) (items : list SerializedItem) (s : S)
    : S * result unit :=
  let staged := fold_left (λ s item,
    r_set_nx_px (mi_key (se_item item)) (se_payload item) DATA_PUBLICATION_STAGING_TTL_MS s) items s in
  let stagedPayloads := r_mget (mi_key ∘ se_item <$> items) staged in
  (staged,
   reject_if negb (bool_decide (stagedPayloads = Some ∘ se_payload <$> items))
     with_code "DATA_PUBLICATION_STAGE_CONFLICT" ;;
   reject_if negb (hasAcceptedItemNames (mf_dataset manifest) (mi_name ∘ se_item <$> items))
     with_code "DATA_PUBLICATION_ITEM_SET_INVALID" ;;
   Ok ()).

(** ** The scripts *)

Inductive ActivateStatus :=
| AInvalidActiveManifest
| APublicationIdConflict
| AIdempotent (current : V)
| AStale (current : V)
| AMissingStage (key : jsstr)
| AWrongStageSize (key : jsstr)
| APublished (previous : option V).

(** Every field but [publishedAt], compared by the script when the publication ids are equal.
    src: src/cache/data-publication.ts:196-220 ACTIVATE_REVISION_SCRIPT *)
Definition same_publication (current candidate : Manifest) : bool :=
  bool_decide (mf_dataset current = mf_dataset candidate) &&
  bool_decide (mf_seasonCode current = mf_seasonCode candidate) &&
  (nullish (mf_eventId current) (-1) =? nullish (mf_eventId candidate) (-1)) &&
  (mf_revision current =? mf_revision candidate) &&
  (mf_sourceCheckedAt current =? mf_sourceCheckedAt candidate) &&
  bool_decide (mf_lastSuccessfulFetchAt current = mf_lastSuccessfulFetchAt candidate) &&
  bool_decide (mf_state current = mf_state candidate) &&
  bool_decide (mf_items current = mf_items candidate).

(** src: src/cache/data-publication.ts:231-243 ACTIVATE_REVISION_SCRIPT *)
Fixpoint check_stage (items : list ManifestItem) (s : S) : option ActivateStatus :=
  match items with
  | [] => None
  | item :: items' =>
      match r_get (mi_key item) s with
      | None => Some (AMissingStage (mi_key item))
      | Some payload =>
          if negb (byte_length payload =? mi_bytes item) then Some (AWrongStageSize (mi_key item))
          else check_stage items' s
      end
  end.

Definition persist_items (items : list ManifestItem) (s : S) : S :=
  fold_left (λ s item, r_persist (mi_key item) s) items s.

(** Gives the items that [retained] does not name, and that exist, a time to live.
    src: src/cache/data-publication.ts:250-260 ACTIVATE_REVISION_SCRIPT *)
Definition expire_items (retained items : list ManifestItem) (s : S) : S :=
  fold_left (λ s item,
    if negb (existsb (λ c, bool_decide (mi_key item = mi_key c)) retained) &&
       negb (is_null (r_get (mi_key item) s))
    then r_pexpire (mi_key item) DATA_PUBLICATION_RETIRED_TTL_MS s else s) items s.

(** Lines 231-262, once the current pointer lets the candidate through.
    src: src/cache/data-publication.ts:231-262 ACTIVATE_REVISION_SCRIPT *)
Definition publish_candidate (key : jsstr) (candidate : Manifest) (current : option (V * Manifest))
    (s : S) : S * ActivateStatus :=
  match check_stage (mf_items candidate) s with
  | Some failure => (s, failure)
  | None =>
      let s := persist_items (mf_items candidate) s in
      let s := r_set key (encode_manifest candidate) s in
      match current with
      | Some (raw, m) => (expire_items (mf_items candidate) (mf_items m) s, APublished (Some raw))
      | None => (s, APublished None)
      end
  end.

(** src: src/cache/data-publication.ts:187-263 ACTIVATE_REVISION_SCRIPT *)
Definition activate_script (key : jsstr) (candidate : Manifest) (s : S) : S * ActivateStatus :=
  match r_get key s with
  | None => publish_candidate key candidate None s
  | Some raw =>
      match decode_manifest raw with
      | None => (s, AInvalidActiveManifest)
      | Some current =>
          if bool_decide (mf_publicationId current = mf_publicationId candidate) then
            (s, if same_publication current candidate then AIdempotent raw
                else APublicationIdConflict)
          else if mf_sourceCheckedAt candidate <? mf_sourceCheckedAt current then (s, AStale raw)
          else if (mf_sourceCheckedAt current =? mf_sourceCheckedAt candidate) &&
                  (mf_revision candidate <=? mf_revision current) then (s, AStale raw)
          else publish_candidate key candidate (Some (raw, current)) s
      end
  end.

Inductive RetireStatus := RetireNone | RetireInvalid | RetireDone (raw : V).

(** src: src/cache/data-publication.ts:265-276 RETIRE_ACTIVE_REVISION_SCRIPT *)
Definition retire_script (key : jsstr) (s : S) : S * RetireStatus :=
  match r_get key s with
  | None => (s, RetireNone)
  | Some raw =>
      match decode_manifest raw with
      | None => (s, RetireInvalid)
      | Some current => (r_del key (expire_items [] (mf_items current) s), RetireDone raw)
      end
  end.

Inductive SwapStatus :=
| SwapMissing | SwapInvalid | SwapChanged | SwapRemoved | SwapMissingStage (key : jsstr) | SwapReplaced.

(** Persists the items in order until one is missing.
    src: src/cache/data-publication.ts:291-294 COMPARE_AND_SWAP_ACTIVE_REVISION_SCRIPT *)
Fixpoint persist_existing (items : list ManifestItem) (s : S) : S * option jsstr :=
  match items with
  | [] => (s, None)
  | item :: items' =>
      if is_null (r_get (mi_key item) s) then (s, Some (mi_key item))
      else persist_existing items' (r_persist (mi_key item) s)
  end.

(** src: src/cache/data-publication.ts:279-297 COMPARE_AND_SWAP_ACTIVE_REVISION_SCRIPT *)
Definition swap_script (key expectedPublicationId : jsstr) (replacement : option Manifest) (s : S)
    : S * SwapStatus :=
  match r_get key s with
  | None => (s, SwapMissing)
  | Some raw =>
      match decode_manifest raw with
      | None => (s, SwapInvalid)
      | Some current =>
          if bool_decide (mf_publicationId current ≠ expectedPublicationId) then (s, SwapChanged)
          else match replacement with
          | None => (r_del key s, SwapRemoved)
          | Some candidate =>
              match persist_existing (mf_items candidate) s with
              | (s, Some missing) => (s, SwapMissingStage missing)
              | (s, None) => (r_set key (encode_manifest candidate) s, SwapReplaced)
              end
          end
      end
  end.

(** ** The manifest reader *)

Definition manifest_scope (m : Manifest) : Scope :=
  mkScope (mf_dataset m) (mf_seasonCode m) (mf_eventId m).

(** src: src/cache/data-publication.ts:636-658 parseDataPublicationManifest *)
Fixpoint items_valid (scope : Scope) (revision : Z) (names : list jsstr) (items : list ManifestItem)
    : bool :=
  match items with
  | [] => true
  | item :: items' =>
      is_item_name (mi_name item) && bool_decide (mi_name item ∉ names) &&
      bool_decide (dataPublicationItemKey scope revision (mi_name item) = Ok (mi_key item)) &&
      (0 <=? mi_count item) && (0 <=? mi_bytes item) && is_sha256 (mi_sha256 item) &&
      items_valid scope revision (mi_name item :: names) items'
  end.

(** [decode_manifest] stands for [JSON.parse] and the checks of fields and types; these are the
    checks of values.
    src: src/cache/data-publication.ts:588-664 parseDataPublicationManifest *)
Definition parseDataPublicationManifest (raw : option V) : option Manifest :=
  match raw ≫= decode_manifest with
  | None => None
  | Some m =>
      if is_season (mf_seasonCode m) &&
         (0 <? mf_revision m) && (mf_revision m <=? MAX_SAFE_INTEGER) &&
         isDataPublicationId (mf_publicationId m) &&
         isCanonicalState (mf_dataset m) (mf_state m) &&
         match mf_dataset m, mf_eventId m with
         | DatasetLive, Some e => (0 <? e) && (e <=? MAX_SAFE_INTEGER)
         | DatasetLive, None => false
         | _, e => is_null e
         end &&
         is_ok (assertScope (manifest_scope m)) &&
         items_valid (manifest_scope m) (mf_revision m) [] (mf_items m) &&
         hasAcceptedItemNames (mf_dataset m) (mi_name <$> mf_items m)
      then Some m else None
  end.

(** ** Operations *)

Record PublishResult := mkPublishResult {
  pb_stale : bool;
  pb_manifest : Manifest;
  pb_previous : option Manifest;
}.

(** src: src/cache/data-publication.ts:510-555 activateDataPublicationPointer *)
Definition activateDataPublicationPointer (manifest : Manifest) (s : S) : S * result PublishResult :=
  match activeDataPublicationKey (manifest_scope manifest) with
  | Throw e => (s, Throw e)
  | Ok key =>
      let '(s, status) := activate_script key manifest s in
      (s, match status with
          | AIdempotent detail =>
              match parseDataPublicationManifest (Some detail) with
              | None => Throw "DATA_PUBLICATION_ACTIVATION_FAILED"
              | Some active => Ok (mkPublishResult false active None)
              end
          | AStale detail => Ok (mkPublishResult true manifest (parseDataPublicationManifest (Some detail)))
          | APublished detail => Ok (mkPublishResult false manifest (parseDataPublicationManifest detail))
          | _ => Throw "DATA_PUBLICATION_ACTIVATION_FAILED"
          end)
  end.

(** src: src/cache/data-publication.ts:558-586 compareAndSwapDataPublicationPointer *)
Definition compareAndSwapDataPublicationPointer (scope : Scope) (expectedPublicationId : jsstr)
    (replacement : option Manifest) (s : S) : S * result SwapStatus :=
  match activeDataPublicationKey scope with
  | Throw e => (s, Throw e)
  | Ok key =>
      let '(s, status) := swap_script key expectedPublicationId replacement s in
      (s, match status with
          | SwapReplaced | SwapRemoved | SwapMissing | SwapChanged => Ok status
          | _ => Throw "DATA_PUBLICATION_CAS_FAILED"
          end)
  end.

(** src: src/cache/data-publication.ts:666-675 assertManifestMatchesScope *)
Definition assertManifestMatchesScope (manifest : Manifest) (scope : Scope) : bool :=
  bool_decide (manifest_scope manifest = scope).

(** [accepted] is the answer of [beforeActivate], [activate] the option of that name; nothing else
    runs between the steps (interleavings are the transition system below).
    src: src/cache/data-publication.ts:677-702 publishDataRevision *)
Definition publishDataRevision (now : Z) (input : PublishInput) (accepted activate : bool) (s : S)
    : S * result PublishResult :=
  match prepareDataPublication now input with
  | Throw e => (s, Throw e)
  | Ok (manifest, items) =>
      match stageDataPublicationItems manifest items s with
      | (s, Throw e) => (s, Throw e)
      | (s, Ok _) =>
          if negb accepted then (s, Ok (mkPublishResult true manifest None)) else
          if negb activate then (s, Ok (mkPublishResult false manifest None)) else
          let '(s, published) := activateDataPublicationPointer manifest s in
          (s, let* r := published in
              reject_if negb (pb_stale r) &&
                        negb (assertManifestMatchesScope (pb_manifest r) (pi_scope input))
                with_code "DATA_PUBLICATION_ACTIVATION_FAILED" ;;
              Ok r)
      end
  end.

(** src: src/cache/data-publication.ts:716-730 readActiveDataPublication *)
Fixpoint read_items (items : list ManifestItem) (s : S) : option (list (jsstr * json)) :=
  match items with
  | [] => Some []
  | item :: items' =>
      match r_get (mi_key item) s with
      | None => None
      | Some payload =>
          if negb (byte_length payload =? mi_bytes item) ||
             negb (bool_decide (sha256 payload = mi_sha256 item)) then None else
          match parse_text payload with
          | None => None
          | Some parsed =>
              if negb (itemCount parsed =? mi_count item) then None else
              (λ rest, (mi_name item, parsed) :: rest) <$> read_items items' s
          end
      end
  end.

(** Two commands: [s] is the store when the [GET] of the pointer is answered, [s'] when the [MGET] of
    the items is; other clients and time may run in between.
    src: src/cache/data-publication.ts:704-735 readActiveDataPublication *)
Definition readActiveDataPublication (scope : Scope) (s s' : S)
    : result (option (Manifest * list (jsstr * json))) :=
  let* key := activeDataPublicationKey scope in
  Ok (match parseDataPublicationManifest (r_get key s) with
      | None => None
      | Some manifest =>
          if negb (assertManifestMatchesScope manifest scope) || is_nil (mf_items manifest) then None
          else (λ items, (manifest, items)) <$> read_items (mf_items manifest) s'
      end).

(** src: src/cache/data-publication.ts:737-756 retireActiveDataPublication *)
Definition retireActiveDataPublication (scope : Scope) (s : S) : S * result (option Manifest) :=
  match activeDataPublicationKey scope with
  | Throw e => (s, Throw e)
  | Ok key =>
      let '(s, status) := retire_script key s in
      (s, match status with
          | RetireInvalid => Throw "DATA_PUBLICATION_RETIRE_INVALID"
          | RetireNone => Ok None
          | RetireDone raw => Ok (parseDataPublicationManifest (Some raw))
          end)
  end.
End publication.

Arguments SerializedItem V : clear implicits.
Arguments mkSerialized {V}.
Arguments se_item {V}.
Arguments se_payload {V}.

(** ** Keys *)

Lemma colon_end (a x b : jsstr) : colon ∉ b → a ++ colon :: x ≠ b.
Proof. intros Hb <-. apply Hb, elem_of_app. right. by left. Qed.

Lemma digits_no_colon s : forallb is_digit s = true → colon ∉ s.
Proof.
  rewrite forallb_forall. intros H Hin%list_elem_of_In. specialize (H _ Hin). done.
Qed.

Lemma print_no_colon n : 0 ≤ n → colon ∉ print_int n.
Proof. intros. by apply digits_no_colon, print_int_digits. Qed.

Lemma item_name_no_colon s : is_item_name s = true → colon ∉ s.
Proof.
  destruct s as [|c s]; simpl; [done|]. rewrite andb_true_iff, forallb_forall.
  intros [Hc Hs] [<-|Hin]%elem_of_cons; [done|]. apply list_elem_of_In in Hin.
  specialize (Hs _ Hin). done.
Qed.

(** What a valid scope writes after the namespace and the ['fpl'] of the dataset. *)
Definition scope_tail (scope : Scope) (rest : jsstr) : jsstr :=
  match sc_dataset scope with
  | DatasetLive => js "live" ++ colon :: sc_seasonCode scope ++
                     colon :: print_int (nullish (sc_eventId scope) 0) ++ rest
  | DatasetCore => js "core" ++ colon :: sc_seasonCode scope ++ rest
  | DatasetMarket => js "market" ++ colon :: sc_seasonCode scope ++ rest
  end.

Record valid_scope (scope : Scope) : Prop := {
  vs_season : is_season (sc_seasonCode scope) = true;
  vs_event : match sc_dataset scope with
             | DatasetLive => ∃ e, sc_eventId scope = Some e ∧ 0 < e
             | _ => sc_eventId scope = None
             end;
}.

Lemma assertScope_valid scope u : assertScope scope = Ok u ↔ valid_scope scope.
Proof.
  destruct u, scope as [d c e]. unfold assertScope. simpl. rewrite throw_when_ok, negb_false_iff. split.
  - intros [Hs H]. split; simpl; [done|].
    destruct d; simpl in H; apply throw_when_ok in H as [H _]; destruct e as [e|]; try done.
    exists e. split; [done|]. boolsolve. lia.
  - intros [Hs He]. simpl in *. split; [done|]. destruct d; simpl; rewrite throw_when_ok; split; try done.
    + by rewrite He.
    + destruct He as (e' & -> & He). apply Z.leb_gt. lia.
    + by rewrite He.
Qed.

Lemma scopePrefix_tail scope prefix rest :
  scopePrefix scope = Ok prefix →
  valid_scope scope ∧ prefix ++ rest = js "llm:data:fpl:" ++ scope_tail scope rest.
Proof.
  unfold scopePrefix. intros H. apply result_bind_ok in H as (u & Hs%assertScope_valid & [= <-]).
  split; [done|]. destruct scope as [[] c e]; unfold scope_tail; simpl; rewrite <-?app_assoc; simpl;
    rewrite <-?app_assoc; done.
Qed.

Lemma scope_tail_inj s1 s2 x y :
  valid_scope s1 → valid_scope s2 →
  scope_tail s1 (colon :: x) = scope_tail s2 (colon :: y) → s1 = s2 ∧ x = y.
Proof.
  destruct s1 as [d1 c1 e1], s2 as [d2 c2 e2]. intros [Hs1 He1] [Hs2 He2]. simpl in *.
  unfold is_season in Hs1, Hs2. apply andb_true_iff in Hs1 as [_ Hs1], Hs2 as [_ Hs2].
  apply digits_no_colon in Hs1, Hs2. unfold scope_tail. simpl.
  destruct d1, d2; try done; simpl; intros H; simplify_eq;
    try (destruct (sep_split colon c1 c2 x y) as [-> ->]; [done..|]; split; [|done]; congruence).
  destruct He1 as (n1 & -> & Hn1), He2 as (n2 & -> & Hn2). simpl in H.
  apply sep_split in H as [-> H]; [|done..].
  apply sep_split in H as [H ->]; [|apply print_no_colon; lia..].
  apply print_int_inj in H; [|lia..]. by subst.
Qed.

Lemma active_key_inj s1 s2 k :
  activeDataPublicationKey s1 = Ok k → activeDataPublicationKey s2 = Ok k → s1 = s2.
Proof.
  unfold activeDataPublicationKey. intros H1 H2.
  apply result_bind_ok in H1 as (p1 & H1 & [= <-]), H2 as (p2 & H2 & [= Heq]).
  apply (scopePrefix_tail _ _ (colon :: js "active")) in H1 as [V1 H1], H2 as [V2 H2].
  pose proof (eq_trans (eq_sym H2) (eq_trans Heq H1)) as E. apply app_inv_head in E.
  symmetry. by eapply scope_tail_inj.
Qed.

Lemma item_key_inv scope revision name k :
  dataPublicationItemKey scope revision name = Ok k →
  0 < revision ≤ MAX_SAFE_INTEGER ∧ is_item_name name = true ∧ valid_scope scope ∧
  k = js "llm:data:fpl:" ++ scope_tail scope (colon :: print_int revision ++ colon :: name).
Proof.
  unfold dataPublicationItemKey. intros H. apply throw_when_ok in H as [Hr H].
  apply throw_when_ok in H as [Hn%negb_false_iff H].
  apply result_bind_ok in H as (p & Hp & [= <-]). boolsolve.
  apply (scopePrefix_tail _ _ (colon :: print_int revision ++ colon :: name)) in Hp as [Hv ->].
  split_and!; [lia|lia|done..].
Qed.

Lemma item_key_inj s1 r1 n1 s2 r2 n2 k :
  dataPublicationItemKey s1 r1 n1 = Ok k → dataPublicationItemKey s2 r2 n2 = Ok k →
  s1 = s2 ∧ r1 = r2 ∧ n1 = n2.
Proof.
  intros (Hr1 & Hn1 & V1 & ->)%item_key_inv (Hr2 & Hn2 & V2 & Heq)%item_key_inv.
  apply app_inv_head in Heq. apply scope_tail_inj in Heq as [-> Heq]; [|done..].
  apply sep_split in Heq as [Heq ->]; [|apply print_no_colon; lia..].
  split_and!; [done|apply print_int_inj; [lia|lia|done]|done].
Qed.

Lemma active_not_item s1 s2 r n k :
  activeDataPublicationKey s1 = Ok k → dataPublicationItemKey s2 r n = Ok k → False.
Proof.
  unfold activeDataPublicationKey. intros H1 (Hr & Hn & V2 & Heq)%item_key_inv.
  apply result_bind_ok in H1 as (p1 & H1 & [= <-]).
  apply (scopePrefix_tail _ _ (colon :: js "active")) in H1 as [V1 H1].
  pose proof (eq_trans (eq_sym H1) Heq) as Heq'. clear Heq. rename Heq' into Heq.
  apply app_inv_head in Heq.
  apply scope_tail_inj in Heq as [_ Heq]; [|done..].
  symmetry in Heq. revert Heq. apply colon_end. apply (bool_decide_unpack _). vm_compute. exact I.
Qed.

(** ** What the code relies on *)

Class CodecLaws (V : Type) `{Codec V} : Prop := {
  decode_encode m : decode_manifest (encode_manifest m) = Some m;
  parse_canonical j : well_formed j → finite j = true →
    ∃ j', parse_text (canonicalJson j) = Some j' ∧ same_value j j';
  parse_jsonb j : well_formed j → finite j = true →
    ∃ j', parse_text (postgresJsonbCanonicalJson j) = Some j' ∧ same_value j j';
  parse_no_date v j : parse_text v = Some j → ∀ iso, j ≠ JDate iso;
  byte_length_nonneg v : 0 ≤ byte_length v;
  sha256_hex v : is_sha256 (sha256 v) = true;
}.

(** Values a service publishes: JSON, with no Date at the top, for a gameweek number JavaScript
    holds exactly. *)
Record publishable (input : PublishInput) : Prop := {
  pu_values : ∀ name j, (name, j) ∈ pi_items input →
    well_formed j ∧ finite j = true ∧ ∀ iso, j ≠ JDate iso;
  pu_event : ∀ e, sc_eventId (pi_scope input) = Some e → e ≤ MAX_SAFE_INTEGER;
}.

Lemma same_value_count a b :
  same_value a b → (∀ iso, a ≠ JDate iso) → (∀ iso, b ≠ JDate iso) → itemCount a = itemCount b.
Proof.
  intros H Ha Hb.
  destruct H as [| | |a b s Hta Htb|l k Hf|l k k' Hp Hf]; simpl; try done.
  - destruct a, b; simpl in *; try done; [by destruct (Hb iso)|by destruct (Ha iso)..].
  - by rewrite (Forall2_length _ _ _ Hf).
  - by rewrite (Forall2_length _ _ _ Hf), Hp.
Qed.

Section facts.
Context {S V : Type} `{!Codec V} `{!CodecLaws V} `{!Redis S V} `{!RedisLaws S V}.
Implicit Types (s : S) (items : list (SerializedItem V)) (m : Manifest).

(** An item of a prepared publication. *)
Record prepared_item (input : PublishInput) (j : json) (item : SerializedItem V) : Prop := {
  pr_key : dataPublicationItemKey (pi_scope input) (pi_revision input) (mi_name (se_item item)) =
           Ok (mi_key (se_item item));
  pr_count : mi_count (se_item item) = itemCount j;
  pr_bytes : mi_bytes (se_item item) = byte_length (se_payload item);
  pr_sha : mi_sha256 (se_item item) = sha256 (se_payload item);
  pr_payload : se_payload item = match sc_dataset (pi_scope input) with
    | DatasetLive => postgresJsonbCanonicalJson j | _ => canonicalJson j end;
}.

Lemma serialize_each_ok input names l items :
  serialize_each input names l = Ok items →
  Forall2 (λ f item, f.1 = mi_name (se_item item) ∧ prepared_item input f.2 item) l items ∧
  NoDup l.*1 ∧ ∀ n, n ∈ l.*1 → n ∉ names.
Proof.
  revert names items. induction l as [|[n j] l IH]; intros names items; simpl; intros H.
  { simplify_eq. split_and!; [constructor|constructor|set_solver]. }
  apply throw_when_ok in H as [Hn%bool_decide_eq_false H].
  apply result_bind_ok in H as (it & Hit & H). apply result_bind_ok in H as (rest & Hrest & [= <-]).
  apply IH in Hrest as (Hf & Hnd & Hseen).
  unfold serialize_item in Hit. apply result_bind_ok in Hit as (k & Hk & [= <-]). simpl in *.
  split_and!.
  - constructor; [|done]. split; [done|]. by split.
  - constructor; [|done]. intros Hin. apply (Hseen n Hin). by left.
  - intros x [->|Hx]%elem_of_cons; [done|]. intros Hin. apply (Hseen x Hx). by right.
Qed.

(** A successful preparation, unfolded. *)
Record prepared_ok (now : Z) (input : PublishInput) (m : Manifest) (items : list (SerializedItem V))
    : Prop := {
  po_scope : manifest_scope m = pi_scope input;
  po_valid : valid_scope (pi_scope input);
  po_revision : mf_revision m = pi_revision input;
  po_id : mf_publicationId m = pi_publicationId input;
  po_id_ok : isDataPublicationId (pi_publicationId input) = true;
  po_state : isCanonicalState (mf_dataset m) (mf_state m) = true;
  po_items : mf_items m = se_item <$> items;
  po_each : Forall2 (λ f item, f.1 = mi_name (se_item item) ∧ prepared_item input f.2 item)
              (pi_items input) items;
  po_nodup : NoDup (pi_items input).*1;
  po_names : hasExactItemNames (mf_dataset m) (pi_items input).*1 = true;
  po_nonempty : items ≠ [];
}.

Lemma prepare_ok now input m items :
  prepareDataPublication now input = Ok (m, items) → prepared_ok now input m items.
Proof.
  unfold prepareDataPublication, serializeItems. intros H.
  apply result_bind_ok in H as (? & Hs%assertScope_valid & H).
  apply result_bind_ok in H as (its & Hits & H). apply throw_when_ok in Hits as [Hne Hits].
  apply result_bind_ok in Hits as (its' & Hits & Hnames).
  apply throw_when_ok in Hnames as [Hnames%negb_false_iff [= ->]].
  apply result_bind_ok in H as (m' & Hm & [= -> ->]).
  apply serialize_each_ok in Hits as (Hf & Hnd & _).
  unfold createManifest in Hm. destruct (pi_sourceCheckedAt input) as [src|]; [|done].
  apply throw_when_ok in Hm as [_ Hm]. apply throw_when_ok in Hm as [Hid%negb_false_iff Hm].
  apply throw_when_ok in Hm as [Hst%negb_false_iff [= <-]].
  split; simpl; try done.
  - by destruct (pi_scope input).
  - intros ->. inversion Hf as [Heq|]. by rewrite <-Heq in Hne.
Qed.

Lemma prepared_name_list now input m items :
  prepared_ok now input m items → mi_name ∘ se_item <$> items = (pi_items input).*1.
Proof.
  intros H. pose proof (po_each _ _ _ _ H) as Hf. clear H.
  induction Hf as [|f it l k [Hn _] _ IH]; [done|].
  change (mi_name (se_item it) :: (mi_name ∘ se_item <$> k) = f.1 :: l.*1).
  by f_equal.
Qed.

Lemma prepared_elem now input m items item :
  prepared_ok now input m items → item ∈ items →
  ∃ j, (mi_name (se_item item), j) ∈ pi_items input ∧ prepared_item input j item.
Proof.
  intros H. pose proof (po_each _ _ _ _ H) as Hf. clear H.
  induction Hf as [|[n j] it l k [Hn Hp] _ IH]; intros Hin; [by apply not_elem_of_nil in Hin|].
  apply elem_of_cons in Hin as [->|Hin].
  - exists j. simpl in Hn. rewrite <-Hn. split; [by left|done].
  - destruct (IH Hin) as (j' & Hj & Hp'). exists j'. split; [by right|done].
Qed.

(** Reading a prepared item back gives its value. *)
Lemma prepared_parse_item now input m items item j :
  publishable input → prepared_ok now input m items → (mi_name (se_item item), j) ∈ pi_items input →
  prepared_item input j item →
  ∃ j', parse_text (se_payload item) = Some j' ∧ same_value j j' ∧
        itemCount j' = mi_count (se_item item).
Proof.
  intros Hp H Hin Hit. destruct (pu_values _ Hp _ _ Hin) as (Hwf & Hfin & Hd).
  rewrite (pr_payload _ _ _ Hit).
  assert (∃ j', parse_text (match sc_dataset (pi_scope input) with
    | DatasetLive => postgresJsonbCanonicalJson j | _ => canonicalJson j end) = Some j' ∧
    same_value j j') as (j' & Hj' & Hsame).
  { destruct (sc_dataset _); [by apply parse_canonical|by apply parse_jsonb|by apply parse_canonical]. }
  exists j'. split_and!; [done|done|]. rewrite (pr_count _ _ _ Hit).
  symmetry. apply same_value_count; [done|done|by eapply parse_no_date].
Qed.
End facts.

Lemma itemCount_nonneg j : 0 ≤ itemCount j.
Proof. destruct j; simpl; lia. Qed.

Section stores.
Context {S V : Type} `{!Codec V} `{!CodecLaws V} `{!Redis S V} `{!RedisLaws S V}.
Implicit Types (s : S) (items : list (SerializedItem V)) (m : Manifest).

Lemma items_valid_prepared input names l items :
  Forall2 (λ f item, f.1 = mi_name (se_item item) ∧ prepared_item input f.2 item) l items →
  NoDup l.*1 → (∀ n, n ∈ l.*1 → n ∉ names) →
  items_valid (pi_scope input) (pi_revision input) names (se_item <$> items) = true.
Proof.
  intros Hf. revert names. induction Hf as [|f it l k [Hn Hp] _ IH]; intros names Hnd Hseen; [done|].
  rewrite fmap_cons in Hnd, Hseen. apply NoDup_cons in Hnd as [Hfn Hnd].
  pose proof (item_key_inv _ _ _ _ (pr_key _ _ _ Hp)) as (_ & Hname & _ & _).
  change (se_item <$> it :: k) with (se_item it :: (se_item <$> k)). cbn [items_valid].
  rewrite Hname, (bool_decide_eq_true_2 (_ ∉ _)), bool_decide_eq_true_2; [|apply Hp|].
  2: { rewrite <-Hn. apply Hseen. by left. }
  rewrite (pr_count _ _ _ Hp), (pr_bytes _ _ _ Hp), (pr_sha _ _ _ Hp).
  rewrite (proj2 (Z.leb_le 0 _) (itemCount_nonneg _)), (proj2 (Z.leb_le 0 _) (byte_length_nonneg _)),
    sha256_hex. cbn [andb]. apply IH; [done|]. intros n Hin.
  apply not_elem_of_cons. split; [|by apply Hseen; right]. rewrite <-Hn. by intros ->.
Qed.

Lemma prepared_parse now input m items :
  publishable input → prepared_ok now input m items →
  parseDataPublicationManifest (Some (encode_manifest m)) = Some m.
Proof.
  intros Hpub H. unfold parseDataPublicationManifest. simpl. rewrite decode_encode.
  pose proof (po_scope _ _ _ _ H) as Hsc. pose proof (po_valid _ _ _ _ H) as Hv.
  pose proof (prepared_name_list _ _ _ _ H) as Hnames.
  assert (0 < mf_revision m ≤ MAX_SAFE_INTEGER) as Hrev.
  { rewrite (po_revision _ _ _ _ H). pose proof (po_nonempty _ _ _ _ H). destruct items as [|it l]; [done|].
    destruct (prepared_elem _ _ _ _ it H) as (j & _ & Hp); [by left|].
    by apply (item_key_inv _ _ _ _ (pr_key _ _ _ Hp)). }
  assert (items_valid (pi_scope input) (pi_revision input) [] (mf_items m) = true) as Hitems.
  { rewrite (po_items _ _ _ _ H). apply (items_valid_prepared input [] (pi_items input)).
    - apply (po_each _ _ _ _ H).
    - apply (po_nodup _ _ _ _ H).
    - intros n _. apply not_elem_of_nil. }
  assert (is_ok (assertScope (manifest_scope m)) = true) as Hok.
  { rewrite Hsc, (proj2 (assertScope_valid _ ()) Hv). done. }
  assert (is_season (mf_seasonCode m) = true) as Hseason.
  { pose proof (vs_season _ Hv) as Hs. by rewrite <-Hsc in Hs. }
  assert (match mf_dataset m, mf_eventId m with
         | DatasetLive, Some e => (0 <? e) && (e <=? MAX_SAFE_INTEGER)
         | DatasetLive, None => false
         | _, e => is_null e
         end = true) as Hevent.
  { pose proof (vs_event _ Hv) as He. pose proof (pu_event _ Hpub) as Hmax.
    rewrite <-Hsc in He, Hmax. unfold manifest_scope in He, Hmax. simpl in He, Hmax.
    destruct (mf_dataset m); [by rewrite He| |by rewrite He].
    destruct He as (e & He & Hpos). rewrite He. specialize (Hmax e He).
    apply andb_true_iff. split; [apply Z.ltb_lt|apply Z.leb_le]; lia. }
  assert (hasAcceptedItemNames (mf_dataset m) (mi_name <$> mf_items m) = true) as Hacc.
  { unfold hasAcceptedItemNames. rewrite (po_items _ _ _ _ H), <-list_fmap_compose, Hnames.
    by rewrite (po_names _ _ _ _ H). }
  rewrite Hseason, (proj2 (Z.ltb_lt _ _)), (proj2 (Z.leb_le _ _)) by lia.
  rewrite (po_id _ _ _ _ H), (po_id_ok _ _ _ _ H), (po_state _ _ _ _ H), Hevent, Hok, Hacc.
  rewrite Hsc, (po_revision _ _ _ _ H), Hitems. done.
Qed.

(** ** Frame of the scripts *)

Lemma get_persist_items k its s : r_get k (persist_items its s) = r_get k s.
Proof. unfold persist_items. revert s. induction its as [|i its IH]; intros s; simpl; [done|]. by rewrite IH, get_persist. Qed.

Lemma volatile_persist_items k its s :
  r_volatile k (persist_items its s) = if decide (k ∈ mi_key <$> its) then false else r_volatile k s.
Proof.
  unfold persist_items. revert s. induction its as [|i its IH]; intros s; [done|].
  cbn [fold_left]. rewrite IH, volatile_persist, fmap_cons.
  repeat case_decide; try done; exfalso; set_solver.
Qed.

Lemma get_expire_items k retained its s : r_get k (expire_items retained its s) = r_get k s.
Proof.
  unfold expire_items. revert s. induction its as [|i its IH]; intros s; simpl; [done|].
  rewrite IH. case_match; [|done]. by rewrite get_pexpire.
Qed.

Lemma volatile_expire_items k retained its s :
  k ∉ mi_key <$> its ∨ k ∈ mi_key <$> retained →
  r_volatile k (expire_items retained its s) = r_volatile k s.
Proof.
  intros Hk. unfold expire_items. revert s Hk.
  induction its as [|i its IH]; intros s Hk; simpl; [done|].
  rewrite IH by (rewrite fmap_cons in Hk; set_solver). case_match eqn:E; [|done].
  apply volatile_pexpire; [done|]. intros ->. apply andb_true_iff in E as [E _]. apply negb_true_iff in E.
  destruct Hk as [Hk|Hk]; [rewrite fmap_cons in Hk; set_solver|].
  apply list_elem_of_fmap in Hk as (c & Hc & Hin). rewrite <-not_true_iff_false in E. apply E.
  apply existsb_exists. exists c. split; [by apply list_elem_of_In|by apply bool_decide_eq_true].
Qed.

Lemma persist_existing_spec k its s :
  let '(s', missing) := persist_existing its s in
  r_get k s' = r_get k s ∧ (r_volatile k s = false → r_volatile k s' = false) ∧
  (missing = None → k ∈ mi_key <$> its → is_Some (r_get k s) ∧ r_volatile k s' = false).
Proof.
  revert s. induction its as [|i its IH]; intros s; simpl.
  { split_and!; [done|done|]. intros _ H. by apply not_elem_of_nil in H. }
  destruct (is_null (r_get (mi_key i) s)) eqn:Hnull; [done|].
  specialize (IH (r_persist (mi_key i) s)). destruct (persist_existing _ _) as [s' missing].
  rewrite get_persist, volatile_persist in IH. destruct IH as (Hg & Hv & Hm).
  split_and!; [done|intros H; apply Hv; by case_decide|].
  intros Hmiss Hk. destruct (decide (k ∈ mi_key <$> its)) as [Hin|Hin]; [by apply Hm|].
  assert (k = mi_key i) as -> by set_solver. rewrite decide_True in Hv by done.
  split; [by destruct (r_get (mi_key i) s)|by apply Hv].
Qed.

(** [SET NX] of every item. *)
Definition stage_items items s : S :=
  fold_left (λ s item,
    r_set_nx_px (mi_key (se_item item)) (se_payload item) DATA_PUBLICATION_STAGING_TTL_MS s) items s.

Lemma get_stage k items s :
  (r_get k (stage_items items s) = r_get k s ∨
   r_get k s = None ∧ ∃ item, item ∈ items ∧ mi_key (se_item item) = k ∧
     r_get k (stage_items items s) = Some (se_payload item)) ∧
  (r_get k s ≠ None → r_volatile k (stage_items items s) = r_volatile k s).
Proof.
  unfold stage_items. revert s. induction items as [|it items IH]; intros s; simpl.
  { split; [by left|done]. }
  destruct (IH (r_set_nx_px (mi_key (se_item it)) (se_payload it) DATA_PUBLICATION_STAGING_TTL_MS s))
    as [Hg Hv]. rewrite get_set_nx, volatile_set_nx in *.
  destruct (decide (k = mi_key (se_item it))) as [->|Hne].
  - destruct (r_get (mi_key (se_item it)) s) as [v|] eqn:E; simpl in *.
    + split; [left|intros _; apply Hv; done]. destruct Hg as [Hg|[Hg _]]; [done|done].
    + split; [right|done]. split; [done|]. exists it. split; [by left|]. split; [done|].
      destruct Hg as [Hg|[Hg _]]; [done|done].
  - split; [|exact Hv]. destruct Hg as [Hg|[Hnone (item & Hin & Hk & Hg)]]; [by left|right].
    split; [done|]. exists item. split; [by right|done].
Qed.

Lemma check_stage_none its s :
  check_stage (V := V) its s = None →
  ∀ i, i ∈ its → ∃ v, r_get (mi_key i) s = Some v ∧ byte_length v = mi_bytes i.
Proof.
  induction its as [|i its IH]; simpl; intros H x Hx; [by apply not_elem_of_nil in Hx|].
  destruct (r_get (mi_key i) s) as [v|] eqn:E; [|done].
  destruct (Z.eqb_spec (byte_length v) (mi_bytes i)); simpl in H; [|done].
  apply elem_of_cons in Hx as [->|Hx]; [by exists v|by apply IH].
Qed.
End stores.

(** ** Publishers, expiry and readers together *)

Section system.
Context {S V : Type} `{!Codec V} `{!CodecLaws V} `{!Redis S V} `{!RedisLaws S V}.
(** Revisions are allocated once per scope, so an item key has one payload ever. *)
Context (content : jsstr → V).
Implicit Types (s : S) (p : Manifest * list (SerializedItem V)).

Definition publication_of (now : Z) (input : PublishInput) p : Prop :=
  publishable input ∧ prepareDataPublication now input = Ok p ∧
  ∀ item, item ∈ p.2 → se_payload item = content (mi_key (se_item item)).

Definition publication p : Prop := ∃ now input, publication_of now input p.

(** The commands that write: each [SET] of a staging pipeline on its own, and the scripts. *)
Inductive sys_command : S → S → Prop :=
| cmd_stage p item s : publication p → item ∈ p.2 →
    sys_command s (r_set_nx_px (mi_key (se_item item)) (se_payload item) DATA_PUBLICATION_STAGING_TTL_MS s)
| cmd_activate p s : publication p → sys_command s (activateDataPublicationPointer p.1 s).1
| cmd_swap p expected s : publication p →
    sys_command s (compareAndSwapDataPublicationPointer (manifest_scope p.1) expected (Some p.1) s).1
| cmd_remove scope expected s :
    sys_command s (compareAndSwapDataPublicationPointer scope expected None s).1
| cmd_retire scope s : sys_command s (retireActiveDataPublication scope s).1.

(** Any number of processes send them in any order, while time passes. *)
Inductive sys_step : S → S → Prop :=
| sys_send s s' : sys_command s s' → sys_step s s'
| sys_elapse ms s s' : r_elapse ms s s' → sys_step s s'.

(** The same, with the milliseconds that pass. *)
Inductive sys_within : Z → S → S → Prop :=
| within_now s : sys_within 0 s s
| within_command ms s1 s2 s3 : sys_command s1 s2 → sys_within ms s2 s3 → sys_within ms s1 s3
| within_elapse ms ms' s1 s2 s3 : 0 ≤ ms → r_elapse ms s1 s2 → sys_within ms' s2 s3 →
    sys_within (ms + ms') s1 s3.

Definition is_item_key (scope : Scope) (k : jsstr) : Prop :=
  ∃ revision name, dataPublicationItemKey scope revision name = Ok k.

(** What every reachable store satisfies. *)
Record sound s : Prop := {
  so_items : ∀ scope k v, is_item_key scope k → r_get k s = Some v → v = content k;
  so_active : ∀ scope ak raw, activeDataPublicationKey scope = Ok ak → r_get ak s = Some raw →
    ∃ p, publication p ∧ raw = encode_manifest p.1 ∧ manifest_scope p.1 = scope ∧
      ∀ k, k ∈ mi_key <$> mf_items p.1 → r_get k s = Some (content k) ∧ r_volatile k s = false;
}.

Lemma publication_items p : publication p → mf_items p.1 = se_item <$> p.2.
Proof. intros (now & input & _ & Hp & _). destruct p. by eapply po_items, prepare_ok. Qed.

Lemma publication_key p k :
  publication p → k ∈ mi_key <$> mf_items p.1 → is_item_key (manifest_scope p.1) k.
Proof.
  intros Hpub Hk. rewrite (publication_items p Hpub) in Hk.
  destruct Hpub as (now & input & _ & Hp & _), p as [m items]. simpl in *.
  apply prepare_ok in Hp. rewrite <-list_fmap_compose in Hk.
  apply list_elem_of_fmap in Hk as (it & -> & Hin).
  destruct (prepared_elem _ _ _ _ it Hp Hin) as (j & _ & Hit).
  exists (pi_revision input), (mi_name (se_item it)). rewrite (po_scope _ _ _ _ Hp). apply Hit.
Qed.

Lemma is_item_key_scope sc1 sc2 k : is_item_key sc1 k → is_item_key sc2 k → sc1 = sc2.
Proof. intros (r1 & n1 & H1) (r2 & n2 & H2). by eapply item_key_inj. Qed.

Lemma active_ne_item sc1 sc2 ak k :
  activeDataPublicationKey sc1 = Ok ak → is_item_key sc2 k → k ≠ ak.
Proof. intros H1 (r & n & H2) ->. by eapply active_not_item. Qed.

(** A step that keeps item values and either keeps a pointer with its items or sets it to a
    publication whose items are there for good. *)
Lemma sound_step s s' :
  sound s →
  (∀ scope k v, is_item_key scope k → r_get k s' = Some v → v = content k) →
  (∀ scope ak raw, activeDataPublicationKey scope = Ok ak → r_get ak s' = Some raw →
    (r_get ak s = Some raw ∧ ∀ k, is_item_key scope k → is_Some (r_get k s) → r_volatile k s = false →
       is_Some (r_get k s') ∧ r_volatile k s' = false) ∨
    (∃ p, publication p ∧ raw = encode_manifest p.1 ∧ manifest_scope p.1 = scope ∧
       ∀ k, k ∈ mi_key <$> mf_items p.1 → is_Some (r_get k s') ∧ r_volatile k s' = false)) →
  sound s'.
Proof.
  intros Hs Hitems Hact. split; [done|]. intros scope ak raw Hak Hraw.
  assert (∃ p, publication p ∧ raw = encode_manifest p.1 ∧ manifest_scope p.1 = scope ∧
       ∀ k, k ∈ mi_key <$> mf_items p.1 → is_Some (r_get k s') ∧ r_volatile k s' = false)
    as (p & Hpub & Henc & Hsc & Hk).
  { destruct (Hact _ _ _ Hak Hraw) as [[Hold Hkeep]|Hnew]; [|done].
    destruct (so_active s Hs _ _ _ Hak Hold) as (p & Hpub & Henc & Hsc & Hk).
    exists p. split_and!; [done..|]. intros k Hin. destruct (Hk k Hin) as [Hg Hv].
    apply Hkeep; [|by rewrite Hg|done]. rewrite <-Hsc. by apply publication_key. }
  exists p. split_and!; [done..|]. intros k Hin. destruct (Hk k Hin) as [[v Hg] Hv].
  split; [|done]. rewrite Hg. f_equal. apply (Hitems scope); [|done].
  rewrite <-Hsc. by apply publication_key.
Qed.

(** The pointer script, whoever is current. *)
Lemma publish_candidate_sound p ak current s :
  sound s → publication p → activeDataPublicationKey (manifest_scope p.1) = Ok ak →
  (∀ raw m, current = Some (raw, m) → ∃ q, publication q ∧ m = q.1 ∧
     manifest_scope q.1 = manifest_scope p.1) →
  sound (publish_candidate ak p.1 current s).1.
Proof.
  intros Hs Hp Hak Hcur. unfold publish_candidate. destruct (check_stage _ s) eqn:Hcheck; [done|].
  pose proof (check_stage_none _ _ Hcheck) as Hstage.
  set (s1 := r_set ak (encode_manifest p.1) (persist_items (mf_items p.1) s)).
  set (s2 := match current with
             | Some (raw, m) => expire_items (mf_items p.1) (mf_items m) s1
             | None => s1 end).
  assert ((match current with
      | Some (raw, m) => (expire_items (mf_items p.1) (mf_items m) s1, APublished (Some raw))
      | None => (s1, APublished None) end).1 = s2) as -> by (by destruct current as [[]|]).
  assert (∀ k, r_get k s2 = if decide (k = ak) then Some (encode_manifest p.1) else r_get k s) as Hget.
  { intros k. assert (r_get k s2 = r_get k s1) as ->
      by (unfold s2; destruct current as [[]|]; [apply get_expire_items|done]).
    unfold s1. by rewrite get_set, get_persist_items. }
  assert (∀ k, is_Some (r_get k s) → k ∈ mi_key <$> mf_items p.1 ∨
      (∃ scope, is_item_key scope k ∧ scope ≠ manifest_scope p.1) →
    r_volatile k s = false ∨ k ∈ mi_key <$> mf_items p.1 → r_volatile k s2 = false) as Hvol.
  { intros k _ Hwhose Hv. assert (r_volatile k s2 = r_volatile k s1) as ->.
    { unfold s2. destruct current as [[raw m]|]; [|done]. apply volatile_expire_items.
      destruct Hwhose as [Hin|(scope & Hk & Hne)]; [by right|left]. intros Hin.
      destruct (Hcur _ _ eq_refl) as (q & Hq & -> & Hsc).
      apply Hne. rewrite <-Hsc. eapply is_item_key_scope; [done|]. by apply publication_key. }
    unfold s1. rewrite volatile_set, volatile_persist_items. repeat case_decide; try done. tauto. }
  apply (sound_step s); [done|..].
  - intros scope k v Hk. rewrite Hget, decide_False by (by eapply active_ne_item).
    by apply (so_items s Hs scope).
  - intros scope ak' raw Hak'. rewrite Hget. case_decide as Heq.
    + intros [= <-]. right. exists p. subst ak'.
      split_and!; [done|done|by eapply active_key_inj|]. intros k Hin.
      assert (is_Some (r_get k s)) as Hsome.
      { apply list_elem_of_fmap in Hin as (i & -> & Hin). destruct (Hstage i Hin) as (v & -> & _). done. }
      rewrite Hget, decide_False by (eapply active_ne_item; [done|by apply publication_key]).
      split; [done|]. apply Hvol; [done|by left|by right].
    + intros Hraw. left. split; [done|]. intros k Hk Hsome Hv.
      rewrite Hget, decide_False by (by eapply active_ne_item). split; [done|].
      apply Hvol; [done|right|by left]. exists scope. split; [done|]. intros ->. congruence.
Qed.

(** Commands on the items of other keys keep a sound store sound. *)
Lemma sound_same_get s s' :
  sound s → (∀ k, r_get k s' = r_get k s) →
  (∀ scope ak, activeDataPublicationKey scope = Ok ak → r_get ak s' ≠ None →
     ∀ k, is_item_key scope k → r_volatile k s = false → r_volatile k s' = false) →
  sound s'.
Proof.
  intros Hs Hget Hvol. apply (sound_step s); [done|..].
  - intros scope k v Hk. rewrite Hget. by apply (so_items s Hs scope).
  - intros scope ak raw Hak Hraw. left. rewrite <-Hget. split; [done|].
    intros k Hk Hsome Hv. rewrite Hget. split; [done|]. apply (Hvol scope ak); [done| |done..].
    by rewrite Hraw.
Qed.

Lemma sound_delete ak scope (its : list ManifestItem) s s' :
  sound s → activeDataPublicationKey scope = Ok ak →
  (∀ k, r_get k s' = if decide (k = ak) then None else r_get k s) →
  (∀ k, k ≠ ak → r_volatile k s = false → k ∉ mi_key <$> its → r_volatile k s' = false) →
  (∀ k, k ∈ mi_key <$> its → is_item_key scope k) →
  sound s'.
Proof.
  intros Hs Hak Hget Hvol Hits. apply (sound_step s); [done|..].
  - intros sc k v Hk. rewrite Hget, decide_False by (by eapply active_ne_item).
    by apply (so_items s Hs sc).
  - intros sc ak' raw Hak'. rewrite Hget. case_decide as Hne; [done|]. intros Hraw. left.
    split; [done|]. intros k Hk Hsome Hv. assert (k ≠ ak) by (by eapply active_ne_item).
    rewrite Hget, decide_False by done. split; [done|]. apply Hvol; [done..|].
    intros Hin. apply Hne. assert (sc = scope) as -> by (eapply is_item_key_scope; [done|by apply Hits]).
    congruence.
Qed.

Lemma set_item_sound p item s :
  sound s → publication p → item ∈ p.2 →
  sound (r_set_nx_px (mi_key (se_item item)) (se_payload item) DATA_PUBLICATION_STAGING_TTL_MS s).
Proof.
  intros Hs Hp Hin. set (key := mi_key (se_item item)).
  assert (is_item_key (manifest_scope p.1) key) as Hkey.
  { apply publication_key; [done|]. rewrite (publication_items p Hp), <-list_fmap_compose.
    by apply (list_elem_of_fmap_2 (mi_key ∘ se_item)). }
  apply (sound_step s); [done|..].
  - intros scope k v Hk. rewrite get_set_nx. case_decide as Hne; [|by apply (so_items s Hs scope)].
    intros [= <-]. destruct (r_get k s) as [v|] eqn:E; [by apply (so_items s Hs scope)|]. cbn.
    destruct Hp as (now & input & _ & _ & Hc). subst k. by apply Hc.
  - intros scope ak raw Hak. assert (key ≠ ak) as Hne by by eapply active_ne_item.
    rewrite get_set_nx, decide_False by by apply not_eq_sym.
    intros Hraw. left. split; [done|]. intros k Hk [v Hv] Hvol. rewrite get_set_nx, volatile_set_nx, Hv.
    case_decide; split; try done; by rewrite Hvol.
Qed.

Lemma stage_sound p s :
  sound s → publication p → sound (stageDataPublicationItems p.1 p.2 s).1.
Proof.
  intros Hs Hp. unfold stageDataPublicationItems. cbn [fst].
  assert (∀ items s, (∀ x, x ∈ items → x ∈ p.2) → sound s → sound (stage_items items s)) as H.
  { clear s Hs. induction items as [|item items IH]; intros s Hsub Hs; [done|]. unfold stage_items in *. cbn [fold_left].
    apply IH; [intros x Hx; apply Hsub; by right|]. apply (set_item_sound p); [done|done|]. apply Hsub. by left. }
  by apply (H p.2).
Qed.

Lemma pointer_sound p s :
  sound s → publication p → sound (activateDataPublicationPointer p.1 s).1.
Proof.
  intros Hs Hp.
  unfold activateDataPublicationPointer.
  destruct (activeDataPublicationKey (manifest_scope p.1)) as [ak|] eqn:Hak; [|done].
  assert (sound (activate_script ak p.1 s).1) as Hr; [|by destruct (activate_script ak p.1 s)].
  unfold activate_script. destruct (r_get ak s) as [raw|] eqn:Hraw.
  - destruct (so_active s Hs _ _ _ Hak Hraw) as (q & Hq & -> & Hsc & _).
    rewrite decode_encode. repeat case_match; try done.
    apply publish_candidate_sound; [done..|]. intros raw m [= <- <-]. by exists q.
  - by apply publish_candidate_sound.
Qed.

Lemma swap_sound p expected s :
  sound s → publication p →
  sound (compareAndSwapDataPublicationPointer (manifest_scope p.1) expected (Some p.1) s).1.
Proof.
  intros Hs Hp.
  unfold compareAndSwapDataPublicationPointer.
  destruct (activeDataPublicationKey (manifest_scope p.1)) as [ak|] eqn:Hak; [|done].
  assert (sound (swap_script ak expected (Some p.1) s).1) as Hr;
    [|by destruct (swap_script ak expected (Some p.1) s)].
  unfold swap_script. destruct (r_get ak s) as [raw|] eqn:Hraw; [|done].
  destruct (decode_manifest raw); [|done]. case_match; [done|].
  pose proof (λ k, persist_existing_spec k (mf_items p.1) s) as Hspec.
  destruct (persist_existing (mf_items p.1) s) as [s1 [missing|]]; cbn [fst].
  - apply (sound_same_get s); [done|intros k; apply Hspec|].
    intros scope ak' _ _ k _ Hv. exact (proj1 (proj2 (Hspec k)) Hv).
  - apply (sound_step s); [done|..].
    + intros scope k v Hk. rewrite get_set, decide_False by (by eapply active_ne_item).
      rewrite (proj1 (Hspec k)). by apply (so_items s Hs scope).
    + intros scope ak' raw' Hak'. rewrite get_set. destruct (decide (ak' = ak)) as [->|Hne].
      * intros [= <-]. right. exists p. split_and!; [done|done|by eapply active_key_inj|].
         intros k Hin. assert (k ≠ ak) by (eapply active_ne_item; [done|by apply publication_key]).
         rewrite get_set, volatile_set, !decide_False by done.
         destruct (Hspec k) as (-> & _ & Hm). by apply Hm.
      * rewrite (proj1 (Hspec ak')). intros Hraw'. left. split; [done|]. intros k Hk Hsome Hv.
         assert (k ≠ ak) by (by eapply active_ne_item).
         rewrite get_set, volatile_set, !decide_False by done.
         destruct (Hspec k) as (-> & Hkeep & _). split; [done|by apply Hkeep].
Qed.

Lemma remove_sound scope expected s :
  sound s → sound (compareAndSwapDataPublicationPointer scope expected None s).1.
Proof.
  intros Hs.
  unfold compareAndSwapDataPublicationPointer.
  destruct (activeDataPublicationKey scope) as [ak|] eqn:Hak; [|done].
  assert (sound (swap_script ak expected None s).1) as Hr; [|by destruct (swap_script ak expected None s)].
  unfold swap_script. destruct (r_get ak s) as [raw|]; [|done].
  destruct (decode_manifest raw); [|done]. case_match; [done|]. cbn [fst].
  apply (sound_delete ak scope [] s); [done|done|intros k; apply get_del| |].
  - intros k Hk Hv _. by rewrite volatile_del.
  - intros k Hk. by apply not_elem_of_nil in Hk.
Qed.

Lemma retire_sound scope s : sound s → sound (retireActiveDataPublication scope s).1.
Proof.
  intros Hs.
  unfold retireActiveDataPublication.
  destruct (activeDataPublicationKey scope) as [ak|] eqn:Hak; [|done].
  assert (sound (retire_script ak s).1) as Hr; [|by destruct (retire_script ak s)].
  unfold retire_script. destruct (r_get ak s) as [raw|] eqn:Hraw; [|done].
  destruct (so_active s Hs _ _ _ Hak Hraw) as (q & Hq & -> & Hsc & _). rewrite decode_encode.
  cbn [fst]. apply (sound_delete ak scope (mf_items q.1) s); [done|done|..].
  - intros k. rewrite get_del. case_decide; [done|]. apply get_expire_items.
  - intros k Hk Hv Hin. rewrite volatile_del by done. by rewrite volatile_expire_items by (by left).
  - intros k Hin. rewrite <-Hsc. by apply publication_key.
Qed.

Lemma elapse_sound ms s s' : sound s → r_elapse ms s s' → sound s'.
Proof.
  intros Hs He.
  apply (sound_step s); [done|..].
  - intros scope k v Hk Hv. destruct (elapse_get k ms s s' He) as [Hg|[_ Hg]]; [|congruence].
    apply (so_items s Hs scope); [done|]. by rewrite <-Hg.
  - intros scope ak raw Hak Hraw. left.
    destruct (elapse_get ak ms s s' He) as [Hg|[_ Hg]]; [|congruence]. split; [by rewrite <-Hg|].
    intros k Hk Hsome Hv. by destruct (elapse_stays k ms s s' He Hv) as [-> ->].
Qed.

Lemma sys_command_sound s s' : sys_command s s' → sound s → sound s'.
Proof.
  intros [] Hs; [by apply (set_item_sound p)|by apply pointer_sound|by apply swap_sound|
    by apply remove_sound|by apply retire_sound].
Qed.

Lemma sys_step_sound s s' : sys_step s s' → sound s → sound s'.
Proof. intros [] Hs; [by eapply sys_command_sound|by eapply elapse_sound]. Qed.

(** ** Items outlive their pointer *)

(** The key holds [v], and does for more than [ms] milliseconds if nobody touches it. *)
Definition outlives (ms : Z) (k : jsstr) (v : V) s : Prop :=
  r_get k s = Some v ∧ ∀ t, r_pttl k s = Some t → ms < t.

Lemma outlives_elapse ms ms' k v s s' :
  0 ≤ ms' → r_elapse ms s s' → outlives (ms + ms') k v s → outlives ms' k v s'.
Proof.
  intros Hms He [Hv Ht]. pose proof (elapse_get k ms s s' He) as Hg. pose proof (elapse_pttl k ms s s' He) as Hp.
  unfold outlives. destruct (r_pttl k s) as [t|]; cycle 1.
  { rewrite Hp. split; [|done]. by destruct Hg as [->|[(t & [=] & _) _]]. }
  specialize (Ht t eq_refl). rewrite Hp by lia. split.
  - destruct Hg as [->|[(t' & [= <-] & Hle) _]]; [done|lia].
  - intros t' [= <-]. lia.
Qed.

Lemma outlives_persist ms k v key s : outlives ms k v s → outlives ms k v (r_persist key s).
Proof. intros [Hv Ht]. split; [by rewrite get_persist|]. intros t. rewrite pttl_persist. case_decide; [done|apply Ht]. Qed.

Lemma outlives_persist_items ms k v its s : outlives ms k v s → outlives ms k v (persist_items its s).
Proof.
  unfold persist_items. revert s. induction its as [|i its IH]; intros s H; [done|]. cbn [fold_left].
  by apply IH, outlives_persist.
Qed.

Lemma outlives_persist_existing ms k v its s : outlives ms k v s → outlives ms k v (persist_existing its s).1.
Proof.
  revert s. induction its as [|i its IH]; intros s H; [done|]. cbn [persist_existing].
  destruct (is_null _); [done|]. by apply IH, outlives_persist.
Qed.

(** An item that is retired keeps a day. *)
Lemma outlives_expire_items ms k v retained its s :
  ms < 24 * 60 * 60 * 1000 → outlives ms k v s → outlives ms k v (expire_items retained its s).
Proof.
  intros Hms. unfold expire_items. revert s. induction its as [|i its IH]; intros s H; [done|]. cbn [fold_left].
  apply IH. case_match; [|done]. destruct H as [Hv Ht]. split; [by rewrite get_pexpire|].
  intros t. rewrite pttl_pexpire by done. case_decide; [|apply Ht]. rewrite Hv. intros [= <-].
  unfold DATA_PUBLICATION_RETIRED_TTL_MS. lia.
Qed.

Lemma outlives_set ms k v key w s : k ≠ key → outlives ms k v s → outlives ms k v (r_set key w s).
Proof. intros Hne H. unfold outlives. by rewrite get_set, pttl_set, !decide_False. Qed.

Lemma outlives_del ms k v key s : k ≠ key → outlives ms k v s → outlives ms k v (r_del key s).
Proof. intros Hne H. unfold outlives. by rewrite get_del, pttl_del, decide_False. Qed.

Lemma outlives_publish ms k v ak candidate current s :
  ms < 24 * 60 * 60 * 1000 → k ≠ ak → outlives ms k v s →
  outlives ms k v (publish_candidate ak candidate current s).1.
Proof.
  intros Hms Hne H. unfold publish_candidate. destruct (check_stage _ s); [done|].
  destruct current as [[raw m]|]; cbn [fst]; [apply outlives_expire_items; [done|]|];
    by apply outlives_set, outlives_persist_items.
Qed.

(** What a command leaves of an item that outlives less than a day. *)
Lemma command_outlives ms scope k v s s' :
  ms < 24 * 60 * 60 * 1000 → is_item_key scope k → sys_command s s' → outlives ms k v s → outlives ms k v s'.
Proof.
  intros Hms Hk Hcmd H.
  assert (∀ sc ak, activeDataPublicationKey sc = Ok ak → k ≠ ak) as Hne by (intros sc ak Hak; by eapply active_ne_item).
  destruct Hcmd as [p item s Hp Hin|p s Hp|p expected s Hp|sc expected s|sc s].
  - destruct H as [Hv Ht]. unfold outlives. rewrite get_set_nx, pttl_set_nx, Hv. by case_decide.
  - unfold activateDataPublicationPointer. destruct (activeDataPublicationKey _) as [ak|] eqn:Hak; [|done].
    assert (outlives ms k v (activate_script ak p.1 s).1) as Hr; [|by destruct (activate_script ak p.1 s)].
    unfold activate_script. destruct (r_get ak s) as [raw|]; [|by apply outlives_publish; [|eapply Hne|]].
    repeat case_match; try done. by apply outlives_publish; [|eapply Hne|].
  - unfold compareAndSwapDataPublicationPointer. destruct (activeDataPublicationKey _) as [ak|] eqn:Hak; [|done].
    assert (outlives ms k v (swap_script ak expected (Some p.1) s).1) as Hr; [|by destruct (swap_script ak expected _ s)].
    unfold swap_script. destruct (r_get ak s) as [raw|]; [|done]. destruct (decode_manifest raw); [|done].
    case_match; [done|]. pose proof (outlives_persist_existing ms k v (mf_items p.1) s H) as Hx.
    destruct (persist_existing (mf_items p.1) s) as [s1 [missing|]]; [done|]. by apply outlives_set; [eapply Hne|].
  - unfold compareAndSwapDataPublicationPointer. destruct (activeDataPublicationKey _) as [ak|] eqn:Hak; [|done].
    assert (outlives ms k v (swap_script ak expected None s).1) as Hr; [|by destruct (swap_script ak expected _ s)].
    unfold swap_script. repeat case_match; try done. by apply outlives_del; [eapply Hne|].
  - unfold retireActiveDataPublication. destruct (activeDataPublicationKey _) as [ak|] eqn:Hak; [|done].
    assert (outlives ms k v (retire_script ak s).1) as Hr; [|by destruct (retire_script ak s)].
    unfold retire_script. repeat case_match; try done.
    by apply outlives_del; [eapply Hne|apply outlives_expire_items].
Qed.

Lemma within_nonneg ms s s' : sys_within ms s s' → 0 ≤ ms.
Proof. induction 1; lia. Qed.

Lemma within_outlives ms scope k v s s' :
  ms < 24 * 60 * 60 * 1000 → is_item_key scope k → sys_within ms s s' → outlives ms k v s → r_get k s' = Some v.
Proof.
  intros Hms Hk H. induction H as [s|ms s1 s2 s3 Hcmd H IH|ms ms' s1 s2 s3 Hpos He H IH]; intros Hlive.
  - apply Hlive.
  - apply IH; [done|]. by eapply command_outlives.
  - apply IH; [lia|]. eapply outlives_elapse; [by eapply within_nonneg|done|done].
Qed.

(** Reading the items of a publication that is completely there. *)
Lemma read_items_complete now input p s :
  publication_of now input p →
  (∀ k, k ∈ mi_key <$> mf_items p.1 → r_get k s = Some (content k)) →
  ∃ values, read_items (mf_items p.1) s = Some values ∧
    Forall2 (λ f g, f.1 = g.1 ∧ same_value f.2 g.2) (pi_items input) values.
Proof.
  intros (Hpub & Hprep & Hcontent) Hget. destruct p as [m items]. simpl in *.
  apply prepare_ok in Hprep. rewrite (po_items _ _ _ _ Hprep) in *.
  pose proof (po_each _ _ _ _ Hprep) as Hf.
  assert (∀ item j, (mi_name (se_item item), j) ∈ pi_items input → prepared_item input j item →
    ∃ j', parse_text (se_payload item) = Some j' ∧ same_value j j' ∧
          itemCount j' = mi_count (se_item item)) as Hparse
    by (intros item j; by apply (prepared_parse_item now input m items)).
  clear Hpub Hprep. revert Hcontent Hget Hparse.
  induction Hf as [|[n j] it l k [Hn Hit] _ IH]; intros Hcontent Hget Hparse.
  { exists []. split; [done|constructor]. }
  simpl in Hn. subst n. destruct (Hparse it j) as (j' & Hj' & Hsame & Hcount); [by left|done|].
  destruct IH as (values & Hvalues & Hall).
  - intros x Hx. apply Hcontent. by right.
  - intros x Hx. apply Hget. by right.
  - intros x y Hx. apply Hparse. by right.
  - exists ((mi_name (se_item it), j') :: values). split; [|by constructor].
    change (se_item <$> it :: k) with (se_item it :: (se_item <$> k)). cbn [read_items].
    rewrite Hget by (rewrite fmap_cons; by left). rewrite <-Hcontent by (by left).
    rewrite (pr_bytes _ _ _ Hit), Z.eqb_refl, (pr_sha _ _ _ Hit), bool_decide_eq_true_2 by done.
    cbn [negb orb]. rewrite Hj', Hcount, Z.eqb_refl. cbn [negb]. by rewrite Hvalues.
Qed.

Lemma publication_parse p : publication p →
  parseDataPublicationManifest (Some (encode_manifest p.1)) = Some p.1.
Proof.
  intros (now & input & Hpub & Hprep & _). destruct p as [m items].
  by eapply prepared_parse; [|apply prepare_ok].
Qed.

(** Reading a pointer to a manifest with the items of publication [p], which are all there when they
    are read. *)
Lemma sound_read_at now input p m ak s s' :
  sound s → publication_of now input p → activeDataPublicationKey (pi_scope input) = Ok ak →
  r_get ak s = Some (encode_manifest m) → mf_items m = mf_items p.1 →
  (∀ k, k ∈ mi_key <$> mf_items p.1 → r_get k s' = Some (content k)) →
  ∃ values, readActiveDataPublication (pi_scope input) s s' = Ok (Some (m, values)) ∧
    Forall2 (λ f g, f.1 = g.1 ∧ same_value f.2 g.2) (pi_items input) values.
Proof.
  intros Hs Hp Hak Hr Hitems Hk.
  destruct (so_active s Hs _ _ _ Hak Hr) as (q & Hq & Henc & Hsc & _).
  apply (f_equal decode_manifest) in Henc. rewrite !decode_encode in Henc. injection Henc as ->.
  destruct (read_items_complete now input p s' Hp Hk) as (values & Hvalues & Hall).
  exists values. split; [|done]. unfold readActiveDataPublication. rewrite Hak. cbn [result_bind].
  rewrite Hr, (publication_parse q Hq). unfold assertManifestMatchesScope.
  rewrite Hsc, bool_decide_eq_true_2, Hitems by done. cbn [negb orb].
  destruct (is_nil (mf_items p.1)) eqn:Hnil; [|by rewrite Hvalues].
  exfalso. rewrite (publication_items p) in Hnil by (by exists now, input).
  destruct Hp as (_ & Hprep & _), p as [m' items]. apply prepare_ok in Hprep.
  pose proof (po_nonempty _ _ _ _ Hprep). by destruct items.
Qed.

(** A reader between whose commands less than a day passes. *)
Lemma sound_read_later now input p m ak ms s s' :
  sound s → publication_of now input p → activeDataPublicationKey (pi_scope input) = Ok ak →
  r_get ak s = Some (encode_manifest m) → mf_items m = mf_items p.1 →
  sys_within ms s s' → ms < 24 * 60 * 60 * 1000 →
  ∃ values, readActiveDataPublication (pi_scope input) s s' = Ok (Some (m, values)) ∧
    Forall2 (λ f g, f.1 = g.1 ∧ same_value f.2 g.2) (pi_items input) values.
Proof.
  intros Hs Hp Hak Hr Hitems Hlater Hms. apply (sound_read_at now input p m ak); [done..|].
  destruct (so_active s Hs _ _ _ Hak Hr) as (q & Hq & Henc & _ & Hk).
  apply (f_equal decode_manifest) in Henc. rewrite !decode_encode in Henc. injection Henc as ->.
  intros k Hin. rewrite <-Hitems in Hin. destruct (Hk k Hin) as [Hv Hvol].
  eapply within_outlives; [done|by apply publication_key|done|].
  split; [done|]. intros t Ht. unfold r_volatile in Hvol. by rewrite Ht in Hvol.
Qed.

Lemma sound_read_as now input p m ak s :
  sound s → publication_of now input p → activeDataPublicationKey (pi_scope input) = Ok ak →
  r_get ak s = Some (encode_manifest m) → mf_items m = mf_items p.1 →
  ∃ values, readActiveDataPublication (pi_scope input) s s = Ok (Some (m, values)) ∧
    Forall2 (λ f g, f.1 = g.1 ∧ same_value f.2 g.2) (pi_items input) values.
Proof. intros Hs Hp Hak Hr Hitems. by apply (sound_read_later now input p m ak 0); [..|apply within_now|]. Qed.

Lemma publication_scope now input p : publication_of now input p → manifest_scope p.1 = pi_scope input.
Proof. intros (_ & Hprep & _). destruct p. by eapply po_scope, prepare_ok. Qed.

Lemma sound_read scope ak ms s s' :
  sound s → activeDataPublicationKey scope = Ok ak → r_get ak s ≠ None →
  sys_within ms s s' → ms < 24 * 60 * 60 * 1000 →
  ∃ now input p values,
    publication_of now input p ∧ pi_scope input = scope ∧ r_get ak s = Some (encode_manifest p.1) ∧
    readActiveDataPublication scope s s' = Ok (Some (p.1, values)) ∧
    Forall2 (λ f g, f.1 = g.1 ∧ same_value f.2 g.2) (pi_items input) values.
Proof.
  intros Hs Hak Hraw Hlater Hms. destruct (r_get ak s) as [raw|] eqn:Hr; [|done]. clear Hraw.
  destruct (so_active s Hs _ _ _ Hak Hr) as (p & (now & input & Hp) & -> & Hsc & _).
  rewrite (publication_scope now input p Hp) in Hsc. subst scope.
  destruct (sound_read_later now input p p.1 ak ms s s') as (values & Hread & Hall); [done..|].
  by exists now, input, p, values.
Qed.

(** What the activation of a publication reports, on a sound store. *)
Lemma activate_sound p ak s r :
  sound s → publication p → activeDataPublicationKey (manifest_scope p.1) = Ok ak →
  (activateDataPublicationPointer p.1 s).2 = Ok r → pb_stale r = false →
  r_get ak (activateDataPublicationPointer p.1 s).1 = Some (encode_manifest (pb_manifest r)) ∧
  mf_items (pb_manifest r) = mf_items p.1 ∧
  mf_publicationId (pb_manifest r) = mf_publicationId p.1.
Proof.
  intros Hs Hp Hak. unfold activateDataPublicationPointer. rewrite Hak. unfold activate_script.
  assert (∀ current, match current with Some (_, m) => True | None => True end →
    let '(s', status) := publish_candidate ak p.1 current s in
    match status with APublished _ => r_get ak s' = Some (encode_manifest p.1)
                    | AIdempotent _ | AStale _ => False | _ => True end) as Hpub.
  { intros current _. unfold publish_candidate.
    destruct (check_stage _ s) as [failure|] eqn:Hcheck.
    - clear -Hcheck. revert Hcheck. generalize (mf_items p.1). intros its.
      induction its as [|i its IH]; simpl; [done|]. destruct (r_get (mi_key i) s); [|by intros [= <-]].
      destruct (negb _); [by intros [= <-]|done].
    - destruct current as [[raw m]|]; [rewrite get_expire_items|]; by rewrite get_set, decide_True. }
  destruct (r_get ak s) as [raw|] eqn:Hraw.
  - destruct (so_active s Hs _ _ _ Hak Hraw) as (q & Hq & -> & Hsc & _). rewrite decode_encode.
    case_bool_decide as Hid.
    { destruct (same_publication q.1 p.1) eqn:Hsame; [|done].
      rewrite (publication_parse q Hq). intros [= <-] _. cbn. split_and!; [done| |done].
      unfold same_publication in Hsame. boolsolve. done. }
    destruct (_ <? _); [by intros [= <-]|]. destruct (_ && _); [by intros [= <-]|].
    specialize (Hpub (Some (encode_manifest q.1, q.1)) I).
    destruct (publish_candidate _ _ _ _) as [s' []]; try done. by intros [= <-] _.
  - specialize (Hpub None I).
    destruct (publish_candidate _ _ _ _) as [s' []]; try done. by intros [= <-] _.
Qed.

Lemma steps_sound s s' : sound s → rtc sys_step s s' → sound s'.
Proof. intros Hs Hr. induction Hr; [done|]. by eapply IHHr, sys_step_sound. Qed.

Lemma reachable_sound s0 s :
  (∀ k, r_get k s0 = None) → rtc sys_step s0 s → sound s.
Proof. intros H0. apply steps_sound. split; intros; congruence. Qed.
End system.

(** ** Properties *)

(** C1: a reader takes two commands, the [GET] of the pointer and the [MGET] of the items it names.
    Whatever publishers stage, activate, swap, remove and retire before the first and between the two,
    in any interleaving of their commands and with less than 24 hours between the two, a reader whose
    [GET] finds a pointer gets that publication complete: its manifest, and for every item exactly the
    value it was prepared with (up to the order of members), even when it was replaced or retired
    before the [MGET]. No reader sees a missing, expired, truncated or mixed item, given that a
    revision of a scope is published with one content. *)
Theorem readers_never_torn {S V : Type} `{!Codec V} `{!CodecLaws V} `{!Redis S V} `{!RedisLaws S V}
    (content : jsstr → V) (s0 s s' : S) (scope : Scope) (ak : jsstr) (ms : Z)
    (Hempty : ∀ k, r_get k s0 = None)
    (Hreach : rtc (sys_step content) s0 s)
    (Hkey : activeDataPublicationKey scope = Ok ak)
    (Hactive : r_get ak s ≠ None)
    (Hlater : sys_within content ms s s') (Hms : ms < 24 * 60 * 60 * 1000) :
  ∃ now input p values,
    publication_of content now input p ∧ pi_scope input = scope ∧
    r_get ak s = Some (encode_manifest p.1) ∧
    readActiveDataPublication scope s s' = Ok (Some (p.1, values)) ∧
    Forall2 (λ f g, f.1 = g.1 ∧ same_value f.2 g.2) (pi_items input) values.
Proof. eapply sound_read; [by eapply reachable_sound|done..]. Qed.

(** an activation never moves a pointer back: whatever the store holds, after the script runs
    on a pointer it can read, the pointer is the one it was, or the candidate, and then the candidate
    was checked later at its source, or at the same time with a higher revision; on the same
    publication id nothing changes. *)
Theorem activation_moves_forward {S V : Type} `{!Codec V} `{!CodecLaws V} `{!Redis S V}
    `{!RedisLaws S V} (key : jsstr) (current candidate : Manifest) (s : S)
    (Hcurrent : r_get key s = Some (encode_manifest current)) :
  let s' := (activate_script key candidate s).1 in
  s' = s ∨
  mf_publicationId current ≠ mf_publicationId candidate ∧
  r_get key s' = Some (encode_manifest candidate) ∧
  (mf_sourceCheckedAt current < mf_sourceCheckedAt candidate ∨
   mf_sourceCheckedAt current = mf_sourceCheckedAt candidate ∧
   mf_revision current < mf_revision candidate).
Proof.
  unfold activate_script. rewrite Hcurrent, decode_encode.
  case_bool_decide as Hid; [by left|].
  destruct (Z.ltb_spec (mf_sourceCheckedAt candidate) (mf_sourceCheckedAt current)); [by left|].
  destruct (Z.eqb_spec (mf_sourceCheckedAt current) (mf_sourceCheckedAt candidate)),
    (Z.leb_spec (mf_revision candidate) (mf_revision current)); cbn [andb]; try (by left);
    (unfold publish_candidate; destruct (check_stage _ s); [by left|right]);
    (split; [done|]; split; [|lia]); cbn [fst];
    by rewrite get_expire_items, get_set, decide_True.
Qed.

(** publishing then reading is a round trip: from any reachable store, a publication reported
    as published (first activation or idempotent repeat) is what the next read of its scope
    returns: the reported manifest, with the publication id of the request, and the published
    values. *)
Theorem publish_then_read {S V : Type} `{!Codec V} `{!CodecLaws V} `{!Redis S V} `{!RedisLaws S V}
    (content : jsstr → V) (s0 s s' : S) (now : Z) (input : PublishInput)
    (p : Manifest * list (SerializedItem V)) (r : PublishResult)
    (Hempty : ∀ k, r_get k s0 = None)
    (Hreach : rtc (sys_step content) s0 s)
    (Hinput : publication_of content now input p)
    (Hpublish : publishDataRevision now input true true s = (s', Ok r))
    (Hpublished : pb_stale r = false) :
  ∃ values,
    readActiveDataPublication (pi_scope input) s' s' = Ok (Some (pb_manifest r, values)) ∧
    mf_publicationId (pb_manifest r) = pi_publicationId input ∧
    Forall2 (λ f g, f.1 = g.1 ∧ same_value f.2 g.2) (pi_items input) values.
Proof.
  pose proof Hinput as (_ & Hprep & _). pose proof (publication_scope _ _ _ _ Hinput) as Hsc.
  assert (publication content p) as Hp by (by exists now, input).
  unfold publishDataRevision in Hpublish. rewrite Hprep in Hpublish. destruct p as [m items].
  pose proof (stage_sound content (m, items) s (reachable_sound content s0 s Hempty Hreach) Hp) as Hs1.
  cbn [fst snd] in Hs1.
  destruct (stageDataPublicationItems m items s) as [s1 [u|e]]; [|done]. cbn [negb fst] in *.
  pose proof (pointer_sound content (m, items) s1 Hs1 Hp) as Hs2.
  destruct (activeDataPublicationKey (manifest_scope m)) as [ak|e] eqn:Hak.
  2: { unfold activateDataPublicationPointer in Hpublish. rewrite Hak in Hpublish. done. }
  cbn [fst] in Hs2, Hsc.
  destruct (activateDataPublicationPointer m s1) as [s2 published] eqn:Hact. cbn [fst] in Hs2.
  injection Hpublish as <- Hr. apply result_bind_ok in Hr as (r' & -> & Hr).
  apply throw_when_ok in Hr as [_ [= ->]].
  pose proof (activate_sound content (m, items) ak s1 r Hs1 Hp Hak) as Hok.
  cbn [fst] in Hok. rewrite Hact in Hok. destruct Hok as (Hget & Hitems & Hid); [done|done|].
  destruct (sound_read_as content now input (m, items) (pb_manifest r) ak s2) as (values & Hread & Hall);
    [done|done|by rewrite <-Hsc|done|done|].
  exists values. split_and!; [done| |done]. rewrite Hid. cbn [fst]. by eapply po_id, prepare_ok.
Qed.

(** ** An instance and concrete runs *)

(** Texts that remember what they are the text of. *)
Inductive sample_text := TextManifest (m : Manifest) | TextJson (j : json).

#[export] Instance sample_text_eq_dec : EqDecision sample_text.
Proof. solve_decision. Defined.

#[export] Instance sample_codec : Codec sample_text := {
  encode_manifest := TextManifest;
  decode_manifest v := match v with TextManifest m => Some m | TextJson _ => None end;
  canonicalJson j := TextJson (canonicalize j);
  postgresJsonbCanonicalJson j := TextJson (jsonb_order j);
  parse_text v := match v with
    | TextJson (JDate _) | TextManifest _ => None
    | TextJson j => Some j end;
  byte_length _ := 1;
  sha256 _ := repeat 48 64;
}.

#[export] Instance sample_codec_laws : CodecLaws sample_text.
Proof.
  split.
  - done.
  - intros j _ _. exists (canonicalize j). split; [by destruct j|].
    eapply same_value_canonical, canonicalize_order.
  - intros j _ _. exists (jsonb_order j). split; [by destruct j|].
    eapply same_value_canonical, jsonb_order_order.
  - intros [m|x] j; [done|]. destruct x; simpl; intros [= <-] d; discriminate.
  - done.
  - done.
Qed.

Definition sample_value : json := JObject [(js "rowCount", JNumber (of_int 3)); (js "10", JNull)].

Definition sample_publish : PublishInput :=
  mkPublish (mkScope DatasetMarket (js "2526") None) 7 (js "0190a3b4-0000-7000-8000-00000000000a")
    (Some 1000) None PActive [(js "context", sample_value)].

Definition sample_content (k : jsstr) : sample_text := TextJson (canonicalize sample_value).

Definition sample_prepared : Manifest * list (SerializedItem sample_text) :=
  match prepareDataPublication 2000 sample_publish with
  | Ok p => p
  | Throw _ => (mkManifest DatasetMarket [] None 0 [] 0 None 0 PActive [], [])
  end.

Lemma sample_publication : publication_of sample_content 2000 sample_publish sample_prepared.
Proof.
  split_and!.
  - split.
    + intros name j [= -> ->]%list_elem_of_singleton. split_and!; [|reflexivity|discriminate].
      apply wf_object; [apply (bool_decide_unpack _); vm_compute; exact I|repeat constructor].
    + intros e [=].
  - vm_compute. reflexivity.
  - intros item Hin. vm_compute in Hin. apply list_elem_of_singleton in Hin as ->. vm_compute. reflexivity.
Qed.

Definition sample_store : memory sample_text :=
  (activateDataPublicationPointer sample_prepared.1
     (stageDataPublicationItems sample_prepared.1 sample_prepared.2 ∅).1).1.

Lemma sample_reachable : rtc (sys_step sample_content) ∅ sample_store.
Proof.
  assert (publication sample_content sample_prepared) as Hp
    by (exists 2000, sample_publish; apply sample_publication).
  destruct (sample_prepared.2) as [|item [|]] eqn:Hitems; [vm_compute in Hitems; discriminate..| |vm_compute in Hitems; discriminate].
  eapply rtc_l; [apply sys_send, (cmd_stage sample_content sample_prepared item); [done|rewrite Hitems; by left]|].
  apply rtc_once. unfold sample_store, stageDataPublicationItems. rewrite Hitems. cbn [fst fold_left].
  by apply sys_send, (cmd_activate sample_content sample_prepared).
Qed.

(** The publication is retired and an hour passes before the items are read. *)
Definition sample_later : memory sample_text :=
  omap (aged 3600000) (retireActiveDataPublication (pi_scope sample_publish) sample_store).1.

Lemma readers_never_torn_witness :
  ∃ now input p values,
    publication_of sample_content now input p ∧ pi_scope input = pi_scope sample_publish ∧
    readActiveDataPublication (pi_scope sample_publish) sample_store sample_later = Ok (Some (p.1, values)) ∧
    Forall2 (λ f g, f.1 = g.1 ∧ same_value f.2 g.2) (pi_items input) values.
Proof.
  destruct (readers_never_torn sample_content ∅ sample_store sample_later (pi_scope sample_publish)
    (js "llm:data:fpl:market:2526:active") (3600000 + 0))
    as (now & input & p & values & Hp & Hsc & _ & Hread & Hall).
  - intros k. reflexivity.
  - apply sample_reachable.
  - vm_compute. reflexivity.
  - vm_compute. discriminate.
  - eapply within_command; [apply (cmd_retire sample_content (pi_scope sample_publish))|].
    eapply within_elapse; [|reflexivity|apply within_now]. lia.
  - lia.
  - exists now, input, p, values. split_and!; [exact Hp|exact Hsc|exact Hread|exact Hall].
Defined.

Lemma activation_moves_forward_witness :
  let key := js "llm:data:fpl:market:2526:active" in
  let s' := (activate_script key sample_prepared.1 sample_store).1 in
  s' = sample_store ∨
  mf_publicationId sample_prepared.1 ≠ mf_publicationId sample_prepared.1 ∧
  r_get key s' = Some (encode_manifest sample_prepared.1) ∧
  (mf_sourceCheckedAt sample_prepared.1 < mf_sourceCheckedAt sample_prepared.1 ∨
   mf_sourceCheckedAt sample_prepared.1 = mf_sourceCheckedAt sample_prepared.1 ∧
   mf_revision sample_prepared.1 < mf_revision sample_prepared.1).
Proof.
  apply (activation_moves_forward (js "llm:data:fpl:market:2526:active") sample_prepared.1
    sample_prepared.1 sample_store).
  vm_compute. reflexivity.
Defined.

Lemma publish_then_read_witness :
  let r := mkPublishResult false sample_prepared.1 None in
  ∃ s' values,
    publishDataRevision 2000 sample_publish true true (∅ : memory sample_text) = (s', Ok r) ∧
    readActiveDataPublication (pi_scope sample_publish) s' s' = Ok (Some (sample_prepared.1, values)).
Proof.
  destruct (publishDataRevision 2000 sample_publish true true (∅ : memory sample_text)) as [s' res] eqn:E.
  assert (res = Ok (mkPublishResult false sample_prepared.1 None)) as ->.
  { change res with (s', res).2. rewrite <-E. vm_compute. reflexivity. }
  destruct (publish_then_read sample_content ∅ ∅ s' 2000 sample_publish sample_prepared
    (mkPublishResult false sample_prepared.1 None)) as (values & Hread & _).
  - intros k. reflexivity.
  - apply rtc_refl.
  - apply sample_publication.
  - exact E.
  - reflexivity.
  - exists s', values. split; [reflexivity|exact Hread].
Defined.
