(* ===== verification/Obligations.v ===== *)
(** * Scheduler obligations ([src/repositories/scheduler-obligations.ts], [src/scheduler/scheduler.service.ts])

    An obligation is one due run of a scheduled job.  It is reserved once per job, scope and period,
    claimed under a lease by a scheduler pass, handed to a queue, and completed or failed by a
    worker; a failed or abandoned obligation is claimed again under a new generation.

    The state is the table [ops.scheduler_obligations].  Database times are microseconds; a JS
    [Date] holds whole milliseconds, so a time read from the database is truncated ([js_date]).  Job
    definitions and queues are parameters here, what a definition plans and what its [enqueue]
    returns; the definitions of the service are in [SchedulerPlans]. *)

From S2P Require Import Prelude JsCollections JsNumber Json Postgres.

(** ** Data *)

(** src: src/repositories/scheduler-obligations.ts:9-16 SchedulerObligationStatus *)
Inductive Status := Pending | Enqueued | Running | Succeeded | Failed | Skipped | Irrecoverable.

#[export] Instance status_eq_dec : EqDecision Status.
Proof. solve_decision. Defined.

(** src: src/scheduler/job-registry.ts:49-49 SchedulerSource *)
Inductive SchedulerSource := SourceSchedule | SourceCatchup | SourceReconcile | SourceManual.

#[export] Instance source_eq_dec : EqDecision SchedulerSource.
Proof. solve_decision. Defined.

(** A row of the table.
    src: src/db/schemas/platform.schema.ts:479-506 schedulerObligationsInOps *)
Record Obligation := mkObligation {
  ob_obligationId : jsstr;
  ob_jobName : jsstr;
  ob_scopeKey : jsstr;
  ob_periodKey : jsstr;
  ob_cadence : jsstr;
  ob_timezone : jsstr;
  ob_status : Status;
  ob_source : SchedulerSource;
  ob_dueAt : Z;
  ob_generation : Z;
  ob_leaseOwner : option jsstr;
  ob_leaseExpiresAt : option Z;
  ob_bullJobId : option jsstr;
  ob_runId : option jsstr;
  ob_attempts : Z;
  ob_lastError : option jsstr;
  ob_evidence : json;
  ob_completedAt : option Z;
  ob_updatedAt : Z;
}.

(** src: src/scheduler/job-registry.ts:57-66 SchedulerObligationPlan *)
Record SchedulerObligationPlan := mkObligationPlan {
  op_scopeKey : jsstr;
  op_periodKey : jsstr;
  op_dueAt : Z;
  op_source : SchedulerSource;
  op_eventId : option Z;
  op_terminalStatus : option Status;
  op_evidence : option (list (jsstr * json));
}.

(** What the repository uses of a definition. *)
Record JobDefinition := mkDefinition { jd_name : jsstr; jd_cadence : jsstr; jd_timezone : jsstr }.

Notation Table := (list Obligation).

(** ** Times and leases *)

(** src: src/repositories/scheduler-obligations.ts:43-43 DEFAULT_SCHEDULER_LEASE_MS *)
Definition DEFAULT_SCHEDULER_LEASE_MS : Z := 15 * 60000.

Definition is_safe (n : Z) : bool := (- MAX_SAFE_INTEGER <=? n) && (n <=? MAX_SAFE_INTEGER).

(** [configured] is [process.env.SCHEDULER_LEASE_MS].
    src: src/repositories/scheduler-obligations.ts:45-49 resolveSchedulerLeaseMs *)
Definition resolveSchedulerLeaseMs (configured : option jsstr) : Z :=
  match configured with
  | None => DEFAULT_SCHEDULER_LEASE_MS
  | Some text =>
      let n := Number text in
      if is_integer n && is_safe (int_value n) && (60000 <=? int_value n)
      then int_value n else DEFAULT_SCHEDULER_LEASE_MS
  end.

(** ** Rows *)

(** src: src/db/schemas/platform.schema.ts:508-512 scheduler_obligations_identity_key *)
Definition identity (o : Obligation) : jsstr * jsstr * jsstr :=
  (ob_jobName o, ob_scopeKey o, ob_periodKey o).

Definition is_open (s : Status) : bool := bool_decide (s = Pending) || bool_decide (s = Failed).
Definition in_flight (s : Status) : bool := bool_decide (s = Enqueued) || bool_decide (s = Running).
Definition is_final (s : Status) : bool := negb (is_open s) && negb (in_flight s).

(** The CHECK constraints on a row; the evidence is an object.
    src: src/db/schemas/platform.schema.ts:522-543 schedulerObligationsInOps *)
Definition row_checks (o : Obligation) : bool :=
  (0 <=? ob_generation o) && (0 <=? ob_attempts o) &&
  match ob_evidence o with JObject _ => true | _ => false end &&
  bool_decide (is_null (ob_leaseOwner o) = is_null (ob_leaseExpiresAt o)) &&
  btrim_nonempty (ob_jobName o) && btrim_nonempty (ob_scopeKey o) && btrim_nonempty (ob_periodKey o).

(** What a caller gets of a row.
    src: src/repositories/scheduler-obligations.ts:58-77 mapRow *)
Definition mapRow (row : Obligation) : Obligation :=
  {| ob_obligationId := ob_obligationId row; ob_jobName := ob_jobName row;
     ob_scopeKey := ob_scopeKey row; ob_periodKey := ob_periodKey row;
     ob_cadence := ob_cadence row; ob_timezone := ob_timezone row;
     ob_status := ob_status row; ob_source := ob_source row;
     ob_dueAt := js_date (ob_dueAt row); ob_generation := ob_generation row;
     ob_leaseOwner := ob_leaseOwner row;
     ob_leaseExpiresAt := js_date <$> ob_leaseExpiresAt row;
     ob_bullJobId := ob_bullJobId row; ob_runId := ob_runId row;
     ob_attempts := ob_attempts row; ob_lastError := ob_lastError row;
     ob_evidence := ob_evidence row; ob_completedAt := js_date <$> ob_completedAt row;
     ob_updatedAt := js_date (ob_updatedAt row) |}.

(** ** Operations *)

(** The evidence of a new row: the plan's, with [targetEventId] added.
    src: src/repositories/scheduler-obligations.ts:98-101 reserveSchedulerObligation *)
Definition plan_evidence (plan : SchedulerObligationPlan) : json :=
  let evidence := nullish (op_evidence plan) [] in
  JObject match op_eventId plan with
          | None => evidence
          | Some eventId => map_set (js "targetEventId") (JNumber (of_int eventId)) evidence
          end.

Definition new_obligation (now : Z) (obligationId : jsstr) (definition : JobDefinition)
    (plan : SchedulerObligationPlan) : Obligation :=
  {| ob_obligationId := obligationId; ob_jobName := jd_name definition;
     ob_scopeKey := op_scopeKey plan; ob_periodKey := op_periodKey plan;
     ob_cadence := jd_cadence definition; ob_timezone := jd_timezone definition;
     ob_status := Pending; ob_source := op_source plan; ob_dueAt := op_dueAt plan;
     ob_generation := 0; ob_leaseOwner := None; ob_leaseExpiresAt := None;
     ob_bullJobId := None; ob_runId := None; ob_attempts := 0; ob_lastError := None;
     ob_evidence := jsonb_order (plan_evidence plan); ob_completedAt := None; ob_updatedAt := now |}.

(** [uuid] is the random id drawn for a new row; an id in use violates the primary key.
    src: src/repositories/scheduler-obligations.ts:79-126 reserveSchedulerObligation *)
Definition reserveSchedulerObligation (now : Z) (uuid : jsstr) (definition : JobDefinition)
    (plan : SchedulerObligationPlan) (table : Table) : Table * result Obligation :=
  let row := new_obligation now uuid definition plan in
  if negb (row_checks row) then (table, Throw "CHECK_VIOLATION") else
  match find_by identity (identity row) table with
  | Some existing => (table, Ok (mapRow existing))
  | None =>
      if bool_decide (uuid ∈ ob_obligationId <$> table)
      then (table, Throw "UNIQUE_VIOLATION")
      else (table ++ [row], Ok (mapRow row))
  end.

(** Which rows a claim may take at [dbNow].
    src: src/repositories/scheduler-obligations.ts:154-168 claimSchedulerObligations *)
Definition claimable (dbNow : Z) (o : Obligation) : bool :=
  (ob_dueAt o <=? dbNow) &&
  (is_open (ob_status o) ||
   in_flight (ob_status o) &&
   match ob_leaseExpiresAt o with None => true | Some expires => expires <=? dbNow end).

(** src: src/repositories/scheduler-obligations.ts:169-169 claimSchedulerObligations *)
Definition compare_due : Obligation → Obligation → Z :=
  then_by (by_key ob_dueAt) (λ a b, compare_str (ob_obligationId a) (ob_obligationId b)).

(** A failed or reclaimed attempt gets a fresh generation.
    src: src/repositories/scheduler-obligations.ts:178-181 claimSchedulerObligations *)
Definition next_generation (row : Obligation) : Z :=
  if bool_decide (ob_status row = Failed) || bool_decide (ob_status row = Enqueued) ||
     bool_decide (ob_status row = Running)
  then ob_generation row + 1 else ob_generation row.

(** src: src/repositories/scheduler-obligations.ts:184-191 claimSchedulerObligations *)
Definition claimed_row (owner : jsstr) (dbNow leaseExpiresAt nextGeneration : Z) (o : Obligation)
    : Obligation :=
  {| ob_obligationId := ob_obligationId o; ob_jobName := ob_jobName o;
     ob_scopeKey := ob_scopeKey o; ob_periodKey := ob_periodKey o;
     ob_cadence := ob_cadence o; ob_timezone := ob_timezone o;
     ob_status := Enqueued; ob_source := ob_source o; ob_dueAt := ob_dueAt o;
     ob_generation := nextGeneration;
     ob_leaseOwner := Some owner; ob_leaseExpiresAt := Some leaseExpiresAt;
     ob_bullJobId := ob_bullJobId o; ob_runId := ob_runId o;
     ob_attempts := ob_attempts o + 1; ob_lastError := ob_lastError o;
     ob_evidence := ob_evidence o; ob_completedAt := ob_completedAt o; ob_updatedAt := dbNow |}.

Definition by_id (obligationId : jsstr) (o : Obligation) : bool :=
  bool_decide (ob_obligationId o = obligationId).

(** The rows selected by a claim, updated one by one.
    src: src/repositories/scheduler-obligations.ts:172-195 claimSchedulerObligations *)
Fixpoint claim_rows (owner : jsstr) (dbNow leaseExpiresAt : Z) (rows : list Obligation)
    (table : Table) (claimed : list Obligation) : Table * list Obligation :=
  match rows with
  | [] => (table, claimed)
  | row :: rows' =>
      let '(table, updated) := update_where (by_id (ob_obligationId row))
                                 (claimed_row owner dbNow leaseExpiresAt (next_generation row)) table in
      claim_rows owner dbNow leaseExpiresAt rows' table
        match updated with [] => claimed | first :: _ => claimed ++ [mapRow first] end
  end.

(** One claim transaction at database time [now].  [owner] is the random id drawn for the lease;
    [locked] are the rows other transactions hold, which [SKIP LOCKED] passes over.
    src: src/repositories/scheduler-obligations.ts:128-198 claimSchedulerObligations *)
Definition claimSchedulerObligations (env : option jsstr) (limit leaseMs : option Z) (now : Z)
    (owner : jsstr) (locked : list jsstr) (table : Table) : Table * result (list Obligation) :=
  let limit := nullish limit 50 in
  let leaseMs := nullish leaseMs (resolveSchedulerLeaseMs env) in
  if negb (is_safe limit) || (limit <? 1) || (200 <? limit) then (table, Throw "LIMIT") else
  if negb (is_safe leaseMs) || (leaseMs <? 1) then (table, Throw "LEASE") else
  let dbNow := js_date now in
  let leaseExpiresAt := dbNow + leaseMs * 1000 in
  let rows := take (Z.to_nat limit) (js_sort compare_due
    (filter (λ o, claimable dbNow o ∧ ob_obligationId o ∉ locked) table)) in
  if negb (is_nil rows) && (MAX_DATE_MS <? dbNow / 1000 + leaseMs)
  then (table, Throw "INVALID_DATE") else
  let '(table, claimed) := claim_rows owner dbNow leaseExpiresAt rows table [] in
  (table, Ok claimed).

(** An update of the given id, and whether it wrote one row. *)
Definition update_one (where_ : Obligation → bool) (set : Obligation → Obligation)
    (table : Table) : Table * bool :=
  let '(table, updated) := update_where where_ set table in (table, (length updated =? 1)%nat).

(** The guard on an optional generation. *)
Definition generation_is (generation : option Z) (o : Obligation) : bool :=
  match generation with None => true | Some g => ob_generation o =? g end.

Definition set_status (o : Obligation) (status : Status) (dueAt : Z) (owner : option jsstr)
    (expires : option Z) (bullJobId runId lastError : option jsstr) (evidence : json)
    (completedAt : option Z) (updatedAt : Z) : Obligation :=
  {| ob_obligationId := ob_obligationId o; ob_jobName := ob_jobName o;
     ob_scopeKey := ob_scopeKey o; ob_periodKey := ob_periodKey o;
     ob_cadence := ob_cadence o; ob_timezone := ob_timezone o;
     ob_status := status; ob_source := ob_source o; ob_dueAt := dueAt;
     ob_generation := ob_generation o; ob_leaseOwner := owner; ob_leaseExpiresAt := expires;
     ob_bullJobId := bullJobId; ob_runId := runId; ob_attempts := ob_attempts o;
     ob_lastError := lastError; ob_evidence := evidence; ob_completedAt := completedAt;
     ob_updatedAt := updatedAt |}.

(** src: src/repositories/scheduler-obligations.ts:200-229 confirmSchedulerObligationEnqueued *)
Definition confirmSchedulerObligationEnqueued (now : Z) (obligationId owner : jsstr)
    (bullJobId runId : option jsstr) (table : Table) : Table * bool :=
  update_one
    (λ o, by_id obligationId o && bool_decide (ob_leaseOwner o = Some owner) &&
          bool_decide (ob_status o = Enqueued))
    (λ o, set_status o Running (ob_dueAt o) (ob_leaseOwner o) (ob_leaseExpiresAt o)
            (nullish_or bullJobId (ob_bullJobId o)) (nullish_or runId (ob_runId o))
            (ob_lastError o) (ob_evidence o) (ob_completedAt o) now) table.

(** [additional] is [Math.floor(additionalLeaseMs ?? 0)], a number of milliseconds.
    src: src/repositories/scheduler-obligations.ts:238-270 renewSchedulerObligation *)
Definition renewSchedulerObligation (env : option jsstr) (now : Z) (obligationId : jsstr)
    (generation additional : option Z) (table : Table) : Table * result bool :=
  let additionalLeaseMs := Z.max 0 (nullish additional 0) in
  if negb (is_safe additionalLeaseMs) then (table, Throw "ADDITIONAL_LEASE") else
  let leaseMs := resolveSchedulerLeaseMs env + additionalLeaseMs in
  if negb (is_safe leaseMs) || (leaseMs <? 1) then (table, Throw "LEASE") else
  let '(table, ok) := update_one
    (λ o, by_id obligationId o && generation_is generation o && in_flight (ob_status o))
    (λ o, set_status o (ob_status o) (ob_dueAt o) (ob_leaseOwner o) (Some (now + leaseMs * 1000))
            (ob_bullJobId o) (ob_runId o) (ob_lastError o) (ob_evidence o) (ob_completedAt o) now)
    table in
  (table, Ok ok).

(** The row of a completion: final status, evidence, no lease. *)
Definition closed_row (now : Z) (status : Status) (evidence : option (list (jsstr * json)))
    (o : Obligation) : Obligation :=
  set_status o status (ob_dueAt o) None None (ob_bullJobId o) (ob_runId o) (ob_lastError o)
    (jsonb_order (JObject (nullish evidence []))) (Some now) now.

(** src: src/repositories/scheduler-obligations.ts:272-301 completeSchedulerObligation *)
Definition completeSchedulerObligation (now : Z) (obligationId : jsstr) (status : Status)
    (generation : option Z) (evidence : option (list (jsstr * json))) (table : Table)
    : Table * bool :=
  update_one
    (λ o, by_id obligationId o && generation_is generation o && in_flight (ob_status o))
    (closed_row now status evidence) table.

(** src: src/repositories/scheduler-obligations.ts:308-333 markSchedulerObligationIrrecoverable *)
Definition markSchedulerObligationIrrecoverable (now : Z) (obligationId : jsstr)
    (status : option Status) (evidence : option (list (jsstr * json))) (table : Table)
    : Table * bool :=
  update_one (λ o, by_id obligationId o && is_open (ob_status o))
    (closed_row now (nullish status Irrecoverable) evidence) table.

(** src: src/repositories/scheduler-obligations.ts:335-359 completeSchedulerObligationByBullJobId *)
Definition completeSchedulerObligationByBullJobId (now : Z) (bullJobId : jsstr)
    (evidence : option (list (jsstr * json))) (table : Table) : Table * bool :=
  update_one
    (λ o, bool_decide (ob_bullJobId o = Some bullJobId) && in_flight (ob_status o))
    (closed_row now Succeeded evidence) table.

(** [error] is the text of the error, [retryDelayMs] a whole number of milliseconds.
    src: src/repositories/scheduler-obligations.ts:385-421 failSchedulerObligation *)
Definition failSchedulerObligation (now : Z) (obligationId : jsstr) (owner : option jsstr)
    (generation : option Z) (error : jsstr) (retryDelayMs : option Z) (table : Table)
    : Table * bool :=
  let summary := take 4000 error in
  let retryDelayMs := Z.max 0 (nullish retryDelayMs 60000) in
  update_one
    (λ o, by_id obligationId o &&
          match owner with
          | None | Some [] => true
          | Some owner => bool_decide (ob_leaseOwner o = Some owner)
          end && generation_is generation o && in_flight (ob_status o))
    (λ o, set_status o Failed (now + retryDelayMs * 1000) None None (ob_bullJobId o) (ob_runId o)
            (Some summary) (ob_evidence o) (ob_completedAt o) now) table.

(** The row [LIMIT 1] finds is the first of the table; two tables with the same rows may differ.
    src: src/repositories/scheduler-obligations.ts:361-383 failSchedulerObligationByBullJobId *)
Definition failSchedulerObligationByBullJobId (now : Z) (bullJobId error : jsstr) (table : Table)
    : Table * bool :=
  match filter (λ o, bool_decide (ob_bullJobId o = Some bullJobId) && in_flight (ob_status o)) table with
  | [] => (table, false)
  | o :: _ => failSchedulerObligation now (ob_obligationId o) None None error None table
  end.

(** Total, overdue, failed, running, irrecoverable and succeeded rows.
    src: src/repositories/scheduler-obligations.ts:423-458 schedulerObligationSummary *)
Definition schedulerObligationSummary (now : Z) (table : Table) : Z * Z * Z * Z * Z * Z :=
  let count (p : Obligation → bool) := Z.of_nat (length (filter (λ o, p o) table)) in
  (count (λ _, true),
   count (λ o, (ob_dueAt o <=? now) && is_open (ob_status o)),
   count (λ o, bool_decide (ob_status o = Failed)),
   count (λ o, in_flight (ob_status o)),
   count (λ o, bool_decide (ob_status o = Irrecoverable)),
   count (λ o, bool_decide (ob_status o = Succeeded))).

(** ** The scheduler pass *)

(** What [definition.enqueue] does: returns the ids of the queue job, or throws. *)
Inductive EnqueueOutcome :=
| EnqueueOk (bullJobId runId : option jsstr)
| EnqueueThrow (error : jsstr).

(** One plan of a definition.
    src: src/scheduler/scheduler.service.ts:36-46 runSchedulerPass *)
Definition reserve_plan (now : Z) (uuid : jsstr) (definition : JobDefinition)
    (plan : SchedulerObligationPlan) (table : Table) : Table * result unit :=
  match reserveSchedulerObligation now uuid definition plan table with
  | (table, Throw e) => (table, Throw e)
  | (table, Ok obligation) =>
      match op_terminalStatus plan with
      | None => (table, Ok ())
      | Some status =>
          ((markSchedulerObligationIrrecoverable now (ob_obligationId obligation) (Some status)
              (op_evidence plan) table).1, Ok ())
      end
  end.

(** src: src/scheduler/scheduler.service.ts:26-28 definitionByName *)
Definition definitionByName (registry : list JobDefinition) (name : jsstr) : option JobDefinition :=
  head (filter (λ d, jd_name d = name) registry).

(** One claimed obligation: enqueue and confirm, or fail it; whether it counts as enqueued.
    src: src/scheduler/scheduler.service.ts:52-101 runSchedulerPass *)
Definition dispatch (registry : list JobDefinition) (enqueue : JobDefinition → Obligation → EnqueueOutcome)
    (now : Z) (owner : jsstr) (obligation : Obligation) (table : Table) : Table * bool :=
  let id := ob_obligationId obligation in
  let fail error table := (failSchedulerObligation now id (Some owner) None error None table).1 in
  match definitionByName registry (ob_jobName obligation) with
  | None =>
      (fail (js "Unknown scheduled job definition: " ++ ob_jobName obligation) table, false)
  | Some definition =>
      match enqueue definition obligation with
      | EnqueueThrow error => (fail error table, false)
      | EnqueueOk bullJobId runId =>
          let '(table, confirmed) :=
            confirmSchedulerObligationEnqueued now id owner bullJobId runId table in
          if confirmed then (table, true)
          else (fail (js "Scheduler enqueue confirmation lost its obligation lease") table, false)
      end
  end.

(** The claimed obligations, one after the other: each writes its own row only, so the order in
    which the code's [Promise.all] interleaves them does not matter; the transition system below
    interleaves the single statements.
    src: src/scheduler/scheduler.service.ts:49-117 runSchedulerPass *)
Fixpoint dispatch_all (registry : list JobDefinition) (enqueue : JobDefinition → Obligation → EnqueueOutcome)
    (now : Z) (owner : jsstr) (claimed : list Obligation) (table : Table) (enqueued failed : Z)
    : Table * Z * Z :=
  match claimed with
  | [] => (table, enqueued, failed)
  | obligation :: claimed' =>
      let '(table, ok) := dispatch registry enqueue now owner obligation table in
      dispatch_all registry enqueue now owner claimed' table
        (if ok then enqueued + 1 else enqueued) (if ok then failed else failed + 1)
  end.

(** ** The transition system

    Schedulers and workers of any number of processes, each statement at a database time no later
    than the clock, in any order.  [sy_handed] records the obligations and generations that claims
    have handed out. *)

Record System := mkSystem { sy_clock : Z; sy_table : Table; sy_handed : list (jsstr * Z) }.

Definition handed_of (claimed : list Obligation) : list (jsstr * Z) :=
  (λ o, (ob_obligationId o, ob_generation o)) <$> claimed.

(** A statement that writes the table. *)
Inductive statement (now : Z) (table : Table) : Table → Prop :=
| st_reserve uuid definition plan :
    statement now table (reserveSchedulerObligation now uuid definition plan table).1
| st_confirm id owner bullJobId runId :
    statement now table (confirmSchedulerObligationEnqueued now id owner bullJobId runId table).1
| st_renew env id generation additional :
    statement now table (renewSchedulerObligation env now id generation additional table).1
| st_complete id status generation evidence :
    is_final status = true →
    statement now table (completeSchedulerObligation now id status generation evidence table).1
| st_mark id status evidence :
    is_final (nullish status Irrecoverable) = true →
    statement now table (markSchedulerObligationIrrecoverable now id status evidence table).1
| st_complete_bull id evidence :
    statement now table (completeSchedulerObligationByBullJobId now id evidence table).1
| st_fail id owner generation error delay :
    statement now table (failSchedulerObligation now id owner generation error delay table).1
| st_fail_bull id error :
    statement now table (failSchedulerObligationByBullJobId now id error table).1.

Inductive ob_step : System → System → Prop :=
| ob_time s clock :
    sy_clock s ≤ clock → ob_step s (mkSystem clock (sy_table s) (sy_handed s))
| ob_statement s now table' :
    now ≤ sy_clock s → statement now (sy_table s) table' →
    ob_step s (mkSystem (sy_clock s) table' (sy_handed s))
| ob_claim s now env limit leaseMs owner locked table' claimed :
    now ≤ sy_clock s →
    claimSchedulerObligations env limit leaseMs now owner locked (sy_table s) = (table', Ok claimed) →
    ob_step s (mkSystem (sy_clock s) table' (sy_handed s ++ handed_of claimed)).

(** ** Rows *)

(** What the table keeps of every row: the CHECK constraints, and a lease exactly in flight. *)
Definition row_ok (o : Obligation) : Prop :=
  row_checks o = true ∧ is_null (ob_leaseOwner o) = negb (in_flight (ob_status o)).

(** What a row may become: it keeps its identity, its counters do not fall, it never returns to
    [Pending], and a closed row does not change. *)
Record evolves (o o' : Obligation) : Prop := {
  ev_id : ob_obligationId o' = ob_obligationId o;
  ev_identity : identity o' = identity o;
  ev_generation : ob_generation o ≤ ob_generation o';
  ev_attempts : ob_attempts o ≤ ob_attempts o';
  ev_pending : ob_status o' = Pending → o' = o;
  ev_final : is_final (ob_status o) = true → o' = o;
  ev_ok : row_ok o → row_ok o';
}.

#[export] Instance evolves_preorder : PreOrder evolves.
Proof.
  split; [intros o; by split|].
  intros a b c [] []. split; try congruence; try lia.
  - intros Hp. destruct (ev_pending1 Hp). by apply ev_pending0.
  - intros Hf. rewrite (ev_final0 Hf) in *. auto.
  - auto.
Qed.

(** An update of the named columns keeps the rest. *)
Lemma set_status_evolves o status dueAt owner expires bull run err evidence completed updated :
  status ≠ Pending → is_final (ob_status o) = false →
  (row_ok o → is_null owner = negb (in_flight status) ∧ is_null expires = is_null owner ∧
              ∃ fields, evidence = JObject fields) →
  evolves o (set_status o status dueAt owner expires bull run err evidence completed updated).
Proof.
  intros Hs Hf Hall. split; try done; [congruence|].
  intros Hok. destruct (Hall Hok) as (Ho & He & fields & ->). destruct Hok as [Hc _]. split; [|done].
  unfold row_checks in *. cbn. rewrite He, bool_decide_eq_true_2 by done.
  repeat (apply andb_true_iff in Hc as [Hc ?]). rewrite Hc. repeat (apply andb_true_iff; split; [|done]).
  done.
Qed.

Lemma in_flight_not_final s : in_flight s = true → is_final s = false ∧ s ≠ Pending.
Proof. by destruct s. Qed.

Lemma is_open_not_final s : is_open s = true → is_final s = false.
Proof. by destruct s. Qed.

Lemma final_not_in_flight s : is_final s = true → in_flight s = false ∧ s ≠ Pending.
Proof. by destruct s. Qed.

Lemma row_ok_evidence o : row_ok o → ∃ fields, ob_evidence o = JObject fields.
Proof.
  intros [Hc _]. unfold row_checks in Hc. destruct (ob_evidence o); try (by rewrite !andb_false_r in Hc).
  by eexists.
Qed.

Lemma row_ok_lease o : row_ok o → is_null (ob_leaseExpiresAt o) = negb (in_flight (ob_status o)).
Proof.
  intros [Hc Hl]. unfold row_checks in Hc. repeat (apply andb_true_iff in Hc as [Hc ?]).
  boolsolve. congruence.
Qed.

Lemma row_ok_all o :
  row_ok o → is_null (ob_leaseOwner o) = negb (in_flight (ob_status o)) ∧
             is_null (ob_leaseExpiresAt o) = is_null (ob_leaseOwner o) ∧
             ∃ fields, ob_evidence o = JObject fields.
Proof.
  intros Hok. pose proof (row_ok_lease _ Hok) as ->. pose proof (row_ok_evidence _ Hok).
  by destruct Hok as [_ ->].
Qed.

Lemma closed_row_evolves now status evidence o :
  is_final status = true → is_final (ob_status o) = false →
  evolves o (closed_row now status evidence o).
Proof.
  intros Hs Ho. destruct (final_not_in_flight _ Hs) as [Hfl Hp].
  apply set_status_evolves; [done..|]. intros _. rewrite Hfl. split_and!; [done..|by eexists].
Qed.

Lemma claimable_not_final dbNow o : claimable dbNow o = true → is_final (ob_status o) = false.
Proof. unfold claimable, is_final. destruct (ob_status o); simpl; rewrite ?andb_false_r; done. Qed.

Lemma claimed_row_evolves owner dbNow expires o :
  is_final (ob_status o) = false → evolves o (claimed_row owner dbNow expires (next_generation o) o).
Proof.
  intros Hf. assert (ob_generation o ≤ next_generation o) as Hg.
  { unfold next_generation. case_match; lia. }
  split; try done; [cbn; lia|congruence|].
  intros Hok. destruct (row_ok_evidence _ Hok) as [fields Hev]. destruct Hok as [Hc _]. split; [|done].
  unfold row_checks in *. cbn. rewrite Hev in *.
  repeat (apply andb_true_iff in Hc as [Hc ?]). boolsolve.
  repeat (apply andb_true_iff; split; [|done]). apply Z.leb_le in Hc. rewrite !Z.leb_le in *. lia.
Qed.

(** ** Tables *)

Notation evolved := (Forall2 evolves).

Lemma evolved_map (f : Obligation → Obligation) table :
  (∀ o, evolves o (f o)) → evolved table (f <$> table).
Proof. intros Hf. induction table; simpl; by constructor. Qed.

Lemma update_one_evolved where_ set table :
  (∀ o, where_ o = true → evolves o (set o)) → evolved table (update_one where_ set table).1.
Proof.
  intros Hset. unfold update_one, update_where. cbn. apply evolved_map.
  intros o. destruct (where_ o) eqn:E; [by apply Hset|reflexivity].
Qed.

Lemma evolved_ids table table' :
  evolved table table' → ob_obligationId <$> table' = ob_obligationId <$> table.
Proof. induction 1 as [|o o' ? ? H _ IH]; [done|]. by rewrite !fmap_cons, IH, (ev_id _ _ H). Qed.

Lemma evolved_identities table table' :
  evolved table table' → identity <$> table' = identity <$> table.
Proof. induction 1 as [|o o' ? ? H _ IH]; [done|]. by rewrite !fmap_cons, IH, (ev_identity _ _ H). Qed.

Lemma evolved_elem table table' o :
  evolved table table' → o ∈ table → ∃ o', o' ∈ table' ∧ evolves o o'.
Proof.
  intros He (i & Hi)%list_elem_of_lookup_1. destruct (Forall2_lookup_l _ _ _ _ _ He Hi) as (o' & Ho' & ?).
  exists o'. split; [by eapply list_elem_of_lookup_2|done].
Qed.

Lemma fail_evolved now id owner generation error delay table :
  evolved table (failSchedulerObligation now id owner generation error delay table).1.
Proof.
  apply update_one_evolved. intros o Ho. boolsolve.
  destruct (in_flight_not_final (ob_status o)) as [? ?]; [done|].
  apply set_status_evolves; [done..|]. intros Hok. split_and!; [done..|]. by apply row_ok_evidence.
Qed.

(** A statement changes rows as they may evolve, and at most adds one new pending row. *)
Lemma statement_evolves now table table' :
  statement now table table' →
  evolved table table' ∨
  ∃ row, table' = table ++ [row] ∧ row_ok row ∧ ob_status row = Pending ∧
         ob_obligationId row ∉ ob_obligationId <$> table ∧ identity row ∉ identity <$> table.
Proof.
  intros [uuid definition plan|id owner bull run|env id g add|id status g ev Hs|id status ev Hs
         |id ev|id owner g err delay|id err].
  - unfold reserveSchedulerObligation.
    destruct (negb (row_checks _)) eqn:Hc; [by left|].
    destruct (find_by _ _ _) eqn:Hf; [by left|]. case_bool_decide as Hid; [by left|].
    right. eexists. split; [done|]. apply find_by_None in Hf. boolsolve. by split_and!.
  - left. apply update_one_evolved. intros o Ho. boolsolve.
    assert (ob_status o = Enqueued) as Hst by done.
    apply set_status_evolves; [done|by rewrite Hst|]. by intros ?%row_ok_all; rewrite Hst in *.
  - left. unfold renewSchedulerObligation. repeat case_match; simplify_eq/=; try done.
    match goal with H : update_one ?w ?f ?t = (?t', _) |- _ =>
      change t' with (t', b).1; rewrite <-H end.
    apply update_one_evolved. intros o Ho. boolsolve.
    destruct (in_flight_not_final (ob_status o)) as [Hf Hp]; [done|].
    apply set_status_evolves; [done..|]. intros (Hl & _ & Hev)%row_ok_all. rewrite Hl.
    split_and!; [done| |done]. by destruct (ob_status o).
  - left. apply update_one_evolved. intros o Ho. boolsolve. apply closed_row_evolves; [done|].
    by apply in_flight_not_final.
  - left. apply update_one_evolved. intros o Ho. boolsolve. apply closed_row_evolves; [done|].
    by apply is_open_not_final.
  - left. apply update_one_evolved. intros o Ho. boolsolve. apply closed_row_evolves; [done|].
    by apply in_flight_not_final.
  - left. apply fail_evolved.
  - left. unfold failSchedulerObligationByBullJobId. case_match; [done|]. apply fail_evolved.
Qed.

(** ** Claims *)

#[export] Instance compare_due_comparator : Comparator compare_due.
Proof. apply then_by_comparator; [apply _|]. by apply (comparator_on ob_obligationId), _. Qed.

(** The rows a claim takes. *)
Definition chosen (limit dbNow : Z) (locked : list jsstr) (table : Table) : list Obligation :=
  take (Z.to_nat limit) (js_sort compare_due
    (filter (λ o, claimable dbNow o ∧ ob_obligationId o ∉ locked) table)).

Definition claim_of (owner : jsstr) (dbNow expires : Z) (o : Obligation) : Obligation :=
  claimed_row owner dbNow expires (next_generation o) o.

Definition id_in (rows : list Obligation) (o : Obligation) : Prop :=
  ob_obligationId o ∈ ob_obligationId <$> rows.
#[export] Instance id_in_dec rows o : Decision (id_in rows o).
Proof. unfold id_in. apply _. Defined.

Lemma by_id_spec id o : by_id id o ↔ ob_obligationId o = id.
Proof. unfold by_id. by rewrite bool_decide_spec. Qed.

Lemma filter_by_id (table : Table) (o : Obligation) :
  NoDup (ob_obligationId <$> table) → o ∈ table →
  filter (λ o', by_id (ob_obligationId o) o') table = [o].
Proof.
  induction table as [|x table IH]; [by intros _ ?%elem_of_nil|].
  rewrite fmap_cons. intros [Hx Hnd]%NoDup_cons Ho. rewrite filter_cons.
  apply elem_of_cons in Ho as [->|Ho].
  - rewrite decide_True by by apply by_id_spec.
    f_equal. apply filter_none. intros y Hy Hid%by_id_spec.
    apply Hx. rewrite <-Hid. by apply list_elem_of_fmap_2.
  - rewrite decide_False; [by apply IH|]. intros Hid%by_id_spec.
    apply Hx. rewrite Hid. by apply list_elem_of_fmap_2.
Qed.

Lemma claim_rows_closed owner dbNow expires rows table claimed :
  NoDup (ob_obligationId <$> table) → NoDup (ob_obligationId <$> rows) →
  (∀ o, o ∈ rows → o ∈ table) →
  claim_rows owner dbNow expires rows table claimed =
    ((λ o, if decide (id_in rows o) then claim_of owner dbNow expires o else o) <$> table,
     claimed ++ (mapRow ∘ claim_of owner dbNow expires <$> rows)).
Proof.
  revert table claimed. induction rows as [|row rows IH]; intros table claimed Ht Hr Hin.
  { cbn. rewrite app_nil_r. f_equal. symmetry. rewrite <-(list_fmap_id table) at 2.
    apply list_fmap_ext. intros i o _. rewrite decide_False; [done|]. by intros ?%elem_of_nil. }
  rewrite fmap_cons in Hr. apply NoDup_cons in Hr as [Hrow Hr].
  cbn [claim_rows]. unfold update_where.
  rewrite (filter_by_id table row) by (done || apply Hin; left). cbn [fmap list_fmap].
  set (step := λ o, if by_id (ob_obligationId row) o then _ else o).
  assert (∀ o, o ∈ table → step o = if decide (ob_obligationId o = ob_obligationId row)
            then claim_of owner dbNow expires o else o) as Hstep.
  { intros o Ho. unfold step, by_id. case_decide as Hid; case_bool_decide; try done.
    assert (o = row) as ->; [|done]. eapply (NoDup_fmap_inj_in ob_obligationId table); try done.
    apply Hin. by left. }
  rewrite IH; [| |done|].
  - rewrite <-app_assoc, <-list_fmap_compose. f_equal. apply list_fmap_ext.
    intros i o Hi%list_elem_of_lookup_2. cbn. rewrite Hstep by done.
    destruct (decide (ob_obligationId o = _)) as [Hid|Hid].
    + rewrite (decide_False (P:=id_in rows _)) by (unfold id_in; cbn; by rewrite Hid).
      rewrite (decide_True (P:=id_in (row :: rows) _)); [done|]. unfold id_in. rewrite Hid. left.
    + destruct (decide (id_in rows o)) as [Hr'|Hr'].
      * rewrite decide_True; [done|]. by right.
      * rewrite decide_False; [done|]. by intros [?|?]%elem_of_cons.
  - rewrite <-list_fmap_compose. erewrite list_fmap_ext; [exact Ht|].
    intros i o Hi%list_elem_of_lookup_2. cbn. rewrite Hstep by done. by case_decide.
  - intros o Ho. assert (o ∈ table) as Hot by (apply Hin; by right).
    replace o with (step o) by (rewrite Hstep by done; rewrite decide_False; [done|];
      intros Hid; apply Hrow; rewrite <-Hid; by apply list_elem_of_fmap_2).
    by apply list_elem_of_fmap_2.
Qed.

Lemma elem_of_chosen limit dbNow locked table o :
  o ∈ chosen limit dbNow locked table →
  o ∈ table ∧ claimable dbNow o = true ∧ ob_obligationId o ∉ locked.
Proof.
  unfold chosen. intros Ho. eapply subseteq_take in Ho.
  rewrite elem_of_js_sort, list_elem_of_filter in Ho. destruct Ho as [[Hc ?] ?].
  by apply Is_true_true in Hc.
Qed.

Lemma chosen_NoDup limit dbNow locked table :
  NoDup (ob_obligationId <$> table) → NoDup (ob_obligationId <$> chosen limit dbNow locked table).
Proof.
  intros Hnd. unfold chosen. rewrite fmap_take. eapply sublist_NoDup; [|apply sublist_take].
  rewrite js_sort_perm. eapply sublist_NoDup; [exact Hnd|].
  apply fmap_sublist, sublist_filter.
Qed.

(** A claim that returns: the chosen rows get a lease and, but for a first attempt, a new
    generation; every other row stays. *)
Lemma claim_closed env limit leaseMs now owner locked table table' claimed :
  NoDup (ob_obligationId <$> table) →
  claimSchedulerObligations env limit leaseMs now owner locked table = (table', Ok claimed) →
  let rows := chosen (nullish limit 50) (js_date now) locked table in
  let claim := claim_of owner (js_date now)
                 (js_date now + nullish leaseMs (resolveSchedulerLeaseMs env) * 1000) in
  1 ≤ nullish limit 50 ∧ 1 ≤ nullish leaseMs (resolveSchedulerLeaseMs env) ∧
  table' = (λ o, if decide (id_in rows o) then claim o else o) <$> table ∧
  claimed = mapRow ∘ claim <$> rows.
Proof.
  intros Hnd. unfold claimSchedulerObligations.
  set (l := nullish limit 50). set (m := nullish leaseMs _).
  destruct (negb (is_safe l) || (l <? 1) || (200 <? l)) eqn:Hl; [done|].
  destruct (negb (is_safe m) || (m <? 1)) eqn:Hm; [done|].
  destruct (negb _ && _); [done|]. fold (chosen l (js_date now) locked table).
  rewrite claim_rows_closed; [|done|by apply chosen_NoDup|by intros o [? _]%elem_of_chosen].
  intros [= <- <-]. boolsolve. split_and!; [lia|lia|done..].
Qed.

(** ** The invariant *)

Record sound (s : System) : Prop := {
  so_ids : NoDup (ob_obligationId <$> sy_table s);
  so_identities : NoDup (identity <$> sy_table s);
  so_rows : ∀ o, o ∈ sy_table s → row_ok o;
  so_handed : NoDup (sy_handed s);
  so_past : ∀ id g, (id, g) ∈ sy_handed s →
    ∃ o, o ∈ sy_table s ∧ ob_obligationId o = id ∧ ob_status o ≠ Pending ∧ g ≤ ob_generation o;
}.

Lemma id_in_chosen rows table o :
  NoDup (ob_obligationId <$> table) → (∀ x, x ∈ rows → x ∈ table) → o ∈ table →
  id_in rows o → o ∈ rows.
Proof.
  intros Hnd Hsub Ho (x & Hid & Hx)%list_elem_of_fmap_1.
  rewrite (NoDup_fmap_inj_in ob_obligationId table o x) by auto. done.
Qed.

(** What a claim does to the table and to the generations handed out. *)
Lemma claim_evolves env limit leaseMs now owner locked table table' claimed :
  NoDup (ob_obligationId <$> table) →
  claimSchedulerObligations env limit leaseMs now owner locked table = (table', Ok claimed) →
  evolved table table' ∧
  ∃ rows, NoDup (ob_obligationId <$> rows) ∧
    (∀ o, o ∈ rows → o ∈ table ∧ is_final (ob_status o) = false) ∧
    handed_of claimed = (λ o, (ob_obligationId o, next_generation o)) <$> rows ∧
    ∀ o, o ∈ rows → ∃ o', o' ∈ table' ∧ ob_obligationId o' = ob_obligationId o ∧
      ob_status o' = Enqueued ∧ ob_generation o' = next_generation o.
Proof.
  intros Hnd Hclaim. destruct (claim_closed _ _ _ _ _ _ _ _ _ Hnd Hclaim) as (_ & _ & -> & ->).
  set (rows := chosen _ _ _ _). set (claim := claim_of _ _ _).
  assert (∀ o, o ∈ rows → o ∈ table ∧ is_final (ob_status o) = false) as Hsub.
  { intros o (? & Hc & _)%elem_of_chosen. split; [done|]. by eapply claimable_not_final. }
  split.
  - apply Forall2_fmap_r, Forall_Forall2_diag, Forall_forall. intros o Ho.
    cbn. case_decide as Hid; [|reflexivity]. apply claimed_row_evolves, Hsub.
    by apply (id_in_chosen rows table); auto; apply Hsub.
  - exists rows. split_and!; [by apply chosen_NoDup|done| |].
    + unfold handed_of. rewrite <-list_fmap_compose. done.
    + intros o Ho. exists (claim o). split_and!; [|done..].
      apply list_elem_of_fmap. exists o. split; [|by apply Hsub].
      rewrite decide_True; [done|]. by apply list_elem_of_fmap_2.
Qed.

Lemma next_generation_open o :
  is_final (ob_status o) = false → ob_status o ≠ Pending → next_generation o = ob_generation o + 1.
Proof. unfold next_generation. by destruct (ob_status o). Qed.

Lemma sound_evolves s clock table' :
  sound s → evolved (sy_table s) table' → sound (mkSystem clock table' (sy_handed s)).
Proof.
  intros [] He. split; cbn; [by rewrite (evolved_ids _ _ He)|by rewrite (evolved_identities _ _ He)| |done|].
  - intros o' (i & Hi)%list_elem_of_lookup_1.
    destruct (Forall2_lookup_r _ _ _ _ _ He Hi) as (o & Ho & Hev).
    apply (ev_ok _ _ Hev), so_rows0. by eapply list_elem_of_lookup_2.
  - intros id g (o & Ho & Hid & Hst & Hg)%so_past0.
    destruct (evolved_elem _ _ _ He Ho) as (o' & Ho' & Hev). exists o'. split_and!; [done| | |].
    + by rewrite (ev_id _ _ Hev).
    + intros Hp. apply Hst. pose proof (ev_pending _ _ Hev Hp). congruence.
    + pose proof (ev_generation _ _ Hev). lia.
Qed.

Lemma sound_claim s env limit leaseMs now owner locked table' claimed :
  sound s →
  claimSchedulerObligations env limit leaseMs now owner locked (sy_table s) = (table', Ok claimed) →
  sound (mkSystem (sy_clock s) table' (sy_handed s ++ handed_of claimed)).
Proof.
  intros Hs Hclaim. pose proof (so_ids _ Hs) as Hnd.
  destruct (claim_evolves _ _ _ _ _ _ _ _ _ Hnd Hclaim) as (Hev & rows & Hrnd & Hsub & Hh & Hnew).
  destruct (sound_evolves s (sy_clock s) table' Hs Hev) as [H1 H2 H3 H4 H5]. cbn in *.
  assert (∀ o, o ∈ rows → ∀ g, (ob_obligationId o, g) ∈ sy_handed s → g < next_generation o) as Hlt.
  { intros o Ho g Hg. destruct (so_past _ Hs _ _ Hg) as (x & Hx & Hid & Hp & Hle).
    destruct (Hsub o Ho) as [Ho' Hfin].
    assert (x = o) as -> by by apply (NoDup_fmap_inj_in ob_obligationId (sy_table s)).
    rewrite next_generation_open by done. lia. }
  split; cbn; [done..| |].
  - apply NoDup_app. split_and!; [done| |].
    + intros [id g] Hold Hfresh. rewrite Hh in Hfresh.
      apply list_elem_of_fmap_1 in Hfresh as (o & [= -> ->] & Ho). specialize (Hlt o Ho _ Hold). lia.
    + rewrite Hh. apply (NoDup_fmap_1 fst). by rewrite <-list_fmap_compose.
  - intros id g [Hold|Hfresh]%elem_of_app; [by apply H5|]. rewrite Hh in Hfresh.
    apply list_elem_of_fmap_1 in Hfresh as (o & [= -> ->] & Ho).
    destruct (Hnew o Ho) as (o' & ? & ? & Hst & ?). exists o'. split_and!; [done..|by rewrite Hst|lia].
Qed.

Lemma sound_empty clock : sound (mkSystem clock [] []).
Proof.
  split; cbn; [constructor|constructor|by intros ? ?%elem_of_nil|constructor|by intros ? ? ?%elem_of_nil].
Qed.

Lemma sound_add s row :
  sound s → row_ok row → ob_obligationId row ∉ ob_obligationId <$> sy_table s →
  identity row ∉ identity <$> sy_table s →
  sound (mkSystem (sy_clock s) (sy_table s ++ [row]) (sy_handed s)).
Proof.
  intros [] Hok Hid Hident. split; cbn; [| | |done|].
  1, 2: rewrite fmap_app; apply NoDup_app; split_and!; [done| |apply NoDup_singleton];
    intros x Hx ->%list_elem_of_singleton; done.
  - intros o [?| ->%list_elem_of_singleton]%elem_of_app; auto.
  - intros id g (o & ? & ?)%so_past0. exists o. split; [by apply elem_of_app; left|done].
Qed.

(** One step keeps the invariant, and every row of the table has its successor. *)
Lemma obligation_step_sound s s' :
  ob_step s s' → sound s →
  sound s' ∧ ∀ o, o ∈ sy_table s → ∃ o', o' ∈ sy_table s' ∧ evolves o o'.
Proof.
  intros [s0 clock _|s0 now table' _ Hst|s0 now env limit leaseMs owner locked table' claimed _ Hc] Hs.
  - split; [|intros o Ho; by exists o]. by apply (sound_evolves s0); [|reflexivity].
  - destruct (statement_evolves _ _ _ Hst) as [Hev|(row & -> & Hok & _ & Hid & Hident)].
    + split; [by apply sound_evolves|]. intros o Ho. by eapply evolved_elem.
    + split; [by apply sound_add|]. intros o Ho. exists o. split; [by apply elem_of_app; left|done].
  - split; [by eapply sound_claim|]. intros o Ho.
    eapply evolved_elem; [|done]. by eapply claim_evolves; [apply so_ids|].
Qed.

Lemma obligation_steps_sound s s' :
  rtc ob_step s s' → sound s →
  sound s' ∧ ∀ o, o ∈ sy_table s → ∃ o', o' ∈ sy_table s' ∧ evolves o o'.
Proof.
  induction 1 as [s|s s1 s' Hstep _ IH]; intros Hs; [by split; [|intros o Ho; exists o]|].
  destruct (obligation_step_sound _ _ Hstep Hs) as [Hs1 H1]. destruct (IH Hs1) as [Hs' H2].
  split; [done|]. intros o (o1 & Ho1 & E1)%H1. destruct (H2 o1 Ho1) as (o' & ? & E2).
  exists o'. split; [done|]. by transitivity o1.
Qed.

(** C35: Whatever schedulers and workers do, in whatever order and at whatever times: a job, scope and
    period has one obligation; every row keeps the CHECK constraints and has a lease exactly while it
    is in flight; no claim ever hands out an obligation with a generation handed out before, so the
    queue job ids built from them never repeat; generations and attempts never fall; and a closed
    obligation never changes again. *)
Theorem obligation_generations_fresh (clock : Z) (s s' : System)
    (Hs : rtc ob_step (mkSystem clock [] []) s) (Hs' : rtc ob_step s s') :
  NoDup (sy_handed s') ∧ NoDup (identity <$> sy_table s') ∧
  (∀ o, o ∈ sy_table s' →
     row_checks o = true ∧ (is_null (ob_leaseOwner o) = false ↔ in_flight (ob_status o) = true)) ∧
  ∀ o, o ∈ sy_table s → ∃ o', o' ∈ sy_table s' ∧
    ob_obligationId o' = ob_obligationId o ∧ identity o' = identity o ∧
    ob_generation o ≤ ob_generation o' ∧ ob_attempts o ≤ ob_attempts o' ∧
    (is_final (ob_status o) = true → o' = o).
Proof.
  destruct (obligation_steps_sound _ _ Hs (sound_empty clock)) as [H1 _].
  destruct (obligation_steps_sound _ _ Hs' H1) as [H2 Hev]. split_and!; [apply H2|apply H2| |].
  - intros o [? ->]%(so_rows _ H2). split; [done|]. by destruct (in_flight _).
  - intros o (o' & Ho' & E)%Hev. exists o'. split_and!; [done|apply E..].
Qed.

(** ** Draining

    Claims at one instant, one after the other, each with its own lease owner. *)

Fixpoint claim_all (env : option jsstr) (limit leaseMs : option Z) (now : Z) (owners : list jsstr)
    (table : Table) : Table * result (list Obligation) :=
  match owners with
  | [] => (table, Ok [])
  | owner :: owners' =>
      match claimSchedulerObligations env limit leaseMs now owner [] table with
      | (table, Throw e) => (table, Throw e)
      | (table, Ok claimed) =>
          let '(table, rest) := claim_all env limit leaseMs now owners' table in
          (table, let* rest := rest in Ok (claimed ++ rest))
      end
  end.

(** The rows due at [now], earliest first. *)
Definition due_rows (now : Z) (table : Table) : list Obligation :=
  js_sort compare_due (filter (λ o, claimable (js_date now) o) table).

Lemma compare_due_eq a b : compare_due a b = 0 → ob_obligationId a = ob_obligationId b.
Proof.
  unfold compare_due, then_by, by_key. case_match eqn:E; boolsolve; [|lia].
  intros H. by apply compare_str_eq.
Qed.

Lemma chosen_due limit now table :
  chosen limit (js_date now) [] table = take (Z.to_nat limit) (due_rows now table).
Proof.
  unfold chosen, due_rows. do 2 f_equal. apply filter_ext_in. intros o _.
  split; [by intros []|]. intros ?. split; [done|apply not_elem_of_nil].
Qed.

Lemma due_rows_ids now table :
  NoDup (ob_obligationId <$> table) → NoDup (ob_obligationId <$> due_rows now table).
Proof.
  intros Hnd. unfold due_rows. rewrite js_sort_perm. eapply sublist_NoDup; [exact Hnd|].
  apply fmap_sublist, sublist_filter.
Qed.

Lemma elem_of_due_rows now table o :
  o ∈ due_rows now table ↔ o ∈ table ∧ claimable (js_date now) o = true.
Proof.
  unfold due_rows. rewrite elem_of_js_sort, list_elem_of_filter, Is_true_true. tauto.
Qed.

(** Rows that got a lease are due no more; the others keep their order. *)
Lemma due_rows_claimed owner now expires n table :
  NoDup (ob_obligationId <$> table) → js_date now < expires →
  due_rows now ((λ o, if decide (id_in (take n (due_rows now table)) o)
                      then claim_of owner (js_date now) expires o else o) <$> table)
  = drop n (due_rows now table).
Proof.
  intros Hnd Hexp. set (S := due_rows now table). set (rows := take n S).
  assert (∀ o, claimable (js_date now) (claim_of owner (js_date now) expires o) = false) as Hcl.
  { intros o. unfold claimable. cbn. rewrite (proj2 (Z.leb_gt expires (js_date now))) by done.
    by rewrite andb_false_r. }
  pose proof (due_rows_ids now table Hnd) as HS. fold S in HS.
  assert (NoDup (ob_obligationId <$> take n S ++ drop n S)) as Hsplit by by rewrite take_drop.
  rewrite fmap_app in Hsplit. apply NoDup_app in Hsplit as (_ & Hdisj & _).
  set (table' := _ <$> table).
  assert (NoDup (ob_obligationId <$> filter (λ o, claimable (js_date now) o) table')) as Hnd'.
  { eapply sublist_NoDup; [|apply fmap_sublist, sublist_filter].
    unfold table'. rewrite <-list_fmap_compose. erewrite list_fmap_ext; [exact Hnd|].
    intros i o _. cbn. by case_decide. }
  unfold due_rows at 1. rewrite (js_sort_unique _ _ (drop n S)).
  - apply js_sort_id. pose proof (js_sort_sorted compare_due
      (filter (λ o, claimable (js_date now) o) table)) as Hsorted.
    rewrite <-(take_drop n (js_sort _ _)) in Hsorted. by apply StronglySorted_app in Hsorted as (_ & _ & ?).
  - intros x y Hx Hy Hxy%compare_due_eq. by apply (NoDup_fmap_inj_in ob_obligationId _ x y Hnd').
  - apply NoDup_same_elements; [by eapply NoDup_fmap_1| |].
    { eapply (NoDup_fmap_1 ob_obligationId), sublist_NoDup; [exact HS|].
      apply fmap_sublist, sublist_drop. }
    intros x. unfold table'. rewrite list_elem_of_filter, Is_true_true, list_elem_of_fmap. split.
    + intros [Hc (o & -> & Ho)]. revert Hc. case_decide as Hin; [by rewrite Hcl|]. intros Hc.
      assert (o ∈ S) as Hos by by apply elem_of_due_rows.
      rewrite <-(take_drop n S) in Hos. apply elem_of_app in Hos as [Hos|]; [|done].
      destruct Hin. by apply list_elem_of_fmap_2.
    + intros Hx. assert (x ∈ S) as [Hxt Hxc]%elem_of_due_rows.
      { rewrite <-(take_drop n S). apply elem_of_app. by right. }
      assert (¬ id_in rows x) as Hn.
      { intros Hin. apply (Hdisj _ Hin). by apply list_elem_of_fmap_2. }
      split; [done|]. exists x. by rewrite decide_False.
Qed.

Lemma claim_returns env limit leaseMs now owner locked table :
  NoDup (ob_obligationId <$> table) → 0 ≤ now → 1 ≤ nullish limit 50 ≤ 200 →
  1 ≤ nullish leaseMs (resolveSchedulerLeaseMs env) →
  js_date now / 1000 + nullish leaseMs (resolveSchedulerLeaseMs env) ≤ MAX_DATE_MS →
  let rows := chosen (nullish limit 50) (js_date now) locked table in
  let claim := claim_of owner (js_date now)
                 (js_date now + nullish leaseMs (resolveSchedulerLeaseMs env) * 1000) in
  claimSchedulerObligations env limit leaseMs now owner locked table =
    ((λ o, if decide (id_in rows o) then claim o else o) <$> table, Ok (mapRow ∘ claim <$> rows)).
Proof.
  intros Hnd Hnow Hlimit Hlease Hdate. unfold claimSchedulerObligations.
  set (l := nullish limit 50) in *. set (m := nullish leaseMs _) in *.
  assert (0 ≤ js_date now) as Hd by (unfold js_date; divlia).
  assert (0 ≤ js_date now / 1000) by divlia.
  unfold MAX_DATE_MS in *.
  assert (is_safe l = true ∧ is_safe m = true) as [-> ->].
  { unfold is_safe, MAX_SAFE_INTEGER. rewrite !andb_true_iff, !Z.leb_le. lia. }
  rewrite (proj2 (Z.ltb_ge l 1)), (proj2 (Z.ltb_ge 200 l)), (proj2 (Z.ltb_ge m 1)) by lia. cbn [negb orb].
  rewrite (proj2 (Z.ltb_ge 8640000000000000 _)), andb_false_r by lia.
  fold (chosen l (js_date now) locked table).
  by rewrite claim_rows_closed; [|done|by apply chosen_NoDup|by intros o [? _]%elem_of_chosen].
Qed.

(** No due obligation starves: successive claims hand out the due obligations earliest first,
    [limit] at a time and none twice, so after enough claims none is due any more (a crashed worker's
    obligation is due again when its lease expires). *)
Theorem claims_drain (env : option jsstr) (limit leaseMs : option Z) (now : Z) (owners : list jsstr)
    (table : Table)
    (Hnd : NoDup (ob_obligationId <$> table)) (Hnow : 0 ≤ now)
    (Hlimit : 1 ≤ nullish limit 50 ≤ 200)
    (Hlease : 1 ≤ nullish leaseMs (resolveSchedulerLeaseMs env))
    (Hdate : js_date now / 1000 + nullish leaseMs (resolveSchedulerLeaseMs env) ≤ MAX_DATE_MS) :
  let handed := (length owners * Z.to_nat (nullish limit 50%Z))%nat in
  ∃ table' claimed,
    claim_all env limit leaseMs now owners table = (table', Ok claimed) ∧
    ob_obligationId <$> claimed = ob_obligationId <$> take handed (due_rows now table) ∧
    due_rows now table' = drop handed (due_rows now table) ∧
    ((length (due_rows now table) ≤ handed)%nat →
       ∀ o, o ∈ table' → claimable (js_date now) o = false).
Proof.
  set (l := nullish limit 50) in *. set (m := nullish leaseMs _) in *. intros handed.
  assert (0 ≤ js_date now) as Hd by (unfold js_date; divlia).
  assert (∃ table' claimed, claim_all env limit leaseMs now owners table = (table', Ok claimed) ∧
    ob_obligationId <$> claimed = ob_obligationId <$> take handed (due_rows now table) ∧
    due_rows now table' = drop handed (due_rows now table)) as (table' & claimed & H1 & H2 & H3).
  { unfold handed. clear handed. revert table Hnd. induction owners as [|owner owners IH]; intros table Hnd.
    { exists table, []. split_and!; done. }
    cbn [claim_all]. rewrite claim_returns by done.
    rewrite chosen_due. fold l m. set (n := Z.to_nat l).
    set (table1 := _ <$> table).
    assert (NoDup (ob_obligationId <$> table1)) as Hnd1.
    { unfold table1. rewrite <-list_fmap_compose. erewrite list_fmap_ext; [exact Hnd|].
      intros i o _. cbn. by case_decide. }
    destruct (IH table1 Hnd1) as (table' & claimed & -> & Hids & Hdue). clear IH.
    assert (due_rows now table1 = drop n (due_rows now table)) as Heq
      by (apply due_rows_claimed; [done|lia]).
    rewrite Heq in Hids, Hdue.
    replace (length (owner :: owners) * n)%nat with (n + length owners * n)%nat by (cbn [length]; lia).
    exists table'. eexists. split_and!; [done| |].
    - rewrite fmap_app, Hids, <-list_fmap_compose, <-take_take_drop, fmap_app. done.
    - by rewrite Hdue, drop_drop. }
  exists table', claimed. split_and!; [done..|]. intros Hlen o Ho.
  destruct (claimable (js_date now) o) eqn:Hc; [|done].
  assert (o ∈ due_rows now table') as Hin by by apply elem_of_due_rows.
  rewrite H3, drop_ge in Hin by done. by apply elem_of_nil in Hin.
Qed.

(** ** The pass *)

(** What becomes of a claimed row: it runs under its lease, or has failed and is due in a minute. *)
Definition accepted (registry : list JobDefinition)
    (enqueue : JobDefinition → Obligation → EnqueueOutcome) (o : Obligation) : option (option jsstr) :=
  match definitionByName registry (ob_jobName o) with
  | Some definition =>
      match enqueue definition o with EnqueueOk bullJobId _ => Some bullJobId | _ => None end
  | None => None
  end.

Record settled (now : Z) (job : option (option jsstr)) (o o' : Obligation) : Prop := {
  se_id : ob_obligationId o' = ob_obligationId o;
  se_generation : ob_generation o' = ob_generation o;
  se_running : ∀ bullJobId, job = Some bullJobId →
    ob_status o' = Running ∧ ob_leaseOwner o' = ob_leaseOwner o ∧
    ob_leaseExpiresAt o' = ob_leaseExpiresAt o ∧ ob_bullJobId o' = nullish_or bullJobId (ob_bullJobId o);
  se_failed : job = None →
    ob_status o' = Failed ∧ ob_leaseOwner o' = None ∧ ob_dueAt o' = now + 60000 * 1000;
}.

Lemma update_one_id where_ set (table : Table) o :
  NoDup (ob_obligationId <$> table) → o ∈ table → where_ o = true →
  (∀ x, x ∈ table → where_ x = true → ob_obligationId x = ob_obligationId o) →
  update_one where_ set table =
    ((λ x, if decide (ob_obligationId x = ob_obligationId o) then set x else x) <$> table, true).
Proof.
  intros Hnd Ho Hw Hid. unfold update_one, update_where. f_equal.
  - apply list_fmap_ext. intros i x Hx%list_elem_of_lookup_2. case_decide as Hx'.
    + by rewrite (NoDup_fmap_inj_in ob_obligationId table x o), Hw.
    + destruct (where_ x) eqn:E; [|done]. by rewrite Hid in Hx'.
  - rewrite length_fmap, (filter_ext_in _ (λ x, by_id (ob_obligationId o) x)); [by rewrite filter_by_id|].
    intros x Hx. rewrite by_id_spec, Is_true_true. split; [by apply Hid|].
    intros Heq. by rewrite (NoDup_fmap_inj_in ob_obligationId table x o).
Qed.

(** One obligation, whose row still has the lease of the claim. *)
Lemma dispatch_settles registry enqueue now owner obligation table o :
  NoDup (ob_obligationId <$> table) → o ∈ table → ob_obligationId o = ob_obligationId obligation →
  ob_status o = Enqueued → ob_leaseOwner o = Some owner →
  ∃ o', settled now (accepted registry enqueue obligation) o o' ∧
    dispatch registry enqueue now owner obligation table =
      ((λ x, if decide (ob_obligationId x = ob_obligationId obligation) then o' else x) <$> table,
       negb (is_null (accepted registry enqueue obligation))).
Proof.
  intros Hnd Ho Hid Hst Hown. rewrite <-Hid.
  assert (∀ (set : Obligation → Obligation),
    (λ x, if decide (ob_obligationId x = ob_obligationId o) then set x else x) <$> table =
    (λ x, if decide (ob_obligationId x = ob_obligationId o) then set o else x) <$> table) as Hconst.
  { intros set. apply list_fmap_ext. intros i x Hx%list_elem_of_lookup_2. case_decide; [|done].
    by rewrite (NoDup_fmap_inj_in ob_obligationId table x o). }
  assert (∀ error, ∃ o', settled now None o o' ∧
    (failSchedulerObligation now (ob_obligationId o) (Some owner) None error None table).1 =
    (λ x, if decide (ob_obligationId x = ob_obligationId o) then o' else x) <$> table) as Hfail.
  { intros error. eexists. split; cycle 1.
    - unfold failSchedulerObligation. rewrite (update_one_id _ _ _ o); [apply Hconst|done|done| |].
      + unfold by_id. rewrite bool_decide_eq_true_2 by done. cbn. rewrite Hst.
        destruct owner; [done|]. by rewrite bool_decide_eq_true_2.
      + intros x _ Hx. unfold by_id in Hx. by boolsolve.
    - split; cbn; [done|done|done|]. intros _. split_and!; [done|done|cbn; lia]. }
  unfold dispatch, accepted. rewrite <-Hid.
  destruct (definitionByName registry (ob_jobName obligation)) as [d|].
  2: { destruct (Hfail (js "Unknown scheduled job definition: " ++ ob_jobName obligation)) as (o' & ? & ->).
       by exists o'. }
  destruct (enqueue d obligation) as [bull run|error].
  2: { destruct (Hfail error) as (o' & ? & ->). by exists o'. }
  unfold confirmSchedulerObligationEnqueued. rewrite (update_one_id _ _ _ o); [|done|done| |].
  - rewrite Hconst. eexists. split; [|done]. split; cbn; [done|done| |done]. intros b [= <-]. done.
  - unfold by_id. by rewrite !bool_decide_eq_true_2.
  - intros x _ Hx. unfold by_id in Hx. by boolsolve.
Qed.

Definition count_accepted registry enqueue (claimed : list Obligation) : Z :=
  Z.of_nat (length (filter (λ c, is_Some (accepted registry enqueue c)) claimed)).

Lemma dispatch_all_settles registry enqueue now owner claimed table enqueued failed :
  NoDup (ob_obligationId <$> table) → NoDup (ob_obligationId <$> claimed) →
  (∀ c, c ∈ claimed → ∃ o, o ∈ table ∧ ob_obligationId o = ob_obligationId c ∧
     ob_status o = Enqueued ∧ ob_leaseOwner o = Some owner) →
  let n := count_accepted registry enqueue claimed in
  ∃ table', dispatch_all registry enqueue now owner claimed table enqueued failed =
      (table', enqueued + n, failed + (Z.of_nat (length claimed) - n)) ∧
    (∀ c o, c ∈ claimed → o ∈ table → ob_obligationId o = ob_obligationId c →
       ∃ o', o' ∈ table' ∧ settled now (accepted registry enqueue c) o o') ∧
    (∀ o, o ∈ table → ob_obligationId o ∉ ob_obligationId <$> claimed → o ∈ table').
Proof.
  revert table enqueued failed. induction claimed as [|c claimed IH]; intros table enqueued failed Hnd Hcl Hrow.
  { exists table. unfold count_accepted. cbn. split_and!; [by rewrite !Z.add_0_r|by intros ? ? ?%elem_of_nil|done]. }
  rewrite fmap_cons in Hcl. apply NoDup_cons in Hcl as [Hc Hcl].
  destruct (Hrow c) as (o & Ho & Hid & Hst & Hown); [by left|].
  destruct (dispatch_settles registry enqueue now owner c table o) as (o' & Hset & Hd); [done..|].
  cbn [dispatch_all]. rewrite Hd. set (f := λ x, if decide _ then o' else x).
  assert (∀ x, x ∈ table → ob_obligationId (f x) = ob_obligationId x) as Hf.
  { intros x _. unfold f. case_decide as Hx; [|done]. by rewrite (se_id _ _ _ _ Hset), Hid. }
  assert (∀ x, x ∈ table → ob_obligationId x ≠ ob_obligationId c → x ∈ f <$> table) as Hkeep.
  { intros x Hx Hne. apply list_elem_of_fmap. exists x. unfold f. by rewrite decide_False. }
  assert (∀ x, x ∈ claimed → ob_obligationId x ≠ ob_obligationId c) as Hne.
  { intros x Hx Heq. apply Hc. rewrite <-Heq. by apply list_elem_of_fmap_2. }
  edestruct (IH (f <$> table)) as (table' & -> & Hsettled & Hrest); [|done| |].
  { rewrite <-list_fmap_compose. erewrite list_fmap_ext; [exact Hnd|].
    intros i x Hx%list_elem_of_lookup_2. by apply Hf. }
  { intros x Hx. destruct (Hrow x) as (y & Hy & Hyx & ? & ?); [by right|]. exists y.
    split_and!; [|done..]. apply Hkeep; [done|]. rewrite Hyx. by apply Hne. }
  exists table'. split_and!.
  - unfold count_accepted. rewrite filter_cons. cbn [length].
    destruct (accepted registry enqueue c); cbn [is_null negb]; case_decide as Hs.
    2: by destruct Hs. 2: by apply is_Some_None in Hs.
    all: cbn [length]; match goal with |- (_, ?a, ?b) = (_, ?a', ?b') =>
           replace a with a' by lia; replace b with b' by lia end; done.
  - intros x y [->|Hx]%elem_of_cons Hy Hyx.
    + assert (y = o) as -> by (apply (NoDup_fmap_inj_in ob_obligationId table); congruence).
      exists o'. split; [|done]. apply Hrest.
      * apply list_elem_of_fmap. exists o. unfold f. by rewrite decide_True.
      * by rewrite (se_id _ _ _ _ Hset), Hid.
    + apply (Hsettled x y); [done| |done]. apply Hkeep; [done|]. rewrite Hyx. by apply Hne.
  - intros x Hx Hn. rewrite fmap_cons in Hn. apply not_elem_of_cons in Hn as [? ?].
    apply Hrest; [by apply Hkeep|done].
Qed.

(** One scheduler pass settles everything it claims: each obligation it took ends either running
    under its lease with the id of the queue job, or failed, without a lease and due again in a
    minute; the counts of the pass are those numbers, and no other row changes. *)
Theorem scheduler_pass_settles (env : option jsstr) (limit leaseMs : option Z) (now later : Z)
    (owner : jsstr) (locked : list jsstr) (registry : list JobDefinition)
    (enqueue : JobDefinition → Obligation → EnqueueOutcome) (table table' : Table)
    (claimed : list Obligation)
    (Hnd : NoDup (ob_obligationId <$> table))
    (Hclaim : claimSchedulerObligations env limit leaseMs now owner locked table = (table', Ok claimed)) :
  ∃ table'' enqueued failed,
    dispatch_all registry enqueue later owner claimed table' 0 0 = (table'', enqueued, failed) ∧
    enqueued = count_accepted registry enqueue claimed ∧
    enqueued + failed = Z.of_nat (length claimed) ∧
    (∀ c, c ∈ claimed → ∃ o, o ∈ table'' ∧ ob_obligationId o = ob_obligationId c ∧
       ob_generation o = ob_generation c ∧
       match accepted registry enqueue c with
       | Some bullJobId => ob_status o = Running ∧ ob_leaseOwner o = Some owner ∧
                           (bullJobId ≠ None → ob_bullJobId o = bullJobId)
       | None => ob_status o = Failed ∧ ob_leaseOwner o = None ∧ ob_dueAt o = later + 60000000
       end) ∧
    (∀ o, o ∈ table → ob_obligationId o ∉ ob_obligationId <$> claimed → o ∈ table'').
Proof.
  destruct (claim_closed _ _ _ _ _ _ _ _ _ Hnd Hclaim) as (_ & _ & -> & ->).
  set (rows := chosen _ _ _ _). set (claim := claim_of _ _ _).
  set (f := λ o, if decide (id_in rows o) then claim o else o).
  assert (ob_obligationId <$> (mapRow ∘ claim <$> rows) = ob_obligationId <$> rows) as Hids
    by by rewrite <-list_fmap_compose.
  assert (∀ o, o ∈ rows → claim o ∈ f <$> table) as Hin.
  { intros o Ho. apply list_elem_of_fmap. exists o. unfold f.
    split; [|by apply elem_of_chosen in Ho as [? _]]. rewrite decide_True; [done|]. by apply list_elem_of_fmap_2. }
  edestruct (dispatch_all_settles registry enqueue later owner (mapRow ∘ claim <$> rows) (f <$> table) 0 0)
    as (table'' & -> & Hset & Hrest).
  { rewrite <-list_fmap_compose. erewrite list_fmap_ext; [exact Hnd|].
    intros i o _. unfold f. cbn. by case_decide. }
  { rewrite Hids. by apply chosen_NoDup. }
  { intros c (o & -> & Ho)%list_elem_of_fmap. exists (claim o). split_and!; [by apply Hin|done..]. }
  do 3 eexists. split_and!; [done|lia|lia| |].
  - intros c Hc. pose proof Hc as (o & -> & Ho)%list_elem_of_fmap.
    destruct (Hset _ (claim o) Hc) as (o' & Ho' & [Hid Hgen Hrun Hfail]); [by apply Hin|done|].
    exists o'. split_and!; [done..|]. destruct (accepted _ _ _) as [bull|].
    + destruct (Hrun bull) as (? & ? & _ & ?); [done|]. split_and!; [done..|]. by destruct bull.
    + by apply Hfail.
  - intros o Ho Hn. rewrite Hids in Hn. apply Hrest; [|by rewrite Hids].
    apply list_elem_of_fmap. exists o. unfold f. by rewrite decide_False.
Qed.

(** ** A run *)

Definition sample_definition : JobDefinition :=
  mkDefinition (js "core-snapshot") (js "daily") (js "UTC").

Definition sample_plan (period : string) (dueAt : Z) : SchedulerObligationPlan :=
  mkObligationPlan (js "2526") (js period) dueAt SourceCatchup (Some 3) None None.

Definition sample_table : Table :=
  (reserveSchedulerObligation 0 (js "b") sample_definition (sample_plan "d2" 2000000)
    (reserveSchedulerObligation 0 (js "a") sample_definition (sample_plan "d1" 1000000) []).1).1.

(** The state after a claim that returns. *)
Definition claimed_system (now : Z) (owner : jsstr) (s : System) : System :=
  match claimSchedulerObligations None None None now owner [] (sy_table s) with
  | (table, Ok claimed) => mkSystem (sy_clock s) table (sy_handed s ++ handed_of claimed)
  | (_, Throw _) => s
  end.

Lemma claimed_system_step now owner s :
  now ≤ sy_clock s → rtc ob_step s (claimed_system now owner s).
Proof.
  intros Hnow. unfold claimed_system. destruct (claimSchedulerObligations _ _ _ _ _ _ _) as [t [c|e]] eqn:E.
  - eapply rtc_once, ob_claim; done.
  - apply rtc_refl.
Qed.

Definition sample_claimed : System :=
  claimed_system 3000000 (js "o1") (mkSystem 90000000 sample_table []).

(** The first obligation fails and is claimed again a minute later. *)
Definition sample_reclaimed : System :=
  claimed_system 80000000 (js "o2") (mkSystem 90000000
    (failSchedulerObligation 4000000 (js "a") (Some (js "o1")) (Some 0) (js "boom") None
       (sy_table sample_claimed)).1 (sy_handed sample_claimed)).

Lemma sample_claimed_reachable : rtc ob_step (mkSystem 0 [] []) sample_claimed.
Proof.
  eapply rtc_l; [by apply (ob_time _ 90000000)|].
  eapply rtc_l; [apply (ob_statement _ 0); [done|apply st_reserve]|].
  eapply rtc_l; [apply (ob_statement _ 0); [done|apply st_reserve]|].
  by apply claimed_system_step.
Qed.

Lemma sample_reclaimed_reachable : rtc ob_step sample_claimed sample_reclaimed.
Proof.
  eapply rtc_l; [apply (ob_statement _ 4000000); [done|apply st_fail]|].
  by apply claimed_system_step.
Qed.

Lemma obligation_generations_fresh_witness :
  NoDup (sy_handed sample_reclaimed) ∧
  sy_handed sample_reclaimed = [(js "a", 0); (js "b", 0); (js "a", 1)].
Proof.
  split; [|vm_compute; reflexivity].
  apply (obligation_generations_fresh 0 sample_claimed sample_reclaimed
    sample_claimed_reachable sample_reclaimed_reachable).
Defined.

Lemma sample_table_ids : NoDup (ob_obligationId <$> sample_table).
Proof. apply (bool_decide_unpack _). vm_compute. exact I. Qed.

Lemma claims_drain_witness :
  ∃ table' claimed,
    claim_all None (Some 1) None 3000000 [js "o1"; js "o2"] sample_table = (table', Ok claimed) ∧
    ob_obligationId <$> claimed = [js "a"; js "b"].
Proof.
  destruct (claims_drain None (Some 1) None 3000000 [js "o1"; js "o2"] sample_table sample_table_ids)
    as (table' & claimed & H & Hids & _); [discriminate|vm_compute; split; discriminate|discriminate|discriminate|].
  exists table', claimed. split; [exact H|]. rewrite Hids. vm_compute. reflexivity.
Defined.

Lemma scheduler_pass_settles_witness :
  ∃ table'' enqueued failed,
    dispatch_all [sample_definition]
      (λ _ o, if bool_decide (ob_obligationId o = js "a") then EnqueueOk (Some (js "job-1")) None
              else EnqueueThrow (js "queue down"))
      5000000 (js "o1")
      (match claimSchedulerObligations None None None 3000000 (js "o1") [] sample_table with
       | (_, Ok claimed) => claimed | _ => [] end) (sy_table sample_claimed) 0 0
    = (table'', enqueued, failed) ∧ enqueued = 1 ∧ failed = 1.
Proof.
  destruct (scheduler_pass_settles None None None 3000000 5000000 (js "o1") [] [sample_definition]
    (λ _ o, if bool_decide (ob_obligationId o = js "a") then EnqueueOk (Some (js "job-1")) None
            else EnqueueThrow (js "queue down"))
    sample_table (sy_table sample_claimed) _ sample_table_ids eq_refl)
    as (table'' & enqueued & failed & H & He & Hf & _).
  exists table'', enqueued, failed. split; [exact H|].
  assert (enqueued = 1) as -> by (rewrite He; vm_compute; reflexivity).
  split; [reflexivity|]. assert (1 + failed = 2) by exact Hf. lia.
Defined.
