(* ===== verification/Admission.v ===== *)
(** * Admission of FPL requests ([src/utils/fpl-admission.ts])

    Every process asks Redis for a lease before it calls the FPL API.  Three Lua scripts keep a
    token bucket, two lanes (live and bulk) with their counters, and the leases; a lease that is
    not released expires.

    Tokens are counted in millionths and the rate in thousandths of a request per second, so that
    the refill [elapsed * rate / 1000] of whole milliseconds is exact; the rounding of Lua's doubles
    is not modelled.  The clock of the scripts is Redis' own and does not run backwards.  The
    process-local scheduler of the tests is not modelled. *)

From S2P Require Import Prelude JsCollections JsNumber.

(** src: src/utils/fpl-admission.ts:7-7 FplRequestPriority *)
Inductive FplRequestPriority := Live | Bulk.

#[export] Instance priority_eq_dec : EqDecision FplRequestPriority.
Proof. solve_decision. Defined.

(** ** Configuration: [configured] is the environment variable as a whole number *)

(** src: src/utils/fpl-admission.ts:9-9 MAX_INFLIGHT *)
Definition MAX_INFLIGHT (configured : option Z) : Z := Z.min 5 (Z.max 1 (nullish configured 5)).

(** src: src/utils/fpl-admission.ts:10-10 BULK_MAX_INFLIGHT *)
Definition BULK_MAX_INFLIGHT (configured : option Z) : Z :=
  let max := MAX_INFLIGHT configured in Z.max 1 (Z.min (max - Z.min 2 max) 3).

(** In thousandths of a request per second.
    src: src/utils/fpl-admission.ts:11-14 REQUESTS_PER_SECOND *)
Definition REQUESTS_PER_SECOND (configured : option Z) : Z :=
  Z.min 4000 (Z.max 1000 (nullish configured 4000)).

(** src: src/utils/fpl-admission.ts:15-15 LEASE_MS *)
Definition LEASE_MS (configured : option Z) : Z := Z.max 5000 (nullish configured 45000).

Record Config := mkConfig {
  cf_bulk : Z;    (** [ARGV[3]] of the acquire script *)
  cf_max : Z;     (** [ARGV[4]] *)
  cf_rate : Z;    (** [ARGV[5]], in thousandths *)
  cf_lease : Z;   (** [ARGV[6]] *)
}.

(** src: src/utils/fpl-admission.ts:185-198 distributedAcquire *)
Definition config (max rate lease : option Z) : Config :=
  {| cf_bulk := BULK_MAX_INFLIGHT max; cf_max := MAX_INFLIGHT max;
     cf_rate := REQUESTS_PER_SECOND rate; cf_lease := LEASE_MS lease |}.

(** ** State: the Redis keys of the scripts *)

(** The hash [STATE_KEY] (an absent counter is [0]), the sorted set [LEASES_KEY], the hash
    [LEASE_META_KEY] and the keys behind [LEASE_KEY_PREFIX].
    src: src/utils/fpl-admission.ts:16-19 STATE_KEY *)
Record Admission := mkAdmission {
  ad_inflight : Z;
  ad_live : Z;
  ad_bulk : Z;
  ad_bulkLimit : option Z;
  ad_lastBulkErrorMs : Z;
  ad_lastRefillMs : option Z;
  ad_tokens : option Z;
  ad_leases : gmap jsstr Z;
  ad_meta : gmap jsstr FplRequestPriority;
  ad_keys : gmap jsstr FplRequestPriority;
}.

Definition no_admission : Admission := mkAdmission 0 0 0 None 0 None None ∅ ∅ ∅.

Definition TOKEN : Z := 1000000.

Definition set_counters (s : Admission) (inflight live bulk : Z) : Admission :=
  mkAdmission inflight live bulk (ad_bulkLimit s) (ad_lastBulkErrorMs s) (ad_lastRefillMs s)
    (ad_tokens s) (ad_leases s) (ad_meta s) (ad_keys s).

Definition set_limit (s : Admission) (bulkLimit lastBulkErrorMs : Z) : Admission :=
  mkAdmission (ad_inflight s) (ad_live s) (ad_bulk s) (Some bulkLimit) lastBulkErrorMs
    (ad_lastRefillMs s) (ad_tokens s) (ad_leases s) (ad_meta s) (ad_keys s).

Definition set_bucket (s : Admission) (tokens lastRefillMs bulkLimit : Z) : Admission :=
  mkAdmission (ad_inflight s) (ad_live s) (ad_bulk s) (Some bulkLimit) (ad_lastBulkErrorMs s)
    (Some lastRefillMs) (Some tokens) (ad_leases s) (ad_meta s) (ad_keys s).

Definition set_leases (s : Admission) (leases : gmap jsstr Z)
    (meta keys : gmap jsstr FplRequestPriority) : Admission :=
  mkAdmission (ad_inflight s) (ad_live s) (ad_bulk s) (ad_bulkLimit s) (ad_lastBulkErrorMs s)
    (ad_lastRefillMs s) (ad_tokens s) leases meta keys.

(** ** Scripts *)

(** The counters after the lease of [token] is gone.
    src: src/utils/fpl-admission.ts:39-42 ACQUIRE_SCRIPT *)
Definition uncount (token : jsstr) (s : Admission) : Admission :=
  match ad_meta s !! token with
  | Some Live => set_counters s (ad_inflight s - 1) (ad_live s - 1) (ad_bulk s)
  | Some Bulk => set_counters s (ad_inflight s - 1) (ad_live s) (ad_bulk s - 1)
  | None => s
  end.

(** The body of the loop over the expired tokens.
    src: src/utils/fpl-admission.ts:38-45 ACQUIRE_SCRIPT *)
Definition expire_token (s : Admission) (token : jsstr) : Admission :=
  let s := uncount token s in
  set_leases s (ad_leases s) (delete token (ad_meta s)) (delete token (ad_keys s)).

Definition expired_tokens (now : Z) (s : Admission) : list jsstr :=
  (map_to_list (filter (λ lease : jsstr * Z, lease.2 ≤ now) (ad_leases s))).*1.

(** src: src/utils/fpl-admission.ts:37-46 ACQUIRE_SCRIPT *)
Definition expire_leases (now : Z) (s : Admission) : Admission :=
  let s := fold_left expire_token (expired_tokens now s) s in
  set_leases s (filter (λ lease : jsstr * Z, now < lease.2) (ad_leases s)) (ad_meta s) (ad_keys s).

(** The limit of the bulk lane, restored one by one after five quiet minutes.
    src: src/utils/fpl-admission.ts:50-60 ACQUIRE_SCRIPT *)
Definition recover_limit (cfg : Config) (now : Z) (s : Admission) : Admission * Z :=
  let bulkLimit := nullish (ad_bulkLimit s) (cf_bulk cfg) in
  let '(s, bulkLimit) :=
    if cf_bulk cfg <? bulkLimit
    then (set_limit s (cf_bulk cfg) (ad_lastBulkErrorMs s), cf_bulk cfg) else (s, bulkLimit) in
  let lastError := ad_lastBulkErrorMs s in
  if (bulkLimit <? cf_bulk cfg) && (0 <? lastError) && (300000 <=? now - lastError) then
    let bulkLimit := Z.min (cf_bulk cfg) (bulkLimit + 1) in
    (set_limit s bulkLimit (if bulkLimit <? cf_bulk cfg then now else 0), bulkLimit)
  else (s, bulkLimit).

(** The tokens of the bucket at [now].
    src: src/utils/fpl-admission.ts:63-69 ACQUIRE_SCRIPT *)
Definition refill (cfg : Config) (now : Z) (s : Admission) : Z :=
  let capacity := cf_rate cfg * 1000 in
  let elapsed := Z.max 0 (now - nullish (ad_lastRefillMs s) now) in
  Z.min capacity (nullish (ad_tokens s) capacity + elapsed * cf_rate cfg).

Inductive Answer := Wait (reason : string) (ms : Z) | Granted (token : jsstr).

(** src: src/utils/fpl-admission.ts:74-82 ACQUIRE_SCRIPT *)
Definition grant (cfg : Config) (priority : FplRequestPriority) (token : jsstr)
    (now tokens bulkLimit : Z) (s : Admission) : Admission :=
  let s := set_bucket s (tokens - TOKEN) now bulkLimit in
  let s := match priority with
           | Live => set_counters s (ad_inflight s + 1) (ad_live s + 1) (ad_bulk s)
           | Bulk => set_counters s (ad_inflight s + 1) (ad_live s) (ad_bulk s + 1)
           end in
  set_leases s (<[token := now + cf_lease cfg]> (ad_leases s))
    (<[token := priority]> (ad_meta s)) (<[token := priority]> (ad_keys s)).

(** src: src/utils/fpl-admission.ts:34-83 ACQUIRE_SCRIPT *)
Definition ACQUIRE_SCRIPT (cfg : Config) (priority : FplRequestPriority) (token : jsstr) (now : Z)
    (s : Admission) : Admission * Answer :=
  let s := expire_leases now s in
  let inflight := ad_inflight s in
  let bulk := ad_bulk s in
  let '(s, bulkLimit) := recover_limit cfg now s in
  if bool_decide (priority = Bulk) && (bulkLimit <=? bulk) then (s, Wait "capacity" 100) else
  if cf_max cfg <=? inflight then (s, Wait "capacity" 100) else
  let tokens := refill cfg now s in
  if tokens <? TOKEN then
    (set_bucket s tokens now bulkLimit,
     Wait "rate" ((TOKEN - tokens + cf_rate cfg - 1) / cf_rate cfg))
  else (grant cfg priority token now tokens bulkLimit s, Granted token).

(** src: src/utils/fpl-admission.ts:85-95 RELEASE_SCRIPT *)
Definition RELEASE_SCRIPT (token : jsstr) (s : Admission) : Admission :=
  match ad_meta s !! token with
  | None => s
  | Some _ =>
      let s := uncount token s in
      set_leases s (delete token (ad_leases s)) (delete token (ad_meta s)) (delete token (ad_keys s))
  end.

(** [status] is [0] when there was no response.
    src: src/utils/fpl-admission.ts:97-112 REPORT_SCRIPT *)
Definition REPORT_SCRIPT (cfg : Config) (status now : Z) (s : Admission) : Admission :=
  let limit := nullish (ad_bulkLimit s) (cf_bulk cfg) in
  if (status =? 429) || (500 <=? status) then set_limit s (Z.max 1 (limit - 1)) now
  else if limit <? cf_bulk cfg then
    let last := ad_lastBulkErrorMs s in
    if (0 <? last) && (300000 <=? now - last) then
      let limit := Z.min (cf_bulk cfg) (limit + 1) in
      set_limit s limit (if limit <? cf_bulk cfg then now else 0)
    else s
  else s.

(** src: src/utils/fpl-admission.ts:237-263 reportFplResponse *)
Definition reportFplResponse (cfg : Config) (priority : FplRequestPriority) (status : option Z)
    (now : Z) (s : Admission) : Admission :=
  match priority with
  | Live => s
  | Bulk => REPORT_SCRIPT cfg (nullish status 0) now s
  end.

(** The pause before the next attempt.
    src: src/utils/fpl-admission.ts:226-228 distributedAcquire *)
Definition retry_pause (ms : Z) : Z := Z.max 10 (Z.min 1000 ms).

(** The loop of one process, with nothing else running: attempt, pause, attempt again; the time of
    the grant.
    src: src/utils/fpl-admission.ts:174-230 distributedAcquire *)
Fixpoint distributedAcquire (fuel : nat) (cfg : Config) (priority : FplRequestPriority)
    (token : jsstr) (now : Z) (s : Admission) : option (Admission * Z) :=
  match fuel with
  | O => None
  | S fuel' =>
      match ACQUIRE_SCRIPT cfg priority token now s with
      | (s, Granted _) => Some (s, now)
      | (s, Wait _ ms) => distributedAcquire fuel' cfg priority token (now + retry_pause ms) s
      end
  end.

(** ** The local scheduler *)

(** src: src/utils/fpl-admission.ts:114-120 LocalWaiter *)
Record Local := mkLocal {
  lo_inflight : Z;
  lo_live : Z;
  lo_bulk : Z;
  lo_bulkLimit : Z;
  lo_lastError : Z;
  lo_waiters : list (FplRequestPriority * nat);
}.

(** src: src/utils/fpl-admission.ts:126-130 localCanStart *)
Definition localCanStart (max : Z) (priority : FplRequestPriority) (s : Local) : bool :=
  if max <=? lo_inflight s then false
  else negb (bool_decide (priority = Bulk) && (lo_bulkLimit s <=? lo_bulk s)).

Definition set_lanes (s : Local) (inflight live bulk : Z) : Local :=
  mkLocal inflight live bulk (lo_bulkLimit s) (lo_lastError s) (lo_waiters s).

Definition start_one (priority : FplRequestPriority) (s : Local) : Local :=
  match priority with
  | Live => set_lanes s (lo_inflight s + 1) (lo_live s + 1) (lo_bulk s)
  | Bulk => set_lanes s (lo_inflight s + 1) (lo_live s) (lo_bulk s + 1)
  end.

Definition set_waiters (s : Local) (waiters : list (FplRequestPriority * nat)) : Local :=
  mkLocal (lo_inflight s) (lo_live s) (lo_bulk s) (lo_bulkLimit s) (lo_lastError s)
    waiters.

(** The waiter a drain looks at: the first live one, else the first.
    src: src/utils/fpl-admission.ts:134-136 localDrain *)
Definition select_waiter (waiters : list (FplRequestPriority * nat)) : nat :=
  match list_find (λ w, w.1 = Live) waiters with Some (i, _) => i | None => 0%nat end.

(** The loop, and the tickets it starts.
    src: src/utils/fpl-admission.ts:132-144 localDrain *)
Fixpoint localDrain (fuel : nat) (max : Z) (s : Local) : option (Local * list nat) :=
  match fuel with
  | O => None
  | S fuel' =>
      let index := select_waiter (lo_waiters s) in
      match lo_waiters s !! index with
      | None => Some (s, [])
      | Some (priority, ticket) =>
          if negb (localCanStart max priority s) then Some (s, []) else
          let s := set_waiters s (delete index (lo_waiters s)) in
          '(s, started) ← localDrain fuel' max (start_one priority s);
          Some (s, ticket :: started)
      end
  end.

(** Starts at once, or waits with the given ticket.
    src: src/utils/fpl-admission.ts:146-172 localAcquire *)
Definition localAcquire (max : Z) (priority : FplRequestPriority) (ticket : nat) (s : Local)
    : Local * bool :=
  if localCanStart max priority s then (start_one priority s, true)
  else (set_waiters s (lo_waiters s ++ [(priority, ticket)]), false).

(** The release of a started request; its [released] flag makes a second call do nothing.
    src: src/utils/fpl-admission.ts:150-157 localAcquire *)
Definition localRelease (fuel : nat) (max : Z) (priority : FplRequestPriority) (released : bool)
    (s : Local) : option (Local * list nat) :=
  if released then Some (s, []) else
  let s := match priority with
           | Live => set_lanes s (lo_inflight s - 1) (lo_live s - 1) (lo_bulk s)
           | Bulk => set_lanes s (lo_inflight s - 1) (lo_live s) (lo_bulk s - 1)
           end in
  localDrain fuel max s.

(** [status] is [None] when there was no response; unlike the script, a missing response is compared
    as [null], with the same outcome.
    src: src/utils/fpl-admission.ts:242-256 reportFplResponse *)
Definition localReport (bulkMax : Z) (priority : FplRequestPriority) (status : option Z) (now : Z)
    (s : Local) : Local :=
  match priority with
  | Live => s
  | Bulk =>
      if match status with Some n => (n =? 429) || (500 <=? n) | None => false end then
        mkLocal (lo_inflight s) (lo_live s) (lo_bulk s) (Z.max 1 (lo_bulkLimit s - 1)) now (lo_waiters s)
      else if (lo_bulkLimit s <? bulkMax) && negb (lo_lastError s =? 0) &&
              (300000 <=? now - lo_lastError s) then
        let limit := lo_bulkLimit s + 1 in
        mkLocal (lo_inflight s) (lo_live s) (lo_bulk s) limit
          (if limit <? bulkMax then now else 0) (lo_waiters s)
      else s
  end.

(** ** Counting leases *)

Definition count (p : FplRequestPriority) (meta : gmap jsstr FplRequestPriority) : Z :=
  Z.of_nat (size (filter (λ lease : jsstr * FplRequestPriority, lease.2 = p) meta)).

Definition one_if (b : bool) : Z := if b then 1 else 0.

Lemma count_empty (p : FplRequestPriority) : count p ∅ = 0.
Proof. done. Qed.

Lemma count_delete (p q : FplRequestPriority) (meta : gmap jsstr FplRequestPriority) (token : jsstr) :
  meta !! token = Some q →
  count p (delete token meta) = count p meta - one_if (bool_decide (q = p)).
Proof.
  intros Hq. unfold count. rewrite map_filter_delete. case_bool_decide as Hp.
  - assert (filter (λ l : jsstr * FplRequestPriority, l.2 = p) meta !! token = Some q) as Hl
      by by apply map_lookup_filter_Some.
    rewrite map_size_delete_Some; [|by eexists]. assert (size (filter (λ l : jsstr * FplRequestPriority, l.2 = p) meta) ≠ 0%nat).
    { intros H0%map_size_empty_iff. by rewrite H0 in Hl. }
    cbn. lia.
  - rewrite map_size_delete_None; [cbn; lia|]. apply map_lookup_filter_None. right. intros x Hx. cbn. congruence.
Qed.

Lemma count_insert (p q : FplRequestPriority) (meta : gmap jsstr FplRequestPriority) (token : jsstr) :
  meta !! token = None →
  count p (<[token := q]> meta) = count p meta + one_if (bool_decide (q = p)).
Proof.
  intros Hq.
  rewrite <-(delete_insert_id meta token q) at 2 by done.
  rewrite (count_delete p q (<[token := q]> meta) token); [lia|apply lookup_insert_eq].
Qed.

Lemma count_total meta : count Live meta + count Bulk meta = Z.of_nat (size meta).
Proof.
  induction meta as [|token q meta Hn IH] using map_ind; [done|].
  rewrite !count_insert, map_size_insert_None by done.
  destruct q; unfold one_if; repeat case_bool_decide; try done; lia.
Qed.

(** ** The invariant *)

Record sound_config (cfg : Config) : Prop := {
  sc_bulk : 1 ≤ cf_bulk cfg ≤ cf_max cfg;
  sc_rate : 1000 ≤ cf_rate cfg;
  sc_lease : 0 < cf_lease cfg;
}.

Lemma config_sound max rate lease : sound_config (config max rate lease).
Proof.
  split; cbn; unfold BULK_MAX_INFLIGHT, MAX_INFLIGHT, REQUESTS_PER_SECOND, LEASE_MS;
    destruct max, rate, lease; cbn; lia.
Qed.

Definition capacity (cfg : Config) : Z := cf_rate cfg * 1000.

(** The counters count the leases, the lanes keep their bounds, and the bucket its own; [clock] is
    no earlier than any script that ran. *)
Record sound (cfg : Config) (clock : Z) (s : Admission) : Prop := {
  so_dom : dom (ad_leases s) = dom (ad_meta s);
  so_live : ad_live s = count Live (ad_meta s);
  so_bulk : ad_bulk s = count Bulk (ad_meta s);
  so_inflight : ad_inflight s = Z.of_nat (size (ad_meta s));
  so_max : ad_inflight s ≤ cf_max cfg;
  so_bulk_max : ad_bulk s ≤ cf_bulk cfg;
  so_limit : ∀ l, ad_bulkLimit s = Some l → 1 ≤ l ≤ cf_bulk cfg;
  so_tokens : ∀ t, ad_tokens s = Some t → 0 ≤ t ≤ capacity cfg;
  so_refill : ∀ t, ad_lastRefillMs s = Some t → t ≤ clock;
  so_bucket : is_null (ad_tokens s) = is_null (ad_lastRefillMs s);
  so_expiry : ∀ token e, ad_leases s !! token = Some e → e ≤ clock + cf_lease cfg;
}.

(** The fields of the bucket and of the bulk limit. *)
Definition same_bucket (s s' : Admission) : Prop :=
  ad_bulkLimit s' = ad_bulkLimit s ∧ ad_lastBulkErrorMs s' = ad_lastBulkErrorMs s ∧
  ad_lastRefillMs s' = ad_lastRefillMs s ∧ ad_tokens s' = ad_tokens s.

Definition counts_ok (s : Admission) : Prop :=
  ad_live s = count Live (ad_meta s) ∧ ad_bulk s = count Bulk (ad_meta s) ∧
  ad_inflight s = Z.of_nat (size (ad_meta s)).

Lemma uncount_delete token leases keys s :
  counts_ok s → counts_ok (set_leases (uncount token s) leases (delete token (ad_meta s)) keys).
Proof.
  intros (Hl & Hb & Hi). unfold uncount, counts_ok.
  pose proof (count_total (ad_meta s)). pose proof (count_total (delete token (ad_meta s))).
  destruct (ad_meta s !! token) as [q|] eqn:Hq.
  - pose proof (count_delete Live q _ _ Hq) as HL. pose proof (count_delete Bulk q _ _ Hq) as HB.
    unfold one_if in *. destruct q; cbn; repeat case_bool_decide; try done; lia.
  - rewrite delete_id by done. by cbn.
Qed.

Lemma uncount_same token s :
  same_bucket s (uncount token s) ∧ ad_leases (uncount token s) = ad_leases s ∧
  ad_meta (uncount token s) = ad_meta s ∧ ad_keys (uncount token s) = ad_keys s ∧
  ad_inflight (uncount token s) ≤ ad_inflight s ∧ ad_bulk (uncount token s) ≤ ad_bulk s.
Proof. unfold uncount. by destruct (ad_meta s !! token) as [[]|]; cbn; split_and!; (lia || done). Qed.

(** The loop over expired tokens. *)
Lemma expire_tokens_spec tokens s :
  counts_ok s →
  let s' := fold_left expire_token tokens s in
  counts_ok s' ∧ same_bucket s s' ∧ ad_leases s' = ad_leases s ∧
  (∀ k, ad_meta s' !! k = if decide (k ∈ tokens) then None else ad_meta s !! k) ∧
  ad_inflight s' ≤ ad_inflight s ∧ ad_bulk s' ≤ ad_bulk s.
Proof.
  revert s. induction tokens as [|token tokens IH]; intros s Hc; cbn.
  { split_and!; try done; intros; by rewrite decide_False by apply not_elem_of_nil. }
  destruct (uncount_same token s) as ((B1 & B2 & B3 & B4) & Hle & Hme & _ & Hi & Hb).
  pose proof (uncount_delete token (ad_leases s) (delete token (ad_keys (uncount token s))) s Hc) as Hc1.
  destruct (IH (expire_token s token)) as (H1 & (C1 & C2 & C3 & C4) & H3 & H4 & H5 & H6).
  { unfold expire_token. cbn. by rewrite Hle, Hme. }
  cbn in *. split_and!; [done| | | |lia|lia].
  - unfold same_bucket. by rewrite C1, C2, C3, C4.
  - by rewrite H3.
  - intros k. rewrite H4, Hme. destruct (decide (k ∈ tokens)) as [Hk|Hk].
    + by rewrite decide_True by (by right).
    + destruct (decide (k = token)) as [->|Hne].
      * rewrite decide_True by left. apply lookup_delete_eq.
      * rewrite decide_False by (by intros [?|?]%elem_of_cons). by apply lookup_delete_ne.
Qed.

Lemma elem_of_expired now s token :
  token ∈ expired_tokens now s ↔ ∃ e, ad_leases s !! token = Some e ∧ e ≤ now.
Proof.
  unfold expired_tokens. rewrite list_elem_of_fmap. split.
  - intros ([k e] & -> & [Hk He]%elem_of_map_to_list%map_lookup_filter_Some). by exists e.
  - intros (e & Hk & He). exists (token, e). split; [done|].
    apply elem_of_map_to_list, map_lookup_filter_Some. done.
Qed.

Lemma expire_leases_sound cfg clock now s :
  sound cfg clock s → clock ≤ now →
  let s' := expire_leases now s in
  sound cfg now s' ∧ same_bucket s s' ∧
  (∀ token, ad_meta s' !! token = None ∨ ∃ e, ad_leases s !! token = Some e ∧ now < e) ∧
  (∀ token, ad_meta s !! token = None → ad_meta s' !! token = None) ∧
  ad_inflight s' ≤ ad_inflight s ∧ ad_bulk s' ≤ ad_bulk s.
Proof.
  intros [] Hnow. unfold expire_leases.
  destruct (expire_tokens_spec (expired_tokens now s) s) as ((C1 & C2 & C3) & (B1 & B2 & B3 & B4) & Hle & Hme & Hi & Hb);
    [done|]. cbn. rewrite Hle.
  assert (∀ token, ad_meta (fold_left expire_token (expired_tokens now s) s) !! token = None ∨
    ∃ e, ad_leases s !! token = Some e ∧ now < e) as Hkeep.
  { intros token. rewrite Hme. case_decide as Hx; [by left|].
    destruct (ad_leases s !! token) as [e|] eqn:Htok.
    - right. exists e. split; [done|]. destruct (Z.lt_ge_cases now e) as [|He]; [done|].
      destruct Hx. apply elem_of_expired. by exists e.
    - left. apply not_elem_of_dom. rewrite <-so_dom0. by apply not_elem_of_dom. }
  split_and!; [|done|done| |done|done].
  - split; cbn; rewrite ?B1, ?B4, ?B3; try done; [|lia|lia| |].
    + apply set_eq. intros token. rewrite !elem_of_dom. split.
      * intros [e [Htok He]%map_lookup_filter_Some]. rewrite Hme, decide_False.
        -- apply elem_of_dom. rewrite <-so_dom0. by apply elem_of_dom.
        -- rewrite elem_of_expired. intros (e' & ? & ?). cbn in He. simplify_eq. lia.
      * intros Hsome. destruct (Hkeep token) as [Hnone|(e & Htok & He)].
        -- rewrite Hnone in Hsome. by destruct Hsome.
        -- exists e. apply map_lookup_filter_Some. done.
    + intros t Ht. specialize (so_refill0 t Ht). lia.
    + intros token e [Htok _]%map_lookup_filter_Some. specialize (so_expiry0 _ _ Htok). lia.
  - intros token Hn. rewrite Hme, Hn. by case_decide.
Qed.

Lemma recover_limit_sound cfg now s :
  sound_config cfg → sound cfg now s →
  sound cfg now (recover_limit cfg now s).1 ∧
  1 ≤ (recover_limit cfg now s).2 ≤ cf_bulk cfg ∧
  ad_lastRefillMs (recover_limit cfg now s).1 = ad_lastRefillMs s ∧
  ad_tokens (recover_limit cfg now s).1 = ad_tokens s ∧
  ad_meta (recover_limit cfg now s).1 = ad_meta s ∧
  ad_inflight (recover_limit cfg now s).1 = ad_inflight s ∧
  ad_bulk (recover_limit cfg now s).1 = ad_bulk s ∧
  ad_leases (recover_limit cfg now s).1 = ad_leases s.
Proof.
  intros [Hbulk _ _] Hs.
  assert (1 ≤ nullish (ad_bulkLimit s) (cf_bulk cfg) ≤ cf_bulk cfg) as Hl.
  { destruct (ad_bulkLimit s) as [l|] eqn:El; cbn; [|lia]. by apply (so_limit _ _ _ Hs). }
  assert (∀ l e, 1 ≤ l ≤ cf_bulk cfg → sound cfg now (set_limit s l e)) as Hset.
  { intros l e ?. destruct Hs. split; try done. by intros ? [= <-]. }
  unfold recover_limit. rewrite (proj2 (Z.ltb_ge _ _)) by lia. case_match eqn:Hc; boolsolve.
  - split_and!; [apply Hset; lia|cbn; lia|cbn; lia|done..].
  - split_and!; [done|cbn; lia|cbn; lia|done..].
Qed.

Lemma refill_bounds cfg now s :
  sound_config cfg → sound cfg now s → 0 ≤ refill cfg now s ≤ capacity cfg.
Proof.
  intros [_ Hrate _] []. unfold refill. fold (capacity cfg).
  assert (0 ≤ capacity cfg) by (unfold capacity; lia).
  assert (0 ≤ nullish (ad_tokens s) (capacity cfg) ≤ capacity cfg) as Ht.
  { destruct (ad_tokens s) as [t|]; cbn; [by apply so_tokens0|lia]. }
  split; [|lia]. apply Z.min_glb; [done|].
  assert (0 ≤ Z.max 0 (now - nullish (ad_lastRefillMs s) now) * cf_rate cfg) by nia. lia.
Qed.

Lemma set_bucket_sound cfg now s tokens bulkLimit :
  sound cfg now s → 0 ≤ tokens ≤ capacity cfg → 1 ≤ bulkLimit ≤ cf_bulk cfg →
  sound cfg now (set_bucket s tokens now bulkLimit) ∧
  refill cfg now (set_bucket s tokens now bulkLimit) = tokens.
Proof.
  intros [] Ht Hl. split.
  - split; try done; intros ? [= <-]; lia.
  - unfold refill. fold (capacity cfg). cbn. rewrite Z.sub_diag. cbn. lia.
Qed.

Lemma grant_sound cfg priority token now tokens bulkLimit s :
  sound_config cfg → sound cfg now s → ad_meta s !! token = None →
  ad_inflight s < cf_max cfg → (priority = Bulk → ad_bulk s < cf_bulk cfg) →
  TOKEN ≤ tokens ≤ capacity cfg → 1 ≤ bulkLimit ≤ cf_bulk cfg →
  sound cfg now (grant cfg priority token now tokens bulkLimit s) ∧
  refill cfg now (grant cfg priority token now tokens bulkLimit s) = tokens - TOKEN.
Proof.
  intros Hcfg Hs Hfresh Hmax Hbulk Ht Hl. unfold TOKEN in *.
  destruct (set_bucket_sound cfg now s (tokens - 1000000) bulkLimit Hs) as [Hs' Hr]; [lia|done|].
  split; [|by destruct priority].
  destruct Hs'. cbn in *.
  pose proof (count_insert Live priority _ _ Hfresh) as HL.
  pose proof (count_insert Bulk priority _ _ Hfresh) as HB.
  assert (size (<[token:=priority]> (ad_meta s)) = S (size (ad_meta s))) as HS
    by by apply map_size_insert_None.
  unfold one_if in *. split; destruct priority; cbn; repeat case_bool_decide; try done; try lia.
  all: try (rewrite !dom_insert_L; by f_equal).
  all: try (specialize (Hbulk eq_refl); lia).
  all: intros k e; rewrite lookup_insert; case_decide; [intros [= <-]; lia|by apply so_expiry0].
Qed.

(** What the acquire script answers, and what it leaves. *)
Lemma acquire_spec cfg priority token clock now s :
  sound_config cfg → sound cfg clock s → clock ≤ now → ad_meta s !! token = None →
  let '(s', answer) := ACQUIRE_SCRIPT cfg priority token now s in
  let s1 := expire_leases now s in
  sound cfg now s' ∧
  match answer with
  | Granted t => t = token ∧ TOKEN ≤ refill cfg now s ∧ refill cfg now s' = refill cfg now s - TOKEN
  | Wait reason ms =>
      refill cfg now s' = refill cfg now s ∧
      ad_meta s' = ad_meta s1 ∧ ad_leases s' = ad_leases s1 ∧
      (reason = "capacity" ∧ ms = 100 ∧
         (cf_max cfg ≤ ad_inflight s1 ∨ priority = Bulk ∧ 1 ≤ ad_bulk s1) ∨
       reason = "rate" ∧ refill cfg now s < TOKEN ∧
         ms = (TOKEN - refill cfg now s + cf_rate cfg - 1) / cf_rate cfg)
  end.
Proof.
  intros Hcfg Hs Hnow Hfresh. unfold ACQUIRE_SCRIPT.
  destruct (expire_leases_sound cfg clock now s Hs Hnow) as (Hs1 & (B1 & B2 & B3 & B4) & _ & Hf & Hi & Hb).
  set (s1 := expire_leases now s) in *.
  destruct (recover_limit_sound cfg now s1 Hcfg Hs1) as (Hs2 & Hlim & R1 & R2 & R3 & R4 & R5 & R6).
  destruct (recover_limit cfg now s1) as [s2 bulkLimit]. cbn [fst snd] in *.
  assert (refill cfg now s2 = refill cfg now s) as Hrefill by (unfold refill; by rewrite R1, R2, B3, B4).
  pose proof (refill_bounds cfg now s2 Hcfg Hs2) as Hbd.
  destruct (bool_decide (priority = Bulk) && (bulkLimit <=? ad_bulk s1)) eqn:Hfull.
  { boolsolve. split_and!; [done..|]. left. split_and!; [done|done|]. right. split; [done|lia]. }
  destruct (Z.leb_spec (cf_max cfg) (ad_inflight s1)).
  { split_and!; [done..|]. left. split_and!; [done|done|by left]. }
  rewrite Hrefill in *. destruct (Z.ltb_spec (refill cfg now s) TOKEN).
  - destruct (set_bucket_sound cfg now s2 (refill cfg now s) bulkLimit) as [? ?]; [done..|].
    split_and!; [done..|]. right. done.
  - destruct (grant_sound cfg priority token now (refill cfg now s) bulkLimit s2) as [? ?]; try done.
    + rewrite R3. by apply Hf.
    + lia.
    + intros ->. apply andb_false_iff in Hfull as [?|?]; boolsolve; [done|lia].
    + lia.
Qed.

(** ** The system *)

(** What runs against Redis: acquire attempts with tokens not in use, releases of any token and
    reports, each no earlier than the one before.  [gr_count] counts the grants. *)
Record World := mkWorld { wo_clock : Z; wo_state : Admission; wo_granted : Z }.

Definition granted (answer : Answer) : Z := match answer with Granted _ => 1 | Wait _ _ => 0 end.

Inductive adm_step (cfg : Config) : World → World → Prop :=
| adm_acquire w priority token now s' answer :
    wo_clock w ≤ now → ad_meta (wo_state w) !! token = None →
    ACQUIRE_SCRIPT cfg priority token now (wo_state w) = (s', answer) →
    adm_step cfg w (mkWorld now s' (wo_granted w + granted answer))
| adm_release w token now :
    wo_clock w ≤ now → adm_step cfg w (mkWorld now (RELEASE_SCRIPT token (wo_state w)) (wo_granted w))
| adm_report w priority status now :
    wo_clock w ≤ now →
    adm_step cfg w (mkWorld now (reportFplResponse cfg priority status now (wo_state w)) (wo_granted w)).

Lemma sound_later cfg clock now s : sound cfg clock s → clock ≤ now → sound cfg now s.
Proof.
  intros [] ?. split; try done.
  - intros t Ht. specialize (so_refill0 t Ht). lia.
  - intros token e He. specialize (so_expiry0 _ _ He). lia.
Qed.

Lemma release_sound cfg clock token s :
  sound cfg clock s →
  sound cfg clock (RELEASE_SCRIPT token s) ∧ same_bucket s (RELEASE_SCRIPT token s).
Proof.
  intros Hs. unfold RELEASE_SCRIPT. destruct (ad_meta s !! token) as [q|] eqn:Hq; [|done].
  destruct (uncount_same token s) as ((B1 & B2 & B3 & B4) & Hle & Hme & Hke & Hi & Hb).
  destruct Hs.
  destruct (uncount_delete token (delete token (ad_leases s)) (delete token (ad_keys s)) s) as (C1 & C2 & C3);
    [done|]. cbn in C1, C2, C3.
  split; [|unfold same_bucket; cbn; by rewrite B1, B2, B3, B4].
  split; cbn; rewrite ?B1, ?B3, ?B4, ?Hle, ?Hme; try done; [|lia|lia|].
  - rewrite !dom_delete_L. by f_equal.
  - intros k e [_ He]%lookup_delete_Some. by eapply so_expiry0.
Qed.

Lemma report_sound cfg clock priority status now s :
  sound_config cfg → sound cfg clock s →
  sound cfg clock (reportFplResponse cfg priority status now s) ∧
  ad_lastRefillMs (reportFplResponse cfg priority status now s) = ad_lastRefillMs s ∧
  ad_tokens (reportFplResponse cfg priority status now s) = ad_tokens s.
Proof.
  intros [Hbulk _ _] Hs. destruct priority; [done|]. unfold reportFplResponse, REPORT_SCRIPT.
  assert (1 ≤ nullish (ad_bulkLimit s) (cf_bulk cfg) ≤ cf_bulk cfg) as Hl.
  { destruct (ad_bulkLimit s) as [l|] eqn:El; cbn; [|lia]. by apply (so_limit _ _ _ Hs). }
  assert (∀ l e, 1 ≤ l ≤ cf_bulk cfg → sound cfg clock (set_limit s l e)) as Hset.
  { intros l e ?. destruct Hs. split; try done. by intros ? [= <-]. }
  repeat case_match; (split; [first [apply Hset; lia|done]|done]).
Qed.

(** Tokens that are in the bucket by [now]. *)
Lemma refill_later cfg clock now s :
  sound_config cfg → sound cfg clock s → clock ≤ now →
  refill cfg now s ≤ refill cfg clock s + (now - clock) * cf_rate cfg.
Proof.
  intros [_ Hrate _] [] Hnow. unfold refill. fold (capacity cfg).
  destruct (ad_lastRefillMs s) as [t|] eqn:Et; cbn.
  - specialize (so_refill0 t eq_refl).
    replace (Z.max 0 (now - t)) with (Z.max 0 (clock - t) + (now - clock)) by lia.
    rewrite Z.mul_add_distr_r. nia.
  - rewrite !Z.sub_diag. nia.
Qed.

(** One step keeps the invariant; the bucket pays a token for a grant. *)
Lemma adm_step_sound cfg w w' :
  sound_config cfg → adm_step cfg w w' → sound cfg (wo_clock w) (wo_state w) →
  wo_clock w ≤ wo_clock w' ∧ sound cfg (wo_clock w') (wo_state w') ∧
  refill cfg (wo_clock w') (wo_state w') + (wo_granted w' - wo_granted w) * TOKEN
    ≤ refill cfg (wo_clock w) (wo_state w) + (wo_clock w' - wo_clock w) * cf_rate cfg.
Proof.
  intros Hcfg Hstep Hs.
  destruct Hstep as [w priority token now s' answer Hnow Hf Hacq|w token now Hnow|w priority status now Hnow];
    cbn; (split; [done|]); pose proof (refill_later cfg _ now _ Hcfg Hs Hnow) as Hlater.
  - pose proof (acquire_spec cfg priority token _ now _ Hcfg Hs Hnow Hf) as Hsp. rewrite Hacq in Hsp.
    destruct Hsp as [Hs' Hans]. split; [done|]. destruct answer as [reason ms|t]; cbn.
    + destruct Hans as [-> _]. lia.
    + destruct Hans as (_ & _ & ->). lia.
  - destruct (release_sound cfg now token (wo_state w)) as [Hs' (_ & _ & H3 & H4)]; [by eapply sound_later|].
    split; [done|]. unfold refill at 1. rewrite H3, H4. fold (refill cfg now (wo_state w)). lia.
  - destruct (report_sound cfg now priority status now (wo_state w)) as (Hs' & H3 & H4); [done|by eapply sound_later|].
    split; [done|]. unfold refill at 1. rewrite H3, H4. fold (refill cfg now (wo_state w)). lia.
Qed.

Lemma adm_steps_sound cfg w w' :
  sound_config cfg → rtc (adm_step cfg) w w' → sound cfg (wo_clock w) (wo_state w) →
  wo_clock w ≤ wo_clock w' ∧ sound cfg (wo_clock w') (wo_state w') ∧
  refill cfg (wo_clock w') (wo_state w') + (wo_granted w' - wo_granted w) * TOKEN
    ≤ refill cfg (wo_clock w) (wo_state w) + (wo_clock w' - wo_clock w) * cf_rate cfg.
Proof.
  intros Hcfg. induction 1 as [w|w w1 w2 Hstep _ IH]; intros Hs; [split_and!; [lia|done|lia]|].
  destruct (adm_step_sound _ _ _ Hcfg Hstep Hs) as (H1 & H2 & H3).
  destruct (IH H2) as (H4 & H5 & H6). split_and!; [lia|done|lia].
Qed.

Lemma sound_none cfg clock : sound_config cfg → sound cfg clock no_admission.
Proof. intros [[] ? ?]. split; cbn; try done; lia. Qed.

(** C36: The FPL API is never overloaded, whatever processes ask, die or report: at most [cf_max]
    requests hold a lease, at most [cf_bulk] of them in the bulk lane (so with the default five
    leases two are kept for live requests), the counters are the numbers of leases, and between any
    two moments the grants are at most one bucket plus the rate times the time between them. *)
Theorem admission_bounded (max rate lease : option Z) (clock : Z) (w w' : World)
    (Hw : rtc (adm_step (config max rate lease)) (mkWorld clock no_admission 0) w)
    (Hw' : rtc (adm_step (config max rate lease)) w w') :
  let cfg := config max rate lease in
  let held p := count p (ad_meta (wo_state w')) in
  dom (ad_leases (wo_state w')) = dom (ad_meta (wo_state w')) ∧
  ad_live (wo_state w') = held Live ∧ ad_bulk (wo_state w') = held Bulk ∧
  held Live + held Bulk ≤ cf_max cfg ≤ 5 ∧ held Bulk ≤ cf_bulk cfg ≤ 3 ∧
  (wo_granted w' - wo_granted w) * 1000000
    ≤ cf_rate cfg * 1000 + cf_rate cfg * (wo_clock w' - wo_clock w).
Proof.
  pose proof (config_sound max rate lease) as Hcfg.
  destruct (adm_steps_sound _ _ _ Hcfg Hw (sound_none _ clock Hcfg)) as (_ & Hs & _).
  destruct (adm_steps_sound _ _ _ Hcfg Hw' Hs) as (_ & Hs' & Hrate).
  pose proof (refill_bounds _ _ _ Hcfg Hs). pose proof (refill_bounds _ _ _ Hcfg Hs').
  pose proof (count_total (ad_meta (wo_state w'))).
  destruct Hs'. unfold capacity, TOKEN in *.
  assert (cf_max (config max rate lease) ≤ 5 ∧ cf_bulk (config max rate lease) ≤ 3) as [? ?]
    by (cbn; unfold BULK_MAX_INFLIGHT, MAX_INFLIGHT; destruct max; cbn; lia).
  cbn zeta. split_and!; first [done|lia].
Qed.

(** ** The acquire loop ends *)

Lemma refill_grows cfg clock now s :
  sound_config cfg → sound cfg clock s → clock ≤ now →
  refill cfg now s = Z.min (capacity cfg) (refill cfg clock s + (now - clock) * cf_rate cfg).
Proof.
  intros [_ Hrate _] [] Hnow. unfold refill. fold (capacity cfg).
  destruct (ad_lastRefillMs s) as [t|] eqn:Et; cbn.
  - specialize (so_refill0 t eq_refl).
    replace (Z.max 0 (now - t)) with (Z.max 0 (clock - t) + (now - clock)) by lia.
    rewrite Z.mul_add_distr_r. nia.
  - destruct (ad_tokens s); [done|]. rewrite !Z.sub_diag. cbn. nia.
Qed.

Lemma expire_leases_leases cfg clock now s token e :
  sound cfg clock s → ad_leases (expire_leases now s) !! token = Some e → ad_leases s !! token = Some e.
Proof.
  intros []. unfold expire_leases. cbn.
  destruct (expire_tokens_spec (expired_tokens now s) s) as (_ & _ & -> & _); [done|].
  by intros [? _]%map_lookup_filter_Some.
Qed.

(** With every lease expired, no lane is full. *)
Lemma all_expired cfg clock now s :
  sound cfg clock s → clock ≤ now → (∀ token e, ad_leases s !! token = Some e → e ≤ now) →
  ad_inflight (expire_leases now s) = 0 ∧ ad_bulk (expire_leases now s) = 0.
Proof.
  intros Hs Hnow Hall. destruct (expire_leases_sound cfg clock now s Hs Hnow) as (Hs1 & _ & Hk & _).
  assert (ad_meta (expire_leases now s) = ∅) as Hm.
  { apply map_empty. intros token. destruct (Hk token) as [?|(e & He & ?)]; [done|].
    specialize (Hall _ _ He). lia. }
  destruct Hs1. rewrite so_inflight0, so_bulk0, Hm. done.
Qed.

(** One refused attempt: the next one is nearer to the last expiry, or has a token to take. *)
Lemma refused_attempt cfg priority token clock now s s' reason ms :
  sound_config cfg → sound cfg clock s → clock ≤ now → ad_meta s !! token = None →
  ACQUIRE_SCRIPT cfg priority token now s = (s', Wait reason ms) →
  let next := now + retry_pause ms in
  sound cfg now s' ∧ ad_meta s' !! token = None ∧
  (∀ k e, ad_leases s' !! k = Some e → ad_leases s !! k = Some e) ∧
  ((next = now + 100 ∧ ∃ k e, ad_leases s !! k = Some e ∧ now < e) ∨
   (refill cfg now s < TOKEN ∧ TOKEN ≤ refill cfg next s' ∧ next ≤ now + 1000)) ∧
  refill cfg now s ≤ refill cfg next s'.
Proof.
  intros Hcfg Hs Hnow Hf Hacq next.
  pose proof (acquire_spec cfg priority token clock now s Hcfg Hs Hnow Hf) as Hsp. rewrite Hacq in Hsp.
  destruct Hsp as (Hs' & Hr & Hmeta & Hleases & Hwhy).
  destruct (expire_leases_sound cfg clock now s Hs Hnow) as (_ & _ & _ & Hfresh & _).
  assert (now ≤ next) by (unfold next, retry_pause; lia).
  pose proof (refill_grows cfg now next s' Hcfg Hs' ltac:(done)) as Hgrow. rewrite Hr in Hgrow.
  pose proof (refill_bounds cfg now s' Hcfg Hs') as Hbd. rewrite Hr in Hbd.
  assert (0 ≤ (next - now) * cf_rate cfg) by (destruct Hcfg; nia).
  split_and!; [done|rewrite Hmeta; by apply Hfresh| | |lia].
  { intros k e. rewrite Hleases. by eapply expire_leases_leases. }
  destruct Hwhy as [(_ & -> & Hfull)|(_ & Hlow & ->)].
  - left. split; [done|].
    destruct (decide (map_Forall (λ _ e, e ≤ now) (ad_leases s))) as [Hall|Hall].
    + destruct (all_expired cfg clock now s Hs Hnow Hall) as [-> ->] in Hfull. destruct Hcfg; lia.
    + apply map_not_Forall in Hall as (k & e & Hk & He); [|solve_decision]. exists k, e. split; [done|lia].
  - right. destruct Hcfg as [_ Hrate _]. unfold TOKEN in *. unfold next, retry_pause in *.
    set (ms := (1000000 - refill cfg now s + cf_rate cfg - 1) / cf_rate cfg) in *.
    assert (1000000 - refill cfg now s ≤ ms * cf_rate cfg < 1000000 - refill cfg now s + cf_rate cfg) as Hms.
    { unfold ms. pose proof (Z.mul_div_le (1000000 - refill cfg now s + cf_rate cfg - 1) (cf_rate cfg)).
      pose proof (Z.mul_succ_div_gt (1000000 - refill cfg now s + cf_rate cfg - 1) (cf_rate cfg)). nia. }
    assert (ms ≤ 1000) by nia. rewrite Z.min_r in * by done. unfold capacity in *.
    split_and!; [done| |lia]. rewrite Hgrow. apply Z.min_glb; [lia|].
    assert (ms * cf_rate cfg ≤ (now + Z.max 10 ms - now) * cf_rate cfg) by nia. lia.
Qed.

Lemma acquire_granted cfg priority token now s s' t :
  ACQUIRE_SCRIPT cfg priority token now s = (s', Granted t) → ad_meta s' !! token = Some priority.
Proof.
  unfold ACQUIRE_SCRIPT. destruct (recover_limit _ _ _) as [s2 l]. repeat (case_match; [done|]).
  intros [= <- <-]. unfold grant. cbn. destruct priority; cbn; apply lookup_insert_eq.
Qed.

Lemma acquire_loop cfg priority token latest fuel :
  sound_config cfg → ∀ (low : bool) k now s,
  sound cfg now s → ad_meta s !! token = None →
  (∀ t e, ad_leases s !! t = Some e → e ≤ latest) →
  latest ≤ now + 100 * Z.of_nat k → (low = false → TOKEN ≤ refill cfg now s) →
  (k + (if low then 1 else 0) < fuel)%nat →
  ∃ s' time, distributedAcquire fuel cfg priority token now s = Some (s', time) ∧
    time ≤ now + 100 * Z.of_nat k + (if low then 1000 else 0) ∧
    ad_meta s' !! token = Some priority.
Proof.
  intros Hcfg. induction fuel as [|fuel IH]; intros low k now s Hs Hf Hle Hk Hlow Hfuel; [lia|].
  cbn [distributedAcquire].
  destruct (ACQUIRE_SCRIPT cfg priority token now s) as [s' [reason ms|t]] eqn:Hacq.
  2: { pose proof (acquire_granted cfg priority token now s s' t Hacq).
       exists s', now. split_and!; [done|destruct low; lia|done]. }
  destruct (refused_attempt _ _ _ now now _ _ _ _ Hcfg Hs ltac:(lia) Hf Hacq)
    as (Hs' & Hf' & Hle' & Hwhy & Hr).
  set (next := now + retry_pause ms) in *.
  assert (now ≤ next) by (unfold next, retry_pause; lia).
  assert (∀ t e, ad_leases s' !! t = Some e → e ≤ latest) by (intros; by eapply Hle, Hle').
  pose proof (sound_later _ _ next _ Hs' ltac:(done)) as Hs''.
  destruct Hwhy as [[Hnext (t & e & He & Hlt)]|(Hlo & Hhi & Hnext)].
  - specialize (Hle _ _ He). destruct k as [|k]; [lia|].
    destruct (IH low k next s') as (s2 & time & ? & ? & ?); [done..|lia| |lia|].
    + intros ->. specialize (Hlow eq_refl). lia.
    + exists s2, time. split_and!; [done|lia|done].
  - destruct low; [|specialize (Hlow eq_refl); lia].
    destruct (IH false k next s') as (s2 & time & ? & ? & ?); [done..|lia|done|lia|].
    exists s2, time. split_and!; [done|lia|done].
Qed.

(** A request that competes with no other is admitted in bounded time, even when every lease was
    leaked by a dead process and the bucket is empty: the loop ends after at most one attempt per
    100 ms of lease time and three more, within the lease time and 1.1 seconds, and then holds a
    lease of its lane. *)
Theorem acquire_terminates (max rate lease : option Z) (clock now : Z) (w : World)
    (priority : FplRequestPriority) (token : jsstr) (fuel : nat)
    (Hw : rtc (adm_step (config max rate lease)) (mkWorld clock no_admission 0) w)
    (Hnow : wo_clock w ≤ now) (Hfresh : ad_meta (wo_state w) !! token = None)
    (Hfuel : LEASE_MS lease / 100 + 3 ≤ Z.of_nat fuel) :
  ∃ s' time,
    distributedAcquire fuel (config max rate lease) priority token now (wo_state w) = Some (s', time) ∧
    time ≤ now + LEASE_MS lease + 1100 ∧ ad_meta s' !! token = Some priority.
Proof.
  pose proof (config_sound max rate lease) as Hcfg.
  destruct (adm_steps_sound _ _ _ Hcfg Hw (sound_none _ clock Hcfg)) as (_ & Hs & _).
  pose proof (so_expiry _ _ _ Hs) as Hexp. cbn [cf_lease config] in Hexp.
  assert (0 < LEASE_MS lease) by (unfold LEASE_MS; lia).
  destruct (acquire_loop (config max rate lease) priority token (wo_clock w + LEASE_MS lease) fuel Hcfg
    true (Z.to_nat (LEASE_MS lease / 100 + 1)) now (wo_state w)) as (s' & time & H1 & H2 & H3);
    [by eapply sound_later|done|done|divlia|done|divlia|].
  exists s', time. split_and!; [done|divlia|done].
Qed.

(** An attempt that the system allows, or nothing. *)
Definition attempt (w : World) (request : FplRequestPriority * jsstr * Z) : World :=
  let '(priority, token, now) := request in
  if (wo_clock w <=? now) && is_null (ad_meta (wo_state w) !! token) then
    let '(s, answer) := ACQUIRE_SCRIPT (config None None None) priority token now (wo_state w) in
    mkWorld now s (wo_granted w + granted answer)
  else w.

Lemma attempts_reachable requests w :
  rtc (adm_step (config None None None)) w (fold_left attempt requests w).
Proof.
  revert w. induction requests as [|[[priority token] now] requests IH]; intros w; [apply rtc_refl|].
  cbn [fold_left]. transitivity (attempt w (priority, token, now)); [|apply IH].
  unfold attempt. destruct (_ && _) eqn:Hok; [|apply rtc_refl]. boolsolve.
  destruct (ACQUIRE_SCRIPT _ _ _ _ _) as [s answer] eqn:Ha. apply rtc_once.
  eapply adm_acquire; [done| |done]. by destruct (ad_meta (wo_state w) !! token).
Qed.

(** A burst: the bucket empties after four grants, the bulk lane after three. *)
Definition sample_burst : World :=
  fold_left attempt
    [(Bulk, js "a", 0); (Bulk, js "b", 1); (Bulk, js "c", 2); (Bulk, js "d", 3); (Live, js "e", 4)]
    (mkWorld 0 no_admission 0).

Lemma sample_burst_reachable :
  rtc (adm_step (config None None None)) (mkWorld 0 no_admission 0) sample_burst.
Proof. apply attempts_reachable. Qed.

Lemma admission_bounded_witness :
  ad_bulk (wo_state sample_burst) = count Bulk (ad_meta (wo_state sample_burst)) ∧
  ad_bulk (wo_state sample_burst) = 3 ∧ wo_granted sample_burst = 4.
Proof.
  split; [|vm_compute; split; reflexivity].
  apply (admission_bounded None None None 0 sample_burst sample_burst sample_burst_reachable (rtc_refl _ _)).
Defined.

Lemma acquire_terminates_witness :
  ∃ s' time,
    distributedAcquire 453 (config None None None) Bulk (js "z") 5 (wo_state sample_burst) = Some (s', time) ∧
    time ≤ 46105 ∧ ad_meta s' !! js "z" = Some Bulk.
Proof.
  destruct (acquire_terminates None None None 0 5 sample_burst Bulk (js "z") 453 sample_burst_reachable)
    as (s' & time & H1 & H2 & H3);
    [vm_compute; discriminate|vm_compute; reflexivity|vm_compute; discriminate|].
  exists s', time. split; [exact H1|]. split; [exact H2|exact H3].
Defined.

(** ** The drain of the local scheduler *)

Lemma select_waiter_lookup waiters :
  waiters ≠ [] → ∃ w, waiters !! select_waiter waiters = Some w ∧
    (w.1 = Bulk → ∀ w', w' ∈ waiters → w'.1 = Bulk).
Proof.
  intros Hne. unfold select_waiter. destruct (list_find _ waiters) as [[i w]|] eqn:Hf.
  - apply list_find_Some in Hf as (Hi & Hw & _). exists w. split; [done|]. by rewrite Hw.
  - destruct waiters as [|w waiters]; [done|]. exists w. split; [done|]. intros _ w' Hw'.
    apply list_find_None in Hf. rewrite Forall_forall in Hf. specialize (Hf w' Hw'). by destruct (w'.1).
Qed.

(** The loop ends with as much fuel as there are waiters, starts waiters only while there is room,
    and stops when nobody waits or the next one cannot start. *)
Lemma localDrain_spec max fuel s :
  (length (lo_waiters s) < fuel)%nat → lo_inflight s ≤ max →
  ∃ s' started, localDrain fuel max s = Some (s', started) ∧
    lo_inflight s' = lo_inflight s + Z.of_nat (length started) ∧ lo_inflight s' ≤ max ∧
    (lo_waiters s).*2 ≡ₚ started ++ (lo_waiters s').*2 ∧
    (lo_waiters s' = [] ∨ ∃ w, lo_waiters s' !! select_waiter (lo_waiters s') = Some w ∧
                                localCanStart max w.1 s' = false).
Proof.
  revert s. induction fuel as [|fuel IH]; intros s Hfuel Hmax; [lia|]. cbn [localDrain].
  destruct (decide (lo_waiters s = [])) as [Hnil|Hne].
  { rewrite Hnil, lookup_nil. exists s, []. rewrite Hnil. split_and!; [done|cbn; lia|done|done|by left]. }
  destruct (select_waiter_lookup _ Hne) as ([priority ticket] & Hw & _). rewrite Hw.
  destruct (localCanStart max priority s) eqn:Hcan; cbn [negb].
  2: { exists s, []. split_and!; [done|cbn; lia|done|done|]. right. eexists. by split. }
  set (s1 := start_one priority (set_waiters s (delete (select_waiter (lo_waiters s)) (lo_waiters s)))).
  assert (lo_waiters s1 = delete (select_waiter (lo_waiters s)) (lo_waiters s)) as Hw1 by by destruct priority.
  assert (lo_inflight s1 = lo_inflight s + 1) as Hi1 by by destruct priority.
  assert (lo_inflight s < max) as Hroom by (unfold localCanStart in Hcan; case_match; boolsolve; [done|lia]).
  pose proof (delete_Permutation _ _ _ Hw) as Hperm.
  destruct (IH s1) as (s' & started & -> & H1 & H2 & H3 & H4); [|lia|].
  { rewrite Hw1. apply Permutation_length in Hperm. cbn in Hperm. lia. }
  exists s', (ticket :: started). cbn. split_and!; [done|lia|done| |done].
  rewrite Hperm. cbn. by rewrite <-H3, Hw1.
Qed.
