(* ===== verification/Conditions.v ===== *)
(** * Match-day conditions ([src/utils/conditions.ts])

    When a job may run: inside the season, on a match day, around a match, in the selection window.
    Instants are epoch milliseconds; a UTC day is its number.  A deadline is [None] when it is null
    or its text is not a date.  The cached season window is explicit state. *)

From S2P Require Import Prelude JsCollections.

(** src: src/utils/conditions.ts:12-12 MATCH_WINDOW_MS *)
Definition MATCH_WINDOW_MS : Z := 2 * 60 * 60 * 1000.
(** src: src/utils/conditions.ts:13-13 MATCH_PREWARM_MS *)
Definition MATCH_PREWARM_MS : Z := 5 * 60 * 1000.
(** src: src/utils/conditions.ts:14-14 FINISH_FLAG_GRACE_MS *)
Definition FINISH_FLAG_GRACE_MS : Z := 6 * 60 * 60 * 1000.
(** src: src/utils/conditions.ts:15-15 SEASON_WINDOW_CACHE_TTL_MS *)
Definition SEASON_WINDOW_CACHE_TTL_MS : Z := 10 * 60 * 1000.

(** What the conditions and the lifecycle read of a fixture.
    src: src/types/index.ts:99-119 Fixture *)
Record Fixture := mkFixture {
  fx_kickoffTime : option Z;
  fx_started : option bool;
  fx_finished : bool;
  fx_finishedProvisional : bool;
}.

(** src: src/domain/events.ts:7-20 EventSchema *)
Record Event := mkEvent {
  ev_deadlineTime : option Z;
  ev_finished : bool;
  ev_dataChecked : bool;
}.

Definition DAY_MS : Z := 86400000.

(** [Math.min(...xs)] and [Math.max(...xs)] of a non-empty list. *)
Definition min_of (x : Z) (xs : list Z) : Z := fold_left Z.min xs x.
Definition max_of (x : Z) (xs : list Z) : Z := fold_left Z.max xs x.

(** src: src/utils/conditions.ts:28-30 toUtcDayStartMs *)
Definition toUtcDayStartMs (date : Z) : Z := date / DAY_MS * DAY_MS.
(** src: src/utils/conditions.ts:32-34 toUtcDayEndMs *)
Definition toUtcDayEndMs (date : Z) : Z := date / DAY_MS * DAY_MS + (DAY_MS - 1).

(** The day [toISOString().slice(0, 10)] names.
    src: src/utils/conditions.ts:103-105 toUtcDateString *)
Definition toUtcDateString (date : Z) : Z := date / DAY_MS.

(** src: src/utils/conditions.ts:36-40 extractKickoffs *)
Definition extractKickoffs (fixtures : list Fixture) : list Z := omap fx_kickoffTime fixtures.

(** ** Season window *)

(** src: src/utils/conditions.ts:17-22 SeasonWindow *)
Record SeasonWindow := mkWindow {
  sw_seasonId : Z;
  sw_startDayMs : Z;
  sw_endDayMs : Z;
  sw_loadedAtMs : Z;
}.

(** The module's cached window, and the time and season of a cached absence.
    src: src/utils/conditions.ts:24-26 cachedSeasonWindow *)
Record SeasonCache := mkCache {
  sc_window : option SeasonWindow;
  sc_nullAtMs : option Z;
  sc_nullSeasonId : option Z;
}.

(** The window the database gives, and the cache it leaves; [gw1] and [gw38] are the fixtures of the
    first and the last gameweek.
    src: src/utils/conditions.ts:59-86 loadSeasonWindow *)
Definition load_window (gw1 gw38 : list Fixture) (seasonId now : Z)
    : SeasonCache * option SeasonWindow :=
  match extractKickoffs gw1, extractKickoffs gw38 with
  | k1 :: kickoffs1, k38 :: kickoffs38 =>
      let resolved :=
        {| sw_seasonId := seasonId;
           sw_startDayMs := toUtcDayStartMs (min_of k1 kickoffs1);
           sw_endDayMs := toUtcDayEndMs (max_of k38 kickoffs38);
           sw_loadedAtMs := now |} in
      (mkCache (Some resolved) None None, Some resolved)
  | _, _ => (mkCache None (Some now) (Some seasonId), None)
  end.

(** src: src/utils/conditions.ts:42-87 loadSeasonWindow *)
Definition loadSeasonWindow (gw1 gw38 : list Fixture) (seasonId now : Z) (cache : SeasonCache)
    : SeasonCache * option SeasonWindow :=
  let absent :=
    match sc_nullAtMs cache with
    | Some at_ => bool_decide (sc_nullSeasonId cache = Some seasonId) &&
                  (now - at_ <? SEASON_WINDOW_CACHE_TTL_MS)
    | None => false
    end in
  let fresh :=
    match sc_window cache with
    | Some w => (sw_seasonId w =? seasonId) && (now - sw_loadedAtMs w <? SEASON_WINDOW_CACHE_TTL_MS)
    | None => false
    end in
  if fresh then (cache, sc_window cache)
  else if absent then (cache, None)
  else load_window gw1 gw38 seasonId now.

(** src: src/utils/conditions.ts:93-101 isFPLSeason *)
Definition isFPLSeason (gw1 gw38 : list Fixture) (seasonId date : Z) (cache : SeasonCache)
    : SeasonCache * bool :=
  let '(cache, window) := loadSeasonWindow gw1 gw38 seasonId date cache in
  (cache, match window with
          | Some w => (sw_startDayMs w <=? date) && (date <=? sw_endDayMs w)
          | None => false
          end).

(** ** Match windows *)

(** The end of the last match and the days that have a match.
    src: src/utils/conditions.ts:107-122 getMatchWindow *)
Definition getMatchWindow (fixtures : list Fixture) : option (Z * Z) * list Z :=
  match extractKickoffs fixtures with
  | [] => (None, [])
  | k :: kickoffs =>
      (Some (min_of k kickoffs, max_of k kickoffs + MATCH_WINDOW_MS),
       toUtcDateString <$> k :: kickoffs)
  end.

(** src: src/utils/conditions.ts:139-150 isMatchDay *)
Definition isMatchDay (event : Event) (fixtures : list Fixture) (date : Z) : bool :=
  if ev_finished event then false
  else bool_decide (toUtcDateString date ∈ (getMatchWindow fixtures).2).

(** src: src/utils/conditions.ts:152-163 isAfterMatchDay *)
Definition isAfterMatchDay (event : Event) (fixtures : list Fixture) (date : Z) : bool :=
  if ev_finished event then true
  else match (getMatchWindow fixtures).1 with Some (_, last) => last <? date | None => false end.

(** src: src/utils/conditions.ts:124-137 getMatchIntervals *)
Definition getMatchIntervals (fixtures : list Fixture) : list (Fixture * Z * Z * Z) :=
  omap (λ fixture,
    match fx_kickoffTime fixture with
    | Some kickoff => Some (fixture, kickoff - MATCH_PREWARM_MS, kickoff + MATCH_WINDOW_MS,
                            kickoff + FINISH_FLAG_GRACE_MS)
    | None => None
    end) fixtures.

(** src: src/utils/conditions.ts:165-188 isMatchDayTime *)
Definition isMatchDayTime (event : Event) (fixtures : list Fixture) (now : Z) : bool :=
  if ev_finished event then false else
  existsb (λ '(fixture, startMs, endMs, hardEndMs),
    if (startMs <=? now) && (now <=? endMs) then true else
    let startedButUnfinished :=
      bool_decide (fx_started fixture = Some true) && negb (fx_finished fixture) in
    startedButUnfinished && (now <=? hardEndMs)) (getMatchIntervals fixtures).

(** src: src/utils/conditions.ts:190-211 isSelectTime *)
Definition isSelectTime (event : Event) (fixtures : list Fixture) (now : Z) : bool :=
  if negb (isMatchDay event fixtures now) then false else
  match ev_deadlineTime event with
  | None => false
  | Some deadlineMs =>
      let windowStart := deadlineMs + 30 * 60 * 1000 in
      let windowEnd := deadlineMs + 90 * 60 * 1000 in
      (windowStart <=? now) && (now <=? windowEnd)
  end.

(** ** Facts *)

Lemma max_of_spec x xs : (∀ y, y ∈ x :: xs → y ≤ max_of x xs) ∧ max_of x xs ∈ x :: xs.
Proof.
  unfold max_of. revert x. induction xs as [|z xs IH]; intros x; cbn.
  { split; [by intros y ->%list_elem_of_singleton|by left]. }
  destruct (IH (x `max` z)) as [H1 H2]. split.
  - intros y Hy. assert (y ≤ x `max` z ∨ y ∈ xs) as [?|?].
    { apply elem_of_cons in Hy as [->|Hy]; [left; lia|].
      apply elem_of_cons in Hy as [->|Hy]; [left; lia|by right]. }
    + specialize (H1 (x `max` z) ltac:(left)). lia.
    + by apply H1; right.
  - apply elem_of_cons in H2 as [H2|H2]; [|by do 2 right].
    rewrite H2. destruct (Z.max_spec x z) as [[_ ->]|[_ ->]]; [right; left|left].
Qed.

Lemma min_of_spec x xs : (∀ y, y ∈ x :: xs → min_of x xs ≤ y) ∧ min_of x xs ∈ x :: xs.
Proof.
  unfold min_of. revert x. induction xs as [|z xs IH]; intros x; cbn.
  { split; [by intros y ->%list_elem_of_singleton|by left]. }
  destruct (IH (x `min` z)) as [H1 H2]. split.
  - intros y Hy. assert (x `min` z ≤ y ∨ y ∈ xs) as [?|?].
    { apply elem_of_cons in Hy as [->|Hy]; [left; lia|].
      apply elem_of_cons in Hy as [->|Hy]; [left; lia|by right]. }
    + specialize (H1 (x `min` z) ltac:(left)). lia.
    + by apply H1; right.
  - apply elem_of_cons in H2 as [H2|H2]; [|by do 2 right].
    rewrite H2. destruct (Z.min_spec x z) as [[_ ->]|[_ ->]]; [left|right; left].
Qed.

Lemma elem_of_kickoffs fixtures k :
  k ∈ extractKickoffs fixtures ↔ ∃ f, f ∈ fixtures ∧ fx_kickoffTime f = Some k.
Proof. unfold extractKickoffs. by rewrite list_elem_of_omap. Qed.

(** Match time is near a kickoff: never before five minutes ahead of the first one, never after six
    hours past the last one, and always in the two hours after one. *)
Lemma isMatchDayTime_spec event fixtures now :
  isMatchDayTime event fixtures now = true ↔
  ev_finished event = false ∧ ∃ f k, f ∈ fixtures ∧ fx_kickoffTime f = Some k ∧
    (k - MATCH_PREWARM_MS ≤ now ≤ k + MATCH_WINDOW_MS ∨
     fx_started f = Some true ∧ fx_finished f = false ∧ now ≤ k + FINISH_FLAG_GRACE_MS).
Proof.
  unfold isMatchDayTime. destruct (ev_finished event); [naive_solver|].
  rewrite existsb_exists. split.
  - intros ([[[f a] b] c] & Hin & Hb). apply list_elem_of_In, list_elem_of_omap in Hin as (f' & Hf & Hk).
    destruct (fx_kickoffTime f') as [k|] eqn:Ek; [|done]. simplify_eq. split; [done|].
    exists f, k. split_and!; [done..|]. case_match eqn:Hw; boolsolve; [by left|right; split_and!; done].
  - intros (_ & f & k & Hf & Hk & Hcase).
    exists (f, k - MATCH_PREWARM_MS, k + MATCH_WINDOW_MS, k + FINISH_FLAG_GRACE_MS). split.
    + apply list_elem_of_In, list_elem_of_omap. exists f. by rewrite Hk.
    + case_match eqn:Hw; [done|]. destruct Hcase as [[H1 H2]|(-> & -> & H)].
      * apply Z.leb_le in H1, H2. by rewrite H1, H2 in Hw.
      * rewrite bool_decide_eq_true_2 by done. cbn. by apply Z.leb_le.
Qed.

(** A window that comes out of the cache was loaded for the same season less than ten minutes
    before; any other answer reads the database. *)
Lemma loadSeasonWindow_fresh gw1 gw38 seasonId now cache :
  let '(cache', window) := loadSeasonWindow gw1 gw38 seasonId now cache in
  (cache' = cache ∧
     match window with
     | Some w => sc_window cache = Some w ∧ sw_seasonId w = seasonId ∧
                 now < sw_loadedAtMs w + SEASON_WINDOW_CACHE_TTL_MS
     | None => sc_nullSeasonId cache = Some seasonId ∧
               ∃ t, sc_nullAtMs cache = Some t ∧ now < t + SEASON_WINDOW_CACHE_TTL_MS
     end) ∨
  (cache', window) = load_window gw1 gw38 seasonId now.
Proof.
  unfold loadSeasonWindow. destruct (match sc_window cache with Some _ => _ | None => false end) eqn:Hw.
  { left. destruct (sc_window cache) as [w|]; [|done]. boolsolve. split_and!; [done..|lia]. }
  destruct (match sc_nullAtMs cache with Some _ => _ | None => false end) eqn:Ha;
    [|destruct (load_window _ _ _ _); by right].
  left. destruct (sc_nullAtMs cache) as [t|]; [|done]. boolsolve. split_and!; [done..|].
  exists t. split; [done|lia].
Qed.
