(* ===== verification/LiveLifecycle.v ===== *)
(** * Live lifecycle ([src/services/live-lifecycle-orchestrator.ts])

    The state of the current gameweek, decided at every tick from the event, its fixtures and what
    the live publication shows, the row and the quiet clock a tick leaves, what it enqueues and when
    the next one runs.  The probing of picks is in [PicksProbe.v].

    The numbers of the environment are a record of whole milliseconds.  The hour in London, which
    the code takes from the time zone database of the runtime, is a parameter. *)

From S2P Require Import Prelude JsCollections Conditions.

(** src: src/services/live-lifecycle-orchestrator.ts:30-55 LIVE_POLL_MS *)
Record LifecycleConfig := mkLifecycleConfig {
  LIVE_POLL_MS : Z;
  PICKS_FIRST_PROBE_OFFSET_MS : Z;
  BETWEEN_FIXTURES_POLL_MS : Z;
  DAY_SETTLING_INITIAL_POLL_MS : Z;
  DAY_SETTLING_STABLE_POLL_MS : Z;
  DAY_SETTLING_STABLE_AFTER_MS : Z;
  PICKS_PROBE_POLL_MS : Z;
  PRE_DEADLINE_POLL_MS : Z;
  GW_REVIEW_POLL_MS : Z;
  GW_REVIEW_FINALIZATION_POLL_MS : Z;
  FINALIZED_POLL_MS : Z;
}.

Definition default_config : LifecycleConfig :=
  mkLifecycleConfig 30000 (60 * 60000) (5 * 60000) 60000 (5 * 60000) (10 * 60000) 120000
    (5 * 60000) (10 * 60000) (2 * 60000) (5 * 60000).

(** src: src/services/live-lifecycle-orchestrator.ts:57-66 LiveLifecycleState *)
Inductive LiveLifecycleState :=
| PRE_DEADLINE | PICKS_WAIT | PICKS_PROBE | PICKS_SYNC | LIVE_ACTIVE | BETWEEN_FIXTURES
| DAY_SETTLING | GW_REVIEW | FINALIZED.

#[export] Instance lifecycle_state_eq_dec : EqDecision LiveLifecycleState.
Proof. solve_decision. Defined.

(** src: src/services/live-lifecycle-orchestrator.ts:68-76 LiveLifecycleDecision *)
Record LiveLifecycleDecision := mkDecision {
  ld_state : LiveLifecycleState;
  ld_shouldFetchLive : bool;
  ld_shouldProbePicks : bool;
  ld_shouldSyncPicks : bool;
  ld_recoverStaleFixtures : bool;
  ld_finalizeEvent : bool;
  ld_nextRetryAt : option Z;
}.

(** src: src/services/live-lifecycle-orchestrator.ts:78-88 LiveLifecycleObservation *)
Record LiveLifecycleObservation := mkObservation {
  lo_lastRevision : option Z;
  lo_unchangedSince : option Z;
  lo_matchDayTime : option bool;
  lo_publicationActive : option bool;
  lo_publicationStarted : option bool;
}.

(** ** Decision *)

(** src: src/services/live-lifecycle-orchestrator.ts:101-106 firstKickoff *)
Definition firstKickoff (fixtures : list Fixture) : option Z :=
  match extractKickoffs fixtures with [] => None | k :: ks => Some (min_of k ks) end.

(** src: src/services/live-lifecycle-orchestrator.ts:108-113 lastKickoff *)
Definition lastKickoff (fixtures : list Fixture) : option Z :=
  match extractKickoffs fixtures with [] => None | k :: ks => Some (max_of k ks) end.

Definition is_true (b : option bool) : bool := bool_decide (b = Some true).

Lemma is_true_Some b : is_true (Some b) = b.
Proof. by destruct b. Qed.

(** [fixture.finished || fixture.finishedProvisional] *)
Definition over (fixture : Fixture) : bool := fx_finished fixture || fx_finishedProvisional fixture.

(** src: src/services/live-lifecycle-orchestrator.ts:128-130 decideLiveLifecycle *)
Definition all_finished (fixtures : list Fixture) : bool :=
  negb (is_nil fixtures) && forallb over fixtures.

(** src: src/services/live-lifecycle-orchestrator.ts:131-133 decideLiveLifecycle *)
Definition core_active (fixtures : list Fixture) : bool :=
  existsb (λ f, is_true (fx_started f) && negb (fx_finished f) && negb (fx_finishedProvisional f)) fixtures.

(** src: src/services/live-lifecycle-orchestrator.ts:141-142 decideLiveLifecycle *)
Definition any_started (fixtures : list Fixture) (observation : LiveLifecycleObservation) : bool :=
  existsb (λ f, is_true (fx_started f)) fixtures || is_true (lo_publicationStarted observation).

(** src: src/services/live-lifecycle-orchestrator.ts:143-149 decideLiveLifecycle *)
Definition future_fixtures (fixtures : list Fixture) (nowMs : Z) : bool :=
  existsb (λ f, negb (fx_finished f) && negb (fx_finishedProvisional f) && negb (is_true (fx_started f)) &&
                match fx_kickoffTime f with Some k => nowMs <? k | None => true end) fixtures.

Definition decision (state : LiveLifecycleState) (fetch probe sync finalize : bool)
    (nextRetryAt : option Z) : LiveLifecycleDecision :=
  mkDecision state fetch probe sync false finalize nextRetryAt.

(** src: src/services/live-lifecycle-orchestrator.ts:115-272 decideLiveLifecycle *)
Definition decideLiveLifecycle (cfg : LifecycleConfig) (event : Event) (fixtures : list Fixture)
    (nowMs : Z) (observation : LiveLifecycleObservation) : LiveLifecycleDecision :=
  let deadlineMs := ev_deadlineTime event in
  let firstKickoffMs := firstKickoff fixtures in
  let lastKickoffMs := lastKickoff fixtures in
  let allFinished := all_finished fixtures in
  let activeEvidence := core_active fixtures || is_true (lo_publicationActive observation) in
  let active := activeEvidence && negb (bool_decide (lo_matchDayTime observation = Some false)) in
  let anyStarted := any_started fixtures observation in
  let futureFixtures := future_fixtures fixtures nowMs in
  if ev_finished event && ev_dataChecked event && allFinished then
    decision FINALIZED true false false true None
  else if allFinished && negb (is_null lastKickoffMs) then
    let afterLast := nowMs - nullish lastKickoffMs 0 in
    decision GW_REVIEW (afterLast <? 24 * 60 * 60000) false false false None
  else if active then decision LIVE_ACTIVE true false true false None
  else if anyStarted then
    let quietFor := if truthy (lo_unchangedSince observation)
                    then nowMs - nullish (lo_unchangedSince observation) 0 else 0 in
    if futureFixtures && (DAY_SETTLING_STABLE_AFTER_MS cfg <=? quietFor)
    then decision BETWEEN_FIXTURES true false false false None
    else decision DAY_SETTLING true false true false None
  else if match deadlineMs with Some d => nowMs <? d | None => false end then
    decision PRE_DEADLINE false false false false None
  else if match deadlineMs with Some d => nowMs <? d + PICKS_FIRST_PROBE_OFFSET_MS cfg | None => false end then
    decision PICKS_WAIT false false false false
      ((λ d, d + PICKS_FIRST_PROBE_OFFSET_MS cfg) <$> deadlineMs)
  else if match firstKickoffMs with Some k => nowMs <? k | None => false end then
    decision PICKS_PROBE false true false false None
  else if match firstKickoffMs with Some k => k <=? nowMs | None => false end then
    decision PICKS_SYNC true true true false None
  else decision PICKS_SYNC false true true false None.

(** ** A tick *)

(** The quiet clock of one gameweek ([daySettlingStates]).
    src: src/services/live-lifecycle-orchestrator.ts:98-98 daySettlingStates *)
Record DaySettling := mkSettling { ds_revision : option Z; ds_unchangedSince : Z }.

(** What a tick reads of the live snapshot cache; a time is [None] when it is absent or no date. *)
Record LiveCache := mkLiveCache {
  lc_revision : Z;
  lc_publicationId : string;
  lc_publishedAt : option Z;
  lc_sourceCheckedAt : option Z;
  lc_lastSuccessfulFetchAt : option Z;
  lc_fixtures : list Fixture;
}.

(** The row of [live_lifecycle_status].
    src: src/services/live-lifecycle-orchestrator.ts:437-447 persistLiveLifecycleStatus *)
Record LifecycleRow := mkLifecycleRow {
  lr_state : LiveLifecycleState;
  lr_observedAt : Z;
  lr_lastChangedAt : Z;
  lr_nextRefreshAt : option Z;
  lr_liveRevision : option Z;
  lr_publicationId : option string;
  lr_sourceCheckedAt : option Z;
}.

(** src: src/services/live-lifecycle-orchestrator.ts:522-555 lifecycleDelay *)
Definition lifecycleDelay (cfg : LifecycleConfig) (ukFinalizationWindow : Z → bool)
    (d : LiveLifecycleDecision) (settling : option DaySettling) (now : Z) : Z :=
  if bool_decide (ld_state d = FINALIZED) then FINALIZED_POLL_MS cfg else
  let retry := nullish (ld_nextRetryAt d) now in
  if now <? retry then Z.max 1000 (retry - now) else
  match ld_state d with
  | LIVE_ACTIVE => LIVE_POLL_MS cfg
  | BETWEEN_FIXTURES => BETWEEN_FIXTURES_POLL_MS cfg
  | DAY_SETTLING =>
      match settling with
      | Some stable =>
          if DAY_SETTLING_STABLE_AFTER_MS cfg <=? now - ds_unchangedSince stable
          then DAY_SETTLING_STABLE_POLL_MS cfg else DAY_SETTLING_INITIAL_POLL_MS cfg
      | None => DAY_SETTLING_INITIAL_POLL_MS cfg
      end
  | GW_REVIEW =>
      if ukFinalizationWindow now then GW_REVIEW_FINALIZATION_POLL_MS cfg else GW_REVIEW_POLL_MS cfg
  | PICKS_PROBE | PICKS_SYNC => PICKS_PROBE_POLL_MS cfg
  | PRE_DEADLINE => PRE_DEADLINE_POLL_MS cfg
  | PICKS_WAIT => PICKS_PROBE_POLL_MS cfg
  | FINALIZED => LIVE_POLL_MS cfg
  end.

(** [totalMinutes] is the minute of the day in London.
    src: src/services/live-lifecycle-orchestrator.ts:509-520 isUkFinalizationWindow *)
Definition isUkFinalizationWindow (totalMinutes : Z → Z) (now : Z) : bool :=
  (8 * 60 + 50 <=? totalMinutes now) && (totalMinutes now <=? 9 * 60 + 15).

(** When the revision is taken to have become quiet, on first sight.
    src: src/services/live-lifecycle-orchestrator.ts:405-413 persistLiveLifecycleStatus *)
Definition initial_unchanged (cache : option LiveCache) (persisted : option LifecycleRow) (now : Z) : Z :=
  match cache ≫= lc_publishedAt with
  | Some publishedAt => Z.min now publishedAt
  | None =>
      match persisted ≫= lr_sourceCheckedAt with
      | Some checked => Z.min now checked
      | None => now
      end
  end.

(** src: src/services/live-lifecycle-orchestrator.ts:414-427 persistLiveLifecycleStatus *)
Definition observe (cache : option LiveCache) (event : Event) (fixtures : list Fixture) (now : Z)
    (settling : DaySettling) : LiveLifecycleObservation :=
  {| lo_lastRevision := lc_revision <$> cache;
     lo_unchangedSince := Some (ds_unchangedSince settling);
     lo_matchDayTime := Some (isMatchDayTime event fixtures now);
     lo_publicationStarted := (λ c, existsb (λ f, is_true (fx_started f)) (lc_fixtures c)) <$> cache;
     lo_publicationActive := (λ c, core_active (lc_fixtures c)) <$> cache |}.

(** A tick: the decision, the clock it leaves and the row it upserts.  A write that fails is only
    logged.
    src: src/services/live-lifecycle-orchestrator.ts:393-456 persistLiveLifecycleStatus *)
Definition persistLiveLifecycleStatus (cfg : LifecycleConfig) (ukFinalizationWindow : Z → bool)
    (event : Event) (fixtures : list Fixture) (cache : option LiveCache)
    (persisted : option LifecycleRow) (now : Z) (previous : option DaySettling)
    : LiveLifecycleDecision * option DaySettling * LifecycleRow :=
  let revision := lc_revision <$> cache in
  let sourceCheckedAt := cache ≫= λ c, nullish_or (lc_lastSuccessfulFetchAt c) (lc_sourceCheckedAt c) in
  let fresh := mkSettling revision (initial_unchanged cache persisted now) in
  let settling :=
    match previous with
    | Some p => if bool_decide (ds_revision p = revision) then p else fresh
    | None => fresh
    end in
  let d := decideLiveLifecycle cfg event fixtures now (observe cache event fixtures now settling) in
  let settling' :=
    if bool_decide (ld_state d ≠ DAY_SETTLING) && bool_decide (ld_state d ≠ BETWEEN_FIXTURES)
    then None else Some settling in
  let delay := lifecycleDelay cfg ukFinalizationWindow d settling' now in
  (d, settling',
   {| lr_state := ld_state d;
      lr_observedAt := now;
      lr_lastChangedAt :=
        match persisted with
        | Some row => if bool_decide (lr_state row = ld_state d) then lr_lastChangedAt row else now
        | None => now
        end;
      lr_nextRefreshAt := Some (now + delay);
      lr_liveRevision := revision;
      lr_publicationId := lc_publicationId <$> cache;
      lr_sourceCheckedAt := sourceCheckedAt |}).

(** What a tick asks of the other services. *)
Inductive TickAction :=
| ProbeAndSyncPicks
| EnqueueActiveSnapshot
| EnqueueSnapshot (persistEventLives finalizeEvent : bool)
| EnqueueOfficialH2H.

(** [finalizedAt] is the stored finalization time of the event.
    src: src/services/live-lifecycle-orchestrator.ts:458-507 runLiveLifecycle *)
Definition runLiveLifecycle (event : Event) (fixtures : list Fixture) (finalizedAt : option Z) (now : Z)
    (d : LiveLifecycleDecision) : list TickAction :=
  (if ld_shouldProbePicks d || ld_shouldSyncPicks d then [ProbeAndSyncPicks] else []) ++
  (if ld_shouldFetchLive d then
     let shouldEnqueueFinalization := if ld_finalizeEvent d then is_null finalizedAt else false in
     (if negb (ld_finalizeEvent d) || shouldEnqueueFinalization then
        let persistContinuously :=
          bool_decide (ld_state d = DAY_SETTLING) || bool_decide (ld_state d = GW_REVIEW) ||
          ld_recoverStaleFixtures d || ld_finalizeEvent d in
        if bool_decide (ld_state d = LIVE_ACTIVE) && negb persistContinuously
        then [EnqueueActiveSnapshot] else [EnqueueSnapshot persistContinuously (ld_finalizeEvent d)]
      else []) ++
     (if isMatchDayTime event fixtures now then [EnqueueOfficialH2H] else [])
   else []).

(** ** The order of the states *)

Definition rank (state : LiveLifecycleState) : Z :=
  match state with
  | PRE_DEADLINE => 0 | PICKS_WAIT => 1 | PICKS_PROBE => 2 | PICKS_SYNC => 3
  | LIVE_ACTIVE | BETWEEN_FIXTURES | DAY_SETTLING => 4 | GW_REVIEW => 5 | FINALIZED => 6
  end.

(** What a gameweek is known to have reached. *)
Record evidence := mkEvidence { et_final : bool; et_over : bool; et_started : bool }.

(** The state is decided by the evidence, and before any by the clock. *)
Definition rank_of (cfg : LifecycleConfig) (event : Event) (fixtures : list Fixture) (nowMs : Z)
    (e : evidence) : Z :=
  if et_final e then 6 else if et_over e then 5 else if et_started e then 4
  else match ev_deadlineTime event with
       | Some d => if nowMs <? d then 0 else if nowMs <? d + PICKS_FIRST_PROBE_OFFSET_MS cfg then 1
                   else match firstKickoff fixtures with Some k => if nowMs <? k then 2 else 3 | None => 3 end
       | None => match firstKickoff fixtures with Some k => if nowMs <? k then 2 else 3 | None => 3 end
       end.

Definition evidence_of (event : Event) (fixtures : list Fixture) (observation : LiveLifecycleObservation)
    : evidence :=
  {| et_final := ev_finished event && ev_dataChecked event && all_finished fixtures;
     et_over := all_finished fixtures && negb (is_null (lastKickoff fixtures));
     et_started := any_started fixtures observation |}.

Lemma core_active_started fixtures :
  core_active fixtures = true → existsb (λ f, is_true (fx_started f)) fixtures = true.
Proof.
  unfold core_active. rewrite !existsb_exists. intros (f & Hf & Ha). exists f. boolsolve. done.
Qed.

Lemma decide_rank cfg event fixtures nowMs observation :
  (is_true (lo_publicationActive observation) = true → is_true (lo_publicationStarted observation) = true) →
  rank (ld_state (decideLiveLifecycle cfg event fixtures nowMs observation)) =
  rank_of cfg event fixtures nowMs (evidence_of event fixtures observation).
Proof.
  intros Hpub. unfold decideLiveLifecycle, rank_of, evidence_of, decision. cbn [et_final et_over et_started].
  destruct (ev_finished event && _ && _); [done|]. destruct (all_finished fixtures && _); [done|].
  assert (∀ b, (core_active fixtures || is_true (lo_publicationActive observation)) && b = true →
    any_started fixtures observation = true) as Hact.
  { intros b H. unfold any_started. apply andb_true_iff in H as [H _]. apply orb_true_iff in H as [H|H].
    - by rewrite core_active_started.
    - by rewrite Hpub, orb_true_r. }
  destruct (_ && negb (bool_decide _)) eqn:Ha; [by rewrite (Hact _ Ha)|].
  destruct (any_started fixtures observation); [by case_match|].
  destruct (ev_deadlineTime event) as [d|], (firstKickoff fixtures) as [k|]; cbn;
    repeat (case_match; try done).
  all: boolsolve; lia.
Qed.

(** A fixture moves on: it keeps its kickoff, and what has started or ended stays so. *)
Record moves_on (f f' : Fixture) : Prop := {
  mo_kickoff : fx_kickoffTime f' = fx_kickoffTime f;
  mo_started : is_true (fx_started f) = true → is_true (fx_started f') = true;
  mo_over : over f = true → over f' = true;
}.

Lemma moves_on_kickoffs fixtures fixtures' :
  Forall2 moves_on fixtures fixtures' → extractKickoffs fixtures' = extractKickoffs fixtures.
Proof.
  unfold extractKickoffs. induction 1 as [|f f' ? ? H _ IH]; [done|]. cbn.
  by rewrite (mo_kickoff _ _ H), IH.
Qed.

Lemma moves_on_existsb (p : Fixture → bool) fixtures fixtures' :
  (∀ f f', moves_on f f' → p f = true → p f' = true) →
  Forall2 moves_on fixtures fixtures' → existsb p fixtures = true → existsb p fixtures' = true.
Proof.
  intros Hp. induction 1 as [|f f' ? ? H _ IH]; [done|]. cbn. rewrite !orb_true_iff.
  intros [?|?]; [left; by eapply Hp|right; by apply IH].
Qed.

Lemma moves_on_all_finished fixtures fixtures' :
  Forall2 moves_on fixtures fixtures' → all_finished fixtures = true → all_finished fixtures' = true.
Proof.
  unfold all_finished. intros HF. rewrite !andb_true_iff. intros [Hn Ha]. split; [by destruct HF|].
  clear Hn. induction HF as [|f f' ? ? H _ IH]; [done|]. cbn in *. rewrite andb_true_iff in *.
  destruct Ha. split; [by apply (mo_over _ _ H)|by apply IH].
Qed.

Lemma rank_of_mono cfg event event' fixtures fixtures' now now' e e' :
  ev_deadlineTime event' = ev_deadlineTime event → extractKickoffs fixtures' = extractKickoffs fixtures →
  now ≤ now' → 0 ≤ PICKS_FIRST_PROBE_OFFSET_MS cfg →
  (et_final e = true → et_final e' = true) → (et_over e = true → et_over e' = true) →
  (et_started e = true → et_started e' = true) →
  rank_of cfg event fixtures now e ≤ rank_of cfg event' fixtures' now' e'.
Proof.
  intros Hd Hk Hnow Hoff H1 H2 H3. unfold rank_of, firstKickoff. rewrite Hd, Hk.
  destruct e as [a b c], e' as [a' b' c']. cbn in *.
  destruct a'; [repeat case_match; lia|]. destruct a; [by specialize (H1 eq_refl)|].
  destruct b'; [repeat case_match; lia|]. destruct b; [by specialize (H2 eq_refl)|].
  destruct c'; [repeat case_match; lia|]. destruct c; [by specialize (H3 eq_refl)|].
  repeat case_match; boolsolve; lia.
Qed.

(** ** Ticks *)

(** The publication shows a started fixture. *)
Definition cache_started (cache : option LiveCache) : bool :=
  match cache with Some c => existsb (λ f, is_true (fx_started f)) (lc_fixtures c) | None => false end.

Lemma tick_decision cfg uk event fixtures cache persisted now previous :
  ∃ settling, (persistLiveLifecycleStatus cfg uk event fixtures cache persisted now previous).1.1 =
    decideLiveLifecycle cfg event fixtures now (observe cache event fixtures now settling).
Proof. by eexists. Qed.

Lemma tick_rank cfg uk event fixtures cache persisted now previous :
  rank (ld_state (persistLiveLifecycleStatus cfg uk event fixtures cache persisted now previous).1.1) =
  rank_of cfg event fixtures now
    {| et_final := ev_finished event && ev_dataChecked event && all_finished fixtures;
       et_over := all_finished fixtures && negb (is_null (lastKickoff fixtures));
       et_started := existsb (λ f, is_true (fx_started f)) fixtures || cache_started cache |}.
Proof.
  destruct (tick_decision cfg uk event fixtures cache persisted now previous) as [settling ->].
  rewrite decide_rank.
  - unfold evidence_of, any_started. do 3 f_equal. by destruct cache as [c|]; cbn; [rewrite is_true_Some|].
  - destruct cache as [c|]; cbn; [|done]. rewrite !is_true_Some. apply core_active_started.
Qed.

(** C40: A gameweek only moves forward. Between two ticks in which time advances, fixtures keep their
    kickoffs and lose no start or end, the event keeps its deadline and its finished and checked
    marks, and the publication does not forget a start, the state never goes back in the order:
    before the deadline, waiting for picks, probing, syncing picks, playing (active, between
    fixtures or settling), review, final. *)
Theorem lifecycle_moves_forward (cfg : LifecycleConfig) (uk : Z → bool) (event event' : Event)
    (fixtures fixtures' : list Fixture) (cache cache' : option LiveCache)
    (row row' : option LifecycleRow) (now now' : Z) (clock clock' : option DaySettling)
    (Hnow : now ≤ now') (Hoffset : 0 ≤ PICKS_FIRST_PROBE_OFFSET_MS cfg)
    (Hdeadline : ev_deadlineTime event' = ev_deadlineTime event)
    (Hevent : ev_finished event && ev_dataChecked event = true →
              ev_finished event' && ev_dataChecked event' = true)
    (Hfixtures : Forall2 moves_on fixtures fixtures')
    (Hcache : cache_started cache = true → cache_started cache' = true) :
  rank (ld_state (persistLiveLifecycleStatus cfg uk event fixtures cache row now clock).1.1) ≤
  rank (ld_state (persistLiveLifecycleStatus cfg uk event' fixtures' cache' row' now' clock').1.1).
Proof.
  rewrite !tick_rank. pose proof (moves_on_kickoffs _ _ Hfixtures) as Hk.
  apply rank_of_mono; try done; cbn.
  - rewrite !andb_true_iff in *. intros [[? ?] ?].
    destruct Hevent; [done|]. split_and!; [done..|]. by eapply moves_on_all_finished.
  - unfold lastKickoff. rewrite Hk, !andb_true_iff. intros [? ?]. split; [|done].
    by eapply moves_on_all_finished.
  - rewrite !orb_true_iff. intros [?|?]; [left|right; auto].
    eapply moves_on_existsb; [|done|done]. by intros f f' [].
Qed.

Lemma all_finished_spec fixtures :
  all_finished fixtures = true ↔ fixtures ≠ [] ∧ ∀ f, f ∈ fixtures → over f = true.
Proof.
  unfold all_finished. rewrite andb_true_iff, forallb_forall. destruct fixtures as [|f fs]; [naive_solver|].
  cbn. setoid_rewrite list_elem_of_In. naive_solver.
Qed.

Lemma decide_finalize cfg event fixtures now observation :
  ld_finalizeEvent (decideLiveLifecycle cfg event fixtures now observation) =
  ev_finished event && ev_dataChecked event && all_finished fixtures.
Proof. unfold decideLiveLifecycle. by repeat case_match. Qed.

Lemma finalize_fetches cfg event fixtures now observation :
  ld_finalizeEvent (decideLiveLifecycle cfg event fixtures now observation) = true →
  ld_shouldFetchLive (decideLiveLifecycle cfg event fixtures now observation) = true ∧
  ld_state (decideLiveLifecycle cfg event fixtures now observation) = FINALIZED.
Proof. rewrite decide_finalize. unfold decideLiveLifecycle. by intros ->. Qed.

Lemma fetch_cases cfg event fixtures now cache settling :
  ld_shouldFetchLive (decideLiveLifecycle cfg event fixtures now (observe cache event fixtures now settling)) = true →
  all_finished fixtures = true ∨ existsb (λ f, is_true (fx_started f)) fixtures = true ∨
  cache_started cache = true ∨ ∃ k, k ∈ extractKickoffs fixtures ∧ k ≤ now.
Proof.
  unfold decideLiveLifecycle, any_started.
  destruct (all_finished fixtures); [by left|]. rewrite andb_false_r. cbn [andb].
  destruct (existsb _ fixtures) eqn:Hs; [by right; left|].
  assert (core_active fixtures = false) as -> by (apply not_true_iff_false; intros H%core_active_started; congruence).
  assert (is_true (lo_publicationStarted (observe cache event fixtures now settling)) = cache_started cache) as ->
    by (destruct cache; cbn; [apply is_true_Some|done]).
  destruct (cache_started cache) eqn:Hc; [by right; right; left|].
  assert (is_true (lo_publicationActive (observe cache event fixtures now settling)) = false) as ->.
  { destruct cache as [c|]; cbn; [|done]. rewrite is_true_Some. apply not_true_iff_false.
    intros H%core_active_started. cbn in Hc. congruence. }
  cbn [orb andb]. unfold firstKickoff. destruct (extractKickoffs fixtures) as [|k ks] eqn:Ek.
  - intros Hf. repeat case_match; discriminate.
  - intros Hf. right; right; right. exists (min_of k ks). split; [apply min_of_spec|].
    repeat case_match; try discriminate; boolsolve; lia.
Qed.

Lemma active_in_window cfg event fixtures now cache settling :
  ld_state (decideLiveLifecycle cfg event fixtures now (observe cache event fixtures now settling)) = LIVE_ACTIVE →
  ∃ k, k ∈ extractKickoffs fixtures ∧ now ≤ k + FINISH_FLAG_GRACE_MS.
Proof.
  intros H. assert (isMatchDayTime event fixtures now = true) as Hm.
  { unfold decideLiveLifecycle in H. cbn [lo_matchDayTime observe] in H.
    destruct (isMatchDayTime event fixtures now); [done|]. rewrite andb_false_r in H.
    repeat case_match; discriminate. }
  apply isMatchDayTime_spec in Hm as (_ & f & k & Hf & Hk & Hw). exists k.
  split; [apply elem_of_kickoffs; naive_solver|].
  unfold MATCH_WINDOW_MS, FINISH_FLAG_GRACE_MS, MATCH_PREWARM_MS in *. lia.
Qed.

(** The intervals of the environment. *)
Definition positive_intervals (cfg : LifecycleConfig) : Prop :=
  Forall (λ ms, 0 < ms)
    [LIVE_POLL_MS cfg; BETWEEN_FIXTURES_POLL_MS cfg; DAY_SETTLING_INITIAL_POLL_MS cfg;
     DAY_SETTLING_STABLE_POLL_MS cfg; PICKS_PROBE_POLL_MS cfg; PRE_DEADLINE_POLL_MS cfg;
     GW_REVIEW_POLL_MS cfg; GW_REVIEW_FINALIZATION_POLL_MS cfg; FINALIZED_POLL_MS cfg].

Lemma delay_positive cfg uk d settling now :
  positive_intervals cfg → 0 < lifecycleDelay cfg uk d settling now.
Proof.
  unfold positive_intervals. rewrite !Forall_cons. intros (?&?&?&?&?&?&?&?&?&_).
  unfold lifecycleDelay. case_match; [done|]. case_match; [lia|]. by repeat case_match.
Qed.

Lemma run_finalizes event fixtures finalizedAt now d :
  (ld_finalizeEvent d = true → ld_shouldFetchLive d = true ∧ ld_state d = FINALIZED) →
  EnqueueSnapshot true true ∈ runLiveLifecycle event fixtures finalizedAt now d ↔
  ld_finalizeEvent d = true ∧ finalizedAt = None.
Proof.
  intros Hd. unfold runLiveLifecycle.
  destruct (ld_finalizeEvent d) eqn:Hf.
  - destruct Hd as [-> ->]; [done|]. rewrite orb_true_r.
    destruct finalizedAt, (_ || _), (isMatchDayTime event fixtures now); cbn; set_solver.
  - split; [|naive_solver]. rewrite !elem_of_app. intros [H|H].
    + destruct (_ || _); set_solver.
    + destruct (ld_shouldFetchLive d); [|set_solver]. rewrite elem_of_app in H.
      destruct H as [H|H]; [|case_match; set_solver]. cbn [negb orb] in H.
      case_match; [set_solver|]. apply list_elem_of_singleton in H. by injection H as _ H.
Qed.

(** What a tick may do: it finalizes exactly when the event is finished and checked and every
    fixture is over, and then enqueues the finalizing snapshot exactly if none was stored; it reads
    live data only when play has started, a kickoff has passed, or every fixture is over; it stays
    [LIVE_ACTIVE] no longer than six hours after a kickoff; and it schedules the next tick strictly
    later. *)
Theorem live_tick_safe (cfg : LifecycleConfig) (uk : Z → bool) (event : Event)
    (fixtures : list Fixture) (cache : option LiveCache) (row : option LifecycleRow) (now : Z)
    (clock : option DaySettling) (finalizedAt : option Z)
    (Hcfg : positive_intervals cfg) :
  let '(d, clock', row') := persistLiveLifecycleStatus cfg uk event fixtures cache row now clock in
  let actions := runLiveLifecycle event fixtures finalizedAt now d in
  (ld_finalizeEvent d = true ↔ ev_finished event = true ∧ ev_dataChecked event = true ∧
     fixtures ≠ [] ∧ ∀ f, f ∈ fixtures → over f = true) ∧
  (EnqueueSnapshot true true ∈ actions ↔ ld_finalizeEvent d = true ∧ finalizedAt = None) ∧
  (ld_shouldFetchLive d = true →
     (∃ f, f ∈ fixtures ∧ (fx_started f = Some true ∨ over f = true)) ∨ cache_started cache = true ∨
     ∃ k, k ∈ extractKickoffs fixtures ∧ k ≤ now) ∧
  (ld_state d = LIVE_ACTIVE → ∃ k, k ∈ extractKickoffs fixtures ∧ now ≤ k + 21600000) ∧
  (∃ next, lr_nextRefreshAt row' = Some next ∧ now < next).
Proof.
  destruct (persistLiveLifecycleStatus cfg uk event fixtures cache row now clock) as [[d clock'] row'] eqn:E.
  destruct (tick_decision cfg uk event fixtures cache row now clock) as [settling Hd].
  rewrite E in Hd. cbn in Hd. cbn zeta. subst d. split_and!.
  - rewrite decide_finalize, !andb_true_iff, all_finished_spec. naive_solver.
  - apply run_finalizes, finalize_fetches.
  - intros [H|[H|[H|H]]]%fetch_cases; [left|left|by right; left|by right; right].
    + apply all_finished_spec in H as [Hne Hall]. destruct fixtures as [|f fs]; [done|].
      exists f. split; [by left|]. right. apply Hall. by left.
    + apply existsb_exists in H as (f & Hf & Hs). exists f. rewrite list_elem_of_In. split; [done|].
      left. by apply bool_decide_eq_true in Hs.
  - apply active_in_window.
  - unfold persistLiveLifecycleStatus in E. cbv zeta in E. injection E as _ <- <-. eexists. split; [done|].
    pose proof (delay_positive cfg uk) as Hp. match goal with |- _ < _ + lifecycleDelay _ _ ?d ?s ?n =>
      specialize (Hp d s n Hcfg) end. lia.
Qed.

Section Examples.
Local Definition kickoff : Z := 1755889200000.
Local Definition ex_event (finished : bool) : Event :=
  mkEvent (Some (kickoff - 5400000)) finished finished.
Local Definition ex_fixture (started finished : bool) : Fixture :=
  mkFixture (Some kickoff) (Some started) finished finished.

Lemma lifecycle_moves_forward_witness :
  rank (ld_state (persistLiveLifecycleStatus default_config (λ _, false) (ex_event false)
    [ex_fixture false false] None None (kickoff - 60000) None).1.1) ≤
  rank (ld_state (persistLiveLifecycleStatus default_config (λ _, false) (ex_event false)
    [ex_fixture true false] None None (kickoff + 60000) None).1.1).
Proof.
  apply (lifecycle_moves_forward default_config (λ _, false) (ex_event false) (ex_event false)
    [ex_fixture false false] [ex_fixture true false]).
  - vm_compute. discriminate.
  - vm_compute. discriminate.
  - reflexivity.
  - done.
  - repeat constructor; discriminate.
  - done.
Defined.

Lemma live_tick_safe_witness :
  let '(d, _, row) := persistLiveLifecycleStatus default_config (λ _, false) (ex_event true)
    [ex_fixture true true] None None (kickoff + 86400000) None in
  EnqueueSnapshot true true ∈ runLiveLifecycle (ex_event true) [ex_fixture true true] None
    (kickoff + 86400000) d.
Proof.
  pose proof (live_tick_safe default_config (λ _, false) (ex_event true) [ex_fixture true true] None None
    (kickoff + 86400000) None None) as H.
  assert (positive_intervals default_config) as Hcfg by (repeat constructor).
  specialize (H Hcfg). cbv beta iota zeta in H. apply H. split; reflexivity.
Defined.
End Examples.
