(* ===== verification/WorkerPool.v ===== *)
(** * Bounded worker pools ([src/utils/async.ts], [src/workers/entry-sync.worker.ts])

    [mapWithConcurrency] and [syncEntries] start a few asynchronous loops that share a cursor over
    the items.  A loop runs without interruption from one [await] to the next, so the pool is a
    transition system whose steps are the settling of one call of the handler and the end of one
    pause; which loop moves next is arbitrary.  The handler is a parameter: what its call on the
    item of an index ends with. *)

From S2P Require Import Prelude JsCollections.

Inductive LoopState :=
| Awaiting (index : nat)
| Sleeping
| Ended.

#[export] Instance loop_state_eq_dec : EqDecision LoopState.
Proof. solve_decision. Defined.

Record Pool (S : Type) := mkPool { po_cursor : nat; po_loops : list LoopState; po_shared : S }.
Arguments mkPool {S} _ _ _.
Arguments po_cursor {S} _.
Arguments po_loops {S} _.
Arguments po_shared {S} _.

Section pool.
Context {S : Type} (total : nat).
(** What a loop does to the shared variables when the call on an index settles, whether it then goes
    on, and whether it pauses before the next index. *)
Context (body : nat → S → S) (goes_on : nat → bool) (throttled : bool).

(** [while (cursor < items.length) { const currentIndex = cursor; cursor += 1; await ... }]:
    from the test of the loop to the next await.
    src: src/utils/async.ts:51-54 mapWithConcurrency *)
Definition take_next (cursor : nat) : LoopState * nat :=
  if (cursor <? total)%nat then (Awaiting cursor, Datatypes.S cursor) else (Ended, cursor).

(** [Array.from({ length: workerCount }, async () => ...)]: every loop runs to its first await.
    src: src/utils/async.ts:50-56 mapWithConcurrency *)
Fixpoint start_loops (workerCount cursor : nat) : list LoopState * nat :=
  match workerCount with
  | O => ([], cursor)
  | Datatypes.S count =>
      let '(loop, cursor) := take_next cursor in
      let '(loops, cursor) := start_loops count cursor in
      (loop :: loops, cursor)
  end.

Definition start_pool (workerCount : nat) (shared : S) : Pool S :=
  let '(loops, cursor) := start_loops workerCount 0 in mkPool cursor loops shared.

(** The call awaited by loop [w] settles. *)
Definition settle (w : nat) (p : Pool S) : option (nat * Pool S) :=
  match po_loops p !! w with
  | Some (Awaiting index) =>
      let shared := body index (po_shared p) in
      Some (index,
        if goes_on index then
          if throttled then mkPool (po_cursor p) (<[w := Sleeping]> (po_loops p)) shared
          else let '(loop, cursor) := take_next (po_cursor p) in
               mkPool cursor (<[w := loop]> (po_loops p)) shared
        else mkPool (po_cursor p) (<[w := Ended]> (po_loops p)) shared)
  | _ => None
  end.

(** The pause of loop [w] ends.
    src: src/workers/entry-sync.worker.ts:191-194 syncEntries *)
Definition wake (w : nat) (p : Pool S) : option (Pool S) :=
  match po_loops p !! w with
  | Some Sleeping =>
      let '(loop, cursor) := take_next (po_cursor p) in
      Some (mkPool cursor (<[w := loop]> (po_loops p)) (po_shared p))
  | _ => None
  end.

(** A run, with the indexes in the order in which their calls settled and the number of steps. *)
Inductive pool_run : Pool S → list nat → nat → Pool S → Prop :=
| run_done p : pool_run p [] 0 p
| run_settle p w index p1 settled steps p2 :
    settle w p = Some (index, p1) → pool_run p1 settled steps p2 →
    pool_run p (index :: settled) (Datatypes.S steps) p2
| run_wake p w p1 settled steps p2 :
    wake w p = Some p1 → pool_run p1 settled steps p2 →
    pool_run p settled (Datatypes.S steps) p2.

Definition ended (p : Pool S) : bool :=
  forallb (λ l, match l with Ended => true | _ => false end) (po_loops p).

(** The index a loop waits for. *)
Definition awaited (l : LoopState) : list nat := match l with Awaiting index => [index] | _ => [] end.

Definition in_flight (p : Pool S) : list nat := po_loops p ≫= awaited.

(** ** What every run keeps *)

Lemma in_flight_insert loops w l l' :
  loops !! w = Some l →
  awaited l ++ (<[w := l']> loops ≫= awaited) ≡ₚ awaited l' ++ (loops ≫= awaited).
Proof.
  revert w. induction loops as [|l0 loops IH]; [done|]. intros [|w]; cbn.
  - intros [= ->]. apply Permutation_app_swap_app.
  - intros Hw. rewrite (Permutation_app_swap_app (awaited l)), (Permutation_app_swap_app (awaited l')).
    by rewrite (IH _ Hw).
Qed.

Lemma in_flight_bound loops : (length (loops ≫= awaited) ≤ length loops)%nat.
Proof. induction loops as [|[] loops IH]; cbn; lia. Qed.

Definition weight (l : LoopState) : nat := match l with Awaiting _ => 2 | Sleeping => 1 | Ended => 0 end.

Fixpoint weights (loops : list LoopState) : nat :=
  match loops with [] => 0 | l :: loops => weight l + weights loops end.

Definition work_left (p : Pool S) : nat := 2 * (total - po_cursor p) + weights (po_loops p).

Lemma weight_insert loops w l l' :
  loops !! w = Some l →
  (weights (<[w := l']> loops) + weight l = weights loops + weight l')%nat.
Proof.
  revert w. induction loops as [|l0 loops IH]; [done|]. intros [|w] Hw.
  - injection Hw as ->. cbn. lia.
  - specialize (IH w Hw).
    change (weight l0 + weights (<[w := l']> loops) + weight l = weight l0 + weights loops + weight l')%nat. lia.
Qed.

Lemma take_next_cases cursor :
  (cursor < total)%nat ∧ take_next cursor = (Awaiting cursor, Datatypes.S cursor) ∨
  (total ≤ cursor)%nat ∧ take_next cursor = (Ended, cursor).
Proof. unfold take_next. destruct (Nat.ltb_spec cursor total); auto. Qed.

(** What is settled and what is awaited are the indexes below the cursor. *)
Record pool_ok (s0 : S) (workerCount : nat) (settled : list nat) (p : Pool S) : Prop := {
  ok_cursor : (po_cursor p ≤ total)%nat;
  ok_indexes : settled ++ in_flight p ≡ₚ seq 0 (po_cursor p);
  ok_loops : length (po_loops p) = workerCount;
  ok_shared : po_shared p = fold_left (λ s i, body i s) settled s0;
  ok_stops : Forall goes_on settled → Ended ∈ po_loops p → po_cursor p = total;
}.

Lemma start_loops_spec n cursor loops cursor' :
  (cursor ≤ total)%nat → start_loops n cursor = (loops, cursor') →
  (cursor ≤ cursor' ≤ total)%nat ∧ length loops = n ∧ loops ≫= awaited = seq cursor (cursor' - cursor) ∧
  (2 * (total - cursor') + weights loops = 2 * (total - cursor))%nat ∧
  (Ended ∈ loops → cursor' = total).
Proof.
  revert cursor loops. induction n as [|n IH]; intros cursor loops Hc; cbn [start_loops].
  - intros [= <- <-]. rewrite Nat.sub_diag. cbn. set_solver by lia.
  - destruct (start_loops n (take_next cursor).2) as [ls c] eqn:E.
    destruct (take_next_cases cursor) as [[Hlt Ht]|[Hle Ht]]; rewrite Ht in *; cbn in E; rewrite E;
      intros [= <- <-]; (apply IH in E as (? & <- & Hs & Hw & He); [|lia]); cbn; rewrite Hs.
    + split_and!; [lia..| |lia|rewrite elem_of_cons; naive_solver].
      by replace (c - cursor)%nat with (Datatypes.S (c - Datatypes.S cursor)) by lia.
    + split_and!; [lia..|done|lia|lia].
Qed.

Lemma start_pool_ok s0 n : pool_ok s0 n [] (start_pool n s0).
Proof.
  unfold start_pool. destruct (start_loops n 0) as [loops cursor] eqn:E.
  apply start_loops_spec in E as (? & ? & Hs & _ & He); [|lia].
  split; cbn; [lia| |done|done|done]. unfold in_flight. cbn. by rewrite Hs, Nat.sub_0_r.
Qed.

Lemma start_pool_work s0 n : work_left (start_pool n s0) = (2 * total)%nat.
Proof.
  unfold start_pool. destruct (start_loops n 0) as [loops cursor] eqn:E.
  apply start_loops_spec in E as (_ & _ & _ & Hw & _); [|lia]. unfold work_left. cbn. lia.
Qed.

Lemma indexes_insert (settled : list nat) loops w l l' cursor cursor' :
  loops !! w = Some l → settled ++ (loops ≫= awaited) ≡ₚ seq 0 cursor →
  awaited l' ++ seq 0 cursor ≡ₚ seq 0 cursor' →
  (settled ++ awaited l) ++ (<[w := l']> loops ≫= awaited) ≡ₚ seq 0 cursor'.
Proof.
  intros Hw Hs Hc. rewrite <-Hc, <-Hs, <-(assoc_L (++)), (in_flight_insert _ _ _ _ Hw).
  apply Permutation_app_swap_app.
Qed.

Lemma stops_insert (loops : list LoopState) (w : nat) (l l' : LoopState) :
  l' ≠ Ended → Ended ∈ <[w := l']> loops → loops !! w = Some l → Ended ∈ loops.
Proof.
  intros Hl [i Hi]%list_elem_of_lookup Hw. apply list_elem_of_lookup.
  destruct (decide (i = w)) as [->|]; [|exists i; by rewrite list_lookup_insert_ne in Hi by done].
  rewrite list_lookup_insert_eq in Hi by (by eapply lookup_lt_Some). congruence.
Qed.

(** A loop takes the next index: what happens when a call settles without a pause and when a pause
    ends. *)
Lemma take_ok s0 n settled p w l :
  po_loops p !! w = Some l → l ≠ Ended → pool_ok s0 n settled p →
  (settled ++ awaited l) ++ in_flight (mkPool (take_next (po_cursor p)).2
      (<[w := (take_next (po_cursor p)).1]> (po_loops p)) (po_shared p))
    ≡ₚ seq 0 (take_next (po_cursor p)).2 ∧
  ((take_next (po_cursor p)).2 ≤ total)%nat ∧
  (Forall goes_on settled → Ended ∈ <[w := (take_next (po_cursor p)).1]> (po_loops p) →
   (take_next (po_cursor p)).2 = total) ∧
  (work_left (mkPool (take_next (po_cursor p)).2
      (<[w := (take_next (po_cursor p)).1]> (po_loops p)) (po_shared p)) + weight l = work_left p)%nat.
Proof.
  intros Hw Hl [Hc Hi Hn Hs He]. pose proof (weight_insert (po_loops p) w l) as Hwt.
  destruct (take_next_cases (po_cursor p)) as [[Hlt ->]|[Hle ->]]; cbn -[seq];
    split_and!; try lia.
  - eapply indexes_insert; [done..|]. rewrite seq_S. apply (Permutation_app_comm [_]).
  - intros Hg H. apply stops_insert with (l := l) in H; [|done..]. specialize (He Hg H). lia.
  - specialize (Hwt (Awaiting (po_cursor p)) Hw). unfold work_left. cbn in *. lia.
  - by eapply indexes_insert.
  - specialize (Hwt Ended Hw). unfold work_left. cbn in *. lia.
Qed.

Lemma settle_ok s0 n settled p w index p' :
  settle w p = Some (index, p') → pool_ok s0 n settled p →
  pool_ok s0 n (settled ++ [index]) p' ∧ (work_left p' < work_left p)%nat.
Proof.
  unfold settle. destruct (po_loops p !! w) as [[i| |]|] eqn:Hw; try done. intros [= <- <-] Hok.
  pose proof (take_ok _ _ _ _ _ _ Hw ltac:(done) Hok) as (H1 & H2 & H3 & H4). destruct Hok as [Hc Hi Hn Hs He].
  assert (∀ l', weight l' < 2 → awaited l' = [] → (l' = Ended → goes_on i = false) →
    pool_ok s0 n (settled ++ [i]) (mkPool (po_cursor p) (<[w := l']> (po_loops p)) (body i (po_shared p))) ∧
    work_left (mkPool (po_cursor p) (<[w := l']> (po_loops p)) (body i (po_shared p))) < work_left p)%nat as Hstop.
  { intros l' Hwt Ha Hl'. split.
    - split; cbn; [done| |by rewrite length_insert|by rewrite fold_left_app, Hs|].
      + eapply (indexes_insert _ _ _ (Awaiting i)); [done..|]. by rewrite Ha.
      + intros [Hg Hgi]%Forall_app HE. rewrite Forall_singleton in Hgi.
        destruct (decide (l' = Ended)) as [El|]; [by rewrite (Hl' El) in Hgi|].
        apply He; [done|]. by eapply stops_insert.
    - pose proof (weight_insert (po_loops p) w _ l' Hw). unfold work_left. cbn in *. lia. }
  destruct (goes_on i) eqn:Hg; [|apply Hstop; cbn; by try lia].
  destruct throttled; [apply Hstop; cbn; by try lia|].
  destruct (take_next (po_cursor p)) as [loop cursor]. cbn in *. split; [|unfold work_left in *; cbn in *; lia].
  split; cbn; [done|done|by rewrite length_insert|by rewrite fold_left_app, Hs|].
  intros [Hg' _]%Forall_app. by apply H3.
Qed.

Lemma wake_ok s0 n settled p w p' :
  wake w p = Some p' → pool_ok s0 n settled p → pool_ok s0 n settled p' ∧ (work_left p' < work_left p)%nat.
Proof.
  unfold wake. destruct (po_loops p !! w) as [[i| |]|] eqn:Hw; try done. intros Hp Hok.
  pose proof (take_ok _ _ _ _ _ _ Hw ltac:(done) Hok) as (H1 & H2 & H3 & H4). destruct Hok as [Hc Hi Hn Hs He].
  destruct (take_next (po_cursor p)) as [loop cursor]. injection Hp as <-. cbn in *. rewrite app_nil_r in H1.
  split; [|unfold work_left in *; cbn in *; lia]. split; cbn; try done. by rewrite length_insert.
Qed.

Lemma run_ok s0 n p tr steps p' :
  pool_run p tr steps p' → ∀ settled, pool_ok s0 n settled p →
  pool_ok s0 n (settled ++ tr) p' ∧ (work_left p' + steps ≤ work_left p)%nat.
Proof.
  induction 1 as [p|p w i p1 tr steps p2 Hs _ IH|p w p1 tr steps p2 Hs _ IH]; intros settled Hok.
  - rewrite app_nil_r. split; [done|lia].
  - apply (settle_ok s0 n settled) in Hs as [H ?]; [|done]. apply IH in H as [H ?].
    rewrite <-(assoc_L (++)) in H. split; [done|lia].
  - apply (wake_ok s0 n settled) in Hs as [H ?]; [|done]. apply IH in H as [H ?]. split; [done|lia].
Qed.

Lemma start_run_ok s0 n tr steps p :
  pool_run (start_pool n s0) tr steps p → pool_ok s0 n tr p ∧ (steps ≤ 2 * total)%nat.
Proof.
  intros H. apply (run_ok s0 n) with (settled := []) in H as [? H]; [|apply start_pool_ok].
  rewrite start_pool_work in H. split; [done|lia].
Qed.

Lemma pool_progress p : ended p = false → ∃ w, settle w p ≠ None ∨ wake w p ≠ None.
Proof.
  unfold ended. intros He. assert (∃ l, l ∈ po_loops p ∧ l ≠ Ended) as (l & [w Hw]%list_elem_of_lookup & Hl).
  { induction (po_loops p) as [|[i| |] loops IH]; cbn in He; [done| | |].
    - exists (Awaiting i). split; [by left|done].
    - exists Sleeping. split; [by left|done].
    - destruct (IH He) as (l & ? & ?). exists l. split; [by right|done]. }
  exists w. unfold settle, wake. rewrite Hw. destruct l as [i| |]; [|right|done].
  - left. done.
  - by destruct (take_next (po_cursor p)).
Qed.

(** A pool whose loops all ended without a failure has settled every index. *)
Lemma ended_complete s0 n settled p :
  pool_ok s0 n settled p → (0 < n)%nat → ended p = true → Forall goes_on settled → settled ≡ₚ seq 0 total.
Proof.
  intros [Hc Hi Hn Hs He] Hpos Hend Hg. unfold ended in Hend.
  assert (in_flight p = []) as Hf.
  { unfold in_flight. clear -Hend. induction (po_loops p) as [|[] loops IH]; cbn in *; auto; done. }
  rewrite Hf, app_nil_r in Hi. rewrite Hi. f_equiv. apply He; [done|].
  destruct (po_loops p) as [|[] loops]; cbn in *; [lia|done|done|by left].
Qed.

(** Without a pause a loop never sleeps. *)
Lemma no_sleep_take (p : Pool S) w :
  Sleeping ∉ po_loops p → Sleeping ∉ <[w := (take_next (po_cursor p)).1]> (po_loops p).
Proof.
  intros H [v Hv]%list_elem_of_lookup. apply H, list_elem_of_lookup.
  destruct (decide (v = w)) as [->|]; [|exists v; by rewrite list_lookup_insert_ne in Hv].
  apply list_lookup_insert_Some in Hv as [(_ & Hv & _)|[]]; [|done].
  by destruct (take_next_cases (po_cursor p)) as [[_ Ht]|[_ Ht]]; rewrite Ht in Hv.
Qed.

Lemma no_sleep_start s0 n : Sleeping ∉ po_loops (start_pool n s0).
Proof.
  unfold start_pool. generalize 0%nat as cursor. induction n as [|n IH]; intros cursor; cbn; [set_solver|].
  destruct (take_next cursor) as [loop c] eqn:E. specialize (IH c). destruct (start_loops n c) as [loops c'].
  cbn in *. rewrite not_elem_of_cons. split; [|done].
  destruct (take_next_cases cursor) as [[_ Ht]|[_ Ht]]; rewrite Ht in E; congruence.
Qed.

Lemma run_unthrottled p tr steps p' :
  throttled = false → pool_run p tr steps p' → Sleeping ∉ po_loops p →
  steps = length tr ∧ Sleeping ∉ po_loops p'.
Proof.
  intros Ht. induction 1 as [p|p w i p1 tr steps p2 Hs _ IH|p w p1 tr steps p2 Hs _ IH]; intros Hn.
  - done.
  - assert (Sleeping ∉ po_loops p1) as Hn1.
    { pose proof (no_sleep_take p w Hn) as Hk. unfold settle in Hs. rewrite Ht in Hs.
      destruct (po_loops p !! w) as [[j| |]|] eqn:Hw; try done. injection Hs as _ <-.
      destruct (goes_on j); [by destruct (take_next _)|]. cbn.
      intros [v Hv]%list_elem_of_lookup. apply Hn, list_elem_of_lookup. exists v.
      apply list_lookup_insert_Some in Hv as [(_ & [=] & _)|[_ Hv]]. done. }
    apply IH in Hn1 as [-> ?]. done.
  - unfold wake in Hs. destruct (po_loops p !! w) as [[j| |]|] eqn:Hw; try done.
    exfalso. apply Hn, list_elem_of_lookup. by exists w.
Qed.

(** No index is called twice, every index called exists, and at most [n] calls are in flight. *)
Lemma pool_ok_calls s0 n settled p :
  pool_ok s0 n settled p →
  NoDup (settled ++ in_flight p) ∧ (∀ i, i ∈ settled ++ in_flight p → (i < total)%nat) ∧
  (length (in_flight p) ≤ n)%nat.
Proof.
  intros [Hc Hi Hn Hs He]. split_and!.
  - rewrite Hi. apply NoDup_seq.
  - intros i H. rewrite Hi, elem_of_seq in H. lia.
  - rewrite <-Hn. apply in_flight_bound.
Qed.
End pool.

(** ** [mapWithConcurrency] *)

Section map_with_concurrency.
Context {T R : Type} (handler : T → nat → result R) (items : list T) (concurrency : Z).

(** The results so far, and the first rejection of [Promise.all]. *)
Record MapState := mkMapState { results : list (option R); rejected : option string }.

(** [results[currentIndex] = await handler(items[currentIndex], currentIndex)]; a rejection ends
    the loop.
    src: src/utils/async.ts:54-54 mapWithConcurrency *)
Definition map_call (index : nat) : result R :=
  match items !! index with Some item => handler item index | None => Throw "unreachable" end.

(** src: src/utils/async.ts:46-55 mapWithConcurrency *)
Definition map_body (index : nat) (s : MapState) : MapState :=
  match map_call index with
  | Ok r => mkMapState (<[index := Some r]> (results s)) (rejected s)
  | Throw e => mkMapState (results s) (nullish_or (rejected s) (Some e))
  end.

(** src: src/utils/async.ts:49-49 mapWithConcurrency *)
Definition workerCount : nat :=
  if is_nil items then 0 else Z.to_nat (Z.max 1 (Z.min concurrency (Z.of_nat (length items)))).

(** src: src/utils/async.ts:37-60 mapWithConcurrency *)
Definition mapWithConcurrency : Pool MapState :=
  start_pool (length items) workerCount (mkMapState (replicate (length items) None) None).

Definition map_step := settle (length items) map_body (λ i, is_ok (map_call i)) false.
Definition map_run := pool_run (length items) map_body (λ i, is_ok (map_call i)) false.

(** The promise: pending, rejected with the first rejection, or resolved when every loop ended.
    src: src/utils/async.ts:58-59 mapWithConcurrency *)
Definition map_value (p : Pool MapState) : option (result (list (option R))) :=
  match rejected (po_shared p) with
  | Some e => Some (Throw e)
  | None => if ended p then Some (Ok (results (po_shared p))) else None
  end.

Lemma map_fold_results settled :
  NoDup settled → (∀ i, i ∈ settled → (i < length items)%nat) →
  let s := fold_left (λ s i, map_body i s) settled (mkMapState (replicate (length items) None) None) in
  length (results s) = length items ∧
  (∀ i r, i ∈ settled → map_call i = Ok r → results s !! i = Some (Some r)) ∧
  match rejected s with
  | None => Forall (λ i, is_ok (map_call i)) settled
  | Some e => ∃ i, i ∈ settled ∧ map_call i = Throw e
  end.
Proof.
  induction settled as [|i settled IH] using rev_ind; intros Hnd Hlt; cbn.
  - split_and!; [by rewrite length_replicate|set_solver|by constructor].
  - apply NoDup_app in Hnd as (Hnd & Hni & _).
    destruct IH as (Hlen & Hres & Hrej); [done|set_solver|]. rewrite fold_left_app. cbn.
    set (s := fold_left _ settled _) in *. specialize (Hlt i ltac:(set_solver)).
    unfold map_body. destruct (map_call i) as [r|e] eqn:Hi; cbn; split_and!.
    + by rewrite length_insert.
    + intros j r' [Hj|Hj%list_elem_of_singleton]%elem_of_app Hjr.
      * rewrite list_lookup_insert_ne; [by eapply Hres|]. intros ->. apply (Hni j Hj). by left.
      * subst j. rewrite Hi in Hjr. injection Hjr as <-. apply list_lookup_insert_eq. lia.
    + destruct (rejected s) as [e|]; [destruct Hrej as (j & ? & ?); exists j; set_solver|].
      apply Forall_app. split; [done|]. apply Forall_singleton. by rewrite Hi.
    + done.
    + intros j r' [Hj|Hj%list_elem_of_singleton]%elem_of_app Hjr; [by eapply Hres|congruence].
    + destruct (rejected s) as [e'|]; cbn; [destruct Hrej as (j & ? & ?); exists j; set_solver|].
      exists i. set_solver.
Qed.
End map_with_concurrency.
Arguments mkMapState {R} _ _.

(** [mapWithConcurrency] is the concurrent [map]. Whatever the order in which the calls settle,
    at most [concurrency] (and at least one) are in flight, none is made twice, there are at most as
    many steps as items, and as long as the promise is pending some call can settle; a resolved
    promise holds the result of every item at its own index; a rejected one rejects with the error
    of some item, so it never rejects when every call succeeds. *)
Theorem mapWithConcurrency_maps {T R : Type} (handler : T → nat → result R) (items : list T)
    (concurrency : Z) (settled : list nat) (steps : nat) (p : Pool (MapState (R := R)))
    (Hrun : map_run handler items (mapWithConcurrency items concurrency) settled steps p) :
  Z.of_nat (length (in_flight p)) ≤ Z.max 1 concurrency ∧
  NoDup (settled ++ in_flight p) ∧ (steps ≤ length items)%nat ∧
  (map_value p = None → ∃ loop, map_step handler items loop p ≠ None) ∧
  (∀ out, map_value p = Some (Ok out) →
     length out = length items ∧
     ∀ i item, items !! i = Some item → ∃ r, handler item i = Ok r ∧ out !! i = Some (Some r)) ∧
  (∀ e, map_value p = Some (Throw e) → ∃ i item, items !! i = Some item ∧ handler item i = Throw e).
Proof.
  pose proof (start_run_ok _ _ _ _ _ _ _ _ _ Hrun) as [Hok _].
  pose proof (pool_ok_calls _ _ _ _ _ _ _ Hok) as (Hnd & Hlt & Hfl).
  pose proof (run_unthrottled _ _ _ _ _ _ _ _ eq_refl Hrun (no_sleep_start _ _ _)) as [-> Hsl].
  assert (NoDup settled) as Hnds by (by apply NoDup_app in Hnd as [? _]).
  assert (∀ i, i ∈ settled → (i < length items)%nat) as Hlts by (intros; apply Hlt; set_solver).
  pose proof (map_fold_results handler items settled Hnds Hlts) as (Hlen & Hres & Hrej).
  rewrite <-(ok_shared _ _ _ _ _ _ _ Hok) in Hlen, Hres, Hrej. split_and!.
  - unfold workerCount in Hfl. destruct items; cbn in *; lia.
  - done.
  - rewrite <-(length_seq (length items) 0) at 1. apply submseteq_length, NoDup_submseteq; [done|].
    intros i Hi. apply elem_of_seq. specialize (Hlts i Hi). lia.
  - unfold map_value. destruct (rejected _); [done|]. destruct (ended p) eqn:He; [done|]. intros _.
    destruct (pool_progress (length items) (map_body handler items) (λ i, is_ok (map_call handler items i))
      false p He) as (w & [Hs|Hw]); [by exists w|].
    exfalso. apply Hw. unfold wake. destruct (po_loops p !! w) as [[| |]|] eqn:E; try done.
    exfalso. apply Hsl, list_elem_of_lookup. by exists w.
  - unfold map_value. intros out. destruct (rejected _); [done|]. destruct (ended p) eqn:He; [|done].
    intros [= <-]. split; [done|]. intros i item Hi.
    assert (i ∈ settled) as His.
    { rewrite (ended_complete _ _ _ _ _ _ _ Hok); [|..|done|done].
      - apply elem_of_seq. apply lookup_lt_Some in Hi. lia.
      - unfold workerCount. destruct items; cbn in *; [done|lia]. }
    rewrite Forall_forall in Hrej. specialize (Hrej i His). specialize (Hres i).
    unfold map_call in *. rewrite Hi in *. destruct (handler item i) as [r|]; [|done]. exists r. by auto.
  - unfold map_value. intros e. destruct (rejected _) as [e'|]; [|by destruct (ended p)].
    intros [= ->]. destruct Hrej as (i & Hi & He). specialize (Hlts i Hi).
    apply lookup_lt_is_Some in Hlts as [item Hitem]. exists i, item.
    unfold map_call in He. by rewrite Hitem in He.
Qed.

(** ** [syncEntries] *)

Section sync_entries.
Context (handler : Z → bool) (entryIds : list Z) (concurrency throttleMs : Z).

(** src: src/workers/entry-sync.worker.ts:168-170 syncEntries *)
Record SyncState := mkSyncState { ss_success : Z; ss_failed : Z; ss_failedIds : list Z }.

(** A failure is counted and its entry is kept; the loop goes on.
    src: src/workers/entry-sync.worker.ts:181-189 syncEntries *)
Definition sync_body (index : nat) (s : SyncState) : SyncState :=
  match entryIds !! index with
  | Some entryId =>
      if handler entryId then mkSyncState (ss_success s + 1) (ss_failed s) (ss_failedIds s)
      else mkSyncState (ss_success s) (ss_failed s + 1) (ss_failedIds s ++ [entryId])
  | None => s
  end.

(** src: src/workers/entry-sync.worker.ts:171-197 syncEntries *)
Definition syncEntries : Pool SyncState :=
  start_pool (length entryIds) (Z.to_nat (Z.max 1 (Z.min concurrency (Z.of_nat (length entryIds)))))
    (mkSyncState 0 0 []).

Definition sync_run := pool_run (length entryIds) sync_body (λ _, true) (0 <? throttleMs).
End sync_entries.

(** src: src/workers/entry-sync.worker.ts:158-158 syncEntries *)
Record SyncSummary := mkSyncSummary { sr_total : Z; sr_success : Z; sr_failed : Z; sr_failedIds : list Z }.

(** src: src/workers/entry-sync.worker.ts:159-161 syncEntries *)
Definition no_entries : SyncSummary := mkSyncSummary 0 0 0 [].

(** src: src/workers/entry-sync.worker.ts:199-199 syncEntries *)
Definition sync_summary (entryIds : list Z) (s : SyncState) : SyncSummary :=
  mkSyncSummary (Z.of_nat (length entryIds)) (ss_success s) (ss_failed s) (ss_failedIds s).

(** What [syncEntries] promises to its callers: the summary of a run whose calls settle in some
    order. *)
Record sync_promise (handler : Z → bool) (entryIds : list Z) (r : SyncSummary) : Prop := {
  sp_total : sr_total r = Z.of_nat (length entryIds);
  sp_counts : sr_success r + sr_failed r = sr_total r;
  sp_failed : sr_failed r = Z.of_nat (length (sr_failedIds r));
  sp_failedIds : sr_failedIds r ≡ₚ filter (λ id, handler id = false) entryIds;
}.

Lemma lookup_seq_id {A : Type} (l : list A) : omap (λ i, l !! i) (seq 0 (length l)) = l.
Proof.
  induction l as [|x l IH]; [done|]. cbn. f_equal. rewrite <-fmap_S_seq. trans (omap (λ i, l !! i) (seq 0 (length l))); [|done].
  clear IH. generalize (seq 0 (length l)) as indexes.
  induction indexes as [|i indexes IH]; [done|]. cbn. rewrite IH. done.
Qed.

Lemma sync_fold handler entryIds settled :
  let s := fold_left (λ s i, sync_body handler entryIds i s) settled (mkSyncState 0 0 []) in
  let ids := omap (λ i, entryIds !! i) settled in
  ss_success s + ss_failed s = Z.of_nat (length ids) ∧ ss_failed s = Z.of_nat (length (ss_failedIds s)) ∧
  ss_failedIds s = filter (λ id, handler id = false) ids.
Proof.
  induction settled as [|i settled IH] using rev_ind; cbn; [done|].
  rewrite fold_left_app, omap_app. cbn. set (s := fold_left _ settled _) in *. destruct IH as (H1 & H2 & H3).
  unfold sync_body. destruct (entryIds !! i) as [id|]; cbn; [|by rewrite app_nil_r].
  rewrite filter_app, filter_cons, filter_nil. destruct (handler id) eqn:Hh; cbn;
    rewrite ?length_app; cbn; split_and!; try lia.
  - rewrite decide_False by congruence. by rewrite app_nil_r.
  - rewrite decide_True by done. by rewrite H3.
Qed.

(** [syncEntries] loses no failure. Whatever the order in which the calls settle and the pauses
    end, the loops come to an end after at most two steps per entry, with at most [concurrency] (and
    at least one) calls in flight and no entry handled twice; as long as a loop runs some loop can
    move; and the summary then counts every entry exactly once, with the failing entries, and only
    these, in its list. *)
Theorem syncEntries_counts (handler : Z → bool) (entryIds : list Z) (concurrency throttleMs : Z)
    (settled : list nat) (steps : nat) (p : Pool SyncState)
    (Hrun : sync_run handler entryIds throttleMs (syncEntries entryIds concurrency) settled steps p) :
  (steps ≤ 2 * length entryIds)%nat ∧ Z.of_nat (length (in_flight p)) ≤ Z.max 1 concurrency ∧
  NoDup (settled ++ in_flight p) ∧
  (ended p = false → ∃ loop,
     settle (length entryIds) (sync_body handler entryIds) (λ _, true) (0 <? throttleMs) loop p ≠ None ∨
     wake (length entryIds) loop p ≠ None) ∧
  (ended p = true → sync_promise handler entryIds (sync_summary entryIds (po_shared p))).
Proof.
  pose proof (start_run_ok _ _ _ _ _ _ _ _ _ Hrun) as [Hok Hsteps].
  pose proof (pool_ok_calls _ _ _ _ _ _ _ Hok) as (Hnd & Hlt & Hfl).
  split_and!; [done|lia|done|apply pool_progress|]. intros He.
  pose proof (sync_fold handler entryIds settled) as (H1 & H2 & H3).
  rewrite <-(ok_shared _ _ _ _ _ _ _ Hok) in H1, H2, H3.
  assert (settled ≡ₚ seq 0 (length entryIds)) as Hperm.
  { eapply ended_complete; [done|lia|done|]. by apply Forall_true. }
  assert (omap (λ i, entryIds !! i) settled ≡ₚ entryIds) as Hids.
  { trans (omap (λ i, entryIds !! i) (seq 0 (length entryIds))); [by rewrite Hperm|by rewrite lookup_seq_id]. }
  split; cbn; [done|by rewrite H1, Hids|done|]. by rewrite H3, Hids.
Qed.

Section Examples.
Local Definition add_index (item : Z) (index : nat) : result Z := Ok (item + Z.of_nat index).
Local Definition odd_fails (entryId : Z) : bool := Z.even entryId.

Lemma mapWithConcurrency_maps_witness :
  ∃ p, map_run add_index [10; 20; 30] (mapWithConcurrency [10; 20; 30] 2) [1; 0; 2]%nat 3 p ∧
    map_value p = Some (Ok [Some 10; Some 21; Some 32]) ∧
    ∀ i item, [10; 20; 30] !! i = Some item →
      ∃ r, add_index item i = Ok r ∧ [Some 10; Some 21; Some 32] !! i = Some (Some r).
Proof.
  eexists. assert (map_run add_index [10; 20; 30] (mapWithConcurrency [10; 20; 30] 2) [1; 0; 2]%nat 3
    (mkPool 3 [Ended; Ended] (mkMapState [Some 10; Some 21; Some 32] None))) as Hrun.
  { eapply (run_settle _ _ _ _ _ 1%nat); [reflexivity|].
    eapply (run_settle _ _ _ _ _ 0%nat); [reflexivity|].
    eapply (run_settle _ _ _ _ _ 1%nat); [reflexivity|]. apply run_done. }
  split; [exact Hrun|]. split; [reflexivity|].
  pose proof (mapWithConcurrency_maps add_index [10; 20; 30] 2 [1; 0; 2]%nat 3 _ Hrun)
    as (_ & _ & _ & _ & H & _).
  exact (proj2 (H _ eq_refl)).
Defined.

Lemma syncEntries_counts_witness :
  ∃ p, sync_run odd_fails [7; 8] 200 (syncEntries [7; 8] 5) [1; 0]%nat 4 p ∧
    sync_promise odd_fails [7; 8] (mkSyncSummary 2 1 1 [7]).
Proof.
  exists (mkPool 2 [Ended; Ended] (mkSyncState 1 1 [7])).
  assert (sync_run odd_fails [7; 8] 200 (syncEntries [7; 8] 5) [1; 0]%nat 4
    (mkPool 2 [Ended; Ended] (mkSyncState 1 1 [7]))) as Hrun.
  { eapply (run_settle _ _ _ _ _ 1%nat); [reflexivity|].
    eapply (run_wake _ _ _ _ _ 1%nat); [reflexivity|].
    eapply (run_settle _ _ _ _ _ 0%nat); [reflexivity|].
    eapply (run_wake _ _ _ _ _ 0%nat); [reflexivity|]. apply run_done. }
  split; [exact Hrun|].
  exact (proj2 (proj2 (proj2 (proj2 (syncEntries_counts odd_fails [7; 8] 5 200 _ _ _ Hrun)))) eq_refl).
Defined.
End Examples.
