(* ===== verification/EntrySync.v ===== *)
(** * Entry synchronisation chains ([src/workers/entry-sync.worker.ts],
      [src/domain/entry-sync-chain.ts], [src/domain/entry-sync.ts],
      [src/jobs/entry-sync-enqueue.ts])

    A scan of the entries of a season is a chain of queue jobs: a job reads a chunk after a cursor,
    handles the entries that need it, and leaves at most one successor, a delayed retry of exactly
    the entries that failed or the next chunk.  A retry carries the cursor at which the scan resumes.

    What a job reads from the database and how the calls of its handler end is a [SyncWorld], one per
    run of a job, so that everything may change between two jobs; the queries of the entry
    repositories are fields of it.  The calls of one job are the pool of [WorkerPool.v], used through
    what it promises.  Numbers of a job are whole. *)

From S2P Require Import Prelude JsCollections JsNumber WorkerPool.

(** ** Data *)

(** src: src/queues/entry-sync.queue.ts:9-9 EntrySyncJobName *)
Inductive EntrySyncJobName := EntryInfo | EntryPicks | EntryTransfers | EntryResults.

#[export] Instance entry_sync_job_name_eq_dec : EqDecision EntrySyncJobName.
Proof. solve_decision. Defined.

(** src: src/queues/entry-sync.queue.ts:11-11 EntrySyncJobSource *)
Inductive EntrySyncJobSource := Cron | Manual | Api | Catchup | Reconcile.

#[export] Instance entry_sync_job_source_eq_dec : EqDecision EntrySyncJobSource.
Proof. solve_decision. Defined.

Definition job_name (name : EntrySyncJobName) : jsstr :=
  js match name with
     | EntryInfo => "entry-info" | EntryPicks => "entry-picks"
     | EntryTransfers => "entry-transfers" | EntryResults => "entry-results"
     end.

(** src: src/queues/entry-sync.queue.ts:36-57 EntrySyncJobData *)
Record EntrySyncJobData := mkJobData {
  ed_seasonId : Z;
  ed_source : option EntrySyncJobSource;
  ed_entryIds : option (list Z);
  ed_retryCount : option Z;
  ed_afterEntryId : option Z;
  ed_resumeAfterEntryId : option Z;
  ed_chunkSize : option Z;
  ed_concurrency : option Z;
  ed_throttleMs : option Z;
  ed_eventId : option Z;
  ed_runId : option jsstr;
  ed_obligationId : option jsstr;
  ed_obligationGeneration : option Z;
  ed_queueKey : option jsstr;
  ed_removeOnSettle : option bool;
}.

(** src: src/jobs/entry-sync-enqueue.ts:17-34 EntrySyncJobOptions *)
Record EntrySyncJobOptions := mkJobOptions {
  eo_entryIds : option (list Z);
  eo_retryCount : option Z;
  eo_afterEntryId : option Z;
  eo_resumeAfterEntryId : option Z;
  eo_chunkSize : option Z;
  eo_concurrency : option Z;
  eo_throttleMs : option Z;
  eo_jobId : option jsstr;
  eo_delayMs : option Z;
  eo_eventId : option Z;
  eo_runId : option jsstr;
  eo_obligationId : option jsstr;
  eo_obligationGeneration : option Z;
  eo_queueKey : option jsstr;
  eo_removeOnSettle : option bool;
}.

(** The defaults of the queue: chunk size, concurrency and throttle.
    src: src/queues/entry-sync.queue.ts:21-34 ENTRY_SYNC_DEFAULT_CHUNK_SIZE *)
Definition ENTRY_SYNC_DEFAULT_CHUNK_SIZE : Z := 500.
Definition ENTRY_SYNC_DEFAULT_CONCURRENCY : Z := 5.
Definition ENTRY_SYNC_DEFAULT_THROTTLE_MS : Z := 200.

(** ** Enqueueing *)

(** src: src/utils/stable-hash.ts:6-13 stableHash *)
Definition stableHash (input : jsstr) : jsstr :=
  let hash := fold_left (λ hash code, (Z.lxor hash code * 16777619) mod 2 ^ 32) input 2166136261 in
  (λ shift, let d := Z.land (Z.shiftr hash shift) 15 in if d <? 10 then 48 + d else 87 + d)
    <$> [28; 24; 20; 16; 12; 8; 4; 0].

Fixpoint join (separator : jsstr) (parts : list jsstr) : jsstr :=
  match parts with
  | [] => []
  | [part] => part
  | part :: parts => part ++ separator ++ join separator parts
  end.

Definition print_opt (n : option Z) : jsstr := match n with Some n => print_int n | None => [] end.

(** src: src/jobs/entry-sync-enqueue.ts:56-69 hashEntryListKey *)
Definition hashEntryListKey (entryIds : list Z) (eventId retryCount : option Z) (runId : jsstr) : jsstr :=
  let sorted := join (js ",") (print_int <$> js_sort (by_key id) entryIds) in
  let retryScope := if 0 <? nullish retryCount 0 then js "|run" ++ runId else [] in
  stableHash (sorted ++ js "|e" ++ print_opt eventId ++ js "|r" ++ print_int (nullish retryCount 0) ++ retryScope).

(** src: src/jobs/entry-sync-enqueue.ts:71-75 sanitizePositiveInt *)
Definition sanitizePositiveInt (value : option Z) (fallback : Z) : Z :=
  match value with Some n => if n <=? 0 then fallback else n | None => fallback end.

(** src: src/jobs/entry-sync-enqueue.ts:77-80 sanitizeCursor *)
Definition sanitizeCursor (value : option Z) : Z :=
  match value with Some n => if n <? 0 then 0 else n | None => 0 end.

(** src: src/jobs/entry-sync-enqueue.ts:36-54 retainEntrySyncChainOptions *)
Definition retainEntrySyncChainOptions (job : EntrySyncJobData) (options : EntrySyncJobOptions)
    : EntrySyncJobOptions :=
  mkJobOptions (eo_entryIds options) (eo_retryCount options) (eo_afterEntryId options)
    (eo_resumeAfterEntryId options) (eo_chunkSize options) (eo_concurrency options)
    (eo_throttleMs options) (eo_jobId options) (eo_delayMs options) (eo_eventId options)
    (ed_runId job) (ed_obligationId job) (ed_obligationGeneration job) (ed_queueKey job)
    (ed_removeOnSettle job).

(** A job of the queue. *)
Record QueuedJob := mkQueuedJob {
  qj_id : jsstr;
  qj_name : EntrySyncJobName;
  qj_data : EntrySyncJobData;
  qj_delay : option Z;
  qj_removeOnSettle : bool;
}.

(** The scan a manual root reuses.  [currentEventId] is the id of the current event, if any.
    src: src/jobs/entry-sync-enqueue.ts:95-133 enqueueEntrySyncJob *)
Definition existingManualScan (pendingJobs : list QueuedJob) (currentEventId : option Z) (seasonId : Z)
    (jobName : EntrySyncJobName) (source : EntrySyncJobSource) (options : EntrySyncJobOptions)
    : option QueuedJob :=
  let isManualScanRoot :=
    bool_decide (source = Manual) && is_null (eo_entryIds options) &&
    (sanitizeCursor (eo_afterEntryId options) =? 0) && is_null (eo_runId options) &&
    is_null (eo_queueKey options) in
  let manual job :=
    bool_decide (qj_name job = jobName) && (ed_seasonId (qj_data job) =? seasonId) &&
    bool_decide (ed_source (qj_data job) = Some Manual) &&
    bool_decide (ed_queueKey (qj_data job) = Some (js "manual")) in
  let hasEventScopedManualScan :=
    existsb (λ job, manual job && negb (is_null (ed_eventId (qj_data job)))) pendingJobs in
  let resolvedManualEventId :=
    nullish_or (eo_eventId options)
      (if negb (bool_decide (jobName = EntryInfo)) && hasEventScopedManualScan then currentEventId else None) in
  if isManualScanRoot
  then List.find (λ job, manual job && opt_eqb (ed_eventId (qj_data job)) resolvedManualEventId) pendingJobs
  else None.

(** [fresh] is the time or the UUID that names a new chain.
    src: src/jobs/entry-sync-enqueue.ts:149-196 enqueueEntrySyncJob *)
Definition new_job (fresh seasonCode : jsstr) (seasonId : Z) (jobName : EntrySyncJobName)
    (source : EntrySyncJobSource) (options : EntrySyncJobOptions) : QueuedJob :=
  let afterEntryId := sanitizeCursor (eo_afterEntryId options) in
  let runId := nullish (eo_runId options) fresh in
  let tableScanQueueKey :=
    nullish (eo_queueKey options) (if bool_decide (source = Manual) then js "manual" else runId) in
  let removeOnSettle := bool_decide (source = Manual) && negb (bool_decide (eo_removeOnSettle options = Some false)) in
  let jobData :=
    mkJobData seasonId (Some source) (eo_entryIds options) (eo_retryCount options) (Some afterEntryId)
      (eo_resumeAfterEntryId options)
      (Some (sanitizePositiveInt (eo_chunkSize options) ENTRY_SYNC_DEFAULT_CHUNK_SIZE))
      (Some (sanitizePositiveInt (eo_concurrency options) ENTRY_SYNC_DEFAULT_CONCURRENCY))
      (Some (sanitizePositiveInt (eo_throttleMs options) ENTRY_SYNC_DEFAULT_THROTTLE_MS))
      (eo_eventId options) (Some runId) (eo_obligationId options) (eo_obligationGeneration options)
      (Some tableScanQueueKey) (Some removeOnSettle) in
  let chunkKey :=
    match eo_eventId options with
    | Some eventId => print_int afterEntryId ++ js "-event-" ++ print_int eventId
    | None => print_int afterEntryId
    end in
  let defaultJobId :=
    match eo_entryIds options with
    | Some entryIds =>
        job_name jobName ++ js "-" ++ seasonCode ++ js "-entry-list-" ++
        hashEntryListKey entryIds (eo_eventId options) (eo_retryCount options) runId
    | None =>
        job_name jobName ++ js "-" ++ seasonCode ++ js "-" ++ tableScanQueueKey ++ js "-chunk-" ++ chunkKey
    end in
  mkQueuedJob (nullish (eo_jobId options) defaultJobId) jobName jobData (eo_delayMs options) removeOnSettle.

(** The job a call returns, and whether it was added.
    src: src/jobs/entry-sync-enqueue.ts:82-214 enqueueEntrySyncJob *)
Definition enqueueEntrySyncJob (fresh seasonCode : jsstr) (pendingJobs : list QueuedJob)
    (currentEventId : option Z) (seasonId : Z) (jobName : EntrySyncJobName)
    (source : option EntrySyncJobSource) (options : EntrySyncJobOptions) : QueuedJob * bool :=
  let source := nullish source Cron in
  match existingManualScan pendingJobs currentEventId seasonId jobName source options with
  | Some job => (job, false)
  | None => (new_job fresh seasonCode seasonId jobName source options, true)
  end.

(** ** What a job run reads *)

(** src: src/domain/entry-sync.ts:3-7 EventFinalizationState *)
Record EventFinalizationState := mkFinalization {
  ef_finished : bool;
  ef_dataChecked : bool;
  ef_dataCheckedAt : option Z;
}.

(** The database and the provider as one run of a job meets them: the entries of the season, the
    queries of the entry repositories before and after the calls, the current event, the answers to
    the renewals of the lease of the obligation, and what the calls of the handler end with. *)
Record SyncWorld := mkSyncWorld {
  sw_entries : list Z;
  sw_handler : Z → bool;
  sw_sync : list Z → SyncSummary;
  sw_sync_promise : ∀ ids, sync_promise sw_handler ids (sw_sync ids);
  sw_findIdsNeedingSnapshotSync : list Z → Z → list Z;
  sw_findEntryIdsByEvent : Z → list Z → list Z;
  sw_persistedAfter : Z → list Z → list Z;
  sw_findTransfersNeedingSync : list Z → Z → list Z;
  sw_transfersNeedingAfter : list Z → Z → list Z;
  sw_findEntryIdsNeedingRichSync : list Z → Z → Z → list Z;
  sw_findEvent : Z → option EventFinalizationState;
  sw_findDataCheckedAtExact : Z → option Z;
  sw_currentEventId : option Z;
  sw_renewed : Z → bool;
}.

(** src: src/domain/entry-sync.ts:9-13 isExplicitEntryRepairRequest *)
Definition isExplicitEntryRepairRequest (job : EntrySyncJobData) : bool := negb (is_null (ed_entryIds job)).

(** src: src/domain/entry-sync.ts:15-19 isCronEntryInfoTableScan *)
Definition isCronEntryInfoTableScan (job : EntrySyncJobData) : bool :=
  bool_decide (ed_source job = Some Cron) && is_null (ed_entryIds job).

(** src: src/domain/entry-sync.ts:21-25 shouldRefreshEntryPicks *)
Definition shouldRefreshEntryPicks (job : EntrySyncJobData) : bool :=
  bool_decide (ed_source job = Some Cron) || isExplicitEntryRepairRequest job.

(** src: src/domain/entry-sync.ts:27-31 resolveRichResultFreshnessCutoff *)
Definition resolveRichResultFreshnessCutoff (event : option EventFinalizationState) : option Z :=
  match event with
  | Some e => if ef_finished e && ef_dataChecked e then ef_dataCheckedAt e else None
  | None => None
  end.

(** src: src/domain/entry-sync.ts:33-47 resolveEntrySyncTargetEventId *)
Definition resolveEntrySyncTargetEventId (jobName : EntrySyncJobName) (requestedEventId : option Z)
    (currentEventId : option Z) : result (option Z) :=
  if bool_decide (jobName = EntryInfo) || negb (is_null requestedEventId) then Ok requestedEventId
  else match currentEventId with
       | None => Throw "No current event found"
       | Some id => Ok (Some id)
       end.

(** src: src/workers/entry-sync.worker.ts:77-84 LoadedEntryIds *)
Record LoadedEntryIds := mkLoaded {
  le_entryIds : list Z;
  le_hasMore : bool;
  le_lastEntryId : option Z;
  le_chunkSize : Z;
  le_afterEntryId : Z;
  le_fetchedFromDb : bool;
}.

(** src: src/workers/entry-sync.worker.ts:110-151 loadEntryIdsForSync *)
Definition loadEntryIdsForSync (w : SyncWorld) (job : EntrySyncJobData) : LoadedEntryIds :=
  let chunkSize := nullish (ed_chunkSize job) ENTRY_SYNC_DEFAULT_CHUNK_SIZE in
  let afterEntryId := nullish (ed_afterEntryId job) 0 in
  let listed := nullish (ed_entryIds job) [] in
  if negb (is_nil listed) then mkLoaded (dedup listed) false None chunkSize afterEntryId false
  else
    let ids := take (Z.to_nat chunkSize)
      (js_sort (by_key id) (filter (λ id, afterEntryId < id) (sw_entries w))) in
    mkLoaded ids (Z.of_nat (length ids) =? chunkSize) (last ids) chunkSize afterEntryId true.

(** src: src/domain/entry-sync-chain.ts:48-66 planEntryInfoSyncWork *)
Definition planEntryInfoSyncWork (entryIds snapshotRequiredEntryIds : list Z) (refreshAll : bool)
    : list Z * Z :=
  if refreshAll then (entryIds, 0)
  else
    let requiredEntryIds := filter (λ id, id ∈ snapshotRequiredEntryIds) entryIds in
    (requiredEntryIds, Z.of_nat (length entryIds) - Z.of_nat (length requiredEntryIds)).

(** The entries of an entry-info job that need work, and the number of those reused.
    src: src/workers/entry-sync.worker.ts:533-547 createEntrySyncWorker *)
Definition selectEntryInfo (w : SyncWorld) (job : EntrySyncJobData) (entryIds : list Z) : list Z * Z :=
  match ed_eventId job with
  | None => (entryIds, 0)
  | Some targetEventId =>
      planEntryInfoSyncWork entryIds (sw_findIdsNeedingSnapshotSync w entryIds targetEventId)
        (isCronEntryInfoTableScan job)
  end.

(** src: src/workers/entry-sync.worker.ts:575-596 createEntrySyncWorker *)
Definition selectEntryPicks (w : SyncWorld) (job : EntrySyncJobData) (entryIds : list Z) : list Z * Z :=
  match ed_eventId job with
  | None => (entryIds, 0)
  | Some targetEventId =>
      if shouldRefreshEntryPicks job then (entryIds, 0)
      else
        let existing := dedup (sw_findEntryIdsByEvent w targetEventId entryIds) in
        (filter (λ id, id ∉ existing) entryIds, Z.of_nat (length existing))
  end.

(** src: src/workers/entry-sync.worker.ts:614-631 createEntrySyncWorker *)
Definition selectEntryTransfers (w : SyncWorld) (job : EntrySyncJobData) (entryIds : list Z) : list Z * Z :=
  match ed_eventId job with
  | None => (entryIds, 0)
  | Some targetEventId =>
      if isExplicitEntryRepairRequest job then (entryIds, 0)
      else
        let requiredEntryIds := sw_findTransfersNeedingSync w entryIds targetEventId in
        (requiredEntryIds, Z.of_nat (length entryIds) - Z.of_nat (length requiredEntryIds))
  end.

(** src: src/workers/entry-sync.worker.ts:648-679 createEntrySyncWorker *)
Definition selectEntryResults (w : SyncWorld) (job : EntrySyncJobData) (entryIds : list Z) : list Z * Z :=
  match ed_eventId job with
  | None => (entryIds, 0)
  | Some targetEventId =>
      if isExplicitEntryRepairRequest job then (entryIds, 0)
      else
        match resolveRichResultFreshnessCutoff (sw_findEvent w targetEventId) with
        | None => (entryIds, 0)
        | Some finalizationDate =>
            let freshAfter := nullish (sw_findDataCheckedAtExact w targetEventId) finalizationDate in
            let requiredEntryIds := sw_findEntryIdsNeedingRichSync w entryIds targetEventId freshAfter in
            (requiredEntryIds, Z.of_nat (length entryIds) - Z.of_nat (length requiredEntryIds))
        end
  end.

(** src: src/workers/entry-sync.worker.ts:305-307 handleEntryJob *)
Definition selectRequired (w : SyncWorld) (jobName : EntrySyncJobName) (job : EntrySyncJobData)
    (entryIds : list Z) : list Z * Z :=
  match jobName with
  | EntryInfo => selectEntryInfo w job entryIds
  | EntryPicks => selectEntryPicks w job entryIds
  | EntryTransfers => selectEntryTransfers w job entryIds
  | EntryResults => selectEntryResults w job entryIds
  end.

(** src: src/workers/entry-sync.worker.ts:597-603 createEntrySyncWorker *)
Definition auditEntryPicks (w : SyncWorld) (targetEventId : Z) (entryIds : list Z) : list Z :=
  filter (λ id, id ∉ sw_persistedAfter w targetEventId entryIds) entryIds.

(** The entries whose data is still missing after the calls.
    src: src/workers/entry-sync.worker.ts:313-314 handleEntryJob *)
Definition auditRequired (w : SyncWorld) (jobName : EntrySyncJobName) (targetEventId : Z)
    (entryIds : list Z) : list Z :=
  match jobName with
  | EntryPicks => auditEntryPicks w targetEventId entryIds
  | EntryTransfers => sw_transfersNeedingAfter w entryIds targetEventId
  | EntryInfo | EntryResults => []
  end.

(** ** Deciding how the chain goes on *)

(** src: src/domain/entry-sync-chain.ts:1-5 EntrySyncChainDecision *)
Inductive EntrySyncChainDecision :=
| RetryFailed (retryCount : Z) (resumeAfterEntryId : option Z)
| ContinueScan (afterEntryId : Z)
| Complete
| Fail.

(** src: src/domain/entry-sync-chain.ts:7-37 decideEntrySyncChain *)
Definition decideEntrySyncChain (failedUnits retryCount maxRetryCycles : Z) (fetchedFromDb hasMore : bool)
    (lastEntryId resumeAfterEntryId : option Z) : EntrySyncChainDecision :=
  let continuation := if fetchedFromDb then lastEntryId else resumeAfterEntryId in
  if 0 <? failedUnits then
    if maxRetryCycles <? retryCount + 1 then Fail else RetryFailed (retryCount + 1) continuation
  else
    match resumeAfterEntryId with
    | Some resume => ContinueScan resume
    | None =>
        match lastEntryId with
        | Some lastId => if fetchedFromDb && hasMore then ContinueScan lastId else Complete
        | None => Complete
        end
    end.

(** src: src/workers/entry-sync.worker.ts:73-75 maxRetryCycles *)
Definition maxRetryCycles : Z := 2.
Definition retryBaseDelayMs : Z := 5 * 60000.
Definition retryMaxDelayMs : Z := 30 * 60000.

(** src: src/workers/entry-sync.worker.ts:93-96 resolveRetryDelayMs *)
Definition resolveRetryDelayMs (retryCount : Z) : Z :=
  Z.min (retryBaseDelayMs * Z.max retryCount 1) retryMaxDelayMs.

(** src: src/workers/entry-sync.worker.ts:98-108 renewEntrySyncObligationLease *)
Definition renewEntrySyncObligationLease (w : SyncWorld) (job : EntrySyncJobData) (additionalLeaseMs : Z) : bool :=
  match ed_obligationId job with Some _ => sw_renewed w additionalLeaseMs | None => true end.

(** src: src/workers/entry-sync.worker.ts:252-264 EntrySyncSummary *)
Record EntrySyncSummary := mkSummary {
  es_total : Z;
  es_result : SyncSummary;
  es_hasMore : bool;
  es_fetchedFromDb : bool;
  es_scanComplete : bool;
  es_requiredUnits : Z;
  es_reusedUnits : Z;
}.

(** What is enqueued once the transaction of the job has committed, if the lease of the obligation
    can then be renewed for the given time.
    src: src/workers/entry-sync.worker.ts:250-250 PostCommitIntent *)
Record PostCommitIntent := mkIntent { pi_additionalLeaseMs : Z; pi_options : EntrySyncJobOptions }.

(** src: src/workers/entry-sync.worker.ts:220-239 scheduleRetry *)
Definition scheduleRetry (job : EntrySyncJobData) (failedIds : list Z) (retryCount : Z)
    (resumeAfterEntryId : option Z) : EntrySyncJobOptions :=
  retainEntrySyncChainOptions job
    (mkJobOptions (Some failedIds) (Some retryCount) None resumeAfterEntryId None (ed_concurrency job)
       (ed_throttleMs job) None (Some (resolveRetryDelayMs retryCount)) (ed_eventId job) None None None None None).

(** src: src/workers/entry-sync.worker.ts:423-430 handleEntryJob *)
Definition scheduleContinuation (job : EntrySyncJobData) (chunkSize afterEntryId : Z) : EntrySyncJobOptions :=
  retainEntrySyncChainOptions job
    (mkJobOptions None None (Some afterEntryId) None (Some chunkSize)
       (Some (nullish (ed_concurrency job) ENTRY_SYNC_DEFAULT_CONCURRENCY))
       (Some (nullish (ed_throttleMs job) ENTRY_SYNC_DEFAULT_THROTTLE_MS)) None None (ed_eventId job)
       None None None None None).

(** The calls of a job, with the failures the audit adds.
    src: src/workers/entry-sync.worker.ts:305-324 handleEntryJob *)
Definition sync_and_audit (w : SyncWorld) (jobName : EntrySyncJobName) (job : EntrySyncJobData)
    (required : list Z) : SyncSummary :=
  let result := sw_sync w required in
  let missingIds :=
    match ed_eventId job with
    | Some targetEventId => if is_nil required then [] else auditRequired w jobName targetEventId required
    | None => []
    end in
  if is_nil missingIds then result
  else
    let failedIds := dedup (sr_failedIds result ++ missingIds) in
    mkSyncSummary (sr_total result) (Z.max 0 (sr_total result - Z.of_nat (length failedIds)))
      (Z.of_nat (length failedIds)) failedIds.

(** src: src/workers/entry-sync.worker.ts:271-454 handleEntryJob *)
Definition handleEntryJob (w : SyncWorld) (jobName : EntrySyncJobName) (job : EntrySyncJobData)
    : result (EntrySyncSummary * option PostCommitIntent) :=
  let loaded := loadEntryIdsForSync w job in
  if is_nil (le_entryIds loaded) then
    Ok (mkSummary 0 no_entries false (le_fetchedFromDb loaded) (le_fetchedFromDb loaded) 0 0, None)
  else
    let '(required, reused) := selectRequired w jobName job (le_entryIds loaded) in
    let result := sync_and_audit w jobName job required in
    let summary hasMore scanComplete :=
      mkSummary (Z.of_nat (length (le_entryIds loaded))) result hasMore (le_fetchedFromDb loaded)
        scanComplete (Z.of_nat (length required)) reused in
    match decideEntrySyncChain (sr_failed result) (nullish (ed_retryCount job) 0) maxRetryCycles
            (le_fetchedFromDb loaded) (le_hasMore loaded) (le_lastEntryId loaded)
            (ed_resumeAfterEntryId job) with
    | RetryFailed retryCount resumeAfterEntryId =>
        Ok (summary true false,
            Some (mkIntent (resolveRetryDelayMs retryCount)
                    (scheduleRetry job (sr_failedIds result) retryCount resumeAfterEntryId)))
    | Fail => Throw "IncompleteDataSyncError"
    | ContinueScan afterEntryId =>
        Ok (summary true false, Some (mkIntent 0 (scheduleContinuation job (le_chunkSize loaded) afterEntryId)))
    | Complete => Ok (summary false (le_fetchedFromDb loaded), None)
    end.

(** ** A run of a job *)

(** src: src/jobs/entry-info-sync-marker.ts:15-21 shouldMarkEntryInfoSynced *)
Definition shouldMarkEntryInfoSynced (fetchedFromDb hasMore : bool) (failed : Z) : bool :=
  fetchedFromDb && negb hasMore && (failed =? 0).

(** What a run that returns leaves behind. *)
Record JobReport := mkReport {
  jr_summary : EntrySyncSummary;
  jr_next : option EntrySyncJobOptions;
  jr_marksToday : bool;
  jr_completesObligation : bool;
}.

Definition with_event (job : EntrySyncJobData) (eventId : option Z) : EntrySyncJobData :=
  mkJobData (ed_seasonId job) (ed_source job) (ed_entryIds job) (ed_retryCount job) (ed_afterEntryId job)
    (ed_resumeAfterEntryId job) (ed_chunkSize job) (ed_concurrency job) (ed_throttleMs job) eventId
    (ed_runId job) (ed_obligationId job) (ed_obligationGeneration job) (ed_queueKey job) (ed_removeOnSettle job).

(** [None] when the job belongs to a stale generation of its obligation and is skipped.
    src: src/workers/entry-sync.worker.ts:483-715 createEntrySyncWorker *)
Definition processor (w : SyncWorld) (jobName : EntrySyncJobName) (job : EntrySyncJobData)
    : result (option JobReport) :=
  if negb (renewEntrySyncObligationLease w job 0) then Ok None
  else
    let* targetEventId := resolveEntrySyncTargetEventId jobName (ed_eventId job) (sw_currentEventId w) in
    let effective := match targetEventId with Some _ => with_event job targetEventId | None => job end in
    let* handled := handleEntryJob w jobName effective in
    let '(summary, afterCommit) := handled in
    Ok (Some {|
      jr_summary := summary;
      jr_next :=
        match afterCommit with
        | Some intent =>
            if renewEntrySyncObligationLease w effective (pi_additionalLeaseMs intent)
            then Some (pi_options intent) else None
        | None => None
        end;
      jr_marksToday :=
        bool_decide (jobName = EntryInfo) && bool_decide (ed_source effective = Some Cron) &&
        shouldMarkEntryInfoSynced (es_fetchedFromDb summary) (es_hasMore summary) (sr_failed (es_result summary));
      jr_completesObligation := negb (is_null (ed_obligationId effective)) && es_scanComplete summary;
    |}).

(** ** The chain *)

(** How a chain ends: its scan complete, its list of entries done, its lease lost, a job dead. *)
Inductive ChainEnd := ScanComplete | ListComplete | Superseded | Dead.

(** A job that returned: what it loaded, what of it needed work, how its calls ended, and its
    report. *)
Record LogEntry := mkLogEntry {
  lg_loaded : list Z;
  lg_required : list Z;
  lg_handler : Z → bool;
  lg_report : JobReport;
}.

Definition effective_job (w : SyncWorld) (jobName : EntrySyncJobName) (job : EntrySyncJobData) : EntrySyncJobData :=
  match resolveEntrySyncTargetEventId jobName (ed_eventId job) (sw_currentEventId w) with
  | Ok (Some e) => with_event job (Some e)
  | _ => job
  end.

Definition log_entry (w : SyncWorld) (jobName : EntrySyncJobName) (job : EntrySyncJobData) (report : JobReport)
    : LogEntry :=
  let loaded := le_entryIds (loadEntryIdsForSync w job) in
  mkLogEntry loaded
    (if is_nil loaded then [] else (selectRequired w jobName (effective_job w jobName job) loaded).1)
    (sw_handler w) report.

(** [attempts: 3] *)
Definition job_attempts : Z := 3.

(** Runs the chain of a job; run [n] of a job meets [worlds n].  A throwing job is run again by the
    queue until its attempts are used up; [attempt] counts those made.  [None] when [fuel] runs out. *)
Fixpoint run_chain (fuel : nat) (worlds : nat → SyncWorld) (seasonCode : jsstr) (jobName : EntrySyncJobName)
    (n : nat) (attempt : Z) (job : EntrySyncJobData) : option (ChainEnd * list LogEntry) :=
  match fuel with
  | O => None
  | S fuel =>
      let w := worlds n in
      match processor w jobName job with
      | Throw _ =>
          if attempt + 1 <? job_attempts
          then run_chain fuel worlds seasonCode jobName (S n) (attempt + 1) job
          else Some (Dead, [])
      | Ok None => Some (Superseded, [])
      | Ok (Some report) =>
          let entry := log_entry w jobName job report in
          match jr_next report with
          | Some options =>
              let next := new_job [] seasonCode (ed_seasonId job) jobName (nullish (ed_source job) Cron) options in
              '(result, log) ← run_chain fuel worlds seasonCode jobName (S n) 0 (qj_data next);
              Some (result, entry :: log)
          | None =>
              Some (if es_scanComplete (jr_summary report) then ScanComplete
                    else if es_hasMore (jr_summary report) then Superseded else ListComplete, [entry])
          end
      end
  end.

(** ** Loading *)

Lemma by_key_id_sorted (l : list Z) : StronglySorted Z.le (js_sort (by_key id) l).
Proof.
  pose proof (js_sort_sorted (by_key (id : Z → Z)) l) as H. revert H. apply StronglySorted_impl.
  intros x y. unfold cmp_le, by_key. cbn. lia.
Qed.

Section scan_chunk.
Context (entries : list Z) (after : Z) (chunk : nat).
Let chunk_ids : list Z := take chunk (js_sort (by_key id) (filter (λ id, after < id) entries)).

Lemma elem_of_scan x : x ∈ js_sort (by_key id) (filter (λ id, after < id) entries) ↔ after < x ∧ x ∈ entries.
Proof. by rewrite elem_of_js_sort, list_elem_of_filter. Qed.

Lemma chunk_elem x : x ∈ chunk_ids → after < x ∧ x ∈ entries.
Proof. intros Hx. apply elem_of_scan. by eapply elem_of_take in Hx as (i & Hi & _); eapply list_elem_of_lookup_2. Qed.

(** A chunk has every entry up to its last one. *)
Lemma chunk_upto l x : last chunk_ids = Some l → x ∈ entries → after < x → x ≤ l → x ∈ chunk_ids.
Proof.
  intros Hl Hx Hax Hxl.
  assert (x ∈ js_sort (by_key id) (filter (λ id, after < id) entries)) as Hin by (by apply elem_of_scan).
  pose proof (by_key_id_sorted (filter (λ id, after < id) entries)) as Hs.
  rewrite <-(take_drop chunk (js_sort _ _)) in Hin, Hs. apply elem_of_app in Hin as [Hin|Hin]; [done|].
  apply last_Some in Hl as [ids' Hids]. fold chunk_ids in Hs. rewrite Hids in Hs |- *.
  rewrite <-(assoc_L (++)) in Hs. apply StronglySorted_app in Hs as (_ & _ & Hs).
  apply StronglySorted_app in Hs as (Hs & _ & _).
  specialize (Hs l x). assert (x = l) as -> by (pose proof (Hs ltac:(by left) Hin); lia). set_solver.
Qed.

(** A chunk that is not full has every entry left. *)
Lemma chunk_short x : (length chunk_ids ≠ chunk) → x ∈ entries → after < x → x ∈ chunk_ids.
Proof.
  unfold chunk_ids. rewrite length_take. intros Hlen Hx Hax. rewrite take_ge by lia. by apply elem_of_scan.
Qed.
End scan_chunk.

(** ** What one run decides *)

(** Where a job leaves the chain: the entries that failed and the job that follows. *)
Inductive chain_move (loaded : LoadedEntryIds) (job : EntrySyncJobData) :
    list Z → option EntrySyncJobOptions → bool → bool → Prop :=
| move_empty :
    le_entryIds loaded = [] →
    chain_move loaded job [] None (le_fetchedFromDb loaded) false
| move_retry failed job' :
    le_entryIds loaded ≠ [] → failed ≠ [] → nullish (ed_retryCount job) 0 + 1 ≤ maxRetryCycles →
    chain_move loaded job failed
      (Some (scheduleRetry job' failed (nullish (ed_retryCount job) 0 + 1)
               (if le_fetchedFromDb loaded then le_lastEntryId loaded else ed_resumeAfterEntryId job)))
      false true
| move_continue next job' :
    le_entryIds loaded ≠ [] →
    ed_resumeAfterEntryId job = Some next ∨
      ed_resumeAfterEntryId job = None ∧ le_fetchedFromDb loaded = true ∧ le_lastEntryId loaded = Some next →
    chain_move loaded job [] (Some (scheduleContinuation job' (le_chunkSize loaded) next)) false true
| move_complete :
    le_entryIds loaded ≠ [] → ed_resumeAfterEntryId job = None →
    le_fetchedFromDb loaded = false ∨ le_hasMore loaded = false ∨ le_lastEntryId loaded = None →
    chain_move loaded job [] None (le_fetchedFromDb loaded) false.

(** The failures a job reports are those of its calls and of the audit. *)
Lemma sync_and_audit_promise w jobName job required :
  let r := sync_and_audit w jobName job required in
  sr_failed r = Z.of_nat (length (sr_failedIds r)) ∧
  ∀ id, id ∈ required → id ∉ sr_failedIds r → sw_handler w id = true.
Proof.
  unfold sync_and_audit. pose proof (sw_sync_promise w required) as [_ _ Hf Hp].
  assert (∀ id, id ∈ required → id ∉ sr_failedIds (sw_sync w required) → sw_handler w id = true) as Hok.
  { intros id Hid Hn. apply not_false_iff_true. intros Hh. apply Hn. rewrite Hp. by apply list_elem_of_filter. }
  set (missing := match ed_eventId job with Some _ => _ | None => _ end).
  destruct (is_nil missing); cbn; split; try done.
  intros id Hid Hn. apply Hok; [done|]. intros H. apply Hn, elem_of_dedup, elem_of_app. by left.
Qed.

Lemma handle_moves w jobName job summary intent :
  handleEntryJob w jobName job = Ok (summary, intent) →
  chain_move (loadEntryIdsForSync w job) job (sr_failedIds (es_result summary)) (pi_options <$> intent)
    (es_scanComplete summary) (es_hasMore summary) ∧
  es_fetchedFromDb summary = le_fetchedFromDb (loadEntryIdsForSync w job) ∧
  sr_failed (es_result summary) = Z.of_nat (length (sr_failedIds (es_result summary))) ∧
  (le_entryIds (loadEntryIdsForSync w job) ≠ [] → ∀ id,
    id ∈ (selectRequired w jobName job (le_entryIds (loadEntryIdsForSync w job))).1 →
    id ∉ sr_failedIds (es_result summary) → sw_handler w id = true).
Proof.
  unfold handleEntryJob. set (loaded := loadEntryIdsForSync w job).
  destruct (le_entryIds loaded) as [|x ids] eqn:Hids; cbn [is_nil].
  { intros [= <- <-]. cbn. split_and!; [by apply move_empty|done..]. }
  rewrite <-Hids. assert (le_entryIds loaded ≠ []) as Hne by (by rewrite Hids).
  destruct (selectRequired w jobName job (le_entryIds loaded)) as [required reused].
  pose proof (sync_and_audit_promise w jobName job required) as [Hf Hok].
  set (r := sync_and_audit w jobName job required) in *. unfold decideEntrySyncChain.
  destruct (Z.ltb_spec 0 (sr_failed r)) as [Hpos|Hzero].
  - destruct (Z.ltb_spec maxRetryCycles (nullish (ed_retryCount job) 0 + 1)); [done|].
    intros [= <- <-]. cbn. split_and!; [|done..].
    apply move_retry; [done| |done]. intros E. rewrite E in Hf. cbn in Hf. lia.
  - assert (sr_failedIds r = []) as Hnil by (apply nil_length_inv; lia).
    destruct (ed_resumeAfterEntryId job) as [resume|] eqn:Hr.
    + intros [= <- <-]. cbn. split_and!; [|done..]. rewrite Hnil. apply move_continue; auto.
    + destruct (le_lastEntryId loaded) as [l|] eqn:Hl.
      * destruct (le_fetchedFromDb loaded && le_hasMore loaded) eqn:Hb; intros [= <- <-]; cbn;
          (split_and!; [|done..]); rewrite Hnil.
        -- apply move_continue; [done|]. boolsolve. auto.
        -- apply move_complete; [done..|]. apply andb_false_iff in Hb. naive_solver.
      * intros [= <- <-]. cbn. split_and!; [|done..]. rewrite Hnil. apply move_complete; auto.
Qed.

Lemma chain_move_with_event loaded job e failed next scan more :
  chain_move loaded (with_event job e) failed next scan more → chain_move loaded job failed next scan more.
Proof.
  destruct 1; [exact (move_empty loaded job H)|exact (move_retry loaded job failed job' H H0 H1)
              |exact (move_continue loaded job next job' H H0)|exact (move_complete loaded job H H0 H1)].
Qed.

(** A run that returns makes a move of the chain, unless the renewal for its successor is refused. *)
Lemma processor_moves w jobName job report :
  processor w jobName job = Ok (Some report) →
  let loaded := loadEntryIdsForSync w job in
  let summary := jr_summary report in
  (∃ next, chain_move loaded job (sr_failedIds (es_result summary)) next (es_scanComplete summary) (es_hasMore summary) ∧
     (jr_next report = next ∨ jr_next report = None ∧ next ≠ None)) ∧
  (jr_marksToday report = true → es_fetchedFromDb summary = true ∧ es_hasMore summary = false) ∧
  es_fetchedFromDb summary = le_fetchedFromDb loaded ∧
  (le_entryIds loaded ≠ [] → ∀ id,
     id ∈ (selectRequired w jobName (effective_job w jobName job) (le_entryIds loaded)).1 →
     id ∉ sr_failedIds (es_result summary) → sw_handler w id = true).
Proof.
  unfold processor, effective_job. destruct (negb _); [done|].
  destruct (resolveEntrySyncTargetEventId _ _ _) as [target|]; [|done]. cbn [result_bind].
  set (effective := match target with Some _ => with_event job target | None => job end).
  assert (loadEntryIdsForSync w effective = loadEntryIdsForSync w job) as Hload by (by destruct target).
  destruct (handleEntryJob w jobName effective) as [[summary intent]|] eqn:Hh; [|done]. cbn [result_bind].
  intros [= <-]. apply handle_moves in Hh as (Hmove & Hfetch & Hf & Hok). rewrite Hload in *. cbn. split_and!.
  - exists (pi_options <$> intent). split.
    + unfold effective in Hmove. destruct target; [by eapply chain_move_with_event|done].
    + destruct intent as [intent|]; cbn; [|by left]. destruct (renewEntrySyncObligationLease _ _ _); auto.
  - unfold shouldMarkEntryInfoSynced. intros Hm. boolsolve. done.
  - done.
  - by destruct target.
Qed.

Lemma processor_completes w jobName job report :
  processor w jobName job = Ok (Some report) → jr_completesObligation report = true →
  es_scanComplete (jr_summary report) = true.
Proof.
  unfold processor. destruct (negb _); [done|].
  destruct (resolveEntrySyncTargetEventId _ _ _) as [target|]; [|done]. cbn [result_bind].
  destruct (handleEntryJob _ _ _) as [[summary intent]|]; [|done]. cbn [result_bind].
  intros [= <-]. cbn. intros H. boolsolve. done.
Qed.

(** The data of the successor of a move. *)
Lemma retry_data seasonCode seasonId jobName source job failed retryCount resume :
  let next := qj_data (new_job [] seasonCode seasonId jobName source (scheduleRetry job failed retryCount resume)) in
  ed_entryIds next = Some failed ∧ ed_retryCount next = Some retryCount ∧ ed_resumeAfterEntryId next = resume ∧
  0 < nullish (ed_chunkSize next) ENTRY_SYNC_DEFAULT_CHUNK_SIZE.
Proof. done. Qed.

Lemma continuation_data seasonCode seasonId jobName source job chunkSize after :
  let next := qj_data (new_job [] seasonCode seasonId jobName source (scheduleContinuation job chunkSize after)) in
  ed_entryIds next = None ∧ ed_retryCount next = None ∧ ed_resumeAfterEntryId next = None ∧
  nullish (ed_afterEntryId next) 0 = Z.max 0 after ∧ 0 < nullish (ed_chunkSize next) ENTRY_SYNC_DEFAULT_CHUNK_SIZE.
Proof.
  cbn. split_and!; try done.
  - destruct (Z.ltb_spec after 0); lia.
  - destruct (Z.leb_spec chunkSize 0); [done|lia].
Qed.

(** ** Termination *)

Section termination.
Context (T : list Z).

(** The entries the scan still has ahead of a cursor. *)
Definition ahead (after : Z) : Z := Z.of_nat (length (filter (λ id, after < id) T)).

Lemma ahead_mono a b : a ≤ b → ahead b ≤ ahead a.
Proof.
  intros Hab. unfold ahead. apply inj_le, sublist_length.
  induction T as [|x l IH]; [done|]. rewrite !filter_cons.
  repeat case_decide; [by constructor|lia|by constructor|done].
Qed.

Lemma ahead_lt a b : a < b → b ∈ T → ahead b < ahead a.
Proof.
  intros Hab Hb. apply list_elem_of_split in Hb as (l1 & l2 & HT).
  assert (ahead b + 1 ≤ ahead a); [|lia].
  assert (∀ l, Z.of_nat (length (filter (λ id, b < id) l)) ≤ Z.of_nat (length (filter (λ id, a < id) l))) as Hm.
  { clear -Hab. induction l as [|x l IH]; [done|]. rewrite !filter_cons. repeat case_decide; cbn; lia. }
  unfold ahead. rewrite HT, !filter_app, !filter_cons, decide_False, decide_True by lia.
  rewrite !length_app. cbn. pose proof (Hm l1). pose proof (Hm l2). lia.
Qed.

Lemma ahead_bound a : 0 ≤ ahead a ≤ Z.of_nat (length T).
Proof. unfold ahead. split; [lia|]. apply inj_le, length_filter. Qed.

(** The chunks and lists still to come, at most. *)
Definition phases (job : EntrySyncJobData) : Z :=
  match ed_entryIds job with
  | Some (_ :: _) => match ed_resumeAfterEntryId job with Some resume => ahead resume + 2 | None => 1 end
  | _ => ahead (nullish (ed_afterEntryId job) 0) + 1 +
         match ed_resumeAfterEntryId job with Some resume => ahead resume + 2 | None => 0 end
  end.

Definition retries_left (job : EntrySyncJobData) : Z := Z.max 0 (maxRetryCycles - nullish (ed_retryCount job) 0).

(** The runs a chain can still take. *)
Definition runs_left (attempt : Z) (job : EntrySyncJobData) : Z :=
  9 * phases job + 3 * retries_left job + (job_attempts - attempt).

Lemma loaded_scan w job :
  is_nil (nullish (ed_entryIds job) []) = true → le_fetchedFromDb (loadEntryIdsForSync w job) = true.
Proof. intros H. unfold loadEntryIdsForSync. by rewrite H. Qed.

Lemma loaded_last w job l :
  le_lastEntryId (loadEntryIdsForSync w job) = Some l →
  is_nil (nullish (ed_entryIds job) []) = true ∧ nullish (ed_afterEntryId job) 0 < l ∧ l ∈ sw_entries w.
Proof.
  unfold loadEntryIdsForSync. destruct (is_nil _) eqn:Hn; cbn; [|done].
  intros Hl. split; [done|]. apply last_Some in Hl as [ids Hids]. eapply chunk_elem. rewrite Hids. set_solver.
Qed.

Lemma phases_bound job : 1 ≤ phases job ≤ 2 * Z.of_nat (length T) + 3.
Proof.
  unfold phases. pose proof (ahead_bound (nullish (ed_afterEntryId job) 0)).
  destruct (ed_entryIds job) as [[|]|], (ed_resumeAfterEntryId job) as [r|];
    try pose proof (ahead_bound r); lia.
Qed.

Lemma phases_list job failed resume :
  ed_entryIds job = Some failed → failed ≠ [] → ed_resumeAfterEntryId job = resume →
  phases job = match resume with Some resume => ahead resume + 2 | None => 1 end.
Proof. unfold phases. intros -> Hne ->. by destruct failed. Qed.

(** Every move uses up runs. *)
Lemma move_decreases w seasonCode seasonId jobName source job failed options scan more attempt :
  (∀ id, id ∈ sw_entries w → id ∈ T) → 0 ≤ nullish (ed_retryCount job) 0 → attempt < job_attempts →
  chain_move (loadEntryIdsForSync w job) job failed (Some options) scan more →
  let next := qj_data (new_job [] seasonCode seasonId jobName source options) in
  0 ≤ nullish (ed_retryCount next) 0 ∧ runs_left 0 next < runs_left attempt job.
Proof.
  intros HT Hretry Hatt Hmove next. unfold runs_left, job_attempts, retries_left, maxRetryCycles in *.
  inversion Hmove as [|? job' Hne Hf Hmax|c job' Hne Hc|]; subst.
  - destruct (retry_data seasonCode seasonId jobName source job' failed (nullish (ed_retryCount job) 0 + 1)
      (if le_fetchedFromDb (loadEntryIdsForSync w job) then le_lastEntryId (loadEntryIdsForSync w job)
       else ed_resumeAfterEntryId job)) as (He & Hr & Hres & _).
    fold next in He, Hr, Hres. rewrite Hr. cbn [nullish default]. split; [cbn; lia|].
    assert (phases next ≤ phases job); [|unfold maxRetryCycles in *; cbn in *; lia].
    rewrite (phases_list next failed _ He Hf Hres).
    pose proof (phases_bound job). destruct (le_fetchedFromDb _) eqn:Hfetch.
    + destruct (le_lastEntryId _) as [l|] eqn:Hl; [|lia]. apply loaded_last in Hl as (Hn & Hal & Hin).
      apply HT in Hin. pose proof (ahead_lt _ _ Hal Hin). unfold phases.
      destruct (ed_entryIds job) as [[|]|]; cbn in Hn; try done;
        destruct (ed_resumeAfterEntryId job) as [r|]; try pose proof (ahead_bound r); cbn in *; lia.
    + unfold phases. unfold loadEntryIdsForSync in Hfetch.
      destruct (ed_entryIds job) as [[|]|]; cbn in Hfetch; try done.
  - destruct (continuation_data seasonCode seasonId jobName source job'
      (le_chunkSize (loadEntryIdsForSync w job)) c) as (He & Hr & Hres & Ha & _).
    fold next in He, Hr, Hres, Ha. rewrite Hr. split; [cbn; lia|].
    assert (phases next + 1 ≤ phases job); [|change (nullish (@None Z) 0) with 0; lia].
    unfold phases at 1. rewrite He, Hres, Ha. pose proof (ahead_mono c (Z.max 0 c) ltac:(lia)).
    unfold phases. pose proof (ahead_bound (nullish (ed_afterEntryId job) 0)).
    destruct Hc as [Hc|(Hc & Hfetch & Hl)]; rewrite Hc.
    + destruct (ed_entryIds job) as [[|]|]; lia.
    + apply loaded_last in Hl as (Hn & Hal & Hin). apply HT in Hin. pose proof (ahead_lt _ _ Hal Hin).
      destruct (ed_entryIds job) as [[|]|]; cbn in *; try done; lia.
Qed.
End termination.

(** ** The whole chain *)

Lemma run_chain_ends (T : list Z) worlds seasonCode jobName fuel n attempt job :
  (∀ n id, id ∈ sw_entries (worlds n) → id ∈ T) → 0 ≤ nullish (ed_retryCount job) 0 →
  attempt < job_attempts → runs_left T attempt job ≤ Z.of_nat fuel →
  ∃ result log, run_chain fuel worlds seasonCode jobName n attempt job = Some (result, log).
Proof.
  intros HT. revert n attempt job. induction fuel as [|fuel IH]; intros n attempt job Hr Ha Hf.
  { pose proof (phases_bound T job). unfold runs_left, retries_left, job_attempts in *. lia. }
  cbn [run_chain]. destruct (processor (worlds n) jobName job) as [[report|]|] eqn:Hp; [|eauto|].
  - apply processor_moves in Hp as ((next & Hmove & Hnext) & _).
    destruct (jr_next report) as [options|]; [|eauto]. destruct Hnext as [<-|[? _]]; [|done].
    eapply (move_decreases T) with (seasonCode := seasonCode) (seasonId := ed_seasonId job)
      (jobName := jobName) (source := nullish (ed_source job) Cron) (attempt := attempt) in Hmove as [H1 H2]; [|by eauto..].
    edestruct (IH (S n) 0) as (result & log & ->); [exact H1|done| |by eauto]. lia.
  - destruct (Z.ltb_spec (attempt + 1) job_attempts); [|eauto].
    apply IH; [done|done|]. unfold runs_left in *. lia.
Qed.

(** The entries a job and its successors answer for. *)
Definition in_scope (job : EntrySyncJobData) (id : Z) : Prop :=
  match ed_entryIds job with
  | Some ((_ :: _) as ids) => id ∈ ids ∨ ∃ resume, ed_resumeAfterEntryId job = Some resume ∧ resume < id
  | _ => nullish (ed_afterEntryId job) 0 < id
  end.

(** The entry was read by the job, its call was not needed or succeeded, and no audit found its data
    missing. *)
Definition synced (entry : LogEntry) (id : Z) : Prop :=
  id ∈ lg_loaded entry ∧ id ∉ sr_failedIds (es_result (jr_summary (lg_report entry))) ∧
  (id ∈ lg_required entry → lg_handler entry id = true).

(** A chunk size is positive, and only a list of entries says where a scan resumes. *)
Definition well_formed (job : EntrySyncJobData) : Prop :=
  0 < nullish (ed_chunkSize job) ENTRY_SYNC_DEFAULT_CHUNK_SIZE ∧
  (is_nil (nullish (ed_entryIds job) []) = true → ed_resumeAfterEntryId job = None).

Lemma loaded_last_elem w job l :
  le_lastEntryId (loadEntryIdsForSync w job) = Some l → l ∈ le_entryIds (loadEntryIdsForSync w job).
Proof.
  unfold loadEntryIdsForSync. destruct (is_nil _); cbn; [|done].
  intros [ids Hids]%last_Some. rewrite Hids. set_solver.
Qed.

Lemma loaded_list w job id ids :
  ed_entryIds job = Some (id :: ids) →
  le_fetchedFromDb (loadEntryIdsForSync w job) = false ∧
  ∀ x, x ∈ le_entryIds (loadEntryIdsForSync w job) ↔ x ∈ id :: ids.
Proof. intros E. unfold loadEntryIdsForSync. rewrite E. split; [done|]. intros x. apply elem_of_dedup. Qed.

(** What a chunk leaves out is behind its last entry, and nothing if there is no more. *)
Lemma loaded_chunk w job x :
  well_formed job → is_nil (nullish (ed_entryIds job) []) = true →
  x ∈ sw_entries w → nullish (ed_afterEntryId job) 0 < x →
  let loaded := loadEntryIdsForSync w job in
  (x ∈ le_entryIds loaded ∨ ∃ l, le_lastEntryId loaded = Some l ∧ l < x) ∧
  (le_hasMore loaded = false ∨ le_lastEntryId loaded = None → x ∈ le_entryIds loaded).
Proof.
  intros [Hc _] Hn Hx Hax. unfold loadEntryIdsForSync. rewrite Hn. cbn.
  set (chunk := Z.to_nat (nullish (ed_chunkSize job) ENTRY_SYNC_DEFAULT_CHUNK_SIZE)).
  set (after := nullish (ed_afterEntryId job) 0) in *.
  set (ids := take chunk _). destruct (last ids) as [l|] eqn:Hl.
  - split; [|intros [Hm|[=]]; apply chunk_short; [|done..]].
    + destruct (decide (l < x)); [by right; eexists|]. left. eapply chunk_upto; [done..|lia].
    + apply Z.eqb_neq in Hm. fold ids. intros E. apply Hm. rewrite E. unfold chunk. lia.
  - assert (x ∈ ids) as Hin; [|by split; [left|]].
    apply chunk_short; [|done..]. fold ids. apply last_None in Hl. rewrite Hl. cbn. lia.
Qed.

Lemma move_covers w seasonCode seasonId jobName source job failed next scan more id :
  well_formed job → chain_move (loadEntryIdsForSync w job) job failed next scan more →
  id ∈ sw_entries w → 0 < id → in_scope job id →
  id ∈ le_entryIds (loadEntryIdsForSync w job) ∧ id ∉ failed ∨
  ∃ options, next = Some options ∧
    in_scope (qj_data (new_job [] seasonCode seasonId jobName source options)) id.
Proof.
  intros Hwf Hmove Hid Hpos Hscope. unfold in_scope in Hscope.
  assert (∀ resume job' rc, id ∈ failed ∨ (∃ r, resume = Some r ∧ r < id) → failed ≠ [] →
    in_scope (qj_data (new_job [] seasonCode seasonId jobName source (scheduleRetry job' failed rc resume))) id) as Hretry.
  { intros resume job' rc H Hne. unfold in_scope. cbn. by destruct failed. }
  assert (∀ job' chunk c, c < id → in_scope
    (qj_data (new_job [] seasonCode seasonId jobName source (scheduleContinuation job' chunk c))) id) as Hcont.
  { intros job' chunk c H. unfold in_scope. cbn. destruct (c <? 0); lia. }
  destruct (is_nil (nullish (ed_entryIds job) [])) eqn:Hn.
  - assert (nullish (ed_afterEntryId job) 0 < id) as Hafter by (destruct (ed_entryIds job) as [[|]|]; done).
    destruct (loaded_chunk w job id Hwf Hn Hid Hafter) as [Hl Hall].
    pose proof (loaded_scan w job Hn) as Hfetch. destruct Hwf as [_ Hwf]. specialize (Hwf Hn).
    destruct Hmove as [He|failed job' Hne Hf Hmax|c job' Hne Hc|Hne Hr Hend].
    + rewrite He in Hl. destruct Hl as [?|(l & Hl & _)]; [set_solver|].
      apply loaded_last_elem in Hl. rewrite He in Hl. set_solver.
    + rewrite Hfetch. destruct (decide (id ∈ failed)); [right; eexists; split; [done|]; apply Hretry; auto|].
      destruct Hl as [?|Hl]; [by left|]. right; eexists; split; [done|]; apply Hretry; auto.
    + destruct Hc as [?|(_ & _ & Hc)]; [congruence|]. destruct Hl as [?|(l & Hl & Hlt)]; [left; set_solver|].
      right; eexists; split; [done|]. apply Hcont. congruence.
    + left. split; [|set_solver]. apply Hall. destruct Hend as [?|?]; [congruence|done].
  - destruct (ed_entryIds job) as [[|x ids]|] eqn:E; try done.
    destruct (loaded_list w job x ids E) as [Hfetch Hmem].
    destruct Hmove as [He|failed job' Hne Hf Hmax|c job' Hne Hc|Hne Hr Hend].
    + exfalso. assert (x ∈ le_entryIds (loadEntryIdsForSync w job)) as H by (apply Hmem; by left).
      rewrite He in H. set_solver.
    + rewrite Hfetch. destruct (decide (id ∈ failed)); [right; eexists; split; [done|]; apply Hretry; auto|].
      destruct Hscope as [Hin|Hin]; [left; split; [by apply Hmem|done]|].
      right; eexists; split; [done|]; apply Hretry; auto.
    + destruct Hscope as [Hin|(r & Hr & Hlt)]; [left; split; [by apply Hmem|set_solver]|].
      right; eexists; split; [done|]. apply Hcont.
      destruct Hc as [?|(_ & ? & _)]; congruence.
    + left. destruct Hscope as [Hin|(r & Hr' & Hlt)]; [|congruence]. split; [by apply Hmem|set_solver].
Qed.

Lemma move_has_more loaded job failed next scan more :
  chain_move loaded job failed next scan more →
  match next with Some _ => scan = false ∧ more = true | None => scan = le_fetchedFromDb loaded ∧ more = false end.
Proof. by destruct 1. Qed.

Lemma move_well_formed loaded job failed options scan more seasonCode seasonId jobName source :
  chain_move loaded job failed (Some options) scan more →
  well_formed (qj_data (new_job [] seasonCode seasonId jobName source options)).
Proof.
  unfold well_formed. inversion 1 as [|? job' Hne Hf Hmax|c job' Hne Hc|]; subst.
  - split; [done|]. cbn. by destruct failed.
  - split; [|done]. apply (continuation_data seasonCode seasonId jobName source job').
Qed.

Lemma run_chain_covers worlds seasonCode jobName fuel n attempt job result log id :
  well_formed job → (∀ n, id ∈ sw_entries (worlds n)) → 0 < id →
  run_chain fuel worlds seasonCode jobName n attempt job = Some (result, log) →
  result = ScanComplete ∨ result = ListComplete → in_scope job id →
  ∃ entry, entry ∈ log ∧ synced entry id.
Proof.
  intros Hwf Hid Hpos. revert n attempt job log Hwf. induction fuel as [|fuel IH]; intros n attempt job log Hwf; [done|].
  cbn [run_chain]. destruct (processor (worlds n) jobName job) as [[report|]|] eqn:Hp; [| |].
  - intros Hrun Hend Hscope. apply processor_moves in Hp as ((next & Hmove & Hnext) & _ & _ & Hok).
    destruct (move_covers (worlds n) seasonCode (ed_seasonId job) jobName (nullish (ed_source job) Cron) job _ _ _ _ id
      Hwf Hmove (Hid n) Hpos Hscope) as [[Hin Hnf]|(options & -> & Hscope')].
    + assert (synced (log_entry (worlds n) jobName job report) id) as Hs.
      { unfold synced, log_entry. cbn [lg_loaded lg_required lg_handler lg_report].
        split_and!; [done..|]. destruct (le_entryIds _) as [|x l] eqn:El; [set_solver|].
        cbn [is_nil]. intros H. by apply Hok. }
      exists (log_entry (worlds n) jobName job report). split; [|done].
      destruct (jr_next report); [|injection Hrun as _ <-; by left].
      destruct (run_chain _ _ _ _ _ _ _) as [[r l]|]; [|done]. injection Hrun as _ <-. by left.
    + destruct (jr_next report) as [options'|].
      * destruct Hnext as [[= ->]|[? _]]; [|done].
        destruct (run_chain _ _ _ _ _ _ _) as [[r l]|] eqn:Hr; [|done]. injection Hrun as <- <-.
        apply IH in Hr as (entry & ? & ?); [|by eapply move_well_formed|done|done].
        exists entry. split; [by right|done].
      * apply move_has_more in Hmove as [Hs Hm]. rewrite Hs, Hm in Hrun. injection Hrun as <- _. naive_solver.
  - intros [= <- <-]. naive_solver.
  - destruct (attempt + 1 <? job_attempts); [|intros [= <- <-]; naive_solver]. by apply IH.
Qed.

(** A job of a chain completes the obligation or marks the day only when it is the last of a
    complete scan. *)
Lemma run_chain_reports worlds seasonCode jobName fuel n attempt job result log entry :
  run_chain fuel worlds seasonCode jobName n attempt job = Some (result, log) → entry ∈ log →
  jr_completesObligation (lg_report entry) = true ∨ jr_marksToday (lg_report entry) = true →
  result = ScanComplete.
Proof.
  revert n attempt job log. induction fuel as [|fuel IH]; intros n attempt job log; [done|].
  cbn [run_chain]. destruct (processor (worlds n) jobName job) as [[report|]|] eqn:Hp.
  - pose proof (processor_completes _ _ _ _ Hp) as Hc.
    apply processor_moves in Hp as ((next & Hmove & Hnext) & Hmark & Hfetch & _).
    apply move_has_more in Hmove. destruct (jr_next report) as [options|] eqn:Hj.
    + destruct Hnext as [<-|[? _]]; [|done]. destruct Hmove as [Hs Hm].
      destruct (run_chain _ _ _ _ _ _ _) as [[r l]|] eqn:Hr; [|done]. intros [= <- <-].
      intros [->|Hin]%elem_of_cons; [|by eapply IH]. cbn.
      intros [H|H]; [apply Hc in H; congruence|]. apply Hmark in H as [_ H]. congruence.
    + intros [= <- <-] ->%list_elem_of_singleton. cbn.
      intros [H|H]; [by rewrite (Hc H)|]. apply Hmark in H as [H1 H2].
      destruct next; [destruct Hmove; congruence|]. destruct Hmove as [-> _]. by rewrite <-Hfetch, H1.
  - intros [= <- <-]. set_solver.
  - destruct (attempt + 1 <? job_attempts); [by apply IH|]. intros [= <- <-]. set_solver.
Qed.

(** C38: A synchronisation chain ends. Whatever the database, the provider and the renewals of the
    lease do between two runs, if the entries always come from one finite set [T], the chain of a job
    with a non-negative retry count is over after at most [18 |T| + 36] runs: with its scan
    complete, its list of entries done, superseded by another generation of its obligation, or
    dead. *)
Theorem entry_sync_chain_terminates (T : list Z) (worlds : nat → SyncWorld) (seasonCode : jsstr)
    (jobName : EntrySyncJobName) (job : EntrySyncJobData) (fuel : nat)
    (HT : ∀ n id, id ∈ sw_entries (worlds n) → id ∈ T) (Hretry : 0 ≤ nullish (ed_retryCount job) 0)
    (Hfuel : (18 * length T + 36 ≤ fuel)%nat) :
  ∃ result log, run_chain fuel worlds seasonCode jobName 0 0 job = Some (result, log).
Proof.
  eapply run_chain_ends; [exact HT|exact Hretry|done|].
  pose proof (phases_bound T job). unfold runs_left, retries_left, job_attempts, maxRetryCycles. lia.
Qed.

(** C37: No entry is lost. When a job of the chain of a scan completes the obligation or marks the
    day, and also whenever the chain ends with its scan complete, then every entry after the first
    cursor that stays in the season is in the log of some job whose audit did not miss it and whose
    call on it was not needed or succeeded; whatever failed, was retried or was re-chunked on the
    way. *)
Theorem entry_sync_chain_covers (worlds : nat → SyncWorld) (seasonCode : jsstr)
    (jobName : EntrySyncJobName) (job : EntrySyncJobData) (fuel : nat) (result : ChainEnd)
    (log : list LogEntry) (id : Z)
    (Hscan : ed_entryIds job = None) (Hresume : ed_resumeAfterEntryId job = None)
    (Hchunk : 0 < nullish (ed_chunkSize job) ENTRY_SYNC_DEFAULT_CHUNK_SIZE)
    (Hrun : run_chain fuel worlds seasonCode jobName 0 0 job = Some (result, log))
    (Hdone : result = ScanComplete ∨ ∃ entry, entry ∈ log ∧
       (jr_completesObligation (lg_report entry) = true ∨ jr_marksToday (lg_report entry) = true))
    (Hid : ∀ n, id ∈ sw_entries (worlds n)) (Hafter : nullish (ed_afterEntryId job) 0 < id) (Hpos : 0 < id) :
  ∃ entry, entry ∈ log ∧ synced entry id.
Proof.
  assert (result = ScanComplete) as ->.
  { destruct Hdone as [?|(entry & Hin & He)]; [done|]. by eapply run_chain_reports. }
  eapply run_chain_covers; [split; [done|by intros _]|done..|by left|].
  unfold in_scope. by rewrite Hscan.
Qed.

(** The queue drops a job whose id it knows: the chunks of one chain have different ids. *)
Lemma chunk_ids_distinct fresh seasonCode seasonId jobName source job chunk a b :
  0 ≤ a → 0 ≤ b →
  qj_id (new_job fresh seasonCode seasonId jobName source (scheduleContinuation job chunk a)) =
  qj_id (new_job fresh seasonCode seasonId jobName source (scheduleContinuation job chunk b)) → a = b.
Proof.
  intros Ha Hb Hid. unfold new_job in Hid. cbn -[js] in Hid.
  destruct (Z.ltb_spec a 0), (Z.ltb_spec b 0); try lia.
  repeat apply app_inv_head in Hid.
  destruct (ed_eventId job); [apply app_inv_tail in Hid|]; by apply print_int_inj.
Qed.

(** A request for no pause gets the default pause. *)
Lemma zero_throttle_ignored fresh seasonCode seasonId jobName source options :
  eo_throttleMs options = Some 0 →
  ed_throttleMs (qj_data (new_job fresh seasonCode seasonId jobName source options)) = Some 200.
Proof. unfold new_job. cbn. by intros ->. Qed.

(** A successor never starts a new scan nor reuses another one. *)
Lemma successor_is_added fresh seasonCode pendingJobs currentEventId seasonId jobName source job options runId :
  ed_runId job = Some runId → eo_runId options = ed_runId job →
  enqueueEntrySyncJob fresh seasonCode pendingJobs currentEventId seasonId jobName source options =
  (new_job fresh seasonCode seasonId jobName (nullish source Cron) options, true).
Proof.
  intros Hr Ho. unfold enqueueEntrySyncJob, existingManualScan. rewrite Ho, Hr.
  cbn [is_null]. by rewrite andb_false_r.
Qed.

Section Examples.
Local Definition in_order (handler : Z → bool) (ids : list Z) : SyncSummary :=
  let failedIds := filter (λ id, handler id = false) ids in
  mkSyncSummary (Z.of_nat (length ids)) (Z.of_nat (length ids) - Z.of_nat (length failedIds))
    (Z.of_nat (length failedIds)) failedIds.

Lemma in_order_promise handler ids : sync_promise handler ids (in_order handler ids).
Proof. split; cbn; [done|lia|done|done]. Qed.

(** Three entries; the first run fails on entry 2, the later ones succeed. *)
Local Definition sample_world (run : nat) : SyncWorld :=
  let handler id := negb ((run =? 0)%nat && (id =? 2)) in
  mkSyncWorld [3; 1; 2] handler (in_order handler) (in_order_promise handler)
    (λ ids _, ids) (λ _ _, []) (λ _ ids, ids) (λ ids _, ids) (λ _ _, []) (λ ids _ _, ids)
    (λ _, None) (λ _, None) (Some 7) (λ _, true).

Local Definition sample_job : EntrySyncJobData :=
  qj_data (new_job (js "r") (js "2526") 2526 EntryPicks Cron
    (mkJobOptions None None None None (Some 2) None None None None None None (Some (js "o")) (Some 1) None None)).

Lemma entry_sync_chain_terminates_witness :
  ∃ result log, run_chain 90 sample_world (js "2526") EntryPicks 0 0 sample_job = Some (result, log).
Proof.
  apply (entry_sync_chain_terminates [1; 2; 3]).
  - intros n id Hid. change (id ∈ [3; 1; 2]) in Hid. set_solver.
  - vm_compute. discriminate.
  - vm_compute. lia.
Defined.

Lemma entry_sync_chain_covers_witness :
  ∃ log, run_chain 90 sample_world (js "2526") EntryPicks 0 0 sample_job = Some (ScanComplete, log) ∧
    length log = 3%nat ∧ ∃ entry, entry ∈ log ∧ synced entry 2.
Proof.
  assert ((λ r, (r.1, length r.2)) <$> run_chain 90 sample_world (js "2526") EntryPicks 0 0 sample_job =
          Some (ScanComplete, 3%nat)) as Hend by (vm_compute; reflexivity).
  destruct (run_chain 90 sample_world (js "2526") EntryPicks 0 0 sample_job) as [[result log]|] eqn:Hrun; [|done].
  injection Hend as -> Hlen. exists log. split; [done|]. split; [exact Hlen|].
  apply (entry_sync_chain_covers sample_world (js "2526") EntryPicks sample_job 90 ScanComplete).
  - vm_compute. reflexivity.
  - vm_compute. reflexivity.
  - vm_compute. reflexivity.
  - exact Hrun.
  - by left.
  - intros n. change (2 ∈ [3; 1; 2]). set_solver.
  - vm_compute. reflexivity.
  - done.
Defined.
End Examples.
