(* ===== verification/EntryPicks.v ===== *)
(** * Entry picks ([src/domain/entry-picks.ts], [src/repositories/entry-event-picks.ts],
      [src/domain/chips.ts])

    What makes a picks payload complete, and the table that stores one squad of fifteen rows per
    entry and gameweek.  A payload is parsed JSON; a member that is absent is [None].  The table is
    that of one season; the rows of other tables a pick refers to are a parameter.  Times are whole
    milliseconds. *)

From S2P Require Import Prelude JsCollections JsNumber Json.

(** ** Reading a payload *)

(** [Number(x)] of a value inside an array, through the text of the array. *)
Fixpoint text_number (raw : json) : number :=
  match raw with
  | JNull => of_int 0
  | JNumber n => n
  | JString s => Number s
  | JArray [] => of_int 0
  | JArray [item] => text_number item
  | _ => NaN
  end.

(** [Number(x)]; parsed JSON has no [Date]. *)
Definition js_Number (value : option json) : number :=
  match value with
  | None => NaN
  | Some (JBool b) => of_int (if b then 1 else 0)
  | Some raw => text_number raw
  end.

(** src: src/domain/entry-picks.ts:10-13 asInteger *)
Definition asInteger (value : option json) : option Z :=
  let parsed := match value with Some (JNumber n) => n | _ => js_Number value end in
  if is_integer parsed then Some (int_value parsed) else None.

(** [x > k] for a whole [k] *)
Definition exceeds (x : number) (k : Z) : bool :=
  match x with
  | NaN => false
  | Infinite neg => negb neg
  | Fin m e => k * 2 ^ Z.max 0 (- e) <? m * 2 ^ Z.max 0 e
  end.

Definition fields : Type := list (jsstr * json).

Definition member (name : string) (o : fields) : option json := map_get (js name) o.

(** src: src/domain/entry-picks.ts:15-17 isBoolean *)
Definition isBoolean (value : option json) : bool :=
  match value with Some (JBool _) => true | _ => false end.

Definition is_set (value : option json) : bool := match value with Some (JBool b) => b | _ => false end.

(** src: src/domain/entry-picks.ts:20-26 isEntryPicksPayloadForEvent *)
Definition isEntryPicksPayloadForEvent (raw : json) (eventId : number) : bool :=
  if negb (is_integer eventId) then false
  else
    match raw with
    | JObject o =>
        match member "entry_history" o with
        | Some (JObject history) => opt_eqb (asInteger (member "event" history)) (Some (int_value eventId))
        | _ => false
        end
    | _ => false
    end.

Definition object_fields (item : json) : option fields :=
  match item with JObject o => Some o | _ => None end.

Definition in_range (lo hi : Z) (n : option Z) : bool :=
  match n with Some n => (lo <=? n) && (n <=? hi) | None => false end.

(** The roles and the multiplier of a pick contradict each other.
    src: src/domain/entry-picks.ts:51-72 isCompleteEntryPicks *)
Definition bad_role (pick : fields) : bool :=
  let multiplier := asInteger (member "multiplier" pick) in
  let position := asInteger (member "position" pick) in
  let captain := member "is_captain" pick in
  let vice := member "is_vice_captain" pick in
  if negb (isBoolean captain) || negb (isBoolean vice) || negb (in_range 0 3 multiplier) || is_null position
  then true
  else if (is_set captain || is_set vice) && (11 <? nullish position 0) then true
  else if is_set captain && opt_eqb multiplier (Some 1) then true
  else (1 <? nullish multiplier 0) && negb (is_set captain) && negb (is_set vice).

Definition count {A : Type} (p : A → bool) (l : list A) : Z := Z.of_nat (length (List.filter p l)).

(** src: src/domain/entry-picks.ts:32-84 isCompleteEntryPicks *)
Definition isCompleteEntryPicks (raw : json) : bool :=
  match raw with
  | JArray items =>
      let picks := omap object_fields items in
      if negb (length items =? 15)%nat || negb (length picks =? 15)%nat then false
      else
        let elements := (λ p, asInteger (member "element" p)) <$> picks in
        let positions := (λ p, asInteger (member "position" p)) <$> picks in
        if existsb (λ e, match e with Some e => e <=? 0 | None => true end) elements ||
           existsb (λ p, negb (in_range 1 15 p)) positions ||
           negb (length (dedup elements) =? 15)%nat || negb (length (dedup positions) =? 15)%nat
        then false
        else if existsb bad_role picks then false
        else
          (count (λ p, is_set (member "is_captain" p)) picks =? 1) &&
          (count (λ p, is_set (member "is_vice_captain" p)) picks =? 1) &&
          negb (existsb (λ p, is_set (member "is_captain" p) && is_set (member "is_vice_captain" p)) picks) &&
          (count (λ p, exceeds (js_Number (member "multiplier" p)) 1) picks <=? 1)
  | _ => false
  end.

(** ** Typed payloads *)

(** src: src/clients/fpl.ts:386-392 PickItemSchema *)
Record PickItem := mkPick {
  pk_element : number;
  pk_position : number;
  pk_multiplier : number;
  pk_is_captain : bool;
  pk_is_vice_captain : bool;
}.

#[export] Instance pick_item_eq_dec : EqDecision PickItem.
Proof. solve_decision. Defined.

(** The members the code reads of the history.
    src: src/clients/fpl.ts:394-405 PicksEntryHistorySchema *)
Record PicksEntryHistory := mkHistory {
  ph_event : number;
  ph_event_transfers : number;
  ph_event_transfers_cost : number;
}.

(** src: src/clients/fpl.ts:416-424 PicksResponseSchema *)
Record PicksResponse := mkPicksResponse {
  pr_active_chip : option jsstr;
  pr_entry_history : PicksEntryHistory;
  pr_picks : list PickItem;
}.

(** A typed pick and a typed payload as the values they are. *)
Definition pick_fields (p : PickItem) : fields :=
  [(js "element", JNumber (pk_element p)); (js "position", JNumber (pk_position p));
   (js "multiplier", JNumber (pk_multiplier p)); (js "is_captain", JBool (pk_is_captain p));
   (js "is_vice_captain", JBool (pk_is_vice_captain p))].

Definition picks_json (picks : list PickItem) : json := JArray ((λ p, JObject (pick_fields p)) <$> picks).

Definition response_json (r : PicksResponse) : json :=
  JObject [(js "active_chip", match pr_active_chip r with Some c => JString c | None => JNull end);
           (js "entry_history", JObject [(js "event", JNumber (ph_event (pr_entry_history r)))]);
           (js "picks", picks_json (pr_picks r))].

(** src: src/domain/entry-picks.ts:92-103 resolveScoringCaptainPick *)
Definition resolveScoringCaptainPick (picks : list PickItem) : option PickItem :=
  nullish_or
    (List.find (λ p, (pk_is_captain p || pk_is_vice_captain p) &&
                     is_integer (pk_multiplier p) && exceeds (pk_multiplier p) 1) picks)
    (List.find pk_is_captain picks).

(** src: src/domain/entry-picks.ts:110-124 hasCompleteEntryPickLiveCoverage *)
Definition hasCompleteEntryPickLiveCoverage (rawPicks : json) (liveElementIds : list number) : bool :=
  if negb (isCompleteEntryPicks rawPicks) then false
  else if existsb (λ e, negb (is_integer e) || negb (exceeds e 0)) liveElementIds ||
          negb (length (dedup (int_value <$> liveElementIds)) =? length liveElementIds)%nat
  then false
  else
    match rawPicks with
    | JArray items =>
        forallb (λ item, match object_fields item with
                         | Some pick => bool_decide (int_value (js_Number (member "element" pick)) ∈ int_value <$> liveElementIds)
                         | None => false
                         end) items
    | _ => false
    end.

(** ** The table *)

(** src: src/domain/chips.ts:38-43 toNullableDbChip *)
Definition toNullableDbChip (chip : option jsstr) : option jsstr :=
  match chip with Some [] => None | Some c => Some c | None => None end.

(** The enum of the column.
    src: src/db/schemas/platform.schema.ts:39-46 chipInCompetition *)
Definition chipInCompetition : list jsstr :=
  js <$> ["n/a"; "wildcard"; "freehit"; "bboost"; "3xc"; "manager"]%string.

(** src: src/db/schemas/platform.schema.ts:1993-2014 entryEventPicksInCompetition *)
Record PickRow := mkPickRow {
  ep_entryId : Z;
  ep_eventId : Z;
  ep_position : Z;
  ep_elementId : Z;
  ep_multiplier : Z;
  ep_isCaptain : bool;
  ep_isViceCaptain : bool;
  ep_activeChip : option jsstr;
  ep_transfers : option Z;
  ep_transfersCost : option Z;
  ep_sourceCreatedAt : Z;
  ep_sourceUpdatedAt : Z;
}.

#[export] Instance pick_row_eq_dec : EqDecision PickRow.
Proof. solve_decision. Defined.

Definition nonneg_or_null (n : option Z) : bool := match n with Some n => 0 <=? n | None => true end.

(** The checks of the table.
    src: src/db/schemas/platform.schema.ts:2067-2083 entryEventPicksInCompetition *)
Definition row_checks (r : PickRow) : bool :=
  (0 <? ep_entryId r) && (0 <? ep_eventId r) && (0 <? ep_elementId r) &&
  (1 <=? ep_position r) && (ep_position r <=? 15) && (0 <=? ep_multiplier r) && (ep_multiplier r <=? 3) &&
  negb (ep_isCaptain r && ep_isViceCaptain r) &&
  ((ep_position r =? 1) || is_null (ep_activeChip r) && is_null (ep_transfers r) && is_null (ep_transfersCost r)) &&
  nonneg_or_null (ep_transfers r) && nonneg_or_null (ep_transfersCost r) &&
  (ep_sourceCreatedAt r <=? ep_sourceUpdatedAt r) &&
  match ep_activeChip r with Some c => bool_decide (c ∈ chipInCompetition) | None => true end.

Definition in_scope (entryId eventId : Z) (r : PickRow) : bool :=
  (ep_entryId r =? entryId) && (ep_eventId r =? eventId).

(** A number written to an integer column of [bits] bits. *)
Definition int_column (bits : Z) (n : number) : option Z :=
  if is_integer n && (- 2 ^ (bits - 1) <=? int_value n) && (int_value n <? 2 ^ (bits - 1))
  then Some (int_value n) else None.

Section table.
(** The entry, the gameweek and the player a row refers to exist. *)
Context (references : PickRow → bool).

Notation Table := (list PickRow).

(** Primary key and unique constraint.
    src: src/db/schemas/platform.schema.ts:2057-2066 entryEventPicksInCompetition *)
Definition conflicts (a b : PickRow) : bool :=
  in_scope (ep_entryId a) (ep_eventId a) b &&
  ((ep_position a =? ep_position b) || (ep_elementId a =? ep_elementId b)).

(** [INSERT]: every row is checked, the rows of the statement against each other as well. *)
Fixpoint insert_rows (rows : list PickRow) (table : Table) : result Table :=
  match rows with
  | [] => Ok table
  | row :: rows =>
      if row_checks row && references row && negb (existsb (conflicts row) table)
      then insert_rows rows (table ++ [row]) else Throw "constraint"
  end.

(** src: src/repositories/entry-event-picks.ts:98-112 replaceScope *)
Definition row_of_pick (entryId eventId : Z) (picks : PicksResponse) (sourceCreatedAt syncedAt : Z)
    (p : PickItem) : option PickRow :=
  let first := number_eqb (pk_position p) (of_int 1) in
  position ← int_column 16 (pk_position p);
  element ← int_column 32 (pk_element p);
  multiplier ← int_column 16 (pk_multiplier p);
  transfers ← (if first then Some <$> int_column 32 (ph_event_transfers (pr_entry_history picks)) else Some None);
  transfersCost ←
    (if first then Some <$> int_column 32 (ph_event_transfers_cost (pr_entry_history picks)) else Some None);
  Some (mkPickRow entryId eventId position element multiplier (pk_is_captain p) (pk_is_vice_captain p)
          (if first then toNullableDbChip (pr_active_chip picks) else None) transfers transfersCost
          sourceCreatedAt syncedAt).

(** src: src/repositories/entry-event-picks.ts:73-76 replaceScope *)
Definition newestStoredAt (existing : list PickRow) : option Z :=
  fold_left (λ latest row,
    match latest with
    | Some l => if l <? ep_sourceUpdatedAt row then Some (ep_sourceUpdatedAt row) else Some l
    | None => Some (ep_sourceUpdatedAt row)
    end) existing None.

(** src: src/repositories/entry-event-picks.ts:82-85 replaceScope *)
Definition earliestCreatedAt (existing : list PickRow) (syncedAt : Z) : Z :=
  fold_left (λ earliest row, if ep_sourceCreatedAt row <? earliest then ep_sourceCreatedAt row else earliest)
    existing syncedAt.

(** The table and whether it changed.
    src: src/repositories/entry-event-picks.ts:50-115 replaceScope *)
Definition replaceScope (entryId eventId : Z) (picks : PicksResponse) (syncedAt : Z) (table : Table)
    : result (Table * bool) :=
  let existing := List.filter (in_scope entryId eventId) table in
  if match newestStoredAt existing with Some newest => syncedAt <=? newest | None => false end
  then Ok (table, false)
  else
    match mapM (row_of_pick entryId eventId picks (earliestCreatedAt existing syncedAt) syncedAt) (pr_picks picks) with
    | None => Throw "invalid input syntax for type integer"
    | Some rows =>
        let* table := insert_rows rows (List.filter (λ r, negb (in_scope entryId eventId r)) table) in
        Ok (table, true)
    end.

(** src: src/repositories/entry-event-picks.ts:148-192 upsertFromPicks *)
Definition upsertFromPicks (entryId eventId : Z) (picks : PicksResponse) (syncedAt : option Z) (table : Table)
    : result (Table * bool) :=
  if negb (isEntryPicksPayloadForEvent (response_json picks) (of_int eventId)) then
    Throw "ENTRY_EVENT_PICKS_UPSERT_ERROR"
  else if negb (isCompleteEntryPicks (picks_json (pr_picks picks))) then Throw "ENTRY_EVENT_PICKS_UPSERT_ERROR"
  else
    match syncedAt with
    | None => Throw "ENTRY_EVENT_PICKS_UPSERT_ERROR"
    | Some exactSyncedAt => replaceScope entryId eventId picks exactSyncedAt table
    end.
End table.

(** The groups of the query that are complete.
    src: src/repositories/entry-event-picks.ts:23-48 findCompleteEntryIds *)
Definition complete_group (rows : list PickRow) : bool :=
  (length rows =? 15)%nat &&
  existsb (λ r, ep_position r =? 1) rows && forallb (λ r, 1 <=? ep_position r) rows &&
  existsb (λ r, ep_position r =? 15) rows && forallb (λ r, ep_position r <=? 15) rows &&
  (count ep_isCaptain rows =? 1) && (count ep_isViceCaptain rows =? 1).

(** src: src/repositories/entry-event-picks.ts:23-48 findCompleteEntryIds *)
Definition findCompleteEntryIds (eventId : Z) (entryIds : list Z) (table : list PickRow) : list Z :=
  let selected := List.filter (λ r, (ep_eventId r =? eventId) &&
    (is_nil entryIds || bool_decide (ep_entryId r ∈ entryIds))) table in
  List.filter (λ entryId, complete_group (List.filter (λ r, ep_entryId r =? entryId) selected))
    (dedup (ep_entryId <$> selected)).

(** [for (let index = 0; index < items.length; index += size) chunks.push(...)]
    src: src/repositories/entry-event-picks.ts:12-18 chunkArray *)
Fixpoint chunk_loop (fuel : nat) (items : list Z) (size : nat) : list (list Z) :=
  match fuel, items with
  | O, _ | _, [] => []
  | S fuel, _ => take size items :: chunk_loop fuel (drop size items) size
  end.

(** src: src/repositories/entry-event-picks.ts:12-18 chunkArray *)
Definition chunkArray (items : list Z) (size : nat) : list (list Z) := chunk_loop (length items) items size.

(** src: src/repositories/entry-event-picks.ts:118-134 findEntryIdsByEvent *)
Definition findEntryIdsByEvent (eventId : Z) (entryIds : list Z) (table : list PickRow) : list Z :=
  if is_nil entryIds then findCompleteEntryIds eventId [] table
  else concat ((λ chunk, findCompleteEntryIds eventId chunk table) <$> chunkArray (dedup entryIds) 1000).

(** ** Complete squads *)

(** What a complete payload is, said of typed picks. *)
Record squad (picks : list PickItem) : Prop := {
  sq_length : length picks = 15%nat;
  sq_elements : ∀ p, p ∈ picks → is_integer (pk_element p) = true ∧ 0 < int_value (pk_element p);
  sq_positions : ∀ p, p ∈ picks → is_integer (pk_position p) = true ∧ 1 ≤ int_value (pk_position p) ≤ 15;
  sq_distinct : NoDup ((λ p, int_value (pk_element p)) <$> picks);
  sq_all_positions : NoDup ((λ p, int_value (pk_position p)) <$> picks);
  sq_multipliers : ∀ p, p ∈ picks → is_integer (pk_multiplier p) = true ∧ 0 ≤ int_value (pk_multiplier p) ≤ 3;
  sq_captain : count pk_is_captain picks = 1;
  sq_vice : count pk_is_vice_captain picks = 1;
  sq_roles : ∀ p, p ∈ picks → pk_is_captain p = false ∨ pk_is_vice_captain p = false;
  sq_starters : ∀ p, p ∈ picks → pk_is_captain p = true ∨ pk_is_vice_captain p = true → int_value (pk_position p) ≤ 11;
  sq_captain_multiplier : ∀ p, p ∈ picks → pk_is_captain p = true → int_value (pk_multiplier p) ≠ 1;
  sq_bonus : ∀ p, p ∈ picks → 1 < int_value (pk_multiplier p) → pk_is_captain p = true ∨ pk_is_vice_captain p = true;
  sq_one_bonus : count (λ p, exceeds (pk_multiplier p) 1) picks ≤ 1;
}.

Lemma member_element p : member "element" (pick_fields p) = Some (JNumber (pk_element p)).
Proof. reflexivity. Qed.
Lemma member_position p : member "position" (pick_fields p) = Some (JNumber (pk_position p)).
Proof. reflexivity. Qed.
Lemma member_multiplier p : member "multiplier" (pick_fields p) = Some (JNumber (pk_multiplier p)).
Proof. reflexivity. Qed.
Lemma member_captain p : member "is_captain" (pick_fields p) = Some (JBool (pk_is_captain p)).
Proof. reflexivity. Qed.
Lemma member_vice p : member "is_vice_captain" (pick_fields p) = Some (JBool (pk_is_vice_captain p)).
Proof. reflexivity. Qed.

Lemma exceeds_integer x k : is_integer x = true → exceeds x k = (k <? int_value x).
Proof.
  destruct x as [|neg|m e]; [done..|]. unfold is_integer, exceeds, int_value. intros H.
  apply eq_iff_eq_true. rewrite !Z.ltb_lt. destruct (Z.leb_spec 0 e) as [He|He].
  - rewrite Z.max_l, Z.max_r by lia. lia.
  - cbn in H. rewrite Z.max_r, Z.max_l by lia. boolsolve.
    rewrite Z.pow_0_r, Z.mul_1_r. pose proof (Z.pow_pos_nonneg 2 (- e) ltac:(lia) ltac:(lia)).
    pose proof (Z.div_mod m (2 ^ (- e)) ltac:(lia)). nia.
Qed.

Lemma count_fmap {A B} (f : A → B) p l : count p (f <$> l) = count (λ x, p (f x)) l.
Proof. unfold count. induction l as [|x l IH]; [done|]. cbn. destruct (p (f x)); cbn; lia. Qed.

Lemma count_ext {A} (p q : A → bool) l : (∀ x, p x = q x) → count p l = count q l.
Proof. intros H. unfold count. do 2 f_equal. apply List.filter_ext. done. Qed.

Lemma asInteger_number n : asInteger (Some (JNumber n)) = if is_integer n then Some (int_value n) else None.
Proof. done. Qed.

(** The roles of one pick are consistent. *)
Definition role_ok (p : PickItem) : Prop :=
  is_integer (pk_position p) = true ∧
  (is_integer (pk_multiplier p) = true ∧ 0 ≤ int_value (pk_multiplier p) ≤ 3) ∧
  (pk_is_captain p = true ∨ pk_is_vice_captain p = true → int_value (pk_position p) ≤ 11) ∧
  (pk_is_captain p = true → int_value (pk_multiplier p) ≠ 1) ∧
  (1 < int_value (pk_multiplier p) → pk_is_captain p = true ∨ pk_is_vice_captain p = true).

Lemma bad_role_spec p : bad_role (pick_fields p) = false ↔ role_ok p.
Proof.
  unfold bad_role, role_ok. rewrite member_multiplier, member_position, member_captain, member_vice, !asInteger_number.
  destruct (is_integer (pk_multiplier p)) eqn:Hm; [|cbn; naive_solver].
  destruct (is_integer (pk_position p)) eqn:Hp; [|rewrite orb_true_r; naive_solver].
  cbn -[Z.leb Z.ltb]. rewrite orb_false_r. unfold opt_eqb.
  destruct (Z.leb_spec 0 (int_value (pk_multiplier p))), (Z.leb_spec (int_value (pk_multiplier p)) 3); cbn -[Z.leb Z.ltb];
    try (split; [done|lia]).
  destruct (Z.ltb_spec 11 (int_value (pk_position p))), (Z.ltb_spec 1 (int_value (pk_multiplier p))),
    (pk_is_captain p), (pk_is_vice_captain p); cbn -[bool_decide]; try case_bool_decide; simplify_eq;
    split; intros; try split_and!; intros; try done; try lia; try (intros ?; congruence); try naive_solver lia.
Qed.

Lemma dedup_length_iff {A} `{EqDecision A} (l : list A) n :
  length l = n → negb (length (dedup l) =? n)%nat = false ↔ NoDup l.
Proof. intros <-. rewrite negb_false_iff, Nat.eqb_eq. apply length_dedup_NoDup. Qed.

Lemma integers_fmap (f : PickItem → number) (picks : list PickItem) :
  (∀ p, p ∈ picks → is_integer (f p) = true) →
  (λ p, asInteger (Some (JNumber (f p)))) <$> picks = Some <$> ((λ p, int_value (f p)) <$> picks).
Proof.
  intros H. rewrite <-list_fmap_compose. apply list_fmap_ext. intros i p Hp.
  rewrite asInteger_number, H; [done|]. by eapply list_elem_of_lookup_2.
Qed.

Lemma NoDup_Some (l : list Z) : NoDup (Some <$> l) ↔ NoDup l.
Proof. split; [apply NoDup_fmap_1|apply NoDup_fmap_2, _]. Qed.

Lemma typed_objects (picks : list PickItem) : omap object_fields ((λ p, JObject (pick_fields p)) <$> picks) = pick_fields <$> picks.
Proof. induction picks as [|p l IH]; [done|]. cbn. by rewrite <-IH. Qed.

Lemma count_pos {A} (f : A → bool) l x : x ∈ l → f x = true → 0 < count f l.
Proof.
  intros Hx Hf. unfold count. assert (x ∈ List.filter f l) as H by (by apply list_elem_of_In, List.filter_In; rewrite <-list_elem_of_In).
  destruct (List.filter f l); [set_solver|cbn; lia].
Qed.

Lemma if_false_true (b c : bool) : (if b then false else c) = true ↔ b = false ∧ c = true.
Proof. destruct b; naive_solver. Qed.

Lemma existsb_fmap {A B} (f : A → B) p l : existsb p (f <$> l) = existsb (λ x, p (f x)) l.
Proof. induction l as [|x l IH]; [done|]. cbn. by rewrite <-IH. Qed.

(** C39: [isCompleteEntryPicks] accepts a payload of typed picks exactly if it is a squad: fifteen
    picks of distinct players on the fifteen positions, with one captain and another vice-captain,
    both in the first eleven, multipliers from 0 to 3 where only one of the two may exceed 1, and a
    captain whose multiplier is not 1. *)
Theorem isCompleteEntryPicks_squad (picks : list PickItem) :
  isCompleteEntryPicks (picks_json picks) = true ↔ squad picks.
Proof.
  unfold isCompleteEntryPicks, picks_json. rewrite typed_objects, !length_fmap.
  destruct (Nat.eqb_spec (length picks) 15) as [Hlen|Hlen]; [|split; [done|intros []; done]]. cbn [negb orb].
  rewrite <-!list_fmap_compose, !count_fmap. unfold compose.
  change ((λ x, asInteger (member "element" (pick_fields x))) <$> picks) with
    ((λ x : PickItem, asInteger (Some (JNumber (pk_element x)))) <$> picks).
  change ((λ x, asInteger (member "position" (pick_fields x))) <$> picks) with
    ((λ x : PickItem, asInteger (Some (JNumber (pk_position x)))) <$> picks).
  set (els := (λ x : PickItem, asInteger (Some (JNumber (pk_element x)))) <$> picks).
  set (pos := (λ x : PickItem, asInteger (Some (JNumber (pk_position x)))) <$> picks).
  assert (length els = 15%nat ∧ length pos = 15%nat) as [Hle Hlp] by (by unfold els, pos; rewrite !length_fmap).
  rewrite !if_false_true, !orb_false_iff, !andb_true_iff, !Z.eqb_eq, Z.leb_le, negb_true_iff.
  rewrite (dedup_length_iff els 15 Hle), (dedup_length_iff pos 15 Hlp), !existsb_fmap, !existsb_false.
  setoid_rewrite bad_role_spec. split.
  - intros [[[[He Hp] Hde] Hdp] [Hrole [[[Hc Hv] Hboth] Hone]]].
    assert (∀ p, p ∈ picks → is_integer (pk_element p) = true ∧ 0 < int_value (pk_element p)) as He'.
    { intros p Hin. assert (asInteger (Some (JNumber (pk_element p))) ∈ els) as Hx by
        (apply list_elem_of_fmap; eauto). specialize (He _ Hx). cbv beta in He. rewrite asInteger_number in He.
      destruct (is_integer (pk_element p)); [|done]. split; [done|]. boolsolve. lia. }
    assert (∀ p, p ∈ picks → is_integer (pk_position p) = true ∧ 1 ≤ int_value (pk_position p) ≤ 15) as Hp'.
    { intros p Hin. assert (asInteger (Some (JNumber (pk_position p))) ∈ pos) as Hx by
        (apply list_elem_of_fmap; eauto). specialize (Hp _ Hx). cbv beta in Hp. rewrite asInteger_number in Hp.
      destruct (is_integer (pk_position p)); [|done]. cbn in Hp. boolsolve. done. }
    unfold els in Hde. unfold pos in Hdp.
    rewrite integers_fmap, NoDup_Some in Hde by (intros; by apply He').
    rewrite integers_fmap, NoDup_Some in Hdp by (intros; by apply Hp').
    split; try done; try (intros p Hin; by apply Hrole).
    intros p Hin. specialize (Hboth p Hin). by apply andb_false_iff in Hboth.
  - intros [_ He Hp Hde Hdp Hm Hc Hv Hr Hs Hcm Hb Hone].
    assert (NoDup els) as Hels by (unfold els; rewrite integers_fmap, NoDup_Some; [done|]; intros; by apply He).
    assert (NoDup pos) as Hpos by (unfold pos; rewrite integers_fmap, NoDup_Some; [done|]; intros; by apply Hp).
    split_and!; try done.
    + intros x (p & -> & Hin)%list_elem_of_fmap. destruct (He p Hin) as [H1 H2]. rewrite asInteger_number, H1. lia.
    + intros x (p & -> & Hin)%list_elem_of_fmap. destruct (Hp p Hin) as [H1 H2]. rewrite asInteger_number, H1. cbn.
      destruct (Z.leb_spec 1 (int_value (pk_position p))), (Z.leb_spec (int_value (pk_position p)) 15); done || lia.
    + intros p Hin. split_and!; try (by apply Hp); try (by apply Hm); eauto.
    + intros p Hin. apply andb_false_iff. exact (Hr p Hin).
Qed.

(** ** The scoring captain *)

Lemma count_unique {A} (f : A → bool) (l : list A) x y :
  count f l ≤ 1 → x ∈ l → y ∈ l → f x = true → f y = true → x = y.
Proof.
  intros Hc Hx Hy Hfx Hfy. unfold count in Hc.
  assert (x ∈ List.filter f l ∧ y ∈ List.filter f l) as [Hx' Hy'].
  { by rewrite !list_elem_of_In, !List.filter_In, <-!list_elem_of_In. }
  destruct (List.filter f l) as [|z [|z' l']]; [set_solver|set_solver|cbn in Hc; lia].
Qed.

Lemma count_exists {A} (f : A → bool) (l : list A) : 0 < count f l → ∃ x, x ∈ l ∧ f x = true.
Proof.
  unfold count. destruct (List.filter f l) as [|x l'] eqn:E; [cbn; lia|]. intros _. exists x.
  rewrite list_elem_of_In. apply List.filter_In. rewrite E. by left.
Qed.

Lemma find_Some_elem {A} (f : A → bool) (l : list A) x : List.find f l = Some x → x ∈ l ∧ f x = true.
Proof. intros H. apply List.find_some in H. by rewrite list_elem_of_In. Qed.

Lemma find_None_elem {A} (f : A → bool) (l : list A) x : List.find f l = None → x ∈ l → f x = false.
Proof. intros H Hx. eapply List.find_none; [done|by apply list_elem_of_In]. Qed.

(** The captain's bonus is credited once. On a complete squad [resolveScoringCaptainPick] finds
    a pick that is the captain or the vice-captain; no other pick has a multiplier above 1; and if
    it is not the captain, the captain did not play: the captain's multiplier is 0. *)
Theorem scoring_captain_unique (picks : list PickItem)
    (Hcomplete : isCompleteEntryPicks (picks_json picks) = true) :
  ∃ p, resolveScoringCaptainPick picks = Some p ∧ p ∈ picks ∧
    (pk_is_captain p = true ∨ pk_is_vice_captain p = true) ∧
    (∀ q, q ∈ picks → q ≠ p → 0 ≤ int_value (pk_multiplier q) ≤ 1) ∧
    (∀ c, c ∈ picks → pk_is_captain c = true → c = p ∨ int_value (pk_multiplier c) = 0).
Proof.
  apply isCompleteEntryPicks_squad in Hcomplete as [_ _ _ _ _ Hm Hc _ _ _ Hcm Hb Hone].
  assert (∀ q, q ∈ picks → exceeds (pk_multiplier q) 1 = (1 <? int_value (pk_multiplier q))) as Hex.
  { intros q Hq. apply exceeds_integer, Hm, Hq. }
  unfold resolveScoringCaptainPick.
  destruct (List.find _ picks) as [p|] eqn:Hbonus; cbn.
  - apply find_Some_elem in Hbonus as [Hin Hp]. boolsolve. exists p.
    assert (∀ q, q ∈ picks → q ≠ p → 0 ≤ int_value (pk_multiplier q) ≤ 1) as Hothers.
    { intros q Hq Hne. split; [by apply Hm|]. destruct (Z.leb_spec (int_value (pk_multiplier q)) 1); [done|].
      exfalso. apply Hne. eapply (count_unique (λ p, exceeds (pk_multiplier p) 1)); [done..| |done].
      rewrite Hex by done. lia. }
    split_and!; [done|done| |done|].
    + match goal with H : _ || _ = true |- _ => by apply orb_true_iff in H end.
    + intros c Hcin Hcap. destruct (decide (c = p)) as [|Hne]; [by left|right].
      pose proof (Hothers c Hcin Hne). pose proof (Hcm c Hcin Hcap). lia.
  - destruct (count_exists pk_is_captain picks) as (c0 & Hc0 & Hcap0); [lia|].
    destruct (List.find pk_is_captain picks) as [p|] eqn:Hcap.
    + apply find_Some_elem in Hcap as [Hin Hp]. exists p. split_and!; [done|done|by left| |].
      * intros q Hq _. split; [by apply Hm|].
        destruct (Z.leb_spec (int_value (pk_multiplier q)) 1); [done|].
        pose proof (find_None_elem _ _ q Hbonus Hq) as Hn. cbv beta in Hn.
        rewrite (proj1 (Hm q Hq)), Hex in Hn by done.
        destruct (Hb q Hq) as [Hr|Hr]; [lia|rewrite Hr in Hn..]; rewrite ?orb_true_r in Hn;
          cbn [orb andb] in Hn; boolsolve; lia.
      * intros c Hcin Hccap. left. by apply (count_unique pk_is_captain picks); [lia|..].
    + pose proof (find_None_elem _ _ c0 Hcap Hc0). congruence.
Qed.

(** ** Stored picks *)

Section stored.
Context (references : PickRow → bool).
Notation Table := (list PickRow).

Definition scope (entryId eventId : Z) (table : Table) : Table := List.filter (in_scope entryId eventId) table.

(** Tables the repository can leave. *)
Inductive stored_table : Table → Prop :=
| stored_empty : stored_table []
| stored_upsert entryId eventId picks syncedAt table table' changed :
    stored_table table →
    upsertFromPicks references entryId eventId picks syncedAt table = Ok (table', changed) →
    stored_table table'.

Lemma filter_bool_none {A} (f : A → bool) l : (∀ x, x ∈ l → f x = false) → List.filter f l = [].
Proof.
  induction l as [|x l IH]; [done|]. intros H. cbn. rewrite (H x ltac:(by left)).
  apply IH. intros y Hy. apply H. by right.
Qed.

Lemma filter_bool_all {A} (f : A → bool) l : (∀ x, x ∈ l → f x = true) → List.filter f l = l.
Proof.
  induction l as [|x l IH]; [done|]. intros H. cbn. rewrite (H x ltac:(by left)). f_equal.
  apply IH. intros y Hy. apply H. by right.
Qed.

Lemma filter_filter_bool {A} (f g : A → bool) l : List.filter f (List.filter g l) = List.filter (λ x, g x && f x) l.
Proof. induction l as [|x l IH]; [done|]. cbn. destruct (g x); cbn; [destruct (f x)|]; by rewrite IH. Qed.

Lemma insert_rows_ok rows (table table' : Table) : insert_rows references rows table = Ok table' → table' = table ++ rows.
Proof.
  revert table. induction rows as [|r rows IH]; intros table; cbn; [intros [= ->]; by rewrite app_nil_r|].
  destruct (_ && _); [|done]. intros H%IH. by rewrite H, <-(assoc_L (++)).
Qed.

Lemma int_column_Some bits n z : int_column bits n = Some z → z = int_value n.
Proof. unfold int_column. case_match; [|done]. by intros [= <-]. Qed.

(** The columns of the rows of a payload. *)
Lemma rows_of_picks entryId eventId response created syncedAt picks rows :
  mapM (row_of_pick entryId eventId response created syncedAt) picks = Some rows →
  (ep_position <$> rows = (λ p, int_value (pk_position p)) <$> picks) ∧
  (ep_elementId <$> rows = (λ p, int_value (pk_element p)) <$> picks) ∧
  (ep_multiplier <$> rows = (λ p, int_value (pk_multiplier p)) <$> picks) ∧
  (ep_isCaptain <$> rows = pk_is_captain <$> picks) ∧ (ep_isViceCaptain <$> rows = pk_is_vice_captain <$> picks) ∧
  Forall (λ r, in_scope entryId eventId r = true ∧ ep_sourceUpdatedAt r = syncedAt) rows.
Proof.
  intros H%mapM_Some. induction H as [|p r picks rows Hr _ (H1 & H2 & H3 & H4 & H5 & H6)]; [done|].
  unfold row_of_pick in Hr. apply bind_Some in Hr as (position & Hp & Hr). apply bind_Some in Hr as (element & He & Hr).
  apply bind_Some in Hr as (multiplier & Hm & Hr). apply bind_Some in Hr as (t & _ & Hr).
  apply bind_Some in Hr as (c & _ & Hr). injection Hr as <-.
  apply int_column_Some in Hp, He, Hm. subst position element multiplier. cbn.
  rewrite H1, H2, H3, H4, H5. split_and!; try done. constructor; [|done].
  unfold in_scope. cbn. by rewrite !Z.eqb_refl.
Qed.

Lemma positions_full (l : list Z) k :
  NoDup l → length l = 15%nat → (∀ x, x ∈ l → 1 ≤ x ≤ 15) → 1 ≤ k ≤ 15 → k ∈ l.
Proof.
  intros Hnd Hlen Hl Hk.
  assert (l ≡ₚ seqZ 1 15) as ->; [|apply elem_of_seqZ; lia].
  apply submseteq_length_Permutation.
  - apply NoDup_submseteq; [done|]. intros x Hx. apply elem_of_seqZ. specialize (Hl x Hx). lia.
  - by rewrite length_seqZ, Hlen.
Qed.

Lemma squad_rows_complete rows picks :
  squad picks → ep_position <$> rows = (λ p, int_value (pk_position p)) <$> picks →
  ep_isCaptain <$> rows = pk_is_captain <$> picks → ep_isViceCaptain <$> rows = pk_is_vice_captain <$> picks →
  complete_group rows = true.
Proof.
  intros [Hlen _ Hp _ Hnd _ Hc Hv _ _ _ _ _] Hpos Hcap Hvice.
  assert (length rows = 15%nat) as Hlr by (by rewrite <-(length_fmap ep_position), Hpos, length_fmap).
  assert (∀ x, x ∈ ep_position <$> rows → 1 ≤ x ≤ 15) as Hrange.
  { rewrite Hpos. intros x (p & -> & Hin)%list_elem_of_fmap. by apply Hp. }
  assert (∀ r, r ∈ rows → 1 ≤ ep_position r ≤ 15) as Hrow by (intros r Hr; apply Hrange, list_elem_of_fmap; eauto).
  assert (∀ k, 1 ≤ k ≤ 15 → existsb (λ r, ep_position r =? k) rows = true) as Hfull.
  { intros k Hk. assert (k ∈ ep_position <$> rows) as (r & -> & Hr)%list_elem_of_fmap.
    - apply positions_full; [by rewrite Hpos|by rewrite length_fmap|done|done].
    - apply existsb_exists. exists r. rewrite <-list_elem_of_In. split; [done|lia]. }
  unfold complete_group. rewrite Hlr, !Hfull by lia. cbn [Nat.eqb].
  rewrite !andb_true_iff, !forallb_forall, !Z.eqb_eq. setoid_rewrite <-list_elem_of_In. split_and!; try done.
  - intros r Hr. specialize (Hrow r Hr). lia.
  - intros r Hr. specialize (Hrow r Hr). lia.
  - rewrite <-Hc. change ep_isCaptain with (λ r, id (ep_isCaptain r)). by rewrite <-count_fmap, Hcap, count_fmap.
  - rewrite <-Hv. change ep_isViceCaptain with (λ r, id (ep_isViceCaptain r)). by rewrite <-count_fmap, Hvice, count_fmap.
Qed.

(** ** The query *)

Lemma chunk_loop_spec size fuel items :
  (length items ≤ fuel)%nat → (0 < size)%nat →
  concat (chunk_loop fuel items size) = items ∧ Forall (λ c, c ≠ []) (chunk_loop fuel items size).
Proof.
  intros Hf Hs. revert items Hf. induction fuel as [|fuel IH]; intros [|x items] Hf; cbn in *; try done; [lia|].
  destruct size as [|size]; [lia|]. cbn. destruct (IH (drop size items)) as [H1 H2]; [rewrite length_drop; lia|].
  rewrite H1, take_drop. split; [done|]. by constructor.
Qed.

Lemma find_complete_spec eventId entryIds (table : Table) entryId :
  entryId ∈ findCompleteEntryIds eventId entryIds table ↔
  (entryIds = [] ∨ entryId ∈ entryIds) ∧ complete_group (scope entryId eventId table) = true.
Proof.
  unfold findCompleteEntryIds. rewrite list_elem_of_In, List.filter_In, <-list_elem_of_In, elem_of_dedup, filter_filter_bool.
  set (sel := is_nil entryIds || bool_decide (entryId ∈ entryIds)).
  assert (sel = true ↔ entryIds = [] ∨ entryId ∈ entryIds) as <-.
  { unfold sel. rewrite orb_true_iff, bool_decide_eq_true. destruct entryIds; naive_solver. }
  assert (List.filter (λ r, (ep_eventId r =? eventId) && (is_nil entryIds || bool_decide (ep_entryId r ∈ entryIds)) &&
            (ep_entryId r =? entryId)) table = if sel then scope entryId eventId table else []) as ->.
  { unfold scope, in_scope. destruct sel eqn:Es.
    - apply List.filter_ext. intros r. destruct (Z.eqb_spec (ep_entryId r) entryId) as [->|]; [|by rewrite andb_false_r].
      fold sel. rewrite Es. by rewrite !andb_true_r.
    - apply filter_bool_none. intros r _. destruct (Z.eqb_spec (ep_entryId r) entryId) as [->|]; [|by rewrite andb_false_r].
      fold sel. by rewrite Es, andb_false_r. }
  split.
  - intros [_ H]. by destruct sel.
  - intros [Hs H]. rewrite Hs in *. split; [|done].
    destruct (scope entryId eventId table) as [|r rows] eqn:E; [done|].
    assert (r ∈ scope entryId eventId table) as Hr by (rewrite E; by left).
    apply list_elem_of_In, List.filter_In in Hr as [Hr [He Hv]%andb_true_iff]. apply Z.eqb_eq in He. subst entryId.
    apply list_elem_of_fmap. exists r. split; [done|]. apply list_elem_of_In, List.filter_In. split; [done|].
    rewrite Hv. exact Hs.
Qed.

Lemma find_entry_ids_spec eventId entryIds (table : Table) entryId :
  entryId ∈ findEntryIdsByEvent eventId entryIds table ↔
  (entryIds = [] ∨ entryId ∈ entryIds) ∧ complete_group (scope entryId eventId table) = true.
Proof.
  unfold findEntryIdsByEvent. destruct (is_nil entryIds) eqn:Hn.
  { destruct entryIds; [|done]. rewrite find_complete_spec. done. }
  destruct (chunk_loop_spec 1000 (length (dedup entryIds)) (dedup entryIds)) as [Hc Hne]; [lia|lia|].
  rewrite list_elem_of_In, List.in_concat. unfold chunkArray. rewrite Forall_forall in Hne. split.
  - intros (l & Hl & Hin). apply list_elem_of_In, list_elem_of_fmap in Hl as (chunk & -> & Hchunk).
    apply list_elem_of_In, find_complete_spec in Hin as [[Hnil|Hin] Hg]; [by apply Hne in Hchunk|].
    split; [|done]. right. apply elem_of_dedup. rewrite <-Hc. apply list_elem_of_In, List.in_concat.
    exists chunk. by rewrite <-!list_elem_of_In.
  - intros [[->|Hin] Hg]; [done|]. apply elem_of_dedup in Hin. rewrite <-Hc in Hin.
    apply list_elem_of_In, List.in_concat in Hin as (chunk & Hchunk & Hin).
    exists (findCompleteEntryIds eventId chunk table). rewrite <-!list_elem_of_In in *. split.
    + apply list_elem_of_fmap. eauto.
    + apply find_complete_spec. auto.
Qed.

(** What an upsert that succeeds does. *)
Lemma upsert_cases entryId eventId picks syncedAt (table table' : Table) changed :
  upsertFromPicks references entryId eventId picks syncedAt table = Ok (table', changed) →
  squad (pr_picks picks) ∧ ∃ at_, syncedAt = Some at_ ∧
  (changed = false ∧ table' = table ∧ scope entryId eventId table ≠ [] ∧
     (∃ newest, newestStoredAt (scope entryId eventId table) = Some newest ∧ at_ ≤ newest) ∨
   changed = true ∧ ∃ rows,
     mapM (row_of_pick entryId eventId picks (earliestCreatedAt (scope entryId eventId table) at_) at_)
       (pr_picks picks) = Some rows ∧
     table' = List.filter (λ r, negb (in_scope entryId eventId r)) table ++ rows).
Proof.
  unfold upsertFromPicks. destruct (negb (isEntryPicksPayloadForEvent _ _)); [done|].
  destruct (isCompleteEntryPicks _) eqn:Hc; [|done]. apply isCompleteEntryPicks_squad in Hc. cbn [negb].
  destruct syncedAt as [at_|]; [|done]. intros H. split; [done|]. exists at_. split; [done|].
  unfold replaceScope in H. fold (scope entryId eventId table) in H.
  destruct (newestStoredAt (scope entryId eventId table)) as [newest|] eqn:Hn.
  - destruct (Z.leb_spec at_ newest).
    + injection H as <- <-. left. split_and!; [done|done| |by exists newest].
      intros E. by rewrite E in Hn.
    + destruct (mapM _ _) as [rows|]; [|done]. apply result_bind_ok in H as (t & Ht & [= <- <-]).
      apply insert_rows_ok in Ht. right. split; [done|]. by exists rows.
  - destruct (mapM _ _) as [rows|]; [|done]. apply result_bind_ok in H as (t & Ht & [= <- <-]).
    apply insert_rows_ok in Ht. right. split; [done|]. by exists rows.
Qed.

Lemma scope_replaced entryId eventId (table rows : Table) :
  Forall (λ r, in_scope entryId eventId r = true) rows →
  scope entryId eventId (List.filter (λ r, negb (in_scope entryId eventId r)) table ++ rows) = rows.
Proof.
  intros Hr. unfold scope. rewrite List.filter_app, filter_filter_bool, filter_bool_none, filter_bool_all; [done| |].
  - by apply Forall_forall.
  - intros r _. by destruct (in_scope entryId eventId r).
Qed.

Lemma scope_other entryId eventId entryId' eventId' (table rows : Table) :
  (entryId', eventId') ≠ (entryId, eventId) → Forall (λ r, in_scope entryId eventId r = true) rows →
  scope entryId' eventId' (List.filter (λ r, negb (in_scope entryId eventId r)) table ++ rows) =
  scope entryId' eventId' table.
Proof.
  intros Hne Hr. unfold scope. rewrite List.filter_app, filter_filter_bool.
  assert (∀ r, in_scope entryId eventId r = true → in_scope entryId' eventId' r = false) as Hex.
  { intros r Hs. apply not_true_iff_false. intros Hs'. apply Hne. unfold in_scope in *. boolsolve. congruence. }
  rewrite (filter_bool_none _ rows), app_nil_r.
  - apply List.filter_ext. intros r. destruct (in_scope entryId eventId r) eqn:E; [|done]. by rewrite Hex.
  - intros r Hin. apply Hex. by eapply Forall_forall in Hr.
Qed.

Lemma upsert_rows_in_scope entryId eventId response created at_ picks rows :
  mapM (row_of_pick entryId eventId response created at_) picks = Some rows →
  Forall (λ r, in_scope entryId eventId r = true) rows.
Proof.
  intros (_ & _ & _ & _ & _ & H)%rows_of_picks. by eapply Forall_impl; [exact H|intros r []].
Qed.

Lemma stored_complete (table : Table) :
  stored_table table → ∀ entryId eventId,
  scope entryId eventId table = [] ∨ complete_group (scope entryId eventId table) = true.
Proof.
  induction 1 as [|entryId eventId picks syncedAt table table' changed _ IH Hup]; intros e v; [by left|].
  apply upsert_cases in Hup as (Hsq & at_ & _ & [(_ & -> & _)|(_ & rows & Hrows & ->)]); [done|].
  pose proof (upsert_rows_in_scope _ _ _ _ _ _ _ Hrows) as Hin.
  destruct (decide ((e, v) = (entryId, eventId))) as [[= -> ->]|Hne]; [|by rewrite scope_other].
  right. rewrite scope_replaced by done. apply rows_of_picks in Hrows as (? & _ & _ & ? & ? & _).
  by eapply squad_rows_complete.
Qed.

End stored.

(** Picks that were stored are found. On a table that only the repository wrote, an upsert of a
    payload that succeeds makes the entry one of those the gameweek is complete for, with or without
    a filter on entries, and leaves every other squad as it was; if it changed the table, the squad
    is exactly the payload's: its players, positions, multipliers and roles, all at the time of the
    payload; and it changes nothing only if a squad at least as new is stored. *)
Theorem stored_picks_found (references : PickRow → bool) (entryId eventId : Z) (picks : PicksResponse)
    (syncedAt : Z) (table table' : list PickRow) (changed : bool) (entryIds : list Z)
    (Hstored : stored_table references table)
    (Hupsert : upsertFromPicks references entryId eventId picks (Some syncedAt) table = Ok (table', changed))
    (Hasked : entryIds = [] ∨ entryId ∈ entryIds) :
  entryId ∈ findEntryIdsByEvent eventId entryIds table' ∧
  (∀ e v, (e, v) ≠ (entryId, eventId) → scope e v table' = scope e v table) ∧
  (changed = true →
     (λ r, (ep_elementId r, ep_position r, ep_multiplier r)) <$> scope entryId eventId table' =
     (λ p, (int_value (pk_element p), int_value (pk_position p), int_value (pk_multiplier p))) <$> pr_picks picks ∧
     ep_isCaptain <$> scope entryId eventId table' = pk_is_captain <$> pr_picks picks ∧
     ep_isViceCaptain <$> scope entryId eventId table' = pk_is_vice_captain <$> pr_picks picks ∧
     Forall (λ r, ep_sourceUpdatedAt r = syncedAt) (scope entryId eventId table')) ∧
  (changed = false → table' = table ∧
     ∃ newest, newestStoredAt (scope entryId eventId table) = Some newest ∧ syncedAt ≤ newest).
Proof.
  pose proof (stored_complete references table Hstored entryId eventId) as Hold.
  apply upsert_cases in Hupsert as (Hsq & at_ & [= <-] & [(-> & -> & Hne & Hnew)|(-> & rows & Hrows & ->)]).
  - split_and!; [|done|done|done]. apply find_entry_ids_spec. split; [done|]. by destruct Hold.
  - pose proof (upsert_rows_in_scope _ _ _ _ _ _ _ Hrows) as Hin.
    apply rows_of_picks in Hrows as (Hp & He & Hm & Hc & Hv & Hall). split_and!; [| |intros _|done].
    + apply find_entry_ids_spec. split; [done|]. rewrite scope_replaced by done. by eapply squad_rows_complete.
    + intros e v Hne. by apply scope_other.
    + rewrite scope_replaced by done. split_and!; [|done|done|by eapply Forall_impl; [exact Hall|intros r []]].
      clear -Hp He Hm. revert rows Hp He Hm. induction (pr_picks picks) as [|p l IH]; intros [|r rows] Hp He Hm; try done.
      cbn in *. simplify_eq. f_equal; [congruence|]. by apply IH.
Qed.

Section Examples.
Local Definition sample_pick (n : Z) : PickItem :=
  mkPick (of_int (100 + n)) (of_int n) (of_int (if n =? 1 then 2 else if n <=? 11 then 1 else 0))
    (n =? 1) (n =? 2).
Local Definition sample_picks : list PickItem := sample_pick <$> seqZ 1 15.
Local Definition sample_response : PicksResponse :=
  mkPicksResponse (Some (js "3xc")) (mkHistory (of_int 7) (of_int 1) (of_int 4)) sample_picks.

Lemma scoring_captain_unique_witness :
  isCompleteEntryPicks (picks_json sample_picks) = true ∧
  ∃ p, resolveScoringCaptainPick sample_picks = Some p ∧ p ∈ sample_picks.
Proof.
  assert (isCompleteEntryPicks (picks_json sample_picks) = true) as H by (vm_compute; reflexivity).
  split; [exact H|]. destruct (scoring_captain_unique sample_picks H) as (p & H1 & H2 & _).
  exists p. split; [exact H1|exact H2].
Defined.

Lemma stored_picks_found_witness :
  ∃ table, upsertFromPicks (λ _, true) 42 7 sample_response (Some 1000) [] = Ok (table, true) ∧
    length table = 15%nat ∧ 42 ∈ findEntryIdsByEvent 7 [41; 42] table.
Proof.
  destruct (upsertFromPicks (λ _, true) 42 7 sample_response (Some 1000) []) as [[table changed]|e] eqn:H.
  - assert (changed = true ∧ length table = 15%nat) as [-> Hlen].
    { assert ((λ r, match r with Ok (t, c) => (c, length t) | Throw _ => (false, 0%nat) end)
               (upsertFromPicks (λ _, true) 42 7 sample_response (Some 1000) []) = (true, 15%nat)) as Hrun
        by (vm_compute; reflexivity).
      rewrite H in Hrun. cbv beta iota in Hrun. exact (conj (f_equal fst Hrun) (f_equal snd Hrun)). }
    exists table. split; [reflexivity|]. split; [exact Hlen|].
    refine (proj1 (stored_picks_found (λ _, true) 42 7 sample_response 1000 [] table true [41; 42]
      (stored_empty _) H _)).
    right. apply list_elem_of_further, list_elem_of_here.
  - exfalso. assert (is_ok (upsertFromPicks (λ _, true) 42 7 sample_response (Some 1000) []) = true) as Hok
      by (vm_compute; reflexivity).
    rewrite H in Hok. discriminate Hok.
Defined.
End Examples.
