(* ===== verification/PicksProbe.v ===== *)
(** * Probing picks ([src/services/live-lifecycle-orchestrator.ts])

    After a deadline the provider publishes squads at an unknown time.  A probe asks for two canaries,
    entries not asked before in the round; while none is complete, the rest waits; once one was, every
    pending entry is queued, and not again for ten minutes.

    The two maps of the module hold, per gameweek, the state of the probing and the claims of the
    entries that were queued.  A probe mutates the objects it finds in them; an object it creates is
    stored only at its end.  The provider, the stored picks and the queue are what one probe meets. *)

From S2P Require Import Prelude JsCollections JsNumber Json EntryPicks.

(** ** The entries of a gameweek *)

(** src: src/services/live-lifecycle-orchestrator.ts:274-291 resolveUniqueActiveTournamentEntryIds *)
Definition resolveUniqueActiveTournamentEntryIds (entryLists : list (list Z)) (knownEntries : list (Z * option Z))
    (eventId : Z) : list Z :=
  List.filter (λ entryId, 0 <? entryId)
    (dedup (concat entryLists ++
       (fst <$> List.filter (λ e, match e.2 with Some startedEvent => startedEvent <=? eventId | None => true end)
                  knownEntries))).

(** src: src/services/live-lifecycle-orchestrator.ts:293-295 isStablePicksResponse *)
Definition isStablePicksResponse (payload : PicksResponse) (eventId : Z) : bool :=
  number_eqb (ph_event (pr_entry_history payload)) (of_int eventId) &&
  isCompleteEntryPicks (picks_json (pr_picks payload)).

(** ** State *)

(** src: src/services/live-lifecycle-orchestrator.ts:90-95 PicksProbeState *)
Record PicksProbeState := mkProbeState {
  ps_attempts : Z;
  ps_nextProbeAt : Z;
  ps_canarySucceeded : bool;
  ps_failedCanaryEntryIds : list Z;
}.

(** The entries of the two maps for one gameweek.
    src: src/services/live-lifecycle-orchestrator.ts:97-99 picksProbeStates *)
Record ProbeMemory := mkMemory {
  pm_state : option PicksProbeState;
  pm_claims : option (list (Z * Z));
}.

(** What one probe meets: the entries of the gameweek, those whose picks are stored, what the
    provider answers for an entry, whether the answer could be stored, and whether the queue
    accepts a job. *)
Record ProbeWorld := mkProbeWorld {
  pw_entryIds : list Z;
  pw_persisted : list Z;
  pw_fetch : Z → result PicksResponse;
  pw_persist : Z → PicksResponse → bool;
  pw_enqueues : bool;
}.

(** What a probe did: nothing, a failed round with the pending entries, an accepted round with the
    canaries that succeeded and the entries queued, or a round whose queueing threw. *)
Inductive ProbeOutcome :=
| NotProbed
| Paused (canaries : list Z) (pending : list Z)
| Accepted (canaryCount : Z) (queued : list Z)
| QueueFailed.

Section probe.
Context (PICKS_RETRY_SCHEDULE_MS : list Z) (eventId : Z).

(** src: src/services/live-lifecycle-orchestrator.ts:303-308 runPicksProbeAndSync *)
Definition fresh_state : PicksProbeState := mkProbeState 0 0 false [].

(** src: src/services/live-lifecycle-orchestrator.ts:319-323 runPicksProbeAndSync *)
Definition pending_entries (entryIds persisted : list Z) (fanoutClaims : list (Z * Z)) (nowMs : Z) : list Z :=
  List.filter (λ entryId, negb (bool_decide (entryId ∈ persisted)) &&
    (negb (map_has entryId fanoutClaims) ||
     (10 * 60000 <=? nowMs - nullish (map_get entryId fanoutClaims) 0))) entryIds.

(** The canaries of the round and the failed canaries it starts with.
    src: src/services/live-lifecycle-orchestrator.ts:325-331 runPicksProbeAndSync *)
Definition choose_canaries (state : PicksProbeState) (pending : list Z) : list Z * list Z :=
  if ps_canarySucceeded state then ([], ps_failedCanaryEntryIds state)
  else
    let canaries := take 2 (List.filter (λ id, negb (bool_decide (id ∈ ps_failedCanaryEntryIds state))) pending) in
    if is_nil canaries then (take 2 pending, []) else (canaries, ps_failedCanaryEntryIds state).

(** src: src/services/live-lifecycle-orchestrator.ts:333-342 runPicksProbeAndSync *)
Definition canary_ok (w : ProbeWorld) (entryId : Z) : bool :=
  match pw_fetch w entryId with
  | Ok payload => isStablePicksResponse payload eventId && pw_persist w entryId payload
  | Throw _ => false
  end.

(** src: src/services/live-lifecycle-orchestrator.ts:343-348 runPicksProbeAndSync *)
Definition record_canaries (w : ProbeWorld) (canaries failed : list Z) : list Z :=
  fold_left (λ failed id,
    if canary_ok w id then List.filter (λ x, negb (x =? id)) failed
    else if bool_decide (id ∈ failed) then failed else failed ++ [id]) canaries failed.

(** src: src/services/live-lifecycle-orchestrator.ts:352-354 runPicksProbeAndSync *)
Definition retry_delay (attempts : Z) : Z :=
  nullish (PICKS_RETRY_SCHEDULE_MS !! Z.to_nat (Z.min (attempts - 1) (Z.of_nat (length PICKS_RETRY_SCHEDULE_MS) - 1)))
    600000.

(** src: src/services/live-lifecycle-orchestrator.ts:297-396 runPicksProbeAndSync *)
Definition runPicksProbeAndSync (w : ProbeWorld) (nowMs : Z) (memory : ProbeMemory) : ProbeMemory * ProbeOutcome :=
  let state := nullish (pm_state memory) fresh_state in
  if nowMs <? ps_nextProbeAt state then (memory, NotProbed)
  else if is_nil (pw_entryIds w) then (memory, NotProbed)
  else
    let fanoutClaims :=
      List.filter (λ claim, negb (bool_decide (claim.1 ∈ pw_persisted w))) (nullish (pm_claims memory) []) in
    let found_claims := (λ _, fanoutClaims) <$> pm_claims memory in
    let pending := pending_entries (pw_entryIds w) (pw_persisted w) fanoutClaims nowMs in
    if is_nil pending then (mkMemory (pm_state memory) found_claims, NotProbed)
    else
      let '(canaries, failedBefore) := choose_canaries state pending in
      let canaryCount := count (canary_ok w) canaries in
      let failed := record_canaries w canaries failedBefore in
      if negb (ps_canarySucceeded state) && (canaryCount =? 0) then
        let attempts := ps_attempts state + 1 in
        (mkMemory (Some (mkProbeState attempts (nowMs + retry_delay attempts) false failed)) found_claims,
         Paused canaries pending)
      else
        let remaining := List.filter (λ id, negb (bool_decide (id ∈ canaries))) pending in
        let next_state :=
          mkProbeState (ps_attempts state + 1) (nowMs + nullish (PICKS_RETRY_SCHEDULE_MS !! 0%nat) 120000) true failed in
        if is_nil remaining then (mkMemory (Some next_state) (Some fanoutClaims), Accepted canaryCount [])
        else if pw_enqueues w then
          (mkMemory (Some next_state) (Some (fold_left (λ claims id, map_set id nowMs claims) remaining fanoutClaims)),
           Accepted canaryCount remaining)
        else
          (* The promise rejects: only objects that were in the maps keep their changes. *)
          (mkMemory ((λ s, mkProbeState (ps_attempts s) (ps_nextProbeAt s) true failed) <$> pm_state memory) found_claims,
           QueueFailed).

(** Probes one after another. *)
Fixpoint run_probes (probes : list (Z * ProbeWorld)) (memory : ProbeMemory) : ProbeMemory * list ProbeOutcome :=
  match probes with
  | [] => (memory, [])
  | (nowMs, w) :: probes =>
      let '(memory, outcome) := runPicksProbeAndSync w nowMs memory in
      let '(memory, outcomes) := run_probes probes memory in
      (memory, outcome :: outcomes)
  end.
End probe.

(** ** A probe *)

Section probe_facts.
Context (schedule : list Z) (eventId : Z).

Lemma elem_of_record_canaries w canaries failed x :
  x ∈ record_canaries eventId w canaries failed →
  x ∈ failed ∨ x ∈ canaries ∧ canary_ok eventId w x = false.
Proof.
  unfold record_canaries. revert failed. induction canaries as [|id canaries IH]; intros failed; cbn; [auto|].
  intros H%IH. destruct (canary_ok eventId w id) eqn:Hok.
  - rewrite elem_of_filter_bool in H. set_solver.
  - case_bool_decide; [set_solver|]. rewrite elem_of_app, list_elem_of_singleton in H.
    destruct H as [[H| ->]|H]; [auto|right; set_solver|set_solver].
Qed.

Lemma record_canaries_keeps w canaries failed x :
  (∀ id, id ∈ canaries → canary_ok eventId w id = false) →
  x ∈ failed ∨ x ∈ canaries → x ∈ record_canaries eventId w canaries failed.
Proof.
  unfold record_canaries. revert failed. induction canaries as [|id canaries IH]; intros failed Hf Hx; cbn; [set_solver|].
  rewrite (Hf id) by (by left). apply IH; [set_solver|].
  case_bool_decide; rewrite ?elem_of_app, ?list_elem_of_singleton; set_solver.
Qed.

(** The canaries are pending, and new ones are asked before any of the round is asked again. *)
Lemma choose_canaries_spec state pending canaries failed :
  choose_canaries state pending = (canaries, failed) → ps_canarySucceeded state = false → pending ≠ [] →
  (∀ id, id ∈ canaries → id ∈ pending) ∧ canaries ≠ [] ∧
  (failed = ps_failedCanaryEntryIds state ∧ (∀ id, id ∈ canaries → id ∉ failed) ∨
   failed = [] ∧ ∀ id, id ∈ pending → id ∈ ps_failedCanaryEntryIds state).
Proof.
  intros H Hs Hne. unfold choose_canaries in H. rewrite Hs in H.
  set (untried := List.filter _ pending) in H. destruct untried as [|x l] eqn:Hu; cbn in H; injection H as <- <-.
  - split_and!; [intros id Hid; by eapply elem_of_take in Hid as (? & ? & _); eapply list_elem_of_lookup_2
                |by destruct pending|].
    right. split; [done|]. intros id Hid. destruct (decide (id ∈ ps_failedCanaryEntryIds state)) as [|Hn]; [done|].
    assert (id ∈ untried) as Hin; [|rewrite Hu in Hin; set_solver].
    apply elem_of_filter_bool. split; [done|]. apply negb_true_iff. by case_bool_decide.
  - assert (∀ id, id ∈ x :: take 1 l → id ∈ untried) as Hsub.
    { rewrite Hu. intros id [->|Hid]%elem_of_cons; [by left|]. right.
      by eapply elem_of_take in Hid as (? & ? & _); eapply list_elem_of_lookup_2. }
    split_and!; [intros id Hid; by apply Hsub, elem_of_filter_bool in Hid as [? _]|done|]. left. split; [done|].
    intros id Hid. apply Hsub, elem_of_filter_bool in Hid as [_ Hid]. apply negb_true_iff in Hid. by case_bool_decide.
Qed.

Definition succeeded (m : ProbeMemory) : bool := ps_canarySucceeded (nullish (pm_state m) fresh_state).
Definition claims_of (m : ProbeMemory) : list (Z * Z) := nullish (pm_claims m) [].

Lemma map_get_kept (persisted : list Z) (claims : list (Z * Z)) id :
  map_get id (List.filter (λ claim, negb (bool_decide (claim.1 ∈ persisted))) claims) =
  if bool_decide (id ∈ persisted) then None else map_get id claims.
Proof.
  induction claims as [|[k t] claims IH]; cbn; [by case_match|].
  destruct (bool_decide (k ∈ persisted)) eqn:Hk; cbn.
  - rewrite IH. destruct (bool_decide (id ∈ persisted)) eqn:Hi; [done|].
    apply bool_decide_eq_true in Hk. apply bool_decide_eq_false in Hi. case_decide as Hid; [congruence|done].
  - rewrite IH. apply bool_decide_eq_false in Hk. destruct (decide (id = k)) as [->|]; [|done].
    by rewrite bool_decide_eq_false_2.
Qed.

Lemma map_get_claimed now ids (claims : list (Z * Z)) id :
  map_get id (fold_left (λ claims id, map_set id now claims) ids claims) =
  if bool_decide (id ∈ ids) then Some now else map_get id claims.
Proof.
  revert claims. induction ids as [|x ids IH]; intros claims; cbn.
  { by rewrite bool_decide_eq_false_2 by set_solver. }
  rewrite IH. destruct (decide (id = x)) as [->|Hne].
  - rewrite (bool_decide_eq_true_2 (x ∈ x :: ids)) by (by left). rewrite map_get_set_eq. by case_match.
  - rewrite map_get_set_ne by done. do 2 case_bool_decide; set_solver.
Qed.

(** What a probe knows once it runs. *)
Definition still_claimed (w : ProbeWorld) (m : ProbeMemory) : list (Z * Z) :=
  List.filter (λ claim, negb (bool_decide (claim.1 ∈ pw_persisted w))) (claims_of m).

Definition pending_at (w : ProbeWorld) (now : Z) (m : ProbeMemory) : list Z :=
  pending_entries (pw_entryIds w) (pw_persisted w) (still_claimed w m) now.

Lemma elem_of_pending w now m id :
  id ∈ pending_at w now m ↔ id ∈ pw_entryIds w ∧ id ∉ pw_persisted w ∧
    ∀ t, map_get id (claims_of m) = Some t → t + 600000 ≤ now.
Proof.
  unfold pending_at, pending_entries, still_claimed, map_has. rewrite elem_of_filter_bool, map_get_kept.
  rewrite andb_true_iff, negb_true_iff, bool_decide_eq_false. split.
  - intros (Hin & Hp & Hc). split_and!; [done..|]. intros t Ht.
    rewrite bool_decide_eq_false_2, Ht in Hc by done. cbn in Hc. lia.
  - intros (Hin & Hp & Hc). split_and!; [done..|]. rewrite bool_decide_eq_false_2 by done.
    destruct (map_get id (claims_of m)) as [t|]; [|done]. cbn. specialize (Hc t eq_refl). lia.
Qed.

(** The effects of a probe, case by case. *)
Inductive probed (w : ProbeWorld) (now : Z) (m : ProbeMemory) : ProbeMemory → ProbeOutcome → Prop :=
| probed_not m' :
    pm_state m' = pm_state m → claims_of m' = claims_of m ∨ claims_of m' = still_claimed w m →
    probed w now m m' NotProbed
| probed_paused canaries failed m' :
    succeeded m = false → choose_canaries (nullish (pm_state m) fresh_state) (pending_at w now m) = (canaries, failed) →
    pending_at w now m ≠ [] → (∀ id, id ∈ canaries → canary_ok eventId w id = false) →
    pm_state m' = Some (mkProbeState (ps_attempts (nullish (pm_state m) fresh_state) + 1)
      (now + retry_delay schedule (ps_attempts (nullish (pm_state m) fresh_state) + 1)) false
      (record_canaries eventId w canaries failed)) →
    claims_of m' = still_claimed w m →
    probed w now m m' (Paused canaries (pending_at w now m))
| probed_accepted count queued m' :
    succeeded m = true ∨ (∃ id, id ∈ pending_at w now m ∧ canary_ok eventId w id = true) →
    (∀ id, id ∈ queued → id ∈ pending_at w now m) → succeeded m' = true →
    claims_of m' = fold_left (λ claims id, map_set id now claims) queued (still_claimed w m) →
    probed w now m m' (Accepted count queued)
| probed_queue_failed m' :
    succeeded m = true ∨ (∃ id, id ∈ pending_at w now m ∧ canary_ok eventId w id = true) →
    claims_of m' = still_claimed w m →
    probed w now m m' QueueFailed.

Lemma count_canaries w canaries :
  (count (canary_ok eventId w) canaries =? 0) = false → ∃ id, id ∈ canaries ∧ canary_ok eventId w id = true.
Proof. intros H. apply count_exists. unfold count in *. lia. Qed.

Lemma claims_found w m :
  nullish ((λ _ : list (Z * Z), still_claimed w m) <$> pm_claims m) [] = still_claimed w m.
Proof. unfold still_claimed, claims_of. by destruct (pm_claims m). Qed.

Lemma probe_cases w now m m' outcome :
  runPicksProbeAndSync schedule eventId w now m = (m', outcome) → probed w now m m' outcome.
Proof.
  unfold runPicksProbeAndSync. set (state := nullish (pm_state m) fresh_state).
  fold (claims_of m). fold (still_claimed w m). fold (pending_at w now m).
  destruct (now <? ps_nextProbeAt state); [intros [= <- <-]; by apply probed_not; [|left]|].
  destruct (is_nil (pw_entryIds w)); [intros [= <- <-]; by apply probed_not; [|left]|].
  destruct (is_nil (pending_at w now m)) eqn:Hn.
  { intros [= <- <-]. apply probed_not; [done|]. right. unfold claims_of. cbn. apply claims_found. }
  assert (pending_at w now m ≠ []) as Hne by (by destruct (pending_at w now m)).
  destruct (choose_canaries state (pending_at w now m)) as [canaries failed] eqn:Hc.
  assert (ps_canarySucceeded state = succeeded m) as -> by done.
  destruct (succeeded m) eqn:Hs; cbn [negb andb].
  - destruct (is_nil (List.filter _ (pending_at w now m))) eqn:Hr; [|destruct (pw_enqueues w)]; intros [= <- <-].
    + apply probed_accepted; [by left|set_solver|done..].
    + apply probed_accepted; [by left| |done..]. intros id Hid. by apply elem_of_filter_bool in Hid as [? _].
    + apply probed_queue_failed; [by left|]. apply claims_found.
  - destruct (choose_canaries_spec state (pending_at w now m) canaries failed Hc Hs Hne) as (Hsub & _ & _).
    destruct (count (canary_ok eventId w) canaries =? 0) eqn:Hcount.
    + intros [= <- <-]. eapply probed_paused; [done..| |done|apply claims_found].
      intros id Hid. destruct (canary_ok eventId w id) eqn:Hok; [|done].
      pose proof (count_pos (canary_ok eventId w) canaries id Hid Hok). lia.
    + apply count_canaries in Hcount as (id & Hid & Hok).
      destruct (is_nil (List.filter _ (pending_at w now m))) eqn:Hr; [|destruct (pw_enqueues w)]; intros [= <- <-].
      * apply probed_accepted; [by right; eauto|set_solver|done..].
      * apply probed_accepted; [by right; eauto| |done..]. intros x Hx. by apply elem_of_filter_bool in Hx as [? _].
      * apply probed_queue_failed; [by right; eauto|]. apply claims_found.
Qed.

(** ** Runs *)

(** Time passes, and what is stored stays stored. *)
Definition later (a b : Z * ProbeWorld) : Prop :=
  a.1 ≤ b.1 ∧ ∀ id, id ∈ pw_persisted a.2 → id ∈ pw_persisted b.2.

(** The entry asked for and stored at a probe, with its complete squad. *)
Definition proof_of_picks (probe : Z * ProbeWorld) : Prop :=
  ∃ id payload, id ∈ pw_entryIds probe.2 ∧ pw_fetch probe.2 id = Ok payload ∧
    pw_persist probe.2 id payload = true ∧
    number_eqb (ph_event (pr_entry_history payload)) (of_int eventId) = true ∧ squad (pr_picks payload).

Lemma canary_proof w now m :
  (∃ id, id ∈ pending_at w now m ∧ canary_ok eventId w id = true) → proof_of_picks (now, w).
Proof.
  intros (id & Hid & Hok). apply elem_of_pending in Hid as [Hid _]. unfold canary_ok, isStablePicksResponse in Hok.
  destruct (pw_fetch w id) as [payload|] eqn:Hf; [|done]. boolsolve.
  exists id, payload. split_and!; [done..|]. by apply isCompleteEntryPicks_squad.
Qed.

Lemma run_probes_cons now w probes m :
  ∃ m' outcome, probed w now m m' outcome ∧
    (run_probes schedule eventId ((now, w) :: probes) m).2 = outcome :: (run_probes schedule eventId probes m').2.
Proof.
  cbn. destruct (runPicksProbeAndSync schedule eventId w now m) as [m' outcome] eqn:E.
  exists m', outcome. split; [by apply probe_cases|]. by destruct (run_probes schedule eventId probes m').
Qed.

Lemma probed_queued w now m m' c queued id :
  probed w now m m' (Accepted c queued) → id ∈ queued →
  id ∈ pw_entryIds w ∧ id ∉ pw_persisted w ∧ (∀ t, map_get id (claims_of m) = Some t → t + 600000 ≤ now) ∧
  map_get id (claims_of m') = Some now.
Proof.
  inversion 1 as [| |? ? ? Hs Hq Hs' Hc|]; subst. intros Hid. pose proof (Hq id Hid) as Hp.
  apply elem_of_pending in Hp as (? & ? & ?). split_and!; [done..|].
  rewrite Hc, map_get_claimed. by rewrite bool_decide_eq_true_2.
Qed.

Lemma probed_claim w now m m' outcome id t :
  probed w now m m' outcome → id ∉ pw_persisted w → t ≤ now → map_get id (claims_of m) = Some t →
  ∃ t', map_get id (claims_of m') = Some t' ∧ t ≤ t' ≤ now.
Proof.
  intros Hp Hid Ht Hc.
  assert (map_get id (still_claimed w m) = Some t) as Hk.
  { unfold still_claimed. rewrite map_get_kept. by rewrite bool_decide_eq_false_2. }
  destruct Hp as [m' _ [->| ->]|? ? m' _ _ _ _ _ ->|count queued m' _ _ _ ->|m' _ ->]; try (exists t; split; [done|lia]).
  rewrite map_get_claimed. case_bool_decide; [exists now|exists t]; split; [done|lia|done|lia].
Qed.

Lemma run_queued_elem probes m j now w c queued id :
  probes !! j = Some (now, w) → (run_probes schedule eventId probes m).2 !! j = Some (Accepted c queued) →
  id ∈ queued → id ∈ pw_entryIds w ∧ id ∉ pw_persisted w.
Proof.
  revert m j. induction probes as [|[now0 w0] probes IH]; intros m j Hj Ho Hid; [done|].
  destruct (run_probes_cons now0 w0 probes m) as (m' & outcome & Hp & Hrun). rewrite Hrun in Ho.
  destruct j as [|j]; cbn in Hj, Ho; [|by eapply IH].
  injection Hj as -> ->. injection Ho as ->. by apply (probed_queued _ _ _ _ _ _ id) in Hp as (? & ? & _).
Qed.

Lemma run_claims probes m id t j now w c queued :
  StronglySorted later probes → (∀ p, p ∈ probes → t ≤ p.1) → map_get id (claims_of m) = Some t →
  probes !! j = Some (now, w) → (run_probes schedule eventId probes m).2 !! j = Some (Accepted c queued) →
  id ∈ queued → t + 600000 ≤ now ∧ id ∉ pw_persisted w.
Proof.
  revert m t j. induction probes as [|[now0 w0] probes IH]; intros m t j Hs Ht Hc Hj Ho Hid; [done|].
  apply StronglySorted_cons in Hs as [Hall Hs].
  destruct (run_probes_cons now0 w0 probes m) as (m' & outcome & Hp & Hrun). rewrite Hrun in Ho.
  destruct j as [|j]; cbn in Hj, Ho.
  - injection Hj as -> ->. injection Ho as ->.
    apply (probed_queued _ _ _ _ _ _ id) in Hp as (_ & Hn & Hold & _); [|done]. auto.
  - assert (id ∉ pw_persisted w) as Hn.
    { edestruct (run_queued_elem probes m' j) as [_ Hn]; [exact Hj|exact Ho|exact Hid|done]. }
    assert (later (now0, w0) (now, w)) as [Hle Hpers].
    { rewrite Forall_forall in Hall. apply Hall. by eapply list_elem_of_lookup_2. }
    eapply (probed_claim _ _ _ _ _ id t) in Hp as (t' & Hc' & Ht'); [|naive_solver|by apply (Ht (now0, w0)); left|done].
    destruct (IH m' t' j) as [? ?]; [done| |done..|split; [lia|done]].
    intros p Hp. rewrite Forall_forall in Hall. specialize (Hall p Hp) as [Hle' _]. cbn in Hle'. lia.
Qed.

Lemma probed_evidence w now m m' outcome :
  probed w now m m' outcome → (succeeded m' = true ∨ ∃ c queued, outcome = Accepted c queued) →
  succeeded m = true ∨ proof_of_picks (now, w).
Proof.
  destruct 1 as [m' Hs _|canaries failed m' Hs _ _ _ Hst _|count queued m' [Hs|Hs] _ _ _|m' [Hs|Hs] _];
    intros H; try (by left); try (right; by eapply canary_proof).
  - left. unfold succeeded in *. rewrite <-Hs. destruct H as [H|(? & ? & ?)]; [done|discriminate].
  - exfalso. destruct H as [H|(? & ? & ?)]; [|discriminate]. unfold succeeded in H. by rewrite Hst in H.
Qed.

Lemma run_evidence probes m j c queued :
  succeeded m = false → (run_probes schedule eventId probes m).2 !! j = Some (Accepted c queued) →
  ∃ i probe, (i ≤ j)%nat ∧ probes !! i = Some probe ∧ proof_of_picks probe.
Proof.
  revert m j. induction probes as [|[now w] probes IH]; intros m j Hm Ho; [done|].
  destruct (run_probes_cons now w probes m) as (m' & outcome & Hp & Hrun). rewrite Hrun in Ho.
  destruct (succeeded m') eqn:Hm'.
  - destruct (probed_evidence _ _ _ _ _ Hp ltac:(by left)) as [?|Hev]; [congruence|].
    exists 0%nat, (now, w). split_and!; [lia|done|done].
  - destruct j as [|j]; cbn in Ho.
    + injection Ho as ->. destruct (probed_evidence _ _ _ _ _ Hp ltac:(right; eauto)) as [?|Hev]; [congruence|].
      exists 0%nat, (now, w). split_and!; [lia|done|done].
    + apply IH in Ho as (i & probe & ? & ? & ?); [|done]. exists (S i), probe. split_and!; [lia|done|done].
Qed.

Lemma run_twice probes m i j now w now' w' c c' queued queued' id :
  StronglySorted later probes → (i < j)%nat →
  probes !! i = Some (now, w) → (run_probes schedule eventId probes m).2 !! i = Some (Accepted c queued) →
  probes !! j = Some (now', w') → (run_probes schedule eventId probes m).2 !! j = Some (Accepted c' queued') →
  id ∈ queued → id ∈ queued' → now + 600000 ≤ now'.
Proof.
  revert m i j. induction probes as [|[now0 w0] probes IH]; intros m i j Hs Hij Hi Hoi Hj Hoj Hid Hid'; [done|].
  destruct (run_probes_cons now0 w0 probes m) as (m' & outcome & Hp & Hrun). rewrite Hrun in Hoi, Hoj.
  apply StronglySorted_cons in Hs as [Hall Hs]. destruct j as [|j]; [lia|]. destruct i as [|i]; cbn in *.
  - injection Hi as -> ->. injection Hoi as ->.
    apply (probed_queued _ _ _ _ _ _ id) in Hp as (_ & _ & _ & Hc); [|done].
    eapply (run_claims probes m' id now j) in Hoj as [? _]; [done|done| |done|done|done].
    intros p Hp. rewrite Forall_forall in Hall. by specialize (Hall p Hp) as [? _].
  - eapply (IH m' i j); eauto. lia.
Qed.

(** ** Rounds of canaries *)

(** The pending entries not asked in the round. *)
Definition untried (pending failed : list Z) : nat :=
  length (List.filter (λ id, negb (bool_decide (id ∈ failed))) pending).

Lemma untried_le pending failed : (untried pending failed ≤ length pending)%nat.
Proof. apply List.filter_length_le. Qed.

Lemma untried_less pending failed failed' x :
  (∀ id, id ∈ failed → id ∈ failed') → x ∈ pending → x ∉ failed → x ∈ failed' →
  (untried pending failed' < untried pending failed)%nat.
Proof.
  intros Hsub Hx Hn Hin. unfold untried.
  assert (∀ l, length (List.filter (λ id, negb (bool_decide (id ∈ failed'))) l) ≤
               length (List.filter (λ id, negb (bool_decide (id ∈ failed))) l))%nat as Hle.
  { induction l as [|y l IH]; [done|]. cbn.
    destruct (decide (y ∈ failed)); [rewrite !bool_decide_eq_true_2 by auto; cbn; lia|].
    rewrite (bool_decide_eq_false_2 (y ∈ failed)) by done. destruct (bool_decide (y ∈ failed')); cbn; lia. }
  apply list_elem_of_split in Hx as (l1 & l2 & ->). rewrite !List.filter_app. cbn.
  rewrite bool_decide_eq_true_2, bool_decide_eq_false_2 by done. cbn. rewrite !length_app. cbn.
  pose proof (Hle l1). pose proof (Hle l2). lia.
Qed.

(** How many paused probes can still follow while entry [x] of [pending] has squads ready. *)
Definition patience (pending failed : list Z) (x : Z) : nat :=
  if bool_decide (x ∈ failed) then untried pending failed + length pending else untried pending failed.

Definition failed_of (m : ProbeMemory) : list Z := ps_failedCanaryEntryIds (nullish (pm_state m) fresh_state).

Lemma paused_patience w now m m' canaries pending x :
  probed w now m m' (Paused canaries pending) → x ∈ pending → canary_ok eventId w x = true →
  (patience pending (failed_of m') x < patience pending (failed_of m) x)%nat.
Proof.
  inversion 1 as [|canaries' failed m'' Hs Hc Hne Hf Hst Hcl| |]; subst. intros Hx Hok.
  set (pending := pending_at w now m) in *.
  pose proof (choose_canaries_spec _ _ _ _ Hc Hs Hne) as (Hsub & Hcne & Hround).
  assert (failed_of m' = record_canaries eventId w canaries failed) as -> by (unfold failed_of; by rewrite Hst).
  fold (failed_of m) in Hround.
  assert (∀ id, id ∈ failed ∨ id ∈ canaries → id ∈ record_canaries eventId w canaries failed) as Hkeep
    by (intros id; by apply record_canaries_keeps).
  assert (x ∉ canaries) as Hxc by (intros Hin; apply Hf in Hin; congruence).
  assert (x ∈ record_canaries eventId w canaries failed ↔ x ∈ failed) as Hxf.
  { split; [|auto]. intros [?|[? _]]%elem_of_record_canaries; done. }
  destruct canaries as [|y canaries]; [done|]. assert (y ∈ pending) as Hy by (apply Hsub; by left).
  unfold patience. rewrite (bool_decide_ext _ _ Hxf). destruct Hround as [[Hfe Hnew]|[Hfe Hall]].
  - rewrite Hfe in *. assert (untried pending (record_canaries eventId w (y :: canaries) (failed_of m)) <
      untried pending (failed_of m))%nat by (eapply (untried_less _ _ _ y); [auto|done|apply Hnew; by left|apply Hkeep; right; by left]).
    case_bool_decide; lia.
  - rewrite Hfe in *. rewrite bool_decide_eq_false_2 by set_solver.
    rewrite bool_decide_eq_true_2 by (by apply Hall).
    assert (untried pending (record_canaries eventId w (y :: canaries) []) < untried pending [])%nat
      by (eapply (untried_less _ _ _ y); [set_solver|done|set_solver|apply Hkeep; right; by left]).
    pose proof (untried_le pending []). lia.
Qed.

Lemma paused_run probes pending x :
  x ∈ pending → ∀ m,
  (∀ i now w, probes !! i = Some (now, w) → canary_ok eventId w x = true) →
  (∀ i, (i < length probes)%nat → ∃ canaries,
     (run_probes schedule eventId probes m).2 !! i = Some (Paused canaries pending)) →
  (length probes ≤ patience pending (failed_of m) x)%nat.
Proof.
  intros Hx. induction probes as [|[now w] probes IH]; intros m Hok Hp; cbn; [lia|].
  destruct (run_probes_cons now w probes m) as (m' & outcome & Hprobed & Hrun). rewrite Hrun in Hp.
  destruct (Hp 0%nat) as [canaries [= ->]]; [cbn; lia|].
  pose proof (paused_patience _ _ _ _ _ _ x Hprobed Hx (Hok 0%nat _ _ eq_refl)).
  assert (length probes ≤ patience pending (failed_of m') x)%nat; [|lia].
  apply IH; [intros i; apply (Hok (S i))|]. intros i Hi. apply (Hp (S i)). cbn. lia.
Qed.
End probe_facts.

(** No fan-out before the provider has squads, and none twice. In a run of probes from an empty
    memory, with time passing and stored picks staying stored: entries are queued only after some
    entry was asked, answered with a complete squad of that gameweek, and was stored; only entries
    of the gameweek without stored picks are queued; and an entry that is queued twice is queued at
    least ten minutes apart. *)
Theorem picks_fanout_safe (schedule : list Z) (eventId : Z) (probes : list (Z * ProbeWorld))
    (Hlater : StronglySorted later probes) :
  let outcomes := (run_probes schedule eventId probes (mkMemory None None)).2 in
  (∀ j c queued, outcomes !! j = Some (Accepted c queued) →
     ∃ i probe, (i ≤ j)%nat ∧ probes !! i = Some probe ∧ proof_of_picks eventId probe) ∧
  (∀ j now w c queued id, probes !! j = Some (now, w) → outcomes !! j = Some (Accepted c queued) →
     id ∈ queued → id ∈ pw_entryIds w ∧ id ∉ pw_persisted w) ∧
  (∀ i j now w now' w' c c' queued queued' id, (i < j)%nat →
     probes !! i = Some (now, w) → outcomes !! i = Some (Accepted c queued) →
     probes !! j = Some (now', w') → outcomes !! j = Some (Accepted c' queued') →
     id ∈ queued → id ∈ queued' → now + 600000 ≤ now').
Proof.
  cbv zeta. split_and!.
  - intros j c queued. by apply run_evidence.
  - intros. by eapply run_queued_elem.
  - intros. by eapply run_twice.
Qed.

(** The canaries rotate. If the squad of one pending entry can be fetched and stored at every
    probe, fewer than [2 n] probes in a row can pause with the same [n] entries pending, however many
    other entries fail and whatever was asked before. *)
Theorem canaries_rotate (schedule : list Z) (eventId : Z) (probes : list (Z * ProbeWorld))
    (memory : ProbeMemory) (pending : list Z) (x : Z)
    (Hx : x ∈ pending)
    (Hready : ∀ i now w, probes !! i = Some (now, w) → canary_ok eventId w x = true)
    (Hpaused : ∀ i, (i < length probes)%nat → ∃ canaries,
       (run_probes schedule eventId probes memory).2 !! i = Some (Paused canaries pending)) :
  (length probes < 2 * length pending)%nat.
Proof.
  pose proof (paused_run schedule eventId probes pending x Hx memory Hready Hpaused) as H.
  unfold patience in H. pose proof (untried_le pending (failed_of memory)) as Hle.
  assert (0 < length pending)%nat by (destruct pending; [set_solver|cbn; lia]).
  case_bool_decide as Hin; [|lia].
  assert (untried pending (failed_of memory) < untried pending [])%nat as Hlt
    by (apply (untried_less _ _ _ x); [set_solver|done|set_solver|done]).
  pose proof (untried_le pending []). lia.
Qed.

Section Examples.
(** Three entries; the squads of those from [ready] on are published. *)
Local Definition sample_probe (ready : Z) : ProbeWorld :=
  mkProbeWorld [1; 2; 3] [] (λ id, if ready <=? id then Ok EntryPicks.sample_response else Throw "404")
    (λ _ _, true) true.

Lemma picks_fanout_safe_witness :
  let probes := [(1000, sample_probe 3); (200000, sample_probe 3)] in
  let outcomes := (run_probes [120000] 7 probes (mkMemory None None)).2 in
  outcomes = [Paused [1; 2] [1; 2; 3]; Accepted 1 [1; 2]] ∧
  ∃ i probe, (i ≤ 1)%nat ∧ probes !! i = Some probe ∧ proof_of_picks 7 probe.
Proof.
  cbv zeta.
  assert ((run_probes [120000] 7 [(1000, sample_probe 3); (200000, sample_probe 3)] (mkMemory None None)).2 =
    [Paused [1; 2] [1; 2; 3]; Accepted 1 [1; 2]]) as Hrun by (vm_compute; reflexivity).
  split; [exact Hrun|].
  assert (StronglySorted later [(1000, sample_probe 3); (200000, sample_probe 3)]) as Hs.
  { constructor; [constructor; constructor|]. constructor; [|constructor]. split; [vm_compute; discriminate|].
    intros id Hid. exact Hid. }
  apply (proj1 (picks_fanout_safe [120000] 7 _ Hs) 1%nat 1 [1; 2]). rewrite Hrun. reflexivity.
Defined.

Lemma canaries_rotate_witness :
  (run_probes [120000] 7 [(1000, sample_probe 3)] (mkMemory None None)).2 = [Paused [1; 2] [1; 2; 3]] ∧ (1 < 6)%nat.
Proof.
  assert ((run_probes [120000] 7 [(1000, sample_probe 3)] (mkMemory None None)).2 =
    [Paused [1; 2] [1; 2; 3]]) as Hrun by (vm_compute; reflexivity).
  split; [exact Hrun|].
  apply (canaries_rotate [120000] 7 [(1000, sample_probe 3)] (mkMemory None None) [1; 2; 3] 3).
  - set_solver.
  - intros [|i] now w Hi; [|discriminate Hi]. injection Hi as <- <-. vm_compute. reflexivity.
  - intros [|i] Hi; [|cbn in Hi; lia]. exists [1; 2]. rewrite Hrun. reflexivity.
Defined.
End Examples.
