(* ===== verification/SyncOperations.v ===== *)
(** * Synchronisation runs and publications ([src/repositories/sync-operations.ts])

    A run records one synchronisation; a publication is staged for a run under the next revision,
    gets its items, and is activated, skipped or failed.  The state is the five tables the repository
    writes, and the sequence of revisions.

    The transactions of one scope exclude each other (an advisory lock and row locks), so an
    operation is one step; [now] is its database clock, in microseconds.  UUIDs are the lower-case
    texts that [randomUUID] and PostgreSQL print.  A manifest column is known by a text of its value,
    which is what the code does with it.  Which seasons and gameweeks exist, and what the driver binds
    for a JSON [null], are parameters. *)

From S2P Require Import Prelude JsCollections JsNumber Json Postgres Redis DataPublication.

(** ** Data *)

(** src: src/repositories/sync-operations.ts:28-35 SyncRunStatus *)
Inductive RunStatus :=
| RunPending | RunRunning | RunFailed | RunCompleted | RunReadyToPublish | RunPublished | RunSkipped.

(** src: src/repositories/sync-operations.ts:37-37 SyncItemStatus *)
Inductive ItemStatus := ItemPending | ItemRunning | ItemFailed | ItemCompleted | ItemSkipped.

(** The statuses of a publication.
    src: src/db/schemas/platform.schema.ts:330-333 datasetPublicationsInOps *)
Inductive PublicationStatus := Staging | Active | Retired | Failed.

(** The statuses of a delivery.
    src: src/db/schemas/platform.schema.ts:438-441 dataPublicationOutboxInOps *)
Inductive OutboxStatus := OutPending | OutStaged | OutDbActivated | OutRedisActivated | OutDelivered | OutFailed.

#[export] Instance RunStatus_eq_dec : EqDecision RunStatus.
Proof. solve_decision. Defined.
#[export] Instance ItemStatus_eq_dec : EqDecision ItemStatus.
Proof. solve_decision. Defined.
#[export] Instance PublicationStatus_eq_dec : EqDecision PublicationStatus.
Proof. solve_decision. Defined.
#[export] Instance OutboxStatus_eq_dec : EqDecision OutboxStatus.
Proof. solve_decision. Defined.

(** src: src/domain/fpl-season.ts:1-4 FplSeasonRef *)
Record SeasonRef := mkSeason { sn_seasonId : Z; sn_seasonCode : jsstr }.

(** The columns of a run that never change.
    src: src/db/schemas/platform.schema.ts:181-188 syncRunsInOps *)
Record RunIdentity := mkIdentity {
  ri_provider : jsstr; ri_lane : jsstr; ri_scope : jsstr;
  ri_seasonId : option Z; ri_seasonCode : option jsstr; ri_eventId : option Z;
  ri_mode : jsstr; ri_trigger : jsstr;
}.

#[export] Instance RunIdentity_eq_dec : EqDecision RunIdentity.
Proof. solve_decision. Defined.

(** src: src/db/schemas/platform.schema.ts:191-193 syncRunsInOps *)
Record RunCounts := mkCounts { rc_completed : Z; rc_failed : Z; rc_skipped : Z }.

(** src: src/db/schemas/platform.schema.ts:180-205 syncRunsInOps *)
Record Run := mkRun {
  sr_runId : jsstr;
  sr_identity : RunIdentity;
  sr_status : RunStatus;
  sr_expectedItems : Z;
  sr_counts : RunCounts;
  sr_dataChanged : bool;
  sr_publicationId : option jsstr;
  sr_errorSummary : option jsstr;
  sr_metadata : json;
  sr_startedAt : Z;
  sr_completedAt : option Z;
  sr_updatedAt : Z;
}.

(** src: src/db/schemas/platform.schema.ts:1829-1839 syncItemsInOps *)
Record SyncItem := mkSyncItem {
  it_runId : jsstr; it_resourceType : jsstr; it_resourceId : jsstr;
  it_status : ItemStatus;
  it_attempts : Z;
  it_sourceHash : option jsstr;
  it_normalizedPayload : option json;
  it_lastError : option jsstr;
  it_completedAt : option Z;
  it_updatedAt : Z;
}.

(** src: src/db/schemas/platform.schema.ts:349-354 datasetPublicationItemsInOps *)
Record PublicationItem := mkPublicationItem {
  pn_publicationId : jsstr; pn_itemName : jsstr; pn_payload : json; pn_itemCount : Z; pn_checksum : jsstr;
}.

(** src: src/repositories/sync-operations.ts:73-77 PreparedDatasetPublication *)
Record Prepared := mkPrepared { pp_publicationId : jsstr; pp_revision : Z; pp_status : PublicationStatus }.

(** The input of [startRun]; [si_season] is split into the columns of the identity.
    src: src/repositories/sync-operations.ts:39-51 StartSyncRunInput *)
Record StartRunInput := mkStart {
  si_runId : option jsstr;
  si_identity : RunIdentity;
  si_expectedItems : option Z;
  si_metadata : option json;
  si_startedAt : option Z;
}.

(** src: src/repositories/sync-operations.ts:53-62 SyncItemInput *)
Record SyncItemInput := mkItemInput {
  ii_resourceType : jsstr; ii_resourceId : jsstr; ii_status : ItemStatus; ii_attempts : option Z;
  ii_sourceHash : option jsstr; ii_normalizedPayload : option json; ii_lastError : option jsstr;
  ii_completedAt : option Z;
}.

(** src: src/repositories/sync-operations.ts:79-93 DatasetPublicationItemInput *)
Record ItemInput := mkItemProof {
  ip_name : jsstr; ip_payload : json; ip_count : Z; ip_checksum : jsstr;
}.

(** The input of [finishRun]; [None] is [undefined].
    src: src/repositories/sync-operations.ts:437-445 finishRun *)
Record FinishInput := mkFinish {
  fi_status : RunStatus;
  fi_completedItems : Z;
  fi_failedItems : option Z;
  fi_skippedItems : option Z;
  fi_dataChanged : bool;
  fi_publicationId : option (option jsstr);
  fi_metadata : option json;
}.

(** src: src/repositories/sync-operations.ts:95-99 NON_TERMINAL_RUN_STATUSES *)
Definition NON_TERMINAL_RUN_STATUSES : list RunStatus := [RunPending; RunRunning; RunReadyToPublish].

(** src: src/repositories/sync-operations.ts:100-100 EXPIRED_PUBLICATION_CLEANUP_BATCH_SIZE *)
Definition EXPIRED_PUBLICATION_CLEANUP_BATCH_SIZE : nat := 100.

Definition is_non_terminal (status : RunStatus) : bool :=
  bool_decide (status ∈ NON_TERMINAL_RUN_STATUSES).

Definition is_object (value : json) : bool := match value with JObject _ => true | _ => false end.

Definition MINUTE : Z := 60 * 1000000.
Definition HOUR : Z := 60 * MINUTE.

(** ** Constraints of rows *)

(** src: src/db/schemas/platform.schema.ts:229-247 syncRunsInOps *)
Definition run_checks (r : Run) : bool :=
  let i := sr_identity r in
  btrim_nonempty (ri_provider i) && btrim_nonempty (ri_lane i) && btrim_nonempty (ri_scope i) &&
  btrim_nonempty (ri_mode i) && btrim_nonempty (ri_trigger i) &&
  null_or is_int2 (ri_seasonId i) && null_or (λ e, (0 <? e) && is_int4 e) (ri_eventId i) &&
  is_count (sr_expectedItems r) && is_count (rc_completed (sr_counts r)) &&
  is_count (rc_failed (sr_counts r)) && is_count (rc_skipped (sr_counts r)) &&
  null_or (λ t, sr_startedAt r <=? t) (sr_completedAt r) &&
  is_object (sr_metadata r).

(** src: src/db/schemas/platform.schema.ts:1860-1866 syncItemsInOps *)
Definition item_checks (i : SyncItem) : bool :=
  btrim_nonempty (it_resourceType i) && btrim_nonempty (it_resourceId i) &&
  is_count (it_attempts i) && null_or is_object (it_normalizedPayload i).

(** src: src/db/schemas/platform.schema.ts:367-376 datasetPublicationItemsInOps *)
Definition publication_item_checks (i : PublicationItem) : bool :=
  is_count (pn_itemCount i) && btrim_nonempty (pn_checksum i).

(** ** Runs *)

Definition set_run (r : Run) (status : RunStatus) (counts : RunCounts) (dataChanged : bool)
    (publicationId errorSummary : option jsstr) (metadata : json) (completedAt : option Z)
    (updatedAt : Z) : Run :=
  mkRun (sr_runId r) (sr_identity r) status (sr_expectedItems r) counts dataChanged publicationId
    errorSummary metadata (sr_startedAt r) completedAt updatedAt.

(** The row of [startRun]. *)
Definition new_run (now : Z) (runId : jsstr) (input : StartRunInput) : Run :=
  mkRun runId (si_identity input) RunRunning (nullish (si_expectedItems input) 0) (mkCounts 0 0 0)
    false None None (nullish (si_metadata input) (JObject []))
    (nullish (si_startedAt input) now) None now.

(** [coalesce(completed_at, clock_timestamp())] *)
Definition completed_or (now : Z) (r : Run) : option Z := Some (nullish (sr_completedAt r) now).

(** The row of a finished run.
    src: src/repositories/sync-operations.ts:468-481 finishRun *)
Definition finished_run (now : Z) (input : FinishInput) (r : Run) : Run :=
  set_run r (fi_status input)
    (mkCounts (fi_completedItems input) (nullish (fi_failedItems input) 0)
       (nullish (fi_skippedItems input) 0))
    (fi_dataChanged input)
    (match fi_publicationId input with Some p => p | None => sr_publicationId r end)
    (sr_errorSummary r)
    (nullish (fi_metadata input) (sr_metadata r))
    (completed_or now r) now.

(** The row of a run that failed or was skipped with its publication. *)
Definition stopped_run (now : Z) (status : RunStatus) (dataChanged : Run → bool) (text : jsstr)
    (r : Run) : Run :=
  set_run r status (sr_counts r) (dataChanged r) (sr_publicationId r) (Some (take 4000 text))
    (sr_metadata r) (Some now) now.

Definition failed_run (now : Z) (error : jsstr) : Run → Run :=
  stopped_run now RunFailed sr_dataChanged error.

Definition skipped_run (now : Z) (reason : jsstr) : Run → Run :=
  stopped_run now RunSkipped (λ _, false) reason.

(** The run of the id, if it is not terminal or has the [status] already. *)
Definition run_open (runId : jsstr) (status : RunStatus) (r : Run) : bool :=
  bool_decide (sr_runId r = runId) && bool_decide (sr_status r ∈ NON_TERMINAL_RUN_STATUSES ++ [status]).

(** ** Items of runs *)

Definition item_key (i : SyncItem) : jsstr * jsstr * jsstr :=
  (it_runId i, it_resourceType i, it_resourceId i).

(** src: src/repositories/sync-operations.ts:347-357 upsertItems *)
Definition item_row (now : Z) (runId : jsstr) (i : SyncItemInput) : SyncItem :=
  mkSyncItem runId (ii_resourceType i) (ii_resourceId i) (ii_status i) (nullish (ii_attempts i) 0)
    (ii_sourceHash i) (ii_normalizedPayload i) (ii_lastError i) (ii_completedAt i) now.

(** The condition of every [CASE]: the row stays as it is.
    src: src/repositories/sync-operations.ts:364-368 upsertItems *)
Definition item_settled (old excluded : SyncItem) : bool :=
  (it_attempts excluded <? it_attempts old) ||
  ((it_attempts excluded =? it_attempts old) &&
   bool_decide (it_status old ∈ [ItemCompleted; ItemSkipped])).

(** src: src/repositories/sync-operations.ts:360-431 upsertItems *)
Definition merge_item (old excluded : SyncItem) : SyncItem :=
  let from := if item_settled old excluded then old else excluded in
  mkSyncItem (it_runId old) (it_resourceType old) (it_resourceId old) (it_status from)
    (Z.max (it_attempts old) (it_attempts excluded)) (it_sourceHash from) (it_normalizedPayload from)
    (it_lastError from) (it_completedAt from) (it_updatedAt from).

(** ** Publications *)

(** The columns of a publication that never change.
    src: src/db/schemas/platform.schema.ts:255-261 datasetPublicationsInOps *)
Record PublicationKey := mkKey {
  pk_dataset : Dataset;
  pk_seasonId : option Z;
  pk_eventId : option Z;
  pk_revision : Z;
  pk_sourceRunId : option jsstr;
}.

#[export] Instance PublicationKey_eq_dec : EqDecision PublicationKey.
Proof. solve_decision. Defined.

(** src: src/db/schemas/platform.schema.ts:254-270 datasetPublicationsInOps *)
Record Publication {V : Type} := mkPublication {
  dp_publicationId : jsstr;
  dp_key : PublicationKey;
  dp_status : PublicationStatus;
  dp_manifest : V;
  dp_activatedAt : option Z;
  dp_retiredAt : option Z;
  dp_expiresAt : option Z;
  dp_updatedAt : Z;
}.
Arguments Publication : clear implicits.
Arguments mkPublication {V}.

(** src: src/db/schemas/platform.schema.ts:383-408 dataPublicationOutboxInOps *)
Record Outbox {V : Type} := mkOutbox {
  ox_outboxId : jsstr;
  ox_publicationId : jsstr;
  ox_sourceRunId : option jsstr;
  ox_dataset : Dataset;
  ox_seasonId : option Z;
  ox_eventId : option Z;
  ox_manifest : V;
  ox_status : OutboxStatus;
  ox_availableAt : Z;
  ox_attempts : Z;
  ox_leaseOwner : option jsstr;
  ox_leaseExpiresAt : option Z;
  ox_stagedAt : option Z;
  ox_dbActivatedAt : option Z;
  ox_redisActivatedAt : option Z;
  ox_deliveredAt : option Z;
  ox_lastError : option jsstr;
  ox_updatedAt : Z;
}.
Arguments Outbox : clear implicits.
Arguments mkOutbox {V}.

(** The tables, and the last value of [ops.dataset_publication_revisions].
    src: src/repositories/sync-operations.ts:5-11 index.schema *)
Record Ledger {V : Type} := mkLedger {
  ld_runs : list Run;
  ld_syncItems : list SyncItem;
  ld_publications : list (Publication V);
  ld_items : list PublicationItem;
  ld_outbox : list (Outbox V);
  ld_revisions : Z;
}.
Arguments Ledger : clear implicits.
Arguments mkLedger {V}.

(** src: src/repositories/sync-operations.ts:64-71 PreparePublicationInput *)
Record PrepareInput {V : Type} := mkPrepare {
  pr_publicationId : option jsstr;
  pr_dataset : Dataset;
  pr_season : SeasonRef;
  pr_eventId : option Z;
  pr_sourceRunId : jsstr;
  pr_manifest : option V;
}.
Arguments PrepareInput : clear implicits.
Arguments mkPrepare {V}.

(** The input of [activatePublication]; [ai_outbox] is the id of the receipt.
    src: src/repositories/sync-operations.ts:691-701 activatePublication *)
Record ActivateInput := mkActivate {
  ai_publicationId : jsstr;
  ai_dataset : Dataset;
  ai_season : SeasonRef;
  ai_eventId : option Z;
  ai_sourceRunId : jsstr;
  ai_manifest : Manifest;
  ai_outbox : option jsstr;
}.

(** How the services use the repository: the manifests they prepare publications with, the statuses
    they finish runs with, the receipts they activate with. *)
Record Usage {V : Type} := mkUsage {
  us_staged : V → Prop;
  us_finishes : RunStatus → Prop;
  us_receipt : option jsstr → Prop;
}.
Arguments Usage : clear implicits.
Arguments mkUsage {V}.

Section setters.
Context {V : Type}.
Implicit Types (s : Ledger V).

Definition with_runs (runs : list Run) s : Ledger V :=
  mkLedger runs (ld_syncItems s) (ld_publications s) (ld_items s) (ld_outbox s) (ld_revisions s).
Definition with_syncItems (items : list SyncItem) s : Ledger V :=
  mkLedger (ld_runs s) items (ld_publications s) (ld_items s) (ld_outbox s) (ld_revisions s).
Definition with_publications (publications : list (Publication V)) s : Ledger V :=
  mkLedger (ld_runs s) (ld_syncItems s) publications (ld_items s) (ld_outbox s) (ld_revisions s).
Definition with_items (items : list PublicationItem) s : Ledger V :=
  mkLedger (ld_runs s) (ld_syncItems s) (ld_publications s) items (ld_outbox s) (ld_revisions s).
Definition with_outbox (outbox : list (Outbox V)) s : Ledger V :=
  mkLedger (ld_runs s) (ld_syncItems s) (ld_publications s) (ld_items s) outbox (ld_revisions s).
Definition with_revisions (n : Z) s : Ledger V :=
  mkLedger (ld_runs s) (ld_syncItems s) (ld_publications s) (ld_items s) (ld_outbox s) n.

Definition set_publication (p : Publication V) (status : PublicationStatus) (manifest : V)
    (activatedAt retiredAt expiresAt : option Z) (updatedAt : Z) : Publication V :=
  mkPublication (dp_publicationId p) (dp_key p) status manifest activatedAt retiredAt expiresAt
    updatedAt.

(** src: src/repositories/sync-operations.ts:840-845 activatePublication *)
Definition retired_publication (now expiresAt : Z) (p : Publication V) : Publication V :=
  set_publication p Retired (dp_manifest p) (dp_activatedAt p) (Some now) (Some expiresAt) now.

(** src: src/repositories/sync-operations.ts:855-862 activatePublication *)
Definition active_publication (now : Z) (manifest : V) (p : Publication V) : Publication V :=
  set_publication p Active manifest (Some now) None None now.

(** src: src/repositories/sync-operations.ts:906-910 failPublication *)
Definition failed_publication (now : Z) (p : Publication V) : Publication V :=
  set_publication p Failed (dp_manifest p) (dp_activatedAt p) (dp_retiredAt p) (Some now) now.

(** The scope of a publication, and the rows of a scope.
    src: src/repositories/sync-operations.ts:130-138 publicationScope *)
Definition publicationScope (dataset : Dataset) (season : SeasonRef) (eventId : option Z)
    (p : Publication V) : bool :=
  bool_decide (pk_dataset (dp_key p) = dataset) &&
  bool_decide (pk_seasonId (dp_key p) = Some (sn_seasonId season)) &&
  bool_decide (pk_eventId (dp_key p) = eventId).

Definition has_status (status : PublicationStatus) (p : Publication V) : bool :=
  bool_decide (dp_status p = status).

Definition prepared_of (p : Publication V) : Prepared :=
  mkPrepared (dp_publicationId p) (pk_revision (dp_key p)) (dp_status p).
End setters.

Section operations.
Context {V : Type} `{!Codec V}.
Context (emptyObject : V).                       (* the text [{}] *)
Context (seasonExists : Z → bool) (eventExists : Z → Z → bool).   (* the foreign keys into [fpl] *)
Context (bind_null : option json).               (* the JSONB value of a [null]; [None]: SQL NULL *)
Implicit Types (s : Ledger V).

(** ** Operations on runs *)

(** [uuid] is the random id drawn when none is given.
    src: src/repositories/sync-operations.ts:281-338 startRun *)
Definition startRun (now : Z) (uuid : jsstr) (input : StartRunInput) s : Ledger V * result jsstr :=
  let runId := nullish (si_runId input) uuid in
  let row := new_run now runId input in
  if negb (run_checks row) then (s, Throw "CONSTRAINT") else
  match find_by sr_runId runId (ld_runs s) with
  | None =>
      if negb (null_or seasonExists (ri_seasonId (sr_identity row))) then (s, Throw "CONSTRAINT")
      else (with_runs (ld_runs s ++ [row]) s, Ok runId)
  | Some row =>
      (s, reject_if negb (bool_decide (sr_identity row = si_identity input))
            with_code "SYNC_RUN_ID_CONFLICT" ;;
          Ok runId)
  end.

(** One statement of [upsertItems].
    src: src/repositories/sync-operations.ts:344-431 upsertItems *)
Definition upsert_chunk (now : Z) (runId : jsstr) (chunk : list SyncItemInput) s
    : Ledger V * result unit :=
  let rows := item_row now runId <$> chunk in
  if negb (forallb item_checks rows) then (s, Throw "CONSTRAINT") else
  if negb (bool_decide (NoDup (item_key <$> rows))) then (s, Throw "CARDINALITY_VIOLATION") else
  if is_null (find_by sr_runId runId (ld_runs s)) then (s, Throw "CONSTRAINT") else
  (with_syncItems (upsert_batch item_key merge_item rows (ld_syncItems s)) s, Ok ()).

(** The loop over chunks of 500; a chunk is not empty, so [fuel] is enough when it is the number of
    items.
    src: src/repositories/sync-operations.ts:343-432 upsertItems *)
Fixpoint upsert_chunks (fuel : nat) (now : Z) (runId : jsstr) (items : list SyncItemInput) s
    : Ledger V * result unit :=
  match fuel with
  | O => (s, Ok ())
  | S fuel =>
      if is_nil items then (s, Ok ()) else
      match upsert_chunk now runId (take 500 items) s with
      | (s, Ok _) => upsert_chunks fuel now runId (drop 500 items) s
      | (s, Throw e) => (s, Throw e)
      end
  end.

(** src: src/repositories/sync-operations.ts:340-433 upsertItems *)
Definition upsertItems (now : Z) (runId : jsstr) (items : list SyncItemInput) s
    : Ledger V * result unit :=
  upsert_chunks (length items) now runId items s.

(** An update of runs under their constraints, in a transaction. *)
Definition update_runs (where_ : Run → bool) (set : Run → Run) s : result (Ledger V) :=
  let* p := update_checked run_checks where_ set (ld_runs s) in Ok (with_runs p.1 s).

Definition publication_exists s (publicationId : jsstr) : bool :=
  negb (is_null (find_by dp_publicationId publicationId (ld_publications s))).

(** src: src/repositories/sync-operations.ts:448-482 finishRun *)
Definition finish_body (now : Z) (runId : jsstr) (input : FinishInput) s : result (Ledger V * unit) :=
  match find_by sr_runId runId (ld_runs s) with
  | None => Throw "SYNC_RUN_NOT_FOUND"
  | Some current =>
      reject_if negb (bool_decide (sr_status current = fi_status input)) &&
                negb (is_non_terminal (sr_status current))
        with_code "SYNC_RUN_TERMINAL_STATE_CONFLICT" ;;
      reject_if negb (null_or (null_or (publication_exists s)) (fi_publicationId input))
        with_code "CONSTRAINT" ;;
      let* s := update_runs (λ r, bool_decide (sr_runId r = runId)) (finished_run now input) s in
      Ok (s, ())
  end.

(** src: src/repositories/sync-operations.ts:435-483 finishRun *)
Definition finishRun (now : Z) (runId : jsstr) (input : FinishInput) : Ledger V → Ledger V * result unit :=
  transaction (finish_body now runId input).

(** src: src/repositories/sync-operations.ts:485-502 failRun *)
Definition failRun (now : Z) (runId error : jsstr) : Ledger V → Ledger V * result unit :=
  transaction (λ s, let* s := update_runs (run_open runId RunFailed) (failed_run now error) s in
                    Ok (s, ())).

(** ** Preparing a publication *)

(** src: src/repositories/sync-operations.ts:520-523 preparePublication *)
Definition expired (now : Z) (p : Publication V) : bool :=
  match dp_expiresAt p with Some t => t <=? now | None => false end &&
  (has_status Retired p || has_status Failed p).

(** src: src/repositories/sync-operations.ts:525-528 preparePublication *)
Definition compare_expiry : Publication V → Publication V → Z :=
  then_by (by_key (λ p, nullish (dp_expiresAt p) 0)) (λ p q, compare_str (dp_publicationId p) (dp_publicationId q)).

(** The expired rows that no other transaction has [locked].
    src: src/repositories/sync-operations.ts:516-532 preparePublication *)
Definition expired_batch (now : Z) (locked : list jsstr) s : list jsstr :=
  dp_publicationId <$> take EXPIRED_PUBLICATION_CLEANUP_BATCH_SIZE (js_sort compare_expiry
    (filter (λ p, expired now p ∧ dp_publicationId p ∉ locked) (ld_publications s))).

(** The runs of the removed publications.
    src: src/repositories/sync-operations.ts:534-537 preparePublication *)
Definition unbind_run (now : Z) (r : Run) : Run :=
  set_run r (sr_status r) (sr_counts r) (sr_dataChanged r) None (sr_errorSummary r) (sr_metadata r)
    (sr_completedAt r) now.

(** The first transaction of [preparePublication]; deleting a publication deletes its items and its
    delivery.
    src: src/repositories/sync-operations.ts:515-546 preparePublication *)
Definition remove_expired (now : Z) (locked : list jsstr) s : Ledger V :=
  let ids := expired_batch now locked s in
  if is_nil ids then s else
  let gone id := bool_decide (id ∈ ids) in
  mkLedger
    (update_where (λ r, match sr_publicationId r with Some p => gone p | None => false end)
       (unbind_run now) (ld_runs s)).1
    (ld_syncItems s)
    (filter (λ p, ¬ (gone (dp_publicationId p) && expired now p)) (ld_publications s))
    (filter (λ i, ¬ gone (pn_publicationId i)) (ld_items s))
    (filter (λ o, ¬ gone (ox_publicationId o)) (ld_outbox s))
    (ld_revisions s).

(** The row inserted by [preparePublication]; its revision is the next one.
    src: src/repositories/sync-operations.ts:550-559 preparePublication *)
Definition new_publication (now revision : Z) (publicationId : jsstr) (input : PrepareInput V)
    : Publication V :=
  mkPublication publicationId
    (mkKey (pr_dataset input) (Some (sn_seasonId (pr_season input))) (pr_eventId input) revision
       (Some (pr_sourceRunId input)))
    Staging (nullish (pr_manifest input) emptyObject) None None (Some (now + 15 * MINUTE)) now.

(** The constraints of the inserted row: ranges first, then, if the id is new, the foreign keys. *)
Definition publication_ranges (input : PrepareInput V) : bool :=
  is_int2 (sn_seasonId (pr_season input)) &&
  null_or (λ e, (0 <? e) && is_int4 e) (pr_eventId input).

Definition publication_references (input : PrepareInput V) s : bool :=
  seasonExists (sn_seasonId (pr_season input)) &&
  null_or (eventExists (sn_seasonId (pr_season input))) (pr_eventId input) &&
  negb (is_null (find_by sr_runId (pr_sourceRunId input) (ld_runs s))).

(** The insertion draws a revision even when it does not insert.
    src: src/repositories/sync-operations.ts:547-597 preparePublication *)
Definition insert_publication (now : Z) (publicationId : jsstr) (input : PrepareInput V) s
    : Ledger V * result Prepared :=
  let revision := ld_revisions s + 1 in
  let s := with_revisions revision s in
  if negb (publication_ranges input) then (s, Throw "CONSTRAINT") else
  match find_by dp_publicationId publicationId (ld_publications s) with
  | None =>
      if negb (publication_references input s) then (s, Throw "CONSTRAINT") else
      let row := new_publication now revision publicationId input in
      (with_publications (ld_publications s ++ [row]) s, Ok (prepared_of row))
  | Some row =>
      (s, reject_if negb (bool_decide (pk_dataset (dp_key row) = pr_dataset input)) ||
                    negb (bool_decide (pk_seasonId (dp_key row) = Some (sn_seasonId (pr_season input)))) ||
                    negb (bool_decide (pk_eventId (dp_key row) = pr_eventId input)) ||
                    negb (bool_decide (pk_sourceRunId (dp_key row) = Some (pr_sourceRunId input)))
            with_code "DATASET_PUBLICATION_ID_CONFLICT" ;;
          Ok (prepared_of row))
  end.

(** src: src/repositories/sync-operations.ts:504-598 preparePublication *)
Definition preparePublication (now : Z) (uuid : jsstr) (locked : list jsstr) (input : PrepareInput V) s
    : Ledger V * result Prepared :=
  let publicationId := nullish (pr_publicationId input) uuid in
  if negb (isDataPublicationId publicationId) then (s, Throw "DATASET_PUBLICATION_ID_INVALID") else
  insert_publication now publicationId input (remove_expired now locked s).

(** ** Items of a publication *)

(** src: src/repositories/sync-operations.ts:604-632 stagePublicationItems *)
Definition accepted_items (items : list ItemInput) : bool :=
  let names := dedup (ip_name <$> items) in
  let count := length items in
  let all_in (l : list jsstr) := forallb (λ n, bool_decide (n ∈ l)) names in
  let isLiveItems := (count =? 2)%nat && bool_decide (js "eventLive" ∈ names) &&
                     bool_decide (js "fixtures" ∈ names) in
  let isMarketItems := (count =? 1)%nat && bool_decide (js "context" ∈ names) in
  let coreNames := [js "events"; js "teams"; js "players"; js "phases"; js "fixtures";
                    js "currentEventId"; js "selectionRules"] in
  let legacyCoreNames := [js "events"; js "teams"; js "players"; js "phases"; js "fixtures";
                          js "currentEventId"] in
  let isCoreItems := ((count =? length coreNames)%nat || (count =? length legacyCoreNames)%nat) &&
    all_in coreNames && ((count =? length coreNames)%nat || all_in legacyCoreNames) in
  (isLiveItems || isMarketItems || isCoreItems) && (length names =? count)%nat.

(** The row of an item; the column is JSONB and not null.
    src: src/repositories/sync-operations.ts:638-645 stagePublicationItems *)
Definition publication_item (publicationId : jsstr) (i : ItemInput) : option PublicationItem :=
  payload ← (match ip_payload i with JNull => bind_null | j => Some (jsonb_order j) end);
  Some (mkPublicationItem publicationId (ip_name i) payload (ip_count i) (ip_checksum i)).

Definition publication_item_key (i : PublicationItem) : jsstr * jsstr :=
  (pn_publicationId i, pn_itemName i).

(** src: src/repositories/sync-operations.ts:600-657 stagePublicationItems *)
Definition stagePublicationItems (publicationId : jsstr) (items : list ItemInput) s
    : Ledger V * result unit :=
  if negb (accepted_items items) then (s, Throw "DATASET_PUBLICATION_ITEMS_INCOMPLETE") else
  match mapM (publication_item publicationId) items with
  | None => (s, Throw "CONSTRAINT")
  | Some rows =>
      if negb (forallb publication_item_checks rows && publication_exists s publicationId)
      then (s, Throw "CONSTRAINT") else
      (with_items (upsert_batch publication_item_key (λ _ row, row) rows (ld_items s)) s, Ok ())
  end.

(** The rows of a publication.
    src: src/repositories/sync-operations.ts:664-671 assertPublicationItemsComplete *)
Definition items_of s (publicationId : jsstr) : list PublicationItem :=
  filter (λ i, pn_publicationId i = publicationId) (ld_items s).

(** As many rows as expected, and one that matches each.
    src: src/repositories/sync-operations.ts:672-682 assertPublicationItemsComplete *)
Definition items_complete (rows : list PublicationItem) (expected : list (jsstr * Z * jsstr)) : bool :=
  (length rows =? length expected)%nat &&
  forallb (λ e, existsb (λ row, bool_decide ((pn_itemName row, pn_itemCount row, pn_checksum row) = e)) rows)
    expected.

(** src: src/repositories/sync-operations.ts:659-689 assertPublicationItemsComplete *)
Definition assertPublicationItemsComplete (publicationId : jsstr) (expected : list ItemInput) s
    : result unit :=
  reject_if negb (items_complete (items_of s publicationId)
                    ((λ i, (ip_name i, ip_count i, ip_checksum i)) <$> expected))
    with_code "DATASET_PUBLICATION_ITEMS_INCOMPLETE" ;;
  Ok ().

(** ** Activation *)

(** src: src/repositories/sync-operations.ts:106-128 assertPublicationManifest *)
Definition assertPublicationManifest (manifest : Manifest) (input : ActivateInput) (revision : Z)
    : bool :=
  bool_decide (mf_publicationId manifest = ai_publicationId input) &&
  bool_decide (mf_dataset manifest = ai_dataset input) &&
  bool_decide (mf_seasonCode manifest = sn_seasonCode (ai_season input)) &&
  bool_decide (mf_eventId manifest = ai_eventId input) &&
  (mf_revision manifest =? revision).

(** The checks of the target row.
    src: src/repositories/sync-operations.ts:729-752 activatePublication *)
Definition check_target (input : ActivateInput) (target : Publication V) : result unit :=
  let key := dp_key target in
  reject_if negb (bool_decide (pk_dataset key = ai_dataset input)) ||
            negb (bool_decide (pk_seasonId key = Some (sn_seasonId (ai_season input)))) ||
            negb (bool_decide (pk_eventId key = ai_eventId input)) ||
            negb (bool_decide (pk_sourceRunId key = Some (ai_sourceRunId input)))
    with_code "DATASET_PUBLICATION_SCOPE_CONFLICT" ;;
  reject_if negb (has_status Staging target) && negb (has_status Active target)
    with_code "DATASET_PUBLICATION_TERMINAL_STATE_CONFLICT" ;;
  reject_if negb (assertPublicationManifest (ai_manifest input) input (pk_revision key))
    with_code "DATASET_PUBLICATION_MANIFEST_MISMATCH" ;;
  Ok ().

(** The names, counts and checksums a manifest lists. *)
Definition manifest_proof (m : Manifest) : list (jsstr * Z * jsstr) :=
  (λ i, (mi_name i, mi_count i, mi_sha256 i)) <$> mf_items m.

(** The checks of the items, the active rows of the scope and the source run.
    src: src/repositories/sync-operations.ts:754-836 activatePublication *)
Definition check_activation (input : ActivateInput) (target : Publication V) s : result unit :=
  reject_if negb (is_null (ai_outbox input)) &&
            negb (items_complete (items_of s (ai_publicationId input)) (manifest_proof (ai_manifest input)))
    with_code "DATASET_PUBLICATION_ITEMS_INCOMPLETE" ;;
  reject_if existsb (λ row, publicationScope (ai_dataset input) (ai_season input) (ai_eventId input) row &&
                            has_status Active row &&
                            negb (bool_decide (dp_publicationId row = ai_publicationId input)) &&
                            (pk_revision (dp_key target) <=? pk_revision (dp_key row)))
              (ld_publications s)
    with_code "DATASET_PUBLICATION_STALE_ACTIVATION" ;;
  match find_by sr_runId (ai_sourceRunId input) (ld_runs s) with
  | None => Throw "SYNC_RUN_NOT_FOUND"
  | Some run =>
      reject_if match sr_publicationId run with
                | Some p => negb (bool_decide (p = ai_publicationId input))
                | None => false
                end with_code "SYNC_RUN_PUBLICATION_CONFLICT" ;;
      reject_if negb (bool_decide (sr_status run = RunPublished)) && negb (is_non_terminal (sr_status run))
        with_code "SYNC_RUN_TERMINAL_STATE_CONFLICT" ;;
      Ok ()
  end.

(** The active rows of the scope but the target are retired, then the target is activated.
    src: src/repositories/sync-operations.ts:838-864 activatePublication *)
Definition replace_active (now : Z) (input : ActivateInput) (table : list (Publication V))
    : list (Publication V) :=
  let retired := (update_where
    (λ p, publicationScope (ai_dataset input) (ai_season input) (ai_eventId input) p &&
          has_status Active p && negb (bool_decide (dp_publicationId p = ai_publicationId input)))
    (retired_publication now (now + 24 * HOUR)) table).1 in
  (update_where (λ p, bool_decide (dp_publicationId p = ai_publicationId input))
     (active_publication now (encode_manifest (ai_manifest input))) retired).1.

(** src: src/repositories/sync-operations.ts:866-875 activatePublication *)
Definition published_run (now : Z) (input : ActivateInput) (r : Run) : Run :=
  set_run r (if is_null (ai_outbox input) then RunPublished else RunReadyToPublish) (sr_counts r) true
    (Some (ai_publicationId input)) (sr_errorSummary r) (sr_metadata r) (completed_or now r) now.

(** src: src/repositories/sync-operations.ts:880-894 activatePublication *)
Definition new_outbox (now : Z) (outboxId : jsstr) (input : ActivateInput) : Outbox V :=
  mkOutbox outboxId (ai_publicationId input) (Some (ai_sourceRunId input)) (ai_dataset input)
    (Some (sn_seasonId (ai_season input))) (ai_eventId input) (encode_manifest (ai_manifest input))
    OutDbActivated now 0 None None None (Some now) None None None now.

(** The receipt, if the publication has none yet.
    src: src/repositories/sync-operations.ts:877-896 activatePublication *)
Definition insert_outbox (now : Z) (input : ActivateInput) s : result (Ledger V) :=
  match ai_outbox input with
  | None => Ok s
  | Some outboxId =>
      match find_by ox_publicationId (ai_publicationId input) (ld_outbox s) with
      | Some _ => Ok s
      | None =>
          reject_if negb (is_null (find_by ox_outboxId outboxId (ld_outbox s)))
            with_code "CONSTRAINT" ;;
          Ok (with_outbox (ld_outbox s ++ [new_outbox now outboxId input]) s)
      end
  end.

(** src: src/repositories/sync-operations.ts:703-897 activatePublication *)
Definition activate_body (now : Z) (input : ActivateInput) s : result (Ledger V * unit) :=
  match find_by dp_publicationId (ai_publicationId input) (ld_publications s) with
  | None => Throw "DATASET_PUBLICATION_NOT_FOUND"
  | Some target =>
      let* _ := check_target input target in
      let* _ := check_activation input target s in
      let s := with_publications (replace_active now input (ld_publications s)) s in
      let* s := update_runs (λ r, bool_decide (sr_runId r = ai_sourceRunId input))
                  (published_run now input) s in
      let* s := insert_outbox now input s in
      Ok (s, ())
  end.

(** src: src/repositories/sync-operations.ts:691-898 activatePublication *)
Definition activatePublication (now : Z) (input : ActivateInput) : Ledger V → Ledger V * result unit :=
  transaction (activate_body now input).

(** ** Failing and skipping *)

(** Both operations: the staging row is closed with [close] and its run with [set]; a row that was
    closed before must have the status [done].
    src: src/repositories/sync-operations.ts:903-954 failPublication *)
Definition close_body (publicationId : jsstr) (close : Publication V → Publication V)
    (done : PublicationStatus) (runStatus : RunStatus) (set : Run → Run) s : result (Ledger V * unit) :=
  let '(table, updated) := update_where
    (λ p, bool_decide (dp_publicationId p = publicationId) && has_status Staging p) close
    (ld_publications s) in
  let s := with_publications table s in
  match head updated ≫= (λ p, pk_sourceRunId (dp_key p)) with
  | Some (c :: runId) =>
      let* s := update_runs (run_open (c :: runId) runStatus) set s in Ok (s, ())
  | _ =>
      match find_by dp_publicationId publicationId (ld_publications s) with
      | None => Throw "DATASET_PUBLICATION_NOT_FOUND"
      | Some existing =>
          reject_if negb (has_status done existing)
            with_code "DATASET_PUBLICATION_TERMINAL_STATE_CONFLICT" ;;
          Ok (s, ())
      end
  end.

(** src: src/repositories/sync-operations.ts:900-955 failPublication *)
Definition failPublication (now : Z) (publicationId error : jsstr) : Ledger V → Ledger V * result unit :=
  transaction (close_body publicationId (failed_publication now) Failed RunFailed (failed_run now error)).

(** src: src/repositories/sync-operations.ts:957-1013 skipPublication *)
Definition skipPublication (now : Z) (publicationId reason : jsstr) : Ledger V → Ledger V * result unit :=
  transaction (close_body publicationId (retired_publication now (now + 15 * MINUTE)) Retired
                 RunSkipped (skipped_run now reason)).

(** ** Reading *)

(** src: src/repositories/sync-operations.ts:1015-1036 findActivePublication *)
Definition findActivePublication (dataset : Dataset) (season : SeasonRef) (eventId : option Z) s
    : option Prepared :=
  prepared_of <$> head (filter (λ p, publicationScope dataset season eventId p && has_status Active p)
                          (ld_publications s)).

(** [ORDER BY revision DESC] *)
Definition compare_revision_desc : Publication V → Publication V → Z :=
  by_key (λ p, - pk_revision (dp_key p)).

(** A staging row: its id, revision, run and manifest; a manifest column holds an object.
    src: src/repositories/sync-operations.ts:1038-1073 findStagingPublication *)
Definition findStagingPublication (dataset : Dataset) (season : SeasonRef) (eventId : option Z) s
    : option (jsstr * Z * jsstr * V) :=
  row ← head (js_sort compare_revision_desc
    (filter (λ p, publicationScope dataset season eventId p && has_status Staging p)
       (ld_publications s)));
  match pk_sourceRunId (dp_key row) with
  | Some (c :: run) => Some (dp_publicationId row, pk_revision (dp_key row), c :: run, dp_manifest row)
  | _ => None
  end.

(** src: src/repositories/sync-operations.ts:1075-1105 findActivePublicationManifest *)
Definition findActivePublicationManifest (dataset : Dataset) (season : SeasonRef)
    (eventId : option Z) s : option Manifest :=
  row ← head (filter (λ p, publicationScope dataset season eventId p && has_status Active p)
                (ld_publications s));
  manifest ← parseDataPublicationManifest (Some (dp_manifest row));
  if negb (bool_decide (mf_dataset manifest = dataset)) ||
     negb (bool_decide (mf_seasonCode manifest = sn_seasonCode season)) ||
     negb (bool_decide (mf_eventId manifest = eventId))
  then None else Some manifest.

(** src: src/repositories/sync-operations.ts:1115-1141 findPublicationById *)
Definition findPublicationById (publicationId : jsstr) s : option (Publication V) :=
  find_by dp_publicationId publicationId (ld_publications s).
End operations.

(** ** Evidence for a live publication *)

(** [JSON.stringify] *)
Class JsonText (V : Type) := stringify : json → V.

Definition member (name : string) (fields : list (jsstr * json)) : option json :=
  map_get (js name) fields.

(** A member that is a finite number. *)
Definition finite_member (name : string) (fields : list (jsstr * json)) : bool :=
  match member name fields with Some (JNumber n) => is_finite n | _ => false end.

(** src: src/repositories/sync-operations.ts:158-177 hasFixtureBreakdownEvidence *)
Fixpoint stats_evidence (identifiers : list jsstr) (stats : list json) : bool :=
  match stats with
  | [] => true
  | JObject stat :: stats' =>
      match member "identifier" stat with
      | Some (JString identifier) =>
          negb (is_nil identifier) && negb (bool_decide (identifier ∈ identifiers)) &&
          finite_member "value" stat && finite_member "points" stat &&
          (bool_decide (member "pointsModification" stat = Some JNull) ||
           finite_member "pointsModification" stat) &&
          stats_evidence (identifier :: identifiers) stats'
      | _ => false
      end
  | _ => false
  end.

(** src: src/repositories/sync-operations.ts:146-157 hasFixtureBreakdownEvidence *)
Fixpoint fixtures_evidence (fixtureIds : list Z) (fixtures : list json) : bool :=
  match fixtures with
  | [] => true
  | JObject fixture :: fixtures' =>
      match member "fixtureId" fixture, member "stats" fixture with
      | Some (JNumber id), Some (JArray stats) =>
          is_integer id && is_positive id && negb (bool_decide (int_value id ∈ fixtureIds)) &&
          stats_evidence [] stats && fixtures_evidence (int_value id :: fixtureIds) fixtures'
      | _, _ => false
      end
  | _ => false
  end.

(** src: src/repositories/sync-operations.ts:144-179 hasFixtureBreakdownEvidence *)
Definition hasFixtureBreakdownEvidence (value : json) : bool :=
  match value with
  | JObject fields =>
      match member "fixtureBreakdown" fields with
      | Some (JArray fixtures) => fixtures_evidence [] fixtures
      | _ => false
      end
  | _ => false
  end.

(** src: src/repositories/sync-operations.ts:181-185 publicationItemCount *)
Definition publicationItemCount (value : json) : Z :=
  match value with
  | JArray l => Z.of_nat (length l)
  | JObject fields => Z.of_nat (length fields)
  | JNull => 0
  | _ => 1
  end.

Section evidence.
Context {V : Type} `{!Codec V} `{!JsonText V}.
Implicit Types (s : Ledger V).

(** The canonical texts are given for every value the column can hold.
    src: src/repositories/sync-operations.ts:187-199 publicationPayloadChecksums *)
Definition publicationPayloadChecksums (value : json) : list jsstr :=
  let canonical := postgresJsonbCanonicalJson value in
  let legacy := stringify value in
  [sha256 canonical; sha256 (canonicalJson value)] ++
  (if bool_decide (legacy = canonical) then [] else [sha256 legacy]).

(** src: src/repositories/sync-operations.ts:254-267 findActiveLivePublicationEvidence *)
Definition proven_row (manifest : Manifest) (row : PublicationItem) : bool :=
  match find_by mi_name (pn_itemName row) (mf_items manifest) with
  | None => false
  | Some manifestItem =>
      (mi_count manifestItem =? pn_itemCount row) &&
      bool_decide (mi_sha256 manifestItem = pn_checksum row) &&
      bool_decide (pn_checksum row ∈ publicationPayloadChecksums (pn_payload row)) &&
      (publicationItemCount (pn_payload row) =? pn_itemCount row)
  end.

(** The joined rows of the active publication.
    src: src/repositories/sync-operations.ts:212-232 findActiveLivePublicationEvidence *)
Definition live_rows (season : SeasonRef) (eventId : Z) s : list (Publication V * PublicationItem) :=
  p ← filter (λ p, publicationScope DatasetLive season (Some eventId) p && has_status Active p)
        (ld_publications s);
  pair p <$> items_of s (dp_publicationId p).

(** src: src/repositories/sync-operations.ts:204-278 findActiveLivePublicationEvidence *)
Definition findActiveLivePublicationEvidence (season : SeasonRef) (eventId : Z) s
    : option (Manifest * list json) :=
  let rows := live_rows season eventId s in
  if negb (length rows =? 2)%nat then None else
  first ← fst <$> head rows;
  if negb (isDataPublicationId (dp_publicationId first)) then None else
  manifest ← parseDataPublicationManifest (Some (dp_manifest first));
  if negb (bool_decide (mf_dataset manifest = DatasetLive)) ||
     negb (bool_decide (mf_seasonCode manifest = sn_seasonCode season)) ||
     negb (bool_decide (mf_eventId manifest = Some eventId)) ||
     negb (mf_revision manifest =? pk_revision (dp_key first)) ||
     negb (bool_decide (mf_publicationId manifest = dp_publicationId first)) ||
     bool_decide (mf_state manifest = PActive) ||
     negb (length (mf_items manifest) =? 2)%nat then None else
  if negb (forallb (proven_row manifest) rows.*2) then None else
  match pn_payload <$> find_by pn_itemName (js "eventLive") rows.*2,
        pn_payload <$> find_by pn_itemName (js "fixtures") rows.*2 with
  | Some (JArray eventLives), Some (JArray _) =>
      if forallb hasFixtureBreakdownEvidence eventLives then Some (manifest, eventLives) else None
  | _, _ => None
  end.

(** src: src/repositories/sync-operations.ts:1109-1113 findActiveLiveEventLives *)
Definition findActiveLiveEventLives (season : SeasonRef) (eventId : Z) s : option (list json) :=
  snd <$> findActiveLivePublicationEvidence season eventId s.
End evidence.

(** ** Publications through the operations *)

Section facts.
Context {V : Type} `{!Codec V}.
Context (emptyObject : V) (seasonExists : Z → bool) (eventExists : Z → Z → bool)
  (bind_null : option json).
Implicit Types (s : Ledger V) (p q : Publication V).

Definition scope_of p : Dataset * option Z * option Z :=
  (pk_dataset (dp_key p), pk_seasonId (dp_key p), pk_eventId (dp_key p)).

Definition revision_of p : Z := pk_revision (dp_key p).

(** What activation requires of a manifest. *)
Definition names_publication (m : Manifest) p : Prop :=
  mf_publicationId m = dp_publicationId p ∧ mf_dataset m = pk_dataset (dp_key p) ∧
  mf_eventId m = pk_eventId (dp_key p) ∧ mf_revision m = revision_of p.

(** What every reachable ledger satisfies of its publications. *)
Record publications_ok s : Prop := {
  pb_ids : NoDup (dp_publicationId <$> ld_publications s);
  pb_revisions : NoDup (revision_of <$> ld_publications s);
  pb_last p : p ∈ ld_publications s → revision_of p ≤ ld_revisions s;
  pb_single p q : p ∈ ld_publications s → q ∈ ld_publications s → scope_of p = scope_of q →
    dp_status p = Active → dp_status q = Active → p = q;
  pb_manifest p : p ∈ ld_publications s → dp_status p = Active →
    ∃ m, dp_manifest p = encode_manifest m ∧ names_publication m p;
}.

(** One operation on one publication: its columns that never change, and its status. *)
Definition status_next (a b : PublicationStatus) : Prop :=
  a = b ∨ a = Staging ∨ (a = Active ∧ b = Retired).

(** What one operation does to the publications. *)
Record publications_step s s' : Prop := {
  ps_ok : publications_ok s → publications_ok s';
  ps_kept p : p ∈ ld_publications s →
    (∃ p', p' ∈ ld_publications s' ∧ dp_publicationId p' = dp_publicationId p ∧
       dp_key p' = dp_key p ∧ status_next (dp_status p) (dp_status p')) ∨
    dp_status p = Retired ∨ dp_status p = Failed;
  ps_active p : publications_ok s → p ∈ ld_publications s → dp_status p = Active →
    ∃ p', p' ∈ ld_publications s' ∧ dp_status p' = Active ∧ scope_of p' = scope_of p ∧
      revision_of p ≤ revision_of p';
}.

Lemma publications_step_same s s' :
  ld_publications s' = ld_publications s → ld_revisions s ≤ ld_revisions s' → publications_step s s'.
Proof.
  intros Hp Hr. split.
  - intros []. split; rewrite ?Hp; try done. intros p Hin. specialize (pb_last0 p Hin). lia.
  - intros p Hin. left. exists p. rewrite Hp. split_and!; try done. by left.
  - intros p _ Hin Ha. exists p. by rewrite Hp.
Qed.

(** An operation that only closes staging rows. *)
Lemma publications_step_close (where_ : Publication V → bool) set s s' :
  (∀ p, where_ p = true → dp_status p = Staging) →
  (∀ p, dp_publicationId (set p) = dp_publicationId p ∧ dp_key (set p) = dp_key p ∧
        dp_status (set p) ≠ Active) →
  ld_publications s' = (update_where where_ set (ld_publications s)).1 →
  ld_revisions s' = ld_revisions s → publications_step s s'.
Proof.
  intros Hw Hset Hp Hr.
  assert (∀ p, p ∈ ld_publications s' → dp_status p = Active → p ∈ ld_publications s) as Hact.
  { intros p Hin Ha. rewrite Hp in Hin. apply elem_of_update in Hin as (q & Hq & ->).
    destruct (where_ q) eqn:E; [|done]. by destruct (Hset q) as (_ & _ & []). }
  split.
  - intros []. split.
    + rewrite Hp, update_keeps; [done|]. intros p _. apply Hset.
    + rewrite Hp, update_keeps; [done|]. intros p _. unfold revision_of. by rewrite (proj1 (proj2 (Hset p))).
    + intros p Hin. rewrite Hp in Hin. apply elem_of_update in Hin as (q & Hq & ->). rewrite Hr.
      destruct (where_ q); [|by apply pb_last0]. unfold revision_of.
      rewrite (proj1 (proj2 (Hset q))). by apply pb_last0.
    + intros p q Hpin Hqin Hs Ha Hb. apply pb_single0; auto.
    + intros p Hpin Ha. apply pb_manifest0; auto.
  - intros p Hin. left. exists (if where_ p then set p else p). split.
    + rewrite Hp. apply elem_of_update. by exists p.
    + destruct (where_ p) eqn:E; [|split_and!; try done; by left].
      destruct (Hset p) as (? & ? & _). split_and!; try done. right; left. by apply Hw.
  - intros p _ Hin Ha. exists p. split_and!; try done. rewrite Hp. apply elem_of_update.
    exists p. split; [done|]. destruct (where_ p) eqn:E; [|done]. apply Hw in E. congruence.
Qed.

Lemma publicationScope_spec dataset season eventId p :
  publicationScope dataset season eventId p = true ↔
  scope_of p = (dataset, Some (sn_seasonId season), eventId).
Proof.
  unfold publicationScope, scope_of. rewrite !andb_true_iff, !bool_decide_eq_true. split.
  - by intros [[-> ->] ->].
  - by intros [= -> -> ->].
Qed.

Lemma has_status_spec status p : has_status status p = true ↔ dp_status p = status.
Proof. apply bool_decide_eq_true. Qed.

Lemma same_publication_id s p q :
  publications_ok s → p ∈ ld_publications s → q ∈ ld_publications s →
  dp_publicationId p = dp_publicationId q → p = q.
Proof. intros Hok. apply NoDup_fmap_inj_in, Hok. Qed.

(** What [activatePublication] does to a row. *)
Definition activated (now : Z) (input : ActivateInput) p : Publication V :=
  if bool_decide (dp_publicationId p = ai_publicationId input)
  then active_publication now (encode_manifest (ai_manifest input)) p
  else if publicationScope (ai_dataset input) (ai_season input) (ai_eventId input) p && has_status Active p
  then retired_publication now (now + 24 * HOUR) p else p.

Lemma replace_active_spec now input (t : list (Publication V)) :
  replace_active now input t = activated now input <$> t.
Proof.
  unfold replace_active. cbn. rewrite <-list_fmap_compose. apply list_fmap_ext. intros i p _. cbn.
  unfold activated. destruct (bool_decide (dp_publicationId p = _)) eqn:E.
  - rewrite andb_false_r. by rewrite E.
  - rewrite andb_true_r. destruct (publicationScope _ _ _ p && has_status Active p); cbn; by rewrite E.
Qed.

Lemma activated_columns now input p :
  dp_publicationId (activated now input p) = dp_publicationId p ∧
  dp_key (activated now input p) = dp_key p.
Proof. unfold activated. by repeat case_match. Qed.

(** An activation that goes through: its target and what was checked. *)
Record activates (now : Z) (input : ActivateInput) (target : Publication V) s s' : Prop := {
  ac_target : target ∈ ld_publications s;
  ac_id : dp_publicationId target = ai_publicationId input;
  ac_scope : scope_of target = (ai_dataset input, Some (sn_seasonId (ai_season input)), ai_eventId input);
  ac_run : pk_sourceRunId (dp_key target) = Some (ai_sourceRunId input);
  ac_status : dp_status target = Staging ∨ dp_status target = Active;
  ac_manifest : names_publication (ai_manifest input) target;
  ac_season : mf_seasonCode (ai_manifest input) = sn_seasonCode (ai_season input);
  ac_items : ai_outbox input ≠ None →
    items_complete (items_of s (ai_publicationId input)) (manifest_proof (ai_manifest input)) = true;
  ac_newest p : p ∈ ld_publications s → scope_of p = scope_of target → dp_status p = Active →
    dp_publicationId p ≠ ai_publicationId input → revision_of p < revision_of target;
  ac_open : ∃ run, find_by sr_runId (ai_sourceRunId input) (ld_runs s) = Some run ∧
    (sr_publicationId run = None ∨ sr_publicationId run = Some (ai_publicationId input)) ∧
    (sr_status run = RunPublished ∨ is_non_terminal (sr_status run) = true);
  ac_publications : ld_publications s' = activated now input <$> ld_publications s;
  ac_runs : ld_runs s' =
    (update_where (λ r, bool_decide (sr_runId r = ai_sourceRunId input)) (published_run now input)
       (ld_runs s)).1;
  ac_checked r : r ∈ ld_runs s → sr_runId r = ai_sourceRunId input →
    run_checks (published_run now input r) = true;
  ac_fresh outboxId o : ai_outbox input = Some outboxId →
    find_by ox_publicationId (ai_publicationId input) (ld_outbox s) = None →
    o ∈ ld_outbox s → ox_outboxId o ≠ outboxId;
  ac_outbox : ld_outbox s' = match ai_outbox input with
    | Some outboxId =>
        if is_null (find_by ox_publicationId (ai_publicationId input) (ld_outbox s))
        then ld_outbox s ++ [new_outbox now outboxId input] else ld_outbox s
    | None => ld_outbox s
    end;
  ac_rest : ld_items s' = ld_items s ∧ ld_syncItems s' = ld_syncItems s ∧ ld_revisions s' = ld_revisions s;
}.

Lemma update_runs_ok where_ set s s' :
  update_runs where_ set s = Ok s' ↔
  s' = with_runs (update_where where_ set (ld_runs s)).1 s ∧
  forallb run_checks (update_where where_ set (ld_runs s)).2 = true.
Proof.
  unfold update_runs. rewrite result_bind_ok. setoid_rewrite update_checked_ok. split.
  - intros (p & [-> Hok] & [= <-]). done.
  - intros [-> Hok]. eauto.
Qed.

Lemma guard_either a b : negb a && negb b = false ↔ a = true ∨ b = true.
Proof. destruct a, b; simpl; intuition. Qed.

(** The four guards on rows, by their propositions. *)
Lemma check_target_ok input target u :
  check_target input target = Ok u →
  scope_of target = (ai_dataset input, Some (sn_seasonId (ai_season input)), ai_eventId input) ∧
  pk_sourceRunId (dp_key target) = Some (ai_sourceRunId input) ∧
  (dp_status target = Staging ∨ dp_status target = Active) ∧
  assertPublicationManifest (ai_manifest input) input (revision_of target) = true.
Proof.
  unfold check_target, scope_of. intros H. inv_ok.
  match goal with H : negb (has_status _ _) && _ = false |- _ => apply guard_either in H as [|] end;
  boolsolve; (split_and!; [congruence|done| |done]); rewrite <-!has_status_spec; auto.
Qed.

Lemma check_activation_ok input target s u :
  check_activation input target s = Ok u →
  (ai_outbox input ≠ None →
   items_complete (items_of s (ai_publicationId input)) (manifest_proof (ai_manifest input)) = true) ∧
  (∀ p, p ∈ ld_publications s →
    scope_of p = (ai_dataset input, Some (sn_seasonId (ai_season input)), ai_eventId input) →
    dp_status p = Active → dp_publicationId p ≠ ai_publicationId input →
    revision_of p < revision_of target) ∧
  ∃ run, find_by sr_runId (ai_sourceRunId input) (ld_runs s) = Some run ∧
    (sr_publicationId run = None ∨ sr_publicationId run = Some (ai_publicationId input)) ∧
    (sr_status run = RunPublished ∨ is_non_terminal (sr_status run) = true).
Proof.
  unfold check_activation. intros H. inv_ok.
  destruct (find_by sr_runId _ _) as [run|]; [|done]. inv_ok. split_and!.
  - intros Ho. destruct (ai_outbox input); [|done].
    by match goal with H : negb (is_null _) && _ = false |- _ => apply negb_false_iff in H end.
  - intros p Hin Hs Ha Hid.
    match goal with H : existsb _ _ = false |- _ => pose proof (proj1 (existsb_false _ _) H p Hin) as Hp end.
    cbn beta in Hp. rewrite (proj2 (publicationScope_spec _ _ _ p)), (proj2 (has_status_spec _ p)) in Hp by done.
    rewrite (proj2 (bool_decide_eq_false _)) in Hp by done. apply Z.leb_gt in Hp. exact Hp.
  - exists run. split; [done|]. split.
    + destruct (sr_publicationId run); [right|by left]. boolsolve. by subst.
    + match goal with H : negb (bool_decide _) && _ = false |- _ => apply guard_either in H as [|] end;
      [left|by right]. by boolsolve.
Qed.

Lemma insert_outbox_ok now input s s' :
  insert_outbox now input s = Ok s' →
  (∀ outboxId o, ai_outbox input = Some outboxId →
     find_by ox_publicationId (ai_publicationId input) (ld_outbox s) = None →
     o ∈ ld_outbox s → ox_outboxId o ≠ outboxId) ∧
  s' = with_outbox match ai_outbox input with
    | Some outboxId =>
        if is_null (find_by ox_publicationId (ai_publicationId input) (ld_outbox s))
        then ld_outbox s ++ [new_outbox now outboxId input] else ld_outbox s
    | None => ld_outbox s
    end s.
Proof.
  unfold insert_outbox. destruct s as [? ? ? ? outbox ?].
  destruct (ai_outbox input) as [id|]; [|by intros [= <-]]. cbn [ld_outbox].
  destruct (find_by _ _ outbox); cbn; [by intros [= <-]|]. intros H. inv_ok.
  destruct (find_by ox_outboxId id outbox) eqn:Hf; [done|]. split; [|done].
  intros ? o [= <-] _ Ho Hid. apply find_by_None in Hf. apply Hf. rewrite <-Hid. by apply list_elem_of_fmap_2.
Qed.

Lemma activatePublication_ok now input s s' u :
  activatePublication now input s = (s', Ok u) → ∃ target, activates now input target s s'.
Proof.
  unfold activatePublication. rewrite transaction_ok. unfold activate_body.
  destruct (find_by _ _ (ld_publications s)) as [target|] eqn:Hf; [|done].
  apply find_by_Some in Hf as [Hin Hid]. intros H.
  apply result_bind_ok in H as ([] & Ht & H). apply result_bind_ok in H as ([] & Hc & H).
  apply result_bind_ok in H as (s1 & Hr & H). apply result_bind_ok in H as (s2 & Ho & [= <-]).
  apply update_runs_ok in Hr as [-> Hchecked]. exists target.
  apply check_target_ok in Ht as (Hscope & Hrun & Hst & Hm).
  apply check_activation_ok in Hc as (Hitems & Hnew & Hopen). apply insert_outbox_ok in Ho as [Hfresh ->].
  unfold assertPublicationManifest in Hm. boolsolve. unfold scope_of in Hscope.
  split; try done.
  - unfold names_publication. injection Hscope as. split_and!; congruence.
  - intros p Hp Hs. apply Hnew; [done|]. by rewrite Hs.
  - cbn. apply replace_active_spec.
  - intros r Hr Hrid. rewrite forallb_forall in Hchecked. apply Hchecked, list_elem_of_In.
    apply list_elem_of_fmap_2, list_elem_of_filter. split; [by apply bool_decide_pack|done].
Qed.

Lemma activated_active now input p :
  dp_status (activated now input p) = Active →
  dp_publicationId p = ai_publicationId input ∧
    dp_manifest (activated now input p) = encode_manifest (ai_manifest input) ∨
  dp_publicationId p ≠ ai_publicationId input ∧ activated now input p = p ∧ dp_status p = Active ∧
    scope_of p ≠ (ai_dataset input, Some (sn_seasonId (ai_season input)), ai_eventId input).
Proof.
  unfold activated. destruct (bool_decide (dp_publicationId p = _)) eqn:E.
  - apply bool_decide_eq_true in E. by left.
  - apply bool_decide_eq_false in E.
    destruct (publicationScope _ _ _ p && has_status Active p) eqn:Hc; [done|]. intros Ha. right.
    split_and!; [done..|]. intros Hs%publicationScope_spec. rewrite Hs in Hc. cbn in Hc.
    apply not_true_iff_false in Hc. destruct Hc. by apply has_status_spec.
Qed.

Lemma publications_step_activate now input s s' target :
  activates now input target s s' → publications_step s s'.
Proof.
  intros [Hin Hid Hscope _ Hst Hm _ _ Hnew _ Hpubs _ _ _ _ (_ & _ & Hrev)].
  assert (Hcols := activated_columns now input).
  split.
  - intros Hok. pose proof Hok as [Hids Hrevs Hlast Hsingle Hman]. split.
    + rewrite Hpubs, <-list_fmap_compose. erewrite list_fmap_ext; [done|]. intros i p _. apply Hcols.
    + rewrite Hpubs, <-list_fmap_compose. erewrite list_fmap_ext; [done|]. intros i p _.
      unfold compose, revision_of. by rewrite (proj2 (Hcols p)).
    + rewrite Hpubs, Hrev. intros p (q & -> & Hq)%list_elem_of_fmap. unfold revision_of.
      rewrite (proj2 (Hcols q)). by apply Hlast.
    + rewrite Hpubs. intros p' q' (p & -> & Hp)%list_elem_of_fmap (q & -> & Hq)%list_elem_of_fmap Hs Ha Hb.
      unfold scope_of in Hs. rewrite (proj2 (Hcols p)), (proj2 (Hcols q)) in Hs.
      apply activated_active in Ha as [[Hpi _]|(Hpi & Hpe & Hpa & Hps)];
        apply activated_active in Hb as [[Hqi _]|(Hqi & Hqe & Hqa & Hqs)].
      * f_equal. apply (same_publication_id s); [done..|congruence].
      * assert (p = target) as -> by (apply (same_publication_id s); congruence).
        destruct Hqs. unfold scope_of in *. congruence.
      * assert (q = target) as -> by (apply (same_publication_id s); congruence).
        destruct Hps. unfold scope_of in *. congruence.
      * rewrite Hpe, Hqe. by apply Hsingle.
    + rewrite Hpubs. intros p' (p & -> & Hp)%list_elem_of_fmap Ha.
      apply activated_active in Ha as [[Hpi ->]|(Hpi & -> & Hpa & Hps)].
      * exists (ai_manifest input). split; [done|].
        assert (p = target) as -> by (apply (same_publication_id s); congruence).
        unfold names_publication, revision_of in *. by rewrite (proj1 (Hcols target)), (proj2 (Hcols target)).
      * by apply Hman.
  - intros p Hp. destruct (dp_status p) eqn:Hs; auto; left; exists (activated now input p);
      (split_and!; [rewrite Hpubs; by apply list_elem_of_fmap_2|apply Hcols|apply Hcols|]).
    + by right; left.
    + unfold activated. repeat case_match; cbn; rewrite ?Hs; [by left|by right; right|by left].
  - intros p Hok Hp Ha. destruct (decide (scope_of p = scope_of target)) as [Hs|Hs].
    + exists (activated now input target). unfold scope_of, revision_of. rewrite (proj2 (Hcols target)).
      split_and!; [rewrite Hpubs; by apply list_elem_of_fmap_2| |symmetry; apply Hs|].
      * unfold activated. by rewrite (proj2 (bool_decide_eq_true _) Hid).
      * destruct (decide (dp_publicationId p = ai_publicationId input)) as [He|He].
        -- assert (p = target) as -> by (apply (same_publication_id s); congruence). lia.
        -- pose proof (Hnew p Hp Hs Ha He). unfold revision_of in *. lia.
    + exists p. assert (activated now input p = p) as He.
      { unfold activated. destruct (bool_decide (dp_publicationId p = _)) eqn:E.
        - apply bool_decide_eq_true in E. destruct Hs. f_equal. apply (same_publication_id s); congruence.
        - destruct (publicationScope _ _ _ p) eqn:Hc; [|done]. apply publicationScope_spec in Hc. congruence. }
      split_and!; [|done|done|lia]. rewrite Hpubs. rewrite <-He. by apply list_elem_of_fmap_2.
Qed.

Lemma close_body_publications id close done_ runStatus set s s' u :
  close_body id close done_ runStatus set s = Ok (s', u) →
  ld_publications s' = (update_where (λ p, bool_decide (dp_publicationId p = id) && has_status Staging p)
                          close (ld_publications s)).1 ∧ ld_revisions s' = ld_revisions s.
Proof.
  intros H. unfold close_body in H. cbn [update_where] in H.
  destruct (_ ≫= _) as [[|c r]|]; [|apply result_bind_ok in H as (s1 & Hr & [= <- _]);
    by apply update_runs_ok in Hr as [-> _]|].
  all: destruct (find_by _ _ _); [|done]; by inv_ok; simplify_eq/=.
Qed.

Lemma close_body_step id close done_ runStatus set s s' u :
  (∀ p, dp_publicationId (close p) = dp_publicationId p ∧ dp_key (close p) = dp_key p ∧
        dp_status (close p) ≠ Active) →
  close_body id close done_ runStatus set s = Ok (s', u) → publications_step s s'.
Proof.
  intros Hclose [Hp Hr]%close_body_publications.
  apply (publications_step_close (λ p, bool_decide (dp_publicationId p = id) && has_status Staging p) close);
    [|done..].
  intros p [_ Hs]%andb_true_iff. by apply has_status_spec.
Qed.

(** Rows removed because they expired, and at most one new row under a new revision. *)
Lemma publications_step_prepare (keep : Publication V → bool) (new : list (Publication V)) s s' :
  ld_publications s' = filter (λ p, keep p) (ld_publications s) ++ new →
  ld_revisions s ≤ ld_revisions s' →
  (∀ p, p ∈ ld_publications s → keep p = false → dp_status p = Retired ∨ dp_status p = Failed) →
  (new = [] ∨ ∃ row, new = [row] ∧ dp_status row = Staging ∧
     ld_revisions s < revision_of row ≤ ld_revisions s' ∧
     dp_publicationId row ∉ dp_publicationId <$> filter (λ p, keep p) (ld_publications s)) →
  publications_step s s'.
Proof.
  intros Hp Hr Hkeep Hnew.
  assert (∀ p, p ∈ ld_publications s' ↔ keep p = true ∧ p ∈ ld_publications s ∨ p ∈ new) as Hin.
  { intros p. rewrite Hp, elem_of_app, list_elem_of_filter. by rewrite Is_true_true. }
  assert (∀ p, p ∈ new → dp_status p = Staging ∧ revision_of p ≤ ld_revisions s') as Hst.
  { destruct Hnew as [->|(row & -> & Hs & Hrev & _)]; [by intros p ?%elem_of_nil|].
    intros p ->%list_elem_of_singleton. split; [done|lia]. }
  assert (∀ p, p ∈ ld_publications s → dp_status p = Active → keep p = true) as Ha.
  { intros p Hpin Ha. destruct (keep p) eqn:E; [done|]. destruct (Hkeep p Hpin E); congruence. }
  split.
  - intros [Hids Hrevs Hlast Hsingle Hman].
    assert (sublist (filter (λ p, keep p) (ld_publications s)) (ld_publications s)) as Hsub
      by apply sublist_filter.
    split.
    + rewrite Hp, fmap_app. destruct Hnew as [->|(row & -> & _ & _ & Hid)].
      * rewrite app_nil_r. eapply sublist_NoDup; [done|]. by apply fmap_sublist.
      * apply NoDup_app. split_and!; [|set_solver|by apply NoDup_singleton].
        eapply sublist_NoDup; [done|]. by apply fmap_sublist.
    + rewrite Hp, fmap_app. destruct Hnew as [->|(row & -> & _ & Hrev & _)].
      * rewrite app_nil_r. eapply sublist_NoDup; [done|]. by apply fmap_sublist.
      * apply NoDup_app. split_and!; [| |by apply NoDup_singleton].
        { eapply sublist_NoDup; [done|]. by apply fmap_sublist. }
        intros r (p & -> & Hpin)%list_elem_of_fmap Hrow%list_elem_of_singleton.
        apply list_elem_of_filter in Hpin as [_ Hpin]. specialize (Hlast p Hpin). lia.
    + intros p [[_ Hpin]|Hpin]%Hin; [specialize (Hlast p Hpin); lia|by apply Hst].
    + intros p q [[_ Hpin]|Hpin]%Hin [[_ Hqin]|Hqin]%Hin Hs Hpa Hqa;
        [by apply Hsingle| | |]; destruct (Hst _ Hqin) || destruct (Hst _ Hpin); congruence.
    + intros p [[_ Hpin]|Hpin]%Hin Hpa; [by apply Hman|]. destruct (Hst _ Hpin). congruence.
  - intros p Hpin. destruct (keep p) eqn:E; [|right; by apply Hkeep].
    left. exists p. split_and!; try done; [apply Hin; by left|by left].
  - intros p _ Hpin Hpa. exists p. split_and!; try done. apply Hin. auto.
Qed.

Lemma expired_closed now p : expired now p = true → dp_status p = Retired ∨ dp_status p = Failed.
Proof. unfold expired. rewrite andb_true_iff, orb_true_iff, !has_status_spec. tauto. Qed.

Lemma remove_expired_publications now locked s :
  ∃ keep : Publication V → bool,
    ld_publications (remove_expired now locked s) = filter (λ p, keep p) (ld_publications s) ∧
    ld_revisions (remove_expired now locked s) = ld_revisions s ∧
    ∀ p, keep p = false → dp_status p = Retired ∨ dp_status p = Failed.
Proof.
  unfold remove_expired. destruct (is_nil _).
  - exists (λ _, true). split_and!; [|done|done]. symmetry. by apply filter_all.
  - exists (λ p, negb (bool_decide (dp_publicationId p ∈ expired_batch now locked s) && expired now p)).
    split_and!; [|done|].
    + apply list_filter_iff. intros p. rewrite !Is_true_true. by rewrite negb_true_iff, not_true_iff_false.
    + intros p Hp. apply negb_false_iff, andb_true_iff in Hp as [_ Hp]. by eapply expired_closed.
Qed.

Lemma preparePublication_step now uuid locked input s :
  publications_step s
    (preparePublication emptyObject seasonExists eventExists now uuid locked input s).1.
Proof.
  unfold preparePublication. destruct (negb _); [by apply publications_step_same|].
  destruct (remove_expired_publications now locked s) as (keep & Hp & Hr & Hkeep).
  generalize dependent (remove_expired now locked s). intros s1 Hp Hr. set (id := nullish _ _).
  assert (∀ s', ld_publications s' = ld_publications s1 → ld_revisions s ≤ ld_revisions s' →
    publications_step s s') as Hsame.
  { intros s' Hs Hrev. apply (publications_step_prepare keep []); auto. by rewrite app_nil_r, Hs. }
  unfold insert_publication. destruct (negb (publication_ranges input)); [apply Hsame; [done|cbn; lia]|].
  cbn [ld_publications with_revisions].
  destruct (find_by _ _ _) eqn:Hf; [apply Hsame; [done|cbn; lia]|].
  destruct (negb _); [apply Hsame; [done|cbn; lia]|]. cbn [fst].
  eapply (publications_step_prepare keep [_]).
  - cbn. by rewrite Hp.
  - cbn. lia.
  - auto.
  - right. eexists. split_and!; [done|done|cbn; lia|cbn; lia|]. cbn [dp_publicationId new_publication].
    rewrite <-Hp. by apply find_by_None.
Qed.

(** ** The operations as steps *)

Inductive sync_step (usage : Usage V) s : Ledger V → Prop :=
| ss_start now uuid input : sync_step usage s (startRun seasonExists now uuid input s).1
| ss_items now runId items : sync_step usage s (upsertItems now runId items s).1
| ss_finish now runId input :
    fi_status input ∈ [RunCompleted; RunReadyToPublish; RunPublished; RunSkipped] →
    us_finishes usage (fi_status input) →
    sync_step usage s (finishRun now runId input s).1
| ss_fail_run now runId error : sync_step usage s (failRun now runId error s).1
| ss_prepare now uuid locked input :
    us_staged usage (nullish (pr_manifest input) emptyObject) →
    sync_step usage s (preparePublication emptyObject seasonExists eventExists now uuid locked input s).1
| ss_stage publicationId items : sync_step usage s (stagePublicationItems bind_null publicationId items s).1
| ss_activate now input :
    us_receipt usage (ai_outbox input) → sync_step usage s (activatePublication now input s).1
| ss_fail now publicationId error : sync_step usage s (failPublication now publicationId error s).1
| ss_skip now publicationId reason : sync_step usage s (skipPublication now publicationId reason s).1.

Lemma upsert_chunks_only fuel now runId items s :
  let s' := (upsert_chunks fuel now runId items s).1 in s' = with_syncItems (ld_syncItems s') s.
Proof.
  revert items s. induction fuel as [|fuel IH]; intros items s; [by destruct s|]. cbn [upsert_chunks].
  destruct (is_nil items); [by destruct s|].
  destruct (upsert_chunk now runId (take 500 items) s) as [s1 r] eqn:E.
  assert (s1 = with_syncItems (ld_syncItems s1) s) as Hs1.
  { unfold upsert_chunk in E. repeat case_match; injection E as <- _; by destruct s. }
  destruct r as [u|e]; [|done]. cbn zeta. rewrite (IH (drop 500 items) s1). by rewrite Hs1.
Qed.

Lemma sync_step_publications usage s s' : sync_step usage s s' → publications_step s s'.
Proof.
  destruct 1 as [| |now runId input Hst _| |now uuid locked input _| |now input _| |].
  - apply publications_step_same; unfold startRun; by repeat case_match.
  - unfold upsertItems. rewrite upsert_chunks_only. by apply publications_step_same.
  - apply (transaction_cases _ s (publications_step s)); [by apply publications_step_same|]. intros t [] H.
    unfold finish_body in H. destruct (find_by _ _ _); [|done]. inv_ok.
    match goal with H : update_runs _ _ _ = _ |- _ => apply update_runs_ok in H as [-> _] end.
    simplify_eq. by apply publications_step_same.
  - apply (transaction_cases _ s (publications_step s)); [by apply publications_step_same|]. intros t [] H. inv_ok.
    match goal with H : update_runs _ _ _ = _ |- _ => apply update_runs_ok in H as [-> _] end.
    simplify_eq. by apply publications_step_same.
  - apply preparePublication_step.
  - apply publications_step_same; unfold stagePublicationItems; by repeat case_match.
  - destruct (activatePublication now input s) as [s' [u|e]] eqn:E.
    + apply activatePublication_ok in E as [target E]. by eapply publications_step_activate.
    + apply transaction_throw in E as [_ ->]. by apply publications_step_same.
  - apply (transaction_cases _ s (publications_step s)); [by apply publications_step_same|]. intros t [] H.
    eapply close_body_step; [|done]. done.
  - apply (transaction_cases _ s (publications_step s)); [by apply publications_step_same|]. intros t [] H.
    eapply close_body_step; [|done]. done.
Qed.

(** The active row of a scope is found. *)
Lemma findActivePublication_unique s p season :
  publications_ok s → p ∈ ld_publications s → dp_status p = Active →
  pk_seasonId (dp_key p) = Some (sn_seasonId season) →
  findActivePublication (pk_dataset (dp_key p)) season (pk_eventId (dp_key p)) s = Some (prepared_of p).
Proof.
  intros Hok Hin Ha Hs. unfold findActivePublication.
  assert (∀ q, publicationScope (pk_dataset (dp_key p)) season (pk_eventId (dp_key p)) q && has_status Active q
    ↔ scope_of q = scope_of p ∧ dp_status q = Active) as Hq.
  { intros q. unfold scope_of at 2. rewrite Is_true_true, andb_true_iff, publicationScope_spec, has_status_spec.
    by rewrite Hs. }
  destruct (filter _ _) as [|q l] eqn:Hf.
  - exfalso. apply (not_elem_of_nil p). rewrite <-Hf. apply list_elem_of_filter. split; [by apply Hq|done].
  - cbn. do 2 f_equal. assert (q ∈ q :: l) as Hqin by set_solver. rewrite <-Hf in Hqin.
    apply list_elem_of_filter in Hqin as [[Hsc Hact]%Hq Hqin]. by apply (pb_single s).
Qed.

Lemma items_complete_elem rows expected e :
  items_complete rows expected = true → e ∈ expected →
  ∃ row, row ∈ rows ∧ (pn_itemName row, pn_itemCount row, pn_checksum row) = e.
Proof.
  unfold items_complete. rewrite andb_true_iff, forallb_forall. intros [_ H] He%list_elem_of_In.
  specialize (H e He). apply existsb_exists in H as (row & Hrow & Heq). exists row.
  rewrite list_elem_of_In. by apply bool_decide_eq_true in Heq.
Qed.

(** Where staging rows come from. *)
Definition staging_kept (staged : V → Prop) s s' : Prop :=
  ∀ p, p ∈ ld_publications s' → dp_status p = Staging → p ∈ ld_publications s ∨ staged (dp_manifest p).

Lemma staging_kept_same staged s s' : ld_publications s' = ld_publications s → staging_kept staged s s'.
Proof. intros H p Hp _. left. by rewrite <-H. Qed.

Lemma close_body_staging staged id close done_ runStatus set s s' u :
  (∀ p, dp_status (close p) ≠ Staging) →
  close_body id close done_ runStatus set s = Ok (s', u) → staging_kept staged s s'.
Proof.
  intros Hc [Hp _]%close_body_publications p Hin Hs. left. rewrite Hp in Hin.
  apply elem_of_update in Hin as (q & Hq & ->). destruct (_ && _); [by destruct (Hc q)|done].
Qed.

Lemma sync_step_staging usage s s' : sync_step usage s s' → staging_kept (us_staged usage) s s'.
Proof.
  destruct 1 as [| |now runId input _ _| |now uuid locked input Hst| |now input _| |].
  - apply staging_kept_same; unfold startRun; by repeat case_match.
  - unfold upsertItems. rewrite upsert_chunks_only. by apply staging_kept_same.
  - apply (transaction_cases _ s (staging_kept (us_staged usage) s)); [by apply staging_kept_same|]. intros t [] H.
    unfold finish_body in H. destruct (find_by _ _ _); [|done]. inv_ok.
    match goal with H : update_runs _ _ _ = _ |- _ => apply update_runs_ok in H as [-> _] end.
    simplify_eq. by apply staging_kept_same.
  - apply (transaction_cases _ s (staging_kept (us_staged usage) s)); [by apply staging_kept_same|]. intros t [] H. inv_ok.
    match goal with H : update_runs _ _ _ = _ |- _ => apply update_runs_ok in H as [-> _] end.
    simplify_eq. by apply staging_kept_same.
  - unfold preparePublication. destruct (negb _); [by apply staging_kept_same|].
    destruct (remove_expired_publications now locked s) as (keep & Hp & _ & _).
    assert (∀ p, p ∈ ld_publications (remove_expired now locked s) → p ∈ ld_publications s) as Hsub.
    { intros p Hin. rewrite Hp in Hin. by apply list_elem_of_filter in Hin as [_ Hin]. }
    unfold insert_publication. intros p Hin Hs.
    repeat case_match; cbn in Hin; try (left; by apply Hsub).
    apply elem_of_app in Hin as [Hin|Hin]; [left; by apply Hsub|right].
    apply list_elem_of_singleton in Hin as ->. done.
  - apply staging_kept_same; unfold stagePublicationItems; by repeat case_match.
  - destruct (activatePublication now input s) as [t [u|e]] eqn:E.
    + apply activatePublication_ok in E as [target E]. pose proof (ac_publications _ _ _ _ _ E) as Hp. cbn.
      intros p Hin Hs. left. rewrite Hp in Hin. apply list_elem_of_fmap in Hin as (q & -> & Hq).
      unfold activated in *. by repeat case_match.
    + apply transaction_throw in E as [_ ->]. by apply staging_kept_same.
  - apply (transaction_cases _ s (staging_kept (us_staged usage) s)); [by apply staging_kept_same|]. intros t [] H.
    eapply close_body_staging; [|done]. done.
  - apply (transaction_cases _ s (staging_kept (us_staged usage) s)); [by apply staging_kept_same|]. intros t [] H.
    eapply close_body_staging; [|done]. done.
Qed.

(** ** Runs through the operations *)

(** A run leaves a status that is not terminal; a published run is reopened by its publication. *)
Definition run_next (a b : RunStatus) : Prop :=
  a = b ∨ is_non_terminal a = true ∨ (a = RunPublished ∧ b = RunReadyToPublish).

Record run_evolves (r r' : Run) : Prop := {
  re_id : sr_runId r' = sr_runId r;
  re_identity : sr_identity r' = sr_identity r;
  re_status : run_next (sr_status r) (sr_status r');
}.

Record runs_step s s' : Prop := {
  rs_ids : NoDup (sr_runId <$> ld_runs s) → NoDup (sr_runId <$> ld_runs s');
  rs_kept r : r ∈ ld_runs s → ∃ r', r' ∈ ld_runs s' ∧ run_evolves r r';
}.

Lemma runs_step_same s s' : ld_runs s' = ld_runs s → runs_step s s'.
Proof. intros H. split; rewrite H; [done|]. intros r Hr. exists r. split; [done|]. split; try done. by left. Qed.

Lemma runs_step_update (where_ : Run → bool) set s s' :
  ld_runs s' = (update_where where_ set (ld_runs s)).1 →
  (∀ r, where_ r = true → run_evolves r (set r)) → runs_step s s'.
Proof.
  intros H Hset. split; rewrite H.
  - rewrite update_keeps; [done|]. intros r Hr. by apply Hset.
  - intros r Hr. exists (if where_ r then set r else r). split; [apply elem_of_update; by exists r|].
    destruct (where_ r) eqn:E; [by apply Hset|]. split; try done. by left.
Qed.

Lemma is_non_terminal_spec status : is_non_terminal status = true ↔ status ∈ NON_TERMINAL_RUN_STATUSES.
Proof. apply bool_decide_eq_true. Qed.

Lemma run_open_evolves runId status set r :
  run_open runId status r = true → sr_runId (set r) = sr_runId r → sr_identity (set r) = sr_identity r →
  sr_status (set r) = status → run_evolves r (set r).
Proof.
  unfold run_open. rewrite andb_true_iff, !bool_decide_eq_true. intros [_ Hs] Hid Hi Hst.
  split; [done|done|]. rewrite Hst. apply elem_of_app in Hs as [Hs|Hs%list_elem_of_singleton].
  - right; left. by apply is_non_terminal_spec.
  - by left.
Qed.

Lemma close_body_runs id close done_ runStatus set s s' u :
  (∀ r, sr_runId (set r) = sr_runId r ∧ sr_identity (set r) = sr_identity r ∧ sr_status (set r) = runStatus) →
  close_body id close done_ runStatus set s = Ok (s', u) → runs_step s s'.
Proof.
  intros Hset H. unfold close_body in H. cbn [update_where] in H.
  destruct (_ ≫= _) as [[|c r]|].
  2: { apply result_bind_ok in H as (s1 & Hr & [= <- _]). apply update_runs_ok in Hr as [-> _].
       eapply runs_step_update; [done|]. intros run Hrun. eapply run_open_evolves; [done|apply Hset..]. }
  all: destruct (find_by _ _ _); [|done]; inv_ok; simplify_eq/=; by apply runs_step_same.
Qed.

(** Runs are found by their id. *)
Lemma find_run_unique runId (runs : list Run) run r :
  NoDup (sr_runId <$> runs) → find_by sr_runId runId runs = Some run → r ∈ runs → sr_runId r = runId → r = run.
Proof.
  intros Hnd [Hin Hid]%find_by_Some Hr Hrid.
  apply (NoDup_fmap_inj_in sr_runId runs); congruence.
Qed.

Lemma runs_step_find (set : Run → Run) runId run s s' :
  NoDup (sr_runId <$> ld_runs s) → find_by sr_runId runId (ld_runs s) = Some run →
  ld_runs s' = (update_where (λ r, bool_decide (sr_runId r = runId)) set (ld_runs s)).1 →
  run_evolves run (set run) → runs_step s s'.
Proof.
  intros Hnd Hf Hruns Hset.
  assert (∀ r, r ∈ ld_runs s → sr_runId r = runId → run_evolves r (set r)) as Hev.
  { intros r Hr Hid. by rewrite (find_run_unique runId (ld_runs s) run r). }
  split; rewrite Hruns.
  - intros _. cbn. rewrite <-list_fmap_compose. erewrite list_fmap_ext; [done|].
    intros i r Hr. cbn. destruct (bool_decide (sr_runId r = runId)) eqn:E; [|done].
    apply bool_decide_eq_true in E. apply Hev; [|done]. by eapply list_elem_of_lookup_2.
  - intros r Hr. exists (if bool_decide (sr_runId r = runId) then set r else r).
    split; [apply elem_of_update; by exists r|].
    destruct (bool_decide (sr_runId r = runId)) eqn:E; [|split; try done; by left].
    apply bool_decide_eq_true in E. by apply Hev.
Qed.

Lemma runs_step_activate now input target s s' :
  NoDup (sr_runId <$> ld_runs s) → activates now input target s s' → runs_step s s'.
Proof.
  intros Hnd [_ _ _ _ _ _ _ _ _ (run & Hf & _ & Hst) _ Hruns _ _ _ _].
  eapply runs_step_find; [done|done|done|]. split; [done|done|]. cbn.
  destruct Hst as [->|Hst]; [|by right; left].
  destruct (is_null (ai_outbox input)); [by left|by right; right].
Qed.

Lemma preparePublication_runs now uuid locked input s :
  ∃ (where_ : Run → bool) now',
    ld_runs (preparePublication emptyObject seasonExists eventExists now uuid locked input s).1 =
    (update_where where_ (unbind_run now') (ld_runs s)).1.
Proof.
  assert (∃ where_ : Run → bool, ld_runs (remove_expired now locked s) =
    (update_where where_ (unbind_run now) (ld_runs s)).1) as (w & Hw).
  { unfold remove_expired. destruct (is_nil _).
    - exists (λ _, false). by rewrite update_none.
    - eexists. reflexivity. }
  unfold preparePublication. destruct (negb _).
  - exists (λ _, false), now. by rewrite update_none.
  - exists w, now. rewrite <-Hw. unfold insert_publication. by repeat case_match.
Qed.

Lemma sync_step_runs usage s s' : NoDup (sr_runId <$> ld_runs s) → sync_step usage s s' → runs_step s s'.
Proof.
  intros Hnd. destruct 1 as [now uuid input|now runId items|now runId input Hst _|now runId error|now uuid locked input _| |now input _| |].
  - unfold startRun. destruct (negb _); [by apply runs_step_same|].
    destruct (find_by _ _ _) eqn:Hf; [by apply runs_step_same|].
    destruct (negb _); [by apply runs_step_same|]. cbn. split; cbn.
    + intros _. rewrite fmap_app. apply NoDup_app. split_and!; [done| |by apply NoDup_singleton].
      apply find_by_None in Hf. set_solver.
    + intros r Hr. exists r. rewrite elem_of_app. split; [by left|]. split; try done. by left.
  - unfold upsertItems. rewrite upsert_chunks_only. by apply runs_step_same.
  - apply (transaction_cases _ s (runs_step s)); [by apply runs_step_same|]. intros t [] H.
    unfold finish_body in H. destruct (find_by _ _ _) as [run|] eqn:Hf; [|done]. inv_ok.
    match goal with H : update_runs _ _ _ = _ |- _ => apply update_runs_ok in H as [-> _] end.
    simplify_eq. eapply runs_step_find; [done|done|done|]. split; [done|done|]. cbn.
    match goal with H : negb (bool_decide _) && _ = false |- _ => apply guard_either in H as [H|H] end.
    + left. by apply bool_decide_eq_true in H.
    + by right; left.
  - apply (transaction_cases _ s (runs_step s)); [by apply runs_step_same|]. intros t [] H. inv_ok.
    match goal with H : update_runs _ _ _ = _ |- _ => apply update_runs_ok in H as [-> _] end.
    simplify_eq. eapply runs_step_update; [done|]. intros r Hr. by eapply run_open_evolves.
  - destruct (preparePublication_runs now uuid locked input s) as (where_ & now' & Hr).
    eapply runs_step_update; [exact Hr|]. intros r _. split; try done. by left.
  - apply runs_step_same; unfold stagePublicationItems; by repeat case_match.
  - destruct (activatePublication now input s) as [t [u|e]] eqn:E.
    + apply activatePublication_ok in E as [target E]. by eapply runs_step_activate.
    + apply transaction_throw in E as [_ ->]. by apply runs_step_same.
  - apply (transaction_cases _ s (runs_step s)); [by apply runs_step_same|]. intros t [] H.
    eapply close_body_runs; [|done]. done.
  - apply (transaction_cases _ s (runs_step s)); [by apply runs_step_same|]. intros t [] H.
    eapply close_body_runs; [|done]. done.
Qed.
End facts.

(** ** Items of a run *)

Section items.
Context {V : Type}.
Implicit Types (s : Ledger V).

(** How much a report says: a later attempt more, and of one attempt a final report more. *)
Definition rank (i : SyncItem) : Z :=
  2 * it_attempts i + (if bool_decide (it_status i ∈ [ItemCompleted; ItemSkipped]) then 1 else 0).

Lemma merge_item_key old row : item_key (merge_item old row) = item_key old.
Proof. done. Qed.

Lemma merge_item_pick old row : item_key row = item_key old →
  merge_item old row = if item_settled old row then old else row.
Proof.
  unfold merge_item, item_settled, item_key. destruct old, row; cbn. intros [= -> -> ->].
  destruct (_ || _) eqn:E; f_equal; [|].
  - apply orb_true_iff in E as [E|[E _]%andb_true_iff]; boolsolve; lia.
  - boolsolve. lia.
Qed.

Lemma item_settled_rank old row :
  if item_settled old row then rank row ≤ rank old else rank old ≤ rank row.
Proof.
  unfold item_settled, rank. destruct (Z.ltb_spec (it_attempts row) (it_attempts old)); cbn [orb].
  - repeat case_match; lia.
  - destruct (Z.eqb_spec (it_attempts row) (it_attempts old)); cbn [andb]; repeat case_match; lia.
Qed.

Lemma upsert_batch_best rows t k r :
  find_by item_key k (upsert_batch item_key merge_item rows t) = Some r →
  (find_by item_key k t = Some r ∨ r ∈ rows ∧ item_key r = k) ∧
  (∀ old, find_by item_key k t = Some old → rank old ≤ rank r) ∧
  (∀ row, row ∈ rows → item_key row = k → rank row ≤ rank r).
Proof.
  unfold upsert_batch. revert t. induction rows as [|row rows IH]; intros t; cbn [fold_left].
  { intros H. split_and!; [by left|intros ?; rewrite H; intros [= ->]; lia|by intros ? ?%elem_of_nil]. }
  intros (Hpick & Hold & Hrows)%IH. rewrite find_by_upsert in Hpick, Hold by apply merge_item_key.
  destruct (decide (item_key row = k)) as [Hk|Hk].
  2: { split_and!; [destruct Hpick as [|[]]; [by left|right; by rewrite elem_of_cons; auto]|done|]. intros row' [->|Hin]%elem_of_cons; [done|auto]. }
  destruct (find_by item_key k t) as [old|] eqn:Ht; cbn in Hpick, Hold.
  - apply find_by_Some in Ht as [_ Hok]. rewrite merge_item_pick in Hpick, Hold by congruence.
    pose proof (item_settled_rank old row). specialize (Hold _ eq_refl). split_and!.
    + rewrite elem_of_cons. destruct Hpick as [[= <-]|[Hin Hr]]; [|by auto].
      destruct (item_settled old row); auto.
    + intros ? [= <-]. destruct (item_settled old row); lia.
    + intros row' [->|Hin]%elem_of_cons Hk'; [|auto]. destruct (item_settled old row); lia.
  - specialize (Hold _ eq_refl). split_and!; [rewrite elem_of_cons; destruct Hpick as [[= <-]|[]]; auto|done|].
    intros row' [->|Hin]%elem_of_cons Hk'; [lia|auto].
Qed.

Lemma upsert_batch_keeps rows t k :
  is_Some (find_by item_key k t) → is_Some (find_by item_key k (upsert_batch item_key merge_item rows t)).
Proof.
  unfold upsert_batch. revert t. induction rows as [|x rows IH]; intros t Hk; [done|]. cbn. apply IH.
  rewrite find_by_upsert by apply merge_item_key. by case_decide.
Qed.

Lemma upsert_batch_all rows t row :
  row ∈ rows → is_Some (find_by item_key (item_key row) (upsert_batch item_key merge_item rows t)).
Proof.
  revert t. induction rows as [|x rows IH]; intros t; [by intros ?%elem_of_nil|].
  intros [->|Hin]%elem_of_cons; [|by apply IH].
  change (is_Some (find_by item_key (item_key x)
    (upsert_batch item_key merge_item rows (upsert item_key merge_item x t)))).
  apply upsert_batch_keeps. rewrite find_by_upsert by apply merge_item_key. by rewrite decide_True.
Qed.

Lemma upsertItems_ok now runId items s s' u :
  upsertItems now runId items s = (s', Ok u) →
  s' = with_syncItems (upsert_batch item_key merge_item (item_row now runId <$> items) (ld_syncItems s)) s.
Proof.
  unfold upsertItems. assert (length items ≤ length items)%nat as Hle by done. revert Hle.
  generalize (length items) at 2 3. intros fuel. revert items s.
  induction fuel as [|fuel IH]; intros items s Hle.
  { destruct items; [|simpl in Hle; lia]. intros [= <- _]. by destruct s. }
  cbn [upsert_chunks]. destruct items as [|i items]; [intros [= <- _]; by destruct s|]. cbn [is_nil].
  destruct (upsert_chunk now runId (take 500 (i :: items)) s) as [s1 [[]|e]] eqn:E; [|done].
  unfold upsert_chunk in E. repeat (case_match; [done|]). injection E as <-.
  intros Hrest%IH; [|rewrite length_drop; simpl length in *; lia]. rewrite Hrest. cbn [ld_syncItems with_syncItems].
  unfold with_syncItems. cbn. f_equal. unfold upsert_batch. rewrite <-fold_left_app, <-fmap_app.
  by rewrite take_drop.
Qed.
End items.

(** ** Properties *)

(** reports about the items of a run may arrive late, twice or out of order: after a successful
    [upsertItems] every reported item is stored, the stored row is the one that was there or one of
    the reports, whole, and it is one that says most (a later attempt, and of one attempt a final
    report); so a completed or skipped item is replaced only by a later attempt. *)
Theorem upsertItems_keeps_best {V : Type} (now : Z) (runId : jsstr) (items : list SyncItemInput)
    (s s' : Ledger V) (Hok : upsertItems now runId items s = (s', Ok ())) :
  (∀ i, i ∈ items → is_Some (find_by item_key (item_key (item_row now runId i)) (ld_syncItems s'))) ∧
  ∀ k r, find_by item_key k (ld_syncItems s') = Some r →
    (find_by item_key k (ld_syncItems s) = Some r ∨ r ∈ item_row now runId <$> items ∧ item_key r = k) ∧
    (∀ i, i ∈ items → item_key (item_row now runId i) = k → rank (item_row now runId i) ≤ rank r) ∧
    ∀ old, find_by item_key k (ld_syncItems s) = Some old →
      rank old ≤ rank r ∧
      (it_status old ∈ [ItemCompleted; ItemSkipped] → it_attempts r ≤ it_attempts old →
       it_attempts r = it_attempts old ∧ it_status r ∈ [ItemCompleted; ItemSkipped]).
Proof.
  apply upsertItems_ok in Hok as ->. cbn [ld_syncItems with_syncItems]. split.
  { intros i Hi. apply upsert_batch_all. by apply list_elem_of_fmap_2. }
  intros k r (Hpick & Hold & Hrows)%upsert_batch_best. split_and!; [done| |].
  { intros i Hi. apply Hrows. by apply list_elem_of_fmap_2. }
  intros old Ho. specialize (Hold old Ho). split; [done|]. intros Hs Ha. unfold rank in Hold.
  rewrite (bool_decide_eq_true_2 _ Hs) in Hold.
  destruct (bool_decide (it_status r ∈ _)) eqn:E; [|lia].
  apply bool_decide_eq_true in E. split; [lia|done].
Qed.

(** an activation that succeeds makes its publication the one of its scope, under its revision;
    rows of other scopes are untouched; the source run is bound to the publication and is published,
    or ready to publish when a delivery receipt is asked for, and then the receipt is there and every
    item the manifest lists is stored with its count and checksum. *)
Theorem activatePublication_spec {V : Type} `{!Codec V} (now : Z) (input : ActivateInput)
    (s s' : Ledger V) (Hs : publications_ok s)
    (Hok : activatePublication now input s = (s', Ok ())) :
  let id := ai_publicationId input in
  findActivePublication (ai_dataset input) (ai_season input) (ai_eventId input) s' =
    Some (mkPrepared id (mf_revision (ai_manifest input)) Active) ∧
  (∀ p, p ∈ ld_publications s →
     scope_of p ≠ (ai_dataset input, Some (sn_seasonId (ai_season input)), ai_eventId input) →
     p ∈ ld_publications s') ∧
  (∃ run, find_by sr_runId (ai_sourceRunId input) (ld_runs s') = Some run ∧
     sr_publicationId run = Some id ∧
     sr_status run = if is_null (ai_outbox input) then RunPublished else RunReadyToPublish) ∧
  (ai_outbox input ≠ None →
     is_Some (find_by ox_publicationId id (ld_outbox s')) ∧
     ∀ item, item ∈ mf_items (ai_manifest input) → ∃ row, row ∈ items_of s' id ∧
       pn_itemName row = mi_name item ∧ pn_itemCount row = mi_count item ∧
       pn_checksum row = mi_sha256 item).
Proof.
  cbn zeta. apply activatePublication_ok in Hok as [target Ha].
  pose proof (publications_step_activate _ _ _ _ _ Ha) as Hstep.
  pose proof (ps_ok _ _ Hstep Hs) as Hs'.
  destruct Ha as [Hin Hid Hscope _ _ Hm _ Hitems _ (run & Hrun & _) Hpubs Hruns _ _ Hout (Hi & _ & _)].
  pose proof (activated_columns now input target) as [Hcid Hck]. split_and!.
  - assert (dp_status (activated now input target) = Active) as Hact.
    { unfold activated. by rewrite (bool_decide_eq_true_2 _ Hid). }
    pose proof (findActivePublication_unique s' (activated now input target) (ai_season input)) as Hf.
    rewrite Hck in Hf. injection Hscope as Hd Hse He. rewrite Hd, He in Hf. rewrite Hf; try done.
    + unfold prepared_of. rewrite Hcid, Hid, Hact, Hck. f_equal. f_equal. symmetry. apply Hm.
    + rewrite Hpubs. by apply list_elem_of_fmap_2.
  - intros p Hp Hps. rewrite Hpubs. apply list_elem_of_fmap. exists p. split; [|done].
    unfold activated. destruct (bool_decide (dp_publicationId p = _)) eqn:E.
    + apply bool_decide_eq_true in E. destruct Hps.
      by rewrite (same_publication_id s p target) by congruence.
    + destruct (publicationScope _ _ _ p) eqn:Hc; [|done]. by apply publicationScope_spec in Hc.
  - exists (published_run now input run). rewrite Hruns, find_by_update, Hrun by done. cbn.
    apply find_by_Some in Hrun as [_ Hr]. by rewrite bool_decide_eq_true_2.
  - intros Ho. specialize (Hitems Ho). split.
    + rewrite Hout. destruct (ai_outbox input) as [outboxId|]; [|done].
      destruct (find_by _ _ (ld_outbox s)) eqn:Hf; cbn [is_null]; [by rewrite Hf|].
      apply not_eq_None_Some. rewrite find_by_None. cbn. rewrite fmap_app. set_solver.
    + intros item Hitem. destruct (items_complete_elem _ _ (mi_name item, mi_count item, mi_sha256 item) Hitems)
        as (row & Hrow & Heq); [by apply (list_elem_of_fmap_2 (λ i, (mi_name i, mi_count i, mi_sha256 i)))|].
      exists row. unfold items_of in *. rewrite Hi. split; [done|]. by injection Heq.
Qed.

(** ** A concrete run of the market lane *)

#[export] Instance sample_stringify : JsonText sample_text := TextJson.

Definition sample_empty : Ledger sample_text := mkLedger [] [] [] [] [] 6.
Definition sample_season : SeasonRef := mkSeason 1 (js "2526").
Definition sample_id : jsstr := pi_publicationId sample_publish.
Definition sample_runId : jsstr := js "11111111-1111-4111-8111-111111111111".
Definition sample_outboxId : jsstr := js "22222222-2222-4222-8222-222222222222".

Definition sample_start : StartRunInput :=
  mkStart None
    (mkIdentity (js "fpl") (js "market") (js "season") (Some 1) (Some (js "2526")) None (js "full")
       (js "schedule"))
    (Some 1) None None.

Definition sample_prepare : PrepareInput sample_text :=
  mkPrepare (Some sample_id) DatasetMarket sample_season None sample_runId None.

Definition sample_item : ItemInput := mkItemProof (js "context") sample_value 2 (repeat 48 64).

Definition sample_activation : ActivateInput :=
  mkActivate sample_id DatasetMarket sample_season None sample_runId sample_prepared.1
    (Some sample_outboxId).

Definition sample_started : Ledger sample_text :=
  (startRun (λ _, true) 1000000 sample_runId sample_start sample_empty).1.

Definition sample_publishing : Ledger sample_text :=
  (preparePublication (TextJson (JObject [])) (λ _, true) (λ _ _, true) 1100000 sample_id []
     sample_prepare sample_started).1.

Definition sample_staged : Ledger sample_text :=
  (stagePublicationItems None sample_id [sample_item] sample_publishing).1.

Definition sample_activated : Ledger sample_text :=
  (activatePublication 2000000 sample_activation sample_staged).1.

Lemma sample_activates : activatePublication 2000000 sample_activation sample_staged = (sample_activated, Ok ()).
Proof. vm_compute. reflexivity. Qed.

Section sample_steps.
Context (usage : Usage sample_text).
Notation step :=
  (sync_step (TextJson (JObject [])) (λ _, true) (λ _ _, true) None usage) (only parsing).

Lemma sample_step_start : step sample_empty sample_started.
Proof. apply ss_start. Qed.

Lemma sample_step_prepare : us_staged usage (TextJson (JObject [])) → step sample_started sample_publishing.
Proof. intros H. apply ss_prepare. exact H. Qed.

Lemma sample_step_stage : step sample_publishing sample_staged.
Proof. apply ss_stage. Qed.

Lemma sample_step_activate : us_receipt usage (Some sample_outboxId) → step sample_staged sample_activated.
Proof. intros H. apply ss_activate. exact H. Qed.
End sample_steps.

Lemma publications_ok_empty {V : Type} `{!Codec V} (s : Ledger V) : ld_publications s = [] → publications_ok s.
Proof.
  intros Hp. split; rewrite ?Hp; try by constructor.
  - by intros p Hin%elem_of_nil.
  - by intros p q Hin%elem_of_nil.
  - by intros p Hin%elem_of_nil.
Qed.

Lemma sample_staged_ok : publications_ok sample_staged.
Proof.
  set (usage := mkUsage (λ _ : sample_text, True) (λ _, True) (λ _, True)).
  eapply ps_ok; [exact (sync_step_publications _ _ _ _ _ _ _ (sample_step_stage usage))|].
  eapply ps_ok; [exact (sync_step_publications _ _ _ _ _ _ _ (sample_step_prepare usage I))|].
  eapply ps_ok; [exact (sync_step_publications _ _ _ _ _ _ _ (sample_step_start usage))|].
  by apply publications_ok_empty.
Qed.

Lemma upsertItems_keeps_best_witness :
  let item status := mkItemInput (js "entry") (js "7") status (Some 1) None None None None in
  let s := (upsertItems 1 sample_runId [item ItemCompleted] sample_started).1 in
  let s' := (upsertItems 2 sample_runId [item ItemFailed] s).1 in
  upsertItems 2 sample_runId [item ItemFailed] s = (s', Ok ()) ∧
  ∃ r, find_by item_key (sample_runId, js "entry", js "7") (ld_syncItems s') = Some r ∧
    it_attempts r = 1 ∧ it_status r ∈ [ItemCompleted; ItemSkipped].
Proof.
  set (item := λ status, mkItemInput (js "entry") (js "7") status (Some 1) None None None None).
  set (s := (upsertItems 1 sample_runId [item ItemCompleted] sample_started).1).
  set (s' := (upsertItems 2 sample_runId [item ItemFailed] s).1).
  assert (upsertItems 2 sample_runId [item ItemFailed] s = (s', Ok ())) as Hok by (vm_compute; reflexivity).
  cbn zeta. split; [exact Hok|].
  destruct (upsertItems_keeps_best 2 sample_runId [item ItemFailed] s s' Hok) as [_ Hbest].
  pose (old := item_row 1 sample_runId (item ItemCompleted)).
  assert (find_by item_key (item_key old) (ld_syncItems s') = Some old) as Hr by (vm_compute; reflexivity).
  exists old. split; [exact Hr|].
  destruct (Hbest _ _ Hr) as (_ & _ & Hold).
  destruct (Hold old) as [_ Hkept]; [vm_compute; reflexivity|].
  apply Hkept; [by left|lia].
Defined.

Lemma activatePublication_spec_witness :
  findActivePublication DatasetMarket sample_season None sample_activated =
    Some (mkPrepared sample_id 7 Active) ∧
  is_Some (find_by ox_publicationId sample_id (ld_outbox sample_activated)).
Proof.
  destruct (activatePublication_spec 2000000 sample_activation sample_staged sample_activated
    sample_staged_ok sample_activates) as (Hfind & _ & _ & Hreceipt).
  split; [exact Hfind|]. apply Hreceipt. discriminate.
Defined.
