(* ===== verification/DataOutbox.v ===== *)
(** * Delivery of publications ([src/repositories/data-publication-outbox.ts],
      [src/services/data-publication-reconciler.ts])

    Activating a publication in the database leaves a receipt.  A dispatcher leases due receipts,
    stages the stored items in Redis, moves the pointer, and closes the receipt and its run; a
    reconciler repairs a pointer that does not follow the database.  The state is the tables of
    [SyncOperations.v] and the Redis store of [DataPublication.v].  [deliver] is a delivery that nobody
    interrupts; the transition system [delivery_step] runs it statement by statement ([deliver_phase]),
    with other processes, errors, lost answers and crashes in between.

    Database times are microseconds.  The claims compare with a JS [Date], that is, with the last
    whole millisecond; everything else with the database clock itself. *)

From S2P Require Import Prelude JsCollections JsNumber Json Postgres Redis DataPublication SyncOperations.

(** ** Loading what is delivered *)

(** A claimed receipt with what it delivers.
    src: src/repositories/data-publication-outbox.ts:30-36 ClaimedDataPublicationOutbox *)
Record Claimed {V : Type} := mkClaimed {
  cl_outboxId : jsstr;
  cl_owner : jsstr;
  cl_publicationId : jsstr;
  cl_manifest : Manifest;
  cl_items : list (SerializedItem V);
}.
Arguments Claimed : clear implicits.
Arguments mkClaimed {V}.

Definition is_safe_integer (n : Z) : bool := (- MAX_SAFE_INTEGER <=? n) && (n <=? MAX_SAFE_INTEGER).

(** The statuses of a receipt that waits for delivery.
    src: src/repositories/data-publication-outbox.ts:138-143 claimDataPublicationOutbox *)
Definition DUE_STATUSES : list OutboxStatus := [OutPending; OutStaged; OutDbActivated; OutRedisActivated].

Section outbox.
Context {V : Type} `{!Codec V} `{!JsonText V}.
Implicit Types (s : Ledger V) (o : Outbox V).

(** The text of a row that has the length and the hash the manifest lists.
    src: src/repositories/data-publication-outbox.ts:58-70 loadPreparedPublication *)
Definition row_payload (dataset : Dataset) (item : ManifestItem) (row : PublicationItem) : option V :=
  let payloadCandidates := [
    match dataset with
    | DatasetLive => postgresJsonbCanonicalJson (pn_payload row)
    | _ => canonicalJson (pn_payload row)
    end;
    stringify (pn_payload row);
    postgresJsonbCanonicalJson (pn_payload row)] in
  head (List.filter (λ candidate,
    (byte_length candidate =? mi_bytes item) && bool_decide (sha256 candidate = mi_sha256 item) &&
    bool_decide (pn_checksum row = mi_sha256 item)) payloadCandidates).

(** src: src/repositories/data-publication-outbox.ts:55-75 loadPreparedPublication *)
Fixpoint load_items (dataset : Dataset) (rows : list PublicationItem) (items : list ManifestItem)
    : result (list (SerializedItem V)) :=
  match items with
  | [] => Ok []
  | item :: items' =>
      match find_by pn_itemName (mi_name item) rows with
      | None => Throw "MISSING_ITEM"
      | Some row =>
          match row_payload dataset item row with
          | None => Throw "INVALID_PROOF"
          | Some payload =>
              let* rest := load_items dataset rows items' in Ok (mkSerialized item payload :: rest)
          end
      end
  end.

(** src: src/repositories/data-publication-outbox.ts:38-77 loadPreparedPublication *)
Definition loadPreparedPublication (publicationId : jsstr) (manifestValue : V) s
    : result (Manifest * list (SerializedItem V)) :=
  match parseDataPublicationManifest (Some manifestValue) with
  | None => Throw "INVALID_MANIFEST"
  | Some manifest =>
      let* items := load_items (mf_dataset manifest) (items_of s publicationId) (mf_items manifest) in
      Ok (manifest, items)
  end.

(** src: src/repositories/data-publication-outbox.ts:79-92 loadDataPublicationDelivery *)
Definition loadDataPublicationDelivery (publicationId : jsstr) s
    : result (Manifest * list (SerializedItem V)) :=
  match find_by dp_publicationId publicationId (ld_publications s) with
  | None => Throw "NOT_FOUND"
  | Some row => loadPreparedPublication publicationId (dp_manifest row) s
  end.

(** ** Receipts *)

Definition set_outbox o (status : OutboxStatus) (availableAt attempts : Z) (leaseOwner : option jsstr)
    (leaseExpiresAt stagedAt redisActivatedAt deliveredAt : option Z) (lastError : option jsstr)
    (updatedAt : Z) : Outbox V :=
  mkOutbox (ox_outboxId o) (ox_publicationId o) (ox_sourceRunId o) (ox_dataset o) (ox_seasonId o)
    (ox_eventId o) (ox_manifest o) status availableAt attempts leaseOwner leaseExpiresAt stagedAt
    (ox_dbActivatedAt o) redisActivatedAt deliveredAt lastError updatedAt.

(** src: src/repositories/data-publication-outbox.ts:127-145 claimDataPublicationOutbox *)
Definition claimable (dbNow : Z) (publicationId : option jsstr) o : bool :=
  match publicationId with
  | Some (c :: id) => bool_decide (ox_publicationId o = c :: id)
  | _ => true
  end &&
  is_null (ox_deliveredAt o) && (ox_availableAt o <=? dbNow) &&
  null_or (λ t, t <=? dbNow) (ox_leaseExpiresAt o) && bool_decide (ox_status o ∈ DUE_STATUSES).

(** src: src/repositories/data-publication-outbox.ts:146-149 claimDataPublicationOutbox *)
Definition compare_available : Outbox V → Outbox V → Z :=
  then_by (by_key ox_availableAt) (λ a b, compare_str (ox_outboxId a) (ox_outboxId b)).

(** src: src/repositories/data-publication-outbox.ts:157-162 claimDataPublicationOutbox *)
Definition leased_row (owner : jsstr) (dbNow leaseExpiresAt : Z) o : Outbox V :=
  set_outbox o (ox_status o) (ox_availableAt o) (ox_attempts o + 1) (Some owner) (Some leaseExpiresAt)
    (ox_stagedAt o) (ox_redisActivatedAt o) (ox_deliveredAt o) (ox_lastError o) dbNow.

(** Each selected receipt is leased, then what it delivers is loaded; one that cannot be loaded
    throws.
    src: src/repositories/data-publication-outbox.ts:153-171 claimDataPublicationOutbox *)
Fixpoint claim_rows (owner : jsstr) (dbNow leaseExpiresAt : Z) (rows : list (Outbox V)) s
    : result (Ledger V * list (Claimed V)) :=
  match rows with
  | [] => Ok (s, [])
  | row :: rows' =>
      let* updated := update_checked (λ o, is_int4 (ox_attempts o))
                        (λ o, bool_decide (ox_outboxId o = ox_outboxId row))
                        (leased_row owner dbNow leaseExpiresAt) (ld_outbox s) in
      let s := with_outbox updated.1 s in
      let* prepared := loadPreparedPublication (ox_publicationId row) (ox_manifest row) s in
      let* rest := claim_rows owner dbNow leaseExpiresAt rows' s in
      Ok (rest.1, mkClaimed (ox_outboxId row) owner (ox_publicationId row) prepared.1 prepared.2 :: rest.2)
  end.

(** The receipts a claim selects; [locked] are those that other transactions hold.
    src: src/repositories/data-publication-outbox.ts:120-151 claimDataPublicationOutbox *)
Definition due_receipts (dbNow limit : Z) (publicationId : option jsstr) (locked : list jsstr) s
    : list (Outbox V) :=
  take (Z.to_nat limit) (js_sort compare_available
    (filter (λ o, claimable dbNow publicationId o ∧ ox_outboxId o ∉ locked) (ld_outbox s))).

(** [owner] is the random id of the lease.
    src: src/repositories/data-publication-outbox.ts:98-174 claimDataPublicationOutbox *)
Definition claimDataPublicationOutbox (now : Z) (owner : jsstr) (locked : list jsstr)
    (limit leaseMs : option Z) (publicationId : option jsstr) s : Ledger V * result (list (Claimed V)) :=
  let limit := nullish limit 20 in
  if negb (is_safe_integer limit) || (limit <? 1) || (100 <? limit) then (s, Throw "LIMIT") else
  let leaseMs := nullish leaseMs 60000 in
  if negb (is_safe_integer leaseMs) || (leaseMs <? 1) then (s, Throw "LEASE") else
  let dbNow := js_date now in
  let rows := due_receipts dbNow limit publicationId locked s in
  if negb (is_nil rows) && (MAX_DATE_MS <? dbNow / 1000 + leaseMs) then (s, Throw "INVALID_DATE") else
  transaction (claim_rows owner dbNow (dbNow + leaseMs * 1000) rows) s.

(** The receipt of a lease, not delivered yet.
    src: src/repositories/data-publication-outbox.ts:319-325 markDataPublicationOutboxStage *)
Definition leased_by (outboxId owner : jsstr) o : bool :=
  bool_decide (ox_outboxId o = outboxId) && bool_decide (ox_leaseOwner o = Some owner) &&
  is_null (ox_deliveredAt o).

(** [coalesce(column, clock_timestamp())] *)
Definition or_now (now : Z) (time : option Z) : option Z := Some (nullish time now).

(** An update of receipts, and whether it wrote one. *)
Definition update_receipt (where_ : Outbox V → bool) (set : Outbox V → Outbox V) s : Ledger V * bool :=
  let '(table, updated) := update_where where_ set (ld_outbox s) in
  (with_outbox table s, (length updated =? 1)%nat).

(** [redis] tells the two statuses apart.
    src: src/repositories/data-publication-outbox.ts:297-328 markDataPublicationOutboxStage *)
Definition markDataPublicationOutboxStage (now : Z) (outboxId owner : jsstr) (redis : bool) s
    : Ledger V * bool :=
  update_receipt (leased_by outboxId owner) (λ o,
    set_outbox o (if redis then OutRedisActivated else OutStaged) (ox_availableAt o) (ox_attempts o)
      (ox_leaseOwner o) (ox_leaseExpiresAt o)
      (if redis then ox_stagedAt o else or_now now (ox_stagedAt o))
      (if redis then or_now now (ox_redisActivatedAt o) else ox_redisActivatedAt o)
      (ox_deliveredAt o) (ox_lastError o) now) s.

(** [retryDelayMs] is a whole number of milliseconds.
    src: src/repositories/data-publication-outbox.ts:330-359 releaseDataPublicationOutbox *)
Definition releaseDataPublicationOutbox (now : Z) (outboxId owner error : jsstr)
    (retryDelayMs : option Z) s : Ledger V * bool :=
  let retryDelayMs := Z.max 0 (nullish retryDelayMs 60000) in
  update_receipt (leased_by outboxId owner) (λ o,
    set_outbox o OutPending (now + retryDelayMs * 1000) (ox_attempts o) None None (ox_stagedAt o)
      (ox_redisActivatedAt o) (ox_deliveredAt o) (Some (take 4000 error)) now) s.

(** src: src/repositories/data-publication-outbox.ts:361-387 failDataPublicationOutbox *)
Definition failDataPublicationOutbox (now : Z) (outboxId owner error : jsstr) s : Ledger V * bool :=
  update_receipt (leased_by outboxId owner) (λ o,
    set_outbox o OutFailed (ox_availableAt o) (ox_attempts o) None None (ox_stagedAt o)
      (ox_redisActivatedAt o) (ox_deliveredAt o) (Some (take 4000 error)) now) s.

(** The run of a delivered publication.
    src: src/repositories/data-publication-outbox.ts:212-226 markDataPublicationOutboxDelivered *)
Definition delivered_run (now : Z) (publicationId : jsstr) (r : Run) : Run :=
  set_run r RunPublished (sr_counts r) (sr_dataChanged r) (Some publicationId) (sr_errorSummary r)
    (sr_metadata r) (completed_or now r) now.

Definition publishable_run (runId : jsstr) (r : Run) : bool :=
  bool_decide (sr_runId r = runId) && bool_decide (sr_status r ∈ [RunReadyToPublish; RunPublished]).

(** Closes the receipts [where_], and the run of the first; [false] when there is none.
    src: src/repositories/data-publication-outbox.ts:182-229 markDataPublicationOutboxDelivered *)
Definition close_receipt (now : Z) (where_ : Outbox V → bool) s : result (Ledger V * bool) :=
  let '(table, updated) := update_where where_ (λ o,
    set_outbox o OutDelivered (ox_availableAt o) (ox_attempts o) None None (ox_stagedAt o)
      (or_now now (ox_redisActivatedAt o)) (or_now now (ox_deliveredAt o)) None now) (ld_outbox s) in
  let s := with_outbox table s in
  match updated with
  | [] => Ok (s, false)
  | row :: _ =>
      match ox_sourceRunId row with
      | Some (c :: runId) =>
          let* s := update_runs (publishable_run (c :: runId))
                      (delivered_run now (ox_publicationId row)) s in
          Ok (s, true)
      | _ => Ok (s, true)
      end
  end.

(** src: src/repositories/data-publication-outbox.ts:176-230 markDataPublicationOutboxDelivered *)
Definition markDataPublicationOutboxDelivered (now : Z) (outboxId owner : jsstr)
    : Ledger V → Ledger V * result bool :=
  transaction (close_receipt now (leased_by outboxId owner)).

(** src: src/repositories/data-publication-outbox.ts:241-295 markDataPublicationOutboxReconciled *)
Definition markDataPublicationOutboxReconciled (now : Z) (publicationId : jsstr)
    : Ledger V → Ledger V * result bool :=
  transaction (close_receipt now (λ o,
    bool_decide (ox_publicationId o = publicationId) && is_null (ox_deliveredAt o) &&
    bool_decide (ox_status o ∈ DUE_STATUSES ++ [OutFailed]))).
End outbox.

(** ** Dispatching *)

Section dispatch.
Context {S V : Type} `{!Codec V} `{!JsonText V} `{!Redis S V}.
Implicit Types (s : Ledger V) (r : S) (row : Claimed V).

(** The [catch] of a delivery; a text stands for the message of its error.
    src: src/repositories/data-publication-outbox.ts:430-444 dispatchDataPublicationOutbox *)
Definition delivery_failed (now : Z) row (stale : bool) (error : string) s : Ledger V :=
  if stale then (failDataPublicationOutbox now (cl_outboxId row) (cl_owner row) (js error) s).1
  else (releaseDataPublicationOutbox now (cl_outboxId row) (cl_owner row) (js error) None s).1.

Inductive Delivery := Delivered | NotDelivered | DeliveryFailed.

(** One claimed receipt; [now] is the clock of its statements.
    src: src/repositories/data-publication-outbox.ts:400-445 dispatchDataPublicationOutbox *)
Definition deliver (now : Z) row s r : Ledger V * S * Delivery :=
  let fail stale error s r := (delivery_failed now row stale error s, r, DeliveryFailed) in
  match stageDataPublicationItems (cl_manifest row) (cl_items row) r with
  | (r, Throw e) => fail false e s r
  | (r, Ok _) =>
      match markDataPublicationOutboxStage now (cl_outboxId row) (cl_owner row) false s with
      | (s, false) => fail false "LEASE_LOST" s r
      | (s, true) =>
          match activateDataPublicationPointer (cl_manifest row) r with
          | (r, Throw e) => fail false e s r
          | (r, Ok activation) =>
              if pb_stale activation then fail true "REDIS_NEWER" s r else
              match markDataPublicationOutboxStage now (cl_outboxId row) (cl_owner row) true s with
              | (s, false) => fail false "LEASE_LOST" s r
              | (s, true) =>
                  match markDataPublicationOutboxDelivered now (cl_outboxId row) (cl_owner row) s with
                  | (s, Throw e) => fail false e s r
                  | (s, Ok true) => (s, r, Delivered)
                  | (s, Ok false) => (s, r, NotDelivered)
                  end
              end
          end
      end
  end.

(** Where a dispatcher is with a claimed receipt: it is about to stage the items, to record that, to
    move the pointer, to record that, to close the receipt, or to record why it failed. *)
Inductive Phase := ToStage | ToMarkStaged | ToActivate | ToMarkActivated | ToClose | ToFail (stale : bool) (error : string).

(** The statement of a phase, and the phase or the outcome after it: [deliver] in the steps between
    which other processes run ([deliver_runs]).
    src: src/repositories/data-publication-outbox.ts:400-445 dispatchDataPublicationOutbox *)
Definition deliver_phase (now : Z) row (phase : Phase) s r : Ledger V * S * (Phase + Delivery) :=
  match phase with
  | ToStage =>
      match stageDataPublicationItems (cl_manifest row) (cl_items row) r with
      | (r, Throw e) => (s, r, inl (ToFail false e))
      | (r, Ok _) => (s, r, inl ToMarkStaged)
      end
  | ToMarkStaged =>
      match markDataPublicationOutboxStage now (cl_outboxId row) (cl_owner row) false s with
      | (s, false) => (s, r, inl (ToFail false "LEASE_LOST"))
      | (s, true) => (s, r, inl ToActivate)
      end
  | ToActivate =>
      match activateDataPublicationPointer (cl_manifest row) r with
      | (r, Throw e) => (s, r, inl (ToFail false e))
      | (r, Ok activation) =>
          if pb_stale activation then (s, r, inl (ToFail true "REDIS_NEWER")) else (s, r, inl ToMarkActivated)
      end
  | ToMarkActivated =>
      match markDataPublicationOutboxStage now (cl_outboxId row) (cl_owner row) true s with
      | (s, false) => (s, r, inl (ToFail false "LEASE_LOST"))
      | (s, true) => (s, r, inl ToClose)
      end
  | ToClose =>
      match markDataPublicationOutboxDelivered now (cl_outboxId row) (cl_owner row) s with
      | (s, Throw e) => (s, r, inl (ToFail false e))
      | (s, Ok true) => (s, r, inr Delivered)
      | (s, Ok false) => (s, r, inr NotDelivered)
      end
  | ToFail stale error => (delivery_failed now row stale error s, r, inr DeliveryFailed)
  end.

(** The phases of a delivery that nobody interrupts. *)
Inductive phases_run (now : Z) row : Phase → Ledger V → S → Ledger V * S * Delivery → Prop :=
| run_end phase s r s' r' outcome :
    deliver_phase now row phase s r = (s', r', inr outcome) → phases_run now row phase s r (s', r', outcome)
| run_next phase s r s1 r1 phase1 last :
    deliver_phase now row phase s r = (s1, r1, inl phase1) → phases_run now row phase1 s1 r1 last →
    phases_run now row phase s r last.

Lemma deliver_runs now row s r : phases_run now row ToStage s r (deliver now row s r).
Proof.
  assert (∀ stale e s r, phases_run now row (ToFail stale e) s r (delivery_failed now row stale e s, r, DeliveryFailed))
    as Hfail by (intros; by apply run_end).
  unfold deliver. destruct (stageDataPublicationItems _ _ r) as [r1 [u|e]] eqn:E1;
    (eapply run_next; [cbn [deliver_phase]; by rewrite E1|]); [|done].
  destruct (markDataPublicationOutboxStage now _ _ false s) as [s1 []] eqn:E2;
    (eapply run_next; [cbn [deliver_phase]; by rewrite E2|]); [|done].
  destruct (activateDataPublicationPointer _ r1) as [r2 [a|e]] eqn:E3; cycle 1.
  { eapply run_next; [cbn [deliver_phase]; by rewrite E3|]. done. }
  destruct (pb_stale a) eqn:Ea; (eapply run_next; [cbn [deliver_phase]; by rewrite E3, Ea|]); [done|].
  destruct (markDataPublicationOutboxStage now _ _ true s1) as [s2 []] eqn:E4;
    (eapply run_next; [cbn [deliver_phase]; by rewrite E4|]); [|done].
  destruct (markDataPublicationOutboxDelivered now _ _ s2) as [s3 [[]|e]] eqn:E5.
  - apply run_end. cbn [deliver_phase]. by rewrite E5.
  - apply run_end. cbn [deliver_phase]. by rewrite E5.
  - eapply run_next; [cbn [deliver_phase]; by rewrite E5|]. done.
Qed.

Record DispatchCounts := mkDispatch { dc_claimed : Z; dc_delivered : Z; dc_failed : Z }.

(** The claimed receipts one after the other; how the code's [Promise.all] interleaves their
    statements is the transition system below.
    src: src/repositories/data-publication-outbox.ts:397-446 dispatchDataPublicationOutbox *)
Fixpoint deliver_all (now : Z) (rows : list (Claimed V)) s r (delivered failed : Z)
    : Ledger V * S * Z * Z :=
  match rows with
  | [] => (s, r, delivered, failed)
  | row :: rows' =>
      let '(s, r, outcome) := deliver now row s r in
      deliver_all now rows' s r
        (match outcome with Delivered => delivered + 1 | _ => delivered end)
        (match outcome with DeliveryFailed => failed + 1 | _ => failed end)
  end.

(** src: src/repositories/data-publication-outbox.ts:389-448 dispatchDataPublicationOutbox *)
Definition dispatchDataPublicationOutbox (now : Z) (owner : jsstr) (locked : list jsstr)
    (limit : option Z) (publicationId : option jsstr) s r : Ledger V * S * result DispatchCounts :=
  match claimDataPublicationOutbox now owner locked limit None publicationId s with
  | (s, Throw e) => (s, r, Throw e)
  | (s, Ok claimed) =>
      let '(s, r, delivered, failed) := deliver_all now claimed s r 0 0 in
      (s, r, Ok (mkDispatch (Z.of_nat (length claimed)) delivered failed))
  end.

(** ** Reconciling *)

(** src: src/services/data-publication-reconciler.ts:19-23 DataPublicationReconciliationResult *)
Inductive Reconciliation :=
| Matched (publicationId : jsstr)
| Repaired (publicationId : jsstr)
| Ghost (publicationId : jsstr)
| Missing
| ReconcileFailed.

(** The ids drawn and the rows locked during one reconciliation. *)
Record ReconcileIds := mkReconcileIds {
  rk_outboxId : jsstr;
  rk_owner : jsstr;
  rk_owner2 : jsstr;
  rk_locked : list jsstr;
}.

(** The recovery of a staging publication: [None] when it does not apply or fails before the
    database activation, and then the reconciliation goes on with the state it left.
    src: src/services/data-publication-reconciler.ts:45-88 reconcileDataPublication *)
Definition reconcile_staging (now later : Z) (ids : ReconcileIds) (scope : Scope) (season : SeasonRef)
    (staging : jsstr * Z * jsstr * V) s r : Ledger V * S * option (result Reconciliation) :=
  let '(publicationId, _, sourceRunId, _) := staging in
  match loadDataPublicationDelivery publicationId s with
  | Throw _ => (s, r, None)
  | Ok prepared =>
      match stageDataPublicationItems prepared.1 prepared.2 r with
      | (r, Throw _) => (s, r, None)
      | (r, Ok _) =>
          match activatePublication now
                  (mkActivate publicationId (sc_dataset scope) season (sc_eventId scope) sourceRunId
                     prepared.1 (Some (rk_outboxId ids))) s with
          | (s, Throw _) => (s, r, None)
          | (s, Ok _) =>
              match dispatchDataPublicationOutbox later (rk_owner ids) (rk_locked ids) (Some 1)
                      (Some publicationId) s r with
              | (s, r, Throw e) => (s, r, Some (Throw e))
              | (s, r, Ok _) => (s, r, Some (Ok (Repaired publicationId)))
              end
          end
      end
  end.

(** The pointer is moved by activation when there is none, by compare-and-swap when there is one.
    src: src/services/data-publication-reconciler.ts:135-149 reconcileDataPublication *)
Definition repair_pointer (scope : Scope) (redisActive : option Manifest) (canonical : Manifest) r
    : S * result unit :=
  match redisActive with
  | None =>
      let '(r, activated) := activateDataPublicationPointer canonical r in
      (r, let* a := activated in reject_if pb_stale a with_code "REDIS_CHANGED" ;; Ok ())
  | Some active =>
      let '(r, swapped) := compareAndSwapDataPublicationPointer scope (mf_publicationId active)
                             (Some canonical) r in
      (r, let* status := swapped in
          match status with SwapReplaced => Ok () | _ => Throw "REDIS_CHANGED" end)
  end.

(** The comparison of the two stores and the repair, for the active publication [dbActive].
    src: src/services/data-publication-reconciler.ts:106-166 reconcileDataPublication *)
Definition reconcile_active (later : Z) (ids : ReconcileIds) (scope : Scope) (dbActive : Prepared)
    (redisActive : option Manifest) s r : Ledger V * S * result Reconciliation :=
  match loadDataPublicationDelivery (pp_publicationId dbActive) s with
  | Throw e => (s, r, Throw e)
  | Ok (canonical, items) =>
      let id := mf_publicationId canonical in
      if match redisActive with
         | Some m => bool_decide (mf_publicationId m = id) && (mf_revision m =? mf_revision canonical)
         | None => false
         end then (s, r, Ok (Matched id)) else
      match dispatchDataPublicationOutbox later (rk_owner2 ids) (rk_locked ids) (Some 1)
              (Some (pp_publicationId dbActive)) s r with
      | (s, r, Throw e) => (s, r, Throw e)
      | (s, r, Ok counts) =>
          if dc_delivered counts =? 1 then (s, r, Ok (Repaired id)) else
          match stageDataPublicationItems canonical items r with
          | (r, Throw e) => (s, r, Throw e)
          | (r, Ok _) =>
              match repair_pointer scope redisActive canonical r with
              | (r, Throw e) => (s, r, Throw e)
              | (r, Ok _) =>
                  match markDataPublicationOutboxReconciled later (pp_publicationId dbActive) s with
                  | (s, Throw e) => (s, r, Throw e)
                  | (s, Ok _) => (s, r, Ok (Repaired id))
                  end
              end
          end
      end
  end.

(** src: src/services/data-publication-reconciler.ts:30-167 reconcileDataPublication *)
Definition reconcileDataPublication (now later : Z) (ids : ReconcileIds) (scope : Scope)
    (season : SeasonRef) s r : Ledger V * S * result Reconciliation :=
  let dbActive := findActivePublication (sc_dataset scope) season (sc_eventId scope) s in
  match readActiveDataPublication scope r r with
  | Throw e => (s, r, Throw e)
  | Ok redis =>
      let redisActive := fst <$> redis in
      let '(s, r, recovered) :=
        match findStagingPublication (sc_dataset scope) season (sc_eventId scope) s with
        | Some staging => reconcile_staging now later ids scope season staging s r
        | None => (s, r, None)
        end in
      match recovered with
      | Some result => (s, r, result)
      | None =>
          match dbActive, redisActive with
          | None, Some m => (s, r, Ok (Ghost (mf_publicationId m)))
          | None, None => (s, r, Ok Missing)
          | Some active, _ => reconcile_active later ids scope active redisActive s r
          end
      end
  end.

(** The scopes of a season; [eventId] is that of the current gameweek.
    src: src/services/data-publication-reconciler.ts:172-179 reconcileCoreAndMarketPublications *)
Definition reconciled_scopes (season : SeasonRef) (eventId : option Z) : list Scope :=
  [mkScope DatasetCore (sn_seasonCode season) None; mkScope DatasetMarket (sn_seasonCode season) None] ++
  match eventId with Some e => [mkScope DatasetLive (sn_seasonCode season) (Some e)] | None => [] end.

(** The scopes one after the other; an error of one does not stop the others.
    src: src/services/data-publication-reconciler.ts:180-197 reconcileCoreAndMarketPublications *)
Fixpoint reconcile_scopes (now later : Z) (ids : list ReconcileIds) (season : SeasonRef)
    (scopes : list Scope) s r : Ledger V * S * list Reconciliation :=
  match scopes, ids with
  | scope :: scopes', id :: ids' =>
      let '(s, r, outcome) := reconcileDataPublication now later id scope season s r in
      let '(s, r, rest) := reconcile_scopes now later ids' season scopes' s r in
      (s, r, match outcome with Ok o => o | Throw _ => ReconcileFailed end :: rest)
  | _, _ => (s, r, [])
  end.

(** src: src/services/data-publication-reconciler.ts:169-198 reconcileCoreAndMarketPublications *)
Definition reconcileCoreAndMarketPublications (now later : Z) (ids : list ReconcileIds)
    (season : SeasonRef) (eventId : option Z) s r : Ledger V * S * list Reconciliation :=
  reconcile_scopes now later ids season (reconciled_scopes season eventId) s r.
End dispatch.

(** ** The tables under any interleaving *)

Section steps.
Context {V : Type} `{!Codec V} `{!JsonText V}.
Context (emptyObject : V) (seasonExists : Z → bool) (eventExists : Z → Z → bool)
  (bind_null : option json) (usage : Usage V).
Implicit Types (s : Ledger V) (o : Outbox V).

(** The operations on receipts. *)
Inductive outbox_step s : Ledger V → Prop :=
| os_claim now owner locked limit leaseMs publicationId :
    outbox_step s (claimDataPublicationOutbox now owner locked limit leaseMs publicationId s).1
| os_stage now outboxId owner redis :
    outbox_step s (markDataPublicationOutboxStage now outboxId owner redis s).1
| os_release now outboxId owner error delay :
    outbox_step s (releaseDataPublicationOutbox now outboxId owner error delay s).1
| os_fail now outboxId owner error :
    outbox_step s (failDataPublicationOutbox now outboxId owner error s).1
| os_delivered now outboxId owner :
    outbox_step s (markDataPublicationOutboxDelivered now outboxId owner s).1
| os_reconciled now publicationId :
    outbox_step s (markDataPublicationOutboxReconciled now publicationId s).1.

Definition ledger_step s s' : Prop :=
  sync_step emptyObject seasonExists eventExists bind_null usage s s' ∨ outbox_step s s'.

(** What an operation on receipts does to the other tables. *)
Record outbox_only s s' : Prop := {
  oo_publications : ld_publications s' = ld_publications s;
  oo_items : ld_items s' = ld_items s;
  oo_revisions : ld_revisions s' = ld_revisions s;
  oo_runs : ld_runs s' = ld_runs s ∨ ∃ now runId publicationId,
    ld_runs s' = (update_where (publishable_run runId) (delivered_run now publicationId) (ld_runs s)).1;
}.

Lemma outbox_only_refl s : outbox_only s s.
Proof. split; try done. by left. Qed.

Lemma with_outbox_only table s : outbox_only s (with_outbox table s).
Proof. split; try done. by left. Qed.

Lemma claim_rows_outbox owner dbNow expires rows s s' claimed :
  claim_rows owner dbNow expires rows s = Ok (s', claimed) → s' = with_outbox (ld_outbox s') s.
Proof.
  revert s s' claimed. induction rows as [|row rows IH]; intros s s' claimed; cbn [claim_rows].
  { intros [= <- _]. by destruct s. }
  intros H. apply result_bind_ok in H as (updated & _ & H).
  apply result_bind_ok in H as (prepared & _ & H).
  apply result_bind_ok in H as ([s1 rest] & Hrest & [= <- _]). apply IH in Hrest. by rewrite Hrest.
Qed.

Lemma claim_outbox now owner locked limit leaseMs publicationId s :
  let s' := (claimDataPublicationOutbox now owner locked limit leaseMs publicationId s).1 in
  s' = with_outbox (ld_outbox s') s.
Proof.
  cbn zeta. unfold claimDataPublicationOutbox. assert (s = with_outbox (ld_outbox s) s) as Hs by by destruct s.
  repeat (case_match; [done|]).
  apply (transaction_cases _ s (λ t, t = with_outbox (ld_outbox t) s)); [done|].
  intros t claimed Ht. by eapply claim_rows_outbox.
Qed.

Lemma close_receipt_only now (where_ : Outbox V → bool) s s' b :
  close_receipt now where_ s = Ok (s', b) → outbox_only s s'.
Proof.
  unfold close_receipt. cbn [update_where]. destruct (_ <$> filter _ _) as [|row l].
  { intros [= <- _]. apply with_outbox_only. }
  destruct (ox_sourceRunId row) as [[|c runId]|]; [intros [= <- _]; apply with_outbox_only| |
    intros [= <- _]; apply with_outbox_only].
  intros H. apply result_bind_ok in H as (s1 & Hr & [= <- _]). apply update_runs_ok in Hr as [-> _].
  split; try done. right. by eexists _, _, _.
Qed.

Lemma outbox_step_only s s' : outbox_step s s' → outbox_only s s'.
Proof.
  destruct 1; [rewrite claim_outbox; apply with_outbox_only|apply with_outbox_only..| |].
  - apply (transaction_cases _ s (outbox_only s)); [apply outbox_only_refl|]. intros t b.
    apply close_receipt_only.
  - apply (transaction_cases _ s (outbox_only s)); [apply outbox_only_refl|]. intros t b.
    apply close_receipt_only.
Qed.

Lemma ledger_step_publications s s' : ledger_step s s' → publications_step s s'.
Proof.
  intros [H|[Hp _ Hr _]%outbox_step_only]; [by eapply sync_step_publications|].
  apply publications_step_same; [done|lia].
Qed.

Lemma ledger_step_runs s s' :
  NoDup (sr_runId <$> ld_runs s) → ledger_step s s' → runs_step s s'.
Proof.
  intros Hnd [H|[_ _ _ Hr]%outbox_step_only]; [by eapply sync_step_runs|].
  destruct Hr as [Hr|(now & runId & pid & Hr)]; [by apply runs_step_same|].
  eapply runs_step_update; [done|]. unfold publishable_run. intros r [_ Hst]%andb_true_iff.
  apply bool_decide_eq_true in Hst. split; [done|done|]. cbn.
  apply list_elem_of_In in Hst as [<-|[<-|[]]]; [by right; left|by left].
Qed.

(** Reachable tables. *)
Record tables_ok s : Prop := {
  tk_publications : publications_ok s;
  tk_runs : NoDup (sr_runId <$> ld_runs s);
}.

Lemma tables_ok_step s s' : ledger_step s s' → tables_ok s → tables_ok s'.
Proof.
  intros Hstep [Hp Hr]. split.
  - by apply (ps_ok s s'), Hp; apply ledger_step_publications.
  - by eapply (rs_ids s s'); [apply ledger_step_runs|].
Qed.

Lemma tables_ok_empty s : ld_publications s = [] → ld_runs s = [] → tables_ok s.
Proof.
  intros Hp Hr. split; [by apply publications_ok_empty|by rewrite Hr; apply NoDup_nil_2].
Qed.

Lemma tables_ok_reachable s s' : rtc ledger_step s s' → tables_ok s → tables_ok s'.
Proof. induction 1; [done|]. intros Hok. by eapply IHrtc, tables_ok_step. Qed.

(** The active row of a scope over time. *)
Lemma active_advances s s' p :
  rtc ledger_step s s' → tables_ok s → p ∈ ld_publications s → dp_status p = Active →
  ∃ p', p' ∈ ld_publications s' ∧ dp_status p' = Active ∧ scope_of p' = scope_of p ∧
    revision_of p ≤ revision_of p' ∧
    (revision_of p' = revision_of p → dp_publicationId p' = dp_publicationId p).
Proof.
  intros Hsteps. revert p. induction Hsteps as [s|s1 s2 s3 Hstep _ IH]; intros p Hok Hin Ha.
  { by exists p. }
  pose proof (tables_ok_step _ _ Hstep Hok) as Hok2.
  pose proof (ledger_step_publications _ _ Hstep) as [_ Hkept Hact].
  destruct (Hact p) as (p2 & Hin2 & Ha2 & Hs2 & Hr2); [apply Hok|done|done|].
  destruct (IH p2 Hok2 Hin2 Ha2) as (p3 & Hin3 & Ha3 & Hs3 & Hr3 & Hid3).
  exists p3. split_and!; [done|done|congruence|lia|]. intros He.
  rewrite Hid3 by lia. destruct (Hkept p Hin) as [(q & Hq & Hqid & Hqk & _)|[|]]; [|congruence..].
  rewrite <-Hqid. f_equal. apply (NoDup_fmap_inj_in revision_of (ld_publications s2));
    [apply Hok2|done|done|]. unfold revision_of at 2. rewrite Hqk. unfold revision_of in *. lia.
Qed.

(** Final statuses over time. *)
Lemma final_runs s s' r :
  rtc ledger_step s s' → tables_ok s → r ∈ ld_runs s →
  sr_status r ∈ [RunFailed; RunCompleted; RunSkipped] →
  ∃ r', r' ∈ ld_runs s' ∧ sr_runId r' = sr_runId r ∧ sr_identity r' = sr_identity r ∧
    sr_status r' = sr_status r.
Proof.
  intros Hsteps. revert r. induction Hsteps as [s|s1 s2 s3 Hstep _ IH]; intros r Hok Hin Hf; [by exists r|].
  destruct (rs_kept _ _ (ledger_step_runs _ _ (tk_runs _ Hok) Hstep) r Hin) as (r2 & Hin2 & [Hid Hi Hst]).
  assert (sr_status r2 = sr_status r) as Hs.
  { destruct Hst as [->|[Hn|[Hp _]]]; [done| |].
    - exfalso. destruct (sr_status r); try done; by apply list_elem_of_In in Hf as [|[|[|[]]]].
    - exfalso. rewrite Hp in Hf. by apply list_elem_of_In in Hf as [|[|[|[]]]]. }
  destruct (IH r2) as (r3 & Hin3 & ? & ? & ?); [by eapply tables_ok_step|done|by rewrite Hs|].
  exists r3. split_and!; congruence.
Qed.
End steps.

(** ** Claims *)

Section claims.
Context {V : Type} `{!Codec V} `{!JsonText V}.
Implicit Types (s : Ledger V) (o : Outbox V).

Lemma load_with_outbox publicationId manifest table s :
  loadPreparedPublication publicationId manifest (with_outbox table s) =
  loadPreparedPublication publicationId manifest s.
Proof. done. Qed.

(** One receipt that cannot be loaded makes the claim throw. *)
Lemma claim_rows_throws owner dbNow expires rows s o e :
  o ∈ rows → loadPreparedPublication (ox_publicationId o) (ox_manifest o) s = Throw e →
  ∃ e', claim_rows owner dbNow expires rows s = Throw e'.
Proof.
  revert s. induction rows as [|row rows IH]; intros s Hin Hload; [by apply elem_of_nil in Hin|].
  cbn [claim_rows]. destruct (update_checked _ _ _ (ld_outbox s)) as [updated|e0]; [|eexists; reflexivity].
  cbn [result_bind]. rewrite load_with_outbox. apply elem_of_cons in Hin as [<-|Hin].
  - rewrite Hload. eexists; reflexivity.
  - destruct (loadPreparedPublication (ox_publicationId row) (ox_manifest row) s); [|eexists; reflexivity]. cbn [result_bind].
    destruct (IH (with_outbox updated.1 s) Hin) as [e' ->]; [by rewrite load_with_outbox|eexists; reflexivity].
Qed.
End claims.

(** ** Delivering a prepared publication *)

(** The texts depend on the canonical forms alone, as [src/utils/content-hash.ts] computes them. *)
Class TextLaws (V : Type) `{Codec V} : Prop := {
  canonicalJson_form a b : canonicalize a = canonicalize b → canonicalJson a = canonicalJson b;
  jsonbJson_form a b : jsonb_order a = jsonb_order b →
    postgresJsonbCanonicalJson a = postgresJsonbCanonicalJson b;
}.

Section delivery.
Context {S V : Type} `{!Codec V} `{!CodecLaws V} `{!TextLaws V} `{!JsonText V} `{!Redis S V} `{!RedisLaws S V}.
Context (content : jsstr → V).
Implicit Types (s : Ledger V) (o : Outbox V) (r : S).

(** The values of a publication request, as the table of items holds them. *)
Definition stored (input : PublishInput) s : Prop :=
  NoDup (publication_item_key <$> ld_items s) ∧
  ∀ name j, (name, j) ∈ pi_items input →
    ∃ row, row ∈ items_of s (pi_publicationId input) ∧ pn_itemName row = name ∧ pn_payload row = jsonb_order j.

Lemma items_of_names s id :
  NoDup (publication_item_key <$> ld_items s) → NoDup (pn_itemName <$> items_of s id).
Proof.
  intros Hnd. unfold items_of.
  assert (NoDup (publication_item_key <$> filter (λ i, pn_publicationId i = id) (ld_items s))) as H.
  { eapply sublist_NoDup; [done|]. apply fmap_sublist, sublist_filter. }
  revert H. generalize (ld_items s). clear Hnd. intros l. induction l as [|i l IH]; [by constructor|].
  rewrite filter_cons. destruct (decide _) as [Hid|]; [|done]. cbn [fmap list_fmap].
  rewrite !NoDup_cons. intros [Hi Hnd]. split; [|by apply IH]. intros (x & Hx & Hin)%list_elem_of_fmap.
  apply Hi. apply list_elem_of_fmap. exists x. split; [|done].
  apply list_elem_of_filter in Hin as [Hxid _]. unfold publication_item_key. congruence.
Qed.

(** The first text of a stored value is the text that was prepared. *)
Lemma row_payload_prepared now input m items item j row :
  prepared_ok now input m items → prepared_item input j item → well_formed j →
  pn_payload row = jsonb_order j → pn_checksum row = mi_sha256 (se_item item) →
  row_payload (mf_dataset m) (se_item item) row = Some (se_payload item).
Proof.
  intros Hp Hit Hw Hpay Hsum. unfold row_payload. rewrite Hpay, Hsum.
  assert (match mf_dataset m with
    | DatasetLive => postgresJsonbCanonicalJson (jsonb_order j)
    | _ => canonicalJson (jsonb_order j) end = se_payload item) as ->.
  { rewrite (pr_payload _ _ _ Hit). pose proof (po_scope _ _ _ _ Hp) as Hsc. rewrite <-Hsc. cbn.
    destruct (stored_forms j Hw) as [Hc Hj].
    destruct (mf_dataset m); [by apply canonicalJson_form|by apply jsonbJson_form|by apply canonicalJson_form]. }
  cbn [List.filter]. rewrite (pr_bytes _ _ _ Hit), (pr_sha _ _ _ Hit), Z.eqb_refl.
  by rewrite (bool_decide_eq_true_2 (sha256 (se_payload item) = sha256 (se_payload item))).
Qed.

Lemma load_prepared now input p s :
  publication_of content now input p → stored input s →
  items_complete (items_of s (pi_publicationId input)) (manifest_proof p.1) = true →
  loadPreparedPublication (pi_publicationId input) (encode_manifest p.1) s = Ok p.
Proof.
  intros Hp [Hnd Hstored] Hcomplete. unfold loadPreparedPublication.
  rewrite (publication_parse content p) by (by exists now, input).
  destruct p as [m items]. destruct Hp as (Hpub & Hprep & _). apply prepare_ok in Hprep. cbn [fst] in *.
  assert (∀ its, (∀ x, x ∈ its → x ∈ items) →
    load_items (mf_dataset m) (items_of s (pi_publicationId input)) (se_item <$> its) = Ok its) as Hload.
  { induction its as [|item its IH]; intros Hsub; [done|]. cbn [fmap list_fmap load_items].
    destruct (prepared_elem _ _ _ _ item Hprep) as (j & Hj & Hit); [apply Hsub; by left|].
    destruct (Hstored _ _ Hj) as (row & Hrow & Hname & Hpay).
    rewrite <-Hname, find_by_elem by (done || by apply items_of_names).
    destruct (items_complete_elem _ _ (mi_name (se_item item), mi_count (se_item item), mi_sha256 (se_item item))
      Hcomplete) as (row' & Hrow' & Heq).
    { apply (list_elem_of_fmap_2 (λ i, (mi_name i, mi_count i, mi_sha256 i))).
      rewrite (po_items _ _ _ _ Hprep). apply list_elem_of_fmap_2, Hsub. by left. }
    injection Heq as Hn' _ Hsum.
    assert (row' = row) as ->.
    { apply (NoDup_fmap_inj_in pn_itemName (items_of s (pi_publicationId input)));
        [by apply items_of_names|done|done|congruence]. }
    rewrite (row_payload_prepared now input m items item j row); [|done|done|by eapply pu_values|done|done].
    cbn [result_bind]. rewrite IH by (intros x Hx; apply Hsub; by right). cbn. by destruct item. }
  rewrite (po_items _ _ _ _ Hprep), Hload by done. done.
Qed.

(** Staging on a store where every item key has one content. *)
Lemma stage_present (items : list (SerializedItem V)) r item :
  item ∈ items → r_get (mi_key (se_item item)) (stage_items items r) ≠ None.
Proof.
  assert (∀ (l : list (SerializedItem V)) r k, r_get k r ≠ None → r_get k (stage_items l r) ≠ None) as Hkeep.
  { intros l r0 k Hk. destruct (get_stage k l r0) as [[->|[Hn _]] _]; [done|]. by rewrite Hn in Hk. }
  revert r. induction items as [|it items IH]; intros r Hin; [by apply elem_of_nil in Hin|].
  unfold stage_items in *. cbn [fold_left].
  apply elem_of_cons in Hin as [->|Hin]; [|by apply IH]. apply Hkeep.
  rewrite get_set_nx, decide_True by done. done.
Qed.

Lemma stage_delivers p r :
  sound content r → publication content p →
  (stageDataPublicationItems p.1 p.2 r).2 = Ok () ∧
  (∀ item, item ∈ p.2 →
     r_get (mi_key (se_item item)) (stageDataPublicationItems p.1 p.2 r).1 = Some (se_payload item)) ∧
  ∀ scope ak, activeDataPublicationKey scope = Ok ak →
     r_get ak (stageDataPublicationItems p.1 p.2 r).1 = r_get ak r.
Proof.
  intros Hs Hp. pose proof (stage_sound content p r Hs Hp) as Hs1.
  unfold stageDataPublicationItems in *. cbn [fst] in *. fold (stage_items p.2 r) in *.
  assert (∀ item, item ∈ p.2 → r_get (mi_key (se_item item)) (stage_items p.2 r) = Some (se_payload item)) as Hget.
  { intros item Hin. pose proof (stage_present p.2 r item Hin) as Hn.
    destruct (r_get (mi_key (se_item item)) (stage_items p.2 r)) as [v|] eqn:Hv; [|done]. f_equal.
    rewrite (so_items content _ Hs1 (manifest_scope p.1) (mi_key (se_item item)) v);
      [|apply (publication_key content p); [done|]|done].
    - destruct Hp as (now & input & _ & _ & Hc). symmetry. by apply Hc.
    - rewrite (publication_items content p Hp), <-list_fmap_compose.
      by apply (list_elem_of_fmap_2 (mi_key ∘ se_item)). }
  split_and!; [|done|].
  - rewrite bool_decide_eq_true_2.
    2: { unfold r_mget. rewrite <-list_fmap_compose. apply list_fmap_ext. intros i item Hi.
         apply Hget. by eapply list_elem_of_lookup_2. }
    destruct Hp as (now & input & _ & Hprep & _), p as [m items]. apply prepare_ok in Hprep. cbn [fst snd] in *.
    rewrite (prepared_name_list _ _ _ _ Hprep). unfold hasAcceptedItemNames.
    by rewrite (po_names _ _ _ _ Hprep).
  - intros scope ak Hak. destruct (get_stage ak p.2 r) as [[->|(_ & item & Hin & Hk & _)] _]; [done|].
    exfalso. apply (active_ne_item scope (manifest_scope p.1) ak ak Hak); [|done].
    apply (publication_key content p); [done|]. rewrite (publication_items content p Hp), <-Hk, <-list_fmap_compose.
    by apply (list_elem_of_fmap_2 (mi_key ∘ se_item)).
Qed.

(** The pointer of the scope is absent, or of an older publication. *)
Definition pointer_older (m : Manifest) r : Prop :=
  ∀ ak current, activeDataPublicationKey (manifest_scope m) = Ok ak →
    r_get ak r = Some (encode_manifest current) →
    mf_publicationId current ≠ mf_publicationId m ∧
    (mf_sourceCheckedAt current < mf_sourceCheckedAt m ∨
     mf_sourceCheckedAt current = mf_sourceCheckedAt m ∧ mf_revision current < mf_revision m).

Lemma check_stage_passes (its : list ManifestItem) r :
  (∀ i, i ∈ its → ∃ v : V, r_get (mi_key i) r = Some v ∧ byte_length v = mi_bytes i) →
  check_stage its r = None.
Proof.
  induction its as [|i its IH]; intros H; [done|]. cbn [check_stage].
  destruct (H i) as (v & -> & ->); [by left|]. rewrite Z.eqb_refl. cbn [negb].
  apply IH. intros x Hx. apply H. by right.
Qed.

Lemma activate_delivers now input p r :
  sound content r → publication_of content now input p → pointer_older p.1 r →
  (∀ item, item ∈ p.2 → r_get (mi_key (se_item item)) r = Some (se_payload item)) →
  ∃ r' previous, activateDataPublicationPointer p.1 r = (r', Ok (mkPublishResult false p.1 previous)) ∧
    sound content r'.
Proof.
  intros Hs Hof Hold Hitems. assert (publication content p) as Hp by (by exists now, input).
  pose proof (pointer_sound content p r Hs Hp) as Hs'. unfold activateDataPublicationPointer in *.
  assert (∃ ak, activeDataPublicationKey (manifest_scope p.1) = Ok ak) as [ak Hak].
  { rewrite (publication_scope content now input p Hof). destruct Hof as (_ & Hprep & _), p as [m items].
    pose proof (po_valid _ _ _ _ (prepare_ok _ _ _ _ Hprep)) as Hv.
    unfold activeDataPublicationKey, scopePrefix.
    rewrite (proj2 (assertScope_valid (pi_scope input) ()) Hv). by eexists. }
  rewrite Hak in *.
  assert (∀ current, (publish_candidate ak p.1 current r).2 =
    APublished (match current with Some (raw, _) => Some raw | None => None end)) as Hpub.
  { intros current. unfold publish_candidate. rewrite check_stage_passes; [by destruct current as [[]|]|].
    intros i Hi. rewrite (publication_items content p Hp) in Hi. apply list_elem_of_fmap in Hi as (item & -> & Hin).
    exists (se_payload item). split; [by apply Hitems|].
    destruct Hof as (_ & Hprep & _), p as [m items]. apply prepare_ok in Hprep.
    destruct (prepared_elem _ _ _ _ item Hprep Hin) as (j & _ & Hit). symmetry. apply Hit. }
  assert (∃ raw, (activate_script ak p.1 r).2 = APublished raw) as [raw Hraw].
  { unfold activate_script. destruct (r_get ak r) as [raw|] eqn:Hr; [|rewrite Hpub; by eexists].
    destruct (so_active content r Hs _ _ _ Hak Hr) as (q & Hq & -> & _ & _). rewrite decode_encode.
    destruct (Hold ak q.1 Hak Hr) as [Hid Hlt]. rewrite bool_decide_eq_false_2 by done.
    destruct (Z.ltb_spec (mf_sourceCheckedAt p.1) (mf_sourceCheckedAt q.1)); [lia|].
    destruct (Z.eqb_spec (mf_sourceCheckedAt q.1) (mf_sourceCheckedAt p.1)),
      (Z.leb_spec (mf_revision p.1) (mf_revision q.1)); cbn [andb]; try lia; rewrite Hpub; by eexists. }
  destruct (activate_script ak p.1 r) as [r' status]. cbn [fst snd] in *. subst status.
  exists r', (parseDataPublicationManifest raw). done.
Qed.

(** The receipt of an activation, and the tables around it. *)
Record receipt_of (l : list (Outbox V)) o (outboxId runId : jsstr) s : Prop := {
  rf_outbox : ld_outbox s = l ++ [o];
  rf_others x : x ∈ l → ox_outboxId x ≠ outboxId;
  rf_id : ox_outboxId o = outboxId;
  rf_open : ox_deliveredAt o = None;
  rf_run : ox_sourceRunId o = Some runId;
}.

Lemma update_receipt_of l o outboxId runId owner set s :
  receipt_of l o outboxId runId s → ox_leaseOwner o = Some owner →
  update_receipt (leased_by outboxId owner) set s = (with_outbox (l ++ [set o]) s, true).
Proof.
  intros [Hout Hothers Hid Hopen _] Howner. unfold update_receipt. rewrite Hout, update_last; [done| |].
  - intros x Hx. unfold leased_by. by rewrite bool_decide_eq_false_2 by auto.
  - unfold leased_by. by rewrite Hid, Howner, Hopen, !bool_decide_eq_true_2.
Qed.

Lemma close_receipt_of now l o outboxId c runId owner s :
  receipt_of l o outboxId (c :: runId) s → ox_leaseOwner o = Some owner →
  (∀ run, run ∈ ld_runs s → sr_runId run = c :: runId →
     run_checks (delivered_run now (ox_publicationId o) run) = true) →
  ∃ o', markDataPublicationOutboxDelivered now outboxId owner s =
    (with_runs (update_where (publishable_run (c :: runId)) (delivered_run now (ox_publicationId o)) (ld_runs s)).1
       (with_outbox (l ++ [o']) s), Ok true) ∧
    ox_publicationId o' = ox_publicationId o ∧ ox_status o' = OutDelivered ∧ ox_deliveredAt o' ≠ None.
Proof.
  intros [Hout Hothers Hid Hopen Hrun] Howner Hchecks. eexists. split.
  - unfold markDataPublicationOutboxDelivered. rewrite transaction_ok. unfold close_receipt.
    rewrite Hout, update_last.
    + cbn [ox_sourceRunId set_outbox]. rewrite Hrun. cbn [ox_publicationId set_outbox].
      apply result_bind_ok. eexists. split; [|reflexivity]. apply update_runs_ok. split; [reflexivity|].
      apply forallb_forall. intros r' (r0 & -> & Hr0)%list_elem_of_In%list_elem_of_fmap.
      apply list_elem_of_filter in Hr0 as [Hw Hr0]. unfold publishable_run in Hw.
      apply Is_true_true, andb_true_iff in Hw as [Hw _]. apply bool_decide_eq_true in Hw. by apply Hchecks.
    + intros x Hx. unfold leased_by. by rewrite bool_decide_eq_false_2 by auto.
    + unfold leased_by. by rewrite Hid, Howner, Hopen, !bool_decide_eq_true_2.
  - split_and!; done.
Qed.

(** The delivery of a leased receipt, when the pointer is older. *)
Lemma deliver_prepared now0 input p now row l o c runId s r :
  sound content r → publication_of content now0 input p → pointer_older p.1 r →
  cl_manifest row = p.1 → cl_items row = p.2 →
  receipt_of l o (cl_outboxId row) (c :: runId) s → ox_leaseOwner o = Some (cl_owner row) →
  (∀ run, run ∈ ld_runs s → sr_runId run = c :: runId →
     run_checks (delivered_run now (ox_publicationId o) run) = true) →
  ∃ s' r' o', deliver now row s r = (s', r', Delivered) ∧ sound content r' ∧
    (∃ previous r1, activateDataPublicationPointer p.1 r1 = (r', Ok (mkPublishResult false p.1 previous)) ∧
       sound content r1) ∧
    ld_outbox s' = l ++ [o'] ∧ ox_publicationId o' = ox_publicationId o ∧ ox_status o' = OutDelivered ∧
    ld_runs s' = (update_where (publishable_run (c :: runId)) (delivered_run now (ox_publicationId o))
                    (ld_runs s)).1.
Proof.
  intros Hs Hof Hold Hm Hits Hrec Howner Hchecks.
  assert (publication content p) as Hp by (by exists now0, input).
  destruct (stage_delivers p r Hs Hp) as (Hstage & Hget & Hkey).
  pose proof (stage_sound content p r Hs Hp) as Hs1.
  unfold deliver. rewrite Hm, Hits.
  destruct (stageDataPublicationItems p.1 p.2 r) as [r1 res]. cbn [fst snd] in *. subst res.
  unfold markDataPublicationOutboxStage.
  rewrite (update_receipt_of l o _ _ _ _ _ Hrec Howner).
  destruct (activate_delivers now0 input p r1) as (r2 & previous & Hact & Hs2); [done|done| |done|].
  { intros ak current Hak Hr. eapply Hold; [done|]. by rewrite <-(Hkey _ _ Hak). }
  rewrite Hact. cbn [pb_stale].
  erewrite (update_receipt_of l); [|split; cbn; [reflexivity|apply Hrec..]|done].
  match goal with |- context [markDataPublicationOutboxDelivered now _ _ ?t] =>
    assert (∃ o2, receipt_of l o2 (cl_outboxId row) (c :: runId) t ∧
      ox_leaseOwner o2 = Some (cl_owner row) ∧ ox_publicationId o2 = ox_publicationId o)
      as (o2 & Hrec2 & Howner2 & Hpid2);
    [eexists; split_and!; [split; cbn; [reflexivity|apply Hrec..]|done|done]|];
    destruct (close_receipt_of now l o2 (cl_outboxId row) c runId (cl_owner row) t)
      as (o' & -> & Hid & Hst & _); [done|done|by rewrite Hpid2|]
  end.
  rewrite Hpid2 in *.
  exists (with_runs (update_where (publishable_run (c :: runId)) (delivered_run now (ox_publicationId o))
    (ld_runs s)).1 (with_outbox (l ++ [o']) s)), r2, o'.
  split_and!; try done. by exists previous, r1.
Qed.

(** The claim of the receipt of one publication. *)
Lemma claim_receipt now owner locked l o outboxId runId c id s p :
  receipt_of l o outboxId runId s → ox_publicationId o = c :: id →
  (∀ x, x ∈ l → ox_publicationId x ≠ c :: id) →
  claimable (js_date now) (Some (c :: id)) o = true → outboxId ∉ locked → is_int4 (ox_attempts o + 1) = true →
  js_date now / 1000 + 60000 ≤ MAX_DATE_MS →
  loadPreparedPublication (c :: id) (ox_manifest o) s = Ok p →
  claimDataPublicationOutbox now owner locked (Some 1) None (Some (c :: id)) s =
    (with_outbox (l ++ [leased_row owner (js_date now) (js_date now + 60000 * 1000) o]) s,
     Ok [mkClaimed outboxId owner (c :: id) p.1 p.2]).
Proof.
  intros Hrec Hpid Hothers Hclaim Hlocked Hatt Hdate Hload.
  assert (due_receipts (js_date now) 1 (Some (c :: id)) locked s = [o]) as Hdue.
  { unfold due_receipts. rewrite (rf_outbox _ _ _ _ _ Hrec), filter_app.
    rewrite (filter_none _ l), filter_cons_True; [done| |].
    - split; [by rewrite Hclaim|]. by rewrite (rf_id _ _ _ _ _ Hrec).
    - intros x Hx [Hc _]. unfold claimable in Hc.
      rewrite bool_decide_eq_false_2 in Hc by auto. done. }
  unfold claimDataPublicationOutbox. change (nullish (Some 1) 20) with 1.
  change (nullish None 60000) with 60000. cbv zeta. rewrite Hdue.
  change (is_safe_integer 1) with true. change (is_safe_integer 60000) with true. cbn [negb orb andb is_nil].
  change (1 <? 1) with false. change (100 <? 1) with false. change (60000 <? 1) with false. cbn [orb].
  destruct (Z.ltb_spec MAX_DATE_MS (js_date now / 1000 + 60000)); [lia|].
  apply transaction_ok. cbn [claim_rows].
  assert (update_where (λ x, bool_decide (ox_outboxId x = ox_outboxId o))
    (leased_row owner (js_date now) (js_date now + 60000 * 1000)) (ld_outbox s) =
    (l ++ [leased_row owner (js_date now) (js_date now + 60000 * 1000) o],
     [leased_row owner (js_date now) (js_date now + 60000 * 1000) o])) as Hup.
  { rewrite (rf_outbox _ _ _ _ _ Hrec), update_last; [done| |by apply bool_decide_eq_true].
    intros x Hx. apply bool_decide_eq_false. rewrite (rf_id _ _ _ _ _ Hrec). by apply Hrec. }
  unfold update_checked. rewrite Hup. cbn [forallb]. 
  change (ox_attempts (leased_row owner _ _ o)) with (ox_attempts o + 1). rewrite Hatt. cbn [andb result_bind fst].
  rewrite load_with_outbox, Hpid, Hload. cbn. by rewrite (rf_id _ _ _ _ _ Hrec).
Qed.
End delivery.

(** ** Dispatchers and reconcilers together *)

(** Where a reconciler is with the active publication of a scope: it has found its row, it has loaded
    what it delivers and read Redis, or it has repaired the pointer and is about to close the receipt. *)
Inductive Reconciling :=
| RcFound (scope : Scope) (publicationId : jsstr)
| RcLoaded (scope : Scope) (redisActive : option Manifest) (publicationId : jsstr) (canonical : Manifest)
| RcRepaired (publicationId : jsstr).

(** The two stores, the claimed receipts in the hands of dispatchers, the reconcilers at work, and the
    owners of leases that were ever drawn. *)
Record Delivering {S V : Type} := mkDelivering {
  dl_ledger : Ledger V;
  dl_redis : S;
  dl_workers : list (Claimed V * Phase);
  dl_reconcilers : list Reconciling;
  dl_owners : list jsstr;
}.
Arguments Delivering : clear implicits.
Arguments mkDelivering {S V}.

Section system.
Context {S V : Type} `{!Codec V} `{!CodecLaws V} `{!JsonText V} `{!Redis S V} `{!RedisLaws S V}.
Context (emptyObject : V) (seasonExists : Z → bool) (eventExists : Z → Z → bool)
  (bind_null : option json) (usage : Usage V).
Implicit Types (s : Ledger V) (r : S) (d : Delivering S V) (row : Claimed V) (o : Outbox V).

(** One step of the whole: an operation on the tables; any change of Redis, by other clients or by
    time; a claim under a new owner; the statement of a worker's phase, of which the answer may be
    lost, or an error instead of it; a crash; the steps of a reconciler.  What a reconciler has read from
    Redis is any manifest: its recovery of staged publications, its dispatch and its staging are
    operations on the tables, claims, and changes of Redis. *)
Inductive delivery_step d : Delivering S V → Prop :=
| ds_tables s :
    sync_step emptyObject seasonExists eventExists bind_null usage (dl_ledger d) s →
    delivery_step d (mkDelivering s (dl_redis d) (dl_workers d) (dl_reconcilers d) (dl_owners d))
| ds_redis r :
    delivery_step d (mkDelivering (dl_ledger d) r (dl_workers d) (dl_reconcilers d) (dl_owners d))
| ds_claim now owner locked limit leaseMs publicationId s claimed :
    owner ∉ dl_owners d →
    claimDataPublicationOutbox now owner locked limit leaseMs publicationId (dl_ledger d) = (s, Ok claimed) →
    delivery_step d (mkDelivering s (dl_redis d) (((λ row, (row, ToStage)) <$> claimed) ++ dl_workers d)
                       (dl_reconcilers d) (owner :: dl_owners d))
| ds_next row phase before after now s r phase' :
    dl_workers d = before ++ (row, phase) :: after →
    deliver_phase now row phase (dl_ledger d) (dl_redis d) = (s, r, inl phase') →
    delivery_step d (mkDelivering s r ((row, phase') :: before ++ after) (dl_reconcilers d) (dl_owners d))
| ds_end row phase before after now s r outcome :
    dl_workers d = before ++ (row, phase) :: after →
    deliver_phase now row phase (dl_ledger d) (dl_redis d) = (s, r, inr outcome) →
    delivery_step d (mkDelivering s r (before ++ after) (dl_reconcilers d) (dl_owners d))
| ds_lost row phase before after now s r next error :
    dl_workers d = before ++ (row, phase) :: after →
    deliver_phase now row phase (dl_ledger d) (dl_redis d) = (s, r, next) →
    delivery_step d (mkDelivering s r ((row, ToFail false error) :: before ++ after) (dl_reconcilers d) (dl_owners d))
| ds_error row phase before after error :
    dl_workers d = before ++ (row, phase) :: after →
    delivery_step d (mkDelivering (dl_ledger d) (dl_redis d) ((row, ToFail false error) :: before ++ after)
                       (dl_reconcilers d) (dl_owners d))
| ds_crash workers reconcilers :
    workers ⊆ dl_workers d → reconcilers ⊆ dl_reconcilers d →
    delivery_step d (mkDelivering (dl_ledger d) (dl_redis d) workers reconcilers (dl_owners d))
| ds_find scope season active :
    findActivePublication (sc_dataset scope) season (sc_eventId scope) (dl_ledger d) = Some active →
    delivery_step d (mkDelivering (dl_ledger d) (dl_redis d) (dl_workers d)
                       (RcFound scope (pp_publicationId active) :: dl_reconcilers d) (dl_owners d))
| ds_load scope publicationId redisActive prepared before after :
    dl_reconcilers d = before ++ RcFound scope publicationId :: after →
    loadDataPublicationDelivery publicationId (dl_ledger d) = Ok prepared →
    delivery_step d (mkDelivering (dl_ledger d) (dl_redis d) (dl_workers d)
                       (RcLoaded scope redisActive publicationId prepared.1 :: before ++ after) (dl_owners d))
| ds_repair scope redisActive publicationId canonical before after r :
    dl_reconcilers d = before ++ RcLoaded scope redisActive publicationId canonical :: after →
    repair_pointer scope redisActive canonical (dl_redis d) = (r, Ok ()) →
    delivery_step d (mkDelivering (dl_ledger d) r (dl_workers d) (RcRepaired publicationId :: before ++ after) (dl_owners d))
| ds_reconciled now publicationId before after s b :
    dl_reconcilers d = before ++ RcRepaired publicationId :: after →
    markDataPublicationOutboxReconciled now publicationId (dl_ledger d) = (s, Ok b) →
    delivery_step d (mkDelivering s (dl_redis d) (dl_workers d) (before ++ after) (dl_owners d)).

(** An execution: the states so far, the present one first. *)
Inductive execution (s0 : Ledger V) (r0 : S) : list (Delivering S V) → Prop :=
| execution_start : execution s0 r0 [mkDelivering s0 r0 [] [] []]
| execution_step d past d' :
    execution s0 r0 (d :: past) → delivery_step d d' → execution s0 r0 (d' :: d :: past).

(** The manifest that the tables hold for a publication, in its row or in its receipt. *)
Definition recorded (publicationId : jsstr) (m : Manifest) s : Prop :=
  (∃ o, o ∈ ld_outbox s ∧ ox_publicationId o = publicationId ∧
     parseDataPublicationManifest (Some (ox_manifest o)) = Some m) ∨
  (∃ p, p ∈ ld_publications s ∧ dp_publicationId p = publicationId ∧
     parseDataPublicationManifest (Some (dp_manifest p)) = Some m).

(** A pointer of Redis names the publication of the manifest, with its items. *)
Definition pointed (m : Manifest) r : Prop :=
  ∃ scope ak raw current, activeDataPublicationKey scope = Ok ak ∧ r_get ak r = Some raw ∧
    decode_manifest raw = Some current ∧ mf_publicationId current = mf_publicationId m ∧
    mf_items current = mf_items m.

(** Some state of the execution held the manifest for the publication. *)
Definition known (states : list (Delivering S V)) (publicationId : jsstr) (m : Manifest) : Prop :=
  mf_publicationId m = publicationId ∧ ∃ d, d ∈ states ∧ recorded publicationId m (dl_ledger d).

(** And in some state of it Redis pointed to the publication. *)
Definition moved (states : list (Delivering S V)) (publicationId : jsstr) : Prop :=
  ∃ m, known states publicationId m ∧ ∃ d, d ∈ states ∧ pointed m (dl_redis d).

Lemma known_cons d states id m : known states id m → known (d :: states) id m.
Proof. intros [Hid (d0 & Hin & Hr)]. split; [done|]. exists d0. split; [by right|done]. Qed.

Lemma moved_cons d states id : moved states id → moved (d :: states) id.
Proof.
  intros (m & Hk & d0 & Hin & Hp). exists m. split; [by apply known_cons|]. exists d0. split; [by right|done].
Qed.

(** The manifests of the tables are those of their publications. *)
Definition manifests_ok s : Prop := ∀ id m, recorded id m s → mf_publicationId m = id.

(** The new manifests of a change of the tables are activated ones, or stubs. *)
Definition own_manifest (id : jsstr) (v : V) : Prop :=
  (∃ m, v = encode_manifest m ∧ mf_publicationId m = id) ∨ parseDataPublicationManifest (Some v) = None.

(** What every reachable state satisfies. *)
Record delivering_ok (states : list (Delivering S V)) d : Prop := {
  do_ids : NoDup (ox_outboxId <$> ld_outbox (dl_ledger d));
  do_delivered o : o ∈ ld_outbox (dl_ledger d) → ox_deliveredAt o ≠ None → moved states (ox_publicationId o);
  do_owners row phase : (row, phase) ∈ dl_workers d → cl_owner row ∈ dl_owners d;
  do_leases row phase o : (row, phase) ∈ dl_workers d → o ∈ ld_outbox (dl_ledger d) →
    ox_outboxId o = cl_outboxId row → ox_leaseOwner o = Some (cl_owner row) →
    ox_publicationId o = cl_publicationId row;
  do_rows row phase : (row, phase) ∈ dl_workers d → known states (cl_publicationId row) (cl_manifest row);
  do_moved row phase : (row, phase) ∈ dl_workers d → phase = ToMarkActivated ∨ phase = ToClose →
    moved states (cl_publicationId row);
  do_loaded scope redisActive id m :
    RcLoaded scope redisActive id m ∈ dl_reconcilers d → known states id m;
  do_repaired id : RcRepaired id ∈ dl_reconcilers d → moved states id;
  do_runs run id : run ∈ ld_runs (dl_ledger d) → sr_status run = RunPublished →
    sr_publicationId run = Some id → moved states id;
  do_manifests : manifests_ok (dl_ledger d);
}.

(** What a change of the tables does to receipts: those after it were there before, perhaps with the
    lease dropped or under the [owner], and delivered before or among the [newly] delivered
    publications; or they are new. *)
Record receipts_from (owner : option jsstr) (newly : jsstr → Prop) s s' : Prop := {
  rc_ids : NoDup (ox_outboxId <$> ld_outbox s) → NoDup (ox_outboxId <$> ld_outbox s');
  rc_from o' : o' ∈ ld_outbox s' →
    (∃ o, o ∈ ld_outbox s ∧ ox_outboxId o' = ox_outboxId o ∧ ox_publicationId o' = ox_publicationId o ∧
       ox_manifest o' = ox_manifest o ∧
       (ox_leaseOwner o' = ox_leaseOwner o ∨ ox_leaseOwner o' = None ∨
        is_Some owner ∧ ox_leaseOwner o' = owner) ∧
       (ox_deliveredAt o' ≠ None → ox_deliveredAt o ≠ None ∨ newly (ox_publicationId o))) ∨
    (ox_leaseOwner o' = None ∧ ox_deliveredAt o' = None ∧ own_manifest (ox_publicationId o') (ox_manifest o'));
}.

(** What it does to the manifests of publications. *)
Definition publications_from s s' : Prop :=
  ∀ p', p' ∈ ld_publications s' →
    (∃ p, p ∈ ld_publications s ∧ dp_publicationId p' = dp_publicationId p ∧ dp_manifest p' = dp_manifest p) ∨
    own_manifest (dp_publicationId p') (dp_manifest p').

Lemma publications_from_same s s' : ld_publications s' = ld_publications s → publications_from s s'.
Proof. intros H p Hp. left. exists p. by rewrite <-H. Qed.

(** What it does to published runs. *)
Definition runs_from (newly : jsstr → Prop) s s' : Prop :=
  ∀ run' id, run' ∈ ld_runs s' → sr_status run' = RunPublished → sr_publicationId run' = Some id →
    (∃ run, run ∈ ld_runs s ∧ sr_status run = RunPublished ∧ sr_publicationId run = Some id) ∨ newly id.

Lemma receipts_from_same owner newly s s' : ld_outbox s' = ld_outbox s → receipts_from owner newly s s'.
Proof.
  intros H. split; rewrite H; [done|]. intros o Ho. left. exists o. split_and!; auto.
Qed.

Lemma runs_from_same newly s s' : ld_runs s' = ld_runs s → runs_from newly s s'.
Proof. intros H run id Hrun Hs Hid. left. exists run. by rewrite <-H. Qed.

Lemma own_manifest_id id v m :
  own_manifest id v → parseDataPublicationManifest (Some v) = Some m → mf_publicationId m = id.
Proof.
  intros [(m' & -> & Hid)|Hn] H; [|congruence]. unfold parseDataPublicationManifest in H. cbn in H.
  rewrite decode_encode in H. case_match; [|done]. by injection H as <-.
Qed.

Lemma manifests_kept owner newly s s' :
  manifests_ok s → receipts_from owner newly s s' → publications_from s s' → manifests_ok s'.
Proof.
  intros Hm [_ Hfrom] Hpub id m [(o' & Ho' & <- & Hp)|(p' & Hp' & <- & Hp)].
  - destruct (Hfrom o' Ho') as [(o & Ho & _ & Hid & Hman & _)|(_ & _ & Hown)]; [|by eapply own_manifest_id].
    apply Hm. left. exists o. split_and!; [done|done|]. by rewrite <-Hman.
  - destruct (Hpub p' Hp') as [(q & Hq & Hid & Hman)|Hown]; [|by eapply own_manifest_id].
    apply Hm. right. exists q. split_and!; [done|done|]. by rewrite <-Hman.
Qed.

(** A step keeps the invariant when the workers that remain are old or know their receipt. *)
Lemma delivering_kept owner newly states d d' :
  delivering_ok states d → receipts_from owner newly (dl_ledger d) (dl_ledger d') →
  publications_from (dl_ledger d) (dl_ledger d') →
  runs_from newly (dl_ledger d) (dl_ledger d') →
  (∀ id, newly id → moved (d' :: states) id) →
  (∀ row phase, (row, phase) ∈ dl_workers d' →
     cl_owner row ∈ dl_owners d' ∧
     ((∃ phase', (row, phase') ∈ dl_workers d ∧ owner ≠ Some (cl_owner row)) ∨
      ∀ o, o ∈ ld_outbox (dl_ledger d') → ox_outboxId o = cl_outboxId row →
        ox_leaseOwner o = Some (cl_owner row) → ox_publicationId o = cl_publicationId row) ∧
     known (d' :: states) (cl_publicationId row) (cl_manifest row) ∧
     (phase = ToMarkActivated ∨ phase = ToClose → moved (d' :: states) (cl_publicationId row))) →
  (∀ scope redisActive id m, RcLoaded scope redisActive id m ∈ dl_reconcilers d' → known (d' :: states) id m) →
  (∀ id, RcRepaired id ∈ dl_reconcilers d' → moved (d' :: states) id) → delivering_ok (d' :: states) d'.
Proof.
  intros [Hids Hdel _ Hlease _ _ _ _ Hruns Hman] Hrf Hpub Hrunsf Hnew Hw Hload Hrep.
  pose proof (manifests_kept _ _ _ _ Hman Hrf Hpub) as Hman'. destruct Hrf as [Hrids Hfrom]. split.
  - auto.
  - intros o' Ho' Hd. destruct (Hfrom o' Ho') as [(o & Ho & _ & Hp & _ & _ & Hdo)|(_ & Hn & _)]; [|done].
    rewrite Hp. destruct (Hdo Hd); [apply moved_cons|]; auto.
  - intros row phase Hin. by apply (Hw row phase).
  - intros row phase o' Hin Ho' Hid Hown. destruct (Hw row phase Hin) as (_ & [(phase' & Hin' & Hne)|Hk] & _).
    + destruct (Hfrom o' Ho') as [(o & Ho & Hoid & Hp & _ & Hl & _)|[Hn _]]; [|congruence].
      rewrite Hp. apply (Hlease row phase'); [done|done|congruence|].
      destruct Hl as [Hl|[Hl|[_ Hl]]]; congruence.
    + by apply Hk.
  - intros row phase Hin. by apply (Hw row phase).
  - intros row phase Hin. by apply (Hw row phase).
  - done.
  - done.
  - intros run' id Hr Hs Hid. destruct (Hrunsf run' id Hr Hs Hid) as [(run & Hrun & Hst & Hb)|]; [apply moved_cons|]; eauto.
  - done.
Qed.

(** An update of receipts leaves who they are for, and may drop a lease. *)
Definition keeps_receipt (set : Outbox V → Outbox V) : Prop := ∀ o,
  ox_outboxId (set o) = ox_outboxId o ∧ ox_publicationId (set o) = ox_publicationId o ∧
  ox_manifest (set o) = ox_manifest o ∧
  (ox_leaseOwner (set o) = ox_leaseOwner o ∨ ox_leaseOwner (set o) = None).

Lemma receipts_from_update newly (where_ : Outbox V → bool) set s :
  keeps_receipt set →
  (∀ o, o ∈ ld_outbox s → where_ o = true →
     ox_deliveredAt (set o) = ox_deliveredAt o ∨ newly (ox_publicationId o)) →
  receipts_from None newly s (with_outbox (update_where where_ set (ld_outbox s)).1 s).
Proof.
  intros Hset Hdel. split; cbn [ld_outbox with_outbox].
  - intros Hnd. rewrite update_keeps; [done|]. intros o Ho. by apply Hset.
  - intros o' (o & Ho & ->)%elem_of_update. left. exists o. split; [done|].
    destruct (where_ o) eqn:E; [|split_and!; auto].
    destruct (Hset o) as (? & ? & ? & Hl). split_and!; [done|done|done|naive_solver|].
    intros Hn. destruct (Hdel o Ho E) as [Hd|Hd]; [left; by rewrite <-Hd|by right].
Qed.

(** What an operation on receipts alone does to the tables. *)
Definition tables_from (owner : option jsstr) (newly : jsstr → Prop) s s' : Prop :=
  receipts_from owner newly s s' ∧ publications_from s s' ∧ runs_from newly s s'.

Lemma tables_from_refl owner newly s : tables_from owner newly s s.
Proof. split_and!; [by apply receipts_from_same|by apply publications_from_same|by apply runs_from_same]. Qed.

Lemma update_receipt_from newly (where_ : Outbox V → bool) set s :
  keeps_receipt set → (∀ o, ox_deliveredAt (set o) = ox_deliveredAt o) →
  tables_from None newly s (update_receipt where_ set s).1.
Proof.
  intros Hset Hd. split_and!; [|by apply publications_from_same|by apply runs_from_same].
  apply receipts_from_update; auto.
Qed.

Lemma delivery_failed_from newly now row stale error s :
  tables_from None newly s (delivery_failed now row stale error s).
Proof. unfold delivery_failed. destruct stale; apply update_receipt_from; try done; intros o; auto. Qed.

Lemma mark_stage_from newly now outboxId owner redis s :
  tables_from None newly s (markDataPublicationOutboxStage now outboxId owner redis s).1.
Proof. apply update_receipt_from; [|done]. intros o. auto. Qed.

(** Closing the receipts of publications in [newly]. *)
Lemma close_receipt_from newly now (where_ : Outbox V → bool) s s' b :
  (∀ o, o ∈ ld_outbox s → where_ o = true → newly (ox_publicationId o)) →
  close_receipt now where_ s = Ok (s', b) → tables_from None newly s s'.
Proof.
  intros Hnew. unfold close_receipt. destruct (update_where where_ _ (ld_outbox s)) as [table updated] eqn:Hup.
  assert (receipts_from None newly s (with_outbox table s)) as Hrec.
  { replace table with (table, updated).1 by done. rewrite <-Hup. apply receipts_from_update; [intros o|]; auto. }
  assert (∀ o, o ∈ updated → newly (ox_publicationId o)) as Hupd.
  { intros o Ho. unfold update_where in Hup. injection Hup as _ <-.
    apply list_elem_of_fmap in Ho as (x & -> & [Hw Hx]%list_elem_of_filter). cbn.
    apply Hnew; [done|]. by apply Is_true_true. }
  assert (tables_from None newly s (with_outbox table s)) as Hkeep.
  { split_and!; [done|by apply publications_from_same|by apply runs_from_same]. }
  destruct updated as [|row l]; [by intros [= <- _]|].
  destruct (ox_sourceRunId row) as [[|c runId]|]; [by intros [= <- _]| |by intros [= <- _]].
  intros H. apply result_bind_ok in H as (s1 & Hr & [= <- _]). apply update_runs_ok in Hr as [-> _].
  split_and!; [by destruct Hrec|by apply publications_from_same|]. intros run' id Hin Hst Hid.
  cbn [ld_runs with_runs] in Hin. apply elem_of_update in Hin as (run & Hrun & ->).
  destruct (publishable_run _ run); [|left; by exists run]. right. cbn in Hid. injection Hid as <-.
  apply Hupd. by left.
Qed.

(** A claim, and what it hands out. *)
Definition handed_out (owner : jsstr) (o : Outbox V) (row : Claimed V) : Prop :=
  cl_owner row = owner ∧ ox_outboxId o = cl_outboxId row ∧ ox_publicationId o = cl_publicationId row ∧
  parseDataPublicationManifest (Some (ox_manifest o)) = Some (cl_manifest row).

Lemma load_manifest id v s prepared :
  loadPreparedPublication id v s = Ok prepared → parseDataPublicationManifest (Some v) = Some prepared.1.
Proof.
  unfold loadPreparedPublication. destruct (parseDataPublicationManifest _); [|done].
  intros (items & _ & [= <-])%result_bind_ok. done.
Qed.

Lemma claim_rows_from owner dbNow expires rows s s' claimed :
  claim_rows owner dbNow expires rows s = Ok (s', claimed) →
  receipts_from (Some owner) (λ _, False) s s' ∧
  ∀ row, row ∈ claimed → ∃ o, o ∈ rows ∧ handed_out owner o row.
Proof.
  revert s claimed. induction rows as [|x rows IH]; intros s claimed; cbn [claim_rows].
  { intros [= <- <-]. split; [by apply receipts_from_same|by intros row ?%elem_of_nil]. }
  intros H. apply result_bind_ok in H as (updated & Hup & H).
  apply result_bind_ok in H as (prepared & Hload & H).
  apply result_bind_ok in H as ([s1 rest] & Hrest & [= <- <-]).
  apply update_checked_ok in Hup as [-> _]. apply load_manifest in Hload.
  apply IH in Hrest as ([Hids Hfrom] & Hrows). split.
  - split.
    + intros Hnd. apply Hids. cbn [ld_outbox with_outbox]. by rewrite update_keeps.
    + intros o' Ho'. destruct (Hfrom o' Ho') as [(o & Ho & Hi & Hp & Hm & Hl & Hd)|]; [|by right]. left.
      apply elem_of_update in Ho as (o0 & Ho0 & ->). exists o0. split; [done|].
      destruct (bool_decide _); [|done]. cbn in *. split_and!; [done|done|done|naive_solver|done].
  - intros row [->|Hin]%elem_of_cons; [exists x; split; [by left|done]|].
    destruct (Hrows row Hin) as (o & Ho & Hh). exists o. split; [by right|done].
Qed.

Lemma claim_from now owner locked limit leaseMs publicationId s s' claimed :
  claimDataPublicationOutbox now owner locked limit leaseMs publicationId s = (s', Ok claimed) →
  tables_from (Some owner) (λ _, False) s s' ∧
  ∀ row, row ∈ claimed → ∃ o, o ∈ ld_outbox s ∧ handed_out owner o row.
Proof.
  intros H. pose proof (claim_outbox now owner locked limit leaseMs publicationId s) as Hs.
  cbn zeta in Hs. rewrite H in Hs. cbn [fst] in Hs.
  unfold claimDataPublicationOutbox in H. repeat (case_match; [done|]).
  apply transaction_ok, claim_rows_from in H as (Hrec & Hrows). split.
  - split_and!; [done|apply publications_from_same|apply runs_from_same]; by rewrite Hs.
  - intros row Hin. destruct (Hrows row Hin) as (o & Ho & Hh). exists o. split; [|done].
    unfold due_receipts in Ho. apply elem_of_take in Ho as (i & Ho%list_elem_of_lookup_2 & _).
    by apply elem_of_js_sort, list_elem_of_filter in Ho as [_ Ho].
Qed.

Lemma runs_from_update newly (where_ : Run → bool) set s s' :
  ld_runs s' = (update_where where_ set (ld_runs s)).1 →
  (∀ run, where_ run = true → sr_status (set run) = RunPublished →
     sr_status run = RunPublished ∧ (sr_publicationId (set run) = sr_publicationId run ∨ sr_publicationId (set run) = None)) →
  runs_from newly s s'.
Proof.
  intros H Hset run' id Hin Hst Hid. left. rewrite H in Hin. apply elem_of_update in Hin as (run & Hrun & ->).
  exists run. split; [done|]. destruct (where_ run) eqn:E; [|done].
  destruct (Hset run E Hst) as [? [Hp|Hp]]; [|congruence]. split; [done|congruence].
Qed.

(** The services publish a run by delivering its receipt only, and stage no delivery manifest. *)
Definition by_receipt : Prop :=
  (∀ status, us_finishes usage status → status ≠ RunPublished) ∧
  (∀ receipt, us_receipt usage receipt → receipt ≠ None) ∧
  (∀ v, us_staged usage v → parseDataPublicationManifest (Some v) = None).

Lemma close_body_from newly id close done_ runStatus set s s' u :
  (∀ run, sr_status (set run) ≠ RunPublished) →
  (∀ p, dp_publicationId (close p) = dp_publicationId p ∧ dp_manifest (close p) = dp_manifest p) →
  close_body id close done_ runStatus set s = Ok (s', u) → tables_from None newly s s'.
Proof.
  intros Hset Hclose H. pose proof H as [Hp _]%close_body_publications.
  assert (publications_from s s') as Hpub.
  { intros p'. rewrite Hp. intros (p & Hin & ->)%elem_of_update. left. exists p. split; [done|].
    by case_match. }
  unfold close_body in H. cbn [update_where] in H.
  destruct (_ ≫= _) as [[|c r]|].
  2: { apply result_bind_ok in H as (s1 & Hr & [= <- _]). apply update_runs_ok in Hr as [-> _].
       split_and!; [by apply receipts_from_same|done|]. eapply runs_from_update; [done|].
       intros run _ Hst. by apply Hset in Hst. }
  all: destruct (find_by _ _ _); [|done]; inv_ok; simplify_eq/=;
    split_and!; [by apply receipts_from_same|done|by apply runs_from_same].
Qed.

(** The receipts of a preparation: some of those before. *)
Lemma prepare_outbox now uuid locked input s :
  ∃ keep : Outbox V → bool,
    ld_outbox (preparePublication emptyObject seasonExists eventExists now uuid locked input s).1 =
    filter (λ o, keep o) (ld_outbox s).
Proof.
  assert (∃ keep : Outbox V → bool, ld_outbox (remove_expired now locked s) = filter (λ o, keep o) (ld_outbox s))
    as [keep Hk].
  { unfold remove_expired. destruct (is_nil _).
    - exists (λ _, true). symmetry. by apply filter_all.
    - exists (λ o, negb (bool_decide (ox_publicationId o ∈ expired_batch now locked s))). cbn.
      apply list_filter_iff. intros o. by rewrite !Is_true_true, negb_true_iff, not_true_iff_false. }
  unfold preparePublication. destruct (negb _); [exists (λ _, true); symmetry; by apply filter_all|].
  exists keep. rewrite <-Hk. unfold insert_publication. by repeat case_match.
Qed.

Lemma prepare_from newly now uuid locked input s :
  parseDataPublicationManifest (Some (nullish (pr_manifest input) emptyObject)) = None →
  tables_from None newly s (preparePublication emptyObject seasonExists eventExists now uuid locked input s).1.
Proof.
  intros Hstub. split_and!.
  - destruct (prepare_outbox now uuid locked input s) as [keep Hk]. split; rewrite Hk.
    + intros Hnd. eapply sublist_NoDup; [done|]. apply fmap_sublist, sublist_filter.
    + intros o [_ Ho]%list_elem_of_filter. left. exists o. split_and!; auto.
  - unfold preparePublication. destruct (negb _); [by apply publications_from_same|].
    destruct (remove_expired_publications seasonExists eventExists now locked s) as (keep & Hp & _ & _).
    assert (∀ p, p ∈ ld_publications (remove_expired now locked s) → p ∈ ld_publications s) as Hsub.
    { intros p Hin. rewrite Hp in Hin. by apply list_elem_of_filter in Hin as [_ Hin]. }
    unfold insert_publication. intros p Hin.
    repeat case_match; cbn in Hin; try (left; exists p; by auto).
    apply elem_of_app in Hin as [Hin|Hin]; [left; exists p; by auto|right].
    apply list_elem_of_singleton in Hin as ->. by right.
  - destruct (preparePublication_runs emptyObject seasonExists eventExists now uuid locked input s)
      as (where_ & now' & Hruns). eapply runs_from_update; [exact Hruns|]; auto.
Qed.

Lemma activate_from newly now input s :
  ai_outbox input ≠ None → tables_from None newly s (activatePublication now input s).1.
Proof.
  intros Hr. destruct (activatePublication now input s) as [t [u|e]] eqn:E.
  2: { apply transaction_throw in E as [_ ->]. apply tables_from_refl. }
  apply activatePublication_ok in E as [target Ha]. cbn [fst].
  assert (mf_publicationId (ai_manifest input) = ai_publicationId input) as Hid
    by (rewrite <-(ac_id _ _ _ _ _ Ha); apply (ac_manifest _ _ _ _ _ Ha)).
  split_and!.
  - pose proof (ac_outbox _ _ _ _ _ Ha) as Hout. pose proof (ac_fresh _ _ _ _ _ Ha) as Hfresh.
    destruct (ai_outbox input) as [outboxId|]; [|done].
    destruct (find_by _ _ _) eqn:Hfind; [by apply receipts_from_same|]. cbn in Hout.
    split; rewrite Hout.
    + intros Hnd. rewrite fmap_app. apply NoDup_app. split_and!; [done| |by apply NoDup_singleton].
      intros x (o & -> & Ho)%list_elem_of_fmap Hx%list_elem_of_singleton. by apply (Hfresh outboxId o).
    + intros o [Ho|Ho]%elem_of_app; [left; exists o; split_and!; auto|right].
      apply list_elem_of_singleton in Ho as ->. split_and!; [done|done|]. left. by exists (ai_manifest input).
  - intros p' Hp'. rewrite (ac_publications _ _ _ _ _ Ha) in Hp'. apply list_elem_of_fmap in Hp' as (p & -> & Hp).
    unfold activated. destruct (bool_decide (dp_publicationId p = _)) eqn:Ep.
    + right. apply bool_decide_eq_true in Ep. left. exists (ai_manifest input). split; [done|]. cbn. congruence.
    + left. exists p. by case_match.
  - eapply runs_from_update; [apply (ac_runs _ _ _ _ _ Ha)|]. intros run _ Hst. cbn in Hst.
    by destruct (ai_outbox input).
Qed.

Lemma sync_step_from newly s s' :
  by_receipt → sync_step emptyObject seasonExists eventExists bind_null usage s s' → tables_from None newly s s'.
Proof.
  intros (Hfin & Hrec & Hstub). pose proof (tables_from_refl None newly s) as Hsame.
  set (P t := tables_from None newly s t). change (P s) in Hsame.
  assert (∀ t, ld_outbox t = ld_outbox s → ld_publications t = ld_publications s → runs_from newly s t → P t)
    as Hruns by (intros t Ho Hp Hr; split_and!; [by apply receipts_from_same|by apply publications_from_same|done]).
  destruct 1 as [now uuid input|now runId items|now runId input _ Hf|now runId error|now uuid locked input Hst| |
    now input Hr| |].
  - unfold startRun. destruct (negb _); [exact Hsame|]. destruct (find_by _ _ _); [exact Hsame|].
    destruct (negb _); [exact Hsame|].
    apply Hruns; [done|done|]. intros run id Hin Hrs Hid.
    apply elem_of_app in Hin as [Hin|Hin]; [left; by exists run|].
    by apply list_elem_of_singleton in Hin as ->.
  - unfold upsertItems. rewrite upsert_chunks_only. apply Hruns; [done|done|by apply runs_from_same].
  - apply (transaction_cases _ s P); [done|]. intros t [] H.
    unfold finish_body in H. destruct (find_by _ _ _); [|done]. inv_ok.
    match goal with H : update_runs _ _ _ = _ |- _ => apply update_runs_ok in H as [-> _] end. simplify_eq.
    apply Hruns; [done|done|]. eapply runs_from_update; [done|]. intros run _ Hst. by apply Hfin in Hst.
  - apply (transaction_cases _ s P); [done|]. intros t [] H. inv_ok.
    match goal with H : update_runs _ _ _ = _ |- _ => apply update_runs_ok in H as [-> _] end. simplify_eq.
    apply Hruns; [done|done|]. by eapply runs_from_update.
  - by apply prepare_from, Hstub.
  - unfold stagePublicationItems. destruct (negb _); [exact Hsame|]. destruct (mapM _ _); [|exact Hsame].
    destruct (negb _); [exact Hsame|]. apply Hruns; [done|done|by apply runs_from_same].
  - by apply activate_from, Hrec.
  - apply (transaction_cases _ s P); [done|]. intros t [] H. by eapply close_body_from; [| |done].
  - apply (transaction_cases _ s P); [done|]. intros t [] H. by eapply close_body_from; [| |done].
Qed.

(** ** When the pointer is moved *)

(** What the statuses of the activation script say of the pointer. *)
Definition status_points (m : Manifest) (status : ActivateStatus (V := V)) r : Prop :=
  match status with AIdempotent _ | APublished _ => pointed m r | _ => True end.

Lemma candidate_points m ak current r r' status :
  activeDataPublicationKey (manifest_scope m) = Ok ak → publish_candidate ak m current r = (r', status) →
  status_points m status r'.
Proof.
  intros Hak. unfold publish_candidate. destruct (check_stage _ r) as [st|] eqn:Hst.
  { intros [= _ <-]. revert Hst. induction (mf_items m) as [|i its IH]; [done|]. cbn [check_stage].
    destruct (r_get (mi_key i) r); [|by intros [= <-]]. destruct (negb _); [by intros [= <-]|exact IH]. }
  intros H. assert (r_get ak r' = Some (encode_manifest m)) as Hget.
  { destruct current as [[raw c]|]; injection H as <- _; rewrite ?get_expire_items, get_set; by rewrite decide_True. }
  assert (pointed m r') by (exists (manifest_scope m), ak, (encode_manifest m), m; by rewrite decode_encode).
  by destruct status.
Qed.

Lemma script_points m ak r r' status :
  activeDataPublicationKey (manifest_scope m) = Ok ak → activate_script ak m r = (r', status) →
  status_points m status r'.
Proof.
  intros Hak. unfold activate_script. destruct (r_get ak r) as [raw|] eqn:Hr; [|by apply candidate_points].
  destruct (decode_manifest raw) as [current|] eqn:Hd; [|by intros [= _ <-]].
  case_bool_decide as Hid.
  { destruct (same_publication current m) eqn:Hsame; intros [= <- <-]; [|done].
    exists (manifest_scope m), ak, raw, current. unfold same_publication in Hsame. boolsolve. by split_and!. }
  destruct (_ <? _); [by intros [= _ <-]|]. destruct (_ && _); [by intros [= _ <-]|]. by apply candidate_points.
Qed.

(** An activation that is neither refused nor stale leaves the pointer at the publication. *)
Lemma activate_points m r r' activation :
  activateDataPublicationPointer m r = (r', Ok activation) → pb_stale activation = false → pointed m r'.
Proof.
  unfold activateDataPublicationPointer. destruct (activeDataPublicationKey _) as [ak|e] eqn:Hak; [|done].
  destruct (activate_script ak m r) as [r1 status] eqn:E. pose proof (script_points _ _ _ _ _ Hak E) as Hp.
  destruct status as [| |raw|raw|key|key|raw]; cbn [status_points] in Hp; intros [= <- Ha] Hs; try done.
  by subst activation.
Qed.

Lemma repair_points scope redisActive m r r' :
  repair_pointer scope redisActive m r = (r', Ok ()) → pointed m r'.
Proof.
  unfold repair_pointer. destruct redisActive as [active|].
  - unfold compareAndSwapDataPublicationPointer. destruct (activeDataPublicationKey scope) as [ak|e] eqn:Hak; [|done].
    unfold swap_script. destruct (r_get ak r) as [raw|]; [|done]. destruct (decode_manifest raw); [|done].
    case_bool_decide; [done|]. destruct (persist_existing _ r) as [r1 [k|]]; [done|]. intros [= <-].
    exists scope, ak, (encode_manifest m), m. by rewrite get_set, decide_True, decode_encode.
  - destruct (activateDataPublicationPointer m r) as [r1 [a|e]] eqn:E; [|done]. cbn [result_bind].
    destruct (pb_stale a) eqn:Ha; [done|]. intros [= <-]. by eapply activate_points.
Qed.

(** ** The steps *)

Lemma known_own d past id m : mf_publicationId m = id → recorded id m (dl_ledger d) → known (d :: past) id m.
Proof. intros Hid Hr. split; [done|]. exists d. split; [by left|done]. Qed.

Lemma moved_own d past id m : known past id m → pointed m (dl_redis d) → moved (d :: past) id.
Proof. intros Hk Hp. exists m. split; [by apply known_cons|]. exists d. split; [by left|done]. Qed.

(** Beyond the pointer. *)
Definition past_pointer (phase : Phase) : Prop := phase = ToMarkActivated ∨ phase = ToClose.

(** What a reconciler knows. *)
Definition reconciler_ok (states : list (Delivering S V)) (rc : Reconciling) : Prop :=
  match rc with
  | RcFound _ _ => True
  | RcLoaded _ _ id m => known states id m
  | RcRepaired id => moved states id
  end.

(** A step that claims nothing. *)
Lemma step_kept newly d past d' :
  delivering_ok (d :: past) d → dl_owners d' = dl_owners d →
  tables_from None newly (dl_ledger d) (dl_ledger d') → (∀ id, newly id → moved (d' :: d :: past) id) →
  (∀ row phase, (row, phase) ∈ dl_workers d' → ∃ phase', (row, phase') ∈ dl_workers d ∧
     (past_pointer phase → past_pointer phase' ∨ moved (d' :: d :: past) (cl_publicationId row))) →
  (∀ rc, rc ∈ dl_reconcilers d' → rc ∈ dl_reconcilers d ∨ reconciler_ok (d' :: d :: past) rc) →
  delivering_ok (d' :: d :: past) d'.
Proof.
  intros Hok Howners (Hrec & Hpub & Hruns) Hnew Hw Hr.
  apply (delivering_kept None newly (d :: past) d); try done.
  - intros row phase Hin. destruct (Hw row phase Hin) as (phase' & Hin' & Hph). split_and!.
    + rewrite Howners. by apply (do_owners _ d Hok row phase').
    + left. by exists phase'.
    + by apply known_cons, (do_rows _ d Hok row phase').
    + intros Hp. destruct (Hph Hp) as [Hp'|]; [|done]. by apply moved_cons, (do_moved _ d Hok row phase').
  - intros scope active id m Hin. destruct (Hr _ Hin) as [Hin'|]; [|done].
    by apply known_cons, (do_loaded _ d Hok scope active).
  - intros id Hin. destruct (Hr _ Hin) as [Hin'|]; [|done]. by apply moved_cons, (do_repaired _ d Hok).
Qed.

(** The statement of a phase. *)
Lemma deliver_phase_from now row phase s r s' r' next :
  deliver_phase now row phase s r = (s', r', next) →
  (∀ o, o ∈ ld_outbox s → ox_outboxId o = cl_outboxId row → ox_leaseOwner o = Some (cl_owner row) →
     ox_publicationId o = cl_publicationId row) →
  tables_from None (λ id, id = cl_publicationId row ∧ past_pointer phase) s s' ∧
  ∀ phase', next = inl phase' → past_pointer phase' → past_pointer phase ∨ pointed (cl_manifest row) r'.
Proof.
  intros H Hlease. set (newly id := id = cl_publicationId row ∧ past_pointer phase).
  pose proof (tables_from_refl None newly s) as Hsame.
  destruct phase as [| | | | |stale error]; cbn [deliver_phase] in H.
  - destruct (stageDataPublicationItems _ _ r) as [r1 [u|e]]; injection H as <- <- <-;
      (split; [done|]); by intros phase' [= <-] [|].
  - destruct (mark_stage_from newly now (cl_outboxId row) (cl_owner row) false s).
    destruct (markDataPublicationOutboxStage _ _ _ _ s) as [s1 []]; injection H as <- <- <-;
      (split; [done|]); by intros phase' [= <-] [|].
  - destruct (activateDataPublicationPointer _ r) as [r1 [a|e]] eqn:E; cycle 1.
    { injection H as <- <- <-. split; [done|]. by intros phase' [= <-] [|]. }
    destruct (pb_stale a) eqn:Ha; injection H as <- <- <-; (split; [done|]); [by intros phase' [= <-] [|]|].
    intros phase' _ _. right. by eapply activate_points.
  - pose proof (mark_stage_from newly now (cl_outboxId row) (cl_owner row) true s) as Hm.
    destruct (markDataPublicationOutboxStage _ _ _ _ s) as [s1 []]; injection H as <- <- <-; (split; [done|]);
      intros phase' _ _; left; by left.
  - assert (∀ s1 b, markDataPublicationOutboxDelivered now (cl_outboxId row) (cl_owner row) s = (s1, b) →
      tables_from None newly s s1) as Hclose.
    { intros s1 [b|e] Hd; [|by apply transaction_throw in Hd as [_ ->]].
      apply transaction_ok in Hd. eapply close_receipt_from; [|done]. intros o Ho Hl. unfold leased_by in Hl.
      boolsolve. split; [by apply Hlease|by right]. }
    destruct (markDataPublicationOutboxDelivered _ _ _ s) as [s1 b] eqn:E. specialize (Hclose _ _ eq_refl).
    destruct b as [[]|e]; injection H as <- <- <-; (split; [done|]); [done|done|by intros phase' [= <-] [|]].
  - injection H as <- <- <-. split; [apply delivery_failed_from|done].
Qed.

Lemma worker_step_ok row phase now next d past d' :
  delivering_ok (d :: past) d → (row, phase) ∈ dl_workers d →
  deliver_phase now row phase (dl_ledger d) (dl_redis d) = (dl_ledger d', dl_redis d', next) →
  dl_owners d' = dl_owners d → dl_reconcilers d' = dl_reconcilers d →
  (∀ w, w ∈ dl_workers d' → w ∈ dl_workers d ∨ ∃ phase', w = (row, phase') ∧ (past_pointer phase' → next = inl phase')) →
  delivering_ok (d' :: d :: past) d'.
Proof.
  intros Hok Hin Hphase Howners Hrcs Hw.
  assert (past_pointer phase → moved (d' :: d :: past) (cl_publicationId row)) as Hmoved
    by (intros Hp; by apply moved_cons, (do_moved _ d Hok row phase)).
  destruct (deliver_phase_from now row phase _ _ _ _ _ Hphase) as [Htables Hnext].
  { intros o. by apply (do_leases _ d Hok row phase). }
  eapply step_kept; [done|done|exact Htables| | |].
  - intros id [-> Hp]. by apply Hmoved.
  - intros row' phase' [Hold|(phase2 & [= -> ->] & Hp)]%Hw; [exists phase'; split; [done|by left]|].
    exists phase. split; [done|]. intros Hpast.
    destruct (Hnext phase2 (Hp Hpast) Hpast) as [|Hpoint]; [by left|right].
    eapply moved_own; [by apply (do_rows _ d Hok row phase)|done].
  - intros rc. rewrite Hrcs. by left.
Qed.

(** A claim hands out receipts whose manifests the tables hold. *)
Lemma claim_step_ok now owner locked limit leaseMs publicationId s claimed d past :
  delivering_ok (d :: past) d → owner ∉ dl_owners d →
  claimDataPublicationOutbox now owner locked limit leaseMs publicationId (dl_ledger d) = (s, Ok claimed) →
  let d' := mkDelivering s (dl_redis d) (((λ row, (row, ToStage)) <$> claimed) ++ dl_workers d)
              (dl_reconcilers d) (owner :: dl_owners d) in
  delivering_ok (d' :: d :: past) d'.
Proof.
  intros Hok Hfresh ((Hrec & Hpub & Hruns) & Hrows)%claim_from d'.
  apply (delivering_kept (Some owner) (λ _, False) (d :: past) d); try done.
  - intros row phase [Hin|Hin]%elem_of_app.
    + apply list_elem_of_fmap in Hin as (row' & [= -> ->] & Hin).
      destruct (Hrows row' Hin) as (o & Ho & Hown & Hoid & Hop & Hman).
      split_and!; [rewrite Hown; by left| | |by intros [|]].
      * right. cbn [dl_ledger]. intros o' Ho' Hid Hl.
        destruct (rc_from _ _ _ _ Hrec o' Ho') as [(o0 & Ho0 & Hi & Hp & _)|[Hn _]]; [|cbn in Ho'; congruence].
        rewrite Hp, <-Hop. f_equal. apply (NoDup_fmap_inj_in ox_outboxId (ld_outbox (dl_ledger d)));
          [apply Hok|done|done|congruence].
      * assert (recorded (cl_publicationId row') (cl_manifest row') (dl_ledger d)) as Hr by (left; by exists o).
        apply known_cons, known_own; [|done]. by apply (do_manifests _ d Hok).
    + pose proof (do_owners _ d Hok row phase Hin) as Hown. split_and!; [by right| | |].
      * left. exists phase. split; [done|]. intros [= ->]. done.
      * by apply known_cons, (do_rows _ d Hok row phase).
      * intros Hp. by apply moved_cons, (do_moved _ d Hok row phase).
  - intros scope active id m Hin. by apply known_cons, (do_loaded _ d Hok scope active).
  - intros id Hin. by apply moved_cons, (do_repaired _ d Hok).
Qed.

(** The steps of a reconciler. *)
Lemma load_recorded id s prepared :
  loadDataPublicationDelivery id s = Ok prepared → recorded id prepared.1 s.
Proof.
  unfold loadDataPublicationDelivery. destruct (find_by _ _ _) as [p|] eqn:Hf; [|done].
  apply find_by_Some in Hf as [Hin Hid]. intros Hl%load_manifest. right. by exists p.
Qed.

Lemma delivery_step_ok d past d' :
  by_receipt → delivery_step d d' → delivering_ok (d :: past) d → delivering_ok (d' :: d :: past) d'.
Proof.
  intros Husage Hstep Hok.
  destruct Hstep as [s Hs|r|now owner locked limit leaseMs pid s claimed Hfresh Hc|
    row phase before after now s r phase' Hd Hp|row phase before after now s r outcome Hd Hp|
    row phase before after now s r next error Hd Hp|row phase before after error Hd|workers rcs Hsub Hrcs|
    scope season active Hf|scope id active prepared before after Hd Hl|scope active id m before after r Hd Hr|
    now id before after s b Hd Hm].
  - apply (step_kept (λ _, False)); try done; [by apply sync_step_from| |by left].
    intros row phase Hin. exists phase. split; [done|by left].
  - apply (step_kept (λ _, False)); try done; [apply tables_from_refl| |by left].
    intros row phase Hin. exists phase. split; [done|by left].
  - by eapply claim_step_ok.
  - eapply (worker_step_ok row phase now); [done|rewrite Hd; set_solver|exact Hp|done|done|]. rewrite Hd.
    cbn [dl_workers]. intros w [->|Hw]%elem_of_cons; [right; by exists phase'|left; set_solver].
  - eapply (worker_step_ok row phase now); [done|rewrite Hd; set_solver|exact Hp|done|done|]. rewrite Hd.
    cbn [dl_workers]. intros w Hw. left. set_solver.
  - eapply (worker_step_ok row phase now); [done|rewrite Hd; set_solver|exact Hp|done|done|]. rewrite Hd.
    cbn [dl_workers]. intros w [->|Hw]%elem_of_cons; [right|left; set_solver].
    exists (ToFail false error). split; [done|]. by intros [|].
  - apply (step_kept (λ _, False)); try done; [apply tables_from_refl| |by left]. rewrite Hd. cbn [dl_workers].
    intros row' phase' [[= -> ->]|Hw]%elem_of_cons; [exists phase|exists phase']; (split; [set_solver|]); [|by left].
    by intros [|].
  - apply (step_kept (λ _, False)); try done; [apply tables_from_refl| |].
    + intros row phase Hin. exists phase. split; [by apply Hsub|by left].
    + intros rc Hin. left. by apply Hrcs.
  - apply (step_kept (λ _, False)); try done; [apply tables_from_refl| |].
    + intros row phase Hin. exists phase. split; [done|by left].
    + intros rc [->|Hin]%elem_of_cons; [by right|by left].
  - apply (step_kept (λ _, False)); try done; [apply tables_from_refl| |]; cbn [dl_workers dl_reconcilers].
    + intros row phase Hin. exists phase. split; [done|by left].
    + rewrite Hd. intros rc [->|Hin]%elem_of_cons; [right|left; set_solver]. apply load_recorded in Hl.
      apply known_cons, known_own; [by apply (do_manifests _ d Hok)|done].
  - apply (step_kept (λ _, False)); try done; [apply tables_from_refl| |]; cbn [dl_workers dl_reconcilers].
    + intros row phase Hin. exists phase. split; [done|by left].
    + rewrite Hd. intros rc [->|Hin]%elem_of_cons; [right|left; set_solver].
      apply repair_points in Hr. eapply moved_own; [|done].
      apply (do_loaded _ d Hok scope active). rewrite Hd. set_solver.
  - assert (moved (d :: past) id) as Hid by (apply (do_repaired _ d Hok); rewrite Hd; set_solver).
    apply transaction_ok, (close_receipt_from (λ i, i = id)) in Hm.
    2: { intros o _ Hl. boolsolve. by subst id. }
    apply (step_kept (λ i, i = id)); try done; cbn [dl_workers dl_reconcilers].
    + intros ? ->. by apply moved_cons.
    + intros row phase Hin. exists phase. split; [done|by left].
    + rewrite Hd. intros rc Hin. left. set_solver.
Qed.

Lemma execution_ok s0 r0 states :
  by_receipt → ld_outbox s0 = [] → ld_runs s0 = [] → ld_publications s0 = [] → execution s0 r0 states →
  ∃ d past, states = d :: past ∧ delivering_ok (d :: past) d.
Proof.
  intros Husage Ho Hr Hp Hex. induction Hex as [|d past d' _ IH Hstep].
  - eexists _, _. split; [done|].
    split; cbn [dl_ledger dl_workers dl_reconcilers]; rewrite ?Ho, ?Hr; try constructor.
    all: try (intros; exfalso; by eapply not_elem_of_nil).
    intros id m [(o & Hin & _)|(q & Hin & _)]; cbn in Hin; [rewrite Ho in Hin|rewrite Hp in Hin];
      by apply elem_of_nil in Hin.
  - destruct IH as (d0 & past0 & [= <- <-] & Hok). exists d', (d :: past). split; [done|].
    by apply delivery_step_ok.
Qed.
End system.

(** ** Properties of the tables *)

(** C21: from empty tables, whatever operations on runs, items, publications and receipts any number
    of processes interleave, a scope never has two active publications; once it has one it always has
    one, whose revision never falls, and which changes only to a higher revision. *)
Theorem active_publication_advances {V : Type} `{!Codec V} `{!JsonText V} (emptyObject : V)
    (seasonExists : Z → bool) (eventExists : Z → Z → bool) (bind_null : option json) (usage : Usage V)
    (s0 s s' : Ledger V) (dataset : Dataset) (season : SeasonRef) (eventId : option Z) (p : Publication V)
    (Hempty : ld_publications s0 = [] ∧ ld_runs s0 = [])
    (Hreach : rtc (ledger_step emptyObject seasonExists eventExists bind_null usage) s0 s)
    (Hlater : rtc (ledger_step emptyObject seasonExists eventExists bind_null usage) s s')
    (Hin : p ∈ ld_publications s) (Hactive : dp_status p = Active)
    (Hscope : scope_of p = (dataset, Some (sn_seasonId season), eventId)) :
  findActivePublication dataset season eventId s = Some (prepared_of p) ∧
  (∀ q, q ∈ ld_publications s → scope_of q = scope_of p → dp_status q = Active → q = p) ∧
  ∃ p', findActivePublication dataset season eventId s' = Some p' ∧ pp_status p' = Active ∧
    revision_of p ≤ pp_revision p' ∧
    (pp_revision p' = revision_of p → pp_publicationId p' = dp_publicationId p).
Proof.
  pose proof (tables_ok_reachable _ _ _ _ _ _ _ Hreach
    (tables_ok_empty _ (proj1 Hempty) (proj2 Hempty))) as Hok.
  pose proof (tables_ok_reachable _ _ _ _ _ _ _ Hlater Hok) as Hok'.
  assert (∀ (t : Ledger V) q, publications_ok t → q ∈ ld_publications t → dp_status q = Active →
    scope_of q = (dataset, Some (sn_seasonId season), eventId) →
    findActivePublication dataset season eventId t = Some (prepared_of q)) as Hfind.
  { intros t q Ht Hq Ha Hs. injection Hs as <- Hs <-. by apply findActivePublication_unique. }
  split_and!.
  - by apply Hfind; [apply Hok|..].
  - intros q Hq Hs Ha. apply (pb_single s); [apply Hok|done..].
  - destruct (active_advances _ _ _ _ _ _ _ _ Hlater Hok Hin Hactive) as (p' & Hp' & Ha' & Hs' & Hr & Hid).
    exists (prepared_of p'). split_and!; [|done|done|done].
    apply Hfind; [apply Hok'|done|done|congruence].
Qed.

(** a run that failed, completed or was skipped keeps that outcome, and its identity, whatever
    happens later. *)
Theorem run_outcome_final {V : Type} `{!Codec V} `{!JsonText V} (emptyObject : V)
    (seasonExists : Z → bool) (eventExists : Z → Z → bool) (bind_null : option json) (usage : Usage V)
    (s0 s s' : Ledger V) (r : Run)
    (Hempty : ld_publications s0 = [] ∧ ld_runs s0 = [])
    (Hreach : rtc (ledger_step emptyObject seasonExists eventExists bind_null usage) s0 s)
    (Hlater : rtc (ledger_step emptyObject seasonExists eventExists bind_null usage) s s')
    (Hin : r ∈ ld_runs s) (Hfinal : sr_status r ∈ [RunFailed; RunCompleted; RunSkipped]) :
  ∃ r', find_by sr_runId (sr_runId r) (ld_runs s') = Some r' ∧ sr_identity r' = sr_identity r ∧
    sr_status r' = sr_status r.
Proof.
  pose proof (tables_ok_reachable _ _ _ _ _ _ _ Hreach
    (tables_ok_empty _ (proj1 Hempty) (proj2 Hempty))) as Hok.
  pose proof (tables_ok_reachable _ _ _ _ _ _ _ Hlater Hok) as Hok'.
  destruct (final_runs _ _ _ _ _ _ _ _ Hlater Hok Hin Hfinal) as (r' & Hin' & Hid & Hi & Hs).
  exists r'. split_and!; [|done|done]. rewrite <-Hid. by apply find_by_elem; [apply Hok'|].
Qed.

(** the manifests that the services stage (a state and a source time) are no delivery manifests;
    so the reconciler never recovers a staging publication: in every reachable state its recovery
    stops at loading the publication, and changes neither store. *)
Theorem staging_never_recovered {S V : Type} `{!Codec V} `{!JsonText V} `{!Redis S V} (emptyObject : V)
    (seasonExists : Z → bool) (eventExists : Z → Z → bool) (bind_null : option json) (usage : Usage V)
    (s0 s : Ledger V) (r : S) (now later : Z) (ids : ReconcileIds) (scope : Scope) (season : SeasonRef)
    (staging : jsstr * Z * jsstr * V)
    (Hstub : ∀ v, us_staged usage v → parseDataPublicationManifest (Some v) = None)
    (Hempty : ld_publications s0 = [] ∧ ld_runs s0 = [])
    (Hreach : rtc (ledger_step emptyObject seasonExists eventExists bind_null usage) s0 s)
    (Hfind : findStagingPublication (sc_dataset scope) season (sc_eventId scope) s = Some staging) :
  loadDataPublicationDelivery staging.1.1.1 s = Throw "INVALID_MANIFEST" ∧
  reconcile_staging now later ids scope season staging s r = (s, r, None).
Proof.
  assert (∀ p, p ∈ ld_publications s → dp_status p = Staging → us_staged usage (dp_manifest p)) as Hstaged.
  { assert (∀ p, p ∈ ld_publications s0 → dp_status p = Staging → us_staged usage (dp_manifest p)) as H0.
    { intros p Hp. rewrite (proj1 Hempty) in Hp. by apply elem_of_nil in Hp. }
    clear Hempty Hfind. induction Hreach as [|s1 s2 s3 Hstep _ IH]; [done|]. apply IH.
    intros p Hp Hs. destruct Hstep as [Hstep|Hstep].
    - destruct (sync_step_staging _ _ _ _ _ _ _ Hstep p Hp Hs); auto.
    - rewrite (oo_publications _ _ (outbox_step_only _ _ Hstep)) in Hp. auto. }
  assert (loadDataPublicationDelivery staging.1.1.1 s = Throw "INVALID_MANIFEST") as Hload.
  { unfold findStagingPublication in Hfind. 
    destruct (head _) as [row|] eqn:Hhead; [|done]. cbn in Hfind.
    assert (row ∈ ld_publications s ∧ dp_status row = Staging) as [Hin Hst].
    { apply head_Some_elem_of in Hhead. apply elem_of_js_sort, list_elem_of_filter in Hhead as [Hp Hin].
      split; [done|]. apply Is_true_true, andb_true_iff in Hp as [_ Hp]. by apply has_status_spec. }
    assert (staging.1.1.1 = dp_publicationId row) as Hid.
    { by destruct (pk_sourceRunId (dp_key row)) as [[|]|]; simplify_eq. }
    pose proof (tables_ok_reachable _ _ _ _ _ _ _ Hreach
      (tables_ok_empty _ (proj1 Hempty) (proj2 Hempty))) as Hok.
    unfold loadDataPublicationDelivery. rewrite Hid, find_by_elem; [|apply Hok|done].
    unfold loadPreparedPublication. by rewrite Hstub by auto. }
  split; [done|]. destruct staging as [[[id rev] run] m]. unfold reconcile_staging.
  cbn in Hload. by rewrite Hload.
Qed.

(** C32: a claim loads every receipt it selects inside its transaction, and a receipt whose proof does
    not check makes it throw: then nothing is claimed, and a dispatch changes neither store. So as
    long as such a receipt is among the first due, no other receipt is delivered by a dispatch
    without a publication id. *)
Theorem corrupt_receipt_blocks_dispatch {S V : Type} `{!Codec V} `{!JsonText V} `{!Redis S V}
    (now : Z) (owner : jsstr) (locked : list jsstr) (limit : option Z) (publicationId : option jsstr)
    (s : Ledger V) (r : S) (o : Outbox V) (e : string)
    (Hdue : o ∈ due_receipts (js_date now) (nullish limit 20) publicationId locked s)
    (Hcorrupt : loadPreparedPublication (ox_publicationId o) (ox_manifest o) s = Throw e) :
  ∃ e', claimDataPublicationOutbox now owner locked limit None publicationId s = (s, Throw e') ∧
    dispatchDataPublicationOutbox now owner locked limit publicationId s r = (s, r, Throw e').
Proof.
  assert (∃ e', claimDataPublicationOutbox now owner locked limit None publicationId s = (s, Throw e'))
    as [e' He].
  { unfold claimDataPublicationOutbox. case_match; [by eexists|]. case_match; [by eexists|].
    case_match; [by eexists|].
    destruct (claim_rows_throws owner (js_date now) (js_date now + nullish None 60000 * 1000) _ s o e
      Hdue Hcorrupt) as [e' He'].
    exists e'. unfold transaction. by rewrite He'. }
  exists e'. split; [done|]. unfold dispatchDataPublicationOutbox. by rewrite He.
Qed.

(** C2: end to end: a publication prepared from a request, whose values are stored as its items, is
    activated with a receipt; a dispatch for it, in the next millisecond or later, with the pointer of
    the scope absent or older, claims the receipt, delivers it and fails nothing; its source run is
    then published, and the next reader of the scope gets the manifest and the values of the request
    from Redis, whatever other publishers did to Redis before. *)
Theorem activated_is_delivered {S V : Type} `{!Codec V} `{!CodecLaws V} `{!TextLaws V} `{!JsonText V}
    `{!Redis S V} `{!RedisLaws S V} (content : jsstr → V) (r0 r : S)
    (Hempty : ∀ k, r_get k r0 = None) (Hreach : rtc (sys_step content) r0 r)
    (now0 t1 t2 : Z) (input : PublishInput) (p : Manifest * list (SerializedItem V))
    (Hprepared : publication_of content now0 input p)
    (s s1 : Ledger V) (activation : ActivateInput) (outboxId owner : jsstr) (locked : list jsstr)
    (Hstored : stored input s)
    (Hid : ai_publicationId activation = pi_publicationId input)
    (Hmanifest : ai_manifest activation = p.1) (Hreceipt : ai_outbox activation = Some outboxId)
    (Hrun : ai_sourceRunId activation ≠ [])
    (Hfresh : find_by ox_publicationId (pi_publicationId input) (ld_outbox s) = None)
    (Hactivated : activatePublication t1 activation s = (s1, Ok ()))
    (Hlater : t1 ≤ js_date t2) (Hdate : js_date t2 / 1000 + 60000 ≤ MAX_DATE_MS)
    (Hlocked : outboxId ∉ locked) (Holder : pointer_older p.1 r) :
  ∃ s2 r2 values run,
    dispatchDataPublicationOutbox t2 owner locked (Some 1) (Some (pi_publicationId input)) s1 r =
      (s2, r2, Ok (mkDispatch 1 1 0)) ∧
    find_by sr_runId (ai_sourceRunId activation) (ld_runs s2) = Some run ∧
    sr_status run = RunPublished ∧ sr_publicationId run = Some (pi_publicationId input) ∧
    readActiveDataPublication (pi_scope input) r2 r2 = Ok (Some (p.1, values)) ∧
    Forall2 (λ f g, f.1 = g.1 ∧ same_value f.2 g.2) (pi_items input) values.
Proof.
  pose proof (reachable_sound content r0 r Hempty Hreach) as Hsound.
  pose proof Hprepared as (_ & Hprep & _).
  assert (∃ c id, pi_publicationId input = c :: id) as (c & id & Hcid).
  { destruct p as [m items]. pose proof (po_id_ok _ _ _ _ (prepare_ok _ _ _ _ Hprep)) as Hok.
    by destruct (pi_publicationId input); [|eexists _, _]. }
  destruct (ai_sourceRunId activation) as [|cr runId] eqn:Hrid; [done|]. clear Hrun.
  apply activatePublication_ok in Hactivated as [target Ha].
  pose proof (ac_outbox _ _ _ _ _ Ha) as Hout. rewrite Hreceipt, Hid, Hfresh in Hout. cbn [is_null] in Hout.
  set (o := new_outbox t1 outboxId activation) in *.
  assert (receipt_of (ld_outbox s) o outboxId (cr :: runId) s1) as Hrec.
  { split; try done; [|by cbn; rewrite Hrid]. intros x Hx.
    apply (ac_fresh _ _ _ _ _ Ha outboxId x); [done|by rewrite Hid|done]. }
  assert (loadPreparedPublication (c :: id) (ox_manifest o) s1 = Ok p) as Hload.
  { cbn. rewrite Hmanifest, <-Hcid. pose proof (proj1 (ac_rest _ _ _ _ _ Ha)) as Hits.
    apply (load_prepared content now0); [done| |].
    - unfold stored, items_of in *. by rewrite Hits.
    - unfold items_of. rewrite Hits, <-Hmanifest, <-Hid. apply (ac_items _ _ _ _ _ Ha). by rewrite Hreceipt. }
  assert (claimable (js_date t2) (Some (c :: id)) o = true) as Hclaim.
  { unfold claimable. cbn. rewrite Hid, Hcid, bool_decide_eq_true_2 by done.
    by rewrite (proj2 (Z.leb_le _ _) Hlater). }
  assert (∀ x, x ∈ ld_outbox s → ox_publicationId x ≠ c :: id) as Hothers.
  { intros x Hx Hxid. apply find_by_None in Hfresh. apply Hfresh. rewrite Hcid, <-Hxid.
    by apply list_elem_of_fmap_2. }
  unfold dispatchDataPublicationOutbox. rewrite Hcid.
  rewrite (claim_receipt t2 owner locked (ld_outbox s) o outboxId (cr :: runId) c id s1 p);
    [|done|by cbn; rewrite Hid|done..].
  set (row := mkClaimed outboxId owner (c :: id) p.1 p.2).
  set (s1' := with_outbox _ s1).
  destruct (deliver_prepared content now0 input p t2 row (ld_outbox s)
    (leased_row owner (js_date t2) (js_date t2 + 60000 * 1000) o) cr runId s1' r)
    as (s2 & r2 & o' & Hdel & Hsound2 & (previous & r1 & Hact & Hsound1) & _ & _ & _ & Hruns);
    [done|done|done|done|done|split; cbn; [reflexivity|apply Hrec..]|done| |].
  { intros run Hrun Hrunid. cbn in Hrun. rewrite (ac_runs _ _ _ _ _ Ha) in Hrun.
    apply elem_of_update in Hrun as (run0 & Hrun0 & ->). rewrite Hrid in *.
    destruct (bool_decide (sr_runId run0 = cr :: runId)) eqn:E; [|by apply bool_decide_eq_false in E].
    apply bool_decide_eq_true in E.
    pose proof (ac_checked _ _ _ _ _ Ha run0 Hrun0) as Hc. rewrite Hrid in Hc. by apply Hc. }
  cbn [deliver_all]. rewrite Hdel. cbn [length].
  assert (∃ ak, activeDataPublicationKey (pi_scope input) = Ok ak ∧ r_get ak r2 = Some (encode_manifest p.1))
    as (ak & Hak & Hget).
  { rewrite <-(publication_scope content now0 input p) by done.
    destruct (activeDataPublicationKey (manifest_scope p.1)) as [ak|e] eqn:Hak.
    2: { unfold activateDataPublicationPointer in Hact. rewrite Hak in Hact. done. }
    exists ak. split; [done|].
    pose proof (activate_sound content p ak r1 _ Hsound1 ltac:(by exists now0, input) Hak
      (f_equal snd Hact) eq_refl) as (Hget & _). by rewrite Hact in Hget. }
  destruct (sound_read_as content now0 input p p.1 ak r2) as (values & Hread & Hall); [done..|].
  destruct (ac_open _ _ _ _ _ Ha) as (run & Hfind & _ & _). rewrite Hrid in Hfind.
  exists s2, r2, values, (delivered_run t2 (c :: id) (published_run t1 activation run)).
  split_and!; [done| |done|done|done|done].
  rewrite Hruns, find_by_update by done. cbn. rewrite (ac_runs _ _ _ _ _ Ha), find_by_update, Hrid, Hfind by done.
  apply find_by_Some in Hfind as [_ Hfid]. cbn. rewrite bool_decide_eq_true_2 by done.
  unfold publishable_run. cbn. rewrite Hfid, Hreceipt, Hid, Hcid, !bool_decide_eq_true_2; [done|set_solver|done].
Qed.

(** C3: when services publish runs only through receipts and stage no delivery manifests, then in every
    execution from empty tables in which dispatchers, reconcilers, publishers, crashes, errors, lost
    answers and arbitrary changes of Redis interleave, with leases that expire under a dispatcher, a
    receipt is delivered only when, at the present or an earlier state, the tables held a manifest for
    its publication and a pointer in Redis named that publication with the items of that manifest; and
    so is the run of a publication published. *)
Theorem delivered_after_pointer {S V : Type} `{!Codec V} `{!CodecLaws V} `{!JsonText V} `{!Redis S V}
    `{!RedisLaws S V} (emptyObject : V)
    (seasonExists : Z → bool) (eventExists : Z → Z → bool) (bind_null : option json) (usage : Usage V)
    (s0 : Ledger V) (r0 : S) (d : Delivering S V) (past : list (Delivering S V))
    (Husage : by_receipt usage)
    (Hempty : ld_outbox s0 = [] ∧ ld_runs s0 = [] ∧ ld_publications s0 = [])
    (Hexecution : execution emptyObject seasonExists eventExists bind_null usage s0 r0 (d :: past)) :
  (∀ o, o ∈ ld_outbox (dl_ledger d) → ox_deliveredAt o ≠ None →
     moved (d :: past) (ox_publicationId o)) ∧
  ∀ run id, run ∈ ld_runs (dl_ledger d) → sr_status run = RunPublished →
    sr_publicationId run = Some id → moved (d :: past) id.
Proof.
  destruct Hempty as (Ho & Hr & Hp).
  destruct (execution_ok _ _ _ _ _ _ _ _ Husage Ho Hr Hp Hexecution) as (d0 & past0 & [= <- <-] & Hok).
  split; apply Hok.
Qed.

(** ** Concrete runs *)

#[export] Instance sample_text_laws : TextLaws sample_text.
Proof.
  split.
  - intros a b H. unfold canonicalJson, sample_codec. by rewrite H.
  - intros a b H. unfold postgresJsonbCanonicalJson, sample_codec. by rewrite H.
Qed.

(** Services that activate through receipts and stage stubs. *)
Definition sample_usage : Usage sample_text :=
  mkUsage (λ v, v = TextJson (JObject [])) (λ status, status ≠ RunPublished) (λ receipt, receipt ≠ None).

Notation sample_ledger_step :=
  (ledger_step (TextJson (JObject [])) (λ _, true) (λ _ _, true) None sample_usage) (only parsing).

Lemma sample_to_publishing : rtc sample_ledger_step sample_empty sample_publishing.
Proof.
  eapply rtc_l; [left; apply sample_step_start|].
  apply rtc_once. left. by apply sample_step_prepare.
Qed.

Lemma sample_to_staged : rtc sample_ledger_step sample_empty sample_staged.
Proof. eapply rtc_r; [apply sample_to_publishing|]. left. apply sample_step_stage. Qed.

Lemma sample_to_activated : rtc sample_ledger_step sample_empty sample_activated.
Proof.
  eapply rtc_r; [apply sample_to_staged|]. left. by apply sample_step_activate.
Qed.

Lemma sample_stored : stored sample_publish sample_staged.
Proof.
  split.
  - apply (bool_decide_unpack _). vm_compute. exact I.
  - intros name j [= -> ->]%list_elem_of_singleton.
    exists (mkPublicationItem sample_id (js "context") (jsonb_order sample_value) 2 (repeat 48 64)).
    split_and!; [|reflexivity|reflexivity]. vm_compute. by left.
Qed.

Lemma active_publication_advances_witness :
  ∃ p', findActivePublication DatasetMarket sample_season None sample_activated = Some p' ∧
    7 ≤ pp_revision p'.
Proof.
  destruct (head (ld_publications sample_activated)) as [p|] eqn:Hp; [|vm_compute in Hp; discriminate].
  assert (Some p = head (ld_publications sample_activated)) as Hp' by (symmetry; exact Hp).
  vm_compute in Hp'. injection Hp' as ->.
  destruct (active_publication_advances (TextJson (JObject [])) (λ _, true) (λ _ _, true) None sample_usage
    sample_empty sample_activated sample_activated DatasetMarket sample_season None _
    (conj eq_refl eq_refl) sample_to_activated (rtc_refl _ _) (head_Some_elem_of _ _ Hp) eq_refl eq_refl)
    as (_ & _ & p' & Hfind & _ & Hle & _).
  exists p'. split; [exact Hfind|exact Hle].
Defined.

Lemma staging_never_recovered_witness :
  let scope := mkScope DatasetMarket (js "2526") None in
  ∃ staging, findStagingPublication DatasetMarket sample_season None sample_staged = Some staging ∧
    reconcile_staging 1200000 1200000 (mkReconcileIds sample_outboxId [] [] []) scope sample_season staging
      sample_staged (∅ : memory sample_text) = (sample_staged, ∅, None).
Proof.
  cbn zeta.
  destruct (findStagingPublication DatasetMarket sample_season None sample_staged) as [staging|] eqn:Hs;
    [|vm_compute in Hs; discriminate].
  exists staging. split; [reflexivity|].
  refine (proj2 (staging_never_recovered (TextJson (JObject [])) (λ _, true) (λ _ _, true) None sample_usage
    sample_empty sample_staged ∅ 1200000 1200000 (mkReconcileIds sample_outboxId [] [] [])
    (mkScope DatasetMarket (js "2526") None) sample_season staging _ (conj eq_refl eq_refl)
    sample_to_staged Hs)).
  intros v Hv. cbn in Hv. subst v. reflexivity.
Defined.

Definition sample_failed : Ledger sample_text := (failRun 1050000 sample_runId (js "down") sample_started).1.

Lemma run_outcome_final_witness :
  let finished := (finishRun 1060000 sample_runId (mkFinish RunCompleted 1 None None true None None)
                     sample_failed).1 in
  ∃ r', find_by sr_runId sample_runId (ld_runs finished) = Some r' ∧ sr_status r' = RunFailed.
Proof.
  cbn zeta. set (finished := (finishRun _ _ _ sample_failed).1).
  destruct (head (ld_runs sample_failed)) as [r|] eqn:Hr; [|vm_compute in Hr; discriminate].
  assert (sr_runId r = sample_runId ∧ sr_status r = RunFailed) as [Hid Hst]
    by (vm_compute in Hr; injection Hr as <-; split; vm_compute; reflexivity).
  assert (rtc sample_ledger_step sample_empty sample_failed) as Hreach.
  { eapply rtc_l; [left; apply sample_step_start|]. apply rtc_once. left. apply ss_fail_run. }
  assert (rtc sample_ledger_step sample_failed finished) as Hlater.
  { apply rtc_once. left. apply ss_finish; [by left|]. cbn. discriminate. }
  destruct (run_outcome_final (TextJson (JObject [])) (λ _, true) (λ _ _, true) None sample_usage
    sample_empty sample_failed finished r (conj eq_refl eq_refl) Hreach Hlater (head_Some_elem_of _ _ Hr))
    as (r' & Hfind & _ & Hs); [rewrite Hst; by left|].
  exists r'. split; [rewrite <-Hid; exact Hfind|rewrite Hs; exact Hst].
Defined.

(** The items of the receipt are gone. *)
Definition sample_corrupt : Ledger sample_text := with_items [] sample_activated.

Lemma corrupt_receipt_blocks_dispatch_witness :
  ∃ e, dispatchDataPublicationOutbox 3000000 (js "owner") [] None None sample_corrupt
         (∅ : memory sample_text) = (sample_corrupt, ∅, Throw e).
Proof.
  destruct (head (due_receipts 3000000 20 None [] sample_corrupt)) as [o|] eqn:Ho;
    [|vm_compute in Ho; discriminate].
  assert (loadPreparedPublication (ox_publicationId o) (ox_manifest o) sample_corrupt = Throw "MISSING_ITEM")
    as Hcorrupt by (vm_compute in Ho; injection Ho as <-; vm_compute; reflexivity).
  destruct (corrupt_receipt_blocks_dispatch 3000000 (js "owner") [] None None sample_corrupt
    (∅ : memory sample_text) o "MISSING_ITEM") as (e & _ & He).
  - exact (head_Some_elem_of _ _ Ho).
  - exact Hcorrupt.
  - exists e. exact He.
Defined.

Lemma activated_is_delivered_witness :
  ∃ s2 r2 values,
    dispatchDataPublicationOutbox 3000000 (js "owner") [] (Some 1) (Some sample_id) sample_activated
      (∅ : memory sample_text) = (s2, r2, Ok (mkDispatch 1 1 0)) ∧
    readActiveDataPublication (pi_scope sample_publish) r2 r2 = Ok (Some (sample_prepared.1, values)).
Proof.
  destruct (activated_is_delivered sample_content ∅ (∅ : memory sample_text) lookup_empty (rtc_refl _ _)
    2000 2000000 3000000 sample_publish sample_prepared sample_publication sample_staged sample_activated
    sample_activation sample_outboxId (js "owner") [] sample_stored)
    as (s2 & r2 & values & run & Hd & _ & _ & _ & Hread & _).
  - reflexivity.
  - reflexivity.
  - reflexivity.
  - discriminate.
  - vm_compute. reflexivity.
  - exact sample_activates.
  - vm_compute. discriminate.
  - vm_compute. discriminate.
  - by intros ?%elem_of_nil.
  - intros ak current _ Hget. discriminate Hget.
  - exists s2, r2, values. split; [exact Hd|exact Hread].
Defined.

(** A dispatcher that claims and delivers the receipt of the sample. *)
Definition sample_claimed : Ledger sample_text :=
  (claimDataPublicationOutbox 3000000 (js "owner") [] (Some 1) None (Some sample_id) sample_activated).1.

Definition sample_row : Claimed sample_text :=
  mkClaimed sample_outboxId (js "owner") sample_id sample_prepared.1 sample_prepared.2.

Definition sample_marked (redis : bool) (s : Ledger sample_text) : Ledger sample_text :=
  (markDataPublicationOutboxStage 3000000 sample_outboxId (js "owner") redis s).1.

Definition sample_marked1 : Ledger sample_text := sample_marked false sample_claimed.
Definition sample_marked2 : Ledger sample_text := sample_marked true sample_marked1.

Definition sample_closed : Ledger sample_text :=
  (markDataPublicationOutboxDelivered 3000000 sample_outboxId (js "owner") sample_marked2).1.

Definition sample_items_store : memory sample_text :=
  (stageDataPublicationItems sample_prepared.1 sample_prepared.2 ∅).1.

Notation sample_delivery_step :=
  (delivery_step (TextJson (JObject [])) (λ _, true) (λ _ _, true) None sample_usage) (only parsing).

(** A state of the tables, Redis and the one dispatcher. *)
Definition sample_at (s : Ledger sample_text) (r : memory sample_text)
    (workers : list (Claimed sample_text * Phase)) : Delivering (memory sample_text) sample_text :=
  mkDelivering s r workers [] [js "owner"].

(** The stores are compared by name, the outcomes by computation. *)
Lemma result_of {A B : Type} (x : A * B) (b : B) : x.2 = b → x = (x.1, b).
Proof. intros <-. by destruct x. Qed.

Lemma sample_stage_eq :
  stageDataPublicationItems (cl_manifest sample_row) (cl_items sample_row) (∅ : memory sample_text) =
    (sample_items_store, Ok ()).
Proof.
  assert ((stageDataPublicationItems (cl_manifest sample_row) (cl_items sample_row)
    (∅ : memory sample_text)).2 = Ok ()) as H by (vm_compute; reflexivity).
  exact (result_of _ _ H).
Qed.

Lemma sample_activate_eq :
  activateDataPublicationPointer (cl_manifest sample_row) sample_items_store =
    (sample_store, Ok (mkPublishResult false sample_prepared.1 None)).
Proof.
  assert ((activateDataPublicationPointer (cl_manifest sample_row) sample_items_store).2 =
    Ok (mkPublishResult false sample_prepared.1 None)) as H by (vm_compute; reflexivity).
  exact (result_of _ _ H).
Qed.

Lemma sample_claims :
  sample_delivery_step (mkDelivering sample_activated ∅ [] [] [])
    (sample_at sample_claimed ∅ [(sample_row, ToStage)]).
Proof.
  refine (ds_claim _ _ _ _ _ (mkDelivering sample_activated ∅ [] [] []) 3000000 (js "owner") [] (Some 1)
    None (Some sample_id) sample_claimed [sample_row] _ _).
  - by intros ?%elem_of_nil.
  - vm_compute. reflexivity.
Qed.

Lemma sample_next s r phase s' r' phase' :
  deliver_phase 3000000 sample_row phase s r = (s', r', inl phase') →
  sample_delivery_step (sample_at s r [(sample_row, phase)]) (sample_at s' r' [(sample_row, phase')]).
Proof. intros H. by apply (ds_next _ _ _ _ _ (sample_at s r _) sample_row phase [] [] 3000000). Qed.

Lemma sample_stages :
  sample_delivery_step (sample_at sample_claimed ∅ [(sample_row, ToStage)])
    (sample_at sample_claimed sample_items_store [(sample_row, ToMarkStaged)]).
Proof. apply sample_next. cbn [deliver_phase]. by rewrite sample_stage_eq. Qed.

Lemma sample_marks redis s r :
  (markDataPublicationOutboxStage 3000000 sample_outboxId (js "owner") redis s).2 = true →
  sample_delivery_step (sample_at s r [(sample_row, if redis then ToMarkActivated else ToMarkStaged)])
    (sample_at (sample_marked redis s) r [(sample_row, if redis then ToClose else ToActivate)]).
Proof.
  intros H. apply sample_next. destruct redis; cbn [deliver_phase].
  all: by change (cl_outboxId sample_row) with sample_outboxId; change (cl_owner sample_row) with (js "owner");
    rewrite (result_of _ _ H).
Qed.

Lemma sample_activates_pointer :
  sample_delivery_step (sample_at sample_marked1 sample_items_store [(sample_row, ToActivate)])
    (sample_at sample_marked1 sample_store [(sample_row, ToMarkActivated)]).
Proof. apply sample_next. cbn [deliver_phase]. by rewrite sample_activate_eq. Qed.

Lemma sample_closes :
  sample_delivery_step (sample_at sample_marked2 sample_store [(sample_row, ToClose)])
    (sample_at sample_closed sample_store []).
Proof.
  refine (ds_end _ _ _ _ _ (sample_at sample_marked2 sample_store _) sample_row ToClose [] [] 3000000
    sample_closed sample_store Delivered eq_refl _). vm_compute. reflexivity.
Qed.

(** Its states, the last first. *)
Definition sample_past : list (Delivering (memory sample_text) sample_text) := [
  sample_at sample_marked2 sample_store [(sample_row, ToClose)];
  sample_at sample_marked1 sample_store [(sample_row, ToMarkActivated)];
  sample_at sample_marked1 sample_items_store [(sample_row, ToActivate)];
  sample_at sample_claimed sample_items_store [(sample_row, ToMarkStaged)];
  sample_at sample_claimed ∅ [(sample_row, ToStage)];
  mkDelivering sample_activated ∅ [] [] [];
  mkDelivering sample_staged ∅ [] [] [];
  mkDelivering sample_publishing ∅ [] [] [];
  mkDelivering sample_started ∅ [] [] [];
  mkDelivering sample_empty ∅ [] [] []].

Lemma sample_execution :
  execution (TextJson (JObject [])) (λ _, true) (λ _ _, true) None sample_usage sample_empty
    (∅ : memory sample_text) (sample_at sample_closed sample_store [] :: sample_past).
Proof.
  unfold sample_past.
  apply execution_step; [|exact sample_closes].
  apply execution_step; [|apply (sample_marks true); vm_compute; reflexivity].
  apply execution_step; [|exact sample_activates_pointer].
  apply execution_step; [|apply (sample_marks false); vm_compute; reflexivity].
  apply execution_step; [|exact sample_stages].
  apply execution_step; [|exact sample_claims].
  apply execution_step; [|by apply ds_tables, sample_step_activate].
  apply execution_step; [|apply ds_tables, sample_step_stage].
  apply execution_step; [|by apply ds_tables, sample_step_prepare].
  apply execution_step; [|apply ds_tables, sample_step_start].
  apply execution_start.
Qed.

Lemma delivered_after_pointer_witness :
  (∃ o, o ∈ ld_outbox sample_closed ∧ ox_deliveredAt o = Some 3000000) ∧
  moved (sample_at sample_closed sample_store [] :: sample_past) sample_id.
Proof.
  destruct (head (ld_outbox sample_closed)) as [o|] eqn:Ho; [|vm_compute in Ho; discriminate].
  assert (ox_deliveredAt o = Some 3000000 ∧ ox_publicationId o = sample_id) as [Hd Hid]
    by (vm_compute in Ho; injection Ho as <-; split; vm_compute; reflexivity).
  split; [exists o; split; [exact (head_Some_elem_of _ _ Ho)|exact Hd]|].
  rewrite <-Hid.
  apply (proj1 (delivered_after_pointer (TextJson (JObject [])) (λ _, true) (λ _ _, true) None sample_usage
    sample_empty (∅ : memory sample_text) (sample_at sample_closed sample_store []) sample_past
    ltac:(split; [intros status H; exact H|split; [intros receipt H; exact H|intros v ->; reflexivity]])
    (conj eq_refl (conj eq_refl eq_refl)) sample_execution)).
  - exact (head_Some_elem_of _ _ Ho).
  - rewrite Hd. discriminate.
Defined.
