(* ===== verification/FplStore.v ===== *)
(** * The tables of a season and their repositories ([src/repositories/{seasons,events,teams,players,
      phases,fixtures}.ts], [src/db/schemas/platform.schema.ts])

    The state is [FplTables]: the table of seasons, and of the other tables the rows of one season.
    Every statement names the season, so the rows of other seasons are neither read nor written.
    Columns nobody reads here are left out ([created_at], [updated_at], [total_points] of a player).
    Instants are microseconds; a [Date] holds whole milliseconds of them.  Text has no lone
    surrogates; PostgreSQL rejects the character 0.  An operation runs inside the transaction of its
    caller: it returns the new tables, or throws. *)

From S2P Require Import Prelude JsCollections JsNumber Json CoreEntities CoreSnapshot EventLives Postgres.

(** ** Rows *)

(** src: src/domain/season-lifecycle.ts:3-3 FplLifecycleState *)
Inductive FplLifecycleState : Type := ReferenceOnly | Completed | Preseason | Active | Closed.

#[export] Instance FplLifecycleState_eq_dec : EqDecision FplLifecycleState.
Proof. solve_decision. Defined.

(** The member [selectionRules] of [source_metadata] stands apart: it may be missing, or [null].
    src: src/db/schemas/platform.schema.ts:679-694 seasonsInFpl *)
Record SeasonRow := mkSeason {
  se_seasonId : Z;
  se_seasonCode : jsstr;
  se_lifecycleState : FplLifecycleState;
  se_isCurrent : bool;
  se_metadata : list (jsstr * json);
  se_selectionRules : option (option SelectionRules);
}.

(** [er_deadline] is the instant [deadline_time] means.
    src: src/db/schemas/platform.schema.ts:3864-3909 eventsInFpl *)
Record EventRow := mkEventRow {
  er_event : Event;
  er_deadline : option Z;
  er_dataCheckedAt : option Z;
  er_liveSnapshotCheckedAt : option Z;
  er_liveFactsPersistedAt : option Z;
  er_liveSnapshotFinalizedAt : option Z;
}.

(** src: src/db/schemas/platform.schema.ts:1929-1950 playersInFpl *)
Record PlayerRow := mkPlayerRow {
  pr_player : Player;
  pr_priceSourceCheckedAt : option Z;
  pr_isActive : bool;
}.

(** The row of a player in a gameweek; its [updated_at], or [created_at], is the last write.
    src: src/db/schemas/platform.schema.ts:3734-3766 playerGameweekStatsInFpl *)
Record GameweekRow := mkGameweekRow {
  gw_live : EventLive;
  gw_writtenAt : Z;
}.

(** src: src/db/schemas/platform.schema.ts:1768-1784 playerGameweekScoringItemsInFpl *)
Record ScoringItem := mkScoringItem {
  si_eventId : Z;
  si_elementId : Z;
  si_identifier : jsstr;
  si_value : Z;
  si_points : Z;
}.

(** src: src/domain/fpl-player-fixture-stats.ts:14-22 FplPlayerFixtureStat *)
Record FixtureStatRow := mkFixtureStat {
  pf_fixtureId : Z; pf_elementId : Z; pf_eventId : Z; pf_fixtureCode : Z; pf_playerCode : Z;
  pf_teamId : Z; pf_teamCode : Z; pf_elementType : Z;
  pf_minutes : Z; pf_starts : option Z; pf_goals : Z; pf_assists : Z; pf_ownGoals : Z;
  pf_yellowCards : Z; pf_redCards : Z;
}.

(** A fixture always has teams: only [fixtures_upsertBatch] inserts fixtures. *)
Record FplTables := mkFpl {
  ft_seasons : list SeasonRow;
  ft_events : list EventRow;
  ft_teams : list Team;
  ft_players : list PlayerRow;
  ft_phases : list Phase;
  ft_fixtures : list Fixture;
  ft_gameweeks : list GameweekRow;
  ft_items : list ScoringItem;
  ft_evidence : list FixtureStatRow;
}.

Definition set_seasons (x : list SeasonRow) (s : FplTables) : FplTables :=
  mkFpl x (ft_events s) (ft_teams s) (ft_players s) (ft_phases s) (ft_fixtures s) (ft_gameweeks s) (ft_items s)
    (ft_evidence s).
Definition set_events (x : list EventRow) (s : FplTables) : FplTables :=
  mkFpl (ft_seasons s) x (ft_teams s) (ft_players s) (ft_phases s) (ft_fixtures s) (ft_gameweeks s) (ft_items s)
    (ft_evidence s).
Definition set_teams (x : list Team) (s : FplTables) : FplTables :=
  mkFpl (ft_seasons s) (ft_events s) x (ft_players s) (ft_phases s) (ft_fixtures s) (ft_gameweeks s) (ft_items s)
    (ft_evidence s).
Definition set_players (x : list PlayerRow) (s : FplTables) : FplTables :=
  mkFpl (ft_seasons s) (ft_events s) (ft_teams s) x (ft_phases s) (ft_fixtures s) (ft_gameweeks s) (ft_items s)
    (ft_evidence s).
Definition set_phases (x : list Phase) (s : FplTables) : FplTables :=
  mkFpl (ft_seasons s) (ft_events s) (ft_teams s) (ft_players s) x (ft_fixtures s) (ft_gameweeks s) (ft_items s)
    (ft_evidence s).
Definition set_fixtures (x : list Fixture) (s : FplTables) : FplTables :=
  mkFpl (ft_seasons s) (ft_events s) (ft_teams s) (ft_players s) (ft_phases s) x (ft_gameweeks s) (ft_items s)
    (ft_evidence s).

Definition event_id (r : EventRow) : Z := ev_id (er_event r).
Definition player_id (r : PlayerRow) : Z := pl_id (pr_player r).
Definition gameweek_key (r : GameweekRow) : Z * Z := (el_eventId (gw_live r), el_elementId (gw_live r)).

(** ** Columns *)

(** A JavaScript number sent to an [integer] or a [bigint] column. *)
Definition int4_number (x : number) : bool := is_integer x && is_int4 (int_value x).
Definition int8_number (x : number) : bool :=
  is_integer x && (- 2 ^ 63 <=? int_value x) && (int_value x <? 2 ^ 63).

(** Text a column can hold, and text that is not blank. *)
Definition pg_text (s : jsstr) : bool := forallb (λ c, negb (c =? 0)) s.
Definition pg_name (s : jsstr) : bool := pg_text s && btrim_nonempty s.

(** [COALESCE]-free comparison of instants: with a NULL it is not true. *)
Definition at_or_after (stamp : option Z) (time : Z) : bool :=
  match stamp with Some t => time <=? t | None => false end.

Definition BATCH_UPSERT_ERROR : string := "BATCH_UPSERT_ERROR".

(** ** Seasons *)

(** The state of a season moves one way, on the evidence of its events.
    src: src/domain/season-lifecycle.ts:10-30 advanceSeasonLifecycleState *)
Definition advanceSeasonLifecycleState (currentState : FplLifecycleState) (events : list Event)
    : FplLifecycleState :=
  match currentState with
  | ReferenceOnly | Closed => currentState
  | _ =>
      let gw38 := find (λ e, ev_id e =? 38) events in
      if from_option (λ e, ev_finished e && ev_dataChecked e) false gw38 then Completed
      else match currentState with
           | Preseason => if existsb (λ e, ev_isCurrent e || ev_finished e) events then Active else Preseason
           | other => other
           end
  end.

Definition with_lifecycle (state : FplLifecycleState) (r : SeasonRow) : SeasonRow :=
  mkSeason (se_seasonId r) (se_seasonCode r) state (se_isCurrent r) (se_metadata r) (se_selectionRules r).

(** src: src/repositories/seasons.ts:83-108 advanceLifecycle *)
Definition advanceLifecycle (seasonId : Z) (events : list Event) (s : FplTables) : result FplTables :=
  match find_by se_seasonId seasonId (ft_seasons s) with
  | None => Throw "FPL_SEASON_NOT_FOUND"
  | Some current =>
      let nextState := advanceSeasonLifecycleState (se_lifecycleState current) events in
      if bool_decide (nextState = se_lifecycleState current) then Ok s
      else Ok (set_seasons (update_where (λ r, se_seasonId r =? seasonId) (with_lifecycle nextState)
                              (ft_seasons s)).1 s)
  end.

(** src: src/repositories/seasons.ts:118-138 findCurrent *)
Definition findCurrent (s : FplTables) : result SeasonRow :=
  match List.filter se_isCurrent (ft_seasons s) with
  | [current] => Ok current
  | _ => Throw "FIND_CURRENT_SEASON_ERROR"
  end.

(** ** Events *)

Section events.
Context (pg_time : jsstr → option Z).          (* [timestamptz] input *)

(** Each row takes its own reading of [clock_timestamp()].
    src: src/repositories/events.ts:270-297 upsertBatch *)
Definition new_event (clock : Z → Z) (e : Event) : EventRow := {|
  er_event := e;
  er_deadline := ev_deadlineTime e ≫= pg_time;
  er_dataCheckedAt := if ev_dataChecked e then Some (clock (ev_id e)) else None;
  er_liveSnapshotCheckedAt := None;
  er_liveFactsPersistedAt := None;
  er_liveSnapshotFinalizedAt := None |}.

(** src: src/repositories/events.ts:301-346 upsertBatch *)
Definition merge_event (clock : Z → Z) (old new : EventRow) : EventRow := {|
  er_event := er_event new;
  er_deadline := er_deadline new;
  er_dataCheckedAt :=
    if ev_dataChecked (er_event new) && (negb (ev_dataChecked (er_event old)) || is_null (er_dataCheckedAt old))
    then Some (clock (event_id new)) else er_dataCheckedAt old;
  er_liveSnapshotCheckedAt := er_liveSnapshotCheckedAt old;
  er_liveFactsPersistedAt := er_liveFactsPersistedAt old;
  er_liveSnapshotFinalizedAt :=
    if negb (ev_finished (er_event new)) || negb (ev_dataChecked (er_event new)) then None
    else if negb (bool_decide (er_deadline old = er_deadline new)) then None
    else if negb (ev_dataChecked (er_event old)) && ev_dataChecked (er_event new) then None
    else er_liveSnapshotFinalizedAt old |}.

(** src: src/db/schemas/platform.schema.ts:3988-3991 eventsInFpl *)
Definition finalization_order (r : EventRow) : bool :=
  match er_liveSnapshotFinalizedAt r, er_liveSnapshotCheckedAt r with
  | Some finalized, Some checked => checked <=? finalized
  | _, _ => true
  end.

(** The types of the columns and the CHECKs of a row.
    src: src/db/schemas/platform.schema.ts:3981-3991 eventsInFpl *)
Definition event_checks (r : EventRow) : bool :=
  let e := er_event r in
  (0 <? ev_id e) && is_int4 (ev_id e) && pg_text (ev_name e) &&
  bool_decide (is_Some (ev_deadlineTime e) → is_Some (er_deadline r)) &&
  null_or (λ n, int4_number n && (0 <=? int_value n)) (ev_averageEntryScore e) &&
  null_or (λ n, int4_number n && (0 <=? int_value n)) (ev_highestScore e) &&
  null_or int8_number (ev_highestScoringEntry e) && null_or int8_number (ev_deadlineTimeEpoch e) &&
  null_or int8_number (ev_transfersMade e) && null_or int4_number (ev_deadlineTimeGameOffset e) &&
  null_or int4_number (ev_mostSelected e) && null_or int4_number (ev_mostTransferredIn e) &&
  null_or int4_number (ev_topElement e) && null_or int4_number (ev_mostCaptained e) &&
  null_or int4_number (ev_mostViceCaptained e) && forallb (λ c, pg_text c.1) (ev_chipPlays e) &&
  finalization_order r.

(** The players an event names.
    src: src/db/schemas/platform.schema.ts:3956-3980 eventsInFpl *)
Definition event_players (e : Event) : list number :=
  omap id [ev_mostCaptained e; ev_mostSelected e; ev_mostTransferredIn e; ev_mostViceCaptained e; ev_topElement e].

Definition event_foreign_keys (players : list PlayerRow) (r : EventRow) : bool :=
  forallb (λ n, bool_decide (int_value n ∈ player_id <$> players)) (event_players (er_event r)).

(** src: src/repositories/events.ts:261-361 upsertBatch *)
Definition events_upsertBatch (clock : Z → Z) (domainEvents : list Event) (s : FplTables)
    : result (FplTables * list EventRow) :=
  if is_nil domainEvents then Ok (s, []) else
  let* r := upsert_returning event_id (merge_event clock) (λ _ _, false) event_checks
              (event_foreign_keys (ft_players s)) BATCH_UPSERT_ERROR
              (new_event clock <$> domainEvents) (ft_events s) in
  Ok (set_events r.1 s, r.2).
End events.

(** ** Teams *)

(** src: src/db/schemas/platform.schema.ts:3660-3671 teamsInFpl *)
Definition team_checks (t : Team) : bool :=
  (0 <? tm_id t) && (0 <? tm_code t) && forallb is_int4
    ([tm_id t; tm_code t; tm_position t; tm_points t; tm_win t; tm_draw t; tm_loss t; tm_played t;
      tm_strengthOverallHome t; tm_strengthOverallAway t; tm_strengthAttackHome t; tm_strengthAttackAway t;
      tm_strengthDefenceHome t; tm_strengthDefenceAway t; tm_pulseId t] ++
     omap id [tm_strength t; tm_teamDivision t]) &&
  (0 <=? tm_position t) && (0 <=? tm_win t) && (0 <=? tm_draw t) && (0 <=? tm_loss t) && (0 <=? tm_played t) &&
  pg_name (tm_name t) && pg_name (tm_shortName t) && null_or pg_text (tm_form t).

(** The [SET] list names every column that is read.
    src: src/repositories/teams.ts:61-136 upsertBatch *)
Definition teams_upsertBatch (domainTeams : list Team) (s : FplTables) : result (FplTables * list Team) :=
  if is_nil domainTeams then Ok (s, []) else
  let* r := upsert_returning tm_id (λ _ new, new) (λ x y, tm_code x =? tm_code y) team_checks (λ _, true)
              BATCH_UPSERT_ERROR domainTeams (ft_teams s) in
  Ok (set_teams r.1 s, r.2).

(** ** Players *)

(** src: src/db/schemas/platform.schema.ts:1983-1989 playersInFpl *)
Definition player_checks (r : PlayerRow) : bool :=
  let p := pr_player r in
  (0 <? pl_id p) && (0 <? pl_code p) && (0 <? pl_type p) && (0 <=? pl_price p) && (0 <=? pl_startPrice p) &&
  forallb is_int4 [pl_id p; pl_code p; pl_type p; pl_teamId p; pl_price p; pl_startPrice p] &&
  pg_text (pl_firstName p) && pg_text (pl_secondName p) && pg_name (pl_webName p).

Definition same_code (x y : PlayerRow) : bool := pl_code (pr_player x) =? pl_code (pr_player y).

(** src: src/repositories/players.ts:160-174 upsertBatch *)
Definition new_player (sourceCheckedAt : option Z) (p : Player) : PlayerRow := mkPlayerRow p sourceCheckedAt true.

(** src: src/repositories/players.ts:195-219 upsertBatch *)
Definition merge_player (sourceCheckedAt : option Z) (old new : PlayerRow) : PlayerRow := {|
  pr_player := pr_player new;
  pr_priceSourceCheckedAt :=
    match sourceCheckedAt with
    | Some time => if at_or_after (pr_priceSourceCheckedAt old) time then pr_priceSourceCheckedAt old else Some time
    | None => pr_priceSourceCheckedAt old
    end;
  pr_isActive := true |}.

Definition with_active (active : bool) (r : PlayerRow) : PlayerRow :=
  mkPlayerRow (pr_player r) (pr_priceSourceCheckedAt r) active.

(** src: src/repositories/players.ts:177-193 upsertBatch *)
Definition mark_missing_inactive (ids : list Z) (players : list PlayerRow) : list PlayerRow :=
  (update_where (λ r, bool_decide (player_id r ∉ ids)) (with_active false) players).1.

(** src: src/repositories/players.ts:148-231 upsertBatch *)
Definition players_upsertBatch (domainPlayers : list Player) (preservePriceSourceCheckedAtOrAfter : option Z)
    (markMissingInactive : bool) (s : FplTables) : result (FplTables * list PlayerRow) :=
  if is_nil domainPlayers then Ok (s, []) else
  let players := if markMissingInactive then mark_missing_inactive (pl_id <$> domainPlayers) (ft_players s)
                 else ft_players s in
  let* r := upsert_returning player_id (merge_player preservePriceSourceCheckedAtOrAfter) same_code player_checks
              (λ row, bool_decide (pl_teamId (pr_player row) ∈ tm_id <$> ft_teams s)) BATCH_UPSERT_ERROR
              (new_player preservePriceSourceCheckedAtOrAfter <$> domainPlayers) players in
  Ok (set_players r.1 s, r.2).

Definition with_price (price : Z) (sourceCheckedAt : Z) (r : PlayerRow) : PlayerRow :=
  let p := pr_player r in
  mkPlayerRow (mkPlayer (pl_id p) (pl_code p) (pl_type p) (pl_teamId p) price (pl_startPrice p) (pl_firstName p)
                 (pl_secondName p) (pl_webName p)) (Some sourceCheckedAt) (pr_isActive r).

(** Of updates of one player the last counts.
    src: src/repositories/players.ts:92-145 updatePrices *)
Definition updatePrices (priceUpdates : list (Z * Z)) (sourceCheckedAt : Z) (s : FplTables)
    : result (FplTables * list Player) :=
  if is_nil priceUpdates then Ok (s, []) else
  let deduplicated := map_of_entries priceUpdates in
  let price_of r := nullish (map_get (player_id r) deduplicated) (pl_price (pr_player r)) in
  match update_checked player_checks
          (λ r, bool_decide (player_id r ∈ deduplicated.*1) &&
                null_or (λ stamp, stamp <=? sourceCheckedAt) (pr_priceSourceCheckedAt r))
          (λ r, with_price (price_of r) sourceCheckedAt r) (ft_players s) with
  | Throw _ => Throw "BATCH_PRICE_UPDATE_ERROR"
  | Ok (players, updated) => Ok (set_players players s, pr_player <$> updated)
  end.

(** src: src/repositories/players.ts:29-49 findAll *)
Definition players_findAll (s : FplTables) : list Player := pr_player <$> List.filter pr_isActive (ft_players s).

(** ** Phases *)

(** src: src/db/schemas/platform.schema.ts:1720-1723 phasesInFpl *)
Definition phase_checks (p : Phase) : bool :=
  (0 <? ph_id p) && (0 <? ph_startEvent p) && (ph_startEvent p <=? ph_stopEvent p) &&
  null_or (λ n, is_int4 n && (0 <=? n)) (ph_highestScore p) &&
  is_int4 (ph_id p) && is_int4 (ph_startEvent p) && is_int4 (ph_stopEvent p) && pg_name (ph_name p).

(** src: src/repositories/phases.ts:44-87 upsertBatch *)
Definition phases_upsertBatch (domainPhases : list Phase) (s : FplTables) : result (FplTables * list Phase) :=
  if is_nil domainPhases then Ok (s, []) else
  let events := event_id <$> ft_events s in
  let* r := upsert_returning ph_id (λ _ new, new) (λ _ _, false) phase_checks
              (λ p, bool_decide (ph_startEvent p ∈ events) && bool_decide (ph_stopEvent p ∈ events))
              BATCH_UPSERT_ERROR domainPhases (ft_phases s) in
  Ok (set_phases r.1 s, r.2).

(** ** Fixtures *)

(** src: src/db/schemas/platform.schema.ts:2791-2809 fixturesInFpl *)
Definition fixture_checks (f : Fixture) : bool :=
  (0 <? fx_id f) && (0 <? fx_code f) && null_or (λ e, 0 <? e) (fx_event f) &&
  between 0 180 (fx_minutes f) && negb (fx_teamH f =? fx_teamA f) &&
  null_or (λ n, is_int4 n && (0 <=? n)) (fx_teamHScore f) && null_or (λ n, is_int4 n && (0 <=? n)) (fx_teamAScore f) &&
  null_or (between 0 5) (fx_teamHDifficulty f) && null_or (between 0 5) (fx_teamADifficulty f) &&
  forallb is_int4 [fx_id f; fx_code f; fx_teamH f; fx_teamA f; fx_pulseId f] && null_or is_int4 (fx_event f) &&
  forallb (λ s, pg_text (fs_identifier s)) (fx_stats f).

(** src: src/db/schemas/platform.schema.ts:2776-2790 fixturesInFpl *)
Definition fixture_foreign_keys (s : FplTables) (f : Fixture) : bool :=
  null_or (λ e, bool_decide (e ∈ event_id <$> ft_events s)) (fx_event f) &&
  bool_decide (fx_teamA f ∈ tm_id <$> ft_teams s) && bool_decide (fx_teamH f ∈ tm_id <$> ft_teams s).

Definition with_event (event : option Z) (started : option bool) (f : Fixture) : Fixture :=
  mkFixture (fx_id f) (fx_code f) event (fx_finished f) (fx_finishedProvisional f) (fx_kickoffTime f) (fx_minutes f)
    (fx_provisionalStartTime f) started (fx_teamA f) (fx_teamAScore f) (fx_teamH f) (fx_teamHScore f)
    (fx_stats f) (fx_teamHDifficulty f) (fx_teamADifficulty f) (fx_pulseId f).

(** [started ?? false] is the only column that is not the field.
    src: src/repositories/fixtures.ts:320-340 upsertBatch *)
Definition new_fixture (f : Fixture) : Fixture := with_event (fx_event f) (Some (nullish (fx_started f) false)) f.

(** src: src/repositories/fixtures.ts:342-367 upsertBatch *)
Definition upsert_fixtures (batch : list Fixture) (s : FplTables) : result (FplTables * list Fixture) :=
  let* r := upsert_returning fx_id (λ _ new, new) (λ x y, fx_code x =? fx_code y) fixture_checks
              (fixture_foreign_keys s) BATCH_UPSERT_ERROR (new_fixture <$> batch) (ft_fixtures s) in
  Ok (set_fixtures r.1 s, r.2).

(** src: src/repositories/fixtures.ts:318-370 upsertBatch *)
Fixpoint fixture_batches (fuel : nat) (fixtures : list Fixture) (s : FplTables)
    : result (FplTables * list Fixture) :=
  match fuel, fixtures with
  | O, _ | _, [] => Ok (s, [])
  | S fuel, _ =>
      let* r := upsert_fixtures (take 500 fixtures) s in
      let* rest := fixture_batches fuel (drop 500 fixtures) r.1 in
      Ok (rest.1, r.2 ++ rest.2)
  end.

(** src: src/repositories/fixtures.ts:306-403 upsertBatch *)
Definition fixtures_upsertBatch (domainFixtures : list Fixture) (s : FplTables)
    : result (FplTables * list Fixture) :=
  fixture_batches (length domainFixtures) domainFixtures s.

(** A live snapshot at or after [time] owns the gameweek of the fixture.
    src: src/repositories/fixtures.ts:256-262 markAbsentUnscheduled *)
Definition live_owned (time : Z) (events : list EventRow) (f : Fixture) : bool :=
  existsb (λ e, bool_decide (fx_event f = Some (event_id e)) && at_or_after (er_liveSnapshotCheckedAt e) time) events.

(** Without a time there is no fence.
    src: src/repositories/fixtures.ts:255-263 markAbsentUnscheduled *)
Definition ownershipFence (preserve : option Z) (events : list EventRow) (f : Fixture) : bool :=
  match preserve with Some time => negb (live_owned time events f) | None => true end.

(** A deleted fixture may not have evidence.
    src: src/repositories/fixtures.ts:240-303 markAbsentUnscheduled *)
Definition markAbsentUnscheduled (acceptedIds : list Z) (preserveOwnedCheckedAtOrAfter : option Z)
    (acceptedCodes : list Z) (s : FplTables) : result (FplTables * Z) :=
  let uniqueIds := List.filter positive acceptedIds in
  if is_nil uniqueIds then Ok (s, 0) else
  let uniqueCodes := List.filter positive acceptedCodes in
  let fence := ownershipFence preserveOwnedCheckedAtOrAfter (ft_events s) in
  let retired f := bool_decide (fx_id f ∉ uniqueIds) && bool_decide (fx_code f ∈ uniqueCodes) && fence f in
  let removed := List.filter retired (ft_fixtures s) in
  reject_if existsb (λ f, bool_decide (fx_id f ∈ pf_fixtureId <$> ft_evidence s)) removed
    with_code "MARK_ABSENT_UNSCHEDULED_ERROR" ;;
  let '(fixtures, unscheduled) :=
    update_where (λ f, negb (is_null (fx_event f)) && bool_decide (fx_id f ∉ uniqueIds) && fence f)
      (λ f, with_event None (fx_started f) f)
      (List.filter (λ f, negb (retired f)) (ft_fixtures s)) in
  Ok (set_fixtures fixtures s, Z.of_nat (length removed) + Z.of_nat (length unscheduled)).

(** src: src/repositories/fixtures.ts:100-117 findAll *)
Definition fixtures_findAll (s : FplTables) : list Fixture := js_sort (by_key fx_id) (ft_fixtures s).

(** src: src/repositories/fixtures.ts:80-98 findByEvent *)
Definition fixtures_findByEvent (eventId : Z) (s : FplTables) : list Fixture :=
  List.filter (λ f, bool_decide (fx_event f = Some eventId)) (ft_fixtures s).

(** ** Lemmas *)

Lemma advanceLifecycle_ok seasonId events s s' :
  advanceLifecycle seasonId events s = Ok s' → ∃ seasons, s' = set_seasons seasons s.
Proof.
  unfold advanceLifecycle. destruct (find_by _ _ _) as [current|]; [|done].
  case_bool_decide; intros [= <-]; [exists (ft_seasons s); by destruct s|eauto].
Qed.

Lemma merge_event_key clock old new : event_id old = event_id new → event_id (merge_event clock old new) = event_id new.
Proof. done. Qed.

Lemma merge_player_key t old new : player_id old = player_id new → player_id (merge_player t old new) = player_id new.
Proof. done. Qed.

Lemma replace_key {A K} (key : A → K) (old new : A) : key old = key new → key ((λ _ n : A, n) old new) = key new.
Proof. done. Qed.

#[export] Hint Resolve merge_event_key merge_player_key : jsdb.

(** What the repositories write, whether or not the batch is empty. *)
Lemma events_upsertBatch_ok pg_time clock events s s' ws :
  events_upsertBatch pg_time clock events s = Ok (s', ws) →
  NoDup (ev_id <$> events) ∧
  s' = set_events (upsert_batch event_id (merge_event clock) (new_event pg_time clock <$> events) (ft_events s)) s ∧
  forallb event_checks ws = true ∧ forallb (event_foreign_keys (ft_players s)) ws = true ∧
  ws = written_row event_id (merge_event clock) (ft_events s) <$> (new_event pg_time clock <$> events).
Proof.
  unfold events_upsertBatch. destruct events as [|e events].
  { intros [= <- <-]. repeat split; [constructor|by destruct s]. }
  cbn [is_nil]. intros H. apply result_bind_ok in H as ([t w] & H & [= <- <-]).
  apply upsert_returning_ok in H as (Hnd & -> & -> & Hc & Hf); [|by auto with jsdb].
  rewrite <-list_fmap_compose in Hnd. by repeat split.
Qed.

Lemma teams_upsertBatch_ok teams s s' ws :
  teams_upsertBatch teams s = Ok (s', ws) →
  NoDup (tm_id <$> teams) ∧ s' = set_teams (upsert_batch tm_id (λ _ new, new) teams (ft_teams s)) s.
Proof.
  unfold teams_upsertBatch. destruct teams as [|e teams].
  { intros [= <- <-]. split; [constructor|by destruct s]. }
  cbn [is_nil]. intros H. apply result_bind_ok in H as ([t w] & H & [= <- <-]).
  by apply upsert_returning_ok in H as (Hnd & -> & _).
Qed.

Lemma phases_upsertBatch_ok phases s s' ws :
  phases_upsertBatch phases s = Ok (s', ws) →
  NoDup (ph_id <$> phases) ∧ s' = set_phases (upsert_batch ph_id (λ _ new, new) phases (ft_phases s)) s.
Proof.
  unfold phases_upsertBatch. destruct phases as [|e phases].
  { intros [= <- <-]. split; [constructor|by destruct s]. }
  cbn [is_nil]. intros H. apply result_bind_ok in H as ([t w] & H & [= <- <-]).
  by apply upsert_returning_ok in H as (Hnd & -> & _).
Qed.

Lemma players_upsertBatch_ok players time mark s s' ws :
  players ≠ [] →
  players_upsertBatch players time mark s = Ok (s', ws) →
  NoDup (pl_id <$> players) ∧
  s' = set_players (upsert_batch player_id (merge_player time) (new_player time <$> players)
         (if mark then mark_missing_inactive (pl_id <$> players) (ft_players s) else ft_players s)) s.
Proof.
  intros Hne. unfold players_upsertBatch. destruct players as [|e players]; [done|].
  cbn [is_nil]. intros H. apply result_bind_ok in H as ([t w] & H & [= <- <-]).
  apply upsert_returning_ok in H as (Hnd & -> & _); [|by auto with jsdb].
  rewrite <-list_fmap_compose in Hnd. by split.
Qed.

Lemma upsert_batch_app {A K} `{EqDecision K} (key : A → K) merge rows rows' t :
  upsert_batch key merge (rows ++ rows') t = upsert_batch key merge rows' (upsert_batch key merge rows t).
Proof. apply fold_left_app. Qed.

Definition write_fixtures (fixtures : list Fixture) (table : list Fixture) : list Fixture :=
  upsert_batch fx_id (λ _ new, new) (new_fixture <$> fixtures) table.

(** The batches write what one statement would. *)
Lemma fixtures_upsertBatch_ok fixtures s s' ws :
  fixtures_upsertBatch fixtures s = Ok (s', ws) → s' = set_fixtures (write_fixtures fixtures (ft_fixtures s)) s.
Proof.
  unfold fixtures_upsertBatch, write_fixtures.
  assert (∀ fuel, (length fixtures ≤ fuel)%nat →
    fixture_batches fuel fixtures s = Ok (s', ws) →
    s' = set_fixtures (upsert_batch fx_id (λ _ new, new) (new_fixture <$> fixtures) (ft_fixtures s)) s) as Hall;
    [|by apply Hall].
  intros fuel. revert fixtures s s' ws. induction fuel as [|fuel IH]; intros fixtures s s' ws Hfuel H.
  { destruct fixtures; [|cbn in Hfuel; lia]. injection H as <- _. by destruct s. }
  destruct fixtures as [|f fixtures]; [injection H as <- _; by destruct s|].
  cbn [fixture_batches] in H. apply result_bind_ok in H as ([s1 w1] & H1 & H).
  apply result_bind_ok in H as ([s2 w2] & H2 & [= <- <-]).
  apply IH in H2; [|rewrite length_drop; cbn in *; lia]. subst s2. cbn [fst].
  apply result_bind_ok in H1 as ([t w] & H1 & [= <- <-]). apply upsert_returning_ok in H1 as (_ & -> & _); [|done].
  cbn [ft_fixtures set_fixtures fst]. rewrite <-upsert_batch_app, <-fmap_app. by rewrite take_drop.
Qed.

(** A fixture after the retirement of the absent ones: deleted if its code is taken, without a
    gameweek if not, untouched if it is fenced. *)
Definition retire_fixture (ids codes : list Z) (fence : Fixture → bool) (f : Fixture) : option Fixture :=
  if bool_decide (fx_id f ∈ ids) || negb (fence f) then Some f
  else if bool_decide (fx_code f ∈ codes) then None
  else Some (if is_null (fx_event f) then f else with_event None (fx_started f) f).

Lemma retire_fixture_id ids codes fence f g : retire_fixture ids codes fence f = Some g → fx_id g = fx_id f.
Proof.
  unfold retire_fixture. destruct (_ || _); [congruence|]. case_bool_decide; [done|].
  destruct (is_null _); intros [= <-]; done.
Qed.

Lemma markAbsentUnscheduled_ok ids preserve codes s s' n :
  ids ≠ [] → Forall (λ i, 0 < i) ids → Forall (λ c, 0 < c) codes →
  markAbsentUnscheduled ids preserve codes s = Ok (s', n) →
  s' = set_fixtures (omap (retire_fixture ids codes (ownershipFence preserve (ft_events s))) (ft_fixtures s)) s.
Proof.
  intros Hne Hids Hcodes. unfold markAbsentUnscheduled.
  assert (∀ l, Forall (λ i, 0 < i) l → List.filter positive l = l) as Hpos.
  { intros l. induction 1 as [|i l Hi _ IH]; [done|]. cbn [List.filter]. unfold positive at 1.
    rewrite (proj2 (Z.ltb_lt 0 i) Hi). by f_equal. }
  rewrite !Hpos by done. destruct ids as [|i ids]; [done|]. cbn [is_nil].
  intros H. apply throw_when_ok in H as [_ H]. cbn in H. injection H as <- _. f_equal.
  generalize (ownershipFence preserve (ft_events s)) as fence. intros fence. clear.
  induction (ft_fixtures s) as [|f l IH]; [done|]. cbn [List.filter omap list_omap].
  unfold retire_fixture at 1. rewrite bool_decide_not.
  destruct (bool_decide (fx_id f ∈ i :: ids)) eqn:Ei, (fence f) eqn:Ef, (bool_decide (fx_code f ∈ codes)) eqn:Ec;
    cbn [negb andb orb fmap list_fmap]; rewrite ?IH; try done;
    rewrite ?bool_decide_not, ?Ei, ?Ef; cbn [negb]; rewrite ?andb_false_r, ?andb_true_r; try done;
    by destruct (fx_event f).
Qed.

(** ** The invariant of the tables *)

Definition same_team_code (x y : Team) : bool := tm_code x =? tm_code y.
Definition same_fixture_code (x y : Fixture) : bool := fx_code x =? fx_code y.

(** A final gameweek is finished, its data is checked, and its marker is no older than its last live
    snapshot. *)
Definition final_ok (r : EventRow) : Prop :=
  is_Some (er_liveSnapshotFinalizedAt r) →
  ev_finished (er_event r) = true ∧ ev_dataChecked (er_event r) = true ∧ finalization_order r = true.

Record fpl_ok (s : FplTables) : Prop := {
  ok_events : NoDup (event_id <$> ft_events s);
  ok_teams : NoDup (tm_id <$> ft_teams s);
  ok_players : NoDup (player_id <$> ft_players s);
  ok_fixtures : NoDup (fx_id <$> ft_fixtures s);
  ok_team_codes : unique_rows tm_id same_team_code (ft_teams s);
  ok_player_codes : unique_rows player_id same_code (ft_players s);
  ok_fixture_codes : unique_rows fx_id same_fixture_code (ft_fixtures s);
  ok_fixture_rows : ∀ f, f ∈ ft_fixtures s → fixture_checks f = true ∧ is_Some (fx_started f);
  ok_final : ∀ r, r ∈ ft_events s → final_ok r;
  ok_gameweeks : NoDup (gameweek_key <$> ft_gameweeks s);
}.

Lemma same_code_sym x y : same_code x y = same_code y x.
Proof. apply Z.eqb_sym. Qed.
Lemma same_team_code_sym x y : same_team_code x y = same_team_code y x.
Proof. apply Z.eqb_sym. Qed.
Lemma same_fixture_code_sym x y : same_fixture_code x y = same_fixture_code y x.
Proof. apply Z.eqb_sym. Qed.

Lemma merge_event_final clock old new :
  event_checks (merge_event clock old new) = true → final_ok (merge_event clock old new).
Proof.
  intros Hc [x Hx]. unfold event_checks in Hc. apply andb_true_iff in Hc as [_ Hc].
  cbn in Hx |- *. destruct (negb (ev_finished _) || negb (ev_dataChecked _)) eqn:E; [done|].
  apply orb_false_iff in E as [E1 E2]. apply negb_false_iff in E1, E2. done.
Qed.

Lemma events_upsertBatch_fpl_ok pg_time clock events s s' ws :
  fpl_ok s → events_upsertBatch pg_time clock events s = Ok (s', ws) → fpl_ok s'.
Proof.
  intros Hs H. apply events_upsertBatch_ok in H as (Hnd & -> & Hc & _ & ->).
  assert (NoDup (event_id <$> (new_event pg_time clock <$> events))) as Hnd' by (by rewrite <-list_fmap_compose).
  destruct Hs. constructor; try done; cbn [ft_events set_events].
  - apply upsert_batch_NoDup; [|done]. auto with jsdb.
  - intros r Hr. apply elem_of_upsert_batch in Hr as [(x & Hx & ->)|[Hr _]]; [| |auto with jsdb|done|done].
    + rewrite forallb_forall in Hc. specialize (Hc (written_row event_id (merge_event clock) (ft_events s) x)).
      assert (event_checks (written_row event_id (merge_event clock) (ft_events s) x) = true) as Hx'.
      { apply Hc. apply list_elem_of_In, list_elem_of_fmap. eauto. }
      revert Hx'. unfold written_row. destruct (find_by _ _ _) as [old|]; [apply merge_event_final|].
      apply list_elem_of_fmap in Hx as (e & -> & _). intros _ [y Hy]. discriminate Hy.
    + by apply ok_final0.
Qed.

Lemma teams_upsertBatch_fpl_ok teams s s' ws :
  fpl_ok s → teams_upsertBatch teams s = Ok (s', ws) → fpl_ok s'.
Proof.
  intros Hs H. pose proof H as Hk. apply teams_upsertBatch_ok in Hk as [_ Heq].
  unfold teams_upsertBatch in H. destruct (is_nil teams); [by injection H as <- _|].
  apply result_bind_ok in H as ([t w] & H & [= <- _]). cbn in Heq.
  destruct Hs; constructor; try done; cbn [ft_teams set_teams fst].
  - apply upsert_returning_ok in H as (_ & -> & _); [|done]. by apply upsert_batch_NoDup.
  - eapply upsert_returning_unique in H; [done|done|apply same_team_code_sym|done|done].
Qed.

Lemma phases_upsertBatch_fpl_ok phases s s' ws :
  fpl_ok s → phases_upsertBatch phases s = Ok (s', ws) → fpl_ok s'.
Proof. intros Hs H. apply phases_upsertBatch_ok in H as [_ ->]. by destruct Hs. Qed.

Lemma update_unique {A K} (key : A → K) conflict (where_ : A → bool) set t :
  (∀ x, key (set x) = key x) → (∀ x y, conflict (set x) y = conflict x y) →
  (∀ x y, conflict x (set y) = conflict x y) →
  unique_rows key conflict t → unique_rows key conflict (update_where where_ set t).1.
Proof.
  intros Hk Hl Hr Hu x y Hx Hy Hc.
  apply elem_of_update in Hx as (x0 & Hx & ->). apply elem_of_update in Hy as (y0 & Hy & ->).
  specialize (Hu x0 y0 Hx Hy). destruct (where_ x0), (where_ y0); rewrite ?Hl, ?Hr in Hc; rewrite ?Hk; auto.
Qed.

Lemma players_upsertBatch_fpl_ok players time mark s s' ws :
  fpl_ok s → players_upsertBatch players time mark s = Ok (s', ws) → fpl_ok s'.
Proof.
  intros Hs H. unfold players_upsertBatch in H. destruct (is_nil players); [by injection H as <- _|].
  apply result_bind_ok in H as ([t w] & H & [= <- _]).
  destruct Hs; constructor; try done; cbn [ft_players set_players fst].
  - apply upsert_returning_ok in H as (_ & -> & _); [|auto with jsdb].
    apply upsert_batch_NoDup; [auto with jsdb|]. destruct mark; [|done].
    unfold mark_missing_inactive. by rewrite update_keeps.
  - eapply upsert_returning_unique in H; [done|auto with jsdb|apply same_code_sym|..];
      destruct mark; try done; unfold mark_missing_inactive; [by rewrite update_keeps|by apply update_unique].
Qed.

Lemma updatePrices_fpl_ok updates time s s' ps :
  fpl_ok s → updatePrices updates time s = Ok (s', ps) → fpl_ok s'.
Proof.
  intros Hs H. unfold updatePrices in H. destruct (is_nil updates); [by injection H as <- _|].
  destruct (update_checked _ _ _ _) as [[t u]|] eqn:E; [|done]. injection H as <- _.
  apply update_checked_ok in E as [[= -> ->] _].
  destruct Hs; constructor; try done; cbn [ft_players set_players].
  - pose proof (update_keeps player_id) as Hk. cbn [fst update_where] in Hk. by rewrite Hk.
  - by apply (update_unique player_id same_code
      (λ r, bool_decide (player_id r ∈ (map_of_entries updates).*1) &&
            null_or (λ stamp, stamp <=? time) (pr_priceSourceCheckedAt r))).
Qed.

Lemma upsert_fixtures_fpl_ok batch s s' ws :
  fpl_ok s → upsert_fixtures batch s = Ok (s', ws) → fpl_ok s'.
Proof.
  intros Hs H. apply result_bind_ok in H as ([t w] & H & [= <- _]). pose proof H as Hu.
  apply upsert_returning_ok in H as (Hnd & -> & -> & Hc & _); [|done].
  destruct Hs; constructor; try done; cbn [ft_fixtures set_fixtures fst].
  - by apply upsert_batch_NoDup.
  - eapply upsert_returning_unique in Hu; [done|done|apply same_fixture_code_sym|done|done].
  - intros f Hf. apply elem_of_upsert_batch in Hf as [(x & Hx & ->)|[Hf _]]; [|auto|done..].
    rewrite forallb_forall in Hc. split.
    + apply Hc. apply list_elem_of_In, list_elem_of_fmap. eauto.
    + unfold written_row. apply list_elem_of_fmap in Hx as (y & -> & _). destruct (find_by _ _ _); by eexists.
Qed.

Lemma fixtures_upsertBatch_fpl_ok fixtures s s' ws :
  fpl_ok s → fixtures_upsertBatch fixtures s = Ok (s', ws) → fpl_ok s'.
Proof.
  unfold fixtures_upsertBatch. generalize (length fixtures) as fuel. intros fuel.
  revert fixtures s s' ws. induction fuel as [|fuel IH]; intros fixtures s s' ws Hs H.
  { by injection H as <- _. }
  destruct fixtures as [|f fixtures]; [by injection H as <- _|]. cbn [fixture_batches] in H.
  apply result_bind_ok in H as ([s1 w1] & H1 & H). apply result_bind_ok in H as ([s2 w2] & H2 & [= <- _]).
  apply upsert_fixtures_fpl_ok in H1; [|done]. by apply IH in H2.
Qed.

(** Removing rows keeps what a table promises. *)
Lemma unique_filter {A K} (key : A → K) conflict (keep : A → bool) t :
  unique_rows key conflict t → unique_rows key conflict (List.filter keep t).
Proof.
  intros Hu x y Hx Hy. rewrite list_elem_of_In, filter_In in Hx, Hy.
  apply Hu; rewrite list_elem_of_In; tauto.
Qed.

Lemma NoDup_fmap_list_filter {A K} (key : A → K) (keep : A → bool) t :
  NoDup (key <$> t) → NoDup (key <$> List.filter keep t).
Proof.
  induction t as [|x t IH]; [done|]. cbn. intros [Hx Hnd]%NoDup_cons. destruct (keep x); [|auto].
  cbn. apply NoDup_cons. split; [|auto]. intros Hin. apply Hx.
  apply list_elem_of_fmap in Hin as (y & -> & Hy). apply list_elem_of_fmap_2.
  rewrite list_elem_of_In, filter_In, <-list_elem_of_In in Hy. tauto.
Qed.

Lemma markAbsentUnscheduled_fpl_ok ids preserve codes s s' n :
  fpl_ok s → markAbsentUnscheduled ids preserve codes s = Ok (s', n) → fpl_ok s'.
Proof.
  intros Hs H. unfold markAbsentUnscheduled in H. destruct (is_nil _); [by injection H as <- _|].
  apply throw_when_ok in H as [_ H]. injection H as <- _.
  match goal with |- context [List.filter ?k (ft_fixtures s)] => set (keep := k) end.
  destruct Hs; constructor; try done; cbn [ft_fixtures set_fixtures].
  - pose proof (update_keeps fx_id) as Hk. cbn [fst update_where] in Hk.
    rewrite Hk by done. by apply NoDup_fmap_list_filter.
  - by apply (update_unique fx_id same_fixture_code
      (λ f, negb (is_null (fx_event f)) && bool_decide (fx_id f ∉ List.filter positive ids) &&
            ownershipFence preserve (ft_events s) f)), unique_filter.
  - intros f Hf. apply list_elem_of_fmap in Hf as (g & -> & Hg).
    rewrite list_elem_of_In, filter_In, <-list_elem_of_In in Hg. destruct Hg as [Hg _].
    apply ok_fixture_rows0 in Hg as [Hc Hstart]. case_match; [|done]. split; [|done].
    revert Hc. unfold fixture_checks, with_event. cbn. rewrite !andb_true_iff. tauto.
Qed.

(** The invariant can be evaluated. *)
Definition unique_rows_b {A} (key : A → Z) (conflict : A → A → bool) (t : list A) : bool :=
  forallb (λ x, forallb (λ y, negb (conflict x y) || (key x =? key y)) t) t.

Definition final_okb (r : EventRow) : bool :=
  is_null (er_liveSnapshotFinalizedAt r) ||
  ev_finished (er_event r) && ev_dataChecked (er_event r) && finalization_order r.

Definition fpl_okb (s : FplTables) : bool :=
  bool_decide (NoDup (event_id <$> ft_events s)) && bool_decide (NoDup (tm_id <$> ft_teams s)) &&
  bool_decide (NoDup (player_id <$> ft_players s)) && bool_decide (NoDup (fx_id <$> ft_fixtures s)) &&
  bool_decide (NoDup (gameweek_key <$> ft_gameweeks s)) &&
  unique_rows_b tm_id same_team_code (ft_teams s) && unique_rows_b player_id same_code (ft_players s) &&
  unique_rows_b fx_id same_fixture_code (ft_fixtures s) &&
  forallb (λ f, fixture_checks f && negb (is_null (fx_started f))) (ft_fixtures s) &&
  forallb final_okb (ft_events s).

Lemma unique_rows_b_ok {A} (key : A → Z) conflict t : unique_rows_b key conflict t = true → unique_rows key conflict t.
Proof.
  unfold unique_rows_b. rewrite forallb_forall. intros H x y Hx%list_elem_of_In Hy%list_elem_of_In Hc.
  specialize (H x Hx). rewrite forallb_forall in H. specialize (H y Hy). rewrite Hc in H. cbn in H. by boolsolve.
Qed.

Lemma fpl_okb_ok s : fpl_okb s = true → fpl_ok s.
Proof.
  unfold fpl_okb. intros H. repeat (apply andb_true_iff in H as [H ?]).
  constructor; try (by eapply bool_decide_eq_true_1); try by apply unique_rows_b_ok.
  - intros f Hf%list_elem_of_In. rename select (forallb _ (ft_fixtures s) = true) into Hall.
    rewrite forallb_forall in Hall. specialize (Hall f Hf). apply andb_true_iff in Hall as [? Hs].
    split; [done|]. destruct (fx_started f); [by eexists|done].
  - intros r Hr%list_elem_of_In [x Hx]. rename select (forallb final_okb _ = true) into Hall.
    rewrite forallb_forall in Hall. specialize (Hall r Hr). unfold final_okb in Hall. rewrite Hx in Hall. cbn in Hall.
    apply andb_true_iff in Hall as [Hall ?]. by apply andb_true_iff in Hall as [? ?].
Qed.

(** ** A small season *)

Definition sample_fx (id event team : Z) : Fixture :=
  mkFixture id id (Some event) false false None 0 false (Some false) (team + 1) None team None [] None None 0.

Definition sample_player (id price : Z) : Player := mkPlayer id id 1 1 price price (js "A") (js "B") (js "C").

Definition sample_tm (id : Z) : Team :=
  mkTeam id (js "Club") (js "CLB") id 0 None 0 0 0 0 None None false 0 0 0 0 0 0 0 id.

Definition sample_ev (id : Z) : Event :=
  mkEvent id (js "Gameweek") None None false false None None None None false false false false false [] None None None
    None None None None.

Definition sample_rules : option SelectionRules := None.

(** Gameweek 1 has a live snapshot read at 5 ms, player 1 a price read at 9 ms. *)
Definition sample_tables : FplTables := {|
  ft_seasons := [mkSeason 2025 (js "2526") Preseason true [] None];
  ft_events := [mkEventRow (sample_ev 1) None None (Some 5000) None None;
                mkEventRow (sample_ev 2) None None None None None];
  ft_teams := [sample_tm 1; sample_tm 2];
  ft_players := [mkPlayerRow (sample_player 1 55) (Some 9000) true; mkPlayerRow (sample_player 2 60) (Some 1000) true;
                 mkPlayerRow (sample_player 3 70) (Some 1000) true];
  ft_phases := [];
  ft_fixtures := [sample_fx 1 1 1; sample_fx 2 2 1; sample_fx 3 2 1];
  ft_gameweeks := []; ft_items := []; ft_evidence := [] |}.

Lemma sample_tables_ok : fpl_ok sample_tables.
Proof. apply fpl_okb_ok. vm_compute. reflexivity. Qed.
