(* ===== verification/CorePersist.v ===== *)
(** * Persisting a core snapshot ([src/services/core-snapshot-persistence.service.ts])

    A complete snapshot is written in one transaction, under an exclusive lock of the current
    season.  Prices and the fixtures of a gameweek have other writers: the price sync and the live
    snapshot.  Each write carries the time at which its source was read, and the newer one wins.

    Operations are functions on [FplStore.FplTables]; [sourceCheckedAt] is a [Date], a whole number
    of milliseconds in microseconds. *)

From S2P Require Import Prelude JsCollections JsNumber Json CoreEntities CoreSnapshot EventLives Postgres FplStore.

(** src: src/domain/fpl-season.ts:24-26 explicitSeasonRef *)
Definition explicitSeasonRef (seasonCode : jsstr) : result (Z * jsstr) :=
  let* seasonId := seasonIdFromCode seasonCode in
  Ok (seasonId, seasonCode).

(** src: src/services/core-snapshot-persistence.service.ts:39-56 withCoreSnapshotWriteLock *)
Definition is_sole_current (season : Z * jsstr) (s : FplTables) : bool :=
  match List.filter se_isCurrent (ft_seasons s) with
  | [current] => (se_seasonId current =? season.1) && bool_decide (se_seasonCode current = season.2)
  | _ => false
  end.

(** src: src/services/core-snapshot-persistence.service.ts:31-59 withCoreSnapshotWriteLock *)
Definition withCoreSnapshotWriteLock {A : Type} (season : Z * jsstr)
    (operation : FplTables → result (FplTables * A)) (s : FplTables) : FplTables * result A :=
  transaction (λ s,
    reject_if negb (is_sole_current season s) with_code "CORE_SNAPSHOT_CURRENT_SEASON_MISMATCH" ;;
    operation s) s.

(** src: src/services/core-snapshot-persistence.service.ts:61-91 withCoreSnapshotReadLock *)
Definition withCoreSnapshotReadLock {A : Type} (season : Z * jsstr)
    (operation : FplTables → result (FplTables * A)) (s : FplTables) : FplTables * result A :=
  transaction (λ s,
    reject_if negb (is_sole_current season s) with_code "CURRENT_SEASON_MISMATCH" ;;
    operation s) s.

(** ** Identities *)

(** [map.get(k) ?? own] is not [own]. *)
Definition moved {K : Type} `{EqDecision K} (k : K) (ids : list (K * Z)) (own : Z) : bool :=
  negb (nullish (map_get k ids) own =? own).

(** src: src/services/core-snapshot-persistence.service.ts:277-284 assertIdentityAlignment *)
Definition team_conflict (teams : list Team) (stored : Team) : bool :=
  match map_get (tm_id stored) (map_by tm_id teams) with
  | Some candidate => negb (tm_code candidate =? tm_code stored) || negb (tm_pulseId candidate =? tm_pulseId stored)
  | None => false
  end ||
  moved (tm_code stored) (map_of_entries ((λ t, (tm_code t, tm_id t)) <$> teams)) (tm_id stored) ||
  moved (tm_pulseId stored) (map_of_entries ((λ t, (tm_pulseId t, tm_id t)) <$> teams)) (tm_id stored).

(** src: src/services/core-snapshot-persistence.service.ts:285-291 assertIdentityAlignment *)
Definition player_conflict (players : list Player) (stored : PlayerRow) : bool :=
  let code := pl_code (pr_player stored) in
  match map_get (player_id stored) (map_by pl_id players) with
  | Some candidate => negb (pl_code candidate =? code)
  | None => false
  end ||
  moved code (map_of_entries ((λ p, (pl_code p, pl_id p)) <$> players)) (player_id stored).

(** src: src/services/core-snapshot-persistence.service.ts:250-298 assertIdentityAlignment *)
Definition assertIdentityAlignment (snapshot : CoreSnapshot) (s : FplTables) : result unit :=
  reject_if existsb (team_conflict (cs_teams snapshot)) (ft_teams s) ||
            existsb (player_conflict (cs_players snapshot)) (ft_players s)
    with_code "CORE_SNAPSHOT_IDENTITY_CONFLICT" ;;
  Ok ().

(** ** Reconciliation *)

(** [row.time && row.time.getTime() >= time.getTime()] *)
Definition read_at_or_after (stamp : option Z) (time : Z) : bool := at_or_after (js_date <$> stamp) time.

(** src: src/services/core-snapshot-persistence.service.ts:176-201 reconcileDurableWinners *)
Definition newer_prices (ids : list Z) (time : Z) (players : list PlayerRow) : list (Z * Z) :=
  map_of_entries ((λ r, (player_id r, pl_price (pr_player r))) <$>
    List.filter (λ r, bool_decide (player_id r ∈ ids) && read_at_or_after (pr_priceSourceCheckedAt r) time) players).

(** src: src/services/core-snapshot-persistence.service.ts:222-225 reconcileDurableWinners *)
Definition reconcile_player (newerPriceById : list (Z * Z)) (p : Player) : Player :=
  match map_get (pl_id p) newerPriceById with
  | None => p
  | Some price => mkPlayer (pl_id p) (pl_code p) (pl_type p) (pl_teamId p) price (pl_startPrice p)
                    (pl_firstName p) (pl_secondName p) (pl_webName p)
  end.

(** src: src/services/core-snapshot-persistence.service.ts:203-215 reconcileDurableWinners *)
Definition live_owned_events (time : Z) (events : list EventRow) : list Z :=
  event_id <$> List.filter (λ r, read_at_or_after (er_liveSnapshotCheckedAt r) time) events.

Definition in_events (owned : list Z) (event : option Z) : bool :=
  match event with Some e => bool_decide (e ∈ owned) | None => false end.

(** src: src/services/core-snapshot-persistence.service.ts:226-246 reconcileDurableWinners *)
Definition reconcile_fixture (owned : list Z) (storedFixtures : list Fixture) (f : Fixture) : result Fixture :=
  let stored := map_get (fx_id f) (map_by fx_id storedFixtures) in
  if negb (in_events owned (fx_event f) || in_events owned (stored ≫= fx_event)) then Ok f
  else match stored with
       | None => Throw "CORE_SNAPSHOT_LIVE_FIXTURE_MISSING"
       | Some stored => Ok stored
       end.

(** src: src/services/core-snapshot-persistence.service.ts:168-248 reconcileDurableWinners *)
Definition reconcileDurableWinners (snapshot : CoreSnapshot) (sourceCheckedAt : option Z) (s : FplTables)
    : result CoreSnapshot :=
  match sourceCheckedAt with
  | None => Ok snapshot
  | Some time =>
      let newerPriceById := newer_prices (pl_id <$> cs_players snapshot) time (ft_players s) in
      let owned := live_owned_events time (ft_events s) in
      let storedFixtures := if is_nil owned then [] else fixtures_findAll s in
      let* fixtures := map_throwing (reconcile_fixture owned storedFixtures) (cs_fixtures snapshot) in
      Ok (mkCoreSnapshot (cs_season snapshot) (cs_events snapshot) (cs_teams snapshot)
            (reconcile_player newerPriceById <$> cs_players snapshot) (cs_phases snapshot) fixtures
            (cs_selectionRules snapshot))
  end.

(** ** Writing *)

(** src: src/services/core-snapshot-persistence.service.ts:19-25 CoreSnapshotPersistenceResult *)
Record CoreSnapshotPersistenceResult := mkPersistence {
  pn_events : Z; pn_teams : Z; pn_players : Z; pn_phases : Z; pn_fixtures : Z;
}.

(** src: src/services/core-snapshot-persistence.service.ts:93-100 requirePersistedCount *)
Definition requirePersistedCount {A B : Type} (actual : list A) (expected : list B) : result unit :=
  reject_if negb (length actual =? length expected)%nat with_code "CORE_SNAPSHOT_PERSISTENCE_INCOMPLETE" ;; Ok ().

Definition with_rules (rules : option SelectionRules) (r : SeasonRow) : SeasonRow :=
  mkSeason (se_seasonId r) (se_seasonCode r) (se_lifecycleState r) (se_isCurrent r) (se_metadata r) (Some rules).

Definition count_of {A : Type} (l : list A) : Z := Z.of_nat (length l).

Section persist.
Context (pg_time : jsstr → option Z) (clock : Z → Z).

(** The other members of the metadata are kept.
    src: src/services/core-snapshot-persistence.service.ts:102-166 persistCoreSnapshotRows *)
Definition persistCoreSnapshotRows (seasonId : Z) (snapshot : CoreSnapshot) (sourceCheckedAt : option Z)
    (s : FplTables) : result (FplTables * CoreSnapshotPersistenceResult) :=
  let* s := advanceLifecycle seasonId (cs_events snapshot) s in
  let* savedEvents := events_upsertBatch pg_time clock (cs_events snapshot) s in
  let* savedTeams := teams_upsertBatch (cs_teams snapshot) savedEvents.1 in
  let* savedPlayers := players_upsertBatch (cs_players snapshot) sourceCheckedAt true savedTeams.1 in
  let* savedPhases := phases_upsertBatch (cs_phases snapshot) savedPlayers.1 in
  let* absent := markAbsentUnscheduled (fx_id <$> cs_fixtures snapshot) sourceCheckedAt
                   (fx_code <$> cs_fixtures snapshot) savedPhases.1 in
  let* savedFixtures := fixtures_upsertBatch (cs_fixtures snapshot) absent.1 in
  let* _ := requirePersistedCount savedEvents.2 (cs_events snapshot) in
  let* _ := requirePersistedCount savedTeams.2 (cs_teams snapshot) in
  let* _ := requirePersistedCount savedPlayers.2 (cs_players snapshot) in
  let* _ := requirePersistedCount savedPhases.2 (cs_phases snapshot) in
  let* _ := requirePersistedCount savedFixtures.2 (cs_fixtures snapshot) in
  let s := savedFixtures.1 in
  let seasons := (update_where (λ r, se_seasonId r =? seasonId) (with_rules (cs_selectionRules snapshot))
                    (ft_seasons s)).1 in
  Ok (set_seasons seasons s,
      mkPersistence (count_of savedEvents.2) (count_of savedTeams.2) (count_of savedPlayers.2)
        (count_of savedPhases.2) (count_of savedFixtures.2)).

(** src: src/services/core-snapshot-persistence.service.ts:308-323 persistCoreSnapshot *)
Definition persist_operation (seasonId : Z) (snapshot : CoreSnapshot) (sourceCheckedAt : option Z) (s : FplTables)
    : result (FplTables * (CoreSnapshot * CoreSnapshotPersistenceResult)) :=
  let* _ := assertIdentityAlignment snapshot s in
  let* reconciled := reconcileDurableWinners snapshot sourceCheckedAt s in
  let* persistence := persistCoreSnapshotRows seasonId reconciled sourceCheckedAt s in
  Ok (persistence.1, (reconciled, persistence.2)).

(** src: src/services/core-snapshot-persistence.service.ts:300-326 persistCoreSnapshot *)
Definition persistCoreSnapshot (snapshot : CoreSnapshot) (sourceCheckedAt : option Z) (s : FplTables)
    : FplTables * result (CoreSnapshot * CoreSnapshotPersistenceResult) :=
  match explicitSeasonRef (cs_season snapshot) with
  | Throw e => (s, Throw e)
  | Ok season => withCoreSnapshotWriteLock season (persist_operation season.1 snapshot sourceCheckedAt) s
  end.
End persist.

(** ** The snapshots that are persisted *)

(** What an accepted snapshot promises ([prepareCoreSnapshot_coherent]). *)
Record coherent_snapshot (c : CoreSnapshot) : Prop := {
  co_players : cs_players c ≠ [];
  co_fixtures : cs_fixtures c ≠ [];
  co_fixture_ids : NoDup (fx_id <$> cs_fixtures c);
  co_positive : ∀ f, f ∈ cs_fixtures c → 0 < fx_id f ∧ 0 < fx_code f;
}.

Lemma persist_success pg_time clock snapshot time s s' r :
  persistCoreSnapshot pg_time clock snapshot time s = (s', Ok r) →
  ∃ seasonId,
    is_sole_current (seasonId, cs_season snapshot) s = true ∧
    assertIdentityAlignment snapshot s = Ok () ∧
    reconcileDurableWinners snapshot time s = Ok r.1 ∧
    persistCoreSnapshotRows pg_time clock seasonId r.1 time s = Ok (s', r.2).
Proof.
  unfold persistCoreSnapshot, explicitSeasonRef. destruct (seasonIdFromCode _) as [seasonId|]; [|done]. cbn.
  unfold withCoreSnapshotWriteLock. intros H. apply transaction_ok in H.
  apply throw_when_ok in H as [Hsole H]. apply negb_false_iff in Hsole.
  unfold persist_operation in H. apply result_bind_ok in H as ([] & Hid & H).
  apply result_bind_ok in H as (rec & Hrec & H). apply result_bind_ok in H as ([s1 res] & Hrows & [= <- <-]).
  by exists seasonId.
Qed.

(** The tables between the steps of a persist. *)
Record persist_trace (pg_time : jsstr → option Z) (clock : Z → Z) (seasonId : Z) (c : CoreSnapshot)
    (time : option Z) (s s' : FplTables) := {
  tr_s1 : FplTables; tr_s2 : FplTables; tr_s3 : FplTables; tr_s4 : FplTables; tr_s5 : FplTables;
  tr_s6 : FplTables; tr_s7 : FplTables;
  tr_seasons : advanceLifecycle seasonId (cs_events c) s = Ok tr_s1;
  tr_events : ∃ w, events_upsertBatch pg_time clock (cs_events c) tr_s1 = Ok (tr_s2, w);
  tr_teams : ∃ w, teams_upsertBatch (cs_teams c) tr_s2 = Ok (tr_s3, w);
  tr_players : ∃ w, players_upsertBatch (cs_players c) time true tr_s3 = Ok (tr_s4, w);
  tr_phases : ∃ w, phases_upsertBatch (cs_phases c) tr_s4 = Ok (tr_s5, w);
  tr_absent : ∃ n, markAbsentUnscheduled (fx_id <$> cs_fixtures c) time (fx_code <$> cs_fixtures c) tr_s5 = Ok (tr_s6, n);
  tr_fixtures : ∃ w, fixtures_upsertBatch (cs_fixtures c) tr_s6 = Ok (tr_s7, w);
  tr_last : ∃ seasons, s' = set_seasons seasons tr_s7;
}.

Lemma persist_rows_trace pg_time clock seasonId c time s s' res :
  persistCoreSnapshotRows pg_time clock seasonId c time s = Ok (s', res) →
  inhabited (persist_trace pg_time clock seasonId c time s s').
Proof.
  unfold persistCoreSnapshotRows. intros H.
  apply result_bind_ok in H as (s1 & H1 & H). apply result_bind_ok in H as ([s2 w2] & H2 & H).
  apply result_bind_ok in H as ([s3 w3] & H3 & H). apply result_bind_ok in H as ([s4 w4] & H4 & H).
  apply result_bind_ok in H as ([s5 w5] & H5 & H). apply result_bind_ok in H as ([s6 w6] & H6 & H).
  apply result_bind_ok in H as ([s7 w7] & H7 & H). cbn [fst snd] in *.
  do 5 apply result_bind_ok in H as (? & _ & H). injection H as <- _.
  constructor. econstructor; eauto.
Qed.

(** ** The invariant *)

Lemma persistCoreSnapshotRows_fpl_ok pg_time clock seasonId c time s s' res :
  fpl_ok s → persistCoreSnapshotRows pg_time clock seasonId c time s = Ok (s', res) → fpl_ok s'.
Proof.
  intros Hs H. apply persist_rows_trace in H as
    [[s1 s2 s3 s4 s5 s6 s7 H0 [w1 H1] [w2 H2] [w3 H3] [w4 H4] [n H5] [w6 H6] [se' ->]]].
  apply advanceLifecycle_ok in H0 as (se & ->).
  assert (fpl_ok (set_seasons se s)) as Hs1 by (by destruct Hs).
  eapply events_upsertBatch_fpl_ok in H1; [|done]. eapply teams_upsertBatch_fpl_ok in H2; [|done].
  eapply players_upsertBatch_fpl_ok in H3; [|done]. eapply phases_upsertBatch_fpl_ok in H4; [|done].
  eapply markAbsentUnscheduled_fpl_ok in H5; [|done]. eapply fixtures_upsertBatch_fpl_ok in H6; [|done].
  by destruct H6.
Qed.

(** ** What is stored *)

(** The tables a persist writes, table by table. *)
Lemma persist_tables pg_time clock seasonId c time s s' res :
  cs_players c ≠ [] → persistCoreSnapshotRows pg_time clock seasonId c time s = Ok (s', res) →
  ft_events s' = upsert_batch event_id (merge_event clock) (new_event pg_time clock <$> cs_events c) (ft_events s) ∧
  ft_teams s' = upsert_batch tm_id (λ _ new, new) (cs_teams c) (ft_teams s) ∧
  ft_players s' = upsert_batch player_id (merge_player time) (new_player time <$> cs_players c)
                    (mark_missing_inactive (pl_id <$> cs_players c) (ft_players s)) ∧
  ft_phases s' = upsert_batch ph_id (λ _ new, new) (cs_phases c) (ft_phases s) ∧
  (NoDup (ev_id <$> cs_events c) ∧ NoDup (tm_id <$> cs_teams c) ∧ NoDup (pl_id <$> cs_players c) ∧
   NoDup (ph_id <$> cs_phases c)) ∧
  (ft_gameweeks s' = ft_gameweeks s ∧ ft_items s' = ft_items s ∧ ft_evidence s' = ft_evidence s).
Proof.
  intros Hne H. apply persist_rows_trace in H as
    [[s1 s2 s3 s4 s5 s6 s7 H0 [w1 H1] [w2 H2] [w3 H3] [w4 H4] [n H5] [w6 H6] [se' ->]]].
  apply advanceLifecycle_ok in H0 as (se & ->).
  apply events_upsertBatch_ok in H1 as (He & -> & _). apply teams_upsertBatch_ok in H2 as (Ht & ->).
  apply players_upsertBatch_ok in H3 as (Hp & ->); [|done]. apply phases_upsertBatch_ok in H4 as (Hph & ->).
  apply fixtures_upsertBatch_ok in H6 as ->.
  unfold markAbsentUnscheduled in H5. destruct (is_nil _); [by injection H5 as <- _|].
  apply throw_when_ok in H5 as [_ H5]. by injection H5 as <- _.
Qed.

Lemma persist_fixture_table pg_time clock seasonId c time s s' res :
  cs_fixtures c ≠ [] → (∀ f, f ∈ cs_fixtures c → 0 < fx_id f ∧ 0 < fx_code f) →
  persistCoreSnapshotRows pg_time clock seasonId c time s = Ok (s', res) →
  ∃ fence, (∀ f, fence f = ownershipFence time
                   (upsert_batch event_id (merge_event clock) (new_event pg_time clock <$> cs_events c) (ft_events s)) f) ∧
  ft_fixtures s' = write_fixtures (cs_fixtures c)
    (omap (retire_fixture (fx_id <$> cs_fixtures c) (fx_code <$> cs_fixtures c) fence) (ft_fixtures s)).
Proof.
  intros Hne Hpos H. apply persist_rows_trace in H as
    [[s1 s2 s3 s4 s5 s6 s7 H0 [w1 H1] [w2 H2] [w3 H3] [w4 H4] [n H5] [w6 H6] [se' ->]]].
  apply advanceLifecycle_ok in H0 as (se & ->).
  apply events_upsertBatch_ok in H1 as (He & -> & _). apply teams_upsertBatch_ok in H2 as (Ht & ->).
  assert (ft_fixtures s4 = ft_fixtures s ∧ ft_events s4 = upsert_batch event_id (merge_event clock)
    (new_event pg_time clock <$> cs_events c) (ft_events s)) as [Hf Hev].
  { unfold players_upsertBatch in H3. destruct (is_nil _); [by injection H3 as <- _|].
    by apply result_bind_ok in H3 as ([? ?] & _ & [= <- _]). }
  apply phases_upsertBatch_ok in H4 as (_ & ->).
  apply fixtures_upsertBatch_ok in H6 as ->. apply markAbsentUnscheduled_ok in H5 as ->.
  - eexists. split; [|cbn; by rewrite Hf]. cbn. by rewrite Hev.
  - by destruct (cs_fixtures c).
  - apply Forall_forall. intros i (f & -> & Hin)%list_elem_of_fmap. by apply Hpos.
  - apply Forall_forall. intros i (f & -> & Hin)%list_elem_of_fmap. by apply Hpos.
Qed.

(** ** Players *)

Lemma find_by_fmap {A B K} `{EqDecision K} (key : A → K) (key' : B → K) (f : B → A) k l :
  (∀ x, key (f x) = key' x) → find_by key k (f <$> l) = f <$> find_by key' k l.
Proof.
  intros Hk. induction l as [|x l IH]; [done|]. cbn. rewrite Hk. by destruct (decide (key' x = k)).
Qed.

Lemma find_by_filter {A K} `{EqDecision K} (key : A → K) (keep : A → bool) k l :
  NoDup (key <$> l) →
  find_by key k (List.filter keep l) =
  match find_by key k l with Some r => if keep r then Some r else None | None => None end.
Proof.
  induction l as [|x l IH]; [done|]. cbn. intros [Hx Hnd]%NoDup_cons.
  destruct (decide (key x = k)) as [<-|Hne].
  - destruct (keep x); cbn; [by rewrite decide_True|].
    rewrite IH by done. by rewrite (proj2 (find_by_None key (key x) l) Hx).
  - destruct (keep x); cbn; [rewrite decide_False by done|]; by apply IH.
Qed.

(** A [Date] that was read loses microseconds, which a comparison with a [Date] does not see. *)
Lemma read_at_or_after_eq stamp time : (1000 | time) → read_at_or_after stamp time = at_or_after stamp time.
Proof.
  intros [q ->]. destruct stamp as [t|]; [|done]. cbn. apply Bool.eq_iff_eq_true. rewrite !Z.leb_le.
  unfold js_date. split; intros; divlia.
Qed.

(** The row of a player after a snapshot read at [time]. *)
Definition persisted_player (time : Z) (incoming : option Player) (stored : option PlayerRow) : option PlayerRow :=
  match incoming, stored with
  | Some p, Some old =>
      Some (if at_or_after (pr_priceSourceCheckedAt old) time
            then mkPlayerRow (reconcile_player [(pl_id p, pl_price (pr_player old))] p)
                   (pr_priceSourceCheckedAt old) true
            else mkPlayerRow p (Some time) true)
  | Some p, None => Some (mkPlayerRow p (Some time) true)
  | None, Some old => Some (with_active false old)
  | None, None => None
  end.

Lemma reconcile_player_id newer p : pl_id (reconcile_player newer p) = pl_id p.
Proof. unfold reconcile_player. by destruct (map_get _ _). Qed.

Lemma newer_prices_get ids time players id :
  NoDup (player_id <$> players) → id ∈ ids → (1000 | time) →
  map_get id (newer_prices ids time players) =
  match find_by player_id id players with
  | Some r => if at_or_after (pr_priceSourceCheckedAt r) time then Some (pl_price (pr_player r)) else None
  | None => None
  end.
Proof.
  intros Hnd Hin Htime. unfold newer_prices.
  rewrite (map_get_entries player_id (λ r, pl_price (pr_player r))) by by apply NoDup_fmap_list_filter.
  rewrite find_by_filter by done. destruct (find_by player_id id players) as [r|] eqn:E; [|done].
  apply find_by_Some in E as [_ E]. rewrite E, bool_decide_true by done. cbn [andb].
  rewrite read_at_or_after_eq by done. by destruct (at_or_after _ _).
Qed.

Lemma reconcile_fields snapshot time s c :
  reconcileDurableWinners snapshot (Some time) s = Ok c →
  cs_events c = cs_events snapshot ∧ cs_teams c = cs_teams snapshot ∧ cs_phases c = cs_phases snapshot ∧
  cs_players c = reconcile_player (newer_prices (pl_id <$> cs_players snapshot) time (ft_players s)) <$>
                   cs_players snapshot ∧
  Forall2 (λ f g, reconcile_fixture (live_owned_events time (ft_events s))
                    (if is_nil (live_owned_events time (ft_events s)) then [] else fixtures_findAll s) f = Ok g)
    (cs_fixtures snapshot) (cs_fixtures c).
Proof.
  unfold reconcileDurableWinners. intros H. apply result_bind_ok in H as (fs & H & [= <-]).
  apply map_throwing_ok in H. by repeat split.
Qed.

Lemma reconcile_players_ids newer (players : list Player) : pl_id <$> (reconcile_player newer <$> players) = pl_id <$> players.
Proof. rewrite <-list_fmap_compose. apply list_fmap_ext. intros i p _. apply reconcile_player_id. Qed.

Lemma persist_players pg_time clock snapshot time s s' r id :
  fpl_ok s → coherent_snapshot snapshot → (1000 | time) →
  persistCoreSnapshot pg_time clock snapshot (Some time) s = (s', Ok r) →
  find_by player_id id (ft_players s') =
  persisted_player time (find_by pl_id id (cs_players snapshot)) (find_by player_id id (ft_players s)).
Proof.
  intros Hs Hc Htime H. apply persist_success in H as (sid & _ & _ & Hrec & Hrows).
  apply reconcile_fields in Hrec as (_ & _ & _ & Hp & _).
  apply persist_tables in Hrows as (_ & _ & -> & _ & (_ & _ & Hnd & _) & _).
  2: { rewrite Hp. intros ?%fmap_nil_inv. by destruct Hc. }
  rewrite Hp, reconcile_players_ids in *. set (ids := pl_id <$> cs_players snapshot) in *.
  rewrite find_by_upsert_batch; [|auto with jsdb|].
  2: { rewrite <-(list_fmap_compose (new_player _)). change (NoDup (pl_id <$> (reconcile_player
         (newer_prices ids time (ft_players s)) <$> cs_players snapshot))). by rewrite reconcile_players_ids. }
  rewrite (find_by_fmap player_id pl_id) by done. rewrite (find_by_fmap pl_id pl_id) by apply reconcile_player_id.
  assert (∀ k, find_by player_id k (mark_missing_inactive ids (ft_players s)) =
    (λ o, if bool_decide (player_id o ∉ ids) then with_active false o else o) <$> find_by player_id k (ft_players s))
    as Hmark.
  { intros k. unfold mark_missing_inactive. by rewrite find_by_update. }
  destruct (find_by pl_id id (cs_players snapshot)) as [p|] eqn:Ep; cbn [fmap option_fmap option_map].
  - apply find_by_Some in Ep as [Hin <-]. assert (pl_id p ∈ ids) as Hid by by apply list_elem_of_fmap_2.
    f_equal. unfold written_row. change (player_id (new_player (Some time) ?q)) with (pl_id q).
    rewrite reconcile_player_id, Hmark. unfold reconcile_player at 1 2.
    rewrite newer_prices_get by (done || by destruct Hs).
    destruct (find_by player_id (pl_id p) (ft_players s)) as [old|] eqn:Eo; cbn; [|done].
    apply find_by_Some in Eo as [_ Eo]. rewrite Eo, bool_decide_false by tauto.
    unfold merge_player, reconcile_player. cbn.
    destruct (at_or_after (pr_priceSourceCheckedAt old) time); [by rewrite decide_True|done].
  - rewrite Hmark. destruct (find_by player_id id (ft_players s)) as [old|] eqn:Eo; [|done]. cbn.
    apply find_by_Some in Eo as [_ <-]. rewrite bool_decide_true; [done|].
    by apply find_by_None in Ep.
Qed.

Lemma persist_active pg_time clock snapshot time s s' r :
  fpl_ok s → coherent_snapshot snapshot →
  persistCoreSnapshot pg_time clock snapshot (Some time) s = (s', Ok r) →
  players_findAll s' ≡ₚ cs_players r.1.
Proof.
  intros Hs Hc H. apply persist_success in H as (sid & _ & _ & Hrec & Hrows).
  apply reconcile_fields in Hrec as (_ & _ & _ & Hp & _).
  apply persist_tables in Hrows as (_ & _ & Heq & _ & (_ & _ & Hnd & _) & _).
  2: { rewrite Hp. intros ?%fmap_nil_inv. by destruct Hc. }
  set (c := r.1) in *. unfold players_findAll. rewrite Heq.
  assert (NoDup (player_id <$> mark_missing_inactive (pl_id <$> cs_players c) (ft_players s))) as Hm.
  { unfold mark_missing_inactive. rewrite update_keeps by done. by destruct Hs. }
  assert (NoDup (player_id <$> (new_player (Some time) <$> cs_players c))) as Hn.
  { rewrite <-(list_fmap_compose (new_player _)). done. }
  set (table := upsert_batch _ _ _ _).
  assert (NoDup (player_id <$> table)) as Ht by (apply upsert_batch_NoDup; [auto with jsdb|done]).
  apply NoDup_Permutation.
  - apply (NoDup_fmap_1 pl_id). rewrite <-list_fmap_compose. change (pl_id ∘ pr_player) with player_id.
    by apply NoDup_fmap_list_filter.
  - by apply (NoDup_fmap_1 pl_id).
  - intros p. rewrite list_elem_of_fmap. setoid_rewrite list_elem_of_In. setoid_rewrite filter_In.
    setoid_rewrite <-list_elem_of_In. split.
    + intros (x & -> & Hx & Ha). apply elem_of_upsert_batch in Hx as [(y & Hy & ->)|[Hx Hk]];
        [| |auto with jsdb|done|done].
      * apply list_elem_of_fmap in Hy as (q & -> & Hq). unfold written_row. by destruct (find_by _ _ _).
      * exfalso. unfold mark_missing_inactive in Hx. apply elem_of_update in Hx as (o & Ho & ->).
        rewrite <-(list_fmap_compose (new_player _)) in Hk. change (player_id ∘ new_player (Some time)) with pl_id in Hk.
        case_bool_decide as Hin; [done|]. tauto.
    + intros Hin. exists (written_row player_id (merge_player (Some time))
        (mark_missing_inactive (pl_id <$> cs_players c) (ft_players s)) (new_player (Some time) p)).
      split; [unfold written_row; by destruct (find_by _ _ _)|].
      split; [|unfold written_row; by destruct (find_by _ _ _)].
      assert (find_by player_id (pl_id p) table = Some (written_row player_id (merge_player (Some time))
        (mark_missing_inactive (pl_id <$> cs_players c) (ft_players s)) (new_player (Some time) p))) as Hf;
        [|by apply find_by_Some in Hf as [? _]].
      unfold table. rewrite find_by_upsert_batch by (done || auto with jsdb).
      rewrite (find_by_fmap player_id pl_id) by done. by rewrite (find_by_elem pl_id _ p Hnd Hin).
Qed.

(** ** Fixtures *)

(** A live snapshot at or after [time] owns a gameweek. *)
Definition owned_event (time : Z) (events : list EventRow) (event : option Z) : bool :=
  match event ≫= λ e, find_by event_id e events with
  | Some r => at_or_after (er_liveSnapshotCheckedAt r) time
  | None => false
  end.

Lemma find_existsb {A} (key : A → Z) (k : Z) (p : A → bool) (l : list A) :
  NoDup (key <$> l) →
  existsb (λ x, bool_decide (Some k = Some (key x)) && p x) l = from_option p false (find_by key k l).
Proof.
  induction l as [|x l IH]; [done|]. cbn. intros [Hx Hnd]%NoDup_cons. rewrite IH by done.
  destruct (decide (key x = k)) as [<-|Hne].
  - rewrite bool_decide_true by done. rewrite (proj2 (find_by_None key (key x) l) Hx). cbn. by rewrite orb_false_r.
  - by rewrite bool_decide_false by congruence.
Qed.

Lemma live_owned_event time events f :
  NoDup (event_id <$> events) → live_owned time events f = owned_event time events (fx_event f).
Proof.
  intros Hnd. unfold live_owned, owned_event. destruct (fx_event f) as [e|]; cbn.
  - rewrite (find_existsb event_id e (λ r, at_or_after (er_liveSnapshotCheckedAt r) time)) by done.
    by destruct (find_by _ _ _).
  - induction events as [|x events IH]; [done|]. cbn. rewrite bool_decide_false by done. apply IH.
    by apply NoDup_cons in Hnd as [_ ?].
Qed.

Lemma in_owned_event time events event :
  NoDup (event_id <$> events) → (1000 | time) →
  in_events (live_owned_events time events) event = owned_event time events event.
Proof.
  intros Hnd Htime. unfold live_owned_events, owned_event, in_events. destruct event as [e|]; [|done]. cbn.
  apply Bool.eq_iff_eq_true. rewrite bool_decide_eq_true.
  destruct (find_by event_id e events) as [r|] eqn:E.
  - apply find_by_Some in E as [Hr <-]. rewrite <-read_at_or_after_eq by done. split.
    + intros (x & Hx & Hin)%list_elem_of_fmap. rewrite list_elem_of_In, filter_In, <-list_elem_of_In in Hin.
      destruct Hin as [Hin Hx']. assert (x = r) as ->; [|done].
      apply (find_by_elem event_id) in Hin; [|done]. rewrite <-Hx in Hin.
      apply (find_by_elem event_id) in Hr; [|done]. congruence.
    + intros Ha. apply list_elem_of_fmap_2. by rewrite list_elem_of_In, filter_In, <-list_elem_of_In.
  - split; [|done]. intros (x & -> & Hin)%list_elem_of_fmap.
    rewrite list_elem_of_In, filter_In, <-list_elem_of_In in Hin. destruct Hin as [Hin _].
    apply find_by_None in E. exfalso. apply E. by apply list_elem_of_fmap_2.
Qed.

(** A core snapshot does not touch the times of live snapshots. *)
Lemma owned_event_upsert pg_time clock time events stored event :
  NoDup (ev_id <$> events) →
  owned_event time (upsert_batch event_id (merge_event clock) (new_event pg_time clock <$> events) stored) event =
  owned_event time stored event.
Proof.
  intros Hnd. unfold owned_event. destruct event as [e|]; [|done]. cbn.
  rewrite find_by_upsert_batch; [|auto with jsdb|by rewrite <-list_fmap_compose].
  rewrite (find_by_fmap event_id ev_id) by done.
  destruct (find_by ev_id e events) as [v|] eqn:E; cbn; [|done]. apply find_by_Some in E as [_ <-].
  unfold written_row. change (event_id (new_event pg_time clock v)) with (ev_id v).
  by destruct (find_by event_id (ev_id v) stored).
Qed.

Lemma find_by_Permutation {A K} `{EqDecision K} (key : A → K) k l l' :
  NoDup (key <$> l) → l ≡ₚ l' → find_by key k l = find_by key k l'.
Proof.
  intros Hnd Hp. assert (NoDup (key <$> l')) as Hnd' by by rewrite <-Hp.
  destruct (find_by key k l') as [r|] eqn:E.
  - apply find_by_Some in E as [Hin <-]. rewrite <-Hp in Hin. by apply find_by_elem.
  - apply find_by_None in E. apply find_by_None. by rewrite Hp.
Qed.

Lemma find_by_omap {A B K} `{EqDecision K} (key : A → K) (key' : B → K) (f : A → option B) k l :
  (∀ x y, f x = Some y → key' y = key x) → NoDup (key <$> l) →
  find_by key' k (omap f l) = find_by key k l ≫= f.
Proof.
  intros Hk. induction l as [|x l IH]; [done|]. cbn. intros [Hx Hnd]%NoDup_cons.
  destruct (f x) as [y|] eqn:E; cbn; rewrite ?(Hk _ _ E);
    destruct (decide (key x = k)) as [<-|Hne]; cbn; rewrite ?E, ?IH by done; try done.
  by rewrite (proj2 (find_by_None key (key x) l) Hx).
Qed.

(** The row of a fixture after a snapshot read at [time] whose fixtures have [codes] in the end. *)
Definition persisted_fixture (time : Z) (events : list EventRow) (codes : list Z)
    (incoming stored : option Fixture) : option Fixture :=
  if owned_event time events (stored ≫= fx_event) || owned_event time events (incoming ≫= fx_event) then stored
  else match incoming, stored with
       | Some f, _ => Some (new_fixture f)
       | None, Some old =>
           if bool_decide (fx_code old ∈ codes) then None else Some (with_event None (fx_started old) old)
       | None, None => None
       end.

Lemma reconcile_fixture_ok time s f g :
  fpl_ok s → (1000 | time) →
  reconcile_fixture (live_owned_events time (ft_events s))
    (if is_nil (live_owned_events time (ft_events s)) then [] else fixtures_findAll s) f = Ok g →
  let stored := find_by fx_id (fx_id f) (ft_fixtures s) in
  if owned_event time (ft_events s) (stored ≫= fx_event) || owned_event time (ft_events s) (fx_event f)
  then stored = Some g else g = f.
Proof.
  intros Hs Htime. unfold reconcile_fixture.
  pose proof (ok_fixtures s Hs) as Hnf. pose proof (ok_events s Hs) as Hne.
  destruct (is_nil (live_owned_events time (ft_events s))) eqn:En.
  { rewrite <-!in_owned_event by done. destruct (live_owned_events time (ft_events s)); [|done].
    assert (∀ event, in_events [] event = false) as Hnone.
    { intros [e|]; [|done]. cbn. apply bool_decide_false. set_solver. }
    rewrite !Hnone. cbn. congruence. }
  assert (ft_fixtures s ≡ₚ fixtures_findAll s) as Hp.
  { unfold fixtures_findAll. symmetry. apply js_sort_perm. }
  rewrite map_get_map_by by by rewrite <-Hp. rewrite <-(find_by_Permutation fx_id _ _ _ Hnf Hp).
  rewrite !in_owned_event, orb_comm by done. cbn zeta.
  destruct (_ || _); cbn; [|congruence]. destruct (find_by _ _ _); congruence.
Qed.

Lemma reconciled_ids time s fs gs :
  fpl_ok s → (1000 | time) →
  Forall2 (λ f g, reconcile_fixture (live_owned_events time (ft_events s))
                    (if is_nil (live_owned_events time (ft_events s)) then [] else fixtures_findAll s) f = Ok g) fs gs →
  Forall2 (λ f g, fx_id f = fx_id g ∧
    let stored := find_by fx_id (fx_id f) (ft_fixtures s) in
    if owned_event time (ft_events s) (stored ≫= fx_event) || owned_event time (ft_events s) (fx_event f)
    then stored = Some g else g = f) fs gs.
Proof.
  intros Hs Htime HF. eapply Forall2_impl; [exact HF|]. intros f g H. apply reconcile_fixture_ok in H; [|done..]. cbn zeta in H.
  split; [|done]. destruct (_ || _); [|by subst]. by apply find_by_Some in H as [_ <-].
Qed.

Lemma Forall2_find_by {A K} `{EqDecision K} (key : A → K) (R : A → A → Prop) k l l' :
  Forall2 (λ x y, key x = key y ∧ R x y) l l' →
  match find_by key k l, find_by key k l' with
  | Some x, Some y => key x = k ∧ R x y
  | None, None => True
  | _, _ => False
  end.
Proof.
  induction 1 as [|x y l l' [Hk HR] _ IH]; [done|]. cbn. rewrite <-Hk. by destruct (decide (key x = k)).
Qed.

Lemma persist_fixtures pg_time clock snapshot time s s' r id :
  fpl_ok s → coherent_snapshot snapshot → (1000 | time) →
  persistCoreSnapshot pg_time clock snapshot (Some time) s = (s', Ok r) →
  find_by fx_id id (ft_fixtures s') =
  persisted_fixture time (ft_events s) (fx_code <$> cs_fixtures r.1)
    (find_by fx_id id (cs_fixtures snapshot)) (find_by fx_id id (ft_fixtures s)).
Proof.
  intros Hs Hc Htime H. apply persist_success in H as (sid & _ & _ & Hrec & Hrows).
  apply reconcile_fields in Hrec as (_ & _ & _ & Hpl & Hf). apply reconciled_ids in Hf; [|done..].
  set (c := r.1) in *.
  assert (fx_id <$> cs_fixtures c = fx_id <$> cs_fixtures snapshot) as Hids.
  { clear -Hf. induction Hf as [|? ? ? ? [? _] _ IH]; [done|]. cbn. by f_equal. }
  pose proof (persist_tables _ _ _ _ _ _ _ _ ltac:(rewrite Hpl; intros ?%fmap_nil_inv; by destruct Hc) Hrows)
    as (_ & _ & _ & _ & (Hnde & _) & _).
  apply persist_fixture_table in Hrows as (fence & Hfence & ->).
  2: { intros Hn. rewrite Hn in Hids. symmetry in Hids. apply fmap_nil_inv in Hids. by destruct Hc. }
  2: { intros g Hg. apply list_elem_of_lookup in Hg as [i Hg].
       destruct (Forall2_lookup_r _ _ _ _ _ Hf Hg) as (f & Hfi & <- & Hfg).
       apply list_elem_of_lookup_2 in Hfi. apply Hc in Hfi as [Hi Hcode]. split; [done|].
       cbn zeta in Hfg. destruct (_ || _); [|by subst].
       apply find_by_Some in Hfg as [Hg' _]. apply Hs in Hg' as [Hg' _]. unfold fixture_checks in Hg'. by boolsolve. }
  unfold write_fixtures. rewrite find_by_upsert_batch; [|done|].
  2: { rewrite <-(list_fmap_compose new_fixture). change (fx_id ∘ new_fixture) with fx_id. rewrite Hids. by apply Hc. }
  rewrite (find_by_fmap fx_id fx_id) by done.
  assert (∀ old, find_by fx_id id (ft_fixtures s) = Some old →
    fence old = negb (owned_event time (ft_events s) (fx_event old))) as Hfen.
  { intros old _. rewrite Hfence. cbn. rewrite live_owned_event.
    - rewrite owned_event_upsert; [done|]. done.
    - apply upsert_batch_NoDup; [auto with jsdb|by destruct Hs]. }
  pose proof (Forall2_find_by fx_id _ id _ _ Hf) as Hfind. cbn beta in Hfind.
  unfold persisted_fixture.
  destruct (find_by fx_id id (cs_fixtures snapshot)) as [f|] eqn:Ef, (find_by fx_id id (cs_fixtures c)) as [g|] eqn:Eg;
    try done; cbn [fmap option_fmap option_map mbind option_bind].
  - destruct Hfind as [-> Hfg]. cbn zeta in Hfg. rewrite written_row_replace.
    destruct (_ || _) eqn:Eo; [|by rewrite Hfg]. rewrite Hfg. f_equal.
    apply find_by_Some in Hfg as [Hg' _]. apply Hs in Hg' as [_ [b Hb]]. unfold new_fixture. rewrite Hb.
    destruct g; cbn in *; by subst.
  - rewrite (find_by_omap fx_id fx_id); [|apply retire_fixture_id|by destruct Hs].
    destruct (find_by fx_id id (ft_fixtures s)) as [old|] eqn:Eold; cbn; [|done].
    unfold retire_fixture. rewrite (Hfen old) by done. rewrite orb_false_r, negb_involutive.
    apply find_by_None in Eg. apply find_by_Some in Eold as [_ <-].
    rewrite bool_decide_false by done. cbn. destruct (owned_event _ _ _); [done|].
    case_bool_decide; [done|]. f_equal. destruct old as [? ? []]; done.
Qed.

(** ** Accepted snapshots can be persisted *)

Lemma FixtureSchema_positive date_parse raw f :
  transformFixture date_parse raw = Some f → 0 < fx_id f ∧ 0 < fx_code f.
Proof.
  unfold transformFixture. destruct (negb _); [done|]. destruct (FixtureSchema _) eqn:E; [|done].
  intros [= <-]. unfold FixtureSchema, positive in E. by boolsolve.
Qed.

Lemma prepareCoreSnapshot_coherent date_parse bootstrap rawFixtures c :
  prepareCoreSnapshot date_parse bootstrap rawFixtures = Ok c → coherent_snapshot c.
Proof.
  intros H. apply prepareCoreSnapshot_is_complete in H. destruct H. destruct cs_team_ids as [Hnd Hlen].
  unfold CORE_SNAPSHOT_EXPECTED_TEAMS in Hlen.
  destruct (cs_teams c) as [|t [|u teams]] eqn:Et; cbn in Hlen; try lia.
  cbn in Hnd. apply NoDup_cons in Hnd as [Htu Hnd].
  constructor; [..|done|].
  - intros Hp. destruct cs_squads. specialize (cp_types 1) as [_ Ht]. rewrite Hp in Ht.
    specialize (Ht ltac:(lia)). by apply elem_of_nil in Ht.
  - intros Hf. specialize (cs_round_robin (tm_id t) (tm_id u)). rewrite Hf in cs_round_robin.
    cbn in cs_round_robin. discriminate cs_round_robin; set_solver.
  - intros f Hf. apply mapM_Some in cs_all_fixtures. apply list_elem_of_lookup in Hf as [i Hf].
    destruct (Forall2_lookup_r _ _ _ _ _ cs_all_fixtures Hf) as (raw & _ & Hraw).
    by apply FixtureSchema_positive in Hraw.
Qed.

Lemma reconcile_same snapshot time s c :
  reconcileDurableWinners snapshot time s = Ok c →
  cs_events c = cs_events snapshot ∧ cs_teams c = cs_teams snapshot ∧ cs_phases c = cs_phases snapshot ∧
  pl_id <$> cs_players c = pl_id <$> cs_players snapshot ∧
  (λ p, (pl_id p, pl_code p)) <$> cs_players c = (λ p, (pl_id p, pl_code p)) <$> cs_players snapshot.
Proof.
  destruct time as [time|]; [|by intros [= <-]].
  intros (He & Ht & Hp & Hpl & _)%reconcile_fields. repeat split; try done.
  - rewrite Hpl. apply reconcile_players_ids.
  - rewrite Hpl, <-list_fmap_compose. apply list_fmap_ext. intros i p _. unfold reconcile_player. cbn.
    by destruct (map_get _ _).
Qed.

(** ** What an accepted persist stores *)

Record persisted (time : Z) (snapshot reconciled : CoreSnapshot) (s s' : FplTables) : Prop := {
  ps_players id : find_by player_id id (ft_players s') =
    persisted_player time (find_by pl_id id (cs_players snapshot)) (find_by player_id id (ft_players s));
  ps_active : players_findAll s' ≡ₚ cs_players reconciled;
  ps_fixtures id : find_by fx_id id (ft_fixtures s') =
    persisted_fixture time (ft_events s) (fx_code <$> cs_fixtures reconciled)
      (find_by fx_id id (cs_fixtures snapshot)) (find_by fx_id id (ft_fixtures s));
  ps_teams t : t ∈ cs_teams snapshot → find_by tm_id (tm_id t) (ft_teams s') = Some t;
  ps_phases p : p ∈ cs_phases snapshot → find_by ph_id (ph_id p) (ft_phases s') = Some p;
  ps_events e : e ∈ cs_events snapshot → ∃ row, find_by event_id (ev_id e) (ft_events s') = Some row ∧ er_event row = e;
}.

(** What a batch that replaces rows leaves under a key of the batch. *)
Lemma find_by_replaced {A K} `{EqDecision K} (key : A → K) rows t x :
  NoDup (key <$> rows) → x ∈ rows → find_by key (key x) (upsert_batch key (λ _ new, new) rows t) = Some x.
Proof.
  intros Hnd Hx. rewrite find_by_upsert_batch by done. rewrite (find_by_elem key rows x Hnd Hx).
  by rewrite written_row_replace.
Qed.

(** C9: An accepted core snapshot read at a time is stored like this.  A player of the snapshot is active with
    the fields of the snapshot, except that a price read at that time or later stays, with its time; every other
    stored player is inactive, so the active players are those of the reconciled snapshot.  A fixture whose
    gameweek, stored or incoming, has a live snapshot at that time or later stays as it is; any other fixture of
    the snapshot is stored as given, one that is absent loses its gameweek, and is deleted if a fixture of the
    snapshot has its code.  Teams, phases and events are stored as given. *)
Theorem persistCoreSnapshot_stores pg_time clock snapshot time s s' r
  (Hs : fpl_ok s) (Hc : coherent_snapshot snapshot) (Htime : (1000 | time))
  (H : persistCoreSnapshot pg_time clock snapshot (Some time) s = (s', Ok r)) :
  persisted time snapshot r.1 s s'.
Proof.
  pose proof H as Hp. apply persist_success in Hp as (sid & _ & _ & Hrec & Hrows).
  apply reconcile_same in Hrec as (He & Ht & Hph & Hids & _).
  apply persist_tables in Hrows as (Hev & Hteams & _ & Hphases & (Hnde & Hndt & _ & Hndp) & _).
  2: { intros Hn. rewrite Hn in Hids. symmetry in Hids. apply fmap_nil_inv in Hids. by destruct Hc. }
  constructor.
  - intros id. by apply (persist_players pg_time clock snapshot time s s' r id).
  - by apply (persist_active pg_time clock snapshot time s s' r).
  - intros id. by apply (persist_fixtures pg_time clock snapshot time s s' r id).
  - intros t Hin. rewrite Hteams, Ht in *. by apply find_by_replaced.
  - intros p Hin. rewrite Hphases, Hph in *. by apply find_by_replaced.
  - intros e Hin. rewrite Hev, He in *. rewrite find_by_upsert_batch; [|auto with jsdb|by rewrite <-list_fmap_compose].
    rewrite (find_by_fmap event_id ev_id) by done. rewrite (find_by_elem ev_id _ e Hnde Hin). eexists.
    split; [done|]. unfold written_row. by destruct (find_by _ _ _).
Qed.

(** The first core snapshot of a season cannot be stored while one of its gameweeks names a most captained,
    selected, transferred or top player: gameweeks are written before players, and the foreign keys are checked at
    the end of each statement, so with no player stored the whole persist fails and the tables stay as they are. *)
Theorem first_snapshot_needs_players pg_time clock snapshot time s e
  (Hempty : ft_players s = []) (He : e ∈ cs_events snapshot) (Hnamed : event_players e ≠ []) :
  (persistCoreSnapshot pg_time clock snapshot time s).1 = s ∧
  is_ok (persistCoreSnapshot pg_time clock snapshot time s).2 = false.
Proof.
  destruct (persistCoreSnapshot pg_time clock snapshot time s) as [s' [r|e']] eqn:E.
  - exfalso. apply persist_success in E as (sid & _ & _ & Hrec & Hrows).
    apply reconcile_same in Hrec as (Hev & _).
    apply persist_rows_trace in Hrows as [[s1 s2 s3 s4 s5 s6 s7 H0 [w1 H1] _ _ _ _ _ _]].
    apply advanceLifecycle_ok in H0 as (se & ->). apply events_upsertBatch_ok in H1 as (_ & _ & _ & Hfk & ->).
    rewrite Hev in Hfk. cbn in Hfk. rewrite Hempty, forallb_forall in Hfk.
    specialize (Hfk (written_row event_id (merge_event clock) (ft_events s) (new_event pg_time clock e))).
    assert (event_foreign_keys [] (written_row event_id (merge_event clock) (ft_events s) (new_event pg_time clock e)) =
      true) as Hk.
    { apply Hfk, list_elem_of_In. by do 2 apply list_elem_of_fmap_2. }
    unfold event_foreign_keys in Hk. assert (er_event (written_row event_id (merge_event clock) (ft_events s)
      (new_event pg_time clock e)) = e) as Heq by (unfold written_row; by destruct (find_by _ _ _)).
    rewrite Heq in Hk. destruct (event_players e) as [|n l]; [done|]. by cbn in Hk.
  - split; [|done]. unfold persistCoreSnapshot in E. destruct (explicitSeasonRef _); [|by injection E as <- _].
    unfold withCoreSnapshotWriteLock in E. by apply transaction_throw in E as [_ ->].
Qed.

(** ** Identities *)

Definition team_identity (t : Team) : Z * Z * Z := (tm_id t, tm_code t, tm_pulseId t).
Definition player_identity (r : PlayerRow) : Z * Z := (player_id r, pl_code (pr_player r)).

(** [s'] has every team and player of [s] under the same id, code and pulse id. *)
Record identities_kept (s s' : FplTables) : Prop := {
  ik_teams t : t ∈ ft_teams s → team_identity t ∈ team_identity <$> ft_teams s';
  ik_players r : r ∈ ft_players s → player_identity r ∈ player_identity <$> ft_players s';
}.

#[export] Instance identities_kept_preorder : PreOrder identities_kept.
Proof.
  split.
  - intros s. constructor; intros; by apply list_elem_of_fmap_2.
  - intros s1 s2 s3 [H1 H1'] [H2 H2']. constructor.
    + intros t Ht. apply H1, list_elem_of_fmap in Ht as (t' & -> & Ht'). by apply H2.
    + intros r Hr. apply H1', list_elem_of_fmap in Hr as (r' & -> & Hr'). by apply H2'.
Qed.

Lemma team_kept teams stored t :
  NoDup (tm_id <$> teams) → NoDup (tm_id <$> stored) → t ∈ stored → team_conflict teams t = false →
  team_identity t ∈ team_identity <$> upsert_batch tm_id (λ _ new, new) teams stored.
Proof.
  intros Hnd Hst Hin Hc. unfold team_conflict in Hc. boolsolve. rewrite map_get_map_by in * by done.
  assert (find_by tm_id (tm_id t) (upsert_batch tm_id (λ _ new, new) teams stored) =
    Some (default t (find_by tm_id (tm_id t) teams))) as Hf.
  { rewrite find_by_upsert_batch by done. destruct (find_by tm_id (tm_id t) teams) as [x|]; cbn.
    - by rewrite written_row_replace.
    - by apply find_by_elem. }
  apply find_by_Some in Hf as [Hf Hk]. apply list_elem_of_fmap. eexists. split; [|exact Hf].
  destruct (find_by tm_id (tm_id t) teams) as [x|]; cbn in *; [|done]. boolsolve.
  unfold team_identity. congruence.
Qed.

(** The rows of players keep their code when the players written under their ids have it. *)
Lemma player_kept time players stored p :
  NoDup (pl_id <$> players) → NoDup (player_id <$> stored) → p ∈ stored →
  from_option pl_code (pl_code (pr_player p)) (find_by pl_id (player_id p) players) = pl_code (pr_player p) →
  player_identity p ∈ player_identity <$>
    upsert_batch player_id (merge_player time) (new_player time <$> players)
      (mark_missing_inactive (pl_id <$> players) stored).
Proof.
  intros Hnd Hst Hin Hc.
  assert (∃ x, find_by player_id (player_id p) (upsert_batch player_id (merge_player time) (new_player time <$> players)
      (mark_missing_inactive (pl_id <$> players) stored)) = Some x ∧ pl_code (pr_player x) = pl_code (pr_player p))
    as (x & Hx & Hcode).
  { rewrite find_by_upsert_batch; [|auto with jsdb|by rewrite <-list_fmap_compose].
    rewrite (find_by_fmap player_id pl_id) by done.
    destruct (find_by pl_id (player_id p) players) as [q|]; cbn [from_option fmap option_fmap option_map] in *.
    - eexists. split; [done|]. unfold written_row. by destruct (find_by _ _ _).
    - unfold mark_missing_inactive. rewrite find_by_update by done.
      rewrite (find_by_elem player_id _ p Hst Hin). eexists. split; [done|]. cbn. by case_bool_decide. }
  apply find_by_Some in Hx as [Hx Hk]. apply list_elem_of_fmap. exists x. split; [|done].
  unfold player_identity. congruence.
Qed.

Lemma find_code players players' k (d : Z) :
  (λ p, (pl_id p, pl_code p)) <$> players = (λ p, (pl_id p, pl_code p)) <$> players' →
  from_option pl_code d (find_by pl_id k players) = from_option pl_code d (find_by pl_id k players').
Proof.
  intros H. apply (f_equal (find_by fst k)) in H. rewrite !(find_by_fmap fst pl_id) in H by done.
  by destruct (find_by pl_id k players), (find_by pl_id k players'); cbn in *; simplify_eq.
Qed.

Lemma persist_identities pg_time clock snapshot time s s' r :
  fpl_ok s → coherent_snapshot snapshot →
  persistCoreSnapshot pg_time clock snapshot time s = (s', Ok r) → identities_kept s s'.
Proof.
  intros Hs Hc H. apply persist_success in H as (sid & _ & Hid & Hrec & Hrows).
  apply reconcile_same in Hrec as (_ & Ht & _ & Hids & Hcodes).
  apply persist_tables in Hrows as (_ & Hteams & Hplayers & _ & (_ & Hndt & Hndp & _) & _).
  2: { intros Hn. rewrite Hn in Hids. symmetry in Hids. apply fmap_nil_inv in Hids. by destruct Hc. }
  unfold assertIdentityAlignment in Hid. apply throw_when_ok in Hid as [Hid _].
  apply orb_false_iff in Hid as [Hidt Hidp]. rewrite existsb_false in Hidt. rewrite existsb_false in Hidp.
  constructor.
  - intros t Hin. rewrite Hteams. rewrite Ht in *. apply team_kept; [done|by destruct Hs|done|by apply Hidt].
  - intros p Hin. rewrite Hplayers. apply player_kept; [done|by destruct Hs|done|].
    rewrite (find_code _ _ _ _ Hcodes). specialize (Hidp p Hin). unfold player_conflict in Hidp. boolsolve.
    rewrite map_get_map_by in * by by rewrite <-Hids.
    destruct (find_by pl_id (player_id p) (cs_players snapshot)) as [q|]; cbn; [|done]. by boolsolve.
Qed.

(** ** A persist *)

(** It moves fixture 1 to gameweek 2 and leaves out fixture 3 and player 3. *)
Definition sample_snapshot : CoreSnapshot := {|
  cs_season := js "2526";
  cs_events := [sample_ev 1; sample_ev 2];
  cs_teams := [sample_tm 1; sample_tm 2];
  cs_players := [sample_player 1 50; sample_player 2 61];
  cs_phases := [mkPhase 1 (js "Overall") 1 2 None];
  cs_fixtures := [sample_fx 1 2 1; sample_fx 2 1 1];
  cs_selectionRules := None |}.

Lemma sample_snapshot_coherent : coherent_snapshot sample_snapshot.
Proof.
  constructor; [done|done| |].
  - by apply (bool_decide_unpack _).
  - intros f Hf. repeat (apply elem_of_cons in Hf as [->|Hf]); [done|done|]. by apply elem_of_nil in Hf.
Qed.

Definition sample_no_time : jsstr → option Z := λ _, None.

(** Gameweek 1 is owned at 4 ms: its fixture stays, and fixture 2 may not move into it without a row there. *)
Example sample_persist :
  let '(s', r) := persistCoreSnapshot sample_no_time (λ _, 0) sample_snapshot (Some 4000) sample_tables in
  (is_ok r, fx_event <$> ft_fixtures s', pl_price ∘ pr_player <$> ft_players s', pr_isActive <$> ft_players s') =
  (true, [Some 1; Some 2; None], [55; 61; 70], [true; true; false]).
Proof. vm_compute. reflexivity. Qed.

Lemma persistCoreSnapshot_stores_witness :
  ∃ s' r, persistCoreSnapshot sample_no_time (λ _, 0) sample_snapshot (Some 4000) sample_tables = (s', Ok r) ∧
          persisted 4000 sample_snapshot r.1 sample_tables s'.
Proof.
  destruct (persistCoreSnapshot sample_no_time (λ _, 0) sample_snapshot (Some 4000) sample_tables) as [s' [r|e]] eqn:E.
  - exists s', r. split; [reflexivity|].
    apply (persistCoreSnapshot_stores sample_no_time (λ _, 0) sample_snapshot 4000 sample_tables s' r
             sample_tables_ok sample_snapshot_coherent); [by exists 4|exact E].
  - exfalso. vm_compute in E. discriminate E.
Defined.

Definition sample_named : Event :=
  mkEvent 1 (js "Gameweek") None None false false None None None None false false false false false [] None None None
    None None (Some (of_int 1)) None.

Definition sample_empty : FplTables := {|
  ft_seasons := ft_seasons sample_tables; ft_events := []; ft_teams := []; ft_players := []; ft_phases := [];
  ft_fixtures := []; ft_gameweeks := []; ft_items := []; ft_evidence := [] |}.

Definition sample_first : CoreSnapshot := {|
  cs_season := js "2526"; cs_events := [sample_named]; cs_teams := [sample_tm 1; sample_tm 2];
  cs_players := [sample_player 1 50]; cs_phases := []; cs_fixtures := [sample_fx 1 1 1]; cs_selectionRules := None |}.

Lemma first_snapshot_needs_players_witness :
  is_ok (persistCoreSnapshot sample_no_time (λ _, 0) sample_first (Some 4000) sample_empty).2 = false.
Proof.
  refine (proj2 (first_snapshot_needs_players sample_no_time (λ _, 0) sample_first (Some 4000) sample_empty
           sample_named eq_refl _ _)).
  - apply list_elem_of_here.
  - discriminate.
Defined.
