(* ===== verification/LiveFacts.v ===== *)
(** * Storing the live statistics of a gameweek ([src/repositories/event-lives.ts],
      [src/repositories/event-live-explains.ts], [src/repositories/fpl-player-fixture-stats.ts],
      [persistPreparedEventLives] of [src/services/event-lives.service.ts])

    The three projections that [EventLives] prepares are written in one transaction: the totals of the
    players are upserted, the scoring items of the gameweek replaced, and the evidence of the players
    in the fixtures reconciled with what is stored.  [now] is the [NOW()] of the transaction.  SHA-256
    and the text input of [numeric] are parameters. *)

From S2P Require Import Prelude JsCollections JsNumber Json CoreEntities EventLives Postgres FplStore.

Definition set_gameweeks (x : list GameweekRow) (s : FplTables) : FplTables :=
  mkFpl (ft_seasons s) (ft_events s) (ft_teams s) (ft_players s) (ft_phases s) (ft_fixtures s) x (ft_items s)
    (ft_evidence s).
Definition set_items (x : list ScoringItem) (s : FplTables) : FplTables :=
  mkFpl (ft_seasons s) (ft_events s) (ft_teams s) (ft_players s) (ft_phases s) (ft_fixtures s) (ft_gameweeks s) x
    (ft_evidence s).
Definition set_evidence (x : list FixtureStatRow) (s : FplTables) : FplTables :=
  mkFpl (ft_seasons s) (ft_events s) (ft_teams s) (ft_players s) (ft_phases s) (ft_fixtures s) (ft_gameweeks s)
    (ft_items s) x.

(** ** Totals *)

Section totals.
Context (pg_numeric : jsstr → bool).     (* [numeric] input *)

(** The columns of a player in a gameweek.
    src: src/repositories/event-lives.ts:127-152 upsertBatch *)
Definition stored_live (e : EventLive) : EventLive := {|
  el_eventId := el_eventId e; el_elementId := el_elementId e; el_minutes := el_minutes e;
  el_goalsScored := el_goalsScored e; el_assists := el_assists e; el_cleanSheets := el_cleanSheets e;
  el_goalsConceded := el_goalsConceded e; el_ownGoals := el_ownGoals e;
  el_penaltiesSaved := el_penaltiesSaved e; el_penaltiesMissed := el_penaltiesMissed e;
  el_yellowCards := el_yellowCards e; el_redCards := el_redCards e; el_saves := el_saves e;
  el_bonus := el_bonus e; el_bps := el_bps e;
  el_defensiveContribution := Some (nullish (el_defensiveContribution e) 0);
  el_starts := el_starts e; el_expectedGoals := el_expectedGoals e;
  el_expectedAssists := el_expectedAssists e; el_expectedGoalInvolvements := el_expectedGoalInvolvements e;
  el_expectedGoalsConceded := el_expectedGoalsConceded e; el_inDreamTeam := el_inDreamTeam e;
  el_totalPoints := el_totalPoints e; el_fixtureBreakdown := None |}.

(** src: src/db/schemas/platform.schema.ts:3794-3802 playerGameweekStatsInFpl *)
Definition gameweek_checks (r : GameweekRow) : bool :=
  let e := gw_live r in
  (0 <? el_eventId e) && (0 <? el_elementId e) && (0 <=? el_minutes e) &&
  forallb is_int4
    [el_eventId e; el_elementId e; el_minutes e; el_goalsScored e; el_assists e; el_cleanSheets e; el_goalsConceded e;
     el_ownGoals e; el_penaltiesSaved e; el_penaltiesMissed e; el_yellowCards e; el_redCards e; el_saves e; el_bonus e;
     el_bps e; el_totalPoints e; nullish (el_defensiveContribution e) 0] &&
  forallb pg_numeric
    [el_expectedGoals e; el_expectedAssists e; el_expectedGoalInvolvements e; el_expectedGoalsConceded e].

Definition gameweek_foreign_keys (s : FplTables) (r : GameweekRow) : bool :=
  bool_decide (el_eventId (gw_live r) ∈ event_id <$> ft_events s) &&
  bool_decide (el_elementId (gw_live r) ∈ player_id <$> ft_players s).

(** The [SET] list names every column that is read.
    src: src/repositories/event-lives.ts:118-203 upsertBatch *)
Definition lives_upsertBatch (now : Z) (eventLiveData : list EventLive) (s : FplTables)
    : result (FplTables * list GameweekRow) :=
  if is_nil eventLiveData then Ok (s, []) else
  let* r := upsert_returning gameweek_key (λ _ new, new) (λ _ _, false) gameweek_checks (gameweek_foreign_keys s)
              BATCH_UPSERT_ERROR ((λ e, mkGameweekRow (stored_live e) now) <$> eventLiveData) (ft_gameweeks s) in
  Ok (set_gameweeks r.1 s, r.2).
End totals.

(** src: src/repositories/event-lives.ts:37-55 findByEventId *)
Definition lives_findByEventId (eventId : Z) (s : FplTables) : list EventLive :=
  gw_live <$> List.filter (λ r, el_eventId (gw_live r) =? eventId) (ft_gameweeks s).

(** The gameweek can be final for rows written at [writtenAt].
    src: src/repositories/event-lives.ts:78-93 findFinalizedByEventId *)
Definition finalized_for (writtenAt : Z) (r : EventRow) : bool :=
  ev_finished (er_event r) && ev_dataChecked (er_event r) &&
  match er_deadline r, er_liveSnapshotFinalizedAt r with
  | Some deadline, Some finalized => (finalized <=? writtenAt) && (deadline <=? writtenAt)
  | _, _ => false
  end.

(** src: src/repositories/event-lives.ts:62-113 findFinalizedByEventId *)
Definition findFinalizedByEventId (eventId : Z) (s : FplTables) : list EventLive :=
  match find_by event_id eventId (ft_events s) with
  | None => []
  | Some event =>
      gw_live <$> List.filter (λ r, (el_eventId (gw_live r) =? eventId) && finalized_for (gw_writtenAt r) event)
                    (ft_gameweeks s)
  end.

(** ** Scoring items *)

(** [value === 0 && score === 0] items are left out.
    src: src/repositories/event-live-explains.ts:109-123 flattenExplain *)
Definition add_item (identifier : string) (item : number * number) : list (jsstr * (number * number)) :=
  if number_eqb item.1 zero && number_eqb item.2 zero then [] else [(js identifier, item)].

(** src: src/repositories/event-live-explains.ts:104-139 flattenExplain *)
Definition flattenExplain (x : EventLiveExplain) : list (jsstr * (number * number)) :=
  add_item "minutes" (ex_minutes x, nullish (ex_minutesPoints x) zero) ++
  add_item "goals_scored" (ex_goalsScored x) ++ add_item "assists" (ex_assists x) ++
  add_item "clean_sheets" (ex_cleanSheets x) ++ add_item "goals_conceded" (ex_goalsConceded x) ++
  add_item "own_goals" (ex_ownGoals x) ++ add_item "penalties_saved" (ex_penaltiesSaved x) ++
  add_item "penalties_missed" (ex_penaltiesMissed x) ++ add_item "yellow_cards" (ex_yellowCards x) ++
  add_item "red_cards" (ex_redCards x) ++ add_item "saves" (ex_saves x) ++
  add_item "bonus" (ex_bonus x, ex_bonus x) ++ add_item "defensive_contribution" (ex_defensiveContribution x).

Definition REPLACE_SCORING_ITEMS_ERROR : string := "REPLACE_SCORING_ITEMS_ERROR".

(** The row of an item, when its columns can hold it.
    src: src/repositories/event-live-explains.ts:115-122 flattenExplain *)
Definition item_row (x : EventLiveExplain) (item : jsstr * (number * number)) : result ScoringItem :=
  reject_if negb (forallb int4_number [ex_eventId x; ex_elementId x; item.2.1; item.2.2])
    with_code REPLACE_SCORING_ITEMS_ERROR ;;
  Ok (mkScoringItem (int_value (ex_eventId x)) (int_value (ex_elementId x)) item.1 (int_value item.2.1)
        (int_value item.2.2)).

Definition item_key (i : ScoringItem) : Z * Z * jsstr := (si_eventId i, si_elementId i, si_identifier i).

(** Every item belongs to a row of totals, and is given once.
    src: src/db/schemas/platform.schema.ts:1802-1814 playerGameweekScoringItemsInFpl *)
Definition items_ok (s : FplTables) (items : list ScoringItem) : bool :=
  forallb (λ i, bool_decide ((si_eventId i, si_elementId i) ∈ gameweek_key <$> ft_gameweeks s)) items &&
  bool_decide (NoDup (item_key <$> items)).

(** src: src/repositories/event-live-explains.ts:183-233 replaceEvent *)
Definition replaceEvent (records : list EventLiveExplain) (s : FplTables) : result (FplTables * list ScoringItem) :=
  match records with
  | [] => Ok (s, [])
  | first :: _ =>
      reject_if negb (forallb (λ x, number_eqb (ex_eventId x) (ex_eventId first)) records)
        with_code "SCORING_REPLACEMENT_EVENT_SCOPE" ;;
      let* inserts := map_throwing (λ xi : EventLiveExplain * (jsstr * (number * number)), item_row xi.1 xi.2)
                        (flat_map (λ x, (λ i, (x, i)) <$> flattenExplain x) records) in
      reject_if negb (int4_number (ex_eventId first)) with_code REPLACE_SCORING_ITEMS_ERROR ;;
      let eventId := int_value (ex_eventId first) in
      reject_if negb (items_ok s inserts) with_code REPLACE_SCORING_ITEMS_ERROR ;;
      Ok (set_items (List.filter (λ i, negb (si_eventId i =? eventId)) (ft_items s) ++ inserts) s, inserts)
  end.

(** ** Evidence *)

Definition FIXTURE_EVIDENCE_UPSERT_ERROR : string := "FIXTURE_EVIDENCE_UPSERT_ERROR".

Definition evidence_key (r : FixtureStatRow) : Z * Z := (pf_fixtureId r, pf_elementId r).

Section evidence.
Context {hash : Type} `{!EqDecision hash} (contentHash : FixtureStatRow → hash).

(** A player with the code of its team.
    src: src/repositories/fpl-player-fixture-stats.ts:66-87 upsertEvidence *)
Definition find_player_with_team (elementId : Z) (s : FplTables) : option (Player * Team) :=
  r ← find_by player_id elementId (ft_players s);
  t ← find_by tm_id (pl_teamId (pr_player r)) (ft_teams s);
  Some (pr_player r, t).

(** The row keeps the identity it was stored with; otherwise the player must belong to a team of the fixture.
    src: src/repositories/fpl-player-fixture-stats.ts:114-146 upsertEvidence *)
Definition normalize_evidence (existing : list FixtureStatRow) (s : FplTables) (raw : FixtureEvidence)
    : result FixtureStatRow :=
  let elementId := int_value (fe_elementId raw) in
  let fixtureId := int_value (fe_fixtureId raw) in
  let eventId := int_value (fe_eventId raw) in
  let prior := find_by evidence_key (fixtureId, elementId) existing in
  match find_by fx_id fixtureId (ft_fixtures s) with
  | None => Throw FIXTURE_EVIDENCE_UPSERT_ERROR
  | Some fixture =>
      reject_if match fx_event fixture with Some e => negb (e =? eventId) | None => false end
        with_code FIXTURE_EVIDENCE_UPSERT_ERROR ;;
      let row playerCode teamId teamCode elementType :=
        mkFixtureStat fixtureId elementId eventId (fx_code fixture) playerCode teamId teamCode elementType
          (fe_minutes raw) (fe_starts raw) (fe_goals raw) (fe_assists raw) (fe_ownGoals raw) (fe_yellowCards raw)
          (fe_redCards raw) in
      match prior, find_player_with_team elementId s with
      | Some p, _ => Ok (row (pf_playerCode p) (pf_teamId p) (pf_teamCode p) (pf_elementType p))
      | None, None => Throw FIXTURE_EVIDENCE_UPSERT_ERROR
      | None, Some (player, team) =>
          reject_if negb ((pl_teamId player =? fx_teamH fixture) || (pl_teamId player =? fx_teamA fixture))
            with_code FIXTURE_EVIDENCE_UPSERT_ERROR ;;
          Ok (row (pl_code player) (pl_teamId player) (tm_code team) (pl_type player))
      end
  end.

(** src: src/db/schemas/platform.schema.ts:2714-2721 playerFixtureStatsInFpl *)
Definition evidence_checks (r : FixtureStatRow) : bool :=
  forallb (λ n, (0 <? n) && is_int4 n)
    [pf_fixtureId r; pf_elementId r; pf_eventId r; pf_fixtureCode r; pf_playerCode r; pf_teamId r; pf_teamCode r;
     pf_elementType r] &&
  forallb is_count [pf_minutes r; pf_goals r; pf_assists r; pf_ownGoals r; pf_yellowCards r; pf_redCards r] &&
  null_or is_count (pf_starts r).

Definition evidence_foreign_keys (s : FplTables) (r : FixtureStatRow) : bool :=
  bool_decide (pf_eventId r ∈ event_id <$> ft_events s) && bool_decide (pf_fixtureId r ∈ fx_id <$> ft_fixtures s) &&
  bool_decide (pf_elementId r ∈ player_id <$> ft_players s) && bool_decide (pf_teamId r ∈ tm_id <$> ft_teams s).

(** A row with the stored hash is left alone.
    src: src/repositories/fpl-player-fixture-stats.ts:189-213 upsertEvidence *)
Definition merge_evidence (old new : FixtureStatRow) : FixtureStatRow :=
  if bool_decide (contentHash old = contentHash new) then old else new.

(** src: src/repositories/fpl-player-fixture-stats.ts:183-214 upsertEvidence *)
Definition evidence_changed (stored : list FixtureStatRow) (new : FixtureStatRow) : bool :=
  match find_by evidence_key (evidence_key new) stored with
  | Some old => negb (bool_decide (contentHash old = contentHash new))
  | None => true
  end.

Definition finished_fixture (s : FplTables) (fixtureId : Z) : bool :=
  from_option fx_finished false (find_by fx_id fixtureId (ft_fixtures s)).

(** The existing rows that the reconciliation removes: those of a finished fixture that came without them, but
    none if a finished fixture is missing altogether.
    src: src/repositories/fpl-player-fixture-stats.ts:163-223 upsertEvidence *)
Definition stale_evidence (existing normalized : list FixtureStatRow) (s : FplTables) : list FixtureStatRow :=
  let deletionBlocks := existsb (λ r, finished_fixture s (pf_fixtureId r) &&
                                      bool_decide (pf_fixtureId r ∉ pf_fixtureId <$> normalized)) existing in
  if deletionBlocks then []
  else List.filter (λ r, finished_fixture s (pf_fixtureId r) &&
                         bool_decide (evidence_key r ∉ evidence_key <$> normalized)) existing.

(** src: src/repositories/fpl-player-fixture-stats.ts:24-265 upsertEvidence *)
Definition upsertEvidence (evidence : list FixtureEvidence) (s : FplTables) : result (FplTables * Z) :=
  match evidence with
  | [] => Ok (s, 0)
  | first :: _ =>
      reject_if negb (forallb (λ x, number_eqb (fe_eventId x) (fe_eventId first)) evidence)
        with_code "FIXTURE_EVIDENCE_EVENT_SCOPE_ERROR" ;;
      reject_if negb (forallb (λ x, forallb int4_number [fe_eventId x; fe_fixtureId x; fe_elementId x]) evidence)
        with_code FIXTURE_EVIDENCE_UPSERT_ERROR ;;
      let eventId := int_value (fe_eventId first) in
      let existing := List.filter (λ r, pf_eventId r =? eventId) (ft_evidence s) in
      let* normalized := map_throwing (normalize_evidence existing s) evidence in
      let* r := upsert_returning evidence_key merge_evidence (λ _ _, false) evidence_checks
                  (evidence_foreign_keys s) FIXTURE_EVIDENCE_UPSERT_ERROR normalized (ft_evidence s) in
      let changed := List.filter (evidence_changed (ft_evidence s)) normalized in
      let stale := stale_evidence existing normalized s in
      let gone row := (pf_eventId row =? eventId) && bool_decide (evidence_key row ∈ evidence_key <$> stale) in
      Ok (set_evidence (List.filter (λ row, negb (gone row)) r.1) s,
          Z.of_nat (length changed) + Z.of_nat (length (List.filter gone r.1)))
  end.

(** ** The transaction *)

(** src: src/services/event-lives.service.ts:65-100 persistPreparedEventLives *)
Definition persistPreparedEventLives (pg_numeric : jsstr → bool) (now : Z) (prepared : PreparedEventLives) (s : FplTables)
    : result (FplTables * list EventLive) :=
  let* savedLives := lives_upsertBatch pg_numeric now (pe_eventLives prepared) s in
  reject_if negb (length savedLives.2 =? length (pe_eventLives prepared))%nat with_code "INCOMPLETE_EVENT_LIVE_WRITE" ;;
  let* savedExplains := replaceEvent (pe_explains prepared) savedLives.1 in
  let* fixtureChanges := upsertEvidence (pe_fixtureEvidence prepared) savedExplains.1 in
  Ok (fixtureChanges.1, pe_eventLives prepared).
End evidence.

(** ** Lemmas *)

(** What the transaction leaves alone. *)
Record same_core (s s' : FplTables) : Prop := {
  sc_seasons : ft_seasons s' = ft_seasons s;
  sc_events : ft_events s' = ft_events s;
  sc_teams : ft_teams s' = ft_teams s;
  sc_players : ft_players s' = ft_players s;
  sc_phases : ft_phases s' = ft_phases s;
  sc_fixtures : ft_fixtures s' = ft_fixtures s;
}.

#[export] Instance same_core_preorder : PreOrder same_core.
Proof. split; [done|]. intros s1 s2 s3 [] []. constructor; congruence. Qed.

Lemma lives_upsertBatch_ok pg_numeric now lives s s' ws :
  lives_upsertBatch pg_numeric now lives s = Ok (s', ws) →
  NoDup ((λ e, (el_eventId e, el_elementId e)) <$> lives) ∧
  s' = set_gameweeks (upsert_batch gameweek_key (λ _ new, new)
         ((λ e, mkGameweekRow (stored_live e) now) <$> lives) (ft_gameweeks s)) s.
Proof.
  unfold lives_upsertBatch. destruct lives as [|e lives].
  { intros [= <- <-]. split; [constructor|by destruct s]. }
  cbn [is_nil]. intros H. apply result_bind_ok in H as ([t w] & H & [= <- <-]).
  apply upsert_returning_ok in H as (Hnd & -> & _); [|done]. split; [|done].
  by rewrite <-list_fmap_compose in Hnd.
Qed.

Lemma replaceEvent_core records s s' ws :
  replaceEvent records s = Ok (s', ws) → same_core s s' ∧ ft_gameweeks s' = ft_gameweeks s.
Proof.
  unfold replaceEvent. destruct records as [|x records]; [by intros [= <- _]|].
  intros H. apply throw_when_ok in H as [_ H]. apply result_bind_ok in H as (inserts & _ & H).
  apply throw_when_ok in H as [_ H]. apply throw_when_ok in H as [_ H]. by injection H as <- _.
Qed.

Lemma upsertEvidence_core {hash} `{!EqDecision hash} (contentHash : FixtureStatRow → hash) evidence s s' n :
  upsertEvidence contentHash evidence s = Ok (s', n) → same_core s s' ∧ ft_gameweeks s' = ft_gameweeks s.
Proof.
  unfold upsertEvidence. destruct evidence as [|x evidence]; [by intros [= <- _]|].
  intros H. apply throw_when_ok in H as [_ H]. apply throw_when_ok in H as [_ H].
  apply result_bind_ok in H as (normalized & _ & H). apply result_bind_ok in H as (r & _ & H).
  by injection H as <- _.
Qed.

Lemma persistPreparedEventLives_ok {hash} `{!EqDecision hash} (contentHash : FixtureStatRow → hash)
    pg_numeric now prepared s s' lives :
  persistPreparedEventLives contentHash pg_numeric now prepared s = Ok (s', lives) →
  same_core s s' ∧ NoDup ((λ e, (el_eventId e, el_elementId e)) <$> pe_eventLives prepared) ∧
  ft_gameweeks s' = upsert_batch gameweek_key (λ _ new, new)
    ((λ e, mkGameweekRow (stored_live e) now) <$> pe_eventLives prepared) (ft_gameweeks s).
Proof.
  unfold persistPreparedEventLives. intros H. apply result_bind_ok in H as ([s1 w1] & H1 & H).
  apply throw_when_ok in H as [_ H]. apply result_bind_ok in H as ([s2 w2] & H2 & H).
  apply result_bind_ok in H as ([s3 w3] & H3 & [= <- _]). cbn [fst] in *.
  apply lives_upsertBatch_ok in H1 as [Hnd ->]. apply replaceEvent_core in H2 as [H2 Hg2].
  apply upsertEvidence_core in H3 as [H3 Hg3]. split; [|split; [done|]].
  - transitivity s2; [|done]. destruct H2. by constructor.
  - by rewrite Hg3, Hg2.
Qed.
