(* ===== verification/LiveSnapshot.v ===== *)
(** * The live snapshot of a gameweek ([src/services/live-snapshot.service.ts])

    One poll of the live endpoint and of the fixtures of a gameweek is checked against the players and
    fixtures the database expects, transformed ([EventLives]), and stored in one transaction
    ([FplStore], [LiveFacts]).  The event row carries a fence: the time of the newest accepted poll.
    The refresh of the reporting tables after the transaction, whose failure is only logged, is left
    out. *)

From S2P Require Import Prelude JsCollections JsNumber Json CoreEntities CoreSnapshot EventLives Postgres FplStore.
From S2P Require Import CorePersist LiveFacts.

(** ** Reference data *)

(** src: src/domain/live-snapshot.ts:1-1 LiveSnapshotState *)
Inductive LiveSnapshotState : Type := SnapshotScheduled | SnapshotLive | SnapshotSettled.

(** src: src/services/live-fixtures.service.ts:21-25 LiveFixtureTeamMaps *)
Record LiveFixtureTeamMaps := mkTeamMaps {
  lt_nameById : list (Z * jsstr);
  lt_shortNameById : list (Z * jsstr);
  lt_positionById : list (Z * Z);
}.

(** src: src/services/live-fixtures.service.ts:27-39 createLiveFixtureTeamMaps *)
Definition createLiveFixtureTeamMaps (teams : list Team) : LiveFixtureTeamMaps :=
  mkTeamMaps (map_of_entries ((λ t, (tm_id t, tm_name t)) <$> teams))
    (map_of_entries ((λ t, (tm_id t, tm_shortName t)) <$> teams))
    (map_of_entries ((λ t, (tm_id t, tm_position t)) <$> teams)).

(** src: src/services/live-snapshot.service.ts:42-45 LiveSnapshotReferenceData *)
Record LiveSnapshotReferenceData := mkReference {
  lr_season : jsstr;
  lr_teams : LiveFixtureTeamMaps;
  lr_playerTeamById : list (Z * Z);
}.

(** src: src/services/live-snapshot.service.ts:145-165 buildCurrentSeasonPlayerTeamMap *)
Fixpoint player_team_map (players : list Player) (playerTeamById : list (Z * Z)) : result (list (Z * Z)) :=
  match players with
  | [] => Ok playerTeamById
  | p :: players' =>
      reject_if (pl_id p <=? 0) || (pl_teamId p <=? 0) with_code "INVALID_ROSTER_IDENTITY" ;;
      reject_if map_has (pl_id p) playerTeamById with_code "DUPLICATE_ROSTER_PLAYER" ;;
      player_team_map players' (map_set (pl_id p) (pl_teamId p) playerTeamById)
  end.

(** src: src/services/live-snapshot.service.ts:145-165 buildCurrentSeasonPlayerTeamMap *)
Definition buildCurrentSeasonPlayerTeamMap (players : list Player) : result (list (Z * Z)) := player_team_map players [].

(** src: src/services/live-snapshot.service.ts:167-183 referenceDataFromCore *)
Definition referenceDataFromCore (seasonCode : jsstr) (teams : list Team) (players : list Player)
    : result LiveSnapshotReferenceData :=
  reject_if is_nil teams || is_nil players with_code "LIVE_REFERENCE_DATA_INCOMPLETE" ;;
  let* playerTeamById := buildCurrentSeasonPlayerTeamMap players in
  Ok (mkReference seasonCode (createLiveFixtureTeamMaps teams) playerTeamById).

(** [cached] are the teams and players of the core publication, if there is one.
    src: src/services/live-snapshot.service.ts:185-200 loadLiveSnapshotReferenceData *)
Definition loadLiveSnapshotReferenceData (cached : option (list Team * list Player)) (season : Z * jsstr)
    (s : FplTables) : result LiveSnapshotReferenceData :=
  match cached with
  | Some (teams, players) => referenceDataFromCore season.2 teams players
  | None =>
      (withCoreSnapshotReadLock season
         (λ s, let* r := referenceDataFromCore season.2 (ft_teams s) (players_findAll s) in Ok (s, r)) s).2
  end.

(** ** Preparation *)

Definition begun (f : Fixture) : bool := bool_decide (fx_started f = Some true).
Definition over (f : Fixture) : bool := fx_finished f || fx_finishedProvisional f.

(** src: src/services/live-snapshot.service.ts:202-223 resolveSnapshotState *)
Definition resolveSnapshotState (fixtures : list Fixture) : LiveSnapshotState :=
  if is_nil fixtures then SnapshotScheduled
  else if existsb (λ f, begun f && negb (fx_finished f) && negb (fx_finishedProvisional f)) fixtures then SnapshotLive
  else if forallb over fixtures then SnapshotSettled
  else if existsb (λ f, begun f || over f) fixtures then SnapshotLive else SnapshotScheduled.

(** [new Set(ids).size === ids.length] for numbers. *)
Fixpoint distinct_numbers (ids : list number) : bool :=
  match ids with [] => true | n :: ids' => negb (has_number n ids') && distinct_numbers ids' end.

(** Both lists have the same members. *)
Definition same_numbers (actual : list number) (expected : list Z) : bool :=
  forallb (λ id, has_number (of_int id) actual) expected && forallb (λ n, has_number n (of_int <$> expected)) actual.

(** src: src/services/live-snapshot.service.ts:47-53 PreparedLiveSnapshot *)
Record PreparedLiveSnapshot := mkPreparedLive {
  lp_season : jsstr;
  lp_eventId : Z;
  lp_eventLives : PreparedEventLives;
  lp_fixtures : list Fixture;
  lp_state : LiveSnapshotState;
}.

(** src: src/services/live-snapshot.service.ts:239-257 prepareLiveSnapshot *)
Definition check_players (liveElementIds : list number) (playerTeamById : list (Z * Z)) : result unit :=
  let expectedLiveElementIds := map_keys playerTeamById in
  reject_if negb (distinct_numbers liveElementIds) || negb (bool_decide (NoDup expectedLiveElementIds))
    with_code "DUPLICATE_LIVE_PLAYER" ;;
  reject_if negb (same_numbers liveElementIds expectedLiveElementIds) with_code "LIVE_PLAYER_MISMATCH" ;;
  Ok ().

(** src: src/services/live-snapshot.service.ts:262-290 prepareLiveSnapshot *)
Definition check_fixture_ids (eventId : number) (rawFixtures : list RawFixture) (expectedIds : list Z) : result unit :=
  reject_if existsb (λ f, match rf_event f with Some e => negb (number_eqb e eventId) | None => false end) rawFixtures
    with_code "LIVE_FIXTURES_MIXED_EVENTS" ;;
  let rawFixtureIds := rf_id <$> rawFixtures in
  reject_if is_nil expectedIds && negb (is_nil rawFixtureIds) with_code "UNEXPECTED_BLANK_GAMEWEEK_FIXTURES" ;;
  reject_if negb (is_nil expectedIds) &&
            (negb (distinct_numbers rawFixtureIds) || negb (bool_decide (NoDup expectedIds)))
    with_code "INVALID_LIVE_FIXTURE_BASELINE" ;;
  reject_if negb (same_numbers rawFixtureIds expectedIds) with_code "LIVE_FIXTURE_MISMATCH" ;;
  Ok ().

Definition has_team_metadata (teams : LiveFixtureTeamMaps) (id : number) : bool :=
  has_number id (of_int <$> map_keys (lt_nameById teams)) && has_number id (of_int <$> map_keys (lt_shortNameById teams)).

Section prepare.
Context (date_parse : jsstr → option Z).

(** src: src/services/live-snapshot.service.ts:225-317 prepareLiveSnapshot *)
Definition prepareLiveSnapshot (eventId : number) (elements : list RawLiveElement) (rawFixtures : list RawFixture)
    (referenceData : LiveSnapshotReferenceData) (expectedFixtureIds : list Z) : result PreparedLiveSnapshot :=
  reject_if negb (is_integer eventId) || (int_value eventId <=? 0) with_code "INVALID_LIVE_EVENT" ;;
  reject_if is_nil elements with_code "EMPTY_LIVE_RESPONSE" ;;
  let* _ := check_players (rl_id <$> elements) (lr_playerTeamById referenceData) in
  let* _ := check_fixture_ids eventId rawFixtures expectedFixtureIds in
  reject_if existsb (λ f, negb (has_team_metadata (lr_teams referenceData) (rf_team_h f)) ||
                          negb (has_team_metadata (lr_teams referenceData) (rf_team_a f))) rawFixtures
    with_code "MISSING_LIVE_TEAM_METADATA" ;;
  let* eventLives := prepareEventLives eventId elements in
  let* fixtures := transformFixtures date_parse rawFixtures in
  reject_if negb (length fixtures =? length rawFixtures)%nat ||
            existsb (λ f, negb (bool_decide (fx_event f = Some (int_value eventId)))) fixtures
    with_code "INCOMPLETE_FIXTURE_TRANSFORMATION" ;;
  Ok (mkPreparedLive (lr_season referenceData) (int_value eventId) eventLives fixtures (resolveSnapshotState fixtures)).
End prepare.

(** ** The fence *)

Definition with_live (checkedAt factsAt finalizedAt : option Z) (r : EventRow) : EventRow :=
  mkEventRow (er_event r) (er_deadline r) (er_dataCheckedAt r) checkedAt factsAt finalizedAt.

(** One column of the row of an event; a write is checked against the CHECK of the row. *)
Definition update_event (where_ : EventRow → bool) (set : EventRow → EventRow) (eventId : Z) (s : FplTables)
    : result (FplTables * list EventRow) :=
  let* r := update_checked finalization_order (λ row, (event_id row =? eventId) && where_ row) set (ft_events s) in
  Ok (set_events r.1 s, r.2).

(** src: src/services/live-snapshot.service.ts:319-356 claimLiveSnapshotFence *)
Definition claimLiveSnapshotFence (eventId checkedAt : Z) (s : FplTables) : result (FplTables * (bool * Z)) :=
  let* claimed := update_event (λ r, null_or (λ stamp, stamp <=? checkedAt) (er_liveSnapshotCheckedAt r))
                    (λ r, with_live (Some checkedAt) (er_liveFactsPersistedAt r) (er_liveSnapshotFinalizedAt r) r)
                    eventId s in
  match claimed.2 with
  | _ :: _ => Ok (claimed.1, (true, checkedAt))
  | [] =>
      match find_by event_id eventId (ft_events s) with
      | None => Throw "LIVE_EVENT_MISSING"
      | Some current =>
          match er_liveSnapshotCheckedAt current with
          | None => Throw "LIVE_FENCE_DID_NOT_ADVANCE"
          | Some winnerCheckedAt =>
              reject_if js_date winnerCheckedAt <=? checkedAt with_code "LIVE_FENCE_DID_NOT_ADVANCE" ;;
              Ok (s, (false, js_date winnerCheckedAt))
          end
      end
  end.

(** ** The transaction *)

(** src: src/services/live-snapshot.service.ts:70-80 LiveSnapshotDurablePersistenceRequest *)
Record LiveSnapshotRequest := mkLiveRequest {
  lq_season : Z * jsstr;
  lq_eventId : Z;
  lq_checkedAt : Z;
  lq_prepared : PreparedLiveSnapshot;
  lq_persistFixtures : bool;
  lq_persistEventLives : bool;
  lq_persistEventLivesIfMissing : bool;
  lq_persistEventLivesIfStaleAt : option Z;
  lq_finalizeEvent : bool;
}.

(** src: src/services/live-snapshot.service.ts:82-87 LiveSnapshotDurablePersistenceResult *)
Record LiveSnapshotResult := mkLiveResult {
  lo_accepted : bool;
  lo_winnerCheckedAt : Z;
  lo_persistedFixtures : bool;
  lo_persistedEventLives : bool;
}.

(** src: src/services/live-snapshot.service.ts:384-394 persistLiveSnapshotDurably *)
Definition must_persist_lives (q : LiveSnapshotRequest) (factsAt : option Z) : bool :=
  lq_persistEventLives q &&
  (negb (lq_persistEventLivesIfMissing q) || lq_finalizeEvent q || is_null factsAt ||
   match lq_persistEventLivesIfStaleAt q, factsAt with
   | Some stale, Some facts => js_date facts <? stale
   | _, _ => false
   end).

Section persist.
Context {hash : Type} `{!EqDecision hash} (contentHash : FixtureStatRow → hash) (pg_numeric : jsstr → bool).

(** src: src/services/live-snapshot.service.ts:399-405 persistLiveSnapshotDurably *)
Definition write_facts (now : Z) (q : LiveSnapshotRequest) (s : FplTables) : result FplTables :=
  let* lives := persistPreparedEventLives contentHash pg_numeric now (lp_eventLives (lq_prepared q)) s in
  let* stamped := update_event (λ _, true)
                    (λ r, with_live (er_liveSnapshotCheckedAt r) (Some (lq_checkedAt q)) (er_liveSnapshotFinalizedAt r) r)
                    (lq_eventId q) lives.1 in
  Ok stamped.1.

(** src: src/services/live-snapshot.service.ts:406-422 persistLiveSnapshotDurably *)
Definition finalize_event (q : LiveSnapshotRequest) (s : FplTables) : result FplTables :=
  let* finalized := update_event (λ r, ev_finished (er_event r) && ev_dataChecked (er_event r))
                      (λ r, with_live (er_liveSnapshotCheckedAt r) (er_liveFactsPersistedAt r) (Some (lq_checkedAt q)) r)
                      (lq_eventId q) s in
  reject_if negb (length finalized.2 =? 1)%nat with_code "EVENT_NOT_READY_FOR_FINAL_PUBLICATION" ;;
  Ok finalized.1.

(** src: src/services/live-snapshot.service.ts:369-429 persistLiveSnapshotDurably *)
Definition persist_live_body (now : Z) (q : LiveSnapshotRequest) (s : FplTables)
    : result (FplTables * LiveSnapshotResult) :=
  let* fence := claimLiveSnapshotFence (lq_eventId q) (lq_checkedAt q) s in
  if negb fence.2.1 then Ok (s, mkLiveResult false fence.2.2 false false) else
  let s := fence.1 in
  let factsAt := find_by event_id (lq_eventId q) (ft_events s) ≫= er_liveFactsPersistedAt in
  let persistEventLives := must_persist_lives q factsAt in
  let* s := (if lq_persistFixtures q
             then let* r := fixtures_upsertBatch (lp_fixtures (lq_prepared q)) s in Ok r.1 else Ok s) in
  let* s := (if persistEventLives then write_facts now q s else Ok s) in
  let* s := (if lq_finalizeEvent q then finalize_event q s else Ok s) in
  Ok (s, mkLiveResult true fence.2.2 (lq_persistFixtures q) persistEventLives).

(** src: src/services/live-snapshot.service.ts:358-429 persistLiveSnapshotDurably *)
Definition persistLiveSnapshotDurably (now : Z) (q : LiveSnapshotRequest) (s : FplTables)
    : FplTables * result LiveSnapshotResult :=
  if negb (bool_decide (lp_season (lq_prepared q) = (lq_season q).2)) ||
     negb (lp_eventId (lq_prepared q) =? lq_eventId q)
  then (s, Throw "LIVE_SCOPE_MISMATCH")
  else if lq_finalizeEvent q && negb (lq_persistEventLives q) then (s, Throw "FINAL_WITHOUT_LIVES")
  else withCoreSnapshotReadLock (lq_season q) (persist_live_body now q) s.
End persist.

(** ** Lemmas *)

Lemma update_event_ok where_ set eventId s s' ws :
  update_event where_ set eventId s = Ok (s', ws) →
  s' = set_events (update_where (λ row, (event_id row =? eventId) && where_ row) set (ft_events s)).1 s ∧
  ws = (update_where (λ row, (event_id row =? eventId) && where_ row) set (ft_events s)).2 ∧
  forallb finalization_order ws = true.
Proof.
  unfold update_event. intros H. apply result_bind_ok in H as ([t w] & H & [= <- <-]).
  apply update_checked_ok in H as [[= -> ->] Hc]. done.
Qed.

(** The rows written by an update of one event. *)
Lemma update_event_rows (where_ : EventRow → bool) set eventId (events : list EventRow) row :
  NoDup (event_id <$> events) → find_by event_id eventId events = Some row →
  (update_where (λ r, (event_id r =? eventId) && where_ r) set events).2 = if where_ row then [set row] else [].
Proof.
  unfold update_where. cbn [snd]. induction events as [|x l IH]; [done|]. cbn [fmap list_fmap].
  rewrite NoDup_cons. intros [Hx Hnd]. cbn [find_by]. destruct (decide (event_id x = eventId)) as [He|He].
  - intros [= ->]. assert (filter (λ r, (event_id r =? eventId) && where_ r) l = []) as Hnone.
    { apply filter_none. intros y Hy Hk. apply Is_true_true in Hk. boolsolve.
      apply Hx. rewrite He. replace eventId with (event_id y). by apply list_elem_of_fmap_2. }
    destruct (where_ row) eqn:Ew.
    + rewrite filter_cons_True, Hnone; [done|]. apply Is_true_true. rewrite Ew, andb_true_r. by apply Z.eqb_eq.
    + rewrite filter_cons_False, Hnone; [done|]. rewrite Ew, andb_false_r. by intros [].
  - intros Hf. rewrite filter_cons_False; [by apply IH|]. intros Hk. apply Is_true_true in Hk. by boolsolve.
Qed.

Lemma find_event_update (where_ : EventRow → bool) set k eventId (events : list EventRow) :
  (∀ r, event_id (set r) = event_id r) →
  find_by event_id k (update_where (λ r, (event_id r =? eventId) && where_ r) set events).1 =
  (λ r, if (k =? eventId) && where_ r then set r else r) <$> find_by event_id k events.
Proof.
  intros Hk. rewrite find_by_update by done. destruct (find_by event_id k events) as [r|] eqn:E; [|done].
  apply find_by_Some in E as [_ <-]. done.
Qed.

(** The fence: granted to a poll that is not older, and refused without a trace to an older one. *)
Lemma claim_ok eventId checkedAt s s' accepted winner :
  NoDup (event_id <$> ft_events s) → (1000 | checkedAt) →
  claimLiveSnapshotFence eventId checkedAt s = Ok (s', (accepted, winner)) →
  ∃ row, find_by event_id eventId (ft_events s) = Some row ∧
  if accepted then
    null_or (λ stamp, stamp <=? checkedAt) (er_liveSnapshotCheckedAt row) = true ∧
    null_or (λ finalized, checkedAt <=? finalized) (er_liveSnapshotFinalizedAt row) = true ∧
    s' = set_events (update_where
           (λ r, (event_id r =? eventId) && null_or (λ stamp, stamp <=? checkedAt) (er_liveSnapshotCheckedAt r))
           (λ r, with_live (Some checkedAt) (er_liveFactsPersistedAt r) (er_liveSnapshotFinalizedAt r) r)
           (ft_events s)).1 s
  else s' = s ∧ ∃ stamp, er_liveSnapshotCheckedAt row = Some stamp ∧ checkedAt < stamp.
Proof.
  intros Hnd [q ->]. unfold claimLiveSnapshotFence. intros H. apply result_bind_ok in H as ([s1 ws] & H1 & H).
  apply update_event_ok in H1 as (-> & Hws & Hc). cbn [fst snd] in H.
  destruct (find_by event_id eventId (ft_events s)) as [row|] eqn:Erow.
  - rewrite (update_event_rows _ _ _ _ row Hnd Erow) in Hws.
    exists row. split; [done|]. destruct (null_or _ (er_liveSnapshotCheckedAt row)) eqn:Estamp; subst ws.
    + injection H as <- <- _. split; [done|]. split; [|done]. cbn in Hc. rewrite andb_true_r in Hc.
      unfold finalization_order in Hc. cbn in Hc. by destruct (er_liveSnapshotFinalizedAt row).
    + destruct (er_liveSnapshotCheckedAt row) as [stamp|]; [|done]. apply throw_when_ok in H as [_ [= <- <- _]].
      split; [done|]. exists stamp. split; [done|]. cbn in Estamp. by apply Z.leb_gt in Estamp.
  - exfalso. destruct ws as [|w ws]; [done|].
    assert (w ∈ (update_where (λ r, (event_id r =? eventId) &&
        null_or (λ stamp, stamp <=? q * 1000) (er_liveSnapshotCheckedAt r))
        (λ r, with_live (Some (q * 1000)) (er_liveFactsPersistedAt r) (er_liveSnapshotFinalizedAt r) r)
        (ft_events s)).2) as Hw by (rewrite <-Hws; apply list_elem_of_here).
    cbn in Hw. apply list_elem_of_fmap in Hw as (x & _ & Hx). apply list_elem_of_filter in Hx as [Hk Hx].
    apply Is_true_true in Hk. boolsolve. apply find_by_None in Erow. apply Erow.
    replace eventId with (event_id x). by apply list_elem_of_fmap_2.
Qed.

Lemma update_event_fpl_ok where_ set eventId s s' ws :
  (∀ r, er_event (set r) = er_event r) →
  (∀ r, where_ r = true → is_Some (er_liveSnapshotFinalizedAt (set r)) →
        is_Some (er_liveSnapshotFinalizedAt r) ∨
        ev_finished (er_event r) = true ∧ ev_dataChecked (er_event r) = true) →
  fpl_ok s → update_event where_ set eventId s = Ok (s', ws) → fpl_ok s'.
Proof.
  intros Hev Hfin Hs H. apply update_event_ok in H as (-> & -> & Hc). destruct Hs; constructor; try done.
  - cbn [ft_events set_events]. rewrite update_keeps; [done|]. intros o _. unfold event_id. by rewrite Hev.
  - intros r Hr [t Ht]. cbn [ft_events set_events] in Hr. apply elem_of_update in Hr as (o & Ho & ->).
    destruct ((event_id o =? eventId) && where_ o) eqn:E; [|by apply ok_final; [done|eexists]].
    rewrite Hev. pose proof E as E'. apply andb_true_iff in E as [_ Ew].
    assert (finalization_order (set o) = true) as Hord.
    { rewrite forallb_forall in Hc. apply Hc, list_elem_of_In. cbn. apply list_elem_of_fmap_2, list_elem_of_filter.
      split; [by apply Is_true_true|done]. }
    destruct (Hfin o Ew ltac:(by eexists)) as [Hf|[Hf Hd]]; [|done].
    by destruct (ok_final o Ho Hf) as (? & ? & _).
Qed.

Lemma claim_fpl_ok eventId checkedAt s s' r :
  fpl_ok s → claimLiveSnapshotFence eventId checkedAt s = Ok (s', r) → fpl_ok s'.
Proof.
  intros Hs H. unfold claimLiveSnapshotFence in H. apply result_bind_ok in H as ([s1 ws] & H1 & H). cbn [fst snd] in H.
  apply update_event_fpl_ok in H1; [|done|by left|done]. destruct ws as [|w ws]; [|by injection H as <- _].
  destruct (find_by _ _ _) as [row|]; [|done]. destruct (er_liveSnapshotCheckedAt row); [|done].
  apply throw_when_ok in H as [_ H]. by injection H as <- _.
Qed.

Lemma set_live_fpl_ok {hash} `{!EqDecision hash} (contentHash : FixtureStatRow → hash) pg_numeric now prepared s s' lives :
  fpl_ok s → persistPreparedEventLives contentHash pg_numeric now prepared s = Ok (s', lives) → fpl_ok s'.
Proof.
  intros Hs H. apply persistPreparedEventLives_ok in H as ([Hse He Ht Hp Hph Hf] & _ & Hg).
  constructor; rewrite ?He, ?Ht, ?Hp, ?Hf; try apply Hs.
  rewrite Hg. apply upsert_batch_NoDup; [done|apply Hs].
Qed.

Section live_lemmas.
Context {hash : Type} `{!EqDecision hash} (contentHash : FixtureStatRow → hash) (pg_numeric : jsstr → bool).

(** The tables between the steps of an accepted poll. *)
Record live_trace (now : Z) (q : LiveSnapshotRequest) (s s' : FplTables) (r : LiveSnapshotResult) := {
  lt_s1 : FplTables; lt_s2 : FplTables; lt_s3 : FplTables;
  lt_claim : ∃ w, claimLiveSnapshotFence (lq_eventId q) (lq_checkedAt q) s = Ok (lt_s1, (true, w));
  lt_fixtures : if lq_persistFixtures q
                then ∃ w, fixtures_upsertBatch (lp_fixtures (lq_prepared q)) lt_s1 = Ok (lt_s2, w) else lt_s2 = lt_s1;
  lt_persisted : lo_persistedEventLives r =
    must_persist_lives q (find_by event_id (lq_eventId q) (ft_events lt_s1) ≫= er_liveFactsPersistedAt);
  lt_facts : if lo_persistedEventLives r then write_facts contentHash pg_numeric now q lt_s2 = Ok lt_s3 else lt_s3 = lt_s2;
  lt_final : if lq_finalizeEvent q then finalize_event q lt_s3 = Ok s' else s' = lt_s3;
}.

Lemma live_body now q s s' r :
  persist_live_body contentHash pg_numeric now q s = Ok (s', r) →
  (∃ w, claimLiveSnapshotFence (lq_eventId q) (lq_checkedAt q) s = Ok (s, (false, w)) ∧ s' = s ∧ lo_accepted r = false) ∨
  (lo_accepted r = true ∧ inhabited (live_trace now q s s' r)).
Proof.
  unfold persist_live_body. intros H. apply result_bind_ok in H as ([s1 [accepted w]] & H1 & H). cbn [fst snd] in H.
  destruct accepted; cbn [negb] in H.
  - right. apply result_bind_ok in H as (s2 & H2 & H). apply result_bind_ok in H as (s3 & H3 & H).
    apply result_bind_ok in H as (s4 & H4 & [= <- <-]). split; [done|]. constructor.
    apply (Build_live_trace now q s s4 _ s1 s2 s3); [by exists w| |done| |].
    + destruct (lq_persistFixtures q); [|congruence]. apply result_bind_ok in H2 as ([s' w'] & H2 & [= <-]). by exists w'.
    + cbn. destruct (must_persist_lives _ _); congruence.
    + destruct (lq_finalizeEvent q); congruence.
  - injection H as <- <-. left. exists w. split; [|done].
    unfold claimLiveSnapshotFence in H1 |- *. destruct (update_event _ _ _ _) as [[s2 ws]|]; [|done].
    cbn [result_bind snd] in *. destruct ws; [|done]. destruct (find_by _ _ _); [|done].
    destruct (er_liveSnapshotCheckedAt _); [|done]. unfold throw_when in *. case_match; [done|]. congruence.
Qed.

Lemma live_success now q s s' r :
  persistLiveSnapshotDurably contentHash pg_numeric now q s = (s', Ok r) →
  lp_eventId (lq_prepared q) = lq_eventId q ∧ (lq_finalizeEvent q = true → lq_persistEventLives q = true) ∧
  persist_live_body contentHash pg_numeric now q s = Ok (s', r).
Proof.
  unfold persistLiveSnapshotDurably. destruct (_ || _) eqn:E1; [done|]. destruct (_ && _) eqn:E2; [done|].
  unfold withCoreSnapshotReadLock. intros H. apply transaction_ok in H. apply throw_when_ok in H as [_ H].
  apply orb_false_iff in E1 as [_ E1]. split; [by boolsolve|]. split; [|done]. intros Hf. rewrite Hf in E2.
  by destruct (lq_persistEventLives q).
Qed.

Lemma live_failure now q s s' e :
  persistLiveSnapshotDurably contentHash pg_numeric now q s = (s', Throw e) → s' = s.
Proof.
  unfold persistLiveSnapshotDurably. destruct (_ || _); [congruence|]. destruct (_ && _); [congruence|].
  unfold withCoreSnapshotReadLock. intros H. by apply transaction_throw in H as [_ ->].
Qed.

Lemma write_facts_ok now q s s' :
  write_facts contentHash pg_numeric now q s = Ok s' →
  ∃ mid lives ws, persistPreparedEventLives contentHash pg_numeric now (lp_eventLives (lq_prepared q)) s = Ok (mid, lives) ∧
    update_event (λ _, true)
      (λ r, with_live (er_liveSnapshotCheckedAt r) (Some (lq_checkedAt q)) (er_liveSnapshotFinalizedAt r) r)
      (lq_eventId q) mid = Ok (s', ws).
Proof.
  unfold write_facts. intros H. apply result_bind_ok in H as ([mid lives] & H1 & H).
  apply result_bind_ok in H as ([s2 ws] & H2 & [= <-]). by exists mid, lives, ws.
Qed.

Lemma finalize_event_ok q s s' :
  finalize_event q s = Ok s' →
  ∃ ws, update_event (λ r, ev_finished (er_event r) && ev_dataChecked (er_event r))
      (λ r, with_live (er_liveSnapshotCheckedAt r) (er_liveFactsPersistedAt r) (Some (lq_checkedAt q)) r)
      (lq_eventId q) s = Ok (s', ws) ∧ length ws = 1%nat.
Proof.
  unfold finalize_event. intros H. apply result_bind_ok in H as ([s2 ws] & H1 & H).
  apply throw_when_ok in H as [Hl [= <-]]. apply negb_false_iff, Nat.eqb_eq in Hl. by exists ws.
Qed.

Lemma live_trace_ok now q s s' r (tr : live_trace now q s s' r) : fpl_ok s → fpl_ok (lt_s3 _ _ _ _ _ tr).
Proof.
  destruct tr as [s1 s2 s3 [w Hclaim] Hfix Hper Hfacts Hfinal]. cbn. intros Hs. apply claim_fpl_ok in Hclaim; [|done].
  assert (fpl_ok s2) as H2.
  { destruct (lq_persistFixtures q); [|by subst]. destruct Hfix as [w2 H2]. exact (fixtures_upsertBatch_fpl_ok _ _ _ _ Hclaim H2). }
  destruct (lo_persistedEventLives r); [|by subst].
  apply write_facts_ok in Hfacts as (mid & lives & ws & Hp & Hu). apply set_live_fpl_ok in Hp; [|done].
  eapply update_event_fpl_ok in Hu; [done|done| |done]. by left.
Qed.

Lemma persistLive_fpl_ok now q s s' r :
  fpl_ok s → persistLiveSnapshotDurably contentHash pg_numeric now q s = (s', Ok r) → fpl_ok s'.
Proof.
  intros Hs H. apply live_success in H as (_ & _ & H). apply live_body in H as [(w & _ & -> & _)|[_ [tr]]]; [done|].
  pose proof (live_trace_ok _ _ _ _ _ tr Hs) as H3. destruct tr as [s1 s2 s3 Hclaim Hfix Hper Hfacts Hfinal]. cbn in H3.
  destruct (lq_finalizeEvent q); [|by subst]. apply finalize_event_ok in Hfinal as (ws & Hu & _).
  eapply update_event_fpl_ok in Hu; [done|done| |done]. intros o Ho _. right. by boolsolve.
Qed.
End live_lemmas.

Section live_outcomes.
Context {hash : Type} `{!EqDecision hash} (contentHash : FixtureStatRow → hash) (pg_numeric : jsstr → bool).

(** The row of the gameweek across an accepted poll. *)
Record polled_event (q : LiveSnapshotRequest) (row row' : EventRow) : Prop := {
  po_not_older : null_or (λ stamp, stamp <=? lq_checkedAt q) (er_liveSnapshotCheckedAt row) = true;
  po_not_final : null_or (λ finalized, lq_checkedAt q <=? finalized) (er_liveSnapshotFinalizedAt row) = true;
  po_event : er_event row' = er_event row;
  po_deadline : er_deadline row' = er_deadline row;
  po_stamp : er_liveSnapshotCheckedAt row' = Some (lq_checkedAt q);
  po_finalized : lq_finalizeEvent q = true →
    er_liveSnapshotFinalizedAt row' = Some (lq_checkedAt q) ∧
    ev_finished (er_event row) = true ∧ ev_dataChecked (er_event row) = true;
}.

Lemma live_trace_event now q s s' r :
  fpl_ok s → (1000 | lq_checkedAt q) → live_trace contentHash pg_numeric now q s s' r →
  ∃ row row', find_by event_id (lq_eventId q) (ft_events s) = Some row ∧
    find_by event_id (lq_eventId q) (ft_events s') = Some row' ∧ polled_event q row row'.
Proof.
  intros Hs Hq tr. pose proof (live_trace_ok _ _ _ _ _ _ _ tr Hs) as Hok.
  destruct tr as [s1 s2 s3 [w Hclaim] Hfix Hper Hfacts Hfinal]. cbn in Hok.
  apply claim_ok in Hclaim as (row & Hrow & Hold & Hnf & ->); [|by apply Hs|done].
  exists row.
  set (r1 := with_live (Some (lq_checkedAt q)) (er_liveFactsPersistedAt row) (er_liveSnapshotFinalizedAt row) row).
  assert (find_by event_id (lq_eventId q) (ft_events s2) = Some r1) as H2.
  { assert (ft_events s2 = (update_where
           (λ r, (event_id r =? lq_eventId q) &&
              null_or (λ stamp, stamp <=? lq_checkedAt q) (er_liveSnapshotCheckedAt r))
           (λ r, with_live (Some (lq_checkedAt q)) (er_liveFactsPersistedAt r) (er_liveSnapshotFinalizedAt r) r)
           (ft_events s)).1) as ->.
    { destruct (lq_persistFixtures q); [|by subst]. destruct Hfix as [w2 H2]. by apply fixtures_upsertBatch_ok in H2 as ->. }
    rewrite find_event_update by done. rewrite Hrow. cbn. by rewrite Z.eqb_refl, Hold. }
  assert (∃ facts, find_by event_id (lq_eventId q) (ft_events s3) =
    Some (with_live (Some (lq_checkedAt q)) facts (er_liveSnapshotFinalizedAt row) row)) as [facts H3].
  { destruct (lo_persistedEventLives r); [|subst; by eexists].
    apply write_facts_ok in Hfacts as (mid & lives & ws & Hp & Hu).
    apply persistPreparedEventLives_ok in Hp as ([_ Hev _ _ _ _] & _ & _). apply update_event_ok in Hu as (-> & _).
    cbn [ft_events set_events]. rewrite find_event_update by done. rewrite Hev, H2. cbn. rewrite Z.eqb_refl. by eexists. }
  destruct (lq_finalizeEvent q) eqn:Ef.
  - apply finalize_event_ok in Hfinal as (ws & Hu & Hlen). apply update_event_ok in Hu as (-> & Hws & _).
    eexists. split; [done|]. cbn [ft_events set_events]. rewrite find_event_update by done. rewrite H3.
    cbn [fmap option_fmap option_map]. rewrite Z.eqb_refl. cbn [andb er_event with_live].
    destruct (ev_finished (er_event row) && ev_dataChecked (er_event row)) eqn:Efd.
    + split; [done|]. apply andb_true_iff in Efd as [Efin Echk]. by constructor.
    + exfalso. rewrite (update_event_rows _ _ _ _ _ (ok_events _ Hok) H3) in Hws. cbn in Hws. rewrite Efd in Hws.
      by subst ws.
  - subst s'. eexists. split; [done|]. split; [exact H3|]. constructor; try done. by rewrite Ef.
Qed.
End live_outcomes.

(** C14: A live poll and the fence of its gameweek.  A poll that fails leaves the tables as they are.  A poll that is
    reported as stale also does, and a strictly newer poll holds the fence.  An accepted poll is not older than the
    fence it found, leaves the fence at its own time, and, if it finalises, marks the gameweek final at its own time,
    which only happens to a finished gameweek with checked data. *)
Theorem live_poll_fenced {hash : Type} `{!EqDecision hash} (contentHash : FixtureStatRow → hash) pg_numeric now q s s' out
  (Hs : fpl_ok s) (Hq : (1000 | lq_checkedAt q))
  (H : persistLiveSnapshotDurably contentHash pg_numeric now q s = (s', out)) :
  match out with
  | Throw _ => s' = s
  | Ok r =>
      if lo_accepted r then
        ∃ row row', find_by event_id (lq_eventId q) (ft_events s) = Some row ∧
          find_by event_id (lq_eventId q) (ft_events s') = Some row' ∧ polled_event q row row'
      else s' = s ∧ ∃ row stamp, find_by event_id (lq_eventId q) (ft_events s) = Some row ∧
          er_liveSnapshotCheckedAt row = Some stamp ∧ lq_checkedAt q < stamp
  end.
Proof.
  destruct out as [r|e]; [|by eapply live_failure].
  apply live_success in H as (_ & _ & H). apply live_body in H as [(w & Hclaim & -> & ->)|[-> [tr]]].
  - split; [done|]. apply claim_ok in Hclaim as (row & Hrow & _ & stamp & Hst & Hlt); [|by apply Hs|done]. eauto.
  - by apply (live_trace_event _ _ _ _ _ _ _ Hs Hq tr).
Qed.

(** C33: Once a gameweek is final, every newer live poll fails and stores nothing, a manual repair or a repeated
    finalisation included: claiming the fence would put the time of the poll after the final marker, which the
    constraint [events_finalization_order] forbids. *)
Theorem finalized_blocks_live {hash : Type} `{!EqDecision hash} (contentHash : FixtureStatRow → hash) pg_numeric now q s
    row finalized
  (Hs : fpl_ok s) (Hq : (1000 | lq_checkedAt q))
  (Hrow : find_by event_id (lq_eventId q) (ft_events s) = Some row)
  (Hfin : er_liveSnapshotFinalizedAt row = Some finalized) (Hnew : finalized < lq_checkedAt q) :
  (persistLiveSnapshotDurably contentHash pg_numeric now q s).1 = s ∧
  is_ok (persistLiveSnapshotDurably contentHash pg_numeric now q s).2 = false.
Proof.
  destruct (persistLiveSnapshotDurably contentHash pg_numeric now q s) as [s' [r|e]] eqn:E.
  2: { split; [|done]. by eapply live_failure. }
  exfalso. apply live_success in E as (_ & _ & E). apply live_body in E as [(w & Hclaim & _ & _)|[_ [tr]]].
  - apply claim_ok in Hclaim as (row' & Hrow' & _ & stamp & Hst & Hlt); [|by apply Hs|done].
    assert (row' = row) as -> by congruence. apply find_by_Some in Hrow as [Hrow _].
    destruct (ok_final s Hs row Hrow ltac:(by eexists)) as (_ & _ & Hord).
    unfold finalization_order in Hord. rewrite Hfin, Hst in Hord. boolsolve. lia.
  - apply (live_trace_event _ _ _ _ _ _ _ Hs Hq) in tr as (row' & row2 & Hrow' & _ & Hp).
    assert (row' = row) as -> by congruence. apply po_not_final in Hp. rewrite Hfin in Hp. cbn in Hp. boolsolve. lia.
Qed.

(** C34: A player whose totals of the gameweek exceed the limits of one match rejects the whole live snapshot: more
    than 150 minutes, two clean sheets, more than three bonus points, two red or three yellow cards.  A gameweek with
    two matches of a club is rejected when one of its players goes beyond a limit (two full matches, say), and only
    such totals are covered here: one whose totals stay within the limits is not. *)
Theorem totals_over_limits_rejected date_parse eventId elements rawFixtures referenceData expectedFixtureIds element
  (Hin : element ∈ elements) (Hover : over_limit (rl_stats element) = true) :
  is_ok (prepareLiveSnapshot date_parse eventId elements rawFixtures referenceData expectedFixtureIds) = false.
Proof.
  destruct (prepareLiveSnapshot _ _ _ _ _ _) as [p|] eqn:E; [|done]. exfalso.
  unfold prepareLiveSnapshot in E. inv_ok. rename select (prepareEventLives _ _ = _) into Hprep.
  unfold prepareEventLives in Hprep. apply result_bind_ok in Hprep as (totals & Ht & _).
  unfold transformEventLives in Ht.
  pose proof (map_throwing_throws (transformEventLive eventId) elements element Hin (over_limit_throws _ _ Hover)) as Hf.
  by rewrite Ht in Hf.
Qed.

(** ** The final rows *)

(** What the gameweek holds after the facts of a poll are written. *)
Lemma facts_written {hash} `{!EqDecision hash} (contentHash : FixtureStatRow → hash) pg_numeric now q s s' r :
  live_trace contentHash pg_numeric now q s s' r → lo_persistedEventLives r = true →
  NoDup ((λ e, (el_eventId e, el_elementId e)) <$> pe_eventLives (lp_eventLives (lq_prepared q))) ∧
  ft_gameweeks s' = upsert_batch gameweek_key (λ _ new, new)
    ((λ e, mkGameweekRow (stored_live e) now) <$> pe_eventLives (lp_eventLives (lq_prepared q))) (ft_gameweeks s).
Proof.
  intros [s1 s2 s3 [w Hclaim] Hfix Hper Hfacts Hfinal] Hp. rewrite Hp in Hfacts.
  apply write_facts_ok in Hfacts as (mid & lives & ws & Hpl & Hu).
  apply persistPreparedEventLives_ok in Hpl as (_ & Hnd & Hg). split; [done|].
  assert (ft_gameweeks s' = ft_gameweeks mid) as ->.
  { apply update_event_ok in Hu as (-> & _). destruct (lq_finalizeEvent q); [|by subst].
    apply finalize_event_ok in Hfinal as (ws' & Hu & _). by apply update_event_ok in Hu as (-> & _). }
  rewrite Hg. f_equal. assert (ft_gameweeks s1 = ft_gameweeks s) as <-.
  { unfold claimLiveSnapshotFence in Hclaim. apply result_bind_ok in Hclaim as ([s4 ws4] & H4 & Hc).
    apply update_event_ok in H4 as (-> & _). cbn [fst snd] in Hc. destruct ws4; [|by injection Hc as <- _].
    destruct (find_by _ _ _); [|done]. destruct (er_liveSnapshotCheckedAt _); [|done].
    by apply throw_when_ok in Hc as [_ [= <- _]]. }
  destruct (lq_persistFixtures q); [|by subst]. destruct Hfix as [w2 H2]. by apply fixtures_upsertBatch_ok in H2 as ->.
Qed.

(** C15: What a finalisation stores is what the calculations after the gameweek read.  A final poll whose transaction
    starts at or after its own time and the deadline, in a gameweek whose stored rows are older than the poll, makes
    the final rows of the gameweek exactly the totals of the poll (with an absent defensive contribution as zero):
    rows that an earlier poll left behind are not among them. *)
Theorem final_rows_are_the_poll {hash : Type} `{!EqDecision hash} (contentHash : FixtureStatRow → hash) pg_numeric
    now q s s' r row deadline
  (Hs : fpl_ok s) (Hq : (1000 | lq_checkedAt q))
  (H : persistLiveSnapshotDurably contentHash pg_numeric now q s = (s', Ok r))
  (Hacc : lo_accepted r = true) (Hfin : lq_finalizeEvent q = true)
  (Hlives : ∀ e, e ∈ pe_eventLives (lp_eventLives (lq_prepared q)) → el_eventId e = lq_eventId q)
  (Hrow : find_by event_id (lq_eventId q) (ft_events s) = Some row) (Hdl : er_deadline row = Some deadline)
  (Hnow : lq_checkedAt q ≤ now ∧ deadline ≤ now)
  (Hold : ∀ g, g ∈ ft_gameweeks s → el_eventId (gw_live g) = lq_eventId q → gw_writtenAt g < lq_checkedAt q) :
  findFinalizedByEventId (lq_eventId q) s' ≡ₚ stored_live <$> pe_eventLives (lp_eventLives (lq_prepared q)).
Proof.
  apply live_success in H as (_ & Hboth & H). apply live_body in H as [(w & _ & _ & ?)|[_ [tr]]]; [congruence|].
  destruct (live_trace_event _ _ _ _ _ _ _ Hs Hq tr) as (row0 & row' & Hrow0 & Hrow' & []).
  assert (row0 = row) as -> by congruence. destruct (po_finalized0 Hfin) as (Hfa & Hf & Hd).
  assert (lo_persistedEventLives r = true) as Hp.
  { destruct tr. rewrite lt_persisted0. unfold must_persist_lives. rewrite Hfin, (Hboth Hfin). by rewrite orb_true_r. }
  apply facts_written in tr as [Hnd Hg]; [|done].
  unfold findFinalizedByEventId. rewrite Hrow', Hg.
  set (lives := pe_eventLives (lp_eventLives (lq_prepared q))) in *.
  assert (NoDup (gameweek_key <$> ((λ e, mkGameweekRow (stored_live e) now) <$> lives))) as Hnd'.
  { rewrite <-list_fmap_compose. exact Hnd. }
  set (table := upsert_batch _ _ _ _).
  assert (NoDup (gameweek_key <$> table)) as Ht by (apply upsert_batch_NoDup; [done|apply Hs]).
  assert (∀ t, finalized_for t row' = (lq_checkedAt q <=? t) && (deadline <=? t)) as Hff.
  { intros t. unfold finalized_for. by rewrite po_event0, po_deadline0, Hf, Hd, Hdl, Hfa. }
  assert (NoDup ((λ e, (el_eventId e, el_elementId e)) <$> (gw_live <$> List.filter
    (λ g, (el_eventId (gw_live g) =? lq_eventId q) && finalized_for (gw_writtenAt g) row') table))) as Hnl.
  { rewrite <-list_fmap_compose. change ((λ e, (el_eventId e, el_elementId e)) ∘ gw_live) with gameweek_key.
    by apply NoDup_fmap_list_filter. }
  apply NoDup_Permutation.
  - by apply NoDup_fmap_1 in Hnl.
  - apply (NoDup_fmap_1 (λ e, (el_eventId e, el_elementId e))). rewrite <-list_fmap_compose. exact Hnd.
  - intros x. rewrite !list_elem_of_fmap. setoid_rewrite list_elem_of_In. setoid_rewrite filter_In.
    setoid_rewrite <-list_elem_of_In. setoid_rewrite Hff. split.
    + intros (g & -> & Hin & Hk). apply elem_of_upsert_batch in Hin as [(y & Hy & ->)|[Hin _]]; [| |done|apply Hs|done].
      * rewrite written_row_replace. apply list_elem_of_fmap in Hy as (e & -> & He). by exists e.
      * boolsolve. apply Hold in Hin; [lia|done].
    + intros (e & -> & He). exists (mkGameweekRow (stored_live e) now). split; [done|]. split.
      * assert (find_by gameweek_key (gameweek_key (mkGameweekRow (stored_live e) now)) table =
          Some (mkGameweekRow (stored_live e) now)) as Hfb; [|by apply find_by_Some in Hfb as [? _]].
        unfold table. apply find_by_replaced; [done|]. by apply (list_elem_of_fmap_2 (λ e, mkGameweekRow (stored_live e) now)).
      * cbn. rewrite (Hlives e He), Z.eqb_refl. cbn. apply andb_true_iff. rewrite !Z.leb_le. lia.
Qed.

(** ** A final poll *)

Definition sample_final_event : EventRow := {|
  er_event := mkEvent 1 (js "Gameweek 1") (Some (js "2025-08-15T17:30:00Z")) None true true None None None None false true
                false false false [] None None None None None None None;
  er_deadline := Some 1000; er_dataCheckedAt := Some 2000; er_liveSnapshotCheckedAt := Some 5000;
  er_liveFactsPersistedAt := Some 5000; er_liveSnapshotFinalizedAt := None |}.

Definition sample_total (elementId minutes : Z) : EventLive :=
  mkEventLive 1 elementId minutes 1 0 1 0 0 0 0 0 0 0 3 40 None true (js "0.5") (js "0.1") (js "0.6") (js "0.9") false 12
    (Some []).

Definition sample_explain (elementId : Z) : EventLiveExplain :=
  let z := (zero, zero) in
  mkExplain (of_int 1) (of_int elementId) (of_int 3) (of_int 90) (Some (of_int 2)) (of_int 1, of_int 4) z z z z z z z z z z.

Definition sample_evidence (elementId : Z) : FixtureEvidence :=
  mkEvidence (of_int 1) (of_int 1) (of_int elementId) 90 (Some 1) 1 0 0 0 0.

(** Player 2 has a row of an earlier poll, and none in the final one. *)
Definition sample_live_tables (event : EventRow) : FplTables := {|
  ft_seasons := ft_seasons sample_tables; ft_events := [event]; ft_teams := ft_teams sample_tables;
  ft_players := ft_players sample_tables; ft_phases := []; ft_fixtures := [sample_fx 1 1 1];
  ft_gameweeks := [mkGameweekRow (stored_live (sample_total 1 45)) 5500; mkGameweekRow (stored_live (sample_total 2 45)) 5500];
  ft_items := [mkScoringItem 1 2 (js "saves") 3 1]; ft_evidence := [] |}.

Definition sample_poll (checkedAt : Z) : LiveSnapshotRequest := {|
  lq_season := (2025, js "2526"); lq_eventId := 1; lq_checkedAt := checkedAt;
  lq_prepared := mkPreparedLive (js "2526") 1
    (mkPreparedLives (of_int 1) 1 [sample_total 1 90] [sample_explain 1] [sample_evidence 1] 0)
    [sample_fx 1 1 1] SnapshotSettled;
  lq_persistFixtures := true; lq_persistEventLives := true; lq_persistEventLivesIfMissing := true;
  lq_persistEventLivesIfStaleAt := None; lq_finalizeEvent := true |}.

(** A hash that tells rows apart, and an input of [numeric] that takes everything. *)
Definition sample_hash (r : FixtureStatRow) : FixtureStatRow := r.
Definition sample_numeric (s : jsstr) : bool := true.

#[export] Instance FixtureStatRow_eq_dec : EqDecision FixtureStatRow.
Proof. solve_decision. Defined.

Lemma sample_live_ok : fpl_ok (sample_live_tables sample_final_event).
Proof. apply fpl_okb_ok. vm_compute. reflexivity. Qed.

Example sample_final_poll :
  let '(s', r) := persistLiveSnapshotDurably sample_hash sample_numeric 9000 (sample_poll 8000)
                    (sample_live_tables sample_final_event) in
  (is_ok r, length (ft_gameweeks s'), el_elementId <$> findFinalizedByEventId 1 s',
   (λ i, (si_elementId i, si_value i)) <$> ft_items s', pf_teamId <$> ft_evidence s') =
  (true, 2%nat, [1], [(1, 90); (1, 1); (1, 3)], [1]).
Proof. vm_compute. reflexivity. Qed.

Lemma live_poll_fenced_witness :
  ∃ s' r, persistLiveSnapshotDurably sample_hash sample_numeric 9000 (sample_poll 8000)
            (sample_live_tables sample_final_event) = (s', Ok r) ∧ lo_accepted r = true ∧
  ∃ row row', find_by event_id 1 (ft_events (sample_live_tables sample_final_event)) = Some row ∧
    find_by event_id 1 (ft_events s') = Some row' ∧ polled_event (sample_poll 8000) row row'.
Proof.
  destruct (persistLiveSnapshotDurably sample_hash sample_numeric 9000 (sample_poll 8000)
              (sample_live_tables sample_final_event)) as [s' [r|e]] eqn:E; [|vm_compute in E; discriminate E].
  exists s', r. split; [reflexivity|].
  assert (lo_accepted r = true) as Ha by (vm_compute in E; injection E as _ <-; reflexivity).
  split; [exact Ha|].
  pose proof (live_poll_fenced sample_hash sample_numeric 9000 (sample_poll 8000) (sample_live_tables sample_final_event)
    s' (Ok r) sample_live_ok (ex_intro _ 8 eq_refl) E) as H. cbn beta iota in H. rewrite Ha in H. exact H.
Defined.

Definition sample_finalized_event : EventRow := with_live (Some 8000) (Some 8000) (Some 8000) sample_final_event.

Lemma sample_finalized_ok : fpl_ok (sample_live_tables sample_finalized_event).
Proof. apply fpl_okb_ok. vm_compute. reflexivity. Qed.

Lemma finalized_blocks_live_witness :
  is_ok (persistLiveSnapshotDurably sample_hash sample_numeric 12000 (sample_poll 11000)
           (sample_live_tables sample_finalized_event)).2 = false.
Proof.
  exact (proj2 (finalized_blocks_live sample_hash sample_numeric 12000 (sample_poll 11000)
    (sample_live_tables sample_finalized_event) sample_finalized_event 8000 sample_finalized_ok (ex_intro _ 11 eq_refl)
    eq_refl eq_refl eq_refl)).
Defined.

Lemma final_rows_are_the_poll_witness :
  ∃ s' r, persistLiveSnapshotDurably sample_hash sample_numeric 9000 (sample_poll 8000)
            (sample_live_tables sample_final_event) = (s', Ok r) ∧
  findFinalizedByEventId 1 s' ≡ₚ [stored_live (sample_total 1 90)].
Proof.
  destruct (persistLiveSnapshotDurably sample_hash sample_numeric 9000 (sample_poll 8000)
              (sample_live_tables sample_final_event)) as [s' [r|e]] eqn:E; [|vm_compute in E; discriminate E].
  exists s', r. split; [reflexivity|].
  apply (final_rows_are_the_poll sample_hash sample_numeric 9000 (sample_poll 8000) (sample_live_tables sample_final_event)
    s' r sample_final_event 1000 sample_live_ok (ex_intro _ 8 eq_refl) E); try reflexivity.
  - vm_compute in E. injection E as _ <-. reflexivity.
  - intros e He. apply list_elem_of_singleton in He as ->. reflexivity.
  - split; discriminate.
  - intros g Hg He. repeat (apply elem_of_cons in Hg as [->|Hg]); try reflexivity; try (vm_compute in He; discriminate He).
    by apply elem_of_nil in Hg.
Defined.

(** Two full matches. *)
Definition sample_two_matches : RawLiveElement :=
  let z := of_int 0 in
  mkRawLiveElement (of_int 1)
    (mkRawLiveStats (of_int 180) z z z z z z z z z z z z None (of_int 2) (js "0") (js "0") (js "0") (js "0") (of_int 4) false)
    (Some []).

Lemma totals_over_limits_rejected_witness :
  is_ok (prepareLiveSnapshot sample_no_time (of_int 1) [sample_two_matches] []
    (mkReference (js "2526") (mkTeamMaps [] [] []) [(1, 1)]) []) = false.
Proof.
  exact (totals_over_limits_rejected sample_no_time (of_int 1) [sample_two_matches] []
    (mkReference (js "2526") (mkTeamMaps [] [] []) [(1, 1)]) [] sample_two_matches (list_elem_of_here _ _) eq_refl).
Defined.

(** One match of the same player is accepted. *)
Example sample_one_match :
  is_ok (prepareLiveSnapshot sample_no_time (of_int 1)
    [mkRawLiveElement (of_int 1)
       (mkRawLiveStats (of_int 90) (of_int 0) (of_int 0) (of_int 0) (of_int 0) (of_int 0) (of_int 0) (of_int 0) (of_int 0)
          (of_int 0) (of_int 0) (of_int 0) (of_int 0) None (of_int 1) (js "0") (js "0") (js "0") (js "0") (of_int 2) false)
       (Some [])] [] (mkReference (js "2526") (mkTeamMaps [] [] []) [(1, 1)]) []) = true.
Proof. vm_compute. reflexivity. Qed.
