(* ===== verification/FplHistory.v ===== *)
(** * The writers of the season tables together ([src/services/core-snapshot-persistence.service.ts],
      [src/services/live-snapshot.service.ts], [updatePrices] of [src/repositories/players.ts])

    Core snapshots, price updates and live polls write the same tables in any order, each in a
    transaction of its own.  A history is a sequence of such transactions; those that read prices are
    observations: a time and the prices read then. *)

From S2P Require Import Prelude JsCollections JsNumber Json CoreEntities CoreSnapshot EventLives Postgres FplStore.
From S2P Require Import CorePersist LiveFacts LiveSnapshot.

(** The time at which prices were read, and the price of each player. *)
Definition observation : Type := Z * list (Z * Z).

Definition observed_price (o : observation) (id : Z) : option Z := map_get id (map_of_entries o.2).

Section history.
Context {hash : Type} `{!EqDecision hash} (contentHash : FixtureStatRow → hash).
Context (pg_time : jsstr → option Z) (pg_numeric : jsstr → bool).

Inductive fpl_step : FplTables → list observation → FplTables → Prop :=
| step_core clock snapshot time s s' r :
    coherent_snapshot snapshot → (1000 | time) →
    persistCoreSnapshot pg_time clock snapshot (Some time) s = (s', Ok r) →
    fpl_step s [(time, (λ p, (pl_id p, pl_price p)) <$> cs_players snapshot)] s'
| step_prices updates time s s' ps :
    updatePrices updates time s = Ok (s', ps) → updates ≠ [] →
    fpl_step s [(time, updates)] s'
| step_live now q s s' r :
    persistLiveSnapshotDurably contentHash pg_numeric now q s = (s', Ok r) →
    fpl_step s [] s'.

Inductive fpl_run : FplTables → list observation → FplTables → Prop :=
| run_nil s : fpl_run s [] s
| run_step s o s1 os s' : fpl_step s o s1 → fpl_run s1 os s' → fpl_run s (o ++ os) s'.

(** ** What every writer keeps *)

Lemma live_frame now q s s' r :
  persistLiveSnapshotDurably contentHash pg_numeric now q s = (s', Ok r) →
  ft_players s' = ft_players s ∧ ft_teams s' = ft_teams s ∧ ft_seasons s' = ft_seasons s.
Proof.
  intros H. apply live_success in H as (_ & _ & H). apply live_body in H as
    [(w & _ & -> & _)|[_ [[s1 s2 s3 [w Hclaim] Hfix Hper Hfacts Hfinal]]]]; [done|].
  set (frame := λ s : FplTables, (ft_players s, ft_teams s, ft_seasons s)).
  assert (frame s' = frame s) as Hf; [|by injection Hf].
  assert (∀ where_ set eventId s s' ws, update_event where_ set eventId s = Ok (s', ws) → frame s' = frame s) as Hup.
  { intros ????? ws Hu. by apply update_event_ok in Hu as (-> & _). }
  assert (frame s1 = frame s) as <-.
  { unfold claimLiveSnapshotFence in Hclaim. apply result_bind_ok in Hclaim as ([s4 ws4] & H4 & Hc).
    apply Hup in H4. cbn [fst snd] in Hc. destruct ws4; [|by injection Hc as <- _].
    destruct (find_by _ _ _); [|done]. destruct (er_liveSnapshotCheckedAt _); [|done].
    by apply throw_when_ok in Hc as [_ [= <- _]]. }
  assert (frame s2 = frame s1) as <-.
  { destruct (lq_persistFixtures q); [|by subst]. destruct Hfix as [w2 H2]. by apply fixtures_upsertBatch_ok in H2 as ->. }
  assert (frame s3 = frame s2) as <-.
  { destruct (lo_persistedEventLives r); [|by subst]. apply write_facts_ok in Hfacts as (mid & lives & ws & Hp & Hu).
    apply Hup in Hu as ->. apply persistPreparedEventLives_ok in Hp as ([Hse _ Ht Hp _ _] & _). unfold frame. by rewrite Hse, Ht, Hp. }
  destruct (lq_finalizeEvent q); [|by subst]. apply finalize_event_ok in Hfinal as (ws & Hu & _). by apply Hup in Hu.
Qed.

Lemma updatePrices_rows updates time s s' ps :
  updates ≠ [] → updatePrices updates time s = Ok (s', ps) →
  ft_teams s' = ft_teams s ∧ ft_seasons s' = ft_seasons s ∧
  ft_players s' = (λ r, if bool_decide (player_id r ∈ (map_of_entries updates).*1) &&
                           null_or (λ stamp, stamp <=? time) (pr_priceSourceCheckedAt r)
                        then with_price (nullish (map_get (player_id r) (map_of_entries updates)) (pl_price (pr_player r)))
                               time r
                        else r) <$> ft_players s.
Proof.
  intros Hne H. unfold updatePrices in H. destruct (is_nil updates) eqn:En; [by destruct updates|].
  destruct (update_checked _ _ _ _) as [[t u]|] eqn:E; [|done]. injection H as <- _.
  by apply update_checked_ok in E as [[= -> ->] _].
Qed.

Lemma fpl_step_ok s o s' : fpl_ok s → fpl_step s o s' → fpl_ok s'.
Proof.
  intros Hs Hstep. destruct Hstep as [clock snapshot time s1 s2 r Hc Ht H|updates time s1 s2 ps H _|now q s1 s2 r H].
  - apply persist_success in H as (sid & _ & _ & _ & H). exact (persistCoreSnapshotRows_fpl_ok _ _ _ _ _ _ _ _ Hs H).
  - exact (updatePrices_fpl_ok _ _ _ _ _ Hs H).
  - exact (persistLive_fpl_ok _ _ _ _ _ _ _ Hs H).
Qed.

Lemma fpl_step_identities s o s' : fpl_ok s → fpl_step s o s' → identities_kept s s'.
Proof.
  intros Hs Hstep. destruct Hstep as [clock snapshot time s1 s2 r Hc Ht H|updates time s1 s2 ps H Hne|now q s1 s2 r H].
  - exact (persist_identities _ _ _ _ _ _ _ Hs Hc H).
  - apply updatePrices_rows in H as (Ht & _ & Hp); [|done].
    constructor; [intros t Hin; rewrite Ht; by apply list_elem_of_fmap_2|].
    intros r Hin. rewrite Hp. apply list_elem_of_fmap. eexists. split; [|by apply list_elem_of_fmap_2].
    by destruct (_ && _).
  - apply live_frame in H as (Hp & Ht & _). constructor; intros; rewrite ?Hp, ?Ht; by apply list_elem_of_fmap_2.
Qed.

(** ** Prices *)

(** A step and the price of one player. *)
Definition price_step (o : list observation) (id : Z) (r r' : PlayerRow) : Prop :=
  match o with
  | [] => r' = r
  | ob :: _ =>
      match observed_price ob id with
      | Some p =>
          at_or_after (pr_priceSourceCheckedAt r') ob.1 = true ∧
          (∀ t, pr_priceSourceCheckedAt r = Some t → at_or_after (pr_priceSourceCheckedAt r') t = true) ∧
          (pr_priceSourceCheckedAt r' = pr_priceSourceCheckedAt r ∧ pl_price (pr_player r') = pl_price (pr_player r) ∨
           pr_priceSourceCheckedAt r' = Some ob.1 ∧ pl_price (pr_player r') = p)
      | None => pr_priceSourceCheckedAt r' = pr_priceSourceCheckedAt r ∧ pl_price (pr_player r') = pl_price (pr_player r)
      end
  end.

Lemma observed_core time snapshot id :
  NoDup (pl_id <$> cs_players snapshot) →
  observed_price (time, (λ p, (pl_id p, pl_price p)) <$> cs_players snapshot) id =
  pl_price <$> find_by pl_id id (cs_players snapshot).
Proof. intros Hnd. unfold observed_price. cbn [snd]. by rewrite map_get_entries. Qed.

Lemma fpl_step_price s o s' id r :
  fpl_ok s → fpl_step s o s' → find_by player_id id (ft_players s) = Some r →
  ∃ r', find_by player_id id (ft_players s') = Some r' ∧ price_step o id r r'.
Proof.
  intros Hs Hstep Hr.
  destruct Hstep as [clock snapshot time s1 s2 res Hc Ht H|updates time s1 s2 ps H Hne|now q s1 s2 res H].
  - pose proof (persist_players _ _ _ _ _ _ _ id Hs Hc Ht H) as Hp. rewrite Hr in Hp.
    assert (NoDup (pl_id <$> cs_players snapshot)) as Hnd.
    { apply persist_success in H as (sid & _ & _ & Hrec & Hrows). apply reconcile_same in Hrec as (_ & _ & _ & Hids & _).
      apply persist_tables in Hrows as (_ & _ & _ & _ & (_ & _ & Hnd & _) & _); [by rewrite <-Hids|].
      intros Hn. rewrite Hn in Hids. symmetry in Hids. apply fmap_nil_inv in Hids. by destruct Hc. }
    unfold price_step. rewrite observed_core by done. cbn [fst].
    destruct (find_by pl_id id (cs_players snapshot)) as [p|]; cbn [persisted_player] in Hp; rewrite Hp.
    + eexists. split; [done|]. cbn [fmap option_fmap option_map]. destruct (at_or_after _ _) eqn:Ea; cbn.
      * split; [done|]. split; [intros t ->; cbn; lia|]. left. split; [done|].
        unfold reconcile_player. cbn. by rewrite decide_True.
      * split; [lia|]. split; [|by right]. intros t Hst. rewrite Hst in Ea. cbn in Ea. lia.
    + by eexists.
  - apply updatePrices_rows in H as (_ & _ & Hp); [|done]. rewrite Hp.
    rewrite (find_by_fmap player_id player_id) by (intros x; by destruct (_ && _)). rewrite Hr.
    eexists. split; [done|]. apply find_by_Some in Hr as [_ <-]. unfold price_step, observed_price. cbn [fst snd].
    destruct (map_get (player_id r) (map_of_entries updates)) as [p|] eqn:Ep.
    + assert (player_id r ∈ (map_of_entries updates).*1) as Hin.
      { apply (map_get_is_Some (player_id r) (map_of_entries updates)). by eexists. }
      rewrite bool_decide_true by done. cbn [andb]. destruct (null_or _ _) eqn:En; cbn.
      * split; [lia|]. split; [|by right]. intros t Hst. rewrite Hst in En. cbn in En. lia.
      * destruct (pr_priceSourceCheckedAt r) as [t|]; [|done]. cbn in En |- *. split; [lia|].
        split; [intros ? [= <-]; lia|by left].
    + rewrite bool_decide_false; [done|]. intros Hin.
      apply (map_get_is_Some (player_id r) (map_of_entries updates)) in Hin as [x Hx]. congruence.
  - apply live_frame in H as (Hp & _ & _). exists r. by rewrite Hp.
Qed.
End history.

(** ** Seasons *)

(** Where a season stands; a state outside the three stages stays. *)
Definition stage (state : FplLifecycleState) : Z :=
  match state with Preseason => 0 | Active => 1 | Completed => 2 | ReferenceOnly => 3 | Closed => 4 end.

Lemma advance_forward state events :
  stage state ≤ stage (advanceSeasonLifecycleState state events) ∧
  (stage state = 3 ∨ stage state = 4 → advanceSeasonLifecycleState state events = state) ∧
  (stage state ≤ 2 → stage (advanceSeasonLifecycleState state events) ≤ 2).
Proof.
  unfold advanceSeasonLifecycleState. destruct state; repeat case_match; cbn;
    (split; [lia|split; [intros; try done; exfalso; lia|lia]]).
Qed.

(** The same season, at no earlier stage. *)
Definition season_forward (x y : SeasonRow) : Prop :=
  se_seasonId y = se_seasonId x ∧ se_seasonCode y = se_seasonCode x ∧ se_isCurrent y = se_isCurrent x ∧
  se_metadata y = se_metadata x ∧ stage (se_lifecycleState x) ≤ stage (se_lifecycleState y) ∧
  (3 ≤ stage (se_lifecycleState x) ∨ 3 ≤ stage (se_lifecycleState y) → se_lifecycleState y = se_lifecycleState x).

#[export] Instance season_forward_preorder : PreOrder season_forward.
Proof.
  split; [intros x; repeat split; lia|].
  intros x y z (? & ? & ? & ? & Hl1 & He1) (? & ? & ? & ? & Hl2 & He2).
  repeat split; try congruence; [lia|]. intros Hs.
  assert (3 ≤ stage (se_lifecycleState y) ∨ 3 ≤ stage (se_lifecycleState z)) as Hyz by (destruct Hs; [left; lia|by right]).
  rewrite He2 by done. apply He1. right. rewrite <-(He2 Hyz). destruct Hyz; [lia|done].
Qed.

Definition seasons_forward (s s' : FplTables) : Prop := Forall2 season_forward (ft_seasons s) (ft_seasons s').

#[export] Instance seasons_forward_preorder : PreOrder seasons_forward.
Proof.
  split; [intros s; apply (reflexivity (R := Forall2 season_forward))|].
  intros s1 s2 s3. apply (transitivity (R := Forall2 season_forward)).
Qed.

Lemma update_forward seasonId (f : SeasonRow → SeasonRow) s se :
  (∀ x, x ∈ ft_seasons s → se_seasonId x = seasonId → season_forward x (f x)) →
  ft_seasons se = (update_where (λ r, se_seasonId r =? seasonId) f (ft_seasons s)).1 → seasons_forward s se.
Proof.
  intros Hf Hse. unfold seasons_forward. rewrite Hse. clear Hse. cbn [fst update_where].
  induction (ft_seasons s) as [|x l IH]; [constructor|]. cbn. constructor.
  - destruct (se_seasonId x =? seasonId) eqn:E; [|done]. apply Hf; [apply list_elem_of_here|by apply Z.eqb_eq].
  - apply IH. intros y Hy. apply Hf. by apply list_elem_of_further.
Qed.

Lemma persist_seasons pg_time clock seasonId c time s s' res :
  NoDup (se_seasonId <$> ft_seasons s) →
  persistCoreSnapshotRows pg_time clock seasonId c time s = Ok (s', res) → seasons_forward s s'.
Proof.
  intros Hnd H. unfold persistCoreSnapshotRows in H.
  apply result_bind_ok in H as (s1 & H1 & H). apply result_bind_ok in H as ([s2 w2] & H2 & H).
  apply result_bind_ok in H as ([s3 w3] & H3 & H). apply result_bind_ok in H as ([s4 w4] & H4 & H).
  apply result_bind_ok in H as ([s5 w5] & H5 & H). apply result_bind_ok in H as ([s6 w6] & H6 & H).
  apply result_bind_ok in H as ([s7 w7] & H7 & H). cbn [fst snd] in *.
  do 5 apply result_bind_ok in H as (? & _ & H). injection H as <- _.
  transitivity s1.
  - unfold advanceLifecycle in H1. destruct (find_by _ _ _) as [current|] eqn:Ec; [|done].
    case_bool_decide as Hb; injection H1 as <-; [reflexivity|].
    apply (update_forward seasonId (with_lifecycle (advanceSeasonLifecycleState (se_lifecycleState current) (cs_events c))));
      [|done].
    intros row Hx Hid. assert (row = current) as ->.
    { apply (find_by_elem se_seasonId) in Hx; [|done]. rewrite Hid, Ec in Hx. congruence. }
    destruct (advance_forward (se_lifecycleState current) (cs_events c)) as (Hle & Hkeep & Hout). cbn.
    repeat split; [done|]. intros [H3'|H3'].
    + apply Hkeep. destruct (se_lifecycleState current); cbn in *; lia.
    + apply Hkeep. destruct (se_lifecycleState current); cbn in *; lia.
  - assert (ft_seasons s7 = ft_seasons s1) as H71.
    { apply events_upsertBatch_ok in H2 as (_ & -> & _). apply teams_upsertBatch_ok in H3 as (_ & ->).
      assert (ft_seasons s4 = ft_seasons s1) as <-.
      { unfold players_upsertBatch in H4. destruct (is_nil _); [by injection H4 as <- _|].
        by apply result_bind_ok in H4 as ([? ?] & _ & [= <- _]). }
      apply phases_upsertBatch_ok in H5 as (_ & ->). apply fixtures_upsertBatch_ok in H7 as ->.
      unfold markAbsentUnscheduled in H6. destruct (is_nil _); [by injection H6 as <- _|].
      apply throw_when_ok in H6 as [_ H6]. by injection H6 as <- _. }
    apply (update_forward seasonId (with_rules (cs_selectionRules c))); [|cbn; by rewrite H71].
    intros row _ _. repeat split; cbn; lia.
Qed.

Lemma seasons_forward_ids s s' : seasons_forward s s' → se_seasonId <$> ft_seasons s' = se_seasonId <$> ft_seasons s.
Proof. unfold seasons_forward. induction 1 as [|x y l l' [Hid _] _ IH]; [done|]. cbn. by rewrite Hid, IH. Qed.

Section runs.
Context {hash : Type} `{!EqDecision hash} (contentHash : FixtureStatRow → hash).
Context (pg_time : jsstr → option Z) (pg_numeric : jsstr → bool).

Lemma fpl_step_seasons s o s' :
  NoDup (se_seasonId <$> ft_seasons s) → fpl_step contentHash pg_time pg_numeric s o s' → seasons_forward s s'.
Proof.
  intros Hnd Hstep. destruct Hstep as [clock snapshot time s1 s2 r Hc Ht H|updates time s1 s2 ps H Hne|now q s1 s2 r H].
  - apply persist_success in H as (sid & _ & _ & _ & H). exact (persist_seasons _ _ _ _ _ _ _ _ Hnd H).
  - apply updatePrices_rows in H as (_ & Hse & _); [|done]. unfold seasons_forward. rewrite Hse.
    apply (reflexivity (R := Forall2 season_forward)).
  - apply live_frame in H as (_ & _ & Hse). unfold seasons_forward. rewrite Hse.
    apply (reflexivity (R := Forall2 season_forward)).
Qed.

(** What a history promises of the price of a stored player. *)
Record newest_price (os : list observation) (id : Z) (r r' : PlayerRow) : Prop := {
  np_observed o p : o ∈ os → observed_price o id = Some p → at_or_after (pr_priceSourceCheckedAt r') o.1 = true;
  np_forward t : pr_priceSourceCheckedAt r = Some t → at_or_after (pr_priceSourceCheckedAt r') t = true;
  np_source :
    pr_priceSourceCheckedAt r' = pr_priceSourceCheckedAt r ∧ pl_price (pr_player r') = pl_price (pr_player r) ∨
    ∃ o, o ∈ os ∧ observed_price o id = Some (pl_price (pr_player r')) ∧ pr_priceSourceCheckedAt r' = Some o.1;
}.

Lemma newest_price_step o os id r r1 r' :
  (length o ≤ 1)%nat → price_step o id r r1 → newest_price os id r1 r' → newest_price (o ++ os) id r r'.
Proof.
  intros Hlen Hstep [Hobs Hfwd Hsrc]. unfold price_step in Hstep.
  destruct o as [|ob [|]]; cbn in Hlen; try lia; [by subst|]. clear Hlen.
  assert (∀ t, at_or_after (pr_priceSourceCheckedAt r1) t = true → at_or_after (pr_priceSourceCheckedAt r') t = true)
    as Hmono.
  { intros t Ht. destruct (pr_priceSourceCheckedAt r1) as [t1|]; [|done]. specialize (Hfwd t1 eq_refl). cbn in Ht.
    destruct (pr_priceSourceCheckedAt r') as [t2|]; [|done]. cbn in *. lia. }
  destruct (observed_price ob id) as [p|] eqn:Ep.
  - destruct Hstep as (Hat & Hold & Hcase). constructor.
    + intros o q [->|Ho]%elem_of_cons Hq; [by apply Hmono|by eapply Hobs].
    + intros t Ht. by apply Hmono, Hold.
    + destruct Hsrc as [[Hs Hp]|(o & Ho & Hp & Hs)].
      * destruct Hcase as [[Hs1 Hp1]|[Hs1 Hp1]]; [left; split; congruence|].
        right. exists ob. split; [apply list_elem_of_here|]. split; [|congruence]. rewrite Ep. congruence.
      * right. exists o. split; [by apply list_elem_of_further|done].
  - destruct Hstep as [Hs1 Hp1]. constructor.
    + intros o q [->|Ho]%elem_of_cons Hq; [congruence|by eapply Hobs].
    + intros t Ht. apply Hfwd. congruence.
    + destruct Hsrc as [[Hs Hp]|(o & Ho & Hp & Hs)]; [left; split; congruence|].
      right. exists o. split; [by apply list_elem_of_further|done].
Qed.

Lemma run_price s os s' id r :
  fpl_ok s → fpl_run contentHash pg_time pg_numeric s os s' → find_by player_id id (ft_players s) = Some r →
  ∃ r', find_by player_id id (ft_players s') = Some r' ∧ newest_price os id r r'.
Proof.
  intros Hs Hrun. revert r. induction Hrun as [s|s o s1 os s' Hstep _ IH]; intros r Hr.
  - exists r. split; [done|]. constructor; [by intros ? ? ?%elem_of_nil| |by left].
    intros t ->. cbn. lia.
  - destruct (fpl_step_price _ _ _ _ _ _ _ _ Hs Hstep Hr) as (r1 & Hr1 & Hp1).
    destruct (IH (fpl_step_ok _ _ _ _ _ _ Hs Hstep) r1 Hr1) as (r' & Hr' & Hp'). exists r'. split; [done|].
    eapply newest_price_step; [|done|done]. destruct Hstep; cbn; lia.
Qed.

Lemma run_kept s os s' :
  fpl_ok s → NoDup (se_seasonId <$> ft_seasons s) → fpl_run contentHash pg_time pg_numeric s os s' →
  fpl_ok s' ∧ identities_kept s s' ∧ seasons_forward s s'.
Proof.
  intros Hs Hnd Hrun. induction Hrun as [s|s o s1 os s' Hstep _ IH]; [done|].
  pose proof (fpl_step_ok _ _ _ _ _ _ Hs Hstep) as H1. pose proof (fpl_step_seasons _ _ _ Hnd Hstep) as H2.
  pose proof (fpl_step_identities _ _ _ _ _ _ Hs Hstep) as H3.
  destruct IH as (Hok & Hid & Hse); [done|by rewrite (seasons_forward_ids _ _ H2)|].
  split; [done|]. split; by etransitivity.
Qed.
End runs.

(** C10: Core snapshots, price updates and live polls, in any order and any number, keep the tables sound: ids and
    codes stay unique, a gameweek that is marked final is finished with checked data and has no newer live poll, every
    team keeps its id, code and pulse id and every player its id and code, and a season only moves forward from
    preseason to active to completed, while a closed or reference season stays. *)
Theorem writers_keep_tables_sound {hash : Type} `{!EqDecision hash} (contentHash : FixtureStatRow → hash) pg_time pg_numeric
    s os s'
  (Hs : fpl_ok s) (Hseasons : NoDup (se_seasonId <$> ft_seasons s))
  (Hrun : fpl_run contentHash pg_time pg_numeric s os s') :
  fpl_ok s' ∧ identities_kept s s' ∧ seasons_forward s s'.
Proof. by apply (run_kept contentHash pg_time pg_numeric s os s'). Qed.

(** C7: The newest price wins whatever the order of the writers.  After any history of core snapshots, price updates
    and live polls, a stored player has a price and the time it was read at; that time is not before the one stored
    first, nor before any observation of the player in the history, and the price is the one read at that time: that
    of the observation, or the stored one if no observation replaced it. *)
Theorem newest_price_wins {hash : Type} `{!EqDecision hash} (contentHash : FixtureStatRow → hash) pg_time pg_numeric
    s os s' id r
  (Hs : fpl_ok s) (Hrun : fpl_run contentHash pg_time pg_numeric s os s')
  (Hr : find_by player_id id (ft_players s) = Some r) :
  ∃ r', find_by player_id id (ft_players s') = Some r' ∧ newest_price os id r r'.
Proof. by apply (run_price contentHash pg_time pg_numeric s os s' id r). Qed.

(** ** A price update overtakes a core snapshot *)

(** The update read prices at 7 ms and commits first; the snapshot read its own at 4 ms. *)
Definition sample_updates : list (Z * Z) := [(1, 56); (2, 62); (9, 40)].

Lemma sample_history :
  ∃ s', fpl_run sample_hash sample_no_time sample_numeric sample_tables
          [(7000, sample_updates); (4000, [(1, 50); (2, 61)])] s' ∧
        (λ r, (player_id r, pl_price (pr_player r), pr_priceSourceCheckedAt r)) <$> ft_players s' =
          [(1, 55, Some 9000); (2, 62, Some 7000); (3, 70, Some 1000)].
Proof.
  destruct (updatePrices sample_updates 7000 sample_tables) as [[s1 ps]|e] eqn:E1; [|vm_compute in E1; discriminate E1].
  destruct (persistCoreSnapshot sample_no_time (λ _, 0) sample_snapshot (Some 4000) s1) as [s2 [r|e]] eqn:E2.
  2: { exfalso. vm_compute in E1. injection E1 as <- <-. vm_compute in E2. discriminate E2. }
  exists s2. split.
  - apply (run_step _ _ _ sample_tables [(7000, sample_updates)] s1 [(4000, [(1, 50); (2, 61)])] s2).
    + by apply (step_prices _ _ _ sample_updates 7000 sample_tables s1 ps).
    + apply (run_step _ _ _ s1 [(4000, [(1, 50); (2, 61)])] s2 [] s2); [|constructor].
      apply (step_core _ _ _ (λ _, 0) sample_snapshot 4000 s1 s2 r); [exact sample_snapshot_coherent|by exists 4|exact E2].
  - vm_compute in E1. injection E1 as <- <-. vm_compute in E2. injection E2 as <- _. reflexivity.
Qed.

Lemma newest_price_wins_witness :
  ∃ s' r', fpl_run sample_hash sample_no_time sample_numeric sample_tables
             [(7000, sample_updates); (4000, [(1, 50); (2, 61)])] s' ∧
    find_by player_id 2 (ft_players s') = Some r' ∧
    newest_price [(7000, sample_updates); (4000, [(1, 50); (2, 61)])] 2
      (mkPlayerRow (sample_player 2 60) (Some 1000) true) r'.
Proof.
  destruct sample_history as (s' & Hrun & _).
  destruct (newest_price_wins sample_hash sample_no_time sample_numeric sample_tables _ s' 2
              (mkPlayerRow (sample_player 2 60) (Some 1000) true) sample_tables_ok Hrun eq_refl) as (r' & Hr' & Hp).
  exists s', r'. split; [exact Hrun|]. split; [exact Hr'|exact Hp].
Defined.

Lemma writers_keep_tables_sound_witness :
  ∃ os s', fpl_run sample_hash sample_no_time sample_numeric sample_tables os s' ∧
    fpl_ok s' ∧ identities_kept sample_tables s' ∧ seasons_forward sample_tables s'.
Proof.
  destruct sample_history as (s' & Hrun & _).
  exists [(7000, sample_updates); (4000, [(1, 50); (2, 61)])], s'. split; [exact Hrun|].
  apply (writers_keep_tables_sound sample_hash sample_no_time sample_numeric sample_tables
           [(7000, sample_updates); (4000, [(1, 50); (2, 61)])] s' sample_tables_ok);
    [by apply (bool_decide_unpack _)|exact Hrun].
Defined.
