(* ===== verification/CorePublish.v ===== *)
(** * Synchronising the core snapshot ([src/services/core-snapshot.service.ts],
      [src/services/core-snapshot-publication.service.ts], [src/cache/core-snapshot-cache.ts])

    One job reads the bootstrap and the fixtures, and in one mutation transaction prepares a
    publication with its items ([SyncOperations]) and persists the snapshot ([CorePersist]); after the
    commit it stages the items in Redis, activates the publication and dispatches its receipt
    ([DataPublication], [DataOutbox]).

    The mutation transaction is a function on the ledger and the tables: repositories and the nested
    transaction of [persistCoreSnapshot] find it in the asynchronous context
    ([src/db/singleton.ts getDb]).  A statement that fails in it aborts it, also when the error is
    caught, as that of the reporting refresh is.  Only the sequence of revisions keeps its value.
    [sourceCheckedAt] is a [Date] in milliseconds; the database clocks are microseconds. *)

From S2P Require Import Prelude JsCollections JsNumber JsDate Json CoreEntities CoreSnapshot Postgres FplStore CorePersist.
From S2P Require Import Redis DataPublication SyncOperations DataOutbox.

(** ** Entities as JSON values *)

Definition num (n : Z) : json := JNumber (of_int n).
Definition or_null {A : Type} (f : A → json) (x : option A) : json := match x with Some a => f a | None => JNull end.
Definition members (l : list (string * json)) : json := JObject ((λ m, (js m.1, m.2)) <$> l).

Definition event_json (e : Event) : json := members [
  ("id", num (ev_id e)); ("name", JString (ev_name e)); ("deadlineTime", or_null JString (ev_deadlineTime e));
  ("averageEntryScore", or_null JNumber (ev_averageEntryScore e)); ("finished", JBool (ev_finished e));
  ("dataChecked", JBool (ev_dataChecked e)); ("dataCheckedAt", JNull);
  ("highestScoringEntry", or_null JNumber (ev_highestScoringEntry e));
  ("deadlineTimeEpoch", or_null JNumber (ev_deadlineTimeEpoch e));
  ("deadlineTimeGameOffset", or_null JNumber (ev_deadlineTimeGameOffset e));
  ("highestScore", or_null JNumber (ev_highestScore e)); ("isPrevious", JBool (ev_isPrevious e));
  ("isCurrent", JBool (ev_isCurrent e)); ("isNext", JBool (ev_isNext e));
  ("cupLeagueCreate", JBool (ev_cupLeagueCreate e)); ("h2hKoMatchesCreated", JBool (ev_h2hKoMatchesCreated e));
  ("chipPlays", JArray ((λ c : jsstr * number, members [("chipName", JString c.1); ("numberPlayed", JNumber c.2)]) <$>
                          ev_chipPlays e));
  ("mostSelected", or_null JNumber (ev_mostSelected e));
  ("mostTransferredIn", or_null JNumber (ev_mostTransferredIn e)); ("topElement", or_null JNumber (ev_topElement e));
  ("topElementInfo", or_null (λ i : number * number, members [("element", JNumber i.1); ("points", JNumber i.2)])
                       (ev_topElementInfo e));
  ("transfersMade", or_null JNumber (ev_transfersMade e)); ("mostCaptained", or_null JNumber (ev_mostCaptained e));
  ("mostViceCaptained", or_null JNumber (ev_mostViceCaptained e)); ("createdAt", JNull); ("updatedAt", JNull)].

Definition team_json (t : Team) : json := members [
  ("id", num (tm_id t)); ("name", JString (tm_name t)); ("shortName", JString (tm_shortName t));
  ("code", num (tm_code t)); ("draw", num (tm_draw t)); ("form", or_null JString (tm_form t));
  ("loss", num (tm_loss t)); ("played", num (tm_played t)); ("points", num (tm_points t));
  ("position", num (tm_position t)); ("strength", or_null num (tm_strength t));
  ("teamDivision", or_null num (tm_teamDivision t)); ("unavailable", JBool (tm_unavailable t));
  ("win", num (tm_win t)); ("strengthOverallHome", num (tm_strengthOverallHome t));
  ("strengthOverallAway", num (tm_strengthOverallAway t)); ("strengthAttackHome", num (tm_strengthAttackHome t));
  ("strengthAttackAway", num (tm_strengthAttackAway t)); ("strengthDefenceHome", num (tm_strengthDefenceHome t));
  ("strengthDefenceAway", num (tm_strengthDefenceAway t)); ("pulseId", num (tm_pulseId t));
  ("createdAt", JNull); ("updatedAt", JNull)].

Definition player_json (p : Player) : json := members [
  ("id", num (pl_id p)); ("code", num (pl_code p)); ("type", num (pl_type p)); ("teamId", num (pl_teamId p));
  ("price", num (pl_price p)); ("startPrice", num (pl_startPrice p)); ("firstName", JString (pl_firstName p));
  ("secondName", JString (pl_secondName p)); ("webName", JString (pl_webName p))].

Definition phase_json (p : CoreEntities.Phase) : json := members [
  ("id", num (ph_id p)); ("name", JString (ph_name p)); ("startEvent", num (ph_startEvent p));
  ("stopEvent", num (ph_stopEvent p)); ("highestScore", or_null num (ph_highestScore p))].

Definition stat_values (l : list (Z * Z)) : json :=
  JArray ((λ v : Z * Z, members [("value", num v.1); ("element", num v.2)]) <$> l).

Definition fixture_json (f : Fixture) : json := members [
  ("id", num (fx_id f)); ("code", num (fx_code f)); ("event", or_null num (fx_event f));
  ("finished", JBool (fx_finished f)); ("finishedProvisional", JBool (fx_finishedProvisional f));
  ("kickoffTime", or_null (λ t, JDate (toISOString t)) (fx_kickoffTime f)); ("minutes", num (fx_minutes f));
  ("provisionalStartTime", JBool (fx_provisionalStartTime f)); ("started", or_null JBool (fx_started f));
  ("teamA", num (fx_teamA f)); ("teamAScore", or_null num (fx_teamAScore f)); ("teamH", num (fx_teamH f));
  ("teamHScore", or_null num (fx_teamHScore f));
  ("stats", JArray ((λ s, members [("identifier", JString (fs_identifier s)); ("a", stat_values (fs_a s));
                                   ("h", stat_values (fs_h s))]) <$> fx_stats f));
  ("teamHDifficulty", or_null num (fx_teamHDifficulty f)); ("teamADifficulty", or_null num (fx_teamADifficulty f));
  ("pulseId", num (fx_pulseId f)); ("createdAt", JNull); ("updatedAt", JNull)].

Definition rules_json (r : SelectionRules) : json := members [
  ("squadSize", num (sr_squadSize r)); ("startingSize", num (sr_startingSize r)); ("budget", num (sr_budget r));
  ("maxPlayersPerTeam", num (sr_maxPlayersPerTeam r)); ("currencyMultiplier", num (sr_currencyMultiplier r));
  ("positions", JArray ((λ p, members [
     ("id", num (sp_id p)); ("name", JString (sp_name p)); ("shortName", JString (sp_shortName p));
     ("squadSelect", num (sp_squadSelect p)); ("minPlay", num (sp_minPlay p)); ("maxPlay", num (sp_maxPlay p))]) <$>
     sr_positions r));
  ("chips", JArray ((λ c, members [
     ("id", num (sc_id c)); ("name", JString (sc_name c)); ("number", num (sc_number c));
     ("startEvent", JNumber (sc_startEvent c)); ("stopEvent", JNumber (sc_stopEvent c));
     ("chipType", JString (sc_chipType c))]) <$> sr_chips r))].

(** ** The publication of a snapshot *)

(** The season as the ledger names it. *)
Definition season_ref (season : Z * jsstr) : SeasonRef := SyncOperations.mkSeason season.1 season.2.

Section cache.
Context (date_parse : jsstr → option Z).

(** The instant of a deadline; an event without one, or with an invalid one, is never the current one. *)
Definition event_deadline (e : Event) : option Z :=
  match ev_deadlineTime e with Some (c :: text) => date_parse (c :: text) | _ => None end.

(** src: src/cache/core-snapshot-cache.ts:72-84 selectCurrentEventIdByDeadline *)
Definition selectCurrentEventIdByDeadline (events : list Event) (sourceCheckedAt : Z) : option Z :=
  let passed := List.filter (λ e, match event_deadline e with Some t => t <=? sourceCheckedAt | None => false end) events in
  ev_id <$> head (js_sort (by_key (λ e, - nullish (event_deadline e) 0)) passed).

(** The values of the items, by name.
    src: src/services/core-snapshot.service.ts:166-174 syncCoreSnapshot *)
Definition core_payloads (snapshot : CoreSnapshot) (sourceCheckedAt : Z) : list (jsstr * json) := [
  (js "events", JArray (event_json <$> cs_events snapshot));
  (js "teams", JArray (team_json <$> cs_teams snapshot));
  (js "players", JArray (player_json <$> cs_players snapshot));
  (js "phases", JArray (phase_json <$> cs_phases snapshot));
  (js "fixtures", JArray (fixture_json <$> cs_fixtures snapshot));
  (js "currentEventId", or_null num (selectCurrentEventIdByDeadline (cs_events snapshot) sourceCheckedAt));
  (js "selectionRules", or_null rules_json (cs_selectionRules snapshot))].

(** The request of [prepareCoreSnapshotCache]. *)
Definition core_input (snapshot : CoreSnapshot) (revision : Z) (publicationId : jsstr) (sourceCheckedAt : Z)
    : PublishInput :=
  mkPublish (mkScope DatasetCore (cs_season snapshot) None) revision publicationId (Some sourceCheckedAt) None PActive
    (core_payloads snapshot sourceCheckedAt).

(** [now] is the time of [publishedAt].
    src: src/cache/core-snapshot-cache.ts:46-70 prepareCoreSnapshotCache *)
Definition prepareCoreSnapshotCache {V : Type} `{!Codec V} (now : Z) (snapshot : CoreSnapshot) (revision : Z)
    (publicationId : jsstr) (sourceCheckedAt : Z) : result (Manifest * list (SerializedItem V)) :=
  prepareDataPublication now (core_input snapshot revision publicationId sourceCheckedAt).

(** The items staged in the ledger: the value, count and hash of each item of the manifest.
    src: src/services/core-snapshot.service.ts:175-190 syncCoreSnapshot *)
Definition staged_items (manifest : Manifest) (payloads : list (jsstr * json)) : list ItemInput :=
  (λ item, mkItemProof (mi_name item) (nullish (map_get (mi_name item) payloads) JNull) (mi_count item) (mi_sha256 item))
    <$> mf_items manifest.
End cache.

(** ** What a sync is given *)

(** The random ids, the clocks and the locks of other transactions during a sync, and what the provider
    answers. *)
Record SyncContext := mkSyncContext {
  sx_runId : jsstr; sx_publicationId : jsstr; sx_outboxId : jsstr; sx_owner : jsstr;
  sx_recovery : jsstr * jsstr;                  (* the receipt and the lease of a recovery *)
  sx_startedAt : Z; sx_preparedAt : Z; sx_publishedAt : Z; sx_activatedAt : Z; sx_deliveredAt : Z; sx_failedAt : Z;
  sx_locked : list jsstr;                       (* publications, then receipts *)
  sx_lockedReceipts : list jsstr;
  sx_orderingTimestamp : result Z;
  sx_bootstrap : result Bootstrap;
  sx_fixtures : result (list RawFixture);
  sx_refreshed : bool;                          (* no statement of the reporting refresh fails *)
  sx_trigger : jsstr;
}.

(** src: src/services/core-snapshot.service.ts:28-42 CoreSnapshotSyncResult *)
Record CoreSnapshotSyncResult := mkSyncResult {
  yr_ready : bool;
  yr_season : jsstr;
  yr_events : Z; yr_teams : Z; yr_players : Z; yr_phases : Z; yr_fixtures : Z;
  yr_requiredUnits : Z; yr_reusedUnits : Z; yr_succeededUnits : Z; yr_failedUnits : Z;
  yr_publication : option (jsstr * Z);
}.

(** src: src/services/core-snapshot.service.ts:64-72 workUnits *)
Definition workUnits (c : CoreSnapshot) : Z :=
  count_of (cs_events c) + count_of (cs_teams c) + count_of (cs_players c) + count_of (cs_phases c) +
  count_of (cs_fixtures c).

(** src: src/services/core-snapshot.service.ts:74-94 result *)
Definition sync_result (c : CoreSnapshot) (published : bool) (publication : option (jsstr * Z))
    : CoreSnapshotSyncResult :=
  let requiredUnits := workUnits c in
  mkSyncResult published (cs_season c) (count_of (cs_events c)) (count_of (cs_teams c)) (count_of (cs_players c))
    (count_of (cs_phases c)) (count_of (cs_fixtures c)) requiredUnits (if published then 0 else requiredUnits)
    (if published then requiredUnits else 0) 0 publication.

(** ** The operations *)

(** The ledger, the tables of the season and the Redis store. *)
Record World {S V : Type} := mkWorld { cw_ledger : Ledger V; cw_tables : FplTables; cw_redis : S }.
Arguments World : clear implicits.
Arguments mkWorld {S V}.

(** Whether the items of a publication have the shapes of core contents; [undefined] rules are allowed.
    src: src/cache/core-snapshot-cache.ts:125-138 readCoreSnapshotCache *)
Definition core_contents (items : list (jsstr * json)) : bool :=
  let is_array name := match map_get (js name) items with Some (JArray _) => true | _ => false end in
  is_array "events"%string && is_array "teams"%string && is_array "players"%string && is_array "phases"%string &&
  is_array "fixtures"%string &&
  match map_get (js "selectionRules") items with
  | None | Some JNull | Some (JObject _) | Some (JDate _) => true
  | _ => false
  end &&
  match map_get (js "currentEventId") items with
  | Some JNull => true
  | Some (JNumber n) => is_integer n
  | _ => false
  end.

Section sync.
Context {S V : Type} `{!Codec V} `{!JsonText V} `{!Redis S V}.
Context (date_parse pg_time : jsstr → option Z) (clock : Z → Z).
Context (emptyObject : V) (bind_null : option json).
Implicit Types (w : World S V) (l : Ledger V) (t : FplTables) (r : S).

(** [r] is the store at the [GET], [r2] at the [MGET].
    src: src/cache/core-snapshot-cache.ts:119-149 readCoreSnapshotCache *)
Definition readCoreSnapshotCache (seasonCode : jsstr) r r2 : result (option (Manifest * list (jsstr * json))) :=
  let* publication := readActiveDataPublication (mkScope DatasetCore seasonCode None) r r2 in
  Ok (match publication with
      | Some (manifest, items) => if core_contents items then Some (manifest, items) else None
      | None => None
      end).

(** The reporting refresh runs in the mutation transaction: its failure is caught, but it aborts the
    transaction.
    src: src/services/core-snapshot-publication.service.ts:50-68 persistCoreSnapshotPublication *)
Definition persistCoreSnapshotPublication (refreshed : bool) (snapshot : CoreSnapshot) (sourceCheckedAt : Z) t
    : result (FplTables * (CoreSnapshot * CoreSnapshotPersistenceResult)) :=
  let '(t', persisted) := persistCoreSnapshot pg_time clock snapshot (Some (sourceCheckedAt * 1000)) t in
  let* p := persisted in
  reject_if negb refreshed with_code "TRANSACTION_ABORTED" ;;
  Ok (t', p).

(** The season is still the sole current one.
    src: src/services/core-snapshot-publication.service.ts:81-84 publishCoreSnapshotPublication *)
Definition still_current (season : Z * jsstr) t : result bool :=
  let* current := findCurrent t in
  Ok ((se_seasonId current =? season.1) && bool_decide (se_seasonCode current = season.2)).

(** With a prepared cache, as the sync calls it.  [true] is ['committed'].
    src: src/services/core-snapshot-publication.service.ts:130-172 publishCoreSnapshotPublication *)
Definition publishCoreSnapshotPublication (x : SyncContext) (persisted : CoreSnapshot * CoreSnapshotPersistenceResult)
    (prepared : Manifest * list (SerializedItem V)) w : World S V * result bool :=
  let '(mkWorld l t r) := w in
  match explicitSeasonRef (cs_season persisted.1) with
  | Throw e => (w, Throw e)
  | Ok season =>
  match stageDataPublicationItems prepared.1 prepared.2 r with
  | (r, Throw e) => (mkWorld l t r, Throw e)
  | (r, Ok _) =>
  match still_current season t with
  | Throw e => (mkWorld l t r, Throw e)
  | Ok false =>
      match skipPublication (sx_activatedAt x) (sx_publicationId x)
              (js "A newer core publication already owns the cache scope") l with
      | (l, Throw e) => (mkWorld l t r, Throw e)
      | (l, Ok _) =>
          let n := persisted.2 in
          let '(l, finished) := finishRun (sx_activatedAt x) (sx_runId x)
            (mkFinish RunSkipped 0 None
               (Some (pn_events n + pn_teams n + pn_players n + pn_phases n + pn_fixtures n)) false None None) l in
          (mkWorld l t r, let* _ := finished in Ok false)
      end
  | Ok true =>
      match activatePublication (sx_activatedAt x)
              (mkActivate (sx_publicationId x) DatasetCore (season_ref season) None (sx_runId x) prepared.1
                 (Some (sx_outboxId x))) l with
      | (l, Throw e) => (mkWorld l t r, Throw e)
      | (l, Ok _) =>
          let '(l, r, delivered) := dispatchDataPublicationOutbox (sx_deliveredAt x) (sx_owner x) (sx_lockedReceipts x)
            (Some 1) (Some (sx_publicationId x)) l r in
          (mkWorld l t r,
           let* counts := delivered in
           reject_if negb (dc_delivered counts =? 1) with_code "REDIS_DELIVERY_PENDING" ;;
           Ok true)
      end
  end end end.

(** A complete cache whose publication the ledger holds as staging, with the same identity, is activated.
    src: src/services/core-snapshot-publication.service.ts:184-232 recoverPendingCoreSnapshotPublication *)
Definition recoverPendingCoreSnapshotPublication (x : SyncContext) (season : Z * jsstr) w : World S V * result unit :=
  let '(mkWorld l t r) := w in
  match readCoreSnapshotCache season.2 r r with
  | Throw e => (w, Throw e)
  | Ok None => (w, Ok ())
  | Ok (Some (manifest, _)) =>
      let id := mf_publicationId manifest in
      let active := findActivePublication DatasetCore (season_ref season) None l in
      if bool_decide (pp_publicationId <$> active = Some id) then (w, Ok ()) else
      match findPublicationById id l with
      | None => (w, Ok ())
      | Some pending =>
          let key := dp_key pending in
          match pk_sourceRunId key with
          | Some (c :: runId) =>
              if negb (has_status Staging pending) || negb (bool_decide (pk_dataset key = DatasetCore)) ||
                 negb (bool_decide (pk_seasonId key = Some season.1)) || negb (is_null (pk_eventId key)) ||
                 negb (pk_revision key =? mf_revision manifest)
              then (w, Ok ()) else
              match activatePublication (sx_startedAt x)
                      (mkActivate id DatasetCore (season_ref season) None (c :: runId) manifest
                         (Some (sx_recovery x).1)) l with
              | (l, Throw e) => (mkWorld l t r, Throw e)
              | (l, Ok _) =>
                  let '(l, r, delivered) := dispatchDataPublicationOutbox (sx_startedAt x) (sx_recovery x).2
                    (sx_lockedReceipts x) (Some 1) (Some id) l r in
                  (mkWorld l t r, let* _ := delivered in Ok ())
              end
          | _ => (w, Ok ())
          end
      end
  end.

(** What the mutation transaction leaves to the publication. *)
Record CorePersisted := mkCorePersisted {
  cd_prepared : Prepared;
  cd_persisted : CoreSnapshot * CoreSnapshotPersistenceResult;
  cd_cache : Manifest * list (SerializedItem V);
}.

Definition staging_manifest (sourceCheckedAt : Z) : V :=
  stringify (members [("state", JString (js "staging")); ("sourceCheckedAt", JString (toISOString sourceCheckedAt))]).

(** The publication the transaction prepares.
    src: src/services/core-snapshot.service.ts:151-160 syncCoreSnapshot *)
Definition prepare_core (x : SyncContext) (season : Z * jsstr) (sourceCheckedAt : Z) l t
    : Ledger V * result Prepared :=
  preparePublication emptyObject (λ id, bool_decide (id ∈ se_seasonId <$> ft_seasons t))
    (λ _ event, bool_decide (event ∈ event_id <$> ft_events t)) (sx_preparedAt x) (sx_publicationId x) (sx_locked x)
    (mkPrepare (Some (sx_publicationId x)) DatasetCore (season_ref season) None (sx_runId x)
       (Some (staging_manifest sourceCheckedAt))) l.

(** The body of the mutation transaction.
    src: src/services/core-snapshot.service.ts:146-198 syncCoreSnapshot *)
Definition mutation_body (x : SyncContext) (season : Z * jsstr) (sourceCheckedAt : Z) (snapshot : CoreSnapshot)
    (s : Ledger V * FplTables) : result ((Ledger V * FplTables) * CorePersisted) :=
  let '(l, prepared) := prepare_core x season sourceCheckedAt s.1 s.2 in
  let* prepared := prepared in
  let* preparedCache := prepareCoreSnapshotCache date_parse (sx_publishedAt x) snapshot (pp_revision prepared)
                          (pp_publicationId prepared) sourceCheckedAt in
  let '(l, staged) := stagePublicationItems bind_null (pp_publicationId prepared)
                        (staged_items preparedCache.1 (core_payloads date_parse snapshot sourceCheckedAt)) l in
  let* _ := staged in
  let* persisted := persistCoreSnapshotPublication (sx_refreshed x) snapshot sourceCheckedAt s.2 in
  Ok ((l, persisted.1), mkCorePersisted prepared persisted.2 preparedCache).

(** The transaction; a sequence is not rolled back.
    src: src/services/core-snapshot.service.ts:140-199 syncCoreSnapshot *)
Definition persist_phase (x : SyncContext) (season : Z * jsstr) (sourceCheckedAt : Z) (snapshot : CoreSnapshot) w
    : World S V * result CorePersisted :=
  let '(mkWorld l t r) := w in
  match transaction (mutation_body x season sourceCheckedAt snapshot) (l, t) with
  | ((l, t), Ok persisted) => (mkWorld l t r, Ok persisted)
  | ((l, t), Throw e) =>
      (mkWorld (with_revisions (ld_revisions (prepare_core x season sourceCheckedAt l t).1) l) t r, Throw e)
  end.

(** src: src/services/core-snapshot.service.ts:124-136 syncCoreSnapshot *)
Definition fetch_snapshot (x : SyncContext) (season : Z * jsstr) : result (Z * CoreSnapshot) :=
  let* sourceCheckedAt := sx_orderingTimestamp x in
  let* bootstrap := sx_bootstrap x in
  let* fixtures := sx_fixtures x in
  let* snapshot := prepareCoreSnapshot date_parse bootstrap fixtures in
  reject_if negb (bool_decide (cs_season snapshot = season.2)) with_code "SEASON_MISMATCH" ;;
  Ok (sourceCheckedAt, snapshot).

Definition with_ledger l w : World S V := mkWorld l (cw_tables w) (cw_redis w).

(** The run of a sync, and its [catch]: before the publication has an id the run fails; then the publication fails,
    until the transaction commits.  The errors of both are dropped.
    src: src/services/core-snapshot.service.ts:121-227 syncCoreSnapshot *)
Definition run_core_sync (x : SyncContext) (season : Z * jsstr) w : World S V * result CoreSnapshotSyncResult :=
  match fetch_snapshot x season with
  | Throw e => (with_ledger (failRun (sx_failedAt x) (sx_runId x) (js e) (cw_ledger w)).1 w, Throw e)
  | Ok (sourceCheckedAt, snapshot) =>
      match persist_phase x season sourceCheckedAt snapshot w with
      | (w, Throw e) =>
          (with_ledger (failPublication (sx_failedAt x) (sx_publicationId x) (js e) (cw_ledger w)).1 w, Throw e)
      | (w, Ok persisted) =>
          match publishCoreSnapshotPublication x (cd_persisted persisted) (cd_cache persisted) w with
          | (w, Throw e) => (w, Throw e)
          | (w, Ok false) => (w, Ok (sync_result snapshot false None))
          | (w, Ok true) =>
              (w, Ok (sync_result snapshot true
                        (Some (pp_publicationId (cd_prepared persisted), pp_revision (cd_prepared persisted)))))
          end
      end
  end.

(** src: src/services/core-snapshot.service.ts:110-119 syncCoreSnapshot *)
Definition start_core_run (x : SyncContext) (season : Z * jsstr) w : Ledger V * result jsstr :=
  startRun (λ id, bool_decide (id ∈ se_seasonId <$> ft_seasons (cw_tables w))) (sx_startedAt x) (sx_runId x)
    (mkStart (Some (sx_runId x))
       (mkIdentity (js "fpl") (js "core") (js "core-snapshot") (Some season.1) (Some season.2) None (js "full")
          (sx_trigger x)) None None None) (cw_ledger w).

(** src: src/services/core-snapshot.service.ts:96-228 syncCoreSnapshot *)
Definition syncCoreSnapshot (x : SyncContext) (currentSeason : Z * jsstr) w : World S V * result CoreSnapshotSyncResult :=
  match recoverPendingCoreSnapshotPublication x currentSeason w with
  | (w, Throw e) => (w, Throw e)
  | (w, Ok _) =>
      match still_current currentSeason (cw_tables w) with
      | Throw e => (w, Throw e)
      | Ok false => (w, Throw "SEASON_NOT_CURRENT")
      | Ok true =>
          match start_core_run x currentSeason w with
          | (l, Throw e) => (with_ledger l w, Throw e)
          | (l, Ok _) => run_core_sync x currentSeason (with_ledger l w)
          end
      end
  end.
End sync.

(** ** Syncs that fail *)

Section failures.
Context {S V : Type} `{!Codec V} `{!JsonText V} `{!Redis S V}.
Context (date_parse pg_time : jsstr → option Z) (clock : Z → Z) (emptyObject : V) (bind_null : option json).
Implicit Types (w : World S V) (l : Ledger V).

(** A publication that is not in the ledger cannot fail; nothing is written. *)
Lemma failPublication_missing now id error l :
  find_by dp_publicationId id (ld_publications l) = None → (failPublication now id error l).1 = l.
Proof.
  intros Hf. pose proof Hf as Hn. apply find_by_None in Hn.
  assert (close_body id (failed_publication now) Failed RunFailed (failed_run now error) l =
    Throw "DATASET_PUBLICATION_NOT_FOUND") as Hclose; [|by unfold failPublication, transaction; rewrite Hclose].
  unfold close_body. rewrite update_none; [cbn; by rewrite Hf|].
  intros p Hp. apply andb_false_iff. left. apply bool_decide_eq_false. intros <-. by apply Hn, list_elem_of_fmap_2.
Qed.

(** A run that is open fails, with the error. *)
Lemma failRun_open now runId error l run :
  NoDup (sr_runId <$> ld_runs l) → find_by sr_runId runId (ld_runs l) = Some run →
  is_non_terminal (sr_status run) = true → run_checks run = true → sr_startedAt run ≤ now →
  ∃ runs, failRun now runId error l = (with_runs runs l, Ok ()) ∧
          find_by sr_runId runId runs = Some (failed_run now error run).
Proof.
  intros Hnd Hf Hopen Hchecks Hnow. pose proof Hf as Hf0. apply find_by_Some in Hf0 as [Hin Hid].
  assert (run_open runId RunFailed run = true) as Hrow.
  { unfold run_open. rewrite bool_decide_eq_true_2 by done. apply bool_decide_eq_true, elem_of_app. left.
    by apply is_non_terminal_spec. }
  exists (update_where (run_open runId RunFailed) (failed_run now error) (ld_runs l)).1. split.
  - apply transaction_ok, result_bind_ok. eexists. split; [|reflexivity]. apply update_runs_ok. split; [done|].
    apply forallb_forall. intros r' (r & -> & Hr)%list_elem_of_In%list_elem_of_fmap.
    apply list_elem_of_filter in Hr as [Hw Hr]. apply Is_true_true in Hw.
    unfold run_open in Hw. apply andb_true_iff in Hw as [Hw _]. apply bool_decide_eq_true in Hw.
    assert (r = run) as -> by (by eapply find_run_unique).
    unfold run_checks in *. boolsolve. cbn. repeat match goal with H : _ = true |- _ => rewrite H; clear H end.
    by apply andb_true_iff; split; [apply Z.leb_le|].
  - rewrite find_by_update by done. rewrite Hf. cbn. by rewrite Hrow.
Qed.

Lemma transaction_inv {A B} (body : A → result (A * B)) s s' e :
  transaction body s = (s', Throw e) → s' = s.
Proof. intros H. by apply transaction_throw in H as [_ ->]. Qed.

(** A mutation transaction that throws leaves the sequence as its only trace. *)
Lemma persist_phase_throws x season time snapshot w w' e :
  persist_phase date_parse pg_time clock emptyObject bind_null x season time snapshot w = (w', Throw e) →
  ∃ n, w' = with_ledger (with_revisions n (cw_ledger w)) w.
Proof.
  unfold persist_phase. destruct w as [l t r].
  destruct (transaction _ (l, t)) as [[l1 t1] [p|e1]] eqn:E; [done|].
  apply transaction_throw in E as [_ [= -> ->]]. intros [= <- _]. by eexists.
Qed.

(** What a publication that fails has left alone. *)
Lemma publish_tables x persisted prepared w :
  cw_tables (publishCoreSnapshotPublication x persisted prepared w).1 = cw_tables w.
Proof.
  destruct w as [l t r]. unfold publishCoreSnapshotPublication. cbn [cw_tables].
  destruct (explicitSeasonRef _); [|done]. destruct (stageDataPublicationItems _ _ r) as [r1 []]; [|done].
  destruct (still_current _ t) as [[|]|]; [| |done].
  - destruct (activatePublication _ _ l) as [l1 []]; [|done].
    by destruct (dispatchDataPublicationOutbox _ _ _ _ _ l1 r1) as [[? ?] ?].
  - destruct (skipPublication _ _ _ l) as [l1 []]; [|done]. by destruct (finishRun _ _ _ l1).
Qed.
End failures.

(** C31: what a failed core sync leaves.  If reading or checking the payload fails, the run is marked failed with the
    error and nothing else changes.  If the mutation transaction fails (also when only the reporting refresh does),
    the tables, the publications and Redis are as before, but so is the run: it stays running, without an error, since
    the publication it is failed through was rolled back.  After the commit, an error leaves the stored snapshot. *)
Theorem failed_core_sync {S V : Type} `{!Codec V} `{!JsonText V} `{!Redis S V} date_parse pg_time clock emptyObject
    bind_null (x : SyncContext) season (w w' : World S V) e run
  (Hids : NoDup (sr_runId <$> ld_runs (cw_ledger w)))
  (Hrun : find_by sr_runId (sx_runId x) (ld_runs (cw_ledger w)) = Some run)
  (Hrunning : sr_status run = RunRunning) (Hchecks : run_checks run = true) (Htime : sr_startedAt run ≤ sx_failedAt x)
  (Hfresh : find_by dp_publicationId (sx_publicationId x) (ld_publications (cw_ledger w)) = None)
  (Hsync : run_core_sync date_parse pg_time clock emptyObject bind_null x season w = (w', Throw e)) :
  match fetch_snapshot date_parse x season with
  | Throw _ =>
      ∃ runs, w' = with_ledger (with_runs runs (cw_ledger w)) w ∧
              find_by sr_runId (sx_runId x) runs = Some (failed_run (sx_failedAt x) (js e) run)
  | Ok (time, snapshot) =>
      match persist_phase date_parse pg_time clock emptyObject bind_null x season time snapshot w with
      | (_, Throw _) =>
          ∃ n, w' = with_ledger (with_revisions n (cw_ledger w)) w ∧
               find_by sr_runId (sx_runId x) (ld_runs (cw_ledger w')) = Some run
      | (w1, Ok _) => cw_tables w' = cw_tables w1
      end
  end.
Proof.
  unfold run_core_sync in Hsync. destruct (fetch_snapshot date_parse x season) as [[time snapshot]|e1].
  - destruct (persist_phase _ _ _ _ _ _ _ _ _ w) as [w1 [p|e1]] eqn:E.
    + pose proof (publish_tables x (cd_persisted p) (cd_cache p) w1) as Ht.
      destruct (publishCoreSnapshotPublication _ _ _ w1) as [w2 [[|]|]]; by injection Hsync as <-.
    + injection Hsync as <- <-. apply persist_phase_throws in E as [n ->]. exists n.
      cbn [cw_ledger with_ledger]. by rewrite failPublication_missing.
  - injection Hsync as <- <-.
    destruct (failRun_open (sx_failedAt x) (sx_runId x) (js e1) (cw_ledger w) run) as (runs & -> & Hf);
      [done|done|by rewrite Hrunning|done|done|].
    by exists runs.
Qed.

(** ** What is published *)

(** The numbers of the payload that are not integers by their schema. *)
Definition finite_snapshot (c : CoreSnapshot) : bool :=
  forallb (finite ∘ event_json) (cs_events c) && finite (or_null rules_json (cs_selectionRules c)).

Lemma wf_members l :
  bool_decide (NoDup ((js ∘ fst) <$> l)) = true → Forall (λ m, well_formed m.2) l → well_formed (members l).
Proof.
  intros Hnd%bool_decide_eq_true Hf. apply wf_object; [by rewrite <-list_fmap_compose|].
  apply Forall_fmap. by eapply Forall_impl.
Qed.

Lemma wf_or_null {A} (f : A → json) x : (∀ a, well_formed (f a)) → well_formed (or_null f x).
Proof. intros Hf. destruct x; [apply Hf|constructor]. Qed.

Lemma wf_list {A} (f : A → json) l : (∀ a, well_formed (f a)) → well_formed (JArray (f <$> l)).
Proof. intros Hf. apply wf_array, Forall_fmap, Forall_true. auto. Qed.

(** Objects with literal keys, one level at a time. *)
Ltac wf_json :=
  repeat first
    [ apply wf_members; [vm_compute; reflexivity|]
    | apply Forall_cons; split; cbn [snd]
    | apply Forall_nil_2
    | apply wf_or_null; intros ?
    | apply wf_list; intros ?
    | constructor ].

Lemma wf_event e : well_formed (event_json e). Proof. unfold event_json. wf_json. Qed.
Lemma wf_team t : well_formed (team_json t). Proof. unfold team_json, num. wf_json. Qed.
Lemma wf_player p : well_formed (player_json p). Proof. unfold player_json, num. wf_json. Qed.
Lemma wf_phase p : well_formed (phase_json p). Proof. unfold phase_json, num. wf_json. Qed.
Lemma wf_fixture f : well_formed (fixture_json f). Proof. unfold fixture_json, stat_values, num. wf_json. Qed.
Lemma wf_rules r : well_formed (rules_json r). Proof. unfold rules_json, num. wf_json. Qed.

Lemma finite_list {A} (f : A → json) l : (∀ a, a ∈ l → finite (f a) = true) → finite (JArray (f <$> l)) = true.
Proof.
  intros Hf. cbn. apply forallb_forall. intros j (a & -> & Ha)%list_elem_of_In%list_elem_of_fmap. by apply Hf.
Qed.

Lemma finite_or_null_num x : finite (or_null num x) = true.
Proof. by destruct x. Qed.

Lemma finite_team t : finite (team_json t) = true.
Proof. unfold team_json. cbn. by destruct (tm_form t), (tm_strength t), (tm_teamDivision t). Qed.

Lemma finite_members l : finite (members l) = forallb (finite ∘ snd) l.
Proof. induction l as [|[n j] l IH]; [done|]. cbn in *. by rewrite IH. Qed.

Lemma finite_stat_values l : finite (stat_values l) = true.
Proof. by apply finite_list. Qed.

Lemma finite_fixture f : finite (fixture_json f) = true.
Proof.
  unfold fixture_json. rewrite finite_members. cbn [forallb snd compose]. rewrite !finite_or_null_num.
  rewrite (finite_list _ (fx_stats f)).
  - by destruct (fx_kickoffTime f), (fx_started f).
  - intros s _. rewrite finite_members. cbn [forallb snd compose]. by rewrite !finite_stat_values.
Qed.

(** A snapshot with finite numbers can be published. *)
Lemma core_publishable date_parse c revision id time :
  finite_snapshot c = true → publishable (core_input date_parse c revision id time).
Proof.
  unfold finite_snapshot. rewrite andb_true_iff, forallb_forall. intros [Hev Hr].
  split; [|by intros e [=]]. intros name j Hin. unfold core_input, core_payloads in Hin. cbn [pi_items] in Hin.
  repeat (apply elem_of_cons in Hin as [[= -> ->]|Hin]); [..|by apply elem_of_nil in Hin].
  all: split_and!; try (intros iso; discriminate).
  - apply wf_list, wf_event.
  - apply finite_list. intros e He. by apply Hev, list_elem_of_In.
  - apply wf_list, wf_team.
  - apply finite_list. intros t _. apply finite_team.
  - apply wf_list, wf_player.
  - by apply finite_list.
  - apply wf_list, wf_phase.
  - apply finite_list. intros p _. unfold phase_json. rewrite finite_members. cbn [forallb snd compose].
    by rewrite finite_or_null_num.
  - apply wf_list, wf_fixture.
  - apply finite_list. intros f _. apply finite_fixture.
  - apply wf_or_null. intros. constructor.
  - apply finite_or_null_num.
  - by destruct (selectCurrentEventIdByDeadline _ _ _).
  - apply wf_or_null, wf_rules.
  - done.
  - by destruct (cs_selectionRules c).
Qed.

(** ** What the ledger holds for the delivery *)

Section staging.
Context {V : Type} `{!Codec V}.
Implicit Types (l : Ledger V).

Lemma publication_item_ok bind_null id i row :
  publication_item bind_null id i = Some row →
  publication_item_key row = (id, ip_name i) ∧
  (pn_payload row = jsonb_order (ip_payload i) ∨ ip_payload i = JNull ∧ bind_null = Some (pn_payload row)).
Proof.
  unfold publication_item. intros H. destruct (ip_payload i); cbn in H; try (injection H as <-; split; [done|by left]).
  destruct bind_null as [j|]; [|done]. injection H as <-. split; [done|by right].
Qed.

Lemma publication_rows_keys bind_null id items rows :
  Forall2 (λ i row, publication_item bind_null id i = Some row) items rows →
  publication_item_key <$> rows = (λ i, (id, ip_name i)) <$> items.
Proof.
  induction 1 as [|i row items rows Hi _ IH]; [done|]. cbn. f_equal; [|done]. by apply publication_item_ok in Hi as [? _].
Qed.

(** A staging that succeeds stores every value. *)
Lemma stage_items_ok bind_null id items l l' u :
  stagePublicationItems bind_null id items l = (l', Ok u) →
  (∀ i, i ∈ items → ∃ row, publication_item bind_null id i = Some row ∧
     find_by publication_item_key (id, ip_name i) (ld_items l') = Some row) ∧
  (NoDup (publication_item_key <$> ld_items l) → NoDup (publication_item_key <$> ld_items l')) ∧
  l' = with_items (ld_items l') l.
Proof.
  unfold stagePublicationItems. destruct (accepted_items items) eqn:Hacc; [|done]. cbn [negb].
  destruct (mapM _ items) as [rows|] eqn:Hrows; [|done]. destruct (negb (_ && _)); [done|]. intros [= <-].
  apply mapM_Some in Hrows.
  assert (NoDup (ip_name <$> items)) as Hnames.
  { unfold accepted_items in Hacc. cbv zeta in Hacc. apply andb_true_iff in Hacc as [_ Hlen]. apply Nat.eqb_eq in Hlen.
    apply length_dedup_NoDup. by rewrite Hlen, length_fmap. }
  assert (NoDup (publication_item_key <$> rows)) as Hkeys.
  { rewrite (publication_rows_keys _ _ _ _ Hrows).
    change (NoDup (pair id ∘ ip_name <$> items)). rewrite (list_fmap_compose ip_name (pair id) items).
    by apply NoDup_fmap_2; [intros ?? [=]|]. }
  cbn [ld_items with_items]. split_and!; [|by apply upsert_batch_NoDup|done].
  intros i Hi. apply list_elem_of_lookup in Hi as [n Hn].
  destruct (Forall2_lookup_l _ _ _ _ _ Hrows Hn) as (row & Hrow & Hrowi). exists row. split; [done|].
  rewrite find_by_upsert_batch by done.
  apply publication_item_ok in Hrowi as [Hk _]. rewrite <-Hk.
  rewrite (find_by_elem publication_item_key rows row) by (done || by eapply list_elem_of_lookup_2).
  by rewrite written_row_replace.
Qed.

Lemma remove_expired_items now locked l :
  NoDup (publication_item_key <$> ld_items l) → NoDup (publication_item_key <$> ld_items (remove_expired now locked l)).
Proof.
  intros Hnd. unfold remove_expired. destruct (is_nil _); [done|]. cbn [ld_items].
  eapply sublist_NoDup; [done|]. by apply fmap_sublist, sublist_filter.
Qed.

Lemma preparePublication_items emptyObject seasonExists eventExists now uuid locked input l :
  NoDup (publication_item_key <$> ld_items l) →
  NoDup (publication_item_key <$>
    ld_items (preparePublication (V := V) emptyObject seasonExists eventExists now uuid locked input l).1).
Proof.
  intros Hnd. unfold preparePublication. destruct (negb _); [done|].
  unfold insert_publication. repeat case_match; by apply remove_expired_items.
Qed.

(** The items staged from a prepared publication are its values. *)
Lemma staged_stored `{!CodecLaws V} bind_null now (input : PublishInput) (m : Manifest) (its : list (SerializedItem V)) l l' u :
  (∀ j, bind_null = Some j → j = JNull) →
  NoDup (publication_item_key <$> ld_items l) →
  prepareDataPublication now input = Ok (m, its) →
  stagePublicationItems bind_null (pi_publicationId input) (staged_items m (pi_items input)) l = (l', Ok u) →
  stored input l'.
Proof.
  intros Hnull Hnd Hprep Hst. apply stage_items_ok in Hst as (Hall & Hnd' & _). apply prepare_ok in Hprep.
  split; [by apply Hnd'|]. intros name j Hin.
  assert (name ∈ mi_name <$> mf_items m) as (item & -> & Hitem)%list_elem_of_fmap.
  { rewrite (po_items _ _ _ _ Hprep), <-list_fmap_compose, (prepared_name_list _ _ _ _ Hprep).
    apply (list_elem_of_fmap_2 fst) in Hin. done. }
  destruct (Hall (mkItemProof (mi_name item) (nullish (map_get (mi_name item) (pi_items input)) JNull) (mi_count item)
    (mi_sha256 item))) as (row & Hrow & Hf); [unfold staged_items; apply list_elem_of_fmap; by exists item|].
  rewrite (elem_of_map_get (mi_name item) j) in Hrow; [|apply (po_nodup _ _ _ _ Hprep)|done].
  apply publication_item_ok in Hrow as [Hk Hpay]. cbn [ip_name ip_payload nullish] in *. exists row.
  apply find_by_Some in Hf as [Hrin _]. unfold publication_item_key in Hk. injection Hk as Hid Hname.
  split_and!; [|done|].
  - apply list_elem_of_filter. by split.
  - change (nullish (Some j) JNull) with j in Hpay. destruct Hpay as [->|[-> Hb]]; [done|]. by rewrite (Hnull _ Hb).
Qed.
End staging.

(** ** Dispatching the receipt of one publication *)

Section dispatching.
Context {S V : Type} `{!Codec V} `{!JsonText V} `{!Redis S V}.
Implicit Types (l : Ledger V) (r : S).

(** A delivery that succeeds has moved the pointer. *)
Lemma delivered_moved now row l r l' r' :
  deliver now row l r = (l', r', Delivered) →
  ∃ activation, activateDataPublicationPointer (cl_manifest row)
                  (stageDataPublicationItems (cl_manifest row) (cl_items row) r).1 = (r', Ok activation) ∧
    pb_stale activation = false.
Proof.
  unfold deliver. destruct (stageDataPublicationItems _ _ r) as [r1 [u|e]]; [|done].
  destruct (markDataPublicationOutboxStage _ _ _ false l) as [l1 [|]]; [|done]. cbn [fst].
  destruct (activateDataPublicationPointer _ r1) as [r2 [a|e]]; [|done].
  destruct (pb_stale a) eqn:Ha; [done|].
  destruct (markDataPublicationOutboxStage _ _ _ true l1) as [l2 [|]]; [|done].
  destruct (markDataPublicationOutboxDelivered _ _ _ l2) as [l3 [[|]|e]]; [|done..].
  intros [= _ <-]. by exists a.
Qed.

(** One receipt is claimed at most; it is the one of the publication. *)
Lemma claimed_receipt now owner locked leaseMs c id l l' rows :
  claimDataPublicationOutbox now owner locked (Some 1) leaseMs (Some (c :: id)) l = (l', Ok rows) →
  rows = [] ∨ ∃ o p, o ∈ ld_outbox l ∧ ox_publicationId o = c :: id ∧
    loadPreparedPublication (c :: id) (ox_manifest o) l = Ok p ∧
    rows = [mkClaimed (ox_outboxId o) owner (c :: id) p.1 p.2].
Proof.
  unfold claimDataPublicationOutbox. repeat (case_match; [done|]). rewrite transaction_ok.
  change (nullish (Some 1) 20) with 1.
  assert (∀ o, o ∈ due_receipts (js_date now) 1 (Some (c :: id)) locked l →
    o ∈ ld_outbox l ∧ ox_publicationId o = c :: id) as Hdue.
  { intros o Ho. unfold due_receipts in Ho. apply elem_of_take in Ho as (n & Ho & _).
    apply list_elem_of_lookup_2, elem_of_js_sort in Ho.
    apply list_elem_of_filter in Ho as [[Hc _] Ho]. split; [done|]. apply Is_true_true in Hc.
    unfold claimable in Hc. by boolsolve. }
  assert (length (due_receipts (js_date now) 1 (Some (c :: id)) locked l) ≤ 1)%nat as Hlen
    by (unfold due_receipts; rewrite length_take; lia).
  destruct (due_receipts _ _ _ _ l) as [|o [|]]; [|clear Hlen|cbn in Hlen; lia].
  - intros [= _ <-]. by left.
  - cbn [claim_rows]. intros Hrows. apply result_bind_ok in Hrows as (up & _ & Hrows).
    apply result_bind_ok in Hrows as (p & Hp & Hrows). injection Hrows as _ <-.
    destruct (Hdue o) as [Hin Hid]; [by left|]. rewrite load_with_outbox, Hid in Hp. right. exists o, p.
    split_and!; [done..|]. by rewrite Hid.
Qed.

Lemma dispatched_one now owner locked c id l r l' r' counts :
  dispatchDataPublicationOutbox now owner locked (Some 1) (Some (c :: id)) l r = (l', r', Ok counts) →
  dc_delivered counts = 1 →
  ∃ o p activation, o ∈ ld_outbox l ∧ ox_publicationId o = c :: id ∧
    loadPreparedPublication (c :: id) (ox_manifest o) l = Ok p ∧
    activateDataPublicationPointer p.1 (stageDataPublicationItems p.1 p.2 r).1 = (r', Ok activation) ∧
    pb_stale activation = false.
Proof.
  unfold dispatchDataPublicationOutbox.
  destruct (claimDataPublicationOutbox _ _ _ _ _ _ l) as [l1 [rows|e]] eqn:Hc; [|done].
  apply claimed_receipt in Hc as [->|(o & p & Hin & Hid & Hp & ->)]; [by intros [= _ _ <-]|].
  cbn [deliver_all]. destruct (deliver _ _ l1 r) as [[l2 r2] [| |]] eqn:Hd; intros [= _ <- <-]; [|done..].
  apply delivered_moved in Hd as (a & Ha & Hs). intros _. by exists o, p, a.
Qed.
End dispatching.

(** ** What a sync that succeeds leaves *)

Section published.
Context {S V : Type} `{!Codec V} `{!CodecLaws V} `{!TextLaws V} `{!JsonText V} `{!Redis S V} `{!RedisLaws S V}.
Context (date_parse pg_time : jsstr → option Z) (clock : Z → Z) (emptyObject : V) (bind_null : option json).
Context (content : jsstr → V).
Implicit Types (w : World S V) (l : Ledger V) (r : S).

Lemma preparePublication_ok seasonExists eventExists now uuid locked input l l' p :
  preparePublication (V := V) emptyObject seasonExists eventExists now uuid locked input l = (l', Ok p) →
  pp_publicationId p = nullish (pr_publicationId input) uuid ∧ (∀ o, o ∈ ld_outbox l' → o ∈ ld_outbox l).
Proof.
  unfold preparePublication. destruct (negb _); [done|].
  assert (∀ o, o ∈ ld_outbox (remove_expired now locked l) → o ∈ ld_outbox l) as Hout.
  { intros o. unfold remove_expired. destruct (is_nil _); [done|]. cbn [ld_outbox].
    by intros [_ Ho]%list_elem_of_filter. }
  unfold insert_publication. destruct (negb _); [done|].
  destruct (find_by _ _ _) as [row|] eqn:Hf.
  - apply find_by_Some in Hf as [_ Hid]. intros [= <- Hp]. apply throw_when_ok in Hp as [_ [= <-]]. done.
  - destruct (negb _); [done|]. by intros [= <- <-].
Qed.

Lemma preparePublication_revision seasonExists eventExists now uuid locked input l l' p :
  find_by dp_publicationId (nullish (pr_publicationId input) uuid) (ld_publications l) = None →
  preparePublication (V := V) emptyObject seasonExists eventExists now uuid locked input l = (l', Ok p) →
  pp_revision p = ld_revisions l + 1.
Proof.
  intros Hnew. unfold preparePublication. destruct (negb _); [done|].
  assert (∀ id, find_by dp_publicationId id (ld_publications l) = None →
    find_by dp_publicationId id (ld_publications (remove_expired now locked l)) = None) as Hgone.
  { intros id. rewrite !find_by_None. intros Hn Hin. apply Hn. unfold remove_expired in Hin.
    destruct (is_nil _); [done|]. apply list_elem_of_fmap in Hin as (row & -> & [_ Hin]%list_elem_of_filter).
    by apply list_elem_of_fmap_2. }
  assert (ld_revisions (remove_expired now locked l) = ld_revisions l) as Hrev
    by (unfold remove_expired; by destruct (is_nil _)).
  unfold insert_publication. destruct (negb _); [done|]. cbn [ld_publications with_revisions].
  rewrite (Hgone _ Hnew). destruct (negb _); [done|]. intros [= _ <-]. cbn. by rewrite Hrev.
Qed.

(** A mutation transaction that commits. *)
Record committed (x : SyncContext) (time : Z) (snapshot : CoreSnapshot) w w' (p : @CorePersisted V) : Prop := {
  cm_redis : cw_redis w' = cw_redis w;
  cm_tables : persistCoreSnapshot pg_time clock snapshot (Some (time * 1000)) (cw_tables w) =
              (cw_tables w', Ok (cd_persisted p));
  cm_id : pp_publicationId (cd_prepared p) = sx_publicationId x;
  cm_revision : find_by dp_publicationId (sx_publicationId x) (ld_publications (cw_ledger w)) = None →
    pp_revision (cd_prepared p) = ld_revisions (cw_ledger w) + 1;
  cm_cache : prepareCoreSnapshotCache date_parse (sx_publishedAt x) snapshot (pp_revision (cd_prepared p))
               (sx_publicationId x) time = Ok (cd_cache p);
  cm_stored : stored (core_input date_parse snapshot (pp_revision (cd_prepared p)) (sx_publicationId x) time)
                (cw_ledger w');
  cm_outbox o : o ∈ ld_outbox (cw_ledger w') → o ∈ ld_outbox (cw_ledger w);
}.

Lemma persist_phase_ok x season time snapshot w w' p :
  (∀ j, bind_null = Some j → j = JNull) → NoDup (publication_item_key <$> ld_items (cw_ledger w)) →
  persist_phase date_parse pg_time clock emptyObject bind_null x season time snapshot w = (w', Ok p) →
  committed x time snapshot w w' p.
Proof.
  intros Hnull Hnd. unfold persist_phase. destruct w as [l t r].
  destruct (transaction _ (l, t)) as [[l1 t1] [q|e]] eqn:E; [|done]. intros [= <- <-].
  apply transaction_ok in E. unfold mutation_body in E. cbn [fst snd] in *.
  destruct (prepare_core emptyObject x season time l t) as [l2 prep] eqn:Hprep. cbn [cw_ledger cw_tables cw_redis] in *.
  apply result_bind_ok in E as (prepared & -> & E). apply result_bind_ok in E as ([m its] & Hcache & E).
  destruct (stagePublicationItems _ _ _ l2) as [l3 staged] eqn:Hst.
  apply result_bind_ok in E as ([] & -> & E). apply result_bind_ok in E as ([t2 persisted] & Hper & [= <- <- <-]).
  assert (persistCoreSnapshot pg_time clock snapshot (Some (time * 1000)) t = (t2, Ok persisted)) as Htab.
  { unfold persistCoreSnapshotPublication in Hper. destruct (persistCoreSnapshot _ _ _ _ t) as [t3 res].
    apply result_bind_ok in Hper as (q & -> & Hper). by apply throw_when_ok in Hper as [_ [= <- <-]]. }
  pose proof (preparePublication_items emptyObject (λ id, bool_decide (id ∈ se_seasonId <$> ft_seasons t))
    (λ _ event, bool_decide (event ∈ event_id <$> ft_events t)) (sx_preparedAt x) (sx_publicationId x) (sx_locked x)
    (mkPrepare (Some (sx_publicationId x)) DatasetCore (season_ref season) None (sx_runId x)
       (Some (staging_manifest time))) l Hnd) as Hnd2.
  unfold prepare_core in Hprep. rewrite Hprep in Hnd2. cbn [fst] in Hnd2.
  pose proof (λ H, preparePublication_revision _ _ _ _ _ _ _ _ _ H Hprep) as Hrevision. cbn in Hrevision.
  apply preparePublication_ok in Hprep as [Hid Hout]. cbn in Hid.
  rewrite Hid in Hcache, Hst. split; try done.
  - by apply (staged_stored bind_null (sx_publishedAt x) _ m its l2 l3 ()).
  - cbn. apply stage_items_ok in Hst as (_ & _ & ->). done.
Qed.

(** The scope is served from a store: its pointer names the publication, and in every later store in
    which it is still the same, a reader between whose commands less than a day passes gets the values. *)
Definition served (scope : Scope) (publicationId : jsstr) (items : list (jsstr * json)) (r : S) : Prop :=
  ∃ ak manifest, activeDataPublicationKey scope = Ok ak ∧ r_get ak r = Some (encode_manifest manifest) ∧
    mf_publicationId manifest = publicationId ∧
    ∀ r1 r2 ms, rtc (sys_step content) r r1 → r_get ak r1 = r_get ak r →
      sys_within content ms r1 r2 → ms < 24 * 60 * 60 * 1000 →
      ∃ values, readActiveDataPublication scope r1 r2 = Ok (Some (manifest, values)) ∧
        Forall2 (λ f g, f.1 = g.1 ∧ same_value f.2 g.2) items values.

(** A pointer that was moved to a publication serves that publication. *)
Lemma moved_serves now input p r r' a :
  sound content r → publication_of content now input p →
  activateDataPublicationPointer p.1 r = (r', Ok a) → pb_stale a = false →
  served (pi_scope input) (pi_publicationId input) (pi_items input) r'.
Proof.
  intros Hs Hof Hmove Hstale. assert (publication content p) as Hp by (by exists now, input).
  pose proof (pointer_sound content p r Hs Hp) as Hs'. rewrite Hmove in Hs'. cbn [fst] in Hs'.
  rewrite <-(publication_scope content now input p Hof).
  destruct (activeDataPublicationKey (manifest_scope p.1)) as [ak|] eqn:Hak.
  2: { unfold activateDataPublicationPointer in Hmove. by rewrite Hak in Hmove. }
  destruct (activate_sound content p ak r a Hs Hp Hak) as (Hget & Hitems & Hmid); [by rewrite Hmove|done|].
  rewrite Hmove in Hget. cbn [fst] in Hget.
  exists ak, (DataPublication.pb_manifest a). split_and!; [done|done| |].
  - rewrite Hmid. destruct Hof as (_ & Hprep & _), p as [m items]. by eapply po_id, prepare_ok.
  - intros r1 r2 ms Hlater Hsame Hwithin Hms. rewrite (publication_scope content now input p Hof) in *.
    apply (sound_read_later content now input p (DataPublication.pb_manifest a) ak ms); [|done|done|by rewrite Hsame|done..].
    by eapply steps_sound.
Qed.

(** A publication that reports ['committed'] is the active one of its scope. *)
Lemma published_is_served x persisted input now prepared w w' :
  sound content (cw_redis w) → publication_of content now input prepared → stored input (cw_ledger w) →
  pi_publicationId input = sx_publicationId x →
  find_by ox_publicationId (sx_publicationId x) (ld_outbox (cw_ledger w)) = None →
  publishCoreSnapshotPublication x persisted prepared w = (w', Ok true) →
  served (pi_scope input) (sx_publicationId x) (pi_items input) (cw_redis w').
Proof.
  destruct w as [l t r]. cbn [cw_ledger cw_redis]. intros Hs Hof Hstored Hid Hfresh. unfold publishCoreSnapshotPublication.
  assert (publication content prepared) as Hp by (by exists now, input).
  destruct (explicitSeasonRef _) as [season|]; [|done].
  pose proof (stage_sound content prepared r Hs Hp) as Hs1.
  destruct (stageDataPublicationItems prepared.1 prepared.2 r) as [r1 [u|e]]; [|done]. cbn [fst] in Hs1.
  destruct (still_current season t) as [[|]|]; [| |done]; [|destruct (skipPublication _ _ _ l) as [? []]; [|done]].
  2: { destruct (finishRun _ _ _ _) as [? []]; done. }
  destruct (activatePublication _ _ l) as [l1 [u1|e]] eqn:Hact; [|done].
  destruct (dispatchDataPublicationOutbox _ _ _ _ _ l1 r1) as [[l2 r2] res] eqn:Hd.
  intros [= <- Hres]. apply result_bind_ok in Hres as (counts & -> & Hres).
  apply throw_when_ok in Hres as [Hcount _]. apply negb_false_iff, Z.eqb_eq in Hcount. cbn [cw_redis].
  assert (∃ c id, sx_publicationId x = c :: id) as (c & id & Hcid).
  { pose proof Hof as (_ & Hprep & _). destruct prepared as [m items].
    pose proof (po_id_ok _ _ _ _ (prepare_ok _ _ _ _ Hprep)) as Hok. rewrite Hid in Hok.
    by destruct (sx_publicationId x); [|eexists _, _]. }
  rewrite Hcid in Hd. destruct (dispatched_one _ _ _ _ _ _ _ _ _ _ Hd Hcount)
    as (o & q & a & Ho & Hoid & Hload & Hmove & Hstale).
  apply activatePublication_ok in Hact as [target Ha].
  pose proof (ac_outbox _ _ _ _ _ Ha) as Hout. cbn [ai_outbox ai_publicationId] in Hout. rewrite Hfresh in Hout.
  cbn [is_null] in Hout. rewrite Hout in Ho.
  assert (ox_manifest o = encode_manifest prepared.1) as Hman.
  { apply elem_of_app in Ho as [Ho|Ho%list_elem_of_singleton]; [|by subst o].
    apply find_by_None in Hfresh. destruct Hfresh. rewrite Hcid, <-Hoid. by apply list_elem_of_fmap_2. }
  pose proof (proj1 (ac_rest _ _ _ _ _ Ha)) as Hits.
  rewrite Hman, <-Hcid, <-Hid, (load_prepared content now input prepared) in Hload; [|done| |].
  2: { unfold stored, items_of in *. by rewrite Hits. }
  2: { unfold items_of. rewrite Hits, Hid. by apply (ac_items _ _ _ _ _ Ha). }
  injection Hload as <-. pose proof (stage_sound content prepared r1 Hs1 Hp) as Hs2.
  set (r3 := (stageDataPublicationItems prepared.1 prepared.2 r1).1) in *.
  rewrite <-Hid. by apply (moved_serves now input prepared r3 r2 a).
Qed.

Lemma same_array_shape (a : list json) j : same_value (JArray a) j → ∃ k, j = JArray k.
Proof. inversion 1; subst; [done|by eexists]. Qed.

(** The values of a core publication have the shapes that readers ask for. *)
Lemma core_contents_same snapshot time values :
  Forall2 (λ f g : jsstr * json, f.1 = g.1 ∧ same_value f.2 g.2) (core_payloads date_parse snapshot time) values →
  core_contents values = true.
Proof.
  unfold core_payloads. intros Hall.
  repeat (apply Forall2_cons_inv_l in Hall as ([? ?] & ? & [Hn ?] & Hrest & ->); cbn [fst snd] in Hn; subst;
          rename Hrest into Hall).
  apply Forall2_nil_inv_l in Hall as ->. cbn [snd] in *.
  repeat match goal with H : same_value (JArray _) ?j |- _ => destruct (same_array_shape _ _ H) as [? ->]; clear H end.
  match goal with H : same_value (or_null rules_json _) ?j |- _ =>
    assert (match j with JNull | JObject _ => True | _ => False end) as Hrules
      by (destruct (cs_selectionRules snapshot); inversion H; subst; try done) end.
  match goal with H : same_value (or_null num _) ?j |- _ =>
    assert (match j with JNull => True | JNumber n => is_integer n = true | _ => False end) as Hevent
      by (destruct (selectCurrentEventIdByDeadline _ _ _); inversion H; subst; try done) end.
  repeat match goal with H : match ?j with _ => _ end |- _ => destruct j; try done; revert H end.
  all: intros; lazy -[is_integer]; done.
Qed.

(** C8: a core sync that reports ready has stored the snapshot, and its publication is the active one of the core
    scope of the season. As long as no later command replaces that pointer, in every store that publishers can reach
    from there, a reader between whose two commands less than 24 hours pass gets from the core cache this publication
    with exactly the values of the fetched snapshot, whatever publications the store held and other processes staged
    before. Assumed is that one key has one content: the items of this publication, and those that the other
    publishers stage, are the content of their keys (the revision of a scope is published once). These are the values
    before reconciliation: what the tables hold instead of a staler price, result or deadline is not what Redis
    serves. *)
Theorem core_sync_serves (x : SyncContext) season time snapshot w w' out (r0 : S)
  (Hempty : ∀ k, r_get k r0 = None) (Hreach : rtc (sys_step content) r0 (cw_redis w))
  (Hnull : ∀ j, bind_null = Some j → j = JNull)
  (Hkeys : NoDup (publication_item_key <$> ld_items (cw_ledger w)))
  (Hnew : find_by dp_publicationId (sx_publicationId x) (ld_publications (cw_ledger w)) = None)
  (Hfresh : find_by ox_publicationId (sx_publicationId x) (ld_outbox (cw_ledger w)) = None)
  (Hfetch : fetch_snapshot date_parse x season = Ok (time, snapshot))
  (Hfinite : finite_snapshot snapshot = true)
  (Hcontent : ∀ p item,
     prepareCoreSnapshotCache date_parse (sx_publishedAt x) snapshot (ld_revisions (cw_ledger w) + 1)
       (sx_publicationId x) time = Ok p →
     item ∈ p.2 → se_payload item = content (mi_key (se_item item)))
  (Hsync : run_core_sync date_parse pg_time clock emptyObject bind_null x season w = (w', Ok out))
  (Hready : yr_ready out = true) :
  ∃ persisted ak manifest,
    persistCoreSnapshot pg_time clock snapshot (Some (time * 1000)) (cw_tables w) = (cw_tables w', Ok persisted) ∧
    activeDataPublicationKey (mkScope DatasetCore season.2 None) = Ok ak ∧
    r_get ak (cw_redis w') = Some (encode_manifest manifest) ∧
    mf_publicationId manifest = sx_publicationId x ∧
    ∀ r1 r2 ms, rtc (sys_step content) (cw_redis w') r1 → r_get ak r1 = r_get ak (cw_redis w') →
      sys_within content ms r1 r2 → ms < 24 * 60 * 60 * 1000 →
      ∃ values, readCoreSnapshotCache season.2 r1 r2 = Ok (Some (manifest, values)) ∧
        Forall2 (λ f g, f.1 = g.1 ∧ same_value f.2 g.2) (core_payloads date_parse snapshot time) values.
Proof.
  unfold run_core_sync in Hsync. rewrite Hfetch in Hsync.
  assert (cs_season snapshot = season.2) as Hseason.
  { unfold fetch_snapshot in Hfetch. apply result_bind_ok in Hfetch as (? & _ & Hfetch).
    apply result_bind_ok in Hfetch as (? & _ & Hfetch). apply result_bind_ok in Hfetch as (? & _ & Hfetch).
    apply result_bind_ok in Hfetch as (c & _ & Hfetch). apply throw_when_ok in Hfetch as [Hs [= <- <-]].
    by apply negb_false_iff, bool_decide_eq_true in Hs. }
  destruct (persist_phase _ _ _ _ _ _ _ _ _ w) as [w1 [p|e]] eqn:Hphase; [|done].
  apply persist_phase_ok in Hphase; [|done..].
  pose proof (publish_tables x (cd_persisted p) (cd_cache p) w1) as Htables.
  destruct (publishCoreSnapshotPublication _ _ _ w1) as [w2 [[|]|]] eqn:Hpub; [|by injection Hsync as _ <-|done].
  injection Hsync as <- <-. cbn [fst] in Htables.
  set (input := core_input date_parse snapshot (pp_revision (cd_prepared p)) (sx_publicationId x) time).
  assert (publication_of content (sx_publishedAt x) input (cd_cache p)) as Hof.
  { split_and!; [by apply core_publishable|apply (cm_cache _ _ _ _ _ _ Hphase)|].
    intros item. apply Hcontent. rewrite <-(cm_revision _ _ _ _ _ _ Hphase Hnew). apply (cm_cache _ _ _ _ _ _ Hphase). }
  destruct (published_is_served x (cd_persisted p) input (sx_publishedAt x) (cd_cache p) w1 w2)
    as (ak & manifest & Hak & Hget & Hid & Hserved); [|done|apply (cm_stored _ _ _ _ _ _ Hphase)|done| |done|].
  - rewrite (cm_redis _ _ _ _ _ _ Hphase). by eapply reachable_sound.
  - apply find_by_None. apply find_by_None in Hfresh. intros (o & Hoid & Ho)%list_elem_of_fmap. apply Hfresh.
    rewrite Hoid. apply list_elem_of_fmap_2. by apply (cm_outbox _ _ _ _ _ _ Hphase).
  - cbn [pi_scope input core_input] in Hak, Hserved. rewrite Hseason in Hak, Hserved.
    exists (cd_persisted p), ak, manifest. split_and!; [|done..|].
    + rewrite Htables. apply (cm_tables _ _ _ _ _ _ Hphase).
    + intros r1 r2 ms Hlater Hsame Hwithin Hms. destruct (Hserved r1 r2 ms) as (values & Hread & Hall); [done..|].
      exists values. split; [|done]. unfold readCoreSnapshotCache. rewrite Hread. cbn [result_bind].
      by rewrite (core_contents_same _ _ _ Hall).
Qed.
End published.

(** ** A season *)

Definition sample_clocks (refreshed : bool) (bootstrap : result Bootstrap) : SyncContext := {|
  sx_runId := sample_runId; sx_publicationId := sample_id; sx_outboxId := sample_outboxId; sx_owner := js "owner";
  sx_recovery := (js "receipt", js "owner"); sx_startedAt := 1755300000000000; sx_preparedAt := 1755300001000000; sx_publishedAt := 1755300001000;
  sx_activatedAt := 1755300002000000; sx_deliveredAt := 1755300003000000; sx_failedAt := 1755300004000000; sx_locked := []; sx_lockedReceipts := [];
  sx_orderingTimestamp := Ok 1755300000000; sx_bootstrap := bootstrap; sx_fixtures := Ok sample_fixtures;
  sx_refreshed := refreshed; sx_trigger := js "cron" |}.

Definition sample_sync : SyncContext := sample_clocks true (Ok sample_bootstrap).
Definition sample_current : Z * jsstr := (2025, js "2526").

Definition sample_season_snapshot : CoreSnapshot :=
  match prepareCoreSnapshot sample_date sample_bootstrap sample_fixtures with
  | Ok c => c
  | Throw _ => sample_snapshot
  end.

(** A table with player 1 at a price of 5.5, read after the bootstrap, which says 5.0. *)
Definition sample_priced : FplTables := {|
  ft_seasons := ft_seasons sample_tables; ft_events := []; ft_teams := [];
  ft_players := [mkPlayerRow (sample_player 1 55) (Some 1755300000500000) true]; ft_phases := []; ft_fixtures := [];
  ft_gameweeks := []; ft_items := []; ft_evidence := [] |}.

Definition sample_world : World (memory sample_text) sample_text :=
  let w := mkWorld SyncOperations.sample_empty sample_priced ∅ in with_ledger (start_core_run sample_sync sample_current w).1 w.

Definition sample_run (x : SyncContext) : World (memory sample_text) sample_text * result CoreSnapshotSyncResult :=
  run_core_sync sample_date sample_date (λ t, t) (TextJson (JObject [])) None x sample_current sample_world.

Lemma sample_run_eq x :
  sample_run x =
  run_core_sync sample_date sample_date (λ t, t) (TextJson (JObject [])) None x sample_current sample_world.
Proof. reflexivity. Qed.

Definition sample_core_items : list (SerializedItem sample_text) :=
  match prepareCoreSnapshotCache sample_date 1755300001000 sample_season_snapshot 7 sample_id 1755300000000 with
  | Ok p => p.2
  | Throw _ => []
  end.

Definition sample_core_content (k : jsstr) : sample_text :=
  nullish (map_get k ((λ i, (mi_key (se_item i), se_payload i)) <$> sample_core_items)) (TextJson JNull).

Lemma sample_content_of item : item ∈ sample_core_items → se_payload item = sample_core_content (mi_key (se_item item)).
Proof.
  intros Hin. unfold sample_core_content. rewrite (elem_of_map_get (mi_key (se_item item)) (se_payload item)); [done| |].
  - apply (bool_decide_eq_true _). vm_compute. reflexivity.
  - by apply (list_elem_of_fmap_2 (λ i, (mi_key (se_item i), se_payload i))).
Qed.

Lemma sample_fetched refreshed :
  fetch_snapshot sample_date (sample_clocks refreshed (Ok sample_bootstrap)) sample_current =
  Ok (1755300000000, sample_season_snapshot).
Proof.
  unfold fetch_snapshot, sample_clocks. cbn [sx_orderingTimestamp sx_bootstrap sx_fixtures result_bind].
  unfold sample_season_snapshot. destruct (is_ok_inv _ sample_accepted) as [c Hc].
  assert (match prepareCoreSnapshot sample_date sample_bootstrap sample_fixtures with
          | Ok c => bool_decide (cs_season c = js "2526") | Throw _ => false end = true) as Hs by (vm_compute; reflexivity).
  rewrite Hc in *. cbn [result_bind]. change sample_current.2 with (js "2526"). by rewrite Hs.
Qed.

(** What the sample sync reports, and the prices it leaves. *)
Lemma sample_ready :
  let '(w', out) := sample_run sample_sync in
  match out with Ok r => yr_ready r | Throw _ => false end &&
  bool_decide (pl_price ∘ pr_player <$> take 1 (ft_players (cw_tables w')) = [55]) = true.
Proof. vm_compute. reflexivity. Qed.

(** The table keeps the price that was read later; Redis serves the price of the bootstrap. *)
Lemma core_sync_serves_witness :
  ∃ w' manifest values,
    (sample_run sample_sync).1 = w' ∧
    pl_price ∘ pr_player <$> take 1 (ft_players (cw_tables w')) = [55] ∧
    pl_price <$> take 1 (cs_players sample_season_snapshot) = [50] ∧
    readCoreSnapshotCache (js "2526") (cw_redis w') (cw_redis w') = Ok (Some (manifest, values)) ∧
    Forall2 (λ f g, f.1 = g.1 ∧ same_value f.2 g.2)
      (core_payloads sample_date sample_season_snapshot 1755300000000) values.
Proof.
  pose proof sample_ready as Hready. destruct (sample_run sample_sync) as [w' [out|e]] eqn:Hrun; [|discriminate Hready].
  apply andb_prop in Hready as [Hready Hprice]. apply bool_decide_eq_true in Hprice.
  destruct (core_sync_serves sample_date sample_date (λ t, t) (TextJson (JObject [])) None sample_core_content sample_sync
    sample_current 1755300000000 sample_season_snapshot sample_world w' out (∅ : memory sample_text) lookup_empty
    (rtc_refl _ _)) as (persisted & ak & manifest & _ & _ & _ & _ & Hserved).
  - intros j [=].
  - constructor.
  - reflexivity.
  - reflexivity.
  - exact (sample_fetched true).
  - vm_compute. reflexivity.
  - intros p item Hp Hin. apply sample_content_of. unfold sample_core_items.
    change (prepareCoreSnapshotCache sample_date 1755300001000 sample_season_snapshot 7 sample_id 1755300000000 = Ok p) in Hp.
    rewrite Hp. exact Hin.
  - rewrite sample_run_eq in Hrun. exact Hrun.
  - exact Hready.
  - destruct (Hserved (cw_redis w') (cw_redis w') 0 (rtc_refl _ _) eq_refl (within_now _ _) ltac:(reflexivity))
      as (values & Hread & Hall).
    exists w', manifest, values. split; [reflexivity|]. split; [exact Hprice|]. split; [vm_compute; reflexivity|].
    split; [exact Hread|exact Hall].
Defined.

Lemma sample_aborted :
  match persist_phase sample_date sample_date (λ t, t) (TextJson (JObject [])) None
          (sample_clocks false (Ok sample_bootstrap)) sample_current 1755300000000 sample_season_snapshot sample_world with
  | (_, Ok _) => false
  | (_, Throw _) => true
  end = true.
Proof. vm_compute. reflexivity. Qed.

Definition sample_core_run : Run :=
  nullish (head (ld_runs (cw_ledger sample_world)))
    (new_run 0 [] (mkStart None (mkIdentity [] [] [] None None None [] []) None None None)).

(** A reporting refresh that fails: the sync fails, and its run stays running. *)
Lemma failed_core_sync_witness :
  ∃ w' e, sample_run (sample_clocks false (Ok sample_bootstrap)) = (w', Throw e) ∧
    find_by sr_runId sample_runId (ld_runs (cw_ledger w')) = Some sample_core_run ∧
    sr_status sample_core_run = RunRunning.
Proof.
  pose proof sample_aborted as Habort. pose proof (sample_fetched false) as Hfetch.
  assert (∃ w' e, sample_run (sample_clocks false (Ok sample_bootstrap)) = (w', Throw e)) as (w' & e & Hrun).
  { rewrite sample_run_eq. unfold run_core_sync. rewrite Hfetch. destruct (persist_phase _ _ _ _ _ _ _ _ _ _) as [w1 [p|e]];
      [discriminate Habort|]. eexists _, _. reflexivity. }
  exists w', e. split; [exact Hrun|]. split; [|reflexivity].
  pose proof (failed_core_sync sample_date sample_date (λ t, t) (TextJson (JObject [])) None
    (sample_clocks false (Ok sample_bootstrap)) sample_current sample_world w' e sample_core_run) as H.
  rewrite Hfetch in H. destruct (persist_phase _ _ _ _ _ _ _ _ _ _) as [w1 [p|e1]]; [discriminate Habort|].
  destruct H as (n & _ & H).
  - apply (bool_decide_unpack _). vm_compute. exact I.
  - vm_compute. reflexivity.
  - reflexivity.
  - vm_compute. reflexivity.
  - vm_compute. discriminate.
  - reflexivity.
  - rewrite sample_run_eq in Hrun. exact Hrun.
  - exact H.
Defined.
