(* ===== verification/EntryResults.v ===== *)
(** * Scored gameweeks of entries ([src/repositories/entry-event-results.ts],
      [src/repositories/entry-event-results-history.ts], [src/repositories/entry-event-transfers.ts],
      [src/domain/freshness.ts])

    An entry has one row per gameweek: its points, written from the history of the entry, from the
    picks and live points of the gameweek (a rich row, with the time of that evidence), or as zeros
    for the gameweeks before it was entered; and the list of its transfers, replaced as a whole.
    The tables are those of one season.  A [stamp] is an exact time in microseconds; a JS [Date] holds
    whole milliseconds, and so do the columns that are written from one. *)

From S2P Require Import Prelude JsCollections JsNumber Json Postgres EntryPicks.

(** ** Freshness *)

(** [new Date(stamp)] of a text in the format of the database. *)
Definition to_date (stamp : Z) : Z := stamp / 1000.

(** src: src/domain/freshness.ts:1-5 fractionalMicroseconds *)
Definition fractionalMicroseconds (stamp : Z) : Z := stamp mod 1000000.

(** src: src/domain/freshness.ts:8-32 latestFreshnessTimestamp *)
Definition latestFreshnessTimestamp (sourceFreshAfter : Z) (finalizationCutoff : option Z) : Z :=
  match finalizationCutoff with
  | None => sourceFreshAfter
  | Some cutoff =>
      if negb (to_date cutoff =? to_date sourceFreshAfter) then
        if to_date sourceFreshAfter <? to_date cutoff then cutoff else sourceFreshAfter
      else if fractionalMicroseconds sourceFreshAfter <? fractionalMicroseconds cutoff then cutoff
      else sourceFreshAfter
  end.

(** src: src/domain/freshness.ts:34-43 isFreshnessBoundaryNewer *)
Definition isFreshnessBoundaryNewer (sourceFreshAfter : Z) (candidateFinalization : option Z) : bool :=
  negb (is_null candidateFinalization) &&
  negb (latestFreshnessTimestamp sourceFreshAfter candidateFinalization =? sourceFreshAfter).

Lemma latestFreshnessTimestamp_max source cutoff :
  latestFreshnessTimestamp source (Some cutoff) = Z.max source cutoff.
Proof.
  unfold latestFreshnessTimestamp, to_date, fractionalMicroseconds. split_ifs; boolsolve; try lia; Z.to_euclidean_division_equations; lia.
Qed.

Lemma isFreshnessBoundaryNewer_spec source candidate :
  isFreshnessBoundaryNewer source candidate = match candidate with Some c => source <? c | None => false end.
Proof.
  unfold isFreshnessBoundaryNewer. destruct candidate as [c|]; [|done]. cbn [is_null negb andb].
  rewrite latestFreshnessTimestamp_max. apply eq_iff_eq_true. rewrite negb_true_iff, Z.eqb_neq, Z.ltb_lt. lia.
Qed.

(** ** Payloads *)

(** src: src/clients/fpl.ts:407-414 AutomaticSubSchema *)
Record AutomaticSub := mkSub {
  as_entry : Z;
  as_element_in : Z;
  as_element_out : Z;
  as_event : Z;
}.

#[export] Instance automatic_sub_eq_dec : EqDecision AutomaticSub.
Proof. solve_decision. Defined.

(** The points of a player in a gameweek.
    src: src/repositories/entry-event-results.ts:37-42 EventPointsPayload *)
Record LiveElement := mkElement { le_id : number; le_total_points : number }.

(** A picks response with the rest of its history.
    src: src/clients/fpl.ts:394-424 PicksResponseSchema *)
Record RichPicks := mkRich {
  rp_picks : PicksResponse;
  rp_points : number;
  rp_total_points : number;
  rp_rank : option number;
  rp_overall_rank : option number;
  rp_bank : option number;
  rp_value : option number;
  rp_points_on_bench : option number;
  rp_automatic_subs : list AutomaticSub;
}.

(** src: src/clients/fpl.ts:518-529 EntryHistoryCurrentItemSchema *)
Record HistoryItem := mkHistoryItem {
  hi_event : number;
  hi_points : number;
  hi_total_points : number;
  hi_rank : option number;
  hi_overall_rank : option number;
  hi_bank : option number;
  hi_value : option number;
  hi_event_transfers : option number;
  hi_event_transfers_cost : option number;
  hi_points_on_bench : option number;
}.

(** ** The table of results *)

(** src: src/db/schemas/platform.schema.ts:2995-3018 entryEventResultsInCompetition *)
Record ResultRow := mkResult {
  rr_entryId : Z;
  rr_eventId : Z;
  rr_eventPoints : Z;
  rr_eventTransfers : Z;
  rr_eventTransfersCost : Z;
  rr_eventNetPoints : Z;
  rr_eventBenchPoints : option Z;
  rr_eventAutoSubPoints : option Z;
  rr_eventRank : option Z;
  rr_eventChip : option jsstr;
  rr_playedCaptainElementId : option Z;
  rr_captainPoints : option Z;
  rr_automaticSubstitutions : option (list AutomaticSub);
  rr_overallPoints : Z;
  rr_overallRank : Z;
  rr_teamValue : option Z;
  rr_bank : option Z;
  rr_richSyncedAt : option Z;
}.

Definition result_key (r : ResultRow) : Z * Z := (rr_entryId r, rr_eventId r).

(** src: src/db/schemas/platform.schema.ts:3069-3084 entryEventResultsInCompetition *)
Definition result_checks (r : ResultRow) : bool :=
  is_int4 (rr_entryId r) && is_int4 (rr_eventId r) &&
  (0 <? rr_entryId r) && (0 <? rr_eventId r) && null_or (λ c, 0 <? c) (rr_playedCaptainElementId r) &&
  (0 <=? rr_eventTransfers r) && (0 <=? rr_eventTransfersCost r) &&
  null_or (λ n, 0 <=? n) (rr_eventRank r) && (0 <=? rr_overallRank r) &&
  null_or (λ c, bool_decide (c ∈ chipInCompetition)) (rr_eventChip r).

(** A number or nothing, written to an integer column. *)
Definition opt_column (n : option number) : option (option Z) :=
  match n with Some n => Some <$> int_column 32 n | None => Some None end.

(** [k * x] for the multiplier [k] of a pick: 0, 1, 2 or 3. *)
Fixpoint times (k : nat) (x : number) : number :=
  match k with O => of_int 0 | 1%nat => x | S k => number_add (times k x) x end.

(** ** Rows from picks and live points *)

(** The loop over the substitutions, with the sets of players who came in and went out.
    src: src/repositories/entry-event-results.ts:80-96 validateAutomaticSubs *)
Fixpoint check_subs (entryId eventId : Z) (selected incoming outgoing : list Z) (subs : list AutomaticSub)
    : result (list Z * list Z) :=
  match subs with
  | [] => Ok (incoming, outgoing)
  | s :: subs =>
      let isIn l x := bool_decide (x ∈ l) in
      reject_if negb (as_entry s =? entryId) || negb (as_event s =? eventId) ||
                (as_element_in s =? as_element_out s) || negb (isIn selected (as_element_in s)) ||
                negb (isIn selected (as_element_out s)) || isIn incoming (as_element_in s) ||
                isIn outgoing (as_element_out s)
        with_code "INVALID_SUBSTITUTIONS" ;;
      check_subs entryId eventId selected (as_element_in s :: incoming) (as_element_out s :: outgoing) subs
  end.

(** The elements of complete picks are integers.
    src: src/repositories/entry-event-results.ts:72-103 validateAutomaticSubs *)
Definition validateAutomaticSubs (entryId eventId : Z) (picks : RichPicks) : result (list AutomaticSub) :=
  let selected := (λ p, int_value (pk_element p)) <$> pr_picks (rp_picks picks) in
  let* sets := check_subs entryId eventId selected [] [] (rp_automatic_subs picks) in
  reject_if existsb (λ e, bool_decide (e ∈ sets.2)) sets.1 with_code "INVALID_SUBSTITUTIONS" ;;
  Ok (rp_automatic_subs picks).

(** [map.get(id)] of the map from players to points: the last element with the id.
    src: src/repositories/entry-event-results.ts:414-417 upsertFromPicksAndLive *)
Definition points_of (live : list LiveElement) (id : number) : option number :=
  le_total_points <$> List.find (λ e, number_eqb (le_id e) id) (rev live).

(** src: src/repositories/entry-event-results.ts:51-53 getAutoSubPoints *)
Definition getAutoSubPoints (autoSubs : list AutomaticSub) (live : list LiveElement) : number :=
  fold_left (λ total sub, number_add total (nullish (points_of live (of_int (as_element_in sub))) (of_int 0)))
    autoSubs (of_int 0).

(** The row, when the database takes its numbers.
    src: src/repositories/entry-event-results.ts:412-439 upsertFromPicksAndLive *)
Definition rich_row (entryId eventId : Z) (picks : RichPicks) (live : list LiveElement) (autoSubs : list AutomaticSub)
    (richSyncedAt : Z) : option ResultRow :=
  let history := pr_entry_history (rp_picks picks) in
  let captainPick := resolveScoringCaptainPick (pr_picks (rp_picks picks)) in
  let captainPointsBase := match captainPick with
    | Some p => nullish (points_of live (pk_element p)) (of_int 0)
    | None => of_int 0
    end in
  eventPoints ← int_column 32 (rp_points picks);
  eventTransfers ← int_column 32 (ph_event_transfers history);
  eventTransfersCost ← int_column 32 (ph_event_transfers_cost history);
  eventNetPoints ← int_column 32 (number_add (rp_points picks) (number_opp (ph_event_transfers_cost history)));
  eventBenchPoints ← opt_column (rp_points_on_bench picks);
  eventAutoSubPoints ← int_column 32 (getAutoSubPoints autoSubs live);
  eventRank ← opt_column (rp_rank picks);
  captain ← opt_column (pk_element <$> captainPick);
  captainPoints ← opt_column ((λ p, times (Z.to_nat (int_value (pk_multiplier p))) captainPointsBase) <$> captainPick);
  overallPoints ← int_column 32 (rp_total_points picks);
  overallRank ← int_column 32 (nullish (rp_overall_rank picks) (of_int 0));
  teamValue ← opt_column (rp_value picks);
  bank ← opt_column (rp_bank picks);
  Some (mkResult entryId eventId eventPoints eventTransfers eventTransfersCost eventNetPoints eventBenchPoints
          (Some eventAutoSubPoints) eventRank (toNullableDbChip (pr_active_chip (rp_picks picks))) captain captainPoints
          (Some autoSubs) overallPoints overallRank teamValue bank (Some (to_date richSyncedAt))).

(** Older evidence does not replace newer.
    src: src/repositories/entry-event-results.ts:441-473 upsertFromPicksAndLive *)
Definition merge_rich (old row : ResultRow) : ResultRow :=
  match rr_richSyncedAt old, rr_richSyncedAt row with
  | Some before, Some now => if before <? now then row else old
  | _, _ => row
  end.

Section results.
(** The entry, the gameweek and the captain a row refers to exist. *)
Context (references : ResultRow → bool).

Definition result_upsert (merge : ResultRow → ResultRow → ResultRow) (code : string) (rows table : list ResultRow)
    : result (list ResultRow) :=
  let* written := upsert_returning result_key merge (λ _ _, false) result_checks references code rows table in
  Ok written.1.

(** src: src/repositories/entry-event-results.ts:375-491 upsertFromPicksAndLive *)
Definition upsertFromPicksAndLive (entryId eventId : Z) (picks : RichPicks) (live : list LiveElement)
    (richSyncedAt : Z) (table : list ResultRow) : result (list ResultRow) :=
  reject_if negb (isEntryPicksPayloadForEvent (response_json (rp_picks picks)) (of_int eventId))
    with_code "UNEXPECTED_EVENT" ;;
  reject_if negb (isCompleteEntryPicks (picks_json (pr_picks (rp_picks picks)))) with_code "INCOMPLETE_PICKS" ;;
  reject_if negb (hasCompleteEntryPickLiveCoverage (picks_json (pr_picks (rp_picks picks))) (le_id <$> live))
    with_code "INCOMPLETE_COVERAGE" ;;
  let* autoSubs := validateAutomaticSubs entryId eventId picks in
  match rich_row entryId eventId picks live autoSubs richSyncedAt with
  | None => Throw "ENTRY_EVENT_RESULTS_UPSERT_ERROR"
  | Some row => result_upsert merge_rich "ENTRY_EVENT_RESULTS_UPSERT_ERROR" [row] table
  end.

(** ** Rows from a history *)

(** [Number.isInteger(item.event)] and two numbers.
    src: src/repositories/entry-event-results-history.ts:23-28 buildCoreHistoryUpsertPlan *)
Definition upsertable (item : HistoryItem) : bool :=
  is_integer (hi_event item) && negb (is_null (hi_event_transfers item)) &&
  negb (is_null (hi_event_transfers_cost item)).

(** src: src/repositories/entry-event-results-history.ts:33-47 buildCoreHistoryUpsertPlan *)
Definition history_row (entryId : Z) (item : HistoryItem) : option ResultRow :=
  transfers ← hi_event_transfers item;
  cost ← hi_event_transfers_cost item;
  eventId ← int_column 32 (hi_event item);
  eventPoints ← int_column 32 (hi_points item);
  eventTransfers ← int_column 32 transfers;
  eventTransfersCost ← int_column 32 cost;
  eventNetPoints ← int_column 32 (number_add (hi_points item) (number_opp cost));
  eventBenchPoints ← opt_column (hi_points_on_bench item);
  eventRank ← opt_column (hi_rank item);
  overallPoints ← int_column 32 (hi_total_points item);
  overallRank ← int_column 32 (nullish (hi_overall_rank item) (of_int 0));
  teamValue ← opt_column (hi_value item);
  bank ← opt_column (hi_bank item);
  Some (mkResult entryId eventId eventPoints eventTransfers eventTransfersCost eventNetPoints eventBenchPoints None
          eventRank None None None None overallPoints overallRank teamValue bank None).

(** The items to write, their gameweeks, and the gameweeks of the others.
    src: src/repositories/entry-event-results-history.ts:18-51 buildCoreHistoryUpsertPlan *)
Definition buildCoreHistoryUpsertPlan (history : list HistoryItem)
    : list HistoryItem * list number * list number :=
  let items := List.filter upsertable history in
  let upsertedEventIds := hi_event <$> items in
  (items, upsertedEventIds,
   List.filter (λ e, negb (existsb (number_eqb e) upsertedEventIds)) (hi_event <$> history)).

(** [COALESCE(excluded.column, column)] *)
Definition coalesce {A : Type} (new old : option A) : option A := match new with Some _ => new | None => old end.

(** src: src/repositories/entry-event-results-history.ts:63-83 buildCoreHistoryConflictSet *)
Definition merge_history (old row : ResultRow) : ResultRow :=
  mkResult (rr_entryId old) (rr_eventId old) (rr_eventPoints row) (rr_eventTransfers row) (rr_eventTransfersCost row)
    (rr_eventNetPoints row) (coalesce (rr_eventBenchPoints row) (rr_eventBenchPoints old)) (rr_eventAutoSubPoints old)
    (coalesce (rr_eventRank row) (rr_eventRank old)) (rr_eventChip old) (rr_playedCaptainElementId old)
    (rr_captainPoints old) (rr_automaticSubstitutions old) (rr_overallPoints row)
    (if rr_overallRank row =? 0 then rr_overallRank old else rr_overallRank row)
    (coalesce (rr_teamValue row) (rr_teamValue old)) (coalesce (rr_bank row) (rr_bank old)) (rr_richSyncedAt old).

(** [for (let index = 0; ...; index += size) chunks.push(rows.slice(index, index + size))]
    src: src/repositories/entry-event-results-history.ts:53-61 chunkCoreHistoryRows *)
Fixpoint chunks_of {A : Type} (fuel : nat) (size : nat) (rows : list A) : list (list A) :=
  match fuel, rows with
  | O, _ | _, [] => []
  | S fuel, _ => take size rows :: chunks_of fuel size (drop size rows)
  end.

Definition CORE_HISTORY_BATCH_SIZE : nat := 250.

(** The chunks one after the other; each is a statement of its own.
    src: src/repositories/entry-event-results.ts:118-130 upsertCoreFromHistory *)
Fixpoint upsert_history_chunks (entryId : Z) (chunks : list (list HistoryItem)) (table : list ResultRow)
    : list ResultRow * result unit :=
  match chunks with
  | [] => (table, Ok ())
  | chunk :: chunks =>
      match mapM (history_row entryId) chunk with
      | None => (table, Throw "ENTRY_EVENT_RESULTS_HISTORY_UPSERT_ERROR")
      | Some rows =>
          match result_upsert merge_history "ENTRY_EVENT_RESULTS_HISTORY_UPSERT_ERROR" rows table with
          | Throw e => (table, Throw e)
          | Ok table => upsert_history_chunks entryId chunks table
          end
      end
  end.

(** src: src/repositories/entry-event-results.ts:109-153 upsertCoreFromHistory *)
Definition upsertCoreFromHistory (entryId : Z) (history : list HistoryItem) (table : list ResultRow)
    : list ResultRow * result (list number * list number) :=
  let '(items, upsertedEventIds, fallbackEventIds) := buildCoreHistoryUpsertPlan history in
  let '(table, written) :=
    upsert_history_chunks entryId (chunks_of (length items) CORE_HISTORY_BATCH_SIZE items) table in
  (table, let* _ := written in Ok (upsertedEventIds, fallbackEventIds)).

(** ** Gameweeks before an entry *)

Definition PRE_ENTRY_OVERALL_RANK : Z := 2147483647.

(** src: src/repositories/entry-event-results.ts:176-186 seedPreEntryBaselines *)
Definition baseline_row (unit : Z * Z) : ResultRow :=
  mkResult unit.1 unit.2 0 0 0 0 None None None None None None None 0 PRE_ENTRY_OVERALL_RANK None None None.

(** [INSERT ... ON CONFLICT DO NOTHING]: the table and the number of rows inserted. *)
Fixpoint insert_baselines (rows table : list ResultRow) : result (list ResultRow * Z) :=
  match rows with
  | [] => Ok (table, 0)
  | row :: rows =>
      reject_if negb (result_checks row) with_code "ENTRY_EVENT_RESULTS_BASELINE_UPSERT_ERROR" ;;
      match find_by result_key (result_key row) table with
      | Some _ => insert_baselines rows table
      | None =>
          reject_if negb (references row) with_code "ENTRY_EVENT_RESULTS_BASELINE_UPSERT_ERROR" ;;
          let* rest := insert_baselines rows (table ++ [row]) in
          Ok (rest.1, rest.2 + 1)
      end
  end.

(** src: src/repositories/entry-event-results.ts:170-196 seedPreEntryBaselines *)
Fixpoint insert_baseline_chunks (chunks : list (list (Z * Z))) (table : list ResultRow)
    : list ResultRow * result Z :=
  match chunks with
  | [] => (table, Ok 0)
  | chunk :: chunks =>
      match insert_baselines (baseline_row <$> chunk) table with
      | Throw e => (table, Throw e)
      | Ok (table, inserted) =>
          let '(table, rest) := insert_baseline_chunks chunks table in
          (table, let* n := rest in Ok (inserted + n))
      end
  end.

(** src: src/repositories/entry-event-results.ts:155-215 seedPreEntryBaselines *)
Definition seedPreEntryBaselines (units : list (Z * Z)) (table : list ResultRow) : list ResultRow * result Z :=
  let uniqueUnits := dedup (List.filter (λ u, (0 <? u.1) && (0 <? u.2)) units) in
  insert_baseline_chunks (chunks_of (length uniqueUnits) 250 uniqueUnits) table.
End results.

(** ** Reading *)

(** The entries without a row synchronised at or after the threshold; the queries go by chunks of 1000.
    src: src/repositories/entry-event-results.ts:326-373 findEntryIdsNeedingRichSync *)
Definition findEntryIdsNeedingRichSync (entryIds : list Z) (eventId : Z) (freshAfter : option Z)
    (table : list ResultRow) : list Z :=
  let uniqueEntryIds := dedup entryIds in
  let fresh r := match freshAfter, rr_richSyncedAt r with
    | Some stamp, Some at_ => to_date stamp <=? at_
    | None, Some _ => true
    | _, None => false
    end in
  let rows chunk := List.filter (λ r, (rr_eventId r =? eventId) && bool_decide (rr_entryId r ∈ chunk) && fresh r) table in
  let syncedEntryIds := concat ((λ chunk, rr_entryId <$> rows chunk) <$>
                                  chunks_of (length uniqueEntryIds) 1000 uniqueEntryIds) in
  List.filter (λ e, bool_decide (e ∉ syncedEntryIds)) uniqueEntryIds.

(** ** Transfers *)

(** src: src/clients/fpl.ts:538-548 TransferSchema *)
Record RawTransfer := mkRawTransfer {
  rt_element_in : number;
  rt_element_in_cost : number;
  rt_element_in_points : option number;
  rt_element_out : number;
  rt_element_out_cost : number;
  rt_element_out_points : option number;
  rt_event : number;
  rt_time : option Z;              (* the instant of the text; [None] when it is not a date *)
}.

(** src: src/db/schemas/platform.schema.ts:2086-2109 entryEventTransfersInCompetition *)
Record TransferRow := mkTransferRow {
  tr_entryId : Z;
  tr_eventId : Z;
  tr_elementInId : option Z;
  tr_elementInCost : option Z;
  tr_elementInPoints : option Z;
  tr_elementInPlayed : option bool;
  tr_elementOutId : option Z;
  tr_elementOutCost : option Z;
  tr_elementOutPoints : option Z;
  tr_transferTime : Z;
}.

#[export] Instance transfer_row_eq_dec : EqDecision TransferRow.
Proof. solve_decision. Defined.

(** src: src/repositories/entry-event-transfers.ts:17-29 transferSignature *)
Definition transferSignature (r : TransferRow) : Z * option Z * option Z * Z :=
  (tr_eventId r, tr_elementInId r, tr_elementOutId r, tr_transferTime r).

(** The business key is unique, with NULLs equal; ids are positive.
    src: src/db/schemas/platform.schema.ts:2167-2181 entryEventTransfersInCompetition *)
Definition transfer_key (r : TransferRow) : Z * (Z * option Z * option Z * Z) := (tr_entryId r, transferSignature r).

Definition transfer_checks (r : TransferRow) : bool :=
  (0 <? tr_entryId r) && (0 <? tr_eventId r) && null_or (λ n, 0 <? n) (tr_elementInId r) &&
  null_or (λ n, 0 <? n) (tr_elementOutId r).

(** The columns of an entry that the synchronisation uses.
    src: src/db/schemas/platform.schema.ts:3497-3525 entriesInCompetition *)
Record EntryRow := mkEntry {
  en_entryId : Z;
  en_transfersSyncedThroughEventId : option Z;
  en_transfersSourceCheckedAt : option Z;
}.

(** The tables of the entries of a season. *)
Record EntryTables := mkEntryTables {
  et_entries : list EntryRow;
  et_results : list ResultRow;
  et_picks : list PickRow;
  et_transfers : list TransferRow;
}.

Definition with_results (l : list ResultRow) (t : EntryTables) : EntryTables :=
  mkEntryTables (et_entries t) l (et_picks t) (et_transfers t).
Definition with_picks (l : list PickRow) (t : EntryTables) : EntryTables :=
  mkEntryTables (et_entries t) (et_results t) l (et_transfers t).
Definition with_transfers (l : list TransferRow) (t : EntryTables) : EntryTables :=
  mkEntryTables (et_entries t) (et_results t) (et_picks t) l.
Definition with_entries (l : list EntryRow) (t : EntryTables) : EntryTables :=
  mkEntryTables l (et_results t) (et_picks t) (et_transfers t).

(** The advisory lock of the entry, then its row.
    src: src/repositories/entry-event-transfers.ts:53-72 lockEntry *)
Definition lockEntry (entryId : Z) (t : EntryTables) : result EntryRow :=
  match List.filter (λ e, en_entryId e =? entryId) (et_entries t) with
  | [entry] => Ok entry
  | _ => Throw "ENTRY_NOT_PERSISTED"
  end.

(** src: src/repositories/entry-event-transfers.ts:74-84 withEntrySeasonSyncTransaction *)
Definition withEntrySeasonSyncTransaction {A : Type} (entryId : Z) (operation : EntryTables → result (EntryTables * A))
    : EntryTables → EntryTables * result A :=
  transaction (λ t, let* _ := lockEntry entryId t in operation t).

Section transfers.
(** The gameweek and the players a row refers to exist. *)
Context (transfer_references : TransferRow → bool).

(** What a row takes from the payload, from the points of the gameweek and from the row it replaces.
    src: src/repositories/entry-event-transfers.ts:108-145 buildTransferReplacementRows *)
Definition transfer_row (entryId eventId : Z) (existing : list TransferRow) (pointsByElement : option (list LiveElement))
    (elementInPlayed : option bool) (defaultPoints : option number) (t : RawTransfer) : option TransferRow :=
  transferTime ← rt_time t;
  event ← int_column 32 (rt_event t);
  elementIn ← int_column 32 (rt_element_in t);
  elementOut ← int_column 32 (rt_element_out t);
  let previous := find_by transferSignature (event, Some elementIn, Some elementOut, transferTime) (rev existing) in
  let isTargetEvent := event =? eventId in
  let points side own old :=
    nullish_or (if isTargetEvent then live ← pointsByElement; points_of live side else None)
      (nullish_or own (nullish_or (of_int <$> (previous ≫= old)) defaultPoints)) in
  inCost ← int_column 32 (rt_element_in_cost t);
  outCost ← int_column 32 (rt_element_out_cost t);
  inPoints ← opt_column (points (rt_element_in t) (rt_element_in_points t) tr_elementInPoints);
  outPoints ← opt_column (points (rt_element_out t) (rt_element_out_points t) tr_elementOutPoints);
  Some (mkTransferRow entryId event (Some elementIn) (Some inCost) inPoints
          (nullish_or (if isTargetEvent then elementInPlayed else None) (previous ≫= tr_elementInPlayed))
          (Some elementOut) (Some outCost) outPoints transferTime).

(** A number the database does not take makes the insertion fail as an invalid time does before it.
    src: src/repositories/entry-event-transfers.ts:86-152 buildTransferReplacementRows *)
Definition buildTransferReplacementRows (entryId eventId : Z) (transfers : list RawTransfer)
    (existing : list TransferRow) (pointsByElement : option (list LiveElement)) (elementInPlayed : option bool)
    (defaultPoints : option number) : option (list TransferRow) :=
  rows ← mapM (transfer_row entryId eventId existing pointsByElement elementInPlayed defaultPoints) transfers;
  Some (js_sort (then_by (by_key tr_transferTime) (by_key tr_eventId)) rows).

(** src: src/repositories/entry-event-transfers.ts:187-190 findEntryIdsNeedingSync *)
Definition behind (targetEventId : Z) (entries : list EntryRow) (entryId : Z) : bool :=
  match find_by en_entryId entryId entries with
  | Some e => match en_transfersSyncedThroughEventId e with Some c => c <? targetEventId | None => true end
  | None => true
  end.

(** The queries go by chunks of 1000.
    src: src/repositories/entry-event-transfers.ts:158-206 findEntryIdsNeedingSync *)
Definition findEntryIdsNeedingSync (entryIds : list Z) (targetEventId : Z) (t : EntryTables) : list Z :=
  let uniqueEntryIds := dedup entryIds in
  concat ((λ chunk, List.filter (behind targetEventId (List.filter (λ e, bool_decide (en_entryId e ∈ chunk)) (et_entries t)))
                      chunk) <$> chunks_of (length uniqueEntryIds) 1000 uniqueEntryIds).

Definition of_entry (entryId : Z) (r : TransferRow) : bool := tr_entryId r =? entryId.

(** [INSERT] of the rows of one statement. *)
Fixpoint insert_transfers (rows table : list TransferRow) : result (list TransferRow) :=
  match rows with
  | [] => Ok table
  | row :: rows =>
      reject_if negb (transfer_checks row && transfer_references row) || bool_decide (transfer_key row ∈ transfer_key <$> table)
        with_code "CONSTRAINT" ;;
      insert_transfers rows (table ++ [row])
  end.

(** The checkpoint and the time of the source, of the entry.
    src: src/repositories/entry-event-transfers.ts:314-329 replaceForEvent *)
Definition checkpoint (through sourceCheckedAt : Z) (e : EntryRow) : EntryRow :=
  mkEntry (en_entryId e) (Some (Z.max (nullish (en_transfersSyncedThroughEventId e) 0) through)) (Some sourceCheckedAt).

(** The body of the transaction: whether the history was accepted.
    src: src/repositories/entry-event-transfers.ts:242-331 replaceForEvent *)
Definition replace_body (entryId eventId through : Z) (transfers : list RawTransfer)
    (pointsByElement : option (list LiveElement)) (elementInPlayed : option bool) (defaultPoints : option number)
    (sourceCheckedAt : Z) (persistEventData : EntryTables → result EntryTables) (t : EntryTables)
    : result (EntryTables * bool) :=
  let* sourceOrder := lockEntry entryId t in
  if match en_transfersSourceCheckedAt sourceOrder with Some winner => sourceCheckedAt <=? winner | None => false end
  then Ok (t, false) else
  let* t := persistEventData t in
  let existing := List.filter (of_entry entryId) (et_transfers t) in
  let others := List.filter (negb ∘ of_entry entryId) (et_transfers t) in
  match buildTransferReplacementRows entryId eventId transfers existing pointsByElement elementInPlayed defaultPoints with
  | None => Throw "INVALID_TRANSFER"
  | Some rows =>
      let* table := insert_transfers rows others in
      let persisted := List.filter (of_entry entryId) table in
      let expected := dedup (transferSignature <$> rows) in
      let actual := dedup (transferSignature <$> persisted) in
      reject_if negb (length actual =? length expected)%nat || existsb (λ k, bool_decide (k ∉ actual)) expected
        with_code "REPLACEMENT_VERIFICATION" ;;
      reject_if negb (is_int4 through) with_code "CONSTRAINT" ;;
      Ok (with_entries (update_where (λ e, en_entryId e =? entryId) (checkpoint through sourceCheckedAt) (et_entries t)).1
            (with_transfers table t), true)
  end.

(** [sourceCheckedAt] is the exact stamp.
    src: src/repositories/entry-event-transfers.ts:208-352 replaceForEvent *)
Definition replaceForEvent (entryId eventId : Z) (transfers : list RawTransfer)
    (pointsByElement : option (list LiveElement)) (elementInPlayed : option bool) (defaultPoints : option number)
    (checkpointThroughEventId : option Z) (sourceCheckedAt : Z) (persistEventData : EntryTables → result EntryTables)
    (t : EntryTables) : EntryTables * result bool :=
  let through := nullish checkpointThroughEventId eventId in
  if (through <? 0) || (eventId <? through) then (t, Throw "CHECKPOINT_EVENT") else
  transaction (replace_body entryId eventId through transfers pointsByElement elementInPlayed defaultPoints
                 (to_date sourceCheckedAt) persistEventData) t.
End transfers.

(** ** What the writers of results keep *)

(** The columns only a rich row sets. *)
Definition rich_part (r : ResultRow)
    : option Z * option jsstr * option Z * option Z * option (list AutomaticSub) :=
  (rr_eventAutoSubPoints r, rr_eventChip r, rr_playedCaptainElementId r, rr_captainPoints r, rr_automaticSubstitutions r).

(** A row of the table: its net points are its points less the cost of its transfers. *)
Definition result_ok (r : ResultRow) : Prop :=
  result_checks r = true ∧ rr_eventNetPoints r = rr_eventPoints r - rr_eventTransfersCost r.

Definition results_ok (table : list ResultRow) : Prop :=
  NoDup (result_key <$> table) ∧ Forall result_ok table.

(** The writers of the table, in any order. *)
Inductive results_step (references : ResultRow → bool) : list ResultRow → list ResultRow → Prop :=
| rs_rich entryId eventId picks live stamp table table' :
    upsertFromPicksAndLive references entryId eventId picks live stamp table = Ok table' →
    results_step references table table'
| rs_history entryId history table :
    results_step references table (upsertCoreFromHistory references entryId history table).1
| rs_baseline units table :
    results_step references table (seedPreEntryBaselines references units table).1.

(** The row of a key has not lost evidence: its time is the same, and then the rich columns are, or later. *)
Definition evidence_kept (table table' : list ResultRow) : Prop :=
  ∀ k r t, find_by result_key k table = Some r → rr_richSyncedAt r = Some t →
    ∃ r' t', find_by result_key k table' = Some r' ∧ rr_richSyncedAt r' = Some t' ∧ t ≤ t' ∧
             (t' = t → rich_part r' = rich_part r).

Lemma find_by_app {A K} `{EqDecision K} (key : A → K) k l l' :
  find_by key k (l ++ l') = match find_by key k l with Some r => Some r | None => find_by key k l' end.
Proof. induction l as [|r l IH]; [done|]. cbn. by destruct (decide _). Qed.

Lemma int_column_exact bits n z : int_column bits n = Some z → is_integer n = true ∧ z = int_value n.
Proof.
  unfold int_column. intros Hz. destruct (is_integer n) eqn:E; [|done]. cbn in Hz.
  destruct (_ && _); [|done]. by injection Hz as <-.
Qed.

Lemma int_column_range n z : int_column 32 n = Some z → - 2 ^ 31 ≤ z < 2 ^ 31.
Proof.
  unfold int_column. intros Hz. destruct (is_integer n); [|done]. cbn in Hz.
  destruct (_ && _) eqn:Hr; [|done]. injection Hz as <-. change (32 - 1) with 31 in Hr. boolsolve. lia.
Qed.

Lemma number_opp_integer n : is_integer n = true → is_integer (number_opp n) = true ∧ int_value (number_opp n) = - int_value n.
Proof.
  destruct n as [| |m e]; [done..|]. unfold is_integer, int_value, number_opp.
  destruct (Z.leb_spec 0 e); cbn [orb]; [split; [done|lia]|]. intros Hmod%Z.eqb_eq.
  assert (0 < 2 ^ (- e)) by (apply Z.pow_pos_nonneg; lia).
  rewrite Z.mod_opp_l_z, Z.div_opp_l_z by lia. done.
Qed.

(** Net points are exact. *)
Lemma net_points a b x y z :
  int_column 32 a = Some x → int_column 32 b = Some y → int_column 32 (number_add a (number_opp b)) = Some z → z = x - y.
Proof.
  intros Ha Hb Hz. pose proof (int_column_range _ _ Ha). pose proof (int_column_range _ _ Hb).
  apply int_column_exact in Ha as [Ha ->], Hb as [Hb ->], Hz as [_ ->].
  destruct (number_opp_integer b Hb) as [Ho Hv].
  rewrite (proj2 (number_add_exact a (number_opp b) Ha Ho ltac:(rewrite Hv; lia))), Hv. lia.
Qed.

Ltac bind_some H :=
  repeat (let x := fresh "x" in let Hx := fresh "Hx" in apply bind_Some in H as (x & Hx & H)).

Lemma rich_row_facts entryId eventId picks live subs stamp row :
  rich_row entryId eventId picks live subs stamp = Some row →
  result_key row = (entryId, eventId) ∧ rr_richSyncedAt row = Some (to_date stamp) ∧
  rr_eventNetPoints row = rr_eventPoints row - rr_eventTransfersCost row.
Proof.
  unfold rich_row. intros H. bind_some H. injection H as <-. split_and!; [done|done|]. cbn.
  by eapply net_points.
Qed.

Lemma history_row_facts entryId item row :
  history_row entryId item = Some row →
  rr_entryId row = entryId ∧ rr_eventNetPoints row = rr_eventPoints row - rr_eventTransfersCost row ∧
  rr_richSyncedAt row = None.
Proof. unfold history_row. intros H. bind_some H. injection H as <-. split_and!; [done| |done]. cbn. by eapply net_points. Qed.

Lemma merge_rich_cases old row : merge_rich old row = row ∨ merge_rich old row = old.
Proof. unfold merge_rich. destruct (rr_richSyncedAt old), (rr_richSyncedAt row); try case_match; auto. Qed.

Lemma merge_rich_key old row : result_key old = result_key row → result_key (merge_rich old row) = result_key row.
Proof. by destruct (merge_rich_cases old row) as [->| ->]. Qed.

Lemma merge_history_key old row : result_key old = result_key row → result_key (merge_history old row) = result_key row.
Proof. done. Qed.

Lemma merge_history_net old row :
  rr_eventNetPoints row = rr_eventPoints row - rr_eventTransfersCost row →
  rr_eventNetPoints (merge_history old row) = rr_eventPoints (merge_history old row) - rr_eventTransfersCost (merge_history old row).
Proof. done. Qed.

Section keep.
Context (references : ResultRow → bool).

(** What one statement keeps, whatever its SET list. *)
Lemma result_upsert_keeps merge code rows table table' :
  (∀ old row, result_key old = result_key row → result_key (merge old row) = result_key row) →
  (∀ old row, row ∈ rows → result_ok old → result_ok row →
     rr_eventNetPoints (merge old row) = rr_eventPoints (merge old row) - rr_eventTransfersCost (merge old row)) →
  (∀ r, r ∈ rows → rr_eventNetPoints r = rr_eventPoints r - rr_eventTransfersCost r) →
  result_upsert references merge code rows table = Ok table' →
  NoDup (result_key <$> rows) ∧ table' = upsert_batch result_key merge rows table ∧
  (results_ok table → results_ok table').
Proof.
  intros Hkey Hnet Hrows H. unfold result_upsert in H. apply result_bind_ok in H as ([t1 ws] & H & [= <-]).
  pose proof H as Hraw. apply upsert_returning_ok in H as (Hnd & -> & -> & Hchecks & _); [|done].
  split_and!; [done|done|]. intros [Hkeys Hall]. cbn [fst]. split; [by apply upsert_batch_NoDup|].
  apply Forall_forall. intros x Hx. rewrite Forall_forall in Hall.
  assert (∀ r, r ∈ rows → result_checks r = true) as Hproposed.
  { unfold upsert_returning in Hraw. apply throw_when_ok in Hraw as [_ Hraw].
    apply result_bind_ok in Hraw as ([t2 w2] & Hraw & _). clear -Hraw. revert table t2 w2 Hraw.
    induction rows as [|r rows IH]; intros table t2 w2 Hraw q Hq; [by apply elem_of_nil in Hq|].
    cbn in Hraw. apply throw_when_ok in Hraw as [Hc Hraw]. apply result_bind_ok in Hraw as ([t3 w3] & Hraw & _).
    apply elem_of_cons in Hq as [->|Hq]; [by boolsolve|]. by eapply IH. }
  apply elem_of_upsert_batch in Hx as [(r & Hr & ->)|[Hx _]]; [|by apply Hall|done..].
  split.
  - rewrite forallb_forall in Hchecks. apply Hchecks. apply list_elem_of_In. by apply list_elem_of_fmap_2.
  - unfold written_row. destruct (find_by result_key (result_key r) table) as [old|] eqn:E; [|by apply Hrows].
    apply find_by_Some in E as [Hin _]. apply Hnet; [done|by apply Hall|]. split; [by apply Hproposed|by apply Hrows].
Qed.

Lemma batch_evidence merge rows table :
  (∀ old row, result_key old = result_key row → result_key (merge old row) = result_key row) →
  (∀ old row t, row ∈ rows → rr_richSyncedAt old = Some t →
     ∃ t', rr_richSyncedAt (merge old row) = Some t' ∧ t ≤ t' ∧ (t' = t → rich_part (merge old row) = rich_part old)) →
  NoDup (result_key <$> rows) → evidence_kept table (upsert_batch result_key merge rows table).
Proof.
  intros Hkey Hmerge Hnd k r t Hf Ht. rewrite find_by_upsert_batch by done.
  destruct (find_by result_key k rows) as [row|] eqn:E; [|by exists r, t].
  apply find_by_Some in E as [Hin <-]. unfold written_row. rewrite Hf.
  destruct (Hmerge r row t Hin Ht) as (t' & ? & ? & ?). by exists (merge r row), t'.
Qed.

Lemma evidence_kept_refl table : evidence_kept table table.
Proof. intros k r t Hf Ht. by exists r, t. Qed.

Lemma evidence_kept_trans a b c : evidence_kept a b → evidence_kept b c → evidence_kept a c.
Proof.
  intros Hab Hbc k r t Hf Ht. destruct (Hab k r t Hf Ht) as (r1 & t1 & Hf1 & Ht1 & Hle & Heq).
  destruct (Hbc k r1 t1 Hf1 Ht1) as (r2 & t2 & Hf2 & Ht2 & Hle2 & Heq2). exists r2, t2. split_and!; [done|done|lia|].
  intros ->. assert (t1 = t) as -> by lia. rewrite Heq2 by done. by apply Heq.
Qed.

Lemma upsertFromPicksAndLive_inv entryId eventId picks live stamp table table' :
  upsertFromPicksAndLive references entryId eventId picks live stamp table = Ok table' →
  isEntryPicksPayloadForEvent (response_json (rp_picks picks)) (of_int eventId) = true ∧
  isCompleteEntryPicks (picks_json (pr_picks (rp_picks picks))) = true ∧
  ∃ row, rich_row entryId eventId picks live (rp_automatic_subs picks) stamp = Some row ∧
    result_upsert references merge_rich "ENTRY_EVENT_RESULTS_UPSERT_ERROR" [row] table = Ok table'.
Proof.
  unfold upsertFromPicksAndLive. intros H. apply throw_when_ok in H as [He H]. apply throw_when_ok in H as [Hc H].
  apply throw_when_ok in H as [_ H]. apply result_bind_ok in H as (subs & Hsubs & H).
  unfold validateAutomaticSubs in Hsubs. apply result_bind_ok in Hsubs as (sets & _ & Hsubs).
  apply throw_when_ok in Hsubs as [_ [= <-]]. apply negb_false_iff in He, Hc. split_and!; [done|done|].
  destruct (rich_row _ _ _ _ _ _) as [row|]; [|done]. by exists row.
Qed.

Lemma rich_keeps entryId eventId picks live stamp table table' :
  upsertFromPicksAndLive references entryId eventId picks live stamp table = Ok table' →
  (results_ok table → results_ok table') ∧ evidence_kept table table'.
Proof.
  intros (_ & _ & row & Hrow & H)%upsertFromPicksAndLive_inv. apply rich_row_facts in Hrow as (Hk & Ht & Hnet).
  apply result_upsert_keeps in H as (Hnd & -> & Hok).
  - split; [done|]. apply batch_evidence; [apply merge_rich_key| |done].
    intros old r t ->%list_elem_of_singleton Hold. unfold merge_rich. rewrite Hold, Ht.
    destruct (Z.ltb_spec t (to_date stamp)); [|by exists t]. exists (to_date stamp). split_and!; [done|lia|lia].
  - apply merge_rich_key.
  - intros old r ->%list_elem_of_singleton [_ Hold] [_ Hr]. by destruct (merge_rich_cases old row) as [->| ->].
  - by intros r ->%list_elem_of_singleton.
Qed.

Lemma history_keeps entryId chunks table :
  (results_ok table → results_ok (upsert_history_chunks references entryId chunks table).1) ∧
  evidence_kept table (upsert_history_chunks references entryId chunks table).1.
Proof.
  revert table. induction chunks as [|chunk chunks IH]; intros table; cbn [upsert_history_chunks];
    [split; [done|apply evidence_kept_refl]|].
  destruct (mapM _ chunk) as [rows|] eqn:Hrows; [|split; [done|apply evidence_kept_refl]].
  destruct (result_upsert _ _ _ rows table) as [t1|] eqn:H; [|split; [done|apply evidence_kept_refl]].
  assert (∀ r, r ∈ rows → rr_eventNetPoints r = rr_eventPoints r - rr_eventTransfersCost r) as Hnet.
  { intros r Hr. apply mapM_Some, Forall2_flip in Hrows. apply list_elem_of_lookup in Hr as [n Hn].
    destruct (Forall2_lookup_l _ _ _ _ _ Hrows Hn) as (item & _ & Hi). by apply history_row_facts in Hi as (_ & ? & _). }
  apply result_upsert_keeps in H as (Hnd & -> & Hok); [|apply merge_history_key| |done].
  - destruct (IH (upsert_batch result_key merge_history rows table)) as [Hok2 Hev]. split; [auto|].
    eapply evidence_kept_trans; [|done]. apply batch_evidence; [apply merge_history_key| |done].
    intros old r t _ Hold. exists t. split_and!; [done|lia|done].
  - intros old r Hr _ _. by apply merge_history_net, Hnet.
Qed.

Lemma baselines_keep rows table table' n :
  (∀ r, r ∈ rows → rr_eventNetPoints r = rr_eventPoints r - rr_eventTransfersCost r) →
  insert_baselines references rows table = Ok (table', n) →
  (results_ok table → results_ok table') ∧ evidence_kept table table'.
Proof.
  revert table table' n. induction rows as [|row rows IH]; intros table table' n Hnet H; cbn in H.
  { injection H as <- _. split; [done|apply evidence_kept_refl]. }
  apply throw_when_ok in H as [Hc H]. apply negb_false_iff in Hc.
  assert (∀ r, r ∈ rows → rr_eventNetPoints r = rr_eventPoints r - rr_eventTransfersCost r) as Hnet'
    by (intros r Hr; apply Hnet; by right).
  destruct (find_by result_key (result_key row) table) as [old|] eqn:E; [by eapply IH|].
  apply throw_when_ok in H as [_ H]. apply result_bind_ok in H as ([t1 m] & H & [= <- _]).
  apply IH in H as [Hok Hev]; [|done]. split.
  - intros [Hnd Hall]. apply Hok. apply find_by_None in E. split.
    + rewrite fmap_app. apply NoDup_app. split; [done|]. split; [|apply NoDup_singleton].
      intros k Hk ->%list_elem_of_singleton. done.
    + apply Forall_app. split; [done|]. constructor; [|done]. split; [done|]. apply Hnet. by left.
  - eapply evidence_kept_trans; [|done]. intros k r t Hf Ht. exists r, t. split_and!; [|done|lia|done].
    rewrite find_by_app, Hf. done.
Qed.

Lemma baseline_chunks_keep chunks table :
  (results_ok table → results_ok (insert_baseline_chunks references chunks table).1) ∧
  evidence_kept table (insert_baseline_chunks references chunks table).1.
Proof.
  revert table. induction chunks as [|chunk chunks IH]; intros table; cbn [insert_baseline_chunks];
    [split; [done|apply evidence_kept_refl]|].
  destruct (insert_baselines _ _ table) as [[t1 n]|] eqn:H; [|split; [done|apply evidence_kept_refl]].
  apply baselines_keep in H as [Hok Hev].
  - destruct (IH t1) as [Hok2 Hev2]. destruct (insert_baseline_chunks _ chunks t1) as [t2 rest]. cbn [fst] in *.
    split; [auto|by eapply evidence_kept_trans].
  - by intros r (u & -> & _)%list_elem_of_fmap.
Qed.

Lemma results_step_keeps table table' :
  results_step references table table' → (results_ok table → results_ok table') ∧ evidence_kept table table'.
Proof.
  destruct 1 as [entryId eventId picks live stamp table table' H|entryId history table|units table].
  - by eapply rich_keeps.
  - unfold upsertCoreFromHistory. destruct (buildCoreHistoryUpsertPlan history) as [[items ups] fallback].
    pose proof (history_keeps entryId (chunks_of (length items) CORE_HISTORY_BATCH_SIZE items) table) as H.
    by destruct (upsert_history_chunks _ _ _ table).
  - apply baseline_chunks_keep.
Qed.
End keep.

(** ** What the queries find *)

Lemma chunks_concat {A} size fuel (l : list A) :
  (0 < size)%nat → (length l ≤ fuel)%nat → concat (chunks_of fuel size l) = l.
Proof.
  intros Hs. revert l. induction fuel as [|fuel IH]; intros [|x l] Hl; try done; [cbn in Hl; lia|].
  cbn [chunks_of concat]. rewrite IH; [by rewrite take_drop|]. rewrite length_drop. cbn in *. lia.
Qed.

(** A query by chunks reaches every element. *)
Lemma elem_of_chunk {A} size (l : list A) x :
  (0 < size)%nat → x ∈ l ↔ ∃ chunk, chunk ∈ chunks_of (length l) size l ∧ x ∈ chunk.
Proof.
  intros Hs. rewrite <-(chunks_concat size (length l) l) at 1 by done || done.
  rewrite list_elem_of_In, in_concat. setoid_rewrite list_elem_of_In. done.
Qed.

Definition fresh_row (freshAfter : Z) (r : ResultRow) : Prop :=
  ∃ at_, rr_richSyncedAt r = Some at_ ∧ to_date freshAfter ≤ at_.

(** An entry needs no rich synchronisation when it has a fresh row. *)
Lemma rich_sync_spec entryIds eventId freshAfter table e :
  e ∈ entryIds →
  e ∉ findEntryIdsNeedingRichSync entryIds eventId (Some freshAfter) table ↔
  ∃ r, r ∈ table ∧ result_key r = (e, eventId) ∧ fresh_row freshAfter r.
Proof.
  intros He. unfold findEntryIdsNeedingRichSync. cbv zeta. rewrite elem_of_filter_bool, elem_of_dedup, bool_decide_eq_true.
  match goal with |- context [e ∉ ?l] => assert (e ∈ l ↔
    ∃ r, r ∈ table ∧ result_key r = (e, eventId) ∧ fresh_row freshAfter r) as Hiff; [|destruct (decide (e ∈ l)); naive_solver] end.
  rewrite list_elem_of_In, in_concat. split.
  - intros (l & Hl & Hin). apply list_elem_of_In, list_elem_of_fmap in Hl as (chunk & -> & _).
    apply list_elem_of_In, list_elem_of_fmap in Hin as (r & -> & Hr). apply list_elem_of_In, filter_In in Hr as [Hr Hc].
    boolsolve. exists r. split_and!; [by apply list_elem_of_In|unfold result_key; congruence|].
    destruct (rr_richSyncedAt r) as [at_|] eqn:Ha; [|done]. exists at_. split; [done|]. lia.
  - intros (r & Hr & [= Hre Hrv] & at_ & Ha & Hle).
    destruct (proj1 (elem_of_chunk 1000 (dedup entryIds) e ltac:(lia))) as (chunk & Hchunk & Hin); [by apply elem_of_dedup|].
    eexists. split; [apply list_elem_of_In, list_elem_of_fmap; by exists chunk|].
    apply list_elem_of_In, list_elem_of_fmap. exists r. split; [done|]. apply list_elem_of_In, filter_In.
    split; [by apply list_elem_of_In|]. rewrite Ha, Hrv, Z.eqb_refl, Hre. rewrite bool_decide_eq_true_2 by done.
    by apply Z.leb_le.
Qed.

Lemma find_by_filter_chunk (entries : list EntryRow) (chunk : list Z) e :
  e ∈ chunk → find_by en_entryId e (List.filter (λ r, bool_decide (en_entryId r ∈ chunk)) entries) = find_by en_entryId e entries.
Proof.
  intros He. induction entries as [|r l IH]; [done|]. cbn. destruct (decide (en_entryId r = e)) as [<-|Hne].
  - rewrite bool_decide_eq_true_2 by done. cbn. by rewrite decide_True.
  - destruct (bool_decide _); cbn; [by rewrite decide_False|done].
Qed.

(** An entry needs its transfers when its checkpoint is before the gameweek. *)
Lemma transfers_sync_spec entryIds target t e :
  e ∈ findEntryIdsNeedingSync entryIds target t ↔ e ∈ entryIds ∧ behind target (et_entries t) e = true.
Proof.
  assert (∀ chunk : list Z, e ∈ chunk → behind target (List.filter (λ r, bool_decide (en_entryId r ∈ chunk)) (et_entries t)) e =
    behind target (et_entries t) e) as Hb by (intros chunk He; unfold behind; by rewrite find_by_filter_chunk).
  unfold findEntryIdsNeedingSync. cbv zeta. rewrite list_elem_of_In, in_concat, <-(elem_of_dedup e entryIds).
  rewrite (elem_of_chunk 1000 (dedup entryIds)) by lia. split.
  - intros (l & Hl & Hin). apply list_elem_of_In, list_elem_of_fmap in Hl as (chunk & -> & Hchunk).
    apply filter_In in Hin as [Hin Hbe]. apply list_elem_of_In in Hin. rewrite Hb in Hbe by done. split; [by exists chunk|done].
  - intros [(chunk & Hchunk & Hin) Hbe]. eexists. split; [apply list_elem_of_In, list_elem_of_fmap; by exists chunk|].
    apply filter_In. split; [by apply list_elem_of_In|]. by rewrite Hb.
Qed.

Section replacing.
Context (transfer_references : TransferRow → bool).

Lemma insert_transfers_ok rows table table' :
  insert_transfers transfer_references rows table = Ok table' → table' = table ++ rows.
Proof.
  revert table. induction rows as [|row rows IH]; intros table; cbn; [intros [= <-]; by rewrite app_nil_r|].
  intros H. apply throw_when_ok in H as [_ H]. apply IH in H as ->. by rewrite <-app_assoc.
Qed.

Lemma transfer_row_entry entryId eventId existing points played default t row :
  transfer_row entryId eventId existing points played default t = Some row → tr_entryId row = entryId.
Proof. unfold transfer_row. intros H. bind_some H. by injection H as <-. Qed.

Lemma replacement_entry entryId eventId transfers existing points played default rows row :
  buildTransferReplacementRows entryId eventId transfers existing points played default = Some rows →
  row ∈ rows → tr_entryId row = entryId.
Proof.
  unfold buildTransferReplacementRows. intros H Hrow. apply bind_Some in H as (l & Hl & [= <-]).
  apply elem_of_js_sort in Hrow. apply mapM_Some, Forall2_flip in Hl. apply list_elem_of_lookup in Hrow as [n Hn].
  destruct (Forall2_lookup_l _ _ _ _ _ Hl Hn) as (t & _ & Ht). by eapply transfer_row_entry.
Qed.

Lemma lockEntry_ok entryId t entry :
  lockEntry entryId t = Ok entry → List.filter (λ e, en_entryId e =? entryId) (et_entries t) = [entry].
Proof. unfold lockEntry. destruct (List.filter _ _) as [|? [|]]; by intros [= ->]. Qed.

(** Reading the entry that was locked, after its checkpoint. *)
Lemma find_checkpoint entryId through at_ entries entry e :
  List.filter (λ e, en_entryId e =? entryId) entries = [entry] →
  find_by en_entryId e (update_where (λ e, en_entryId e =? entryId) (checkpoint through at_) entries).1 =
  if decide (e = entryId) then Some (checkpoint through at_ entry) else find_by en_entryId e entries.
Proof.
  intros Hf. rewrite find_by_update by done. destruct (decide (e = entryId)) as [->|Hne].
  - assert (find_by en_entryId entryId entries = Some entry) as ->.
    { clear -Hf. induction entries as [|r l IH]; [done|]. cbn in *. destruct (Z.eqb_spec (en_entryId r) entryId).
      - injection Hf as -> _. by rewrite decide_True.
      - rewrite decide_False by done. by apply IH. }
    assert (entry ∈ List.filter (λ e, en_entryId e =? entryId) entries) as Hin by (rewrite Hf; by left).
    apply list_elem_of_In, filter_In in Hin as [_ Hin]. cbn. by rewrite Hin.
  - destruct (find_by en_entryId e entries) as [r|] eqn:E; [|done]. cbn. apply find_by_Some in E as [_ <-].
    by rewrite (proj2 (Z.eqb_neq _ _) Hne).
Qed.

(** A history that is accepted is the one stored, and only that entry changes. *)
Lemma replace_ok entryId eventId transfers points played default through stamp t t' :
  replaceForEvent transfer_references entryId eventId transfers points played default through stamp Ok t = (t', Ok true) →
  ∃ entry rows,
    lockEntry entryId t = Ok entry ∧
    match en_transfersSourceCheckedAt entry with Some winner => winner < to_date stamp | None => True end ∧
    buildTransferReplacementRows entryId eventId transfers (List.filter (of_entry entryId) (et_transfers t)) points played
      default = Some rows ∧
    et_transfers t' = List.filter (negb ∘ of_entry entryId) (et_transfers t) ++ rows ∧
    et_results t' = et_results t ∧ et_picks t' = et_picks t ∧
    ∀ e, find_by en_entryId e (et_entries t') =
         if decide (e = entryId) then Some (checkpoint (nullish through eventId) (to_date stamp) entry)
         else find_by en_entryId e (et_entries t).
Proof.
  unfold replaceForEvent. destruct (_ || _); [done|]. rewrite transaction_ok. unfold replace_body. intros H.
  apply result_bind_ok in H as (entry & Hlock & H).
  destruct (match en_transfersSourceCheckedAt entry with Some w => to_date stamp <=? w | None => false end) eqn:Hw; [done|].
  cbn [result_bind] in H. destruct (buildTransferReplacementRows _ _ _ _ _ _ _) as [rows|] eqn:Hrows; [|done].
  apply result_bind_ok in H as (table & Hins & H). apply insert_transfers_ok in Hins as ->.
  apply throw_when_ok in H as [_ H]. apply throw_when_ok in H as [_ [= <-]].
  exists entry, rows. split_and!; [done| |done|done|done|done|].
  - destruct (en_transfersSourceCheckedAt entry); [by apply Z.leb_gt|done].
  - intros e. apply find_checkpoint. by apply lockEntry_ok.
Qed.
End replacing.

(** C13: whatever the order in which payloads, histories and baselines are written, the table of results has one row for an
    entry and gameweek, its net points are its points less the cost of its transfers, and no evidence is lost: the time of a
    rich row only grows, and its captain, chip and substitutions change only with it. *)
Theorem results_keep_evidence references table table' :
  rtc (results_step references) table table' →
  (results_ok table → results_ok table') ∧ evidence_kept table table'.
Proof.
  induction 1 as [table|table t1 table' Hstep _ [Hok Hev]]; [split; [done|apply evidence_kept_refl]|].
  apply results_step_keeps in Hstep as [Hok1 Hev1]. split; [auto|by eapply evidence_kept_trans].
Qed.

(** ** Two payloads of an entry, the older one written last, and a history *)

Definition sample_rich : RichPicks := {|
  rp_picks := EntryPicks.sample_response; rp_points := of_int 60; rp_total_points := of_int 400; rp_rank := Some (of_int 9);
  rp_overall_rank := Some (of_int 90); rp_bank := Some (of_int 5); rp_value := Some (of_int 1000);
  rp_points_on_bench := Some (of_int 3); rp_automatic_subs := [mkSub 42 112 105 7] |}.

Definition sample_lives : list LiveElement := (λ id, mkElement (of_int id) (of_int (id - 100))) <$> seqZ 101 15.

Definition sample_history : list HistoryItem :=
  [mkHistoryItem (of_int 7) (of_int 61) (of_int 401) None None None None (Some (of_int 1)) (Some (of_int 4)) None].

Definition written (r : result (list ResultRow)) : list ResultRow := match r with Ok t => t | Throw _ => [] end.
Definition sample_newer : list ResultRow :=
  Eval vm_compute in written (upsertFromPicksAndLive (λ _, true) 42 7 sample_rich sample_lives 5000000 []).

Example sample_rows :
  (λ r, (rr_eventPoints r, rr_eventNetPoints r, rr_captainPoints r, rr_richSyncedAt r)) <$>
    (upsertCoreFromHistory (λ _, true) 42 sample_history sample_newer).1 = [(61, 57, Some 2, Some 5000)].
Proof. vm_compute. reflexivity. Qed.

Lemma results_keep_evidence_witness :
  ∃ table, rtc (results_step (λ _, true)) [] table ∧ results_ok table ∧
    ∃ r t, find_by result_key (42, 7) table = Some r ∧ rr_richSyncedAt r = Some t ∧ 5000 ≤ t.
Proof.
  assert (upsertFromPicksAndLive (λ _, true) 42 7 sample_rich sample_lives 5000000 [] = Ok sample_newer) as Hnew
    by (vm_compute; reflexivity).
  assert (upsertFromPicksAndLive (λ _, true) 42 7 sample_rich sample_lives 4000000 sample_newer = Ok sample_newer) as Hold
    by (vm_compute; reflexivity).
  pose proof (rs_rich (λ _, true) _ _ _ _ _ _ _ Hnew) as Hstep1.
  pose proof (rs_rich (λ _, true) _ _ _ _ _ _ _ Hold) as Hstep2.
  pose proof (rs_history (λ _, true) 42 sample_history sample_newer) as Hstep3.
  eexists. split; [exact (rtc_l _ _ _ _ Hstep1 (rtc_l _ _ _ _ Hstep2 (rtc_once _ _ Hstep3)))|].
  destruct (results_keep_evidence _ _ _ (rtc_l _ _ _ _ Hstep1 (rtc_l _ _ _ _ Hstep2 (rtc_once _ _ Hstep3)))) as [Hok _].
  split; [apply Hok; split; constructor|].
  destruct (results_keep_evidence _ _ _ (rtc_l _ _ _ _ Hstep2 (rtc_once _ _ Hstep3))) as [_ Hev].
  destruct (find_by result_key (42, 7) sample_newer) as [r|] eqn:E; [|vm_compute in E; discriminate E].
  assert (rr_richSyncedAt r = Some 5000) as Ht by (vm_compute in E; injection E as <-; reflexivity).
  destruct (Hev (42, 7) r 5000 E Ht) as (r' & t' & Hf & Ht' & Hle & _).
  exists r', t'. split; [exact Hf|]. split; [exact Ht'|exact Hle].
Defined.
