(* ===== verification/EventResults.v ===== *)
(** * The results of a gameweek ([src/services/tournament-event-results.service.ts])

    Before tournaments are scored, every entry of an active tournament needs a fresh result row, its
    picks and its transfers.  The sync plans what is missing, writes results and then transfers, audits
    the tables, and succeeds only when nothing is missing.  Entries are written by a bounded pool; each
    writes its own rows under its own lock, and the model writes them in the order of the list.  The
    timeouts of the calls are not modelled: a call answers or fails. *)

From S2P Require Import Prelude JsCollections JsNumber JsDate Json Postgres EntryPicks EntryResults.
From S2P Require Import CoreEntities FplStore EventLives LiveFacts Redis DataPublication.

(** ** What the sync is given *)

(** A tournament with the instant its standings were ready, and its entries. *)
Record TournamentRow := mkTournamentRow {
  tn_id : Z;
  tn_active : bool;
  tn_standingsReadyAt : option jsstr;
  tn_entryIds : list Z;
}.

(** The tables and the Redis store. *)
Record ResultsWorld {S : Type} := mkResultsWorld {
  rw_fpl : FplTables;
  rw_entries : EntryTables;
  rw_tournaments : list TournamentRow;
  rw_redis : S;
}.
Arguments ResultsWorld : clear implicits.
Arguments mkResultsWorld {S}.

Definition with_entry_tables {S} (t : EntryTables) (w : ResultsWorld S) : ResultsWorld S :=
  mkResultsWorld (rw_fpl w) t (rw_tournaments w) (rw_redis w).

(** What the FPL API answers, and the ordering timestamps of the database. *)
Record ResultsContext := mkResultsContext {
  rc_seasonCode : jsstr;
  rc_ordering : Z;
  rc_transferOrdering : Z;
  rc_entryEventPicks : Z → result RichPicks;
  rc_entryTransfers : Z → result (list RawTransfer);
  rc_eventLive : result (list LiveElement);
}.

(** src: src/services/tournament-event-results.service.ts:41-56 TournamentEventResultsSyncOptions *)
Record SyncOptions := mkSyncOptions {
  so_live : option (list LiveElement);
  so_skipTransfers : bool;
  so_transfersByEntry : option (list (Z * list RawTransfer));
  so_transferSourceCheckedAt : option Z;
  so_sourceCheckedAt : option Z;
  so_freshAfter : option Z;
  so_perEntryMutationScopes : bool;
}.

(** src: src/services/tournament-event-results.service.ts:58-63 TournamentResultWorkSummary *)
Record WorkSummary := mkSummary {
  ws_totalEntries : Z;
  ws_synced : Z;
  ws_requiredUnits : Z;
  ws_reusedUnits : Z;
  ws_succeededUnits : Z;
  ws_finalizationTargets : list (Z * jsstr * Z);
}.

Definition units_of {A : Type} (l : list A) : Z := Z.of_nat (length l).

Definition no_work : WorkSummary := mkSummary 0 0 0 0 0 [].

(** ** Plans *)

(** src: src/services/tournament-event-results.service.ts:76-79 freshEntryIds *)
Definition freshEntryIds (entryIds staleEntryIds : list Z) : list Z :=
  dedup (List.filter (λ e, bool_decide (e ∉ staleEntryIds)) entryIds).

(** src: src/services/tournament-event-results.service.ts:93-116 planTournamentEventSync *)
Definition planTournamentEventSync (entryIds freshResultEntryIds persistedPickEntryIds staleTransferEntryIds : list Z)
    (skipTransfers : bool) : list Z * list Z * Z :=
  let isIn l (e : Z) := bool_decide (e ∈ l) in
  let requiredResultEntryIds :=
    List.filter (λ e, negb (isIn freshResultEntryIds e) || negb (isIn persistedPickEntryIds e)) entryIds in
  let requiredTransferEntryIds := if skipTransfers then [] else List.filter (isIn staleTransferEntryIds) entryIds in
  let reusedUnits := units_of entryIds - units_of requiredResultEntryIds +
    (if skipTransfers then 0 else units_of entryIds - units_of requiredTransferEntryIds) in
  (requiredResultEntryIds, requiredTransferEntryIds, reusedUnits).

(** ** Live points *)

(** The exact time at which the data of a final gameweek was checked.
    src: src/repositories/events.ts:160-189 findDataCheckedAtExact *)
Definition findDataCheckedAtExact (eventId : Z) (fpl : FplTables) : option Z :=
  event ← find_by event_id eventId (ft_events fpl);
  if ev_finished (er_event event) && ev_dataChecked (er_event event) then er_dataCheckedAt event else None.

Definition final_elements (eventId : Z) (fpl : FplTables) : list LiveElement :=
  (λ l, mkElement (of_int (el_elementId l)) (of_int (el_totalPoints l))) <$> findFinalizedByEventId eventId fpl.

Section sync.
Context {S V : Type} `{!Codec V} `{!Redis S V}.
Implicit Types (w : ResultsWorld S) (t : EntryTables).

(** A member that is not a number is read as NaN. *)
Definition number_member (name : string) (j : json) : number :=
  match j with
  | JObject o => match map_get (js name) o with Some (JNumber n) => n | _ => NaN end
  | _ => NaN
  end.

(** The elements of the live snapshot in Redis.
    src: src/cache/live-snapshot-cache.ts:108-135 readLiveSnapshotCache *)
Definition cached_elements (seasonCode : jsstr) (eventId : Z) (r : S) : result (option (list LiveElement)) :=
  let* publication := readActiveDataPublication (mkScope DatasetLive seasonCode (Some eventId)) r r in
  Ok (match publication with
      | None => None
      | Some (manifest, items) =>
          match map_get (js "eventLive") items, map_get (js "fixtures") items with
          | Some (JArray lives), Some (JArray _) =>
              if bool_decide (mf_state manifest ∈ [PScheduled; PLive; PSettled])
              then Some ((λ l, mkElement (number_member "elementId" l) (number_member "totalPoints" l)) <$> lives)
              else None
          | _, _ => None
          end
      end).

(** src: src/services/tournament-event-results.service.ts:118-176 resolveEventPointsPayload *)
Definition resolveEventPointsPayload (c : ResultsContext) (eventId : Z) (provided : option (list LiveElement)) w
    : result (list LiveElement) :=
  match provided with
  | Some live => Ok live
  | None =>
      let finalized := final_elements eventId (rw_fpl w) in
      match findDataCheckedAtExact eventId (rw_fpl w) with
      | Some _ => if is_nil finalized then rc_eventLive c else Ok finalized
      | None =>
          let* cached := cached_elements (rc_seasonCode c) eventId (rw_redis w) in
          match cached with
          | Some (_ :: _ as live) => Ok live
          | _ => if is_nil finalized then rc_eventLive c else Ok finalized
          end
      end
  end.

(** ** One entry *)

Definition entry_exists t (entryId : Z) : bool := bool_decide (entryId ∈ en_entryId <$> et_entries t).
Definition event_exists (fpl : FplTables) (eventId : Z) : bool := bool_decide (eventId ∈ event_id <$> ft_events fpl).
Definition player_exists (fpl : FplTables) (elementId : Z) : bool := bool_decide (elementId ∈ player_id <$> ft_players fpl).

(** The foreign keys of the three tables.
    src: src/db/schemas/platform.schema.ts:3049-3063 entryEventResultsInCompetition *)
Definition result_references (fpl : FplTables) t (r : ResultRow) : bool :=
  entry_exists t (rr_entryId r) && event_exists fpl (rr_eventId r) && null_or (player_exists fpl) (rr_playedCaptainElementId r).

Definition pick_references (fpl : FplTables) t (r : PickRow) : bool :=
  entry_exists t (ep_entryId r) && event_exists fpl (ep_eventId r) && player_exists fpl (ep_elementId r).

Definition transfer_refs (fpl : FplTables) (r : TransferRow) : bool :=
  event_exists fpl (tr_eventId r) && null_or (player_exists fpl) (tr_elementInId r) &&
  null_or (player_exists fpl) (tr_elementOutId r).

(** src: src/services/tournament-event-results.service.ts:245-261 syncTournamentEventResultsForEntryIds *)
Definition persist_results (fpl : FplTables) (entryId eventId : Z) (picks : RichPicks) (live : list LiveElement)
    (stamp : Z) t : result (EntryTables * unit) :=
  let* results := upsertFromPicksAndLive (result_references fpl t) entryId eventId picks live stamp (et_results t) in
  let* stored := upsertFromPicks (pick_references fpl t) entryId eventId (rp_picks picks) (Some (to_date stamp)) (et_picks t) in
  Ok (with_picks stored.1 (with_results results t), tt).

(** The payloads of an entry; with [skipTransfers] there are no transfers.
    src: src/services/tournament-event-results.service.ts:229-240 syncTournamentEventResultsForEntryIds *)
Definition fetch_entry (c : ResultsContext) (o : SyncOptions) (entryId : Z) : result (RichPicks * option (list RawTransfer)) :=
  let* picks := rc_entryEventPicks c entryId in
  let* transfers :=
    if so_skipTransfers o then Ok None
    else match so_transfersByEntry o with
         | Some payloads => match map_get entryId payloads with Some l => Ok (Some l) | None => Throw "TRANSFERS_MISSING" end
         | None => let* l := rc_entryTransfers c entryId in Ok (Some l)
         end in
  Ok (picks, transfers).

(** The results and picks in one transaction, then the transfers in another.
    src: src/services/tournament-event-results.service.ts:243-278 syncTournamentEventResultsForEntryIds *)
Definition persist_entry (fpl : FplTables) (entryId eventId : Z) (picks : RichPicks) (transfers : option (list RawTransfer))
    (live : list LiveElement) (stamp transferStamp : Z) t : EntryTables * result unit :=
  match withEntrySeasonSyncTransaction entryId (persist_results fpl entryId eventId picks live stamp) t, transfers with
  | (t, Ok _), Some l =>
      let '(t, accepted) :=
        replaceForEvent (transfer_refs fpl) entryId eventId l (Some live) None None None transferStamp Ok t in
      (t, let* _ := accepted in Ok ())
  | (t, r), _ => (t, r)
  end.

(** An error is logged.  What was committed before it stays, unless the entry has a mutation scope of its own, whose
    transaction holds the other two as savepoints.
    src: src/services/tournament-event-results.service.ts:227-297 syncTournamentEventResultsForEntryIds *)
Definition sync_entry (c : ResultsContext) (o : SyncOptions) (fpl : FplTables) (eventId : Z) (live : list LiveElement)
    (stamp transferStamp : Z) t (entryId : Z) : EntryTables :=
  match fetch_entry c o entryId with
  | Throw _ => t
  | Ok (picks, transfers) =>
      match persist_entry fpl entryId eventId picks transfers live stamp transferStamp t with
      | (t', Ok _) => t'
      | (t', Throw _) => if so_perEntryMutationScopes o then t else t'
      end
  end.

(** The entries without a fresh result, complete picks or transfers. *)
Definition missing_units (entryIds : list Z) (eventId freshAfter : Z) (skipTransfers : bool) t : list Z * list Z * Z :=
  planTournamentEventSync entryIds
    (freshEntryIds entryIds (findEntryIdsNeedingRichSync entryIds eventId (Some freshAfter) (et_results t)))
    (findEntryIdsByEvent eventId entryIds (et_picks t))
    (if skipTransfers then [] else findEntryIdsNeedingSync entryIds eventId t) skipTransfers.

(** The boundary results must be fresh after.
    src: src/services/tournament-event-results.service.ts:205-216 syncTournamentEventResultsForEntryIds *)
Definition freshness_boundary (o : SyncOptions) (ordering eventId : Z) (fpl : FplTables) : Z :=
  latestFreshnessTimestamp (nullish (so_freshAfter o) (nullish (so_sourceCheckedAt o) ordering))
    (findDataCheckedAtExact eventId fpl).

(** src: src/services/tournament-event-results.service.ts:178-343 syncTournamentEventResultsForEntryIds *)
Definition syncTournamentEventResultsForEntryIds (c : ResultsContext) (entryIds : list Z) (eventId : Z) (o : SyncOptions) w
    : ResultsWorld S * result WorkSummary :=
  let uniqueEntryIds := dedup entryIds in
  if is_nil uniqueEntryIds then (w, Ok no_work) else
  let sourceOrdering := nullish (so_sourceCheckedAt o) (rc_ordering c) in
  let freshAfter := freshness_boundary o (rc_ordering c) eventId (rw_fpl w) in
  let transferSourceCheckedAt := nullish (so_transferSourceCheckedAt o) sourceOrdering in
  match resolveEventPointsPayload c eventId (so_live o) w with
  | Throw e => (w, Throw e)
  | Ok live =>
      let t := fold_left (sync_entry c o (rw_fpl w) eventId live sourceOrdering transferSourceCheckedAt) uniqueEntryIds
                 (rw_entries w) in
      let w := with_entry_tables t w in
      let fresh := freshEntryIds uniqueEntryIds
        (findEntryIdsNeedingRichSync uniqueEntryIds eventId (Some freshAfter) (et_results t)) in
      let picked := findEntryIdsByEvent eventId uniqueEntryIds (et_picks t) in
      let missing := if so_skipTransfers o then [] else findEntryIdsNeedingSync uniqueEntryIds eventId t in
      let failed := List.filter (λ e, negb (bool_decide (e ∈ fresh)) || negb (bool_decide (e ∈ picked)) ||
                                      bool_decide (e ∈ missing)) uniqueEntryIds in
      let total := units_of uniqueEntryIds in
      if 0 <? units_of failed then (w, Throw "INCOMPLETE_DATA_SYNC") else
      (w, Ok (mkSummary total total total 0 total []))
  end.

(** ** Transfers *)

(** src: src/services/tournament-event-results.service.ts:363-403 syncEntryTransferHistories *)
Definition sync_history (c : ResultsContext) (fpl : FplTables) (endEventId stamp : Z) t (entryId : Z) : EntryTables :=
  match rc_entryTransfers c entryId with
  | Throw _ => t
  | Ok l => (replaceForEvent (transfer_refs fpl) entryId endEventId l None None None None stamp Ok t).1
  end.

(** The tables, and the entries that still need their transfers.
    src: src/services/tournament-event-results.service.ts:345-421 syncEntryTransferHistories *)
Definition syncEntryTransferHistories (c : ResultsContext) (entryIds : list Z) (endEventId : Z) w : ResultsWorld S * list Z :=
  let uniqueEntryIds := dedup entryIds in
  let t := fold_left (sync_history c (rw_fpl w) endEventId (rc_transferOrdering c)) uniqueEntryIds (rw_entries w) in
  (with_entry_tables t w, findEntryIdsNeedingSync uniqueEntryIds endEventId t).

(** ** All tournaments *)

(** src: src/services/tournament-event-results.service.ts:423-460 syncTournamentEventResultsForTournament *)
Definition syncTournamentEventResultsForTournament (c : ResultsContext) (tournamentId eventId : Z) (o : SyncOptions) w
    : ResultsWorld S * result WorkSummary :=
  let entryIds := concat (tn_entryIds <$> List.filter (λ n, tn_id n =? tournamentId) (rw_tournaments w)) in
  if is_nil entryIds then (w, Ok no_work) else syncTournamentEventResultsForEntryIds c entryIds eventId o w.


(** src: src/repositories/tournament-infos.ts:290-317 findActive *)
Definition findActive w : list TournamentRow :=
  List.filter (λ n, tn_active n && negb (is_null (tn_standingsReadyAt n))) (rw_tournaments w).

(** src: src/services/tournament-event-results.service.ts:499-503 syncTournamentEventResults *)
Definition active_entries w : list Z := dedup (concat (tn_entryIds <$> findActive w)).

Definition skipping_transfers (o : SyncOptions) (freshAfter ordering : Z) : SyncOptions :=
  mkSyncOptions (so_live o) true (so_transfersByEntry o) (so_transferSourceCheckedAt o) (Some ordering) (Some freshAfter)
    (so_perEntryMutationScopes o).

(** The two write phases; the error of the first is logged.
    src: src/services/tournament-event-results.service.ts:560-581 syncTournamentEventResults *)
Definition write_phases (c : ResultsContext) (o : SyncOptions) (eventId freshAfter ordering : Z)
    (required transfers : list Z) w : ResultsWorld S :=
  let w := if is_nil required then w
           else (syncTournamentEventResultsForEntryIds c required eventId (skipping_transfers o freshAfter ordering) w).1 in
  if is_nil transfers then w else (syncEntryTransferHistories c transfers eventId w).1.

(** [later] is the season's tables when the work ends: other processes may have checked the data of the gameweek.
    src: src/services/tournament-event-results.service.ts:462-657 syncTournamentEventResults *)
Definition syncTournamentEventResults (c : ResultsContext) (eventId : Z) (o : SyncOptions) (later : FplTables) w
    : ResultsWorld S * result WorkSummary :=
  let tournaments := findActive w in
  let entryIds := active_entries w in
  if is_nil tournaments || is_nil entryIds then (w, Ok no_work) else
  let ordering := nullish (so_sourceCheckedAt o) (rc_ordering c) in
  let freshAfter := freshness_boundary o (rc_ordering c) eventId (rw_fpl w) in
  let '(required, transfers, reused) := missing_units entryIds eventId freshAfter (so_skipTransfers o) (rw_entries w) in
  let w := write_phases c o eventId freshAfter ordering required transfers w in
  let '(auditedResults, auditedTransfers, _) := missing_units entryIds eventId freshAfter (so_skipTransfers o) (rw_entries w) in
  let failedUnits := units_of auditedResults + units_of auditedTransfers in
  let requiredUnits := Z.max (units_of required + units_of transfers) failedUnits in
  if 0 <? failedUnits then (w, Throw "INCOMPLETE_DATA_SYNC") else
  if isFreshnessBoundaryNewer freshAfter (findDataCheckedAtExact eventId later) then (w, Throw "FINALIZED_DURING_SYNC") else
  (w, Ok (mkSummary (units_of entryIds) (units_of required) requiredUnits reused (Z.max 0 (requiredUnits - failedUnits))
            (omap (λ n, (λ ready, (tn_id n, ready, freshAfter)) <$> tn_standingsReadyAt n) tournaments))).
End sync.

(** ** What success certifies *)

(** The entry has all that a tournament is scored from. *)
Record complete_entry (eventId boundary : Z) (skipTransfers : bool) (t : EntryTables) (e : Z) : Prop := {
  ce_result : ∃ row, row ∈ et_results t ∧ result_key row = (e, eventId) ∧ fresh_row boundary row;
  ce_picks : complete_group (scope e eventId (et_picks t)) = true;
  ce_transfers : skipTransfers = false → behind eventId (et_entries t) e = false;
}.

Lemma units_zero {A} (l : list A) : units_of l ≤ 0 → l = [].
Proof. unfold units_of. destruct l; [done|cbn; lia]. Qed.

(** What is missing of an entry, by the tables. *)
Lemma missing_result entryIds eventId boundary t e :
  e ∈ entryIds →
  negb (bool_decide (e ∈ freshEntryIds entryIds (findEntryIdsNeedingRichSync entryIds eventId (Some boundary) (et_results t)))) ||
  negb (bool_decide (e ∈ findEntryIdsByEvent eventId entryIds (et_picks t))) = false ↔
  (∃ row, row ∈ et_results t ∧ result_key row = (e, eventId) ∧ fresh_row boundary row) ∧
  complete_group (scope e eventId (et_picks t)) = true.
Proof.
  intros He. rewrite orb_false_iff, !negb_false_iff, !bool_decide_eq_true.
  unfold freshEntryIds. rewrite elem_of_dedup, elem_of_filter_bool, bool_decide_eq_true, rich_sync_spec by done.
  rewrite find_entry_ids_spec. naive_solver.
Qed.

Lemma missing_none entryIds eventId boundary skip t missing transfers reused :
  missing_units entryIds eventId boundary skip t = (missing, transfers, reused) →
  missing = [] ∧ transfers = [] ↔ ∀ e, e ∈ entryIds → complete_entry eventId boundary skip t e.
Proof.
  unfold missing_units, planTournamentEventSync. intros [= <- <- _]. split.
  - intros [Hr Ht] e He.
    assert (∀ (f : Z → bool) l, List.filter f l = [] → e ∈ l → f e = false) as Hnone.
    { intros f l Hf Hin. destruct (f e) eqn:E; [|done]. assert (e ∈ List.filter f l) as Hx by by apply elem_of_filter_bool.
      rewrite Hf in Hx. by apply elem_of_nil in Hx. }
    pose proof (Hnone _ _ Hr He) as Hm. cbv beta in Hm. apply missing_result in Hm as [Hrow Hpick]; [|done].
    split; [done|done|]. intros ->. pose proof (Hnone _ _ Ht He) as Hb. cbv beta in Hb.
    apply bool_decide_eq_false in Hb. rewrite transfers_sync_spec in Hb. destruct (behind _ _ e); naive_solver.
  - intros Hc. split; [|destruct skip; [done|]]; apply filter_bool_none; intros e He; destruct (Hc e He) as [Hrow Hpick Ht].
    + by apply missing_result.
    + apply bool_decide_eq_false. rewrite transfers_sync_spec, (Ht eq_refl). naive_solver.
Qed.

(** ** What a pass over valid payloads writes *)

Section pass.
Context {S V : Type} `{!Codec V} `{!Redis S V}.
Implicit Types (w : ResultsWorld S) (t : EntryTables).

(** The statements of a payload that the database takes: what the repositories check, and the constraints of both tables. *)
Definition storable (fpl : FplTables) t (eventId stamp : Z) (live : list LiveElement) (e : Z) (p : RichPicks) : bool :=
  isEntryPicksPayloadForEvent (response_json (rp_picks p)) (of_int eventId) &&
  isCompleteEntryPicks (picks_json (pr_picks (rp_picks p))) &&
  hasCompleteEntryPickLiveCoverage (picks_json (pr_picks (rp_picks p))) (le_id <$> live) &&
  match validateAutomaticSubs e eventId p with Ok _ => true | Throw _ => false end &&
  match rich_row e eventId p live (rp_automatic_subs p) stamp with
  | Some row => result_checks row && result_references fpl t row
  | None => false
  end &&
  match mapM (row_of_pick e eventId (rp_picks p) (to_date stamp) (to_date stamp)) (pr_picks (rp_picks p)) with
  | Some rows => forallb (λ r, row_checks r && pick_references fpl t r) rows
  | None => false
  end.

(** Tables that hold what the repositories leave: rows that pass their constraints, and whole squads. *)
Record tables_ok (fpl : FplTables) t : Prop := {
  tk_results : results_ok (et_results t);
  tk_references : Forall (λ r, result_references fpl t r = true) (et_results t);
  tk_squads e v : scope e v (et_picks t) = [] ∨ complete_group (scope e v (et_picks t)) = true;
  tk_entries : NoDup (en_entryId <$> et_entries t);
}.

Lemma lockEntry_exists t e :
  NoDup (en_entryId <$> et_entries t) → entry_exists t e = true → ∃ entry, lockEntry e t = Ok entry.
Proof.
  unfold lockEntry, entry_exists. intros Hnd He%bool_decide_eq_true. revert Hnd He.
  generalize (et_entries t). intros l. induction l as [|x l IH]; intros Hnd He; [by apply elem_of_nil in He|].
  cbn in Hnd, He |- *. apply NoDup_cons in Hnd as [Hx Hnd]. destruct (Z.eqb_spec (en_entryId x) e) as [<-|Hne].
  - rewrite filter_bool_none; [by eexists|]. intros y Hy. apply Z.eqb_neq. intros Hk. apply Hx. rewrite <-Hk.
    by apply list_elem_of_fmap_2.
  - apply IH; [done|]. apply elem_of_cons in He as [->|]; done.
Qed.

(** The creation time of the rows is the only column the stored squad decides. *)
Lemma row_of_pick_created e v p created at_ pick row :
  row_of_pick e v p at_ at_ pick = Some row →
  ∃ row', row_of_pick e v p created at_ pick = Some row' ∧
    (created ≤ at_ → row_checks row = true → row_checks row' = true) ∧
    (∀ fpl t, pick_references fpl t row' = pick_references fpl t row).
Proof.
  unfold row_of_pick. intros H. repeat (apply bind_Some in H as (? & ? & H)). injection H as <-.
  eexists. split.
  { repeat (apply bind_Some; eexists; split; [eassumption|]). reflexivity. }
  split; [|done]. intros Hle. unfold row_checks. cbn. rewrite !andb_true_iff, !Z.leb_le. intuition.
Qed.

Lemma rows_of_picks_created e v p created at_ picks rows :
  mapM (row_of_pick e v p at_ at_) picks = Some rows →
  ∃ rows', mapM (row_of_pick e v p created at_) picks = Some rows' ∧
    (∀ fpl t, created ≤ at_ → forallb (λ r, row_checks r && pick_references fpl t r) rows = true →
       forallb (λ r, row_checks r && pick_references fpl t r) rows' = true).
Proof.
  intros H%mapM_Some. induction H as [|pick row picks rows Hrow _ (rows' & Hrows & Hall)]; [by exists []|].
  destruct (row_of_pick_created _ _ _ created _ _ _ Hrow) as (row' & Hrow' & Hc & Hr).
  exists (row' :: rows'). split; [by cbn; rewrite Hrow'; cbn; rewrite Hrows|].
  intros fpl t Hle. cbn. rewrite !andb_true_iff. intros [[Hck Href] Hrest]. rewrite Hr. naive_solver.
Qed.

(** Rows of one scope, with distinct positions and elements, go into a table without that scope. *)
Lemma insert_squad references e v rows table :
  forallb (λ r, row_checks r && references r) rows = true →
  Forall (λ r, in_scope e v r = true) rows →
  NoDup (ep_position <$> rows) → NoDup (ep_elementId <$> rows) →
  (∀ r x, r ∈ rows → x ∈ table → in_scope e v x = true → ep_position r ≠ ep_position x ∧ ep_elementId r ≠ ep_elementId x) →
  insert_rows references rows table = Ok (table ++ rows).
Proof.
  revert table. induction rows as [|r rows IH]; intros table Hok Hin Hp He Hfree; [by rewrite app_nil_r|].
  cbn in Hok, Hp, He |- *. apply andb_true_iff in Hok as [Hr Hok]. rewrite Hr. cbn [andb].
  apply Forall_cons in Hin as [Hsr Hin]. apply NoDup_cons in Hp as [Hpr Hp], He as [Her He].
  assert (∀ x, in_scope (ep_entryId r) (ep_eventId r) x = in_scope e v x) as Hsc.
  { intros x. unfold in_scope in Hsr. boolsolve. by subst. }
  assert (existsb (conflicts r) table = false) as ->.
  { apply not_true_iff_false. intros (x & Hx & Hc)%existsb_exists. unfold conflicts in Hc. rewrite Hsc in Hc.
    apply list_elem_of_In in Hx. apply andb_true_iff in Hc as [Hxs Hc].
    destruct (Hfree r x) as [H1 H2]; [by left|done|done|]. apply orb_true_iff in Hc as [Hc|Hc]; apply Z.eqb_eq in Hc; done. }
  cbn [negb]. rewrite IH; [by rewrite <-(assoc_L (++))|done..|].
  intros q x Hq Hx Hxs. apply elem_of_app in Hx as [Hx|Hx%list_elem_of_singleton].
  - apply Hfree; [by right|done|done].
  - subst x. split; intros Heq; [apply Hpr|apply Her]; rewrite <-Heq; by apply list_elem_of_fmap_2.
Qed.

Lemma earliest_le existing at_ : earliestCreatedAt existing at_ ≤ at_.
Proof.
  unfold earliestCreatedAt. assert (∀ l a, a ≤ at_ → fold_left (λ earliest row,
    if ep_sourceCreatedAt row <? earliest then ep_sourceCreatedAt row else earliest) l a ≤ at_) as H; [|by apply H].
  induction l as [|r l IH]; intros a Ha; [done|]. cbn. apply IH. destruct (Z.ltb_spec (ep_sourceCreatedAt r) a); lia.
Qed.

(** The picks of a payload that can be stored are. *)
Lemma picks_stored fpl t e v p at_ table rows :
  isEntryPicksPayloadForEvent (response_json p) (of_int v) = true →
  isCompleteEntryPicks (picks_json (pr_picks p)) = true →
  mapM (row_of_pick e v p at_ at_) (pr_picks p) = Some rows →
  forallb (λ r, row_checks r && pick_references fpl t r) rows = true →
  ∃ stored, upsertFromPicks (pick_references fpl t) e v p (Some at_) table = Ok stored.
Proof.
  intros Hev Hc Hrows Hok. unfold upsertFromPicks. rewrite Hev, Hc. cbn [negb]. unfold replaceScope.
  destruct (match newestStoredAt _ with Some n => at_ <=? n | None => false end); [by eexists|].
  pose proof (earliest_le (List.filter (in_scope e v) table) at_) as Hle.
  destruct (rows_of_picks_created e v p (earliestCreatedAt (List.filter (in_scope e v) table) at_) at_ _ _ Hrows)
    as (rs & Hrs & Hall). rewrite Hrs. apply isCompleteEntryPicks_squad in Hc.
  pose proof (upsert_rows_in_scope _ _ _ _ _ _ _ Hrs) as Hin.
  apply rows_of_picks in Hrs as (Hp & He & _). rewrite (insert_squad _ e v); [by eexists|by apply Hall|done|..].
  - rewrite Hp. apply Hc.
  - rewrite He. apply Hc.
  - intros r x _ [_ Hx]%elem_of_filter_bool Hxs. by rewrite Hxs in Hx.
Qed.

(** The result of a payload that can be stored is. *)
Lemma result_stored fpl t e v p live stamp row table :
  tables_ok fpl t → et_results t = table →
  isEntryPicksPayloadForEvent (response_json (rp_picks p)) (of_int v) = true →
  isCompleteEntryPicks (picks_json (pr_picks (rp_picks p))) = true →
  hasCompleteEntryPickLiveCoverage (picks_json (pr_picks (rp_picks p))) (le_id <$> live) = true →
  validateAutomaticSubs e v p = Ok (rp_automatic_subs p) →
  rich_row e v p live (rp_automatic_subs p) stamp = Some row →
  result_checks row = true → result_references fpl t row = true →
  upsertFromPicksAndLive (result_references fpl t) e v p live stamp table =
    Ok (upsert_batch result_key merge_rich [row] table).
Proof.
  intros Hok <- Hev Hc Hcov Hsubs Hrow Hck Href. unfold upsertFromPicksAndLive. rewrite Hev, Hc, Hcov, Hsubs.
  cbn [negb throw_when result_bind]. rewrite Hrow. unfold result_upsert, upsert_returning. cbn [upsert_rows].
  rewrite bool_decide_eq_true_2 by apply NoDup_singleton. cbn [negb throw_when fmap list_fmap].
  assert (result_checks (written_row result_key merge_rich (et_results t) row) = true ∧
          result_references fpl t (written_row result_key merge_rich (et_results t) row) = true) as [Hw1 Hw2].
  { unfold written_row. destruct (find_by result_key (result_key row) (et_results t)) as [old|] eqn:E; [|done].
    destruct (merge_rich_cases old row) as [->| ->]; [done|]. apply find_by_Some in E as [Hin _].
    pose proof (tk_results _ _ Hok) as [_ Hall]. pose proof (tk_references _ _ Hok) as Hrefs.
    rewrite Forall_forall in Hall, Hrefs. split; [apply Hall|apply Hrefs]; done. }
  rewrite Hck, Hw1. cbn [negb andb orb].
  assert (existsb (λ x, negb (bool_decide (result_key x = result_key row)) && false) (et_results t) = false) as ->.
  { apply not_true_iff_false. intros (x & _ & Hx)%existsb_exists. by rewrite andb_false_r in Hx. }
  cbn [throw_when result_bind fst snd forallb]. by rewrite Hw2.
Qed.

Lemma storable_entries fpl t t' v stamp live e p :
  et_entries t = et_entries t' → storable fpl t v stamp live e p = storable fpl t' v stamp live e p.
Proof. intros H. unfold storable, result_references, pick_references, entry_exists. by rewrite H. Qed.

(** The tables that differ from [t] in the row and the squad of one entry and gameweek. *)
Record stored_for (fpl : FplTables) (v stamp : Z) (live : list LiveElement) (e : Z) (p : RichPicks) t t' : Prop := {
  sf_ok : tables_ok fpl t';
  sf_entries : et_entries t' = et_entries t;
  sf_transfers : et_transfers t' = et_transfers t;
  sf_row : ∃ row, rich_row e v p live (rp_automatic_subs p) stamp = Some row ∧
    ∀ k, find_by result_key k (et_results t') =
         if decide (k = (e, v)) then Some (written_row result_key merge_rich (et_results t) row)
         else find_by result_key k (et_results t);
  sf_squad : complete_group (scope e v (et_picks t')) = true;
  sf_others e' v' : (e', v') ≠ (e, v) → scope e' v' (et_picks t') = scope e' v' (et_picks t);
}.

Lemma written_references fpl t row :
  tables_ok fpl t → result_references fpl t row = true →
  Forall (λ r, result_references fpl t r = true) (upsert_batch result_key merge_rich [row] (et_results t)).
Proof.
  intros Hok Hrow. apply Forall_forall. intros r Hr. pose proof (tk_references _ _ Hok) as Hrefs.
  rewrite Forall_forall in Hrefs. destruct (tk_results _ _ Hok) as [Hnd _].
  apply (elem_of_upsert_batch result_key merge_rich merge_rich_key) in Hr as [(x & ->%list_elem_of_singleton & ->)|[Hr _]];
    [|by apply Hrefs|done|by apply NoDup_singleton].
  unfold written_row. destruct (find_by _ _ _) as [old|] eqn:E; [|done]. apply find_by_Some in E as [Hin _].
  destruct (merge_rich_cases old row) as [->| ->]; [done|by apply Hrefs].
Qed.

(** A payload that can be stored is stored, and nothing else changes. *)
Lemma persist_storable fpl t v stamp live e p :
  tables_ok fpl t → storable fpl t v stamp live e p = true → entry_exists t e = true →
  ∃ t', withEntrySeasonSyncTransaction e (persist_results fpl e v p live stamp) t = (t', Ok ()) ∧
    stored_for fpl v stamp live e p t t'.
Proof.
  intros Hok Hs He. unfold storable in Hs. repeat (apply andb_true_iff in Hs as [Hs ?]).
  destruct (validateAutomaticSubs e v p) as [subs|] eqn:Hsubs; [|done].
  assert (subs = rp_automatic_subs p) as ->.
  { unfold validateAutomaticSubs in Hsubs. apply result_bind_ok in Hsubs as (? & _ & Hsubs).
    by apply throw_when_ok in Hsubs as [_ [= <-]]. }
  destruct (rich_row _ _ _ _ _ _) as [row|] eqn:Hrow; [|done]. boolsolve.
  destruct (mapM _ _) as [rows|] eqn:Hrows; [|done].
  destruct (picks_stored fpl t e v (rp_picks p) (to_date stamp) (et_picks t) rows) as [[picks changed] Hpicks]; [done..|].
  set (results := upsert_batch result_key merge_rich [row] (et_results t)).
  assert (persist_results fpl e v p live stamp t = Ok (with_picks picks (with_results results t), ())) as Hpersist.
  { unfold persist_results. rewrite (result_stored fpl t e v p live stamp row) by done.
    cbn [result_bind]. rewrite Hpicks. done. }
  destruct (lockEntry_exists t e (tk_entries _ _ Hok) He) as [entry Hlock].
  exists (with_picks picks (with_results results t)). split.
  { apply transaction_ok. by rewrite Hlock. }
  pose proof (rich_row_facts _ _ _ _ _ _ _ Hrow) as (Hkey & _).
  pose proof Hpicks as Hcases. apply upsert_cases in Hcases as (Hsq & at_ & [= <-] & Hcases).
  assert (complete_group (scope e v picks) = true ∧ ∀ e' v', (e', v') ≠ (e, v) → scope e' v' picks = scope e' v' (et_picks t))
    as [Hsquad Hothers].
  { destruct Hcases as [(_ & -> & Hne & _)|(_ & rs & Hrs & ->)].
    - split; [|done]. by destruct (tk_squads _ _ Hok e v).
    - pose proof (upsert_rows_in_scope _ _ _ _ _ _ _ Hrs) as Hin. split; [|intros e' v' Hne; by apply scope_other].
      rewrite scope_replaced by done. apply rows_of_picks in Hrs as (? & _ & _ & ? & ? & _). by eapply squad_rows_complete. }
  split; cbn [et_results et_picks et_entries with_picks with_results].
  - split; cbn [et_results et_picks et_entries with_picks with_results].
    + destruct (rich_keeps (result_references fpl t) e v p live stamp (et_results t) results) as [Hkeep _].
      { by rewrite (result_stored fpl t e v p live stamp row). }
      exact (Hkeep (tk_results _ _ Hok)).
    + refine (written_references fpl t row Hok _). done.
    + intros e' v'. destruct (decide ((e', v') = (e, v))) as [[= -> ->]|Hne]; [by right|].
      rewrite Hothers by done. exact (tk_squads _ _ Hok e' v').
    + exact (tk_entries _ _ Hok).
  - done.
  - done.
  - exists row. split; [done|]. intros k. unfold results. rewrite (find_by_upsert_batch result_key merge_rich merge_rich_key)
      by apply NoDup_singleton. cbn [find_by]. rewrite Hkey.
    destruct (decide ((e, v) = k)) as [<-|Hne]; [by rewrite decide_True|by rewrite decide_False].
  - done.
  - done.
Qed.

(** Every entry of the list is known and has a payload that can be stored. *)
Definition payloads_storable (c : ResultsContext) (fpl : FplTables) t (v stamp : Z) (live : list LiveElement) (ids : list Z) : Prop :=
  ∀ e, e ∈ ids → entry_exists t e = true ∧
    ∃ p, rc_entryEventPicks c e = Ok p ∧ storable fpl t v stamp live e p = true.

Lemma sync_entry_storable c o fpl t v stamp ts live e p :
  so_skipTransfers o = true → rc_entryEventPicks c e = Ok p →
  tables_ok fpl t → storable fpl t v stamp live e p = true → entry_exists t e = true →
  stored_for fpl v stamp live e p t (sync_entry c o fpl v live stamp ts t e).
Proof.
  intros Hskip Hp Hok Hs He. destruct (persist_storable fpl t v stamp live e p Hok Hs He) as (t' & Hpersist & Hfor).
  unfold sync_entry, fetch_entry. rewrite Hp, Hskip. cbn [result_bind]. unfold persist_entry. by rewrite Hpersist.
Qed.

(** The entries one after the other: each gets its row and its squad, and keeps them. *)
Lemma pass_writes c o fpl t v stamp ts live ids :
  so_skipTransfers o = true → NoDup ids → tables_ok fpl t → payloads_storable c fpl t v stamp live ids →
  let t' := fold_left (sync_entry c o fpl v live stamp ts) ids t in
  tables_ok fpl t' ∧ (et_entries t' = et_entries t ∧ et_transfers t' = et_transfers t) ∧
  (∀ e, e ∈ ids → complete_group (scope e v (et_picks t')) = true ∧
     ∃ p row, rc_entryEventPicks c e = Ok p ∧ rich_row e v p live (rp_automatic_subs p) stamp = Some row ∧
       find_by result_key (e, v) (et_results t') = Some (written_row result_key merge_rich (et_results t) row)) ∧
  (∀ e, e ∉ ids → scope e v (et_picks t') = scope e v (et_picks t) ∧
     find_by result_key (e, v) (et_results t') = find_by result_key (e, v) (et_results t)).
Proof.
  intros Hskip. revert t. induction ids as [|e ids IH]; intros t Hnd Hok Hpay; cbn zeta.
  { cbn [fold_left]. split_and!; [done..|by intros e ?%elem_of_nil|done]. }
  apply NoDup_cons in Hnd as [He Hnd]. destruct (Hpay e ltac:(by left)) as (Hex & p & Hp & Hs).
  destruct (sync_entry_storable c o fpl t v stamp ts live e p Hskip Hp Hok Hs Hex)
    as [Hok1 Hent Htr (row & Hrow & Hfind) Hsquad Hothers].
  cbn [fold_left]. set (t1 := sync_entry c o fpl v live stamp ts t e) in *.
  destruct (IH t1 Hnd Hok1) as (Hok2 & [Hent2 Htr2] & Hin & Hout).
  { intros e' He'. destruct (Hpay e' ltac:(by right)) as (Hex' & p' & Hp' & Hs'). split.
    - unfold entry_exists. by rewrite Hent.
    - exists p'. split; [done|]. by rewrite (storable_entries fpl t1 t). }
  pose proof (rich_row_facts _ _ _ _ _ _ _ Hrow) as (Hkey & _).
  split_and!; [done|congruence|congruence| |].
  - intros e' He'. destruct (decide (e' = e)) as [->|Hne].
    + destruct (Hout e He) as [-> Hf]. split; [done|]. exists p, row. split_and!; [done|done|].
      by rewrite Hf, Hfind, decide_True.
    + destruct (Hin e') as [Hg (p' & row' & Hp' & Hrow' & Hf)]; [by apply elem_of_cons in He' as [|]|].
      split; [done|]. exists p', row'. split_and!; [done|done|]. rewrite Hf. unfold written_row.
      pose proof (rich_row_facts _ _ _ _ _ _ _ Hrow') as (-> & _). rewrite Hfind, decide_False by congruence. done.
  - intros e' [Hne He']%not_elem_of_cons. destruct (Hout e' He') as [-> ->]. split; [apply Hothers; congruence|].
    by rewrite Hfind, decide_False by congruence.
Qed.

(** A row that was written is at least as fresh as its evidence. *)
Lemma written_fresh table row stamp boundary :
  rr_richSyncedAt row = Some (to_date stamp) → boundary ≤ stamp → fresh_row boundary (written_row result_key merge_rich table row).
Proof.
  intros Ht Hle. assert (to_date boundary ≤ to_date stamp) by (unfold to_date; by apply Z.div_le_mono; lia).
  unfold written_row, fresh_row. destruct (find_by _ _ _) as [old|]; [|by exists (to_date stamp)].
  unfold merge_rich. rewrite Ht. destruct (rr_richSyncedAt old) as [before|] eqn:E; [|by exists (to_date stamp)].
  destruct (Z.ltb_spec before (to_date stamp)); [by exists (to_date stamp)|]. exists before. split; [done|lia].
Qed.

(** ** What a pass over valid histories writes *)

(** What the database and the repository ask of a transfer history before they accept it: the entry is there, its
    transfers are not of a later source, and the rows pass the checks, refer to what exists, and are told apart. *)
Definition history_storable (fpl : FplTables) t (eventId stamp : Z) (e : Z) (l : list RawTransfer) : bool :=
  match lockEntry e t with
  | Ok entry => null_or (λ winner, winner <? to_date stamp) (en_transfersSourceCheckedAt entry)
  | Throw _ => false
  end &&
  match buildTransferReplacementRows e eventId l (List.filter (of_entry e) (et_transfers t)) None None None with
  | Some rows => forallb (λ r, transfer_checks r && transfer_refs fpl r) rows &&
                 bool_decide (NoDup (transferSignature <$> rows))
  | None => false
  end.

(** The rows of an entry in the two tables that a history changes. *)
Definition entry_rows t (e : Z) : list EntryRow * list TransferRow :=
  (List.filter (λ r, en_entryId r =? e) (et_entries t), List.filter (of_entry e) (et_transfers t)).

Lemma history_storable_rows fpl t t' v stamp e l :
  entry_rows t e = entry_rows t' e → history_storable fpl t v stamp e l = history_storable fpl t' v stamp e l.
Proof. unfold entry_rows, history_storable, lockEntry. by intros [= -> ->]. Qed.

Lemma insert_histories references rows table :
  forallb (λ r, transfer_checks r && references r) rows = true → NoDup (transfer_key <$> rows) →
  (∀ r, r ∈ rows → transfer_key r ∉ transfer_key <$> table) →
  insert_transfers references rows table = Ok (table ++ rows).
Proof.
  revert table. induction rows as [|row rows IH]; intros table Hok Hnd Hfree; [by rewrite app_nil_r|].
  cbn in Hok |- *. apply andb_true_iff in Hok as [-> Hok]. apply NoDup_cons in Hnd as [Hrow Hnd].
  rewrite bool_decide_eq_false_2 by (apply Hfree; by left). cbn [negb orb throw_when].
  rewrite IH; [by rewrite <-(assoc_L (++))|done|done|]. intros r Hr. rewrite fmap_app. intros [Hin|Hin]%elem_of_app.
  - by apply (Hfree r); [right|].
  - apply list_elem_of_singleton in Hin. apply Hrow. cbn in Hin. rewrite <-Hin. by apply list_elem_of_fmap_2.
Qed.

Lemma filter_of_entry e (rows : list TransferRow) :
  (∀ r, r ∈ rows → tr_entryId r = e) →
  List.filter (of_entry e) rows = rows ∧ ∀ e', e' ≠ e → List.filter (of_entry e') rows = [].
Proof.
  intros H. split.
  - apply filter_bool_all. intros r Hr. unfold of_entry. by rewrite (H r Hr), Z.eqb_refl.
  - intros e' Hne. apply filter_bool_none. intros r Hr. unfold of_entry. rewrite (H r Hr). by apply Z.eqb_neq.
Qed.

Lemma filter_other_entries e e' (set : EntryRow → EntryRow) (es : list EntryRow) :
  e' ≠ e → (∀ r, en_entryId (set r) = en_entryId r) →
  List.filter (λ r, en_entryId r =? e') (update_where (λ r, en_entryId r =? e) set es).1 =
  List.filter (λ r, en_entryId r =? e') es.
Proof.
  intros Hne Hset. cbn [update_where fst]. induction es as [|r es IH]; [done|]. cbn. rewrite IH.
  destruct (Z.eqb_spec (en_entryId r) e) as [Hr|]; [|done]. rewrite Hset.
  by rewrite (proj2 (Z.eqb_neq (en_entryId r) e')) by congruence.
Qed.

Lemma behind_rows v t t' e : entry_rows t e = entry_rows t' e → behind v (et_entries t) e = behind v (et_entries t') e.
Proof.
  assert (∀ es : list EntryRow, find_by en_entryId e es = head (List.filter (λ r, en_entryId r =? e) es)) as Hhead.
  { induction es as [|r es IH]; [done|]. cbn. destruct (Z.eqb_spec (en_entryId r) e) as [->|].
    - by rewrite decide_True.
    - by rewrite decide_False. }
  unfold entry_rows, behind. intros [= H _]. by rewrite !Hhead, H.
Qed.

(** The tables after a history that can be stored. *)
Lemma history_replaces fpl t v stamp e l :
  0 ≤ v → is_int4 v = true → history_storable fpl t v stamp e l = true →
  ∃ rows, buildTransferReplacementRows e v l (List.filter (of_entry e) (et_transfers t)) None None None = Some rows ∧
    (∃ entry, List.filter (λ r, en_entryId r =? e) (et_entries t) = [entry]) ∧
    (replaceForEvent (transfer_refs fpl) e v l None None None None stamp Ok t).1 =
      with_entries (update_where (λ r, en_entryId r =? e) (checkpoint v (to_date stamp)) (et_entries t)).1
        (with_transfers (List.filter (negb ∘ of_entry e) (et_transfers t) ++ rows) t).
Proof.
  intros Hv Hint Hs. unfold history_storable in Hs. apply andb_true_iff in Hs as [Hlock Hrows].
  destruct (lockEntry e t) as [entry|] eqn:Hentry; [|done].
  destruct (buildTransferReplacementRows _ _ _ _ _ _ _) as [rows|] eqn:Hbuild; [|done]. boolsolve.
  exists rows. split_and!; [done|exists entry; by apply lockEntry_ok|].
  set (others := List.filter (negb ∘ of_entry e) (et_transfers t)).
  assert (∀ r, r ∈ rows → tr_entryId r = e) as Hof by (intros r; by eapply replacement_entry).
  assert (insert_transfers (transfer_refs fpl) rows others = Ok (others ++ rows)) as Hins.
  { apply insert_histories; [done| |].
    - apply (NoDup_fmap_1 snd). by rewrite <-list_fmap_compose.
    - intros r Hr (x & Hx & [_ Hn]%elem_of_filter_bool)%list_elem_of_fmap. unfold compose, of_entry in Hn.
      apply negb_true_iff, Z.eqb_neq in Hn. apply Hn. injection Hx as Hx _. rewrite <-Hx. by apply Hof. }
  unfold replaceForEvent. change (nullish None v) with v. destruct (Z.ltb_spec v 0); [lia|].
  rewrite Z.ltb_irrefl. cbn [orb]. match goal with |- (transaction ?body t).1 = ?t' =>
    assert (transaction body t = (t', Ok true)) as ->; [|done] end.
  apply transaction_ok. unfold replace_body. rewrite Hentry. cbn [result_bind].
  assert (match en_transfersSourceCheckedAt entry with Some winner => to_date stamp <=? winner | None => false end
    = false) as ->.
  { destruct (en_transfersSourceCheckedAt entry) as [winner|]; [|done]. cbn in *. apply Z.leb_gt. by apply Z.ltb_lt. }
  rewrite Hbuild. fold others. rewrite Hins. cbn [result_bind].
  assert (List.filter (of_entry e) (others ++ rows) = rows) as ->.
  { rewrite List.filter_app, (proj1 (filter_of_entry e rows Hof)), filter_bool_none; [done|].
    intros r [_ Hr]%elem_of_filter_bool. by apply negb_true_iff. }
  rewrite Nat.eqb_refl. cbn [negb orb].
  assert (existsb (λ k, bool_decide (k ∉ dedup (transferSignature <$> rows))) (dedup (transferSignature <$> rows)) = false) as ->.
  { apply not_true_iff_false. intros (k & Hk & Hn)%existsb_exists. apply list_elem_of_In in Hk. by apply bool_decide_eq_true in Hn. }
  cbn [throw_when result_bind]. by rewrite Hint.
Qed.

(** A history that is accepted, in the tables it leaves. *)
Record history_stored (v : Z) (e : Z) (l : list RawTransfer) t t' : Prop := {
  hs_rest : et_results t' = et_results t ∧ et_picks t' = et_picks t ∧
            en_entryId <$> et_entries t' = en_entryId <$> et_entries t;
  hs_rows : buildTransferReplacementRows e v l (List.filter (of_entry e) (et_transfers t)) None None None =
            Some (List.filter (of_entry e) (et_transfers t'));
  hs_behind : behind v (et_entries t') e = false;
  hs_others e' : e' ≠ e → entry_rows t' e' = entry_rows t e';
}.

Lemma history_accepted fpl t v stamp e l :
  0 ≤ v → is_int4 v = true → history_storable fpl t v stamp e l = true →
  history_stored v e l t (replaceForEvent (transfer_refs fpl) e v l None None None None stamp Ok t).1.
Proof.
  intros Hv Hint Hs. destruct (history_replaces fpl t v stamp e l Hv Hint Hs) as (rows & Hbuild & (entry & Hentry) & ->).
  assert (∀ r, r ∈ rows → tr_entryId r = e) as Hof by (intros r; by eapply replacement_entry).
  destruct (filter_of_entry e rows Hof) as [Hself Hother].
  split; cbn [et_results et_picks et_entries et_transfers with_entries with_transfers].
  - split_and!; [done|done|]. by rewrite update_keeps.
  - rewrite Hbuild, List.filter_app, Hself, filter_bool_none; [done|]. intros r [_ Hr]%elem_of_filter_bool.
    by apply negb_true_iff.
  - unfold behind. rewrite (find_checkpoint e v (to_date stamp) _ entry), decide_True by done.
    cbn. apply Z.ltb_ge. lia.
  - intros e' Hne. unfold entry_rows. cbn [et_entries et_transfers with_entries with_transfers]. f_equal.
    + by apply filter_other_entries.
    + rewrite List.filter_app, Hother, app_nil_r, filter_filter_bool by done. apply List.filter_ext.
      intros r. unfold compose, of_entry. destruct (Z.eqb_spec (tr_entryId r) e) as [->|]; [|done].
      cbn. symmetry. apply Z.eqb_neq. congruence.
Qed.

Lemma same_entry_ids fpl t t' :
  en_entryId <$> et_entries t' = en_entryId <$> et_entries t → et_results t' = et_results t →
  et_picks t' = et_picks t → tables_ok fpl t → tables_ok fpl t'.
Proof.
  intros Hids Hr Hp [? Hrefs ? ?]. split; rewrite ?Hr, ?Hp, ?Hids; try done.
  unfold result_references, entry_exists in *. by rewrite Hids.
Qed.

(** Every entry of the list has a history that can be stored. *)
Definition histories_storable (c : ResultsContext) (fpl : FplTables) t (v stamp : Z) (ids : list Z) : Prop :=
  ∀ e, e ∈ ids → ∃ l, rc_entryTransfers c e = Ok l ∧ history_storable fpl t v stamp e l = true.

(** The entries one after the other: each gets the transfers of its history, and keeps them. *)
Lemma histories_pass c fpl t v stamp ids :
  0 ≤ v → is_int4 v = true → NoDup ids → histories_storable c fpl t v stamp ids →
  let t' := fold_left (sync_history c fpl v stamp) ids t in
  (et_results t' = et_results t ∧ et_picks t' = et_picks t ∧
   en_entryId <$> et_entries t' = en_entryId <$> et_entries t) ∧
  (∀ e, e ∈ ids → behind v (et_entries t') e = false ∧
     ∃ l, rc_entryTransfers c e = Ok l ∧
       buildTransferReplacementRows e v l (List.filter (of_entry e) (et_transfers t)) None None None =
         Some (List.filter (of_entry e) (et_transfers t'))) ∧
  (∀ e, e ∉ ids → entry_rows t' e = entry_rows t e).
Proof.
  intros Hv Hint. revert t. induction ids as [|e ids IH]; intros t Hnd Hpay; cbn zeta.
  { cbn [fold_left]. split_and!; [done..|by intros e ?%elem_of_nil|done]. }
  apply NoDup_cons in Hnd as [He Hnd]. destruct (Hpay e ltac:(by left)) as (l & Hl & Hs).
  destruct (history_accepted fpl t v stamp e l Hv Hint Hs) as [Hrest Hrows Hbehind Hothers].
  cbn [fold_left]. assert (sync_history c fpl v stamp t e =
    (replaceForEvent (transfer_refs fpl) e v l None None None None stamp Ok t).1) as Hsync
    by (unfold sync_history; by rewrite Hl).
  rewrite <-Hsync in *. set (t1 := sync_history c fpl v stamp t e) in *.
  destruct (IH t1 Hnd) as (Hrest2 & Hin & Hout).
  { intros e' He'. destruct (Hpay e' ltac:(by right)) as (l' & Hl' & Hs'). exists l'. split; [done|].
    rewrite <-Hs'. apply history_storable_rows, Hothers. by intros ->. }
  split; [destruct Hrest as (? & ? & ?), Hrest2 as (? & ? & ?); split_and!; congruence|split].
  - intros e' [->|He']%elem_of_cons.
    + pose proof (Hout e He) as Heq. split; [by rewrite (behind_rows v _ t1 e Heq)|]. exists l. split; [done|].
      rewrite Hrows. f_equal. unfold entry_rows in Heq. congruence.
    + destruct (Hin e' He') as (Hb & l' & Hl' & Hr'). split; [done|]. exists l'. split; [done|].
      rewrite <-Hr'. f_equal. assert (entry_rows t1 e' = entry_rows t e') as Heq by (apply Hothers; by intros ->).
      unfold entry_rows in Heq. congruence.
  - intros e' [Hne He']%not_elem_of_cons. rewrite Hout by done. by apply Hothers.
Qed.

(** The tables the two phases leave. *)
Lemma phases_pass c o v w ids transfers live freshAfter ordering :
  NoDup ids → NoDup transfers → resolveEventPointsPayload c v (so_live o) w = Ok live →
  write_phases c o v freshAfter ordering ids transfers w =
  with_entry_tables (fold_left (sync_history c (rw_fpl w) v (rc_transferOrdering c)) transfers
    (fold_left (sync_entry c (skipping_transfers o freshAfter ordering) (rw_fpl w) v live ordering
      (nullish (so_transferSourceCheckedAt o) ordering)) ids (rw_entries w))) w.
Proof.
  intros Hnd Hnt Hlive. unfold write_phases.
  set (t1 := fold_left (sync_entry _ _ _ _ _ _ _) ids (rw_entries w)).
  assert ((if is_nil ids then w else (syncTournamentEventResultsForEntryIds c ids v
    (skipping_transfers o freshAfter ordering) w).1) = with_entry_tables t1 w) as ->.
  { destruct (is_nil ids) eqn:Hi. { unfold t1. destruct ids; [|done]. by destruct w. }
    unfold syncTournamentEventResultsForEntryIds. rewrite dedup_id by done. rewrite Hi.
    cbn [so_live so_sourceCheckedAt so_transferSourceCheckedAt skipping_transfers].
    change (nullish (Some ordering) (rc_ordering c)) with ordering. rewrite Hlive. cbv zeta.
    by destruct (0 <? _). }
  destruct (is_nil transfers) eqn:Ht; [by destruct transfers|].
  unfold syncEntryTransferHistories. by rewrite dedup_id by done.
Qed.

(** The entries whose results or picks are missing. *)
Lemma required_spec ids v boundary skip t e :
  NoDup (result_key <$> et_results t) → e ∈ ids →
  e ∉ (missing_units ids v boundary skip t).1.1 ↔
  (∃ row, find_by result_key (e, v) (et_results t) = Some row ∧ fresh_row boundary row) ∧
  complete_group (scope e v (et_picks t)) = true.
Proof.
  intros Hnd He. unfold missing_units, planTournamentEventSync. cbn [fst snd]. rewrite elem_of_filter_bool.
  pose proof (missing_result ids v boundary t e He) as Hm. destruct (_ || _) eqn:E.
  - split; [naive_solver|]. intros [(row & [Hin Hk]%find_by_Some & Hf) Hg]. assert (true = false); [|done].
    apply Hm. split; [by exists row|done].
  - destruct Hm as [Hm _]. destruct (Hm eq_refl) as [(row & Hin & Hk & Hf) Hg]. split; [|naive_solver].
    intros _. split; [|done]. exists row. split; [|done]. rewrite <-Hk. by apply find_by_elem.
Qed.

Lemma NoDup_required ids v boundary skip t : NoDup ids → NoDup (missing_units ids v boundary skip t).1.1.
Proof.
  intros Hnd. unfold missing_units, planTournamentEventSync. cbn [fst snd].
  rewrite <-(list_fmap_id (List.filter _ _)). apply NoDup_fmap_list_filter. by rewrite list_fmap_id.
Qed.

Lemma required_incl ids v boundary skip t e : e ∈ (missing_units ids v boundary skip t).1.1 → e ∈ ids.
Proof. unfold missing_units, planTournamentEventSync. cbn [fst snd]. rewrite elem_of_filter_bool. naive_solver. Qed.

Lemma required_skip ids v boundary skip t :
  (missing_units ids v boundary skip t).1.1 = (missing_units ids v boundary true t).1.1.
Proof. done. Qed.

(** The entries whose transfers are missing. *)
Lemma transfers_spec ids v boundary skip t e :
  e ∈ (missing_units ids v boundary skip t).1.2 ↔ skip = false ∧ e ∈ ids ∧ behind v (et_entries t) e = true.
Proof.
  unfold missing_units, planTournamentEventSync. cbn [fst snd]. destruct skip; cbn.
  - split; [by intros ?%elem_of_nil|naive_solver].
  - rewrite elem_of_filter_bool, bool_decide_eq_true, transfers_sync_spec. naive_solver.
Qed.

Lemma NoDup_transfers ids v boundary skip t : NoDup ids → NoDup (missing_units ids v boundary skip t).1.2.
Proof.
  intros Hnd. unfold missing_units, planTournamentEventSync. cbn [fst snd]. destruct skip; [by constructor|].
  rewrite <-(list_fmap_id (List.filter _ _)). apply NoDup_fmap_list_filter. by rewrite list_fmap_id.
Qed.

(** What the two phases leave. *)
Record phases_left (c : ResultsContext) (v stamp : Z) (live : list LiveElement) (required transfers : list Z) t t' : Prop := {
  pl_required e : e ∈ required → complete_group (scope e v (et_picks t')) = true ∧
    ∃ p row, rc_entryEventPicks c e = Ok p ∧ rich_row e v p live (rp_automatic_subs p) stamp = Some row ∧
      find_by result_key (e, v) (et_results t') = Some (written_row result_key merge_rich (et_results t) row);
  pl_kept e : e ∉ required → scope e v (et_picks t') = scope e v (et_picks t) ∧
    find_by result_key (e, v) (et_results t') = find_by result_key (e, v) (et_results t);
  pl_transfers e : e ∈ transfers → behind v (et_entries t') e = false ∧
    ∃ l, rc_entryTransfers c e = Ok l ∧
      buildTransferReplacementRows e v l (List.filter (of_entry e) (et_transfers t)) None None None =
        Some (List.filter (of_entry e) (et_transfers t'));
  pl_untouched e : e ∉ transfers → entry_rows t' e = entry_rows t e;
}.

Lemma phases_leave c o fpl t v stamp ts live transferStamp required transfers :
  so_skipTransfers o = true → 0 ≤ v → is_int4 v = true → NoDup required → NoDup transfers → tables_ok fpl t →
  payloads_storable c fpl t v stamp live required → histories_storable c fpl t v transferStamp transfers →
  let t' := fold_left (sync_history c fpl v transferStamp) transfers
              (fold_left (sync_entry c o fpl v live stamp ts) required t) in
  tables_ok fpl t' ∧ phases_left c v stamp live required transfers t t'.
Proof.
  intros Hskip Hv Hint Hr Ht Hok Hpay Hhist. cbn zeta.
  destruct (pass_writes c o fpl t v stamp ts live required Hskip Hr Hok Hpay) as (Hok1 & [Hent Htr] & Hin & Hout).
  set (t1 := fold_left (sync_entry c o fpl v live stamp ts) required t) in *.
  assert (∀ e, entry_rows t1 e = entry_rows t e) as Hrows by (intros e; unfold entry_rows; by rewrite Hent, Htr).
  destruct (histories_pass c fpl t1 v transferStamp transfers Hv Hint Ht) as ((Hres & Hpicks & Hids) & Hin2 & Hout2).
  { intros e He. destruct (Hhist e He) as (l & Hl & Hs). exists l. split; [done|].
    by rewrite (history_storable_rows _ t1 t). }
  set (t2 := fold_left _ transfers t1) in *. split; [by apply (same_entry_ids fpl t1)|]. split.
  - rewrite Hpicks, Hres. exact Hin.
  - rewrite Hpicks, Hres. exact Hout.
  - intros e He. rewrite <-Htr. by apply Hin2.
  - intros e He. by rewrite Hout2.
Qed.

(** Then every entry is complete. *)
Lemma phases_complete c fpl t t' v stamp live ids boundary skip :
  NoDup ids → tables_ok fpl t → boundary ≤ stamp →
  phases_left c v stamp live (missing_units ids v boundary true t).1.1 (missing_units ids v boundary skip t).1.2 t t' →
  ∀ e, e ∈ ids → complete_entry v boundary skip t' e.
Proof.
  intros Hnd Hok Hle Hleft e He.
  assert ((∃ row, row ∈ et_results t' ∧ result_key row = (e, v) ∧ fresh_row boundary row) ∧
    complete_group (scope e v (et_picks t')) = true) as [Hrow Hsquad].
  { destruct (decide (e ∈ (missing_units ids v boundary true t).1.1)) as [Hr|Hr].
    - destruct (pl_required _ _ _ _ _ _ _ _ Hleft e Hr) as (Hg & p & row & _ & Hrow & [Hf Hk]%find_by_Some). split; [|done].
      eexists. split_and!; [done|done|]. apply (written_fresh _ _ stamp); [|done]. by apply rich_row_facts in Hrow as (_ & ? & _).
    - destruct (pl_kept _ _ _ _ _ _ _ _ Hleft e Hr) as [Hg Hf]. apply required_spec in Hr as [(row & Hrow & Hfresh) Hc];
        [|apply Hok|done]. rewrite <-Hf in Hrow. apply find_by_Some in Hrow as [Hrow Hk].
      split; [by exists row|by rewrite Hg]. }
  split; [done|done|]. intros Hskip.
  destruct (decide (e ∈ (missing_units ids v boundary skip t).1.2)) as [Ht|Ht].
  - by apply (pl_transfers _ _ _ _ _ _ _ _ Hleft).
  - rewrite (behind_rows v t' t e) by (by apply (pl_untouched _ _ _ _ _ _ _ _ Hleft)).
    apply not_true_iff_false. intros Hb. apply Ht, transfers_spec. done.
Qed.
End pass.

(** ** The synchronisation *)

Section properties.
Context {S V : Type} `{!Codec V} `{!Redis S V}.
Implicit Types (w : ResultsWorld S) (t : EntryTables).

(** C11: the results of a gameweek are reported as synchronised only when every entry of every active tournament then has
    a result row whose evidence time, in milliseconds, is not before the millisecond of the boundary (a row read earlier
    in that same millisecond counts as fresh), a whole squad stored for the gameweek (no freshness is asked of it), and its
    transfers up to the gameweek when they are asked for; when no finalisation of the gameweek after the boundary is known;
    and the boundary is the one the tournaments are certified with. *)
Theorem results_sync_certifies c eventId o later w w' r tournament e :
  syncTournamentEventResults c eventId o later w = (w', Ok r) →
  tournament ∈ findActive w → e ∈ tn_entryIds tournament →
  let boundary := freshness_boundary o (rc_ordering c) eventId (rw_fpl w) in
  complete_entry eventId boundary (so_skipTransfers o) (rw_entries w') e ∧
  (∀ checked, findDataCheckedAtExact eventId later = Some checked → checked ≤ boundary) ∧
  (∀ ready, tn_standingsReadyAt tournament = Some ready → (tn_id tournament, ready, boundary) ∈ ws_finalizationTargets r).
Proof.
  intros H Ht He boundary.
  assert (e ∈ active_entries w) as Ha.
  { apply elem_of_dedup, list_elem_of_In, in_concat. exists (tn_entryIds tournament).
    split; apply list_elem_of_In; [by apply list_elem_of_fmap_2|done]. }
  unfold syncTournamentEventResults in H. destruct (is_nil (findActive w) || is_nil (active_entries w)) eqn:Hnil.
  { apply orb_true_iff in Hnil as [Hn|Hn]; [destruct (findActive w)|destruct (active_entries w)]; try done;
      by apply elem_of_nil in Ht || by apply elem_of_nil in Ha. }
  fold boundary in H. destruct (missing_units _ _ _ _ (rw_entries w)) as [[required transfers] reused] eqn:Hplan.
  set (w1 := write_phases _ _ _ _ _ _ _ _) in H.
  destruct (missing_units _ _ _ _ (rw_entries w1)) as [[results missing] reused'] eqn:Haudit.
  destruct (Z.ltb_spec 0 (units_of results + units_of missing)) as [|Hfailed]; [done|].
  destruct (isFreshnessBoundaryNewer _ _) eqn:Hnew; [done|]. injection H as <- <-. split_and!.
  - apply (proj1 (missing_none _ _ _ _ _ _ _ _ Haudit)); [|done].
    assert (0 ≤ units_of results ∧ 0 ≤ units_of missing) as [] by (unfold units_of; lia).
    split; apply units_zero; lia.
  - intros checked Hc. rewrite isFreshnessBoundaryNewer_spec, Hc in Hnew. by apply Z.ltb_ge in Hnew.
  - intros ready Hready. cbn. apply list_elem_of_omap. exists tournament. split; [done|]. by rewrite Hready.
Qed.

(** C12: a synchronisation of the results converges in one pass, with the transfers or without: suppose the tables hold
    what the repositories leave, the freshness boundary is not after the source time that the run stamps its rows with, the
    gameweek is not finalised beyond the boundary while the run works, the live points can be read, and the FPL API
    answers for the entries that lack a fresh result or picks, and for those whose transfers are behind, with payloads
    that the repositories accept.  Then the call succeeds, reports every missing unit as synchronised, gives each entry
    without a result the row of its payload (or keeps a newer one) and a whole squad, each entry that was behind the
    transfers of its history and a checkpoint at the gameweek, leaves every entry complete, and leaves the results and
    picks, or the transfers, of the other entries alone. *)
Theorem results_sync_converges c eventId o later w live :
  let boundary := freshness_boundary o (rc_ordering c) eventId (rw_fpl w) in
  let ordering := nullish (so_sourceCheckedAt o) (rc_ordering c) in
  let missing := missing_units (active_entries w) eventId boundary (so_skipTransfers o) (rw_entries w) in
  let required := missing.1.1 in
  let transfers := missing.1.2 in
  boundary ≤ ordering → 0 ≤ eventId → is_int4 eventId = true →
  resolveEventPointsPayload c eventId (so_live o) w = Ok live →
  tables_ok (rw_fpl w) (rw_entries w) →
  payloads_storable c (rw_fpl w) (rw_entries w) eventId ordering live required →
  histories_storable c (rw_fpl w) (rw_entries w) eventId (rc_transferOrdering c) transfers →
  isFreshnessBoundaryNewer boundary (findDataCheckedAtExact eventId later) = false →
  ∃ w' r, syncTournamentEventResults c eventId o later w = (w', Ok r) ∧
    ws_synced r = Z.of_nat (length required) ∧
    ws_requiredUnits r = Z.of_nat (length required) + Z.of_nat (length transfers) ∧
    ws_succeededUnits r = ws_requiredUnits r ∧
    tables_ok (rw_fpl w') (rw_entries w') ∧
    (∀ e, e ∈ active_entries w → complete_entry eventId boundary (so_skipTransfers o) (rw_entries w') e) ∧
    phases_left c eventId ordering live required transfers (rw_entries w) (rw_entries w').
Proof.
  intros boundary ordering missing required transfers Hle Hv Hint Hlive Hok Hpay Hhist Hnew.
  unfold syncTournamentEventResults. destruct (is_nil (findActive w) || is_nil (active_entries w)) eqn:Hnil.
  { assert (active_entries w = []) as Ha.
    { unfold active_entries in *. destruct (findActive w); [done|]. by destruct (dedup _). }
    assert (required = [] ∧ transfers = []) as [-> ->].
    { unfold required, transfers, missing. rewrite Ha. by destruct (so_skipTransfers o). }
    exists w, no_work. split_and!; try done; [rewrite Ha; by intros e ?%elem_of_nil|].
    split; try done; by intros e ?%elem_of_nil. }
  fold boundary ordering. change (missing_units _ _ _ _ (rw_entries w)) with missing.
  assert (missing = (required, transfers, missing.2)) as -> by (unfold required, transfers; by destruct missing as [[]]).
  assert (NoDup required ∧ NoDup transfers) as [Hr Ht].
  { split; [apply NoDup_required|apply NoDup_transfers]; apply NoDup_dedup. }
  rewrite phases_pass with (live := live) by done.
  destruct (phases_leave c (skipping_transfers o boundary ordering) (rw_fpl w) (rw_entries w) eventId ordering
    (nullish (so_transferSourceCheckedAt o) ordering) live (rc_transferOrdering c) required transfers) as [Hok' Hleft]; [done..|].
  set (t' := fold_left _ transfers _) in *. cbn [rw_entries with_entry_tables].
  assert (∀ e, e ∈ active_entries w → complete_entry eventId boundary (so_skipTransfers o) t' e) as Hcomplete.
  { apply (phases_complete c (rw_fpl w) (rw_entries w) t' eventId ordering live); try done. apply NoDup_dedup. }
  destruct (missing_units _ _ _ _ t') as [[results missing'] reused'] eqn:Haudit.
  destruct (proj2 (missing_none _ _ _ _ _ _ _ _ Haudit) Hcomplete) as [-> ->].
  change (units_of [] + units_of []) with 0. cbn [Z.ltb Z.compare]. rewrite Hnew.
  eexists _, _. split; [reflexivity|]. cbn [ws_synced ws_succeededUnits ws_requiredUnits rw_fpl rw_entries with_entry_tables].
  split_and!; [done|unfold units_of; lia|unfold units_of; lia|done|done|done].
Qed.
End properties.

(** ** A gameweek *)

Definition sample_season : FplTables := {|
  ft_seasons := []; ft_events := [mkEventRow (sample_ev 7) None None None None None]; ft_teams := [];
  ft_players := (λ id, mkPlayerRow (sample_player id 50) None true) <$> seqZ 101 15;
  ft_phases := []; ft_fixtures := []; ft_gameweeks := []; ft_items := []; ft_evidence := [] |}.

(** Nothing is stored for the entries; entry 41 has its transfers. *)
Definition sample_entries : EntryTables := {|
  et_entries := [mkEntry 41 (Some 7) None; mkEntry 42 None None]; et_results := [];
  et_picks := []; et_transfers := [] |}.

Definition sample_results_world : ResultsWorld (memory sample_text) :=
  mkResultsWorld sample_season sample_entries [mkTournamentRow 3 true (Some (js "2025-10-01")) [41; 42]] ∅.

Definition sample_results_context : ResultsContext := {|
  rc_seasonCode := js "2526"; rc_ordering := 5000000; rc_transferOrdering := 6000000;
  rc_entryEventPicks := λ e, Ok (if e =? 42 then sample_rich else
    mkRich (rp_picks sample_rich) (of_int 50) (of_int 300) None None None None None []);
  rc_entryTransfers := λ _, Ok [mkRawTransfer (of_int 101) (of_int 50) None (of_int 102) (of_int 50) None (of_int 7) (Some 4000)];
  rc_eventLive := Ok sample_lives |}.

Definition sample_options (skipTransfers : bool) : SyncOptions := mkSyncOptions None skipTransfers None None None None false.

Local Notation sample_results_run skip :=
  (syncTournamentEventResults sample_results_context 7 (sample_options skip) sample_season sample_results_world).

Example sample_results :
  (λ w, ((λ r, (rr_entryId r, rr_eventNetPoints r, rr_captainPoints r, rr_eventAutoSubPoints r)) <$> et_results (rw_entries w.1),
         length (et_picks (rw_entries w.1)), is_ok w.2)) (sample_results_run false) =
  ([(41, 46, Some 2, Some 0); (42, 56, Some 2, Some 12)], 30%nat, true).
Proof. vm_compute. reflexivity. Qed.

(** The boundary is the ordering of the database: gameweek 7 is not final. *)
Lemma sample_boundary skip : freshness_boundary (sample_options skip) 5000000 7 sample_season = 5000000.
Proof. destruct skip; vm_compute; reflexivity. Qed.

Lemma sample_succeeds : is_ok (sample_results_run false).2 = true.
Proof. vm_compute. reflexivity. Qed.

Lemma results_sync_certifies_witness :
  ∃ w' r, sample_results_run false = (w', Ok r) ∧
    complete_entry 7 5000000 false (rw_entries w') 42 ∧ (3, js "2025-10-01", 5000000) ∈ ws_finalizationTargets r.
Proof.
  pose proof sample_succeeds as Hok. destruct (sample_results_run false) as [w' [r|e]] eqn:E; [|discriminate Hok].
  exists w', r. split; [reflexivity|].
  pose proof (results_sync_certifies sample_results_context 7 (sample_options false) sample_season sample_results_world w' r
    (mkTournamentRow 3 true (Some (js "2025-10-01")) [41; 42]) 42 E) as H. cbv zeta in H.
  change (rc_ordering sample_results_context) with 5000000 in H.
  change (rw_fpl sample_results_world) with sample_season in H. rewrite sample_boundary in H.
  destruct H as (Hc & _ & Ht); [apply list_elem_of_here|apply list_elem_of_further, list_elem_of_here|].
  split; [exact Hc|exact (Ht _ eq_refl)].
Defined.

Lemma sample_entries_ok : tables_ok sample_season sample_entries.
Proof.
  split.
  - split; constructor.
  - constructor.
  - by left.
  - by apply (bool_decide_unpack _); vm_compute.
Qed.

Lemma results_sync_converges_witness :
  ∃ w' r, sample_results_run false = (w', Ok r) ∧ ws_synced r = 2 ∧ ws_requiredUnits r = 3 ∧
    complete_entry 7 5000000 false (rw_entries w') 42 ∧ (tr_entryId <$> et_transfers (rw_entries w')) = [42].
Proof.
  pose proof (results_sync_converges sample_results_context 7 (sample_options false) sample_season sample_results_world
    sample_lives) as H. cbv zeta in H.
  change (rc_ordering sample_results_context) with 5000000 in H.
  change (rw_fpl sample_results_world) with sample_season in H. rewrite sample_boundary in H.
  destruct H as (w' & r & Hrun & Hsynced & Hunits & _ & _ & Hcomplete & _).
  - vm_compute. discriminate.
  - vm_compute. discriminate.
  - vm_compute. reflexivity.
  - vm_compute. reflexivity.
  - exact sample_entries_ok.
  - intros e He. assert (e ∈ [41; 42]) as Hin by exact He.
    apply elem_of_cons in Hin as [->|Hin]; [|apply elem_of_cons in Hin as [->|Hin]; [|by apply elem_of_nil in Hin]].
    + split; [vm_compute; reflexivity|]. eexists. split; [reflexivity|]. vm_compute. reflexivity.
    + split; [vm_compute; reflexivity|]. eexists. split; [reflexivity|]. vm_compute. reflexivity.
  - intros e He. assert (e ∈ [42]) as Hin by exact He. apply list_elem_of_singleton in Hin as ->.
    eexists. split; [reflexivity|]. vm_compute. reflexivity.
  - vm_compute. reflexivity.
  - exists w', r. split; [exact Hrun|]. rewrite Hsynced, Hunits.
    split; [vm_compute; reflexivity|]. split; [vm_compute; reflexivity|]. split.
    + apply Hcomplete. vm_compute. apply list_elem_of_further, list_elem_of_here.
    + apply (f_equal (λ x, tr_entryId <$> et_transfers (rw_entries x.1))) in Hrun. cbn [fst] in Hrun.
      rewrite <-Hrun. vm_compute. reflexivity.
Defined.
