(* ===== verification/CronTime.v ===== *)
(** * Cron days ([src/utils/timezone.ts])

    The scheduled jobs of the service go by the calendar of [Asia/Shanghai].  That zone has been eight
    hours ahead of UTC without summer time since 1991, the years the service runs in; the model uses
    that offset throughout.  Days are named by texts, and a due time is a text that is parsed back. *)

From S2P Require Import Prelude JsCollections JsNumber JsDate.

(** ** From instants to texts *)

(** The clock on the wall in Shanghai, as an instant of UTC. *)
Definition shanghai (date : Z) : Z := date + 8 * 3600000.

(** [formatToParts] with a numeric year and two digits for the month and the day.
    src: src/utils/timezone.ts:19-22 formatCronDateKey *)
Definition formatCronDateKey (date : Z) : jsstr :=
  let '(month, day) := utc_month_day (shanghai date) in
  print_int (utc_year (shanghai date)) ++ padded 2 month ++ padded 2 day.

(** [key.slice(from, to)] of a text that is long enough or ends early. *)
Definition slice_text (from to : nat) (s : jsstr) : jsstr := take (to - from) (drop from s).

(** src: src/utils/timezone.ts:24-27 formatCronCalendarDate *)
Definition formatCronCalendarDate (date : Z) : jsstr :=
  let dateKey := formatCronDateKey date in
  slice_text 0 4 dateKey ++ js "-" ++ slice_text 4 6 dateKey ++ js "-" ++ slice_text 6 8 dateKey.

(** src: src/utils/timezone.ts:29-32 getCronMinute *)
Definition getCronMinute (date : Z) : Z := shanghai date / 60000 mod 60.

Section due.
Context (localOffset : Z → Z) (legacyParse : jsstr → option Z).

(** [new Date(...)] of the text of the hour and minute of the day of [date]; [None] is an invalid date.
    src: src/scheduler/job-registry.ts:97-102 utc8DueAt *)
Definition utc8DueAt (date hour minute : Z) : option Z :=
  let key := formatCronDateKey date in
  date_parse localOffset legacyParse
    (slice_text 0 4 key ++ js "-" ++ slice_text 4 6 key ++ js "-" ++ slice_text 6 8 key ++ js "T" ++
     padded 2 hour ++ js ":" ++ padded 2 minute ++ js ":00+08:00").
End due.

(** The day of Shanghai an instant lies in, and where that day begins. *)
Definition cron_day (date : Z) : Z := shanghai date / MS_PER_DAY.
Definition day_start (day : Z) : Z := day * MS_PER_DAY - 8 * 3600000.

(** The instants whose year has four digits. *)
Definition four_digit_year (date : Z) : Prop := 1000 ≤ utc_year (shanghai date) ≤ 9999.

(** ** The calendar *)

Lemma era_split (doe : Z) :
  0 ≤ doe < 146097 →
  let yoe := (doe - doe / 1460 + doe / 36524 - doe / 146096) / 365 in
  0 ≤ yoe < 400 ∧ 0 ≤ doe - year_days yoe < year_days (yoe + 1) - year_days yoe + (if yoe =? 399 then 1 else 0).
Proof.
  intros H yoe. unfold year_days. subst yoe.
  destruct (Z.eqb_spec ((doe - doe / 1460 + doe / 36524 - doe / 146096) / 365) 399); Z.to_euclidean_division_equations; lia.
Qed.

(** Closed comparisons and quotients of the goal. *)
Local Ltac compute_closed :=
  repeat match goal with
  | |- context [?a =? ?b] => let c := eval vm_compute in (a =? b) in change (a =? b) with c
  | |- context [?a <=? ?b] => let c := eval vm_compute in (a <=? b) in change (a <=? b) with c
  | |- context [?a <? ?b] => let c := eval vm_compute in (a <? b) in change (a <? b) with c
  | |- context [?a / 5] => let c := eval vm_compute in (a / 5) in
      match c with Z0 => idtac | Zpos _ => idtac end; change (a / 5) with c
  end; cbn [orb].

(** The day of the year, from March, gives a month and a day of that month. *)
Lemma month_of_day (Y doy : Z) :
  0 ≤ doy < year_days (Y mod 400 + 1) - year_days (Y mod 400) + (if Y mod 400 =? 399 then 1 else 0) →
  let mp := (5 * doy + 2) / 153 in
  let m := if mp <? 10 then mp + 3 else mp - 9 in
  let d := doy - (153 * mp + 2) / 5 + 1 in
  let y := Y + (if mp <? 10 then 0 else 1) in
  1 ≤ m ≤ 12 ∧ 1 ≤ d ≤ days_in_month y m ∧ (if m <=? 2 then y - 1 else y) = Y ∧
  (153 * (if 2 <? m then m - 3 else m + 9) + 2) / 5 + d - 1 = doy.
Proof.
  intros Hd mp m d y.
  set (len := year_days (Y mod 400 + 1) - year_days (Y mod 400) + (if Y mod 400 =? 399 then 1 else 0)) in *.
  assert (len = (if is_leap (Y + 1) then 366 else 365)) as Hlen.
  { subst len. unfold is_leap, year_days. clear. destruct (Z.eqb_spec ((Y + 1) mod 4) 0), (Z.eqb_spec ((Y + 1) mod 100) 0),
      (Z.eqb_spec ((Y + 1) mod 400) 0), (Z.eqb_spec (Y mod 400) 399); cbn [andb orb negb]; Z.to_euclidean_division_equations; lia. }
  rewrite Hlen in Hd. clear Hlen len. assert (0 ≤ doy ≤ 365) as Hdoy by (destruct (is_leap (Y + 1)); lia).
  assert (0 ≤ mp ≤ 11) as Hmp by (subst mp; Z.to_euclidean_division_equations; lia).
  assert (mp = 0 ∨ mp = 1 ∨ mp = 2 ∨ mp = 3 ∨ mp = 4 ∨ mp = 5 ∨ mp = 6 ∨ mp = 7 ∨ mp = 8 ∨ mp = 9 ∨ mp = 10 ∨ mp = 11)
    as Hcases by lia.
  assert (mp * 153 ≤ 5 * doy + 2 < mp * 153 + 153) as Hrange by (subst mp; Z.to_euclidean_division_equations; lia).
  subst m d y. clearbody mp. clear Hmp. unfold days_in_month.
  destruct Hcases as [->|[->|[->|[->|[->|[->|[->|[->|[->|[->|[->| ->]]]]]]]]]]];
    compute_closed; rewrite ?Z.add_0_r; try (split_and!; lia).
  destruct (is_leap (Y + 1)); split_and!; lia.
Qed.

(** The year, month and day of an instant are a date of the calendar, and name its day. *)
Lemma civil_of_instant (ms : Z) :
  let '(m, d) := utc_month_day ms in
  1 ≤ m ≤ 12 ∧ 1 ≤ d ≤ days_in_month (utc_year ms) m ∧ days_of_civil (utc_year ms) m d = ms / MS_PER_DAY.
Proof.
  unfold utc_month_day, utc_year, days_of_civil. set (z := ms / MS_PER_DAY + 719468).
  pose proof (Z.mod_pos_bound z 146097 ltac:(lia)) as Hdoe. pose proof (Z.div_mod z 146097 ltac:(lia)) as Hz.
  set (doe := z mod 146097) in *. set (era := z / 146097) in *. destruct (era_split doe Hdoe) as [Hyoe Hdoy].
  set (yoe := (doe - doe / 1460 + doe / 36524 - doe / 146096) / 365) in *.
  set (doy := doe - year_days yoe) in *. clearbody yoe.
  assert ((yoe + era * 400) mod 400 = yoe) as Hmod by (rewrite Z.mod_add by lia; by apply Z.mod_small).
  assert ((yoe + era * 400) / 400 = era) as Hdiv by (rewrite Z.div_add by lia; rewrite Z.div_small; lia).
  pose proof (month_of_day (yoe + era * 400) doy) as H. rewrite Hmod in H. specialize (H Hdoy). cbv zeta in H.
  destruct H as (Hm & Hd & HY & Hday). split_and!; [apply Hm..|apply Hd|apply Hd|].
  rewrite HY, Hmod, Hdiv. rewrite <-Z.add_sub_assoc in Hday. unfold doy in *. lia.
Qed.

(** ** Texts of digits *)

Lemma digits_loop_length fuel n acc k :
  (0 < k)%nat → 0 ≤ n < 10 ^ Z.of_nat k → (length (digits_loop fuel n acc) ≤ k + length acc)%nat.
Proof.
  revert n acc k. induction fuel as [|fuel IH]; intros n acc k Hk Hn; cbn [digits_loop]; [cbn; lia|].
  destruct (Z.ltb_spec n 10); [cbn; lia|]. destruct k as [|[|k]]; [lia|cbn in Hn; lia|].
  specialize (IH (n / 10) ((48 + n mod 10) :: acc) (S k)). cbn [length] in IH |- *.
  rewrite Nat2Z.inj_succ, Z.pow_succ_r in Hn by lia.
  assert (0 ≤ n / 10 < 10 ^ Z.of_nat (S k)) by (split; [divlia|apply Z.div_lt_upper_bound; lia]). lia.
Qed.

Lemma print_int_length n k : (0 < k)%nat → 0 ≤ n < 10 ^ Z.of_nat k → (length (print_int n) ≤ k)%nat.
Proof.
  intros Hk Hn. unfold print_int. destruct (Z.ltb_spec n 0); [lia|].
  pose proof (digits_loop_length (S (Z.to_nat (Z.log2 n))) n [] k Hk Hn). cbn [length] in *. lia.
Qed.

Lemma padded_length k n : (0 < k)%nat → 0 ≤ n < 10 ^ Z.of_nat k → length (padded k n) = k.
Proof.
  intros Hk Hn. unfold padded. rewrite length_app, repeat_length. pose proof (print_int_length n k Hk Hn). lia.
Qed.

Lemma padded_digits k n : 0 ≤ n → forallb is_digit (padded k n) = true.
Proof.
  intros Hn. unfold padded. rewrite forallb_app, (print_int_digits n Hn), andb_true_r.
  induction (k - length (print_int n))%nat; [done|]. by cbn.
Qed.

Lemma digits_value_padded k n : 0 ≤ n → digits_value 10 (padded k n) = n.
Proof.
  intros Hn. unfold padded, digits_value. rewrite fold_left_app.
  assert (fold_left (λ acc c, 10 * acc + digit_value c) (repeat 48 (k - length (print_int n))) 0 = 0) as ->.
  { induction (k - length (print_int n))%nat; [done|]. by cbn. }
  by apply digits_value_print.
Qed.

Lemma take_digits_app k ds s :
  length ds = k → forallb is_digit ds = true → take_digits k (ds ++ s) = Some (digits_value 10 ds, s).
Proof.
  intros Hl Hd. unfold take_digits. rewrite take_app_length', drop_app_length' by done.
  by rewrite Hl, Nat.eqb_refl, Hd.
Qed.

Lemma take_digits_padded k n s :
  (0 < k)%nat → 0 ≤ n < 10 ^ Z.of_nat k → take_digits k (padded k n ++ s) = Some (n, s).
Proof.
  intros Hk Hn. rewrite take_digits_app; [|by apply padded_length|apply padded_digits; lia].
  by rewrite digits_value_padded by lia.
Qed.

(** A year of four digits is printed with four. *)
Lemma print_year y : 1000 ≤ y ≤ 9999 → print_int y = padded 4 y.
Proof.
  intros Hy. unfold padded. pose proof (print_int_length y 4 ltac:(lia) ltac:(cbn; lia)) as Hle.
  destruct (decide (length (print_int y) = 4)%nat) as [->|Hne]; [done|].
  assert (digits_value 10 (print_int y) < 10 ^ Z.of_nat (length (print_int y))) as Hlt.
  { pose proof (print_int_digits y ltac:(lia)) as Hd. revert Hd. clear. unfold digits_value.
    assert (∀ ds a, 0 ≤ a → forallb is_digit ds = true →
      fold_left (λ acc c, 10 * acc + digit_value c) ds a < (a + 1) * 10 ^ Z.of_nat (length ds)) as H.
    { induction ds as [|c ds IH]; intros a Ha Hd; [cbn; lia|]. cbn [forallb] in Hd. apply andb_true_iff in Hd as [Hc Hd].
      assert (0 ≤ digit_value c ≤ 9) by (unfold digit_value; rewrite Hc; unfold is_digit in Hc; boolsolve; lia).
      cbn [fold_left length]. specialize (IH (10 * a + digit_value c) ltac:(lia) Hd).
      rewrite Nat2Z.inj_succ, Z.pow_succ_r by lia.
      assert (0 < 10 ^ Z.of_nat (length ds)) by (apply Z.pow_pos_nonneg; lia). nia. }
    intros Hd. specialize (H _ 0 ltac:(lia) Hd). lia. }
  rewrite digits_value_print in Hlt by lia.
  assert (10 ^ Z.of_nat (length (print_int y)) ≤ 10 ^ 3) by (apply Z.pow_le_mono_r; lia). lia.
Qed.

(** ** Days *)

Lemma cron_civil date :
  let y := utc_year (shanghai date) in let '(m, d) := utc_month_day (shanghai date) in
  1 ≤ m ≤ 12 ∧ 1 ≤ d ≤ days_in_month y m ∧ days_of_civil y m d = cron_day date.
Proof. apply civil_of_instant. Qed.

Lemma days_in_month_small y m : 1 ≤ m → days_in_month y m ≤ 31.
Proof. unfold days_in_month. intros. repeat case_match; lia. Qed.

(** The parts of a key. *)
Lemma cron_key date :
  four_digit_year date →
  let '(m, d) := utc_month_day (shanghai date) in
  formatCronDateKey date = padded 4 (utc_year (shanghai date)) ++ padded 2 m ++ padded 2 d.
Proof.
  intros Hy. unfold formatCronDateKey. destruct (utc_month_day (shanghai date)) as [m d]. by rewrite print_year.
Qed.

(** Keys name days: two instants have one key exactly when they lie in one day. *)
Lemma cron_key_day a b :
  four_digit_year a → four_digit_year b → formatCronDateKey a = formatCronDateKey b ↔ cron_day a = cron_day b.
Proof.
  intros Ha Hb. split.
  - pose proof (cron_key a Ha) as Ka. pose proof (cron_key b Hb) as Kb.
    pose proof (cron_civil a) as Ca. pose proof (cron_civil b) as Cb.
    destruct (utc_month_day (shanghai a)) as [m d], (utc_month_day (shanghai b)) as [m' d'].
    cbv zeta in Ca, Cb. destruct Ca as (Hm & Hd & <-), Cb as (Hm' & Hd' & <-). rewrite Ka, Kb. intros Heq.
    unfold four_digit_year in Ha, Hb.
    pose proof (days_in_month_small (utc_year (shanghai a)) m ltac:(lia)).
    pose proof (days_in_month_small (utc_year (shanghai b)) m' ltac:(lia)).
    apply (f_equal (λ s, take_digits 4 s)) in Heq as Hy. rewrite !take_digits_padded in Hy by (cbn; lia).
    injection Hy as Hyy Hy. apply (f_equal (λ s, take_digits 2 s)) in Hy as Hmm.
    rewrite !take_digits_padded in Hmm by (cbn; lia). injection Hmm as Hmm Hdd.
    rewrite <-(app_nil_r (padded 2 d)), <-(app_nil_r (padded 2 d')) in Hdd.
    apply (f_equal (λ s, take_digits 2 s)) in Hdd. rewrite !take_digits_padded in Hdd by (cbn; lia).
    injection Hdd as Hdd. congruence.
  - unfold cron_day, formatCronDateKey. intros Heq.
    assert (utc_year (shanghai a) = utc_year (shanghai b) ∧ utc_month_day (shanghai a) = utc_month_day (shanghai b)) as [-> ->];
      [|done]. unfold utc_year, utc_month_day. by rewrite Heq.
Qed.

Section parsing.
Context (localOffset : Z → Z) (legacyParse : jsstr → option Z).

Lemma expect_padded c k n s :
  c = "+"%string ∨ c = "-"%string → (0 < k)%nat → 0 ≤ n < 10 ^ Z.of_nat k → expect c (padded k n ++ s) = None.
Proof.
  intros Hc Hk Hn. pose proof (padded_length k n Hk Hn) as Hl. pose proof (padded_digits k n ltac:(lia)) as Hd.
  destruct (padded k n) as [|x l]; [cbn in Hl; lia|]. cbn [forallb app] in Hd |- *. apply andb_true_iff in Hd as [Hx _].
  unfold is_digit in Hx. boolsolve. destruct Hc as [->| ->]; unfold expect.
  - change (js "+") with [43]. cbn. by rewrite (proj2 (Z.eqb_neq x 43)) by lia.
  - change (js "-") with [45]. cbn. by rewrite (proj2 (Z.eqb_neq x 45)) by lia.
Qed.

Lemma dash_field n s : 0 ≤ n < 100 → optional_digits "-" 2 1 (js "-" ++ padded 2 n ++ s) = Some (n, s).
Proof. intros Hn. change (take_digits 2 (padded 2 n ++ s) = Some (n, s)). by apply take_digits_padded; cbn; lia. Qed.

Lemma bind_Some_eq {A B} (x : A) (f : A → option B) : Some x ≫= f = f x.
Proof. done. Qed.

(** A text of a calendar date and a time of day with the offset of Shanghai. *)
Lemma parse_cron_text y m d hour minute :
  1000 ≤ y ≤ 9999 → 1 ≤ m ≤ 12 → 1 ≤ d ≤ days_in_month y m → 0 ≤ hour < 24 → 0 ≤ minute < 60 →
  parse_iso localOffset (padded 4 y ++ js "-" ++ padded 2 m ++ js "-" ++ padded 2 d ++ js "T" ++
     padded 2 hour ++ js ":" ++ padded 2 minute ++ js ":00+08:00") =
  Some (day_start (days_of_civil y m d) + hour * 3600000 + minute * 60000).
Proof.
  intros Hy Hm Hd Hh Hmin. pose proof (days_in_month_small y m ltac:(lia)).
  unfold parse_iso, parse_year. rewrite !expect_padded by (auto || cbn; lia).
  rewrite take_digits_padded, bind_Some_eq by (cbn; lia). cbn [snd]. rewrite dash_field, bind_Some_eq by lia. cbn [snd].
  rewrite dash_field, bind_Some_eq by lia. cbn [snd].
  change (expect "T" (js "T" ++ ?s)) with (Some s). cbv beta iota. unfold parse_time.
  rewrite take_digits_padded, bind_Some_eq by (cbn; lia). cbn [snd fst].
  change (expect ":" (js ":" ++ ?s)) with (Some s). rewrite bind_Some_eq, take_digits_padded, bind_Some_eq by (cbn; lia).
  cbn [snd fst]. change (optional_digits ":" 2 0 (js ":00+08:00")) with (Some (0, js "+08:00")).
  rewrite bind_Some_eq. cbn [snd fst].
  change (optional_digits "." 3 0 (js "+08:00")) with (Some (0, js "+08:00")). rewrite bind_Some_eq. cbn [snd fst].
  change (parse_offset (js "+08:00")) with (Some (Some 480)). rewrite bind_Some_eq.
  rewrite (proj2 (Z.ltb_lt minute 60)), (proj2 (Z.leb_le _ MS_PER_DAY)) by (unfold MS_PER_DAY; lia).
  change (0 <? 60) with true. cbn [andb]. rewrite bind_Some_eq. cbn [snd fst].
  rewrite !(proj2 (Z.leb_le _ _)) by lia. cbn [andb]. f_equal. unfold day_start, MS_PER_DAY. lia.
Qed.

Lemma civil_days_bound y m d : 1000 ≤ y ≤ 9999 → 1 ≤ m ≤ 12 → 1 ≤ d ≤ 31 → Z.abs (days_of_civil y m d) ≤ 4000000.
Proof.
  intros Hy Hm Hd. unfold days_of_civil, year_days.
  destruct (Z.leb_spec m 2), (Z.ltb_spec 2 m); try lia; Z.to_euclidean_division_equations; lia.
Qed.

(** The due time is the hour and minute of the day of [date]. *)
Lemma utc8DueAt_spec date hour minute :
  four_digit_year date → 0 ≤ hour < 24 → 0 ≤ minute < 60 →
  utc8DueAt localOffset legacyParse date hour minute =
    Some (day_start (cron_day date) + hour * 3600000 + minute * 60000).
Proof.
  intros Hy Hh Hmin. unfold utc8DueAt. pose proof (cron_key date Hy) as Hkey. pose proof (cron_civil date) as Hc.
  cbv zeta in Hc. destruct (utc_month_day (shanghai date)) as [m d]. destruct Hc as (Hm & Hd & <-). rewrite Hkey.
  pose proof (days_in_month_small (utc_year (shanghai date)) m ltac:(lia)). unfold four_digit_year in Hy.
  pose proof (padded_length 4 (utc_year (shanghai date)) ltac:(lia) ltac:(cbn; lia)) as L4.
  pose proof (padded_length 2 m ltac:(lia) ltac:(cbn; lia)) as Lm.
  pose proof (padded_length 2 d ltac:(lia) ltac:(cbn; lia)) as Ld.
  assert (∀ a b c : jsstr, length a = 4%nat → length b = 2%nat → length c = 2%nat →
    slice_text 0 4 (a ++ b ++ c) = a ∧ slice_text 4 6 (a ++ b ++ c) = b ∧ slice_text 6 8 (a ++ b ++ c) = c) as Hslice.
  { intros a b c. destruct a as [|? [|? [|? [|? [|]]]]]; try done. destruct b as [|? [|? [|]]]; try done.
    destruct c as [|? [|? [|]]]; done. }
  destruct (Hslice _ _ _ L4 Lm Ld) as (-> & -> & ->). unfold date_parse. rewrite parse_cron_text by lia.
  pose proof (civil_days_bound (utc_year (shanghai date)) m d ltac:(lia) ltac:(lia) ltac:(lia)).
  rewrite (proj2 (Z.leb_le _ _)); [done|]. unfold day_start, MS_PER_DAY. lia.
Qed.
End parsing.

Lemma day_start_bounds date : day_start (cron_day date) ≤ date < day_start (cron_day date) + MS_PER_DAY.
Proof. unfold cron_day, day_start, shanghai, MS_PER_DAY. divlia. Qed.

Lemma cron_day_of day t : 0 ≤ t < MS_PER_DAY → cron_day (day_start day + t) = day.
Proof.
  intros Ht. unfold cron_day, day_start, shanghai, MS_PER_DAY in *. symmetry. apply Z.div_unique with t; lia.
Qed.

Example sample_day :
  (formatCronDateKey 1735660799999, formatCronDateKey 1735660800000, utc8DueAt (λ _, 0) (λ _, None) 1735660800000 9 25) =
  (js "20241231", js "20250101", Some 1735694700000).
Proof. vm_compute. reflexivity. Qed.
