(* ===== verification/SchedulerPlans.v ===== *)
(** * Scheduler plans ([src/scheduler/job-registry.ts])

    What is due: every job of the registry plans obligations from the clock, the canonical events and
    fixtures of the season, and the publications.  A pass ([src/scheduler/scheduler.service.ts])
    reserves the plans, claims what is due and hands each claim to a queue.

    Plans hold milliseconds; the table of [Obligations] holds microseconds.  The reads of a pass do
    not depend on the obligation table, so they are one argument, [SchedulerReads]; the queues, the
    fingerprint of a lifecycle and [localeCompare] are parameters. *)

From S2P Require Import Prelude JsCollections JsNumber JsDate Json Postgres Obligations CoreEntities FplStore CronTime.
From S2P Require Conditions LiveLifecycle.

#[local] Existing Instance LiveLifecycle.lifecycle_state_eq_dec.

(** ** What a pass reads *)

(** src: src/domain/core-snapshot-refresh.ts:22-26 CorePublicationLifecycle *)
Record CorePublicationLifecycle := mkCoreLifecycle {
  cl_currentEventId : option Z;
  cl_events : list Event;
  cl_fixtures : list Fixture;
}.

(** The tables of the season, the core publication of the cache, whether the active core publication of the
    ledger can be delivered, and the gameweeks with a final publication of personal pages. *)
Record SchedulerReads := mkReads {
  sr_fpl : FplTables;
  sr_publication : option CorePublicationLifecycle;
  sr_durable : bool;
  sr_finalMyFpl : Z → bool;
}.

(** [currentEventDeadline] and the deadlines are instants.
    src: src/scheduler/job-registry.ts:68-77 SchedulerContext *)
Record SchedulerContext := mkContext {
  sc_now : Z;
  sc_seasonId : Z;
  sc_seasonCode : jsstr;
  sc_currentEventId : option Z;
  sc_currentEventDeadline : option Z;
  sc_events : list (Z * option Z);
}.

(** [new Date(event.deadlineTime)] of the column. *)
Definition deadline_of (r : EventRow) : option Z := (λ t, t / 1000) <$> er_deadline r.

(** src: src/scheduler/job-registry.ts:995-1020 resolveSchedulerContext *)
Definition resolveSchedulerContext (season : Z * jsstr) (now : Z) (fpl : FplTables) : SchedulerContext :=
  let events := (λ r, (event_id r, deadline_of r)) <$>
    List.filter (λ r, 0 <? event_id r) (js_sort (by_key event_id) (ft_events fpl)) in
  let started (e : Z * option Z) := match e.2 with Some d => d <=? now | None => false end in
  let currentEvent := head (js_sort (by_key (λ e : Z * option Z, - nullish e.2 0)) (List.filter started events)) in
  mkContext now season.1 season.2 (fst <$> currentEvent) (currentEvent ≫= snd) events.

(** src: src/repositories/events.ts:141-158 findById *)
Definition findById (eventId : Z) (fpl : FplTables) : option EventRow := find_by event_id eventId (ft_events fpl).

(** What the conditions read of an event and of a fixture. *)
Definition condition_event (r : EventRow) : Conditions.Event :=
  Conditions.mkEvent (deadline_of r) (ev_finished (er_event r)) (ev_dataChecked (er_event r)).
Definition condition_fixture (f : Fixture) : Conditions.Fixture :=
  Conditions.mkFixture (fx_kickoffTime f) (fx_started f) (fx_finished f) (fx_finishedProvisional f).

(** ** Keys *)

Definition event_scope (seasonCode : jsstr) (eventId : Z) : jsstr := seasonCode ++ js ":event:" ++ print_int eventId.

(** A plan whose due time is in milliseconds. *)
Definition plan_at (scope period : jsstr) (dueAt : Z) (source : SchedulerSource) (eventId : option Z)
    (evidence : option (list (jsstr * json))) : SchedulerObligationPlan :=
  mkObligationPlan scope period (dueAt * 1000) source eventId None evidence.

Definition text (s : string) : json := JString (js s).
Definition int (n : Z) : json := JNumber (of_int n).

(** ** Results after the matches *)

Definition MATCH_DURATION_MS : Z := 2 * 60 * 60 * 1000.
Definition RESULT_SLOT_MS : Z := 60 * 60 * 1000.
Definition POST_MATCH_RESULTS_WINDOW_MS : Z := 24 * 60 * 60 * 1000.

(** [`final-${n}`] or [`provisional-${n}`]. *)
Inductive ResultsSlot := FinalSlot (n : Z) | ProvisionalSlot (n : Z).

Definition slot_text (s : ResultsSlot) : jsstr :=
  match s with FinalSlot n => js "final-" ++ print_int n | ProvisionalSlot n => js "provisional-" ++ print_int n end.

(** src: src/domain/post-match-results.ts:16-48 getPostMatchResultsSlot *)
Definition getPostMatchResultsSlot (dataChecked : bool) (fixtures : list Fixture) (now : Z) : option ResultsSlot :=
  match omap fx_kickoffTime fixtures with
  | [] => None
  | k :: ks =>
      let matchEndMs := Conditions.max_of k ks + MATCH_DURATION_MS in
      let elapsedMs := now - matchEndMs in
      if (elapsedMs <=? 0) || (POST_MATCH_RESULTS_WINDOW_MS <=? elapsedMs) then None
      else Some (if dataChecked then FinalSlot (elapsedMs / RESULT_SLOT_MS)
                 else ProvisionalSlot (elapsedMs / RESULT_SLOT_MS))
  end.

(** ** The lifecycle of the core publication *)

(** src: src/domain/core-snapshot-refresh.ts:5-10 CoreSnapshotRefreshReason *)
Inductive CoreSnapshotRefreshReason :=
| MissingPublication | EventId | EventLifecycle | FixtureLifecycle | KickoffCutover.

#[export] Instance refresh_reason_eq_dec : EqDecision CoreSnapshotRefreshReason.
Proof. solve_decision. Defined.

Definition reason_text (r : CoreSnapshotRefreshReason) : jsstr :=
  js match r with
     | MissingPublication => "missing-publication" | EventId => "event-id" | EventLifecycle => "event-lifecycle"
     | FixtureLifecycle => "fixture-lifecycle" | KickoffCutover => "kickoff-cutover"
     end.

Definition KICKOFF_CUTOVER_REFRESH_WINDOW_MS : Z := 20 * 60000.

Definition bool_text (b : bool) : jsstr := js (if b then "true" else "false").

(** [[...].join(':')]; null is the empty text.
    src: src/domain/core-snapshot-refresh.ts:28-36 fixtureLifecycleKey *)
Definition fixtureLifecycleKey (f : Fixture) : jsstr :=
  print_int (fx_id f) ++ js ":" ++ from_option print_int [] (fx_event f) ++ js ":" ++
  from_option bool_text [] (fx_started f) ++ js ":" ++ bool_text (fx_finished f) ++ js ":" ++
  bool_text (fx_finishedProvisional f).

Section lifecycle.
Context (localeCompare : jsstr → jsstr → Z).    (* the order of the host's collation *)
Context (fingerprint : json → jsstr).           (* of the text of a value, by SHA-256 *)

Definition opt_json {A} (f : A → json) (x : option A) : json := from_option f JNull x.

(** src: src/domain/core-snapshot-refresh.ts:43-71 coreLifecycleReconcilePeriodKey *)
Definition coreLifecycleReconcilePeriodKey (current : Event) (currentFixtures : list Fixture)
    (reason : CoreSnapshotRefreshReason) : jsstr :=
  let target := JObject [
    (js "reason", JString (reason_text reason));
    (js "event", JObject [
      (js "id", int (ev_id current)); (js "isPrevious", JBool (ev_isPrevious current));
      (js "isCurrent", JBool (ev_isCurrent current)); (js "isNext", JBool (ev_isNext current));
      (js "finished", JBool (ev_finished current)); (js "dataChecked", JBool (ev_dataChecked current))]);
    (js "fixtures", JArray ((λ f, JObject [
      (js "id", int (fx_id f)); (js "event", opt_json int (fx_event f));
      (js "kickoffTime", opt_json (JString ∘ toISOString) (fx_kickoffTime f));
      (js "started", opt_json JBool (fx_started f)); (js "finished", JBool (fx_finished f));
      (js "finishedProvisional", JBool (fx_finishedProvisional f))]) <$> js_sort (by_key fx_id) currentFixtures))] in
  js "core-lifecycle-" ++ print_int (ev_id current) ++ js "-" ++ reason_text reason ++ js "-" ++ fingerprint target.

(** What the comparison reads of an event.
    src: src/domain/core-snapshot-refresh.ts:88-97 coreSnapshotRefreshReason *)
Definition event_flags (e : Event) : bool * bool * bool * bool * bool :=
  (ev_isPrevious e, ev_isCurrent e, ev_isNext e, ev_finished e, ev_dataChecked e).

(** src: src/domain/core-snapshot-refresh.ts:78-132 coreSnapshotRefreshReason *)
Definition coreSnapshotRefreshReason (current : option Event) (currentFixtures : list Fixture)
    (publication : option CorePublicationLifecycle) (now : Z) : option CoreSnapshotRefreshReason :=
  match publication with
  | None => Some MissingPublication
  | Some publication =>
      if negb (bool_decide (cl_currentEventId publication = ev_id <$> current)) then Some EventId else
      match current with
      | None => None
      | Some current =>
          let publishedEvent := List.find (λ e, ev_id e =? ev_id current) (cl_events publication) in
          if negb (bool_decide (event_flags <$> publishedEvent = Some (event_flags current))) then Some EventLifecycle else
          let storedFixtureKeys := js_sort localeCompare (fixtureLifecycleKey <$> currentFixtures) in
          let publishedFixtures :=
            List.filter (λ f, bool_decide (fx_event f = Some (ev_id current))) (cl_fixtures publication) in
          let publishedFixtureKeys := js_sort localeCompare (fixtureLifecycleKey <$> publishedFixtures) in
          if negb (bool_decide (storedFixtureKeys = publishedFixtureKeys)) then Some FixtureLifecycle else
          let hasLifecycleProgress := existsb (λ f, bool_decide (fx_started f = Some true) || fx_finished f ||
                                                    fx_finishedProvisional f) publishedFixtures in
          match omap fx_kickoffTime publishedFixtures with
          | k :: ks =>
              let firstKickoff := Conditions.min_of k ks in
              if (firstKickoff <=? now) && (now <? firstKickoff + KICKOFF_CUTOVER_REFRESH_WINDOW_MS) &&
                 negb hasLifecycleProgress
              then Some KickoffCutover else None
          | [] => None
          end
      end
  end.
End lifecycle.

(** ** Plans *)

(** src: src/scheduler/job-registry.ts:50-55 CatchUpPolicy *)
Inductive CatchUpPolicy := CurrentDayOnly | LatestAuthoritative | Checkpoint | EventCheckpoint | NoCatchUp.

#[export] Instance policy_eq_dec : EqDecision CatchUpPolicy.
Proof. solve_decision. Defined.

Definition DAY : Z := 24 * 60 * 60000.

Section plans.
Context (localOffset : Z → Z) (legacyParse : jsstr → option Z).
Context (localeCompare : jsstr → jsstr → Z) (fingerprint : json → jsstr).
Context (cfg : LiveLifecycle.LifecycleConfig).
Implicit Types (c : SchedulerContext) (r : SchedulerReads).

Definition due_at := utc8DueAt localOffset legacyParse.

(** The plan that closes a market day of the past.
    src: src/scheduler/job-registry.ts:138-145 dailyDefinition *)
Definition expired_market_plan c (dueAt daysAgo : Z) : SchedulerObligationPlan :=
  let previousDueAt := dueAt - daysAgo * DAY in
  mkObligationPlan (sc_seasonCode c) (formatCronDateKey previousDueAt) (previousDueAt * 1000) SourceReconcile None
    (Some Irrecoverable)
    (Some [(js "reason", text "market-window-expired"); (js "policy", text "current-day-only")]).

(** An invalid due time makes the pass throw, here at once.
    src: src/scheduler/job-registry.ts:118-148 dailyDefinition *)
Definition daily_plans (hour minute : Z) (catchUpPolicy : CatchUpPolicy) c r : result (list SchedulerObligationPlan) :=
  match due_at (sc_now c) hour minute with
  | None => Throw "INVALID_DATE"
  | Some dueAt =>
      let current := plan_at (sc_seasonCode c) (formatCronDateKey (sc_now c)) dueAt SourceCatchup None None in
      if negb (bool_decide (catchUpPolicy = CurrentDayOnly)) then
        if sc_now c <? dueAt then Ok [] else Ok [current]
      else
        let terminalPlans := expired_market_plan c dueAt <$> seqZ 1 31 in
        Ok (terminalPlans ++ if dueAt <=? sc_now c then [current] else [])
  end.

(** src: src/scheduler/job-registry.ts:185-205 eventDefinition *)
Definition event_plans (allDueEvents : bool) c r : result (list SchedulerObligationPlan) :=
  let candidates :=
    if allDueEvents then sc_events c
    else match sc_currentEventId c, sc_currentEventDeadline c with
         | Some id, Some deadline => [(id, Some deadline)]
         | _, _ => []
         end in
  Ok (omap (λ e : Z * option Z,
        deadline ← e.2;
        let dueAt := deadline + 30 * 60000 in
        if sc_now c <? dueAt then None
        else Some (plan_at (event_scope (sc_seasonCode c) e.1) (js "event-" ++ print_int e.1) dueAt SourceCatchup (Some e.1) None))
      candidates).

(** src: src/scheduler/job-registry.ts:218-238 myFplSnapshotDefinition *)
Definition my_fpl_snapshot_plans c r : result (list SchedulerObligationPlan) :=
  match due_at (sc_now c) 10 45 with
  | None => Throw "INVALID_DATE"
  | Some dueAt =>
      if sc_now c <? dueAt then Ok [] else
      let dateKey := formatCronDateKey (sc_now c) in
      Ok (omap (λ e : Z * option Z,
            deadline ← e.2;
            if sc_now c <? deadline then None else
            lifecycle ← findById e.1 (sr_fpl r);
            if ev_finished (er_event lifecycle) && ev_dataChecked (er_event lifecycle) then None else
            if sr_finalMyFpl r e.1 then None else
            Some (plan_at (event_scope (sc_seasonCode c) e.1) (js "daily-" ++ print_int e.1 ++ js "-" ++ dateKey) dueAt
                    SourceCatchup (Some e.1)
                    (Some [(js "snapshotKind", text "PROVISIONAL"); (js "snapshotDate", JString dateKey)])))
          (sc_events c))
  end.

(** src: src/scheduler/job-registry.ts:263-280 myFplFinalizationDefinition *)
Definition my_fpl_finalization_plans c r : result (list SchedulerObligationPlan) :=
  Ok (omap (λ e : Z * option Z,
        lifecycle ← findById e.1 (sr_fpl r);
        if negb (ev_finished (er_event lifecycle)) || negb (ev_dataChecked (er_event lifecycle)) then None else
        if sr_finalMyFpl r e.1 then None else
        let checkedAt := from_option (λ t, toISOString (t / 1000)) (js "unknown") (er_dataCheckedAt lifecycle) in
        Some (plan_at (event_scope (sc_seasonCode c) e.1) (js "final-" ++ print_int e.1 ++ js "-" ++ checkedAt) (sc_now c)
                SourceReconcile (Some e.1)
                (Some [(js "snapshotKind", text "FINAL"); (js "dataCheckedAt", JString checkedAt)])))
      (sc_events c)).

(** src: src/scheduler/job-registry.ts:331-349 periodicMaintenanceDefinition *)
Definition periodic_plans (periodMs : Z) (minuteOfHour : option Z) c r : result (list SchedulerObligationPlan) :=
  let offsetMs := nullish minuteOfHour 0 * 60000 in
  let bucket := (sc_now c - offsetMs) / periodMs in
  let dueAt := bucket * periodMs + offsetMs in
  if sc_now c <? dueAt then Ok [] else
  Ok [plan_at (sc_seasonCode c) (js "maintenance-" ++ print_int bucket) dueAt SourceCatchup None None].

(** The current gameweek with its row and its fixtures. *)
Definition current_event c r : option (EventRow * list Fixture) :=
  eventId ← sc_currentEventId c;
  event ← findById eventId (sr_fpl r);
  Some (event, fixtures_findByEvent (event_id event) (sr_fpl r)).

Definition no_plan (plan : option SchedulerObligationPlan) : result (list SchedulerObligationPlan) :=
  Ok (from_option (λ p, [p]) [] plan).

(** The hour of the day in Shanghai, from 0 to 23. *)
Definition cron_hour (now : Z) : Z := shanghai now / 3600000 mod 24.

(** src: src/scheduler/job-registry.ts:367-396 postMatchMaintenanceDefinition *)
Definition post_match_plans c r : result (list SchedulerObligationPlan) :=
  match current_event c r with
  | None => Ok []
  | Some (event, fixtures) =>
      match getPostMatchResultsSlot (ev_dataChecked (er_event event)) fixtures (sc_now c) with
      | None => Ok []
      | Some resultSlot =>
          let dateKey := formatCronDateKey (sc_now c) in
          let hour := cron_hour (sc_now c) in
          if negb (bool_decide (hour ∈ [6; 8; 10])) then Ok [] else
          match due_at (sc_now c) hour 0 with
          | None => Throw "INVALID_DATE"
          | Some dueAt =>
              if sc_now c <? dueAt then Ok [] else
              Ok [plan_at (event_scope (sc_seasonCode c) (event_id event))
                    (js "post-match-" ++ dateKey ++ js "-" ++ print_int hour ++ js "-" ++ slot_text resultSlot)
                    dueAt SourceCatchup (Some (event_id event)) (Some [(js "resultSlot", JString (slot_text resultSlot))])]
          end
      end
  end.

(** src: src/scheduler/job-registry.ts:417-440 liveSnapshotDefinition *)
Definition live_snapshot_plans c r : result (list SchedulerObligationPlan) :=
  no_plan (
    eventId ← sc_currentEventId c;
    currentEvent ← List.find (λ e : Z * option Z, e.1 =? eventId) (sc_events c);
    _ ← currentEvent.2;
    current ← current_event c r;
    let '(event, fixtures) := current in
    if negb (Conditions.isMatchDayTime (condition_event event) (condition_fixture <$> fixtures) (sc_now c)) then None else
    let bucket := sc_now c / 30000 in
    let persistBucket := sc_now c / (10 * 60000) in
    Some (plan_at (event_scope (sc_seasonCode c) (event_id event))
            (js "live-" ++ print_int (event_id event) ++ js "-" ++ print_int bucket) (sc_now c) SourceReconcile
            (Some (event_id event))
            (Some [(js "persistEventLives", JBool (sc_now c mod (10 * 60000) <? 30000));
                   (js "persistBucket", int persistBucket)]))).

(** src: src/scheduler/job-registry.ts:465-496 coreLifecycleReconcileDefinition *)
Definition core_lifecycle_plans c r : result (list SchedulerObligationPlan) :=
  no_plan (
    current ← current_event c r;
    let '(event, fixtures) := current in
    reason ← if sr_durable r
             then coreSnapshotRefreshReason localeCompare (Some (er_event event)) fixtures (sr_publication r) (sc_now c)
             else Some MissingPublication;
    Some (plan_at (sc_seasonCode c ++ js ":core-lifecycle")
            (coreLifecycleReconcilePeriodKey fingerprint (er_event event) fixtures reason) (sc_now c) SourceReconcile
            (Some (event_id event))
            (Some [(js "reason", JString (reason_text reason)); (js "targetEventId", int (event_id event))]))).

(** src: src/scheduler/job-registry.ts:518-535 liveFinalizationDefinition *)
Definition live_finalization_plans c r : result (list SchedulerObligationPlan) :=
  no_plan (
    current ← current_event c r;
    let '(event, fixtures) := current in
    match getPostMatchResultsSlot (ev_dataChecked (er_event event)) fixtures (sc_now c) with
    | Some (FinalSlot n) =>
        Some (plan_at (event_scope (sc_seasonCode c) (event_id event))
                (js "live-final-" ++ print_int (event_id event) ++ js "-" ++ slot_text (FinalSlot n)) (sc_now c)
                SourceReconcile (Some (event_id event))
                (Some [(js "resultSlot", JString (slot_text (FinalSlot n))); (js "finalizeEvent", JBool true);
                       (js "persistEventLives", JBool true)]))
    | _ => None
    end).

(** The name of a state. *)
Definition state_text (s : LiveLifecycle.LiveLifecycleState) : string :=
  match s with
  | LiveLifecycle.PRE_DEADLINE => "PRE_DEADLINE" | LiveLifecycle.PICKS_WAIT => "PICKS_WAIT"
  | LiveLifecycle.PICKS_PROBE => "PICKS_PROBE" | LiveLifecycle.PICKS_SYNC => "PICKS_SYNC"
  | LiveLifecycle.LIVE_ACTIVE => "LIVE_ACTIVE" | LiveLifecycle.BETWEEN_FIXTURES => "BETWEEN_FIXTURES"
  | LiveLifecycle.DAY_SETTLING => "DAY_SETTLING" | LiveLifecycle.GW_REVIEW => "GW_REVIEW"
  | LiveLifecycle.FINALIZED => "FINALIZED"
  end.

Definition no_observation : LiveLifecycle.LiveLifecycleObservation :=
  LiveLifecycle.mkObservation None None None None None.

(** src: src/scheduler/job-registry.ts:561-580 activePlayerStatsDefinition *)
Definition active_player_stats_plans c r : result (list SchedulerObligationPlan) :=
  no_plan (
    current ← current_event c r;
    let '(event, fixtures) := current in
    let state := LiveLifecycle.ld_state (LiveLifecycle.decideLiveLifecycle cfg (condition_event event)
                   (condition_fixture <$> fixtures) (sc_now c) no_observation) in
    let liveWindow := bool_decide (state = LiveLifecycle.LIVE_ACTIVE) || bool_decide (state = LiveLifecycle.DAY_SETTLING) in
    if negb liveWindow && negb (sc_now c / 60000 mod 60 mod 5 =? 0) then None else
    let bucket := sc_now c / 60000 in
    Some (plan_at (event_scope (sc_seasonCode c) (event_id event))
            (js "player-stats-" ++ print_int (event_id event) ++ js "-" ++ print_int bucket) (sc_now c) SourceReconcile
            (Some (event_id event))
            (Some [(js "lifecycleState", text (state_text state)); (js "liveWindow", JBool liveWindow)]))).
End plans.

(** ** Queues *)

(** A call of an enqueue function: its name, its source, the gameweek, and the options of its kind. *)
Record QueueRequest := mkRequest {
  qr_function : string;
  qr_source : string;
  qr_eventId : option Z;
  qr_jobId : jsstr;
  qr_obligationId : jsstr;
  qr_generation : Z;
  qr_options : list (jsstr * json);
}.

(** [`scheduler-${obligationId}-g${generation}`] *)
Definition scheduler_job_id (obligationId : jsstr) (generation : Z) : jsstr :=
  js "scheduler-" ++ obligationId ++ js "-g" ++ print_int generation.

Definition request (function source : string) (eventId : option Z) (options : list (jsstr * json))
    (obligationId : jsstr) (generation : Z) : QueueRequest :=
  mkRequest function source eventId (scheduler_job_id obligationId generation) obligationId generation options.

Section registry.
(** The queues: the ids of the job of a request, or an error. *)
Context (enqueue : QueueRequest → result (option jsstr * option jsstr)).
Context (localOffset : Z → Z) (legacyParse : jsstr → option Z).
Context (localeCompare : jsstr → jsstr → Z) (fingerprint : json → jsstr).
Context (cfg : LiveLifecycle.LifecycleConfig).
Implicit Types (c : SchedulerContext) (r : SchedulerReads) (plan : SchedulerObligationPlan).

(** [resolve] and [enqueue] of a definition, and its policy.
    src: src/scheduler/job-registry.ts:79-95 ScheduledJobDefinition *)
Record ScheduledJob := mkJob {
  sj_definition : JobDefinition;
  sj_policy : CatchUpPolicy;
  sj_queueName : string;
  sj_resolve : SchedulerContext → SchedulerReads → result (list SchedulerObligationPlan);
  sj_enqueue : SchedulerContext → SchedulerObligationPlan → jsstr → Z → EnqueueOutcome;
}.

Definition handed (q : QueueRequest) : EnqueueOutcome :=
  match enqueue q with Ok (jobId, runId) => EnqueueOk jobId runId | Throw e => EnqueueThrow (js e) end.

(** [bullJobId: job.id ?? ...] *)
Definition handed_or_own (q : QueueRequest) : EnqueueOutcome :=
  match handed q with
  | EnqueueOk jobId runId => EnqueueOk (Some (nullish jobId (qr_jobId q))) runId
  | e => e
  end.

(** [plan.eventId ?? context.currentEventId], which must be there.
    src: src/scheduler/job-registry.ts:832-833 createSchedulerRegistry *)
Definition for_event (name : string) (target : option Z) (call : Z → EnqueueOutcome) : EnqueueOutcome :=
  match target with
  | Some eventId => if eventId =? 0 then EnqueueThrow (js name ++ js " obligation has no event checkpoint") else call eventId
  | None => EnqueueThrow (js name ++ js " obligation has no event checkpoint")
  end.

Definition target_event c plan : option Z := nullish_or (op_eventId plan) (sc_currentEventId c).

(** A job that runs for the whole season.
    src: src/scheduler/job-registry.ts:608-616 createSchedulerRegistry *)
Definition season_enqueue (function source : string) c plan (obligationId : jsstr) (generation : Z) : EnqueueOutcome :=
  handed (request function source None [] obligationId generation).

(** A job of the gameweek of its plan.
    src: src/scheduler/job-registry.ts:831-842 createSchedulerRegistry *)
Definition event_enqueue (name function source : string) (own : bool) c plan (obligationId : jsstr) (generation : Z)
    : EnqueueOutcome :=
  for_event name (target_event c plan) (λ eventId,
    (if own then handed_or_own else handed) (request function source (Some eventId) [] obligationId generation)).

(** src: src/scheduler/job-registry.ts:627-636 createSchedulerRegistry *)
Definition market_enqueue c plan (obligationId : jsstr) (generation : Z) : EnqueueOutcome :=
  handed (request "enqueuePlayerValuesSyncJob" "catchup" None [(js "changeDate", JString (op_periodKey plan))]
            obligationId generation).

(** src: src/scheduler/job-registry.ts:239-250 myFplSnapshotDefinition *)
Definition my_fpl_enqueue (name source kind : string) c plan (obligationId : jsstr) (generation : Z) : EnqueueOutcome :=
  for_event name (op_eventId plan) (λ eventId,
    handed (request "enqueueMyFplSnapshot" source (Some eventId) [(js "snapshotKind", text kind)] obligationId generation)).

(** [plan.evidence?.persistEventLives === true] *)
Definition evidence_true (name : string) plan : bool :=
  match map_get (js name) (nullish (op_evidence plan) []) with Some (JBool b) => b | _ => false end.

(** src: src/scheduler/job-registry.ts:441-452 liveSnapshotDefinition *)
Definition live_enqueue c plan (obligationId : jsstr) (generation : Z) : EnqueueOutcome :=
  for_event "Live snapshot" (target_event c plan) (λ eventId,
    handed (request "enqueueLiveSnapshot" "reconcile" (Some eventId)
      [(js "persistEventLives", JBool (evidence_true "persistEventLives" plan)); (js "reuseExisting", JBool true)]
      obligationId generation)).

(** src: src/scheduler/job-registry.ts:536-548 liveFinalizationDefinition *)
Definition live_finalization_enqueue c plan (obligationId : jsstr) (generation : Z) : EnqueueOutcome :=
  for_event "Live finalization" (target_event c plan) (λ eventId,
    handed (request "enqueueLiveSnapshot" "reconcile" (Some eventId)
      [(js "persistEventLives", JBool true); (js "finalizeEvent", JBool true); (js "reuseExisting", JBool true)]
      obligationId generation)).

(** src: src/scheduler/job-registry.ts:770-779 createSchedulerRegistry *)
Definition entry_info_enqueue c plan (obligationId : jsstr) (generation : Z) : EnqueueOutcome :=
  handed (request "enqueueEntryInfoSyncJob" "catchup" (Some (nullish (sc_currentEventId c) 0)) [] obligationId generation).

(** ** The registry *)

(** src: src/scheduler/job-registry.ts:104-150 dailyDefinition *)
Definition dailyDefinition (name : string) (hour minute : Z) (policy : CatchUpPolicy) (queueName : string) enqueue : ScheduledJob :=
  mkJob (mkDefinition (js name) (js "daily") (js "Asia/Shanghai")) policy queueName
    (daily_plans localOffset legacyParse hour minute policy) enqueue.

(** src: src/scheduler/job-registry.ts:171-207 eventDefinition *)
Definition eventDefinition (name cadence : string) (policy : CatchUpPolicy) (queueName : string) enqueue : ScheduledJob :=
  mkJob (mkDefinition (js name) (js cadence) (js "UTC")) policy queueName (event_plans true) enqueue.

(** src: src/scheduler/job-registry.ts:314-352 periodicMaintenanceDefinition *)
Definition periodicMaintenanceDefinition (name cadence : string) (periodMs : Z) (minuteOfHour : option Z) enqueue : ScheduledJob :=
  mkJob (mkDefinition (js name) (js cadence) (js "UTC")) LatestAuthoritative "maintenance"
    (periodic_plans periodMs minuteOfHour) enqueue.

Definition reconcileDefinition (name cadence zone : string) (queueName : string) resolve enqueue : ScheduledJob :=
  mkJob (mkDefinition (js name) (js cadence) (js zone)) LatestAuthoritative queueName resolve enqueue.

Definition event_cadence : string := "post-deadline event checkpoint".

(** The jobs that wait for the deadline of every gameweek.
    src: src/scheduler/job-registry.ts:823-987 createSchedulerRegistry *)
Definition checkpoint_jobs : list ScheduledJob := [
  eventDefinition "entry-picks" "post-deadline window" Checkpoint "entry-sync"
    (event_enqueue "Entry picks" "enqueueEntryPicksSyncJob" "catchup" false);
  eventDefinition "entry-transfers" "post-deadline window" Checkpoint "entry-sync"
    (event_enqueue "Entry transfers" "enqueueEntryTransfersSyncJob" "catchup" false);
  eventDefinition "entry-results" event_cadence EventCheckpoint "entry-sync"
    (event_enqueue "Entry results" "enqueueEntryResultsSyncJob" "catchup" false);
  eventDefinition "league-event-picks" event_cadence EventCheckpoint "league-sync"
    (event_enqueue "League picks" "enqueueLeagueEventPicks" "catchup" false);
  eventDefinition "league-event-results" event_cadence EventCheckpoint "league-sync"
    (event_enqueue "League results" "enqueueLeagueEventResults" "catchup" false);
  eventDefinition "tournament-event-results" event_cadence EventCheckpoint "tournament-sync"
    (event_enqueue "Tournament results" "enqueueTournamentEventResults" "reconcile" false);
  eventDefinition "tournament-event-picks" event_cadence EventCheckpoint "tournament-sync"
    (event_enqueue "Tournament picks" "enqueueTournamentEventPicks" "reconcile" true);
  eventDefinition "tournament-transfers-pre" event_cadence EventCheckpoint "tournament-sync"
    (event_enqueue "Tournament transfers" "enqueueTournamentTransfersPre" "reconcile" true)].

Definition market_job : ScheduledJob := dailyDefinition "market-daily" 9 25 CurrentDayOnly "data-sync" market_enqueue.

(** src: src/scheduler/job-registry.ts:596-993 createSchedulerRegistry *)
Definition createSchedulerRegistry : list ScheduledJob := [
  reconcileDefinition "core-current-reconcile" "30-second lifecycle reconciliation" "UTC" "data-sync"
    (core_lifecycle_plans localeCompare fingerprint) (season_enqueue "enqueueCoreSnapshotJob" "reconcile");
  dailyDefinition "core-snapshot" 6 35 LatestAuthoritative "data-sync" (season_enqueue "enqueueCoreSnapshotJob" "catchup");
  market_job;
  dailyDefinition "player-stats" 9 40 LatestAuthoritative "data-sync" (season_enqueue "enqueuePlayerStatsSyncJob" "catchup");
  dailyDefinition "player-market-freshness-watchdog" 9 36 LatestAuthoritative "maintenance"
    (season_enqueue "enqueuePlayerMarketFreshness" "catchup");
  dailyDefinition "bug-report-cleanup" 3 15 LatestAuthoritative "maintenance" (season_enqueue "enqueueBugReportCleanup" "catchup");
  dailyDefinition "bug-report-screenshot-retention" 3 20 LatestAuthoritative "maintenance"
    (season_enqueue "enqueueBugReportScreenshotRetention" "catchup");
  periodicMaintenanceDefinition "player-season-summary-repair" "hourly at minute 17" (60 * 60000) (Some 17)
    (season_enqueue "enqueuePlayerSeasonSummaryRepair" "catchup");
  periodicMaintenanceDefinition "tournament-trends-repair" "every five minutes" (5 * 60000) None
    (season_enqueue "enqueueTournamentTrendsRepair" "catchup");
  periodicMaintenanceDefinition "launch-monitor" "every five minutes" (5 * 60000) None
    (season_enqueue "enqueueLaunchMonitor" "catchup");
  reconcileDefinition "post-match-consolidation" "06:00, 08:00 and 10:00 UTC+8 in the post-match window" "Asia/Shanghai"
    "maintenance" (post_match_plans localOffset legacyParse) (season_enqueue "enqueuePostMatchConsolidation" "catchup");
  mkJob (mkDefinition (js "my-fpl-snapshot") (js "daily at 10:45 UTC+8 and finalization reconciliation") (js "Asia/Shanghai"))
    Checkpoint "maintenance" (my_fpl_snapshot_plans localOffset legacyParse)
    (my_fpl_enqueue "My FPL snapshot" "catchup" "PROVISIONAL");
  reconcileDefinition "my-fpl-finalization" "30-second finished + data_checked reconciliation" "UTC" "maintenance"
    my_fpl_finalization_plans (my_fpl_enqueue "My FPL finalization" "reconcile" "FINAL");
  periodicMaintenanceDefinition "my-fpl-snapshot-outbox" "every five minutes" (5 * 60000) None
    (season_enqueue "enqueueMyFplSnapshotOutbox" "catchup");
  dailyDefinition "entry-info" 10 30 Checkpoint "entry-sync" entry_info_enqueue;
  dailyDefinition "tournament-roster" 10 45 Checkpoint "tournament-sync"
    (λ _ _ obligationId generation, handed_or_own (request "enqueueTournamentRosterSync" "reconcile" None [] obligationId generation));
  dailyDefinition "tournament-info" 10 45 Checkpoint "tournament-sync"
    (λ _ _ obligationId generation, handed_or_own (request "enqueueTournamentInfo" "reconcile" (Some 0) [] obligationId generation))
  ] ++ checkpoint_jobs ++ [
  reconcileDefinition "live-snapshot" "30-second lifecycle poll while match windows are open" "UTC" "live-data"
    live_snapshot_plans live_enqueue;
  reconcileDefinition "live-finalization" "30-second post-match finalization reconciliation" "UTC" "live-data"
    live_finalization_plans live_finalization_enqueue;
  mkJob (mkDefinition (js "player-stats-active") (js "one-minute live window / five-minute settling repair") (js "UTC"))
    LatestAuthoritative "data-sync" (active_player_stats_plans cfg)
    (event_enqueue "Active player stats" "enqueuePlayerStatsSyncJob" "reconcile" false);
  mkJob (mkDefinition (js "content-acquisition") (js "existing source_schedules checkpoint loop") (js "UTC"))
    Checkpoint "content-*" (λ _ _, Ok []) (λ _ _ _ _, EnqueueOk None None)].
End registry.

(** ** A pass *)

(** The plans of a definition, one after the other; [uuid n] is the id drawn for the [n]th reservation of the pass.
    src: src/scheduler/scheduler.service.ts:36-46 runSchedulerPass *)
Fixpoint reserve_plans (now : Z) (uuid : nat → jsstr) (n : nat) (definition : JobDefinition)
    (plans : list SchedulerObligationPlan) (table : Table) : Table * result nat :=
  match plans with
  | [] => (table, Ok n)
  | plan :: plans =>
      match reserve_plan now (uuid n) definition plan table with
      | (table, Throw e) => (table, Throw e)
      | (table, Ok _) => reserve_plans now uuid (S n) definition plans table
      end
  end.

(** The definitions in the order of the registry.
    src: src/scheduler/scheduler.service.ts:34-47 runSchedulerPass *)
Fixpoint reserve_registry (now : Z) (uuid : nat → jsstr) (n : nat) (c : SchedulerContext) (r : SchedulerReads)
    (registry : list ScheduledJob) (table : Table) : Table * result nat :=
  match registry with
  | [] => (table, Ok n)
  | job :: registry =>
      match sj_resolve job c r with
      | Throw e => (table, Throw e)
      | Ok plans =>
          match reserve_plans now uuid n (sj_definition job) plans table with
          | (table, Throw e) => (table, Throw e)
          | (table, Ok n) => reserve_registry now uuid n c r registry table
          end
      end
  end.

(** The plan that [enqueue] gets of a claimed obligation.
    src: src/scheduler/scheduler.service.ts:67-76 runSchedulerPass *)
Definition plan_of_obligation (o : Obligation) : SchedulerObligationPlan :=
  let fields := match ob_evidence o with JObject fields => fields | _ => [] end in
  mkObligationPlan (ob_scopeKey o) (ob_periodKey o) (ob_dueAt o) (ob_source o)
    (match map_get (js "targetEventId") fields with Some (JNumber n) => Some (int_value n) | _ => None end)
    None (Some fields).

(** [definition.enqueue] of a claimed obligation. *)
Definition enqueue_claimed (registry : list ScheduledJob) (c : SchedulerContext) (definition : JobDefinition) (o : Obligation)
    : EnqueueOutcome :=
  match List.find (λ j, bool_decide (jd_name (sj_definition j) = jd_name definition)) registry with
  | Some job => sj_enqueue job c (plan_of_obligation o) (ob_obligationId o) (ob_generation o)
  | None => EnqueueThrow []
  end.

(** src: src/scheduler/scheduler.service.ts:16-22 SchedulerPassResult *)
Record SchedulerPassResult := mkPass {
  pr_definitions : nat; pr_reserved : nat; pr_claimed : nat; pr_enqueued : Z; pr_failed : Z }.

(** [clock] is the instant of the pass in milliseconds; [now], [claimedAt] and [settledAt] are times of the database.
    src: src/scheduler/scheduler.service.ts:30-117 runSchedulerPass *)
Definition runSchedulerPass (registry : list ScheduledJob) (env : option jsstr) (r : SchedulerReads)
    (clock now claimedAt settledAt : Z) (uuid : nat → jsstr) (owner : jsstr) (locked : list jsstr) (table : Table)
    : Table * result SchedulerPassResult :=
  match findCurrent (sr_fpl r) with
  | Throw e => (table, Throw e)
  | Ok season =>
      let c := resolveSchedulerContext (se_seasonId season, se_seasonCode season) clock (sr_fpl r) in
      match reserve_registry now uuid 0 c r registry table with
      | (table, Throw e) => (table, Throw e)
      | (table, Ok reserved) =>
          match claimSchedulerObligations env None None claimedAt owner locked table with
          | (table, Throw e) => (table, Throw e)
          | (table, Ok claimed) =>
              let '(table, enqueued, failed) :=
                dispatch_all (sj_definition <$> registry) (enqueue_claimed registry c) settledAt owner claimed table 0 0 in
              (table, Ok (mkPass (length registry) reserved (length claimed) enqueued failed))
          end
      end
  end.

(** ** What a pass does to the table *)

(** A row that is not closed keeps its evidence and its due source. *)
Definition keeps (o o' : Obligation) : Prop :=
  is_final (ob_status o') = false → ob_evidence o' = ob_evidence o ∧ ob_source o' = ob_source o.

(** Rows evolve, keys stay unique, and new keys satisfy [P]. *)
Record grows (P : jsstr * jsstr * jsstr → Prop) (t t' : Table) : Prop := {
  gr_rows o : o ∈ t → ∃ o', o' ∈ t' ∧ evolves o o' ∧ keeps o o';
  gr_ids : NoDup (ob_obligationId <$> t) → NoDup (ob_obligationId <$> t');
  gr_identities : NoDup (identity <$> t) → NoDup (identity <$> t');
  gr_new k : k ∈ identity <$> t' → k ∈ identity <$> t ∨ P k;
}.

#[export] Instance grows_preorder P : PreOrder (grows P).
Proof.
  split.
  - intros t. split; [|done|done|by left]. intros o Ho. exists o. split_and!; [done|reflexivity|done].
  - intros a b c [R1 I1 K1 N1] [R2 I2 K2 N2]. split; [|auto|auto|].
    + intros o Ho. destruct (R1 o Ho) as (o1 & Ho1 & He1 & Hk1). destruct (R2 o1 Ho1) as (o2 & Ho2 & He2 & Hk2).
      exists o2. split_and!; [done|by etrans|]. intros Hf. destruct (Hk2 Hf) as [-> ->]. apply Hk1.
      destruct (is_final (ob_status o1)) eqn:E; [|done]. by rewrite (ev_final _ _ He2 E), E in Hf.
    + intros k Hk. destruct (N2 k Hk) as [H|H]; [by apply N1|by right].
Qed.

Lemma grows_key P t t' k : grows P t t' → k ∈ identity <$> t → k ∈ identity <$> t'.
Proof.
  intros Hg (o & -> & Ho)%list_elem_of_fmap. destruct (gr_rows _ _ _ Hg o Ho) as (o' & Ho' & He & _).
  rewrite <-(ev_identity _ _ He). by apply list_elem_of_fmap_2.
Qed.

(** Rows that evolve in place. *)
Lemma map_grows P (f : Obligation → Obligation) t :
  (∀ o, o ∈ t → evolves o (f o) ∧ keeps o (f o)) → grows P t (f <$> t).
Proof.
  intros Hf.
  assert (ob_obligationId <$> (f <$> t) = ob_obligationId <$> t ∧ identity <$> (f <$> t) = identity <$> t) as [Hi Hk].
  { rewrite <-!list_fmap_compose. split; apply list_fmap_ext; intros i o Ho%list_elem_of_lookup_2;
      destruct (Hf o Ho) as [He _]; cbn; by destruct He. }
  split; [|by rewrite Hi|by rewrite Hk|rewrite Hk; by left].
  intros o Ho. exists (f o). split; [by apply list_elem_of_fmap_2|by apply Hf].
Qed.

Lemma update_one_grows P where_ set t :
  (∀ o, where_ o = true → evolves o (set o) ∧ keeps o (set o)) → grows P t (update_one where_ set t).1.
Proof.
  intros Hset. unfold update_one, update_where. cbn [fst]. apply map_grows. intros o _.
  destruct (where_ o) eqn:E; [by apply Hset|split; [reflexivity|done]].
Qed.

(** A statement that updates rows in place. *)
Lemma update_statement_grows P now where_ set t :
  statement now t (update_one where_ set t).1 → (∀ o, where_ o = true → keeps o (set o)) →
  grows P t (update_one where_ set t).1.
Proof.
  intros Hs Hk. apply statement_evolves in Hs. unfold update_one, update_where in *. cbn [fst] in *.
  apply map_grows. intros o Ho. split; [|destruct (where_ o) eqn:E; [by apply Hk|done]].
  destruct Hs as [He|(row & Hrow & _)].
  - apply list_elem_of_lookup_1 in Ho as [i Hi].
    destruct (Forall2_lookup_l _ _ _ _ _ He Hi) as (o' & Ho' & Hev). rewrite list_lookup_fmap, Hi in Ho'.
    cbn in Ho'. by injection Ho' as <-.
  - apply (f_equal length) in Hrow. rewrite length_fmap, length_app in Hrow. cbn in Hrow. lia.
Qed.

Lemma reserve_grows (P : _ → Prop) now uuid definition plan t t' o :
  reserveSchedulerObligation now uuid definition plan t = (t', Ok o) →
  P (jd_name definition, op_scopeKey plan, op_periodKey plan) →
  grows P t t' ∧ (jd_name definition, op_scopeKey plan, op_periodKey plan) ∈ identity <$> t' ∧
  ∃ row, row ∈ t' ∧ ob_obligationId row = ob_obligationId o ∧
    identity row = (jd_name definition, op_scopeKey plan, op_periodKey plan).
Proof.
  unfold reserveSchedulerObligation. intros H HP. destruct (negb (row_checks _)) eqn:Hc; [done|].
  set (row := new_obligation now uuid definition plan) in *.
  change (identity row) with (jd_name definition, op_scopeKey plan, op_periodKey plan) in H.
  destruct (find_by _ _ _) as [old|] eqn:Hf.
  - injection H as <- <-. apply find_by_Some in Hf as [Hin Hid]. split; [reflexivity|]. rewrite <-Hid.
    split; [by apply list_elem_of_fmap_2|]. by exists old.
  - case_bool_decide as Hid; [done|]. injection H as <- <-. apply find_by_None in Hf.
    assert (row ∈ t ++ [row]) as Hrow by (apply elem_of_app; right; by apply list_elem_of_singleton).
    split; [|split; [apply (list_elem_of_fmap_2 identity _ _ Hrow)|by exists row]]. split.
    + intros x Hx. exists x. split_and!; [by apply elem_of_app; left|reflexivity|done].
    + intros Hnd. rewrite fmap_app. apply NoDup_app. split_and!; [done| |apply NoDup_singleton].
      by intros k Hk ->%list_elem_of_singleton.
    + intros Hnd. rewrite fmap_app. apply NoDup_app. split_and!; [done| |apply NoDup_singleton].
      by intros k Hk ->%list_elem_of_singleton.
    + intros k. rewrite fmap_app, elem_of_app. intros [Hk| ->%list_elem_of_singleton]; [by left|by right].
Qed.

Lemma statement_grows now t t' : statement now t t' → grows (λ _, True) t t'.
Proof.
  intros H. pose proof H as Hs. destruct H.
  - destruct (reserveSchedulerObligation now uuid definition plan t) as [t1 [o|e]] eqn:E.
    + by apply (reserve_grows (λ _, True)) in E as [? _].
    + cbn [fst]. unfold reserveSchedulerObligation in E. repeat case_match; simplify_eq; reflexivity.
  - by eapply update_statement_grows.
  - unfold renewSchedulerObligation in Hs |- *. repeat (case_match; [reflexivity|]).
    destruct (update_one _ _ t) as [t1 b] eqn:E. cbn [fst] in *. change t1 with (t1, b).1. rewrite <-E.
    eapply update_statement_grows; [by rewrite E|done].
  - eapply update_statement_grows; [exact Hs|]. intros o _ Hf. cbn in Hf. congruence.
  - eapply update_statement_grows; [exact Hs|]. intros o _ Hf. cbn in Hf. congruence.
  - eapply update_statement_grows; [exact Hs|]. by intros o _ Hf.
  - by eapply update_statement_grows.
  - unfold failSchedulerObligationByBullJobId in *. case_match; [reflexivity|]. by eapply update_statement_grows.
Qed.

Lemma claim_grows P env limit leaseMs now owner locked t t' claimed :
  NoDup (ob_obligationId <$> t) →
  claimSchedulerObligations env limit leaseMs now owner locked t = (t', Ok claimed) → grows P t t'.
Proof.
  intros Hnd H. pose proof (claim_evolves _ _ _ _ _ _ _ _ _ Hnd H) as [He _].
  apply claim_closed in H as (_ & _ & -> & _); [|done]. apply map_grows. intros o Ho. split.
  - apply list_elem_of_lookup_1 in Ho as [i Hi].
    destruct (Forall2_lookup_l _ _ _ _ _ He Hi) as (o' & Ho' & Hev). rewrite list_lookup_fmap, Hi in Ho'.
    by injection Ho' as <-.
  - by case_decide.
Qed.

Definition plan_key (definition : JobDefinition) (plan : SchedulerObligationPlan) : jsstr * jsstr * jsstr :=
  (jd_name definition, op_scopeKey plan, op_periodKey plan).

(** The terminal statuses that plans have. *)
Definition terminal_ok (plan : SchedulerObligationPlan) : Prop :=
  ∀ status, op_terminalStatus plan = Some status → is_final status = true.

Lemma mark_grows P now id status evidence t :
  is_final status = true → grows P t (markSchedulerObligationIrrecoverable now id (Some status) evidence t).1.
Proof.
  intros Hs. eapply update_statement_grows; [by apply st_mark|]. intros o _ Hf. cbn in Hf. congruence.
Qed.

Lemma reserve_plan_grows (P : _ → Prop) now uuid definition plan t t' :
  reserve_plan now uuid definition plan t = (t', Ok ()) → terminal_ok plan → P (plan_key definition plan) →
  grows P t t' ∧ plan_key definition plan ∈ identity <$> t'.
Proof.
  unfold reserve_plan. intros H Ht HP.
  destruct (reserveSchedulerObligation _ _ _ _ t) as [t1 [o|e]] eqn:E; [|done].
  apply (reserve_grows P) in E as (Hg & Hk & _); [|done].
  destruct (op_terminalStatus plan) as [status|] eqn:Es; injection H as <-; [|done].
  assert (grows P t1 (markSchedulerObligationIrrecoverable now (ob_obligationId o) (Some status) (op_evidence plan) t1).1)
    as Hm by by apply mark_grows, Ht.
  split; [by etrans|by eapply grows_key].
Qed.

Lemma reserve_plans_grows (P : _ → Prop) now uuid n definition plans t t' n' :
  reserve_plans now uuid n definition plans t = (t', Ok n') →
  (∀ plan, plan ∈ plans → terminal_ok plan ∧ P (plan_key definition plan)) →
  grows P t t' ∧ ∀ plan, plan ∈ plans → plan_key definition plan ∈ identity <$> t'.
Proof.
  revert n t. induction plans as [|plan plans IH]; intros n t H Hall; cbn [reserve_plans] in H.
  { injection H as <- <-. split; [reflexivity|by intros p ?%elem_of_nil]. }
  destruct (reserve_plan _ _ _ plan t) as [t1 [[]|e]] eqn:E; [|done].
  destruct (Hall plan ltac:(by left)) as [Ht HP].
  apply (reserve_plan_grows P) in E as [Hg1 Hk1]; [|done..].
  apply IH in H as [Hg2 Hk2]; [|intros p Hp; apply Hall; by right]. split; [by etrans|].
  intros p [->|Hp]%elem_of_cons; [by eapply grows_key|by apply Hk2].
Qed.

Definition planned (c : SchedulerContext) (r : SchedulerReads) (registry : list ScheduledJob) (k : jsstr * jsstr * jsstr) : Prop :=
  ∃ job plans plan, job ∈ registry ∧ sj_resolve job c r = Ok plans ∧ plan ∈ plans ∧ k = plan_key (sj_definition job) plan.

Definition plans_terminal_ok (job : ScheduledJob) : Prop :=
  ∀ c r plans plan, sj_resolve job c r = Ok plans → plan ∈ plans → terminal_ok plan.

Lemma reserve_registry_grows now uuid n c r all registry t t' n' :
  (∀ job, job ∈ registry → job ∈ all ∧ plans_terminal_ok job) →
  reserve_registry now uuid n c r registry t = (t', Ok n') →
  grows (planned c r all) t t' ∧ ∀ k, planned c r registry k → k ∈ identity <$> t'.
Proof.
  revert n t. induction registry as [|job registry IH]; intros n t Hall H; cbn [reserve_registry] in H.
  { injection H as <- <-. split; [reflexivity|]. by intros k (j & ? & ? & ?%elem_of_nil & _). }
  destruct (sj_resolve job c r) as [plans|e] eqn:Ep; [|done].
  destruct (reserve_plans _ _ _ _ plans t) as [t1 [n1|e]] eqn:E; [|done].
  destruct (Hall job ltac:(by left)) as [Hj Hterm].
  apply (reserve_plans_grows (planned c r all)) in E as [Hg1 Hk1].
  2: { intros plan Hp. split; [by eapply Hterm|]. by exists job, plans, plan. }
  apply IH in H as [Hg2 Hk2]; [|intros j Hin; apply Hall; by right]. split; [by etrans|].
  intros k (j & ps & p & [->|Hin]%elem_of_cons & Hps & Hp & ->).
  - rewrite Ep in Hps. injection Hps as <-. by eapply grows_key, Hk1.
  - apply Hk2. by exists j, ps, p.
Qed.

Lemma dispatch_grows P registry enqueue now owner o t : grows P t (dispatch registry enqueue now owner o t).1.
Proof.
  assert (∀ error t, grows P t (failSchedulerObligation now (ob_obligationId o) (Some owner) None error None t).1) as Hfail.
  { intros error t'. eapply update_statement_grows; [exact (st_fail now t' (ob_obligationId o) (Some owner) None error None)|done]. }
  assert (∀ bull run, grows P t (confirmSchedulerObligationEnqueued now (ob_obligationId o) owner bull run t).1) as Hconf.
  { intros bull run. eapply update_statement_grows; [exact (st_confirm now t (ob_obligationId o) owner bull run)|done]. }
  unfold dispatch. destruct (definitionByName _ _); [|apply Hfail]. destruct (enqueue _ _) as [bull run|e]; [|apply Hfail].
  specialize (Hconf bull run). destruct (confirmSchedulerObligationEnqueued _ _ _ _ _ t) as [t1 ok]. cbn [fst] in Hconf.
  destruct ok; [done|]. cbn [fst]. etrans; [done|apply Hfail].
Qed.

Lemma dispatch_all_grows P registry enqueue now owner claimed t e f t' e' f' :
  dispatch_all registry enqueue now owner claimed t e f = (t', e', f') → grows P t t'.
Proof.
  revert t e f. induction claimed as [|o claimed IH]; intros t e f H; cbn [dispatch_all] in H; [by simplify_eq|].
  pose proof (dispatch_grows P registry enqueue now owner o t) as Hg.
  destruct (dispatch _ _ _ _ o t) as [t1 ok]. cbn [fst] in Hg. apply IH in H. by etrans.
Qed.

(** A pass that returns has recorded its plans and nothing else. *)
Lemma pass_grows registry env r clock now claimedAt settledAt uuid owner locked t t' result season :
  (∀ job, job ∈ registry → plans_terminal_ok job) → NoDup (ob_obligationId <$> t) →
  findCurrent (sr_fpl r) = Ok season →
  runSchedulerPass registry env r clock now claimedAt settledAt uuid owner locked t = (t', Ok result) →
  let c := resolveSchedulerContext (se_seasonId season, se_seasonCode season) clock (sr_fpl r) in
  grows (planned c r registry) t t' ∧ ∀ k, planned c r registry k → k ∈ identity <$> t'.
Proof.
  intros Hterm Hnd Hs H c. unfold runSchedulerPass in H. rewrite Hs in H. fold c in H.
  destruct (reserve_registry _ _ _ _ _ registry t) as [t1 [n|e]] eqn:E1; [|done].
  apply (reserve_registry_grows now uuid 0 c r registry registry) in E1 as [Hg1 Hk1]; [|auto].
  destruct (claimSchedulerObligations _ _ _ _ _ _ t1) as [t2 [claimed|e]] eqn:E2; [|done].
  apply (claim_grows (planned c r registry)) in E2; [|by apply Hg1].
  destruct (dispatch_all _ _ _ _ _ t2 0 0) as [[t3 e3] f3] eqn:E3. injection H as <- _.
  apply (dispatch_all_grows (planned c r registry)) in E3. split; [by repeat (etrans; [done|])|].
  intros k Hk. by apply (grows_key _ _ _ _ E3), (grows_key _ _ _ _ E2), Hk1.
Qed.

(** ** The jobs of the registry *)

Lemma plan_at_terminal_ok scope period dueAt source eventId evidence :
  terminal_ok (plan_at scope period dueAt source eventId evidence).
Proof. done. Qed.

Lemma event_plans_spec c r plans :
  event_plans true c r = Ok plans →
  ∀ plan, plan ∈ plans ↔ ∃ id deadline, (id, Some deadline) ∈ sc_events c ∧ deadline + 30 * 60000 ≤ sc_now c ∧
    plan = plan_at (event_scope (sc_seasonCode c) id) (js "event-" ++ print_int id) (deadline + 30 * 60000) SourceCatchup (Some id) None.
Proof.
  unfold event_plans. intros [= <-] plan. rewrite list_elem_of_omap. split.
  - intros ([id [deadline|]] & Hin & He); [|done]. cbn in He. destruct (Z.ltb_spec (sc_now c) (deadline + 30 * 60000)); [done|].
    injection He as <-. by exists id, deadline.
  - intros (id & deadline & Hin & Hle & ->). exists (id, Some deadline). split; [done|]. cbn.
    by rewrite (proj2 (Z.ltb_ge _ _)).
Qed.

(** The gameweeks a pass knows. *)
Lemma context_events season now fpl id d :
  (id, d) ∈ sc_events (resolveSchedulerContext season now fpl) ↔
  ∃ row, row ∈ ft_events fpl ∧ 0 < id ∧ event_id row = id ∧ deadline_of row = d.
Proof.
  cbn. rewrite list_elem_of_fmap. setoid_rewrite elem_of_filter_bool. setoid_rewrite elem_of_js_sort.
  setoid_rewrite Z.ltb_lt. split.
  - intros (row & [= -> ->] & Hpos & Hin). by exists row.
  - intros (row & Hin & Hpos & <- & <-). by exists row.
Qed.

(** Plans that are built by [plan_at] end nothing. *)
Definition is_plan_at (plan : SchedulerObligationPlan) : Prop := op_terminalStatus plan = None.

Lemma is_plan_at_terminal plan : is_plan_at plan → terminal_ok plan.
Proof. intros H status Hs. unfold is_plan_at in H. congruence. Qed.

Lemma no_plan_in x plans plan : no_plan x = Ok plans → plan ∈ plans → x = Some plan.
Proof. unfold no_plan. intros [= <-]. destruct x; cbn; [by intros ->%list_elem_of_singleton|by intros ?%elem_of_nil]. Qed.

Lemma omap_all {A} (f : A → option SchedulerObligationPlan) (l : list A) plan :
  (∀ x p, f x = Some p → is_plan_at p) → plan ∈ omap f l → is_plan_at plan.
Proof. intros Hf (x & _ & Hx)%list_elem_of_omap. by eapply Hf. Qed.

(** Inversion of a computation that may return a plan. *)
Local Ltac plan_inv :=
  repeat match goal with
  | H : (_ ≫= _) = Some _ |- _ => let x := fresh "x" in let Hx := fresh "Hx" in apply bind_Some in H as (x & Hx & H)
  | H : (if ?b then _ else _) = Some _ |- _ => destruct b; [try done|try done]
  | H : match ?x with _ => _ end = Some _ |- _ => destruct x; try done
  | H : Some _ = Some _ |- _ => apply (inj Some) in H as <-
  end; try done.

Lemma reconcile_plans_open (f : SchedulerContext → SchedulerReads → result (list SchedulerObligationPlan)) :
  (∃ g, f = (λ c r, no_plan (g c r)) ∧ ∀ c r p, g c r = Some p → is_plan_at p) →
  ∀ c r plans plan, f c r = Ok plans → plan ∈ plans → terminal_ok plan.
Proof.
  intros (g & -> & Hg) c r plans plan H Hp. pose proof (no_plan_in _ _ _ H Hp) as Hs.
  by eapply is_plan_at_terminal, Hg.
Qed.

Lemma Ok_inj {A} (x y : A) : Ok x = Ok y → x = y.
Proof. by intros [= ->]. Qed.

Lemma singleton_open x plan : plan ∈ [x] → is_plan_at x → terminal_ok plan.
Proof. intros ->%list_elem_of_singleton. apply is_plan_at_terminal. Qed.

Section open.
Context (localOffset : Z → Z) (legacyParse : jsstr → option Z).
Context (localeCompare : jsstr → jsstr → Z) (fingerprint : json → jsstr).
Context (cfg : LiveLifecycle.LifecycleConfig).

Lemma daily_terminal hour minute policy c r plans plan :
  daily_plans localOffset legacyParse hour minute policy c r = Ok plans → plan ∈ plans → terminal_ok plan.
Proof.
  unfold daily_plans. destruct (due_at _ _ _ _ _) as [dueAt|]; [|done]. destruct (negb _).
  - destruct (_ <? _); intros [= <-]; [by intros ?%elem_of_nil|]. intros H. by eapply singleton_open.
  - intros <-%Ok_inj [Hp|Hp]%elem_of_app.
    + apply list_elem_of_fmap in Hp as (d & -> & _). by intros status [= <-].
    + destruct (_ <=? _); [by eapply singleton_open|by apply elem_of_nil in Hp].
Qed.

Lemma event_terminal all c r plans plan : event_plans all c r = Ok plans → plan ∈ plans → terminal_ok plan.
Proof.
  unfold event_plans. intros <-%Ok_inj Hp. eapply is_plan_at_terminal, omap_all; [|done]. intros x p Hx. cbv beta in Hx. plan_inv.
Qed.

Lemma periodic_terminal periodMs minute c r plans plan :
  periodic_plans periodMs minute c r = Ok plans → plan ∈ plans → terminal_ok plan.
Proof.
  unfold periodic_plans. destruct (_ <? _); intros <-%Ok_inj; [by intros ?%elem_of_nil|]. intros H. by eapply singleton_open.
Qed.

Lemma my_fpl_terminal c r plans plan :
  my_fpl_snapshot_plans localOffset legacyParse c r = Ok plans → plan ∈ plans → terminal_ok plan.
Proof.
  unfold my_fpl_snapshot_plans. destruct (due_at _ _ _ _ _); [|done].
  destruct (_ <? _); intros <-%Ok_inj Hp; [by apply elem_of_nil in Hp|].
  eapply is_plan_at_terminal, omap_all; [|done]. intros x p Hx. cbv beta in Hx. plan_inv.
Qed.

Lemma my_fpl_final_terminal c r plans plan : my_fpl_finalization_plans c r = Ok plans → plan ∈ plans → terminal_ok plan.
Proof.
  unfold my_fpl_finalization_plans. intros <-%Ok_inj Hp.
  eapply is_plan_at_terminal, omap_all; [|done]. intros x p Hx. cbv beta in Hx. plan_inv.
Qed.

Lemma post_match_terminal c r plans plan :
  post_match_plans localOffset legacyParse c r = Ok plans → plan ∈ plans → terminal_ok plan.
Proof.
  unfold post_match_plans. intros H Hp. repeat case_match; simplify_eq; try by apply elem_of_nil in Hp. by eapply singleton_open.
Qed.
End open.

(** Whatever processes do, open rows keep what they were reserved with. *)
Lemma steps_grow s s' : rtc ob_step s s' → sound s → grows (λ _, True) (sy_table s) (sy_table s').
Proof.
  induction 1 as [s|s s1 s' Hstep _ IH]; intros Hs; [reflexivity|].
  destruct (obligation_step_sound _ _ Hstep Hs) as [Hs1 _]. etrans; [|by apply IH].
  destruct Hstep as [s clock _|s now table' _ Hst|s now env limit leaseMs owner locked table' claimed _ Hc]; cbn [sy_table].
  - reflexivity.
  - by eapply statement_grows.
  - by eapply claim_grows; [apply Hs|].
Qed.

(** ** Plans that close *)

(** A reservation puts nothing in flight. *)
Lemma reserve_plan_calm now uuid definition plan t t' res o :
  reserve_plan now uuid definition plan t = (t', res) → terminal_ok plan →
  o ∈ t' → in_flight (ob_status o) = true → o ∈ t.
Proof.
  unfold reserve_plan. intros H Hterm Ho Hf.
  assert (∀ t1 r1, reserveSchedulerObligation now uuid definition plan t = (t1, r1) → o ∈ t1 → o ∈ t) as Hreserve.
  { intros t1 r1 E Ho1. unfold reserveSchedulerObligation in E.
    destruct (negb _); [by injection E as <- _|]. destruct (find_by _ _ _); [by injection E as <- _|].
    case_bool_decide; injection E as <- _; [done|]. apply elem_of_app in Ho1 as [Ho1| ->%list_elem_of_singleton]; [done|].
    by cbn in Hf. }
  destruct (reserveSchedulerObligation now uuid definition plan t) as [t1 [x|e]] eqn:E; [|injection H as <- _; by eapply Hreserve].
  destruct (op_terminalStatus plan) as [status|] eqn:Es; injection H as <- _; [|by eapply Hreserve].
  apply (Hreserve t1 _ eq_refl). unfold markSchedulerObligationIrrecoverable, update_one, update_where in Ho. cbn [fst] in Ho.
  apply list_elem_of_fmap in Ho as (y & -> & Hy). destruct (_ && _); [|done].
  cbn in Hf. apply Hterm in Es. destruct (in_flight_not_final _ Hf) as [Hn _]. cbn in Hn. congruence.
Qed.

(** The row of [k] is closed, or was in flight in [t]. *)
Definition closed_or_flying (k : jsstr * jsstr * jsstr) (t t' : Table) : Prop :=
  ∃ o, o ∈ t' ∧ identity o = k ∧
    (is_final (ob_status o) = true ∨ ∃ old, old ∈ t ∧ identity old = k ∧ in_flight (ob_status old) = true).

Lemma closed_grows P k t t1 t2 : grows P t1 t2 → closed_or_flying k t t1 → closed_or_flying k t t2.
Proof.
  intros Hg (o & Ho & Hk & Hor). destruct (gr_rows _ _ _ Hg o Ho) as (o' & Ho' & He & _). exists o'.
  split_and!; [done|by rewrite (ev_identity _ _ He)|]. destruct Hor as [Hf|?]; [left|by right].
  by rewrite (ev_final _ _ He Hf).
Qed.

Lemma closed_earlier k t0 t t' :
  (∀ o, o ∈ t → in_flight (ob_status o) = true → o ∈ t0) → closed_or_flying k t t' → closed_or_flying k t0 t'.
Proof.
  intros Hcalm (o & Ho & Hk & Hor). exists o. split_and!; [done..|].
  destruct Hor as [?|(old & Hold & ? & ?)]; [by left|right; exists old; auto].
Qed.

Lemma reserve_plan_closes now uuid definition plan t t' status :
  reserve_plan now uuid definition plan t = (t', Ok ()) → op_terminalStatus plan = Some status → is_final status = true →
  closed_or_flying (plan_key definition plan) t t'.
Proof.
  intros H Hs Hfinal. assert (terminal_ok plan) as Hterm by (intros s' Hs'; congruence). pose proof H as Hrun.
  unfold reserve_plan in H. destruct (reserveSchedulerObligation _ _ _ _ t) as [t1 [o|e]] eqn:E; [|done].
  apply (reserve_grows (λ _, True)) in E as (_ & _ & row & Hrow & Hid & Hk); [|done]. rewrite Hs in H.
  set (f := λ x, if by_id (ob_obligationId o) x && is_open (ob_status x)
                 then closed_row now (nullish (Some status) Irrecoverable) (op_evidence plan) x else x).
  assert (t' = f <$> t1) as -> by (injection H as <-; done).
  exists (f row). split_and!; [by apply list_elem_of_fmap_2|unfold f; by destruct (_ && _)|].
  destruct (is_final (ob_status (f row))) eqn:Ef; [by left|right]. exists row.
  assert (by_id (ob_obligationId o) row = true) as Hby by by apply bool_decide_eq_true.
  unfold f in Ef. rewrite Hby in Ef. cbn [andb] in Ef.
  destruct (is_open (ob_status row)) eqn:Eo; [cbn in Ef; congruence|].
  assert (in_flight (ob_status row) = true) as Hfl by (unfold is_final in Ef; rewrite Eo in Ef; by apply negb_false_iff in Ef).
  split_and!; [|done|done]. eapply reserve_plan_calm; [exact Hrun|done| |done].
  apply list_elem_of_fmap. exists row. split; [|done]. unfold f. by rewrite Hby, Eo.
Qed.

Lemma reserve_plans_calm now uuid n definition plans t t' res o :
  reserve_plans now uuid n definition plans t = (t', res) → (∀ plan, plan ∈ plans → terminal_ok plan) →
  o ∈ t' → in_flight (ob_status o) = true → o ∈ t.
Proof.
  revert n t. induction plans as [|plan plans IH]; intros n t H Hall Ho Hf; cbn [reserve_plans] in H; [by injection H as <- _|].
  assert (terminal_ok plan) as Hterm by (apply Hall; by left).
  destruct (reserve_plan _ _ _ plan t) as [t1 [[]|e]] eqn:E; [|injection H as <- _; by eapply reserve_plan_calm].
  eapply reserve_plan_calm; [exact E|done| |done]. eapply IH; [exact H| |done|done]. intros p Hp. apply Hall. by right.
Qed.

Lemma reserve_plans_close now uuid n definition plans t t' n' plan status :
  reserve_plans now uuid n definition plans t = (t', Ok n') → (∀ plan, plan ∈ plans → terminal_ok plan) →
  plan ∈ plans → op_terminalStatus plan = Some status → closed_or_flying (plan_key definition plan) t t'.
Proof.
  revert n t. induction plans as [|p plans IH]; intros n t H Hall Hplan Hs; [by apply elem_of_nil in Hplan|].
  cbn [reserve_plans] in H. destruct (reserve_plan _ _ _ p t) as [t1 [[]|e]] eqn:E; [|done].
  assert (∀ q, q ∈ plans → terminal_ok q) as Hall' by (intros q Hq; apply Hall; by right).
  apply elem_of_cons in Hplan as [->|Hplan].
  - apply (reserve_plan_closes _ _ _ _ _ _ status) in E; [|done|by apply (Hall p ltac:(by left))].
    apply (reserve_plans_grows (λ _, True)) in H as [Hg _]; [by eapply closed_grows|]. intros q Hq. by split; [apply Hall'|].
  - apply (closed_earlier _ _ t1); [|by eapply IH]. intros o Ho Hf.
    eapply reserve_plan_calm; [exact E|apply Hall; by left|done|done].
Qed.

Lemma reserve_registry_closes now uuid n c r registry t t' n' job plans plan status :
  (∀ job, job ∈ registry → plans_terminal_ok job) →
  reserve_registry now uuid n c r registry t = (t', Ok n') → job ∈ registry →
  sj_resolve job c r = Ok plans → plan ∈ plans → op_terminalStatus plan = Some status →
  closed_or_flying (plan_key (sj_definition job) plan) t t'.
Proof.
  revert n t. induction registry as [|j registry IH]; intros n t Hall H Hjob Hres Hplan Hs; [by apply elem_of_nil in Hjob|].
  cbn [reserve_registry] in H. destruct (sj_resolve j c r) as [ps|e] eqn:Ep; [|done].
  destruct (reserve_plans _ _ _ _ ps t) as [t1 [n1|e]] eqn:E; [|done].
  assert (∀ p, p ∈ ps → terminal_ok p) as Hps by (intros p; by eapply (Hall j ltac:(by left))).
  assert (∀ k, k ∈ registry → plans_terminal_ok k) as Hall' by (intros k Hk; apply Hall; by right).
  apply elem_of_cons in Hjob as [->|Hjob].
  - rewrite Ep in Hres. injection Hres as ->. eapply (reserve_plans_close) in E; [|done|done|done].
    apply (reserve_registry_grows now uuid n1 c r registry registry) in H as [Hg _]; [by eapply closed_grows|auto].
  - apply (closed_earlier _ _ t1); [|by eapply IH]. intros o Ho Hf. by eapply reserve_plans_calm.
Qed.

(** ** Daily jobs *)

Section daily.
Context (localOffset : Z → Z) (legacyParse : jsstr → option Z).

(** When a job of the day is due. *)
Definition due_in_day (day hour minute : Z) : Z := day_start day + hour * 3600000 + minute * 60000.

Lemma daily_plans_spec hour minute policy c r :
  four_digit_year (sc_now c) → 0 ≤ hour < 24 → 0 ≤ minute < 60 →
  let dueAt := due_in_day (cron_day (sc_now c)) hour minute in
  let current := plan_at (sc_seasonCode c) (formatCronDateKey (sc_now c)) dueAt SourceCatchup None None in
  daily_plans localOffset legacyParse hour minute policy c r =
    Ok ((if decide (policy = CurrentDayOnly) then expired_market_plan c dueAt <$> seqZ 1 31 else []) ++
        if decide (dueAt ≤ sc_now c) then [current] else []).
Proof.
  intros Hy Hh Hm dueAt current. unfold daily_plans, due_at. rewrite utc8DueAt_spec by done. fold (due_in_day (cron_day (sc_now c)) hour minute).
  fold dueAt. fold current. destruct (decide (policy = CurrentDayOnly)) as [->|Hne].
  - rewrite bool_decide_eq_true_2 by done. cbn [negb]. f_equal. f_equal.
    destruct (Z.leb_spec dueAt (sc_now c)), (decide (dueAt ≤ sc_now c)); done || lia.
  - rewrite bool_decide_eq_false_2 by done. cbn [negb].
    destruct (Z.ltb_spec (sc_now c) dueAt), (decide (dueAt ≤ sc_now c)); done || lia.
Qed.

(** The key of a past market day. *)
Lemma expired_key c hour minute x :
  0 ≤ hour < 24 → 0 ≤ minute < 60 → four_digit_year x → cron_day (sc_now c) - 31 ≤ cron_day x < cron_day (sc_now c) →
  expired_market_plan c (due_in_day (cron_day (sc_now c)) hour minute) (cron_day (sc_now c) - cron_day x) ∈
    expired_market_plan c (due_in_day (cron_day (sc_now c)) hour minute) <$> seqZ 1 31 ∧
  op_periodKey (expired_market_plan c (due_in_day (cron_day (sc_now c)) hour minute) (cron_day (sc_now c) - cron_day x)) =
    formatCronDateKey x.
Proof.
  intros Hh Hm Hy Hx. split; [apply list_elem_of_fmap_2; apply elem_of_seqZ; lia|]. cbn [op_periodKey expired_market_plan].
  set (y := due_in_day _ _ _ - _). assert (y = day_start (cron_day x) + (hour * 3600000 + minute * 60000)) as Hyv.
  { unfold y, due_in_day, day_start, DAY, MS_PER_DAY. lia. }
  assert (cron_day y = cron_day x) as Hday by (rewrite Hyv; apply cron_day_of; unfold MS_PER_DAY; lia).
  apply cron_key_day; [|done|done]. unfold four_digit_year in *. unfold cron_day in Hday.
  assert (utc_year (shanghai y) = utc_year (shanghai x)) as ->; [|done]. unfold utc_year. by rewrite Hday.
Qed.
End daily.

Section registry_facts.
Context (enqueue : QueueRequest → result (option jsstr * option jsstr)).
Context (localOffset : Z → Z) (legacyParse : jsstr → option Z).
Context (localeCompare : jsstr → jsstr → Z) (fingerprint : json → jsstr).
Context (cfg : LiveLifecycle.LifecycleConfig).

Local Notation registry := (createSchedulerRegistry enqueue localOffset legacyParse localeCompare fingerprint cfg).
Local Notation checkpoints := (checkpoint_jobs enqueue).

Lemma registry_names : NoDup ((jd_name ∘ sj_definition) <$> registry).
Proof. apply (bool_decide_unpack _). vm_compute. exact I. Qed.

Lemma checkpoint_resolve job : job ∈ checkpoints → sj_resolve job = event_plans true.
Proof.
  intros Hj. assert (Forall (λ j, sj_resolve j = event_plans true) checkpoints) as Hall by (repeat constructor).
  rewrite Forall_forall in Hall. by apply Hall.
Qed.

Lemma checkpoint_registered job : job ∈ checkpoints → job ∈ registry.
Proof. intros Hj. unfold createSchedulerRegistry. rewrite !elem_of_app. tauto. Qed.

Lemma job_by_name job job' :
  job ∈ registry → job' ∈ registry → jd_name (sj_definition job) = jd_name (sj_definition job') → job = job'.
Proof. intros H H' Hn. by apply (NoDup_fmap_inj_in (jd_name ∘ sj_definition) registry _ _ registry_names). Qed.

Lemma registry_terminal_ok job : job ∈ registry → plans_terminal_ok job.
Proof.
  intros Hj. assert (Forall plans_terminal_ok registry) as Hall; [|rewrite Forall_forall in Hall; by apply Hall].
  unfold createSchedulerRegistry, checkpoint_jobs. cbn [app]. repeat (apply Forall_cons_2); [..|apply Forall_nil_2];
    intros c r plans plan; cbn [sj_resolve dailyDefinition eventDefinition periodicMaintenanceDefinition reconcileDefinition market_job];
    lazymatch goal with
    | |- daily_plans _ _ _ _ _ _ _ = _ → _ => apply daily_terminal
    | |- event_plans _ _ _ = _ → _ => apply event_terminal
    | |- periodic_plans _ _ _ _ = _ → _ => apply periodic_terminal
    | |- my_fpl_snapshot_plans _ _ _ _ = _ → _ => apply my_fpl_terminal
    | |- my_fpl_finalization_plans _ _ = _ → _ => apply my_fpl_final_terminal
    | |- post_match_plans _ _ _ _ = _ → _ => apply post_match_terminal
    | |- Ok [] = _ → _ => by intros <-%Ok_inj ?%elem_of_nil
    | |- _ => apply reconcile_plans_open; eexists; split; [reflexivity|]; intros c' r' p Hp; cbv beta zeta in Hp; plan_inv
    end.
Qed.

Lemma checkpoint_enqueue job :
  job ∈ checkpoints → ∃ name function source own, sj_enqueue job = event_enqueue enqueue name function source own.
Proof.
  intros Hj. assert (Forall (λ j, ∃ name function source own, sj_enqueue j = event_enqueue enqueue name function source own)
    checkpoints) as Hall by (repeat constructor; eexists _, _, _, _; reflexivity).
  rewrite Forall_forall in Hall. by apply Hall.
Qed.

Lemma find_job job :
  job ∈ registry → List.find (λ j, bool_decide (jd_name (sj_definition j) = jd_name (sj_definition job))) registry = Some job.
Proof.
  intros Hj. destruct (List.find _ registry) as [job'|] eqn:E.
  - apply find_some in E as [Hin Hn]. apply list_elem_of_In in Hin. apply bool_decide_eq_true in Hn.
    f_equal. by apply job_by_name.
  - apply find_none with (x := job) in E; [|by apply list_elem_of_In]. by rewrite bool_decide_eq_true_2 in E.
Qed.

(** A claim of a row hands out what the row holds. *)
Lemma claimed_row_of env limit leaseMs now owner locked table table' claimed claim row :
  NoDup (ob_obligationId <$> table) →
  claimSchedulerObligations env limit leaseMs now owner locked table = (table', Ok claimed) →
  claim ∈ claimed → row ∈ table → ob_obligationId claim = ob_obligationId row →
  is_final (ob_status row) = false ∧ ob_evidence claim = ob_evidence row ∧ ob_jobName claim = ob_jobName row.
Proof.
  intros Hnd H Hclaim Hrow Hid. apply claim_closed in H as (_ & _ & _ & ->); [|done].
  apply list_elem_of_fmap in Hclaim as (x & -> & Hx). apply elem_of_chosen in Hx as (Hin & Hc & _).
  assert (x = row) as -> by by apply (NoDup_fmap_inj_in ob_obligationId table).
  split; [by eapply claimable_not_final|done].
Qed.

(** C16: no gameweek is forgotten and none is taken early, however long the scheduler was down: after a pass, each of the eight
    checkpoint jobs has an obligation for a gameweek exactly when it had one before or the deadline passed half an hour ago,
    and never two. *)
Theorem checkpoints_follow_deadlines env r season clock now claimedAt settledAt uuid owner locked table table' result job row :
  runSchedulerPass registry env r clock now claimedAt settledAt uuid owner locked table = (table', Ok result) →
  findCurrent (sr_fpl r) = Ok season →
  NoDup (ob_obligationId <$> table) → NoDup (identity <$> table) → NoDup (event_id <$> ft_events (sr_fpl r)) →
  job ∈ checkpoints → row ∈ ft_events (sr_fpl r) → 0 < event_id row →
  let key := (jd_name (sj_definition job), event_scope (se_seasonCode season) (event_id row),
              js "event-" ++ print_int (event_id row)) in
  NoDup (identity <$> table') ∧
  (key ∈ identity <$> table' ↔
   key ∈ identity <$> table ∨ ∃ deadline, deadline_of row = Some deadline ∧ deadline + 30 * 60000 ≤ clock).
Proof.
  intros Hrun Hs Hids Hkeys Hevents Hjob Hrow Hpos key.
  apply (pass_grows registry) with (season := season) in Hrun as [Hg Hk]; [|apply registry_terminal_ok|done|done].
  set (c := resolveSchedulerContext _ _ _) in *. split; [by apply Hg|].
  assert (planned c r registry key ↔ ∃ deadline, deadline_of row = Some deadline ∧ deadline + 30 * 60000 ≤ clock) as Hp.
  { split.
    - intros (job' & plans & plan & Hin & Hres & Hplan & Hkey).
      pose proof (f_equal (λ k, k.1.1) Hkey : jd_name (sj_definition job) = jd_name (sj_definition job')) as Hname.
      pose proof (f_equal snd Hkey : js "event-" ++ print_int (event_id row) = op_periodKey plan) as Hperiod. clear Hkey.
      assert (job' = job) as -> by (apply job_by_name; [done|by apply checkpoint_registered|done]).
      rewrite checkpoint_resolve in Hres by done. apply (event_plans_spec c r plans) in Hplan; [|done].
      destruct Hplan as (id & deadline & He & Hle & ->). apply context_events in He as (row' & Hrow' & Hpos' & Hid & Hd).
      change (js "event-" ++ print_int (event_id row) = js "event-" ++ print_int id) in Hperiod.
      apply app_inv_head, print_int_inj in Hperiod; [|lia|lia].
      assert (row' = row) as -> by (apply (NoDup_fmap_inj_in event_id (ft_events (sr_fpl r))); [done..|congruence]).
      by exists deadline.
    - intros (deadline & Hd & Hle). exists job. eexists. eexists. split_and!.
      + by apply checkpoint_registered.
      + rewrite checkpoint_resolve by done. reflexivity.
      + apply (event_plans_spec c r _ eq_refl). exists (event_id row), deadline. split_and!; [|exact Hle|reflexivity].
        apply context_events. by exists row.
      + done. }
  rewrite <-Hp. split; [by apply Hg|]. intros [H|H]; [by eapply grows_key|by apply Hk].
Qed.

(** C17: a checkpoint job runs for the gameweek it was planned for: once the plan of a gameweek is reserved, then whatever
    schedulers and workers do, however often the obligation fails or is abandoned, and whichever gameweek is current by then,
    every claim of it asks the queue for that gameweek, under a job id of the obligation and its generation. *)
Theorem claimed_checkpoint_keeps_gameweek clock s s' job season planned_at fpl r plans plan now uuid table o env limit leaseMs
    claimed_at owner locked table' claimed claim c :
  rtc ob_step (mkSystem clock [] []) s → now ≤ sy_clock s →
  job ∈ checkpoints → sj_resolve job (resolveSchedulerContext season planned_at fpl) r = Ok plans → plan ∈ plans →
  plan_key (sj_definition job) plan ∉ identity <$> sy_table s →
  reserveSchedulerObligation now uuid (sj_definition job) plan (sy_table s) = (table, Ok o) →
  rtc ob_step (mkSystem (sy_clock s) table (sy_handed s)) s' →
  claimSchedulerObligations env limit leaseMs claimed_at owner locked (sy_table s') = (table', Ok claimed) →
  claim ∈ claimed → ob_obligationId claim = ob_obligationId o →
  ∃ q id, op_eventId plan = Some id ∧ 0 < id ∧ qr_eventId q = Some id ∧
    qr_obligationId q = ob_obligationId claim ∧ qr_generation q = ob_generation claim ∧
    qr_jobId q = scheduler_job_id (ob_obligationId claim) (ob_generation claim) ∧
    (enqueue_claimed registry c (sj_definition job) claim = handed enqueue q ∨
     enqueue_claimed registry c (sj_definition job) claim = handed_or_own enqueue q).
Proof.
  intros Hs Hnow Hjob Hres Hplan Hnew Hreserve Hs' Hclaim Hc Hid.
  rewrite checkpoint_resolve in Hres by done. apply (event_plans_spec _ r plans Hres) in Hplan.
  destruct Hplan as (id & deadline & He & _ & ->). apply context_events in He as (_ & _ & Hpos & _).
  set (plan := plan_at _ _ _ _ _ _) in *.
  assert (statement now (sy_table s) table) as Hst.
  { change table with (table, Ok o).1. rewrite <-Hreserve. apply st_reserve. }
  destruct (obligation_steps_sound _ _ Hs (sound_empty clock)) as [Hsound _].
  destruct (obligation_step_sound _ _ (ob_statement s now table Hnow Hst) Hsound) as [Hsound1 _].
  destruct (obligation_steps_sound _ _ Hs' Hsound1) as [Hsound' _].
  pose proof (steps_grow _ _ Hs' Hsound1) as Hgrow.
  set (row := new_obligation now uuid (sj_definition job) plan).
  assert (row ∈ table ∧ ob_obligationId o = ob_obligationId row) as [Hrow Ho].
  { unfold reserveSchedulerObligation in Hreserve. fold row in Hreserve. destruct (negb _); [done|].
    destruct (find_by _ _ _) as [old|] eqn:Hf.
    - apply find_by_Some in Hf as [Hin Hk]. destruct Hnew. change (plan_key (sj_definition job) plan) with (identity row).
      rewrite <-Hk. by apply list_elem_of_fmap_2.
    - case_bool_decide; [done|]. injection Hreserve as <- <-. split; [|done]. apply elem_of_app. right. by apply list_elem_of_singleton. }
  destruct (gr_rows _ _ _ Hgrow row Hrow) as (row' & Hrow' & Hevolves & Hkeeps).
  destruct (claimed_row_of _ _ _ _ _ _ _ _ _ claim row' (so_ids _ Hsound') Hclaim Hc Hrow') as (Hopen & Hev & Hname).
  { by rewrite Hid, Ho, (Obligations.ev_id _ _ Hevolves). }
  destruct (Hkeeps Hopen) as [Hevidence _].
  destruct (checkpoint_enqueue job Hjob) as (name & function & source & own & Henq).
  exists (request function source (Some id) [] (ob_obligationId claim) (ob_generation claim)), id.
  split_and!; [done..|]. unfold enqueue_claimed. rewrite find_job by by apply checkpoint_registered. rewrite Henq.
  unfold event_enqueue. assert (target_event c (plan_of_obligation claim) = Some id) as ->.
  { assert (ob_evidence claim = JObject [(js "targetEventId", JNumber (of_int id))]) as E by by rewrite Hev, Hevidence.
    unfold target_event, plan_of_obligation. rewrite E. cbn [op_eventId].
    assert (map_get (js "targetEventId") [(js "targetEventId", JNumber (of_int id))] = Some (JNumber (of_int id))) as ->
      by (vm_compute; reflexivity).
    replace (int_value (of_int id)) with id; [done|]. unfold int_value, of_int. cbn [Z.leb Z.compare]. rewrite Z.pow_0_r. lia. }
  unfold for_event. rewrite (proj2 (Z.eqb_neq id 0)) by lia. destruct own; [by right|by left].
Qed.

(** C18: an expired market day is never left for a replay: after a pass, the obligation of the daily market job of each of the
    31 days of Shanghai before exists and is closed, unless it was in flight when the pass began. *)
Theorem expired_market_days_close env r season clock now claimedAt settledAt uuid owner locked table table' result x :
  runSchedulerPass registry env r clock now claimedAt settledAt uuid owner locked table = (table', Ok result) →
  findCurrent (sr_fpl r) = Ok season → NoDup (ob_obligationId <$> table) →
  four_digit_year clock → four_digit_year x → cron_day clock - 31 ≤ cron_day x < cron_day clock →
  ∃ o, o ∈ table' ∧ identity o = (js "market-daily", se_seasonCode season, formatCronDateKey x) ∧
    (is_final (ob_status o) = true ∨
     ∃ old, old ∈ table ∧ identity old = identity o ∧ in_flight (ob_status old) = true).
Proof.
  intros Hrun Hs Hids Hclock Hx Hdays. unfold runSchedulerPass in Hrun. rewrite Hs in Hrun.
  set (c := resolveSchedulerContext _ _ _) in *. change clock with (sc_now c) in Hclock, Hdays.
  destruct (reserve_registry _ _ _ _ _ registry table) as [t1 [n|e]] eqn:E1; [|done].
  destruct (claimSchedulerObligations _ _ _ _ _ _ t1) as [t2 [claimed|e]] eqn:E2; [|done].
  destruct (dispatch_all _ _ _ _ _ t2 0 0) as [[t3 e3] f3] eqn:E3. injection Hrun as <- _.
  pose proof E1 as Hg. apply (reserve_registry_grows now uuid 0 c r registry registry) in Hg as [Hg _];
    [|intros j Hj; split; [done|by apply registry_terminal_ok]].
  apply (claim_grows (λ _, True)) in E2; [|by apply Hg]. apply (dispatch_all_grows (λ _, True)) in E3.
  destruct (expired_key c 9 25 x) as [Hin Hperiod]; [lia|lia|done|done|].
  set (plan := expired_market_plan _ _ _) in Hin, Hperiod.
  assert (closed_or_flying (js "market-daily", se_seasonCode season, formatCronDateKey x) table t1) as Hclosed.
  { rewrite <-Hperiod. change (_, _, _) with (plan_key (sj_definition (market_job enqueue localOffset legacyParse)) plan).
    eapply (reserve_registry_closes now uuid 0 c r registry table t1 n); [apply registry_terminal_ok|exact E1| | | |reflexivity].
    - do 2 apply list_elem_of_further. apply list_elem_of_here.
    - cbn [sj_resolve market_job dailyDefinition]. apply daily_plans_spec; [done|lia|lia].
    - rewrite decide_True by done. apply elem_of_app. left. exact Hin. }
  eapply closed_grows in Hclosed; [|exact E2]. eapply closed_grows in Hclosed; [|exact E3].
  destruct Hclosed as (o & Ho & Hk & Hor). exists o. split_and!; [done|done|]. by rewrite Hk.
Qed.
End registry_facts.

(** ** When the core publication is current *)

Section refresh.
Context (localeCompare : jsstr → jsstr → Z) `{!Comparator localeCompare}.


















End refresh.

(** ** A pass on the morning after a deadline *)

(** The deadline is 2025-08-15T17:30Z; the pass runs at 2025-08-16T02:00Z, ten in the morning of Shanghai. *)
Definition sample_scheduled : FplTables := {|
  ft_seasons := ft_seasons sample_tables;
  ft_events := [mkEventRow (sample_ev 1) (Some 1755279000000000) None None None None;
                mkEventRow (sample_ev 2) (Some 1755883800000000) None None None None];
  ft_teams := []; ft_players := []; ft_phases := []; ft_fixtures := [sample_fx 1 1 1]; ft_gameweeks := [];
  ft_items := []; ft_evidence := [] |}.

Definition sample_reads : SchedulerReads := mkReads sample_scheduled None false (λ _, false).
Definition sample_season_row : SeasonRow := mkSeason 2025 (js "2526") Preseason true [] None.
Definition sample_queue (q : QueueRequest) : result (option jsstr * option jsstr) := Ok (Some (qr_jobId q), None).
Definition sample_uuid (n : nat) : jsstr := js "u" ++ print_int (Z.of_nat n).

Local Notation sample_registry :=
  (createSchedulerRegistry sample_queue (λ _, 0) (λ _, None) compare_str (λ _, js "f") LiveLifecycle.default_config).
Local Notation sample_pass table :=
  (runSchedulerPass sample_registry None sample_reads 1755309600000 1755309600000000 1755309600000000 1755309600000000
     sample_uuid (js "o") [] table).

(** Everything that is due is handed to a queue: 20 obligations, 8 of them of gameweek 1; 31 market days are closed. *)
Example sample_run_counts :
  match sample_pass [] with
  | (table, Ok p) => Some (pr_reserved p, pr_claimed p, pr_enqueued p, pr_failed p,
      length (List.filter (λ o, bool_decide (ob_status o = Irrecoverable)) table),
      length (List.filter (λ o, bool_decide (ob_periodKey o = js "event-1")) table),
      length (List.filter (λ o, bool_decide (ob_periodKey o = js "event-2")) table))
  | _ => None
  end = Some (51%nat, 20%nat, 20, 0, 31%nat, 8%nat, 0%nat).
Proof. vm_compute. reflexivity. Qed.

Lemma sample_pass_ok : is_ok (sample_pass []).2 = true.
Proof. vm_compute. reflexivity. Qed.

Lemma sample_season : findCurrent (sr_fpl sample_reads) = Ok sample_season_row.
Proof. vm_compute. reflexivity. Qed.

Definition entry_picks_job : ScheduledJob :=
  eventDefinition "entry-picks" "post-deadline window" Checkpoint "entry-sync"
    (event_enqueue sample_queue "Entry picks" "enqueueEntryPicksSyncJob" "catchup" false).

Lemma checkpoints_follow_deadlines_witness :
  ∃ table' result, sample_pass [] = (table', Ok result) ∧
    (js "entry-picks", js "2526:event:1", js "event-1") ∈ identity <$> table'.
Proof.
  pose proof sample_pass_ok as Hok. destruct (sample_pass []) as [table' [result|e]] eqn:E; [|discriminate Hok].
  exists table', result. split; [reflexivity|].
  destruct (checkpoints_follow_deadlines sample_queue (λ _, 0) (λ _, None) compare_str (λ _, js "f")
    LiveLifecycle.default_config None sample_reads sample_season_row 1755309600000 1755309600000000 1755309600000000
    1755309600000000 sample_uuid (js "o") [] [] table' result entry_picks_job
    (mkEventRow (sample_ev 1) (Some 1755279000000000) None None None None) E sample_season) as [_ [_ Hkey]].
  - constructor.
  - constructor.
  - apply (bool_decide_unpack _). vm_compute. exact I.
  - apply list_elem_of_here.
  - apply list_elem_of_here.
  - reflexivity.
  - apply Hkey. right. exists 1755279000000. split; [vm_compute; reflexivity|]. vm_compute. discriminate.
Defined.

Lemma sample_day_years : four_digit_year 1755309600000 ∧ four_digit_year 1755200000000.
Proof. unfold four_digit_year. split; split; vm_compute; discriminate. Qed.

Lemma expired_market_days_close_witness :
  ∃ table' result o, sample_pass [] = (table', Ok result) ∧ o ∈ table' ∧
    identity o = (js "market-daily", js "2526", formatCronDateKey 1755200000000) ∧ is_final (ob_status o) = true.
Proof.
  pose proof sample_pass_ok as Hok. destruct (sample_pass []) as [table' [result|e]] eqn:E; [|discriminate Hok].
  destruct sample_day_years as [Hc Hx].
  destruct (expired_market_days_close sample_queue (λ _, 0) (λ _, None) compare_str (λ _, js "f")
    LiveLifecycle.default_config None sample_reads sample_season_row 1755309600000 1755309600000000 1755309600000000
    1755309600000000 sample_uuid (js "o") [] [] table' result 1755200000000 E sample_season) as (o & Ho & Hk & Hor).
  - constructor.
  - exact Hc.
  - exact Hx.
  - vm_compute. split; [discriminate|reflexivity].
  - exists table', result, o. split; [reflexivity|]. split; [exact Ho|]. split; [exact Hk|].
    destruct Hor as [Hf|(old & Hold & _)]; [exact Hf|]. exfalso. exact (not_elem_of_nil _ Hold).
Defined.

(** The picks of gameweek 1 are claimed when gameweek 2 is current. *)
Definition sample_event_plan : SchedulerObligationPlan :=
  plan_at (js "2526:event:1") (js "event-1") 1755280800000 SourceCatchup (Some 1) None.
Definition sample_later : SchedulerContext := mkContext 1755900000000 2025 (js "2526") (Some 2) (Some 1755883800000) [].
Definition sample_reserved : Table :=
  Eval vm_compute in (reserveSchedulerObligation 1 (js "u") (sj_definition entry_picks_job) sample_event_plan []).1.
Definition sample_obligation : Obligation :=
  Eval vm_compute in match sample_reserved with o :: _ => mapRow o | [] => new_obligation 0 [] (sj_definition entry_picks_job) sample_event_plan end.

Lemma claimed_checkpoint_keeps_gameweek_witness :
  ∃ q, qr_eventId q = Some 1 ∧
    (enqueue_claimed sample_registry sample_later (sj_definition entry_picks_job)
       (mapRow (claim_of (js "o") 1755900000000000 1755900900000000 sample_obligation)) = handed sample_queue q ∨
     enqueue_claimed sample_registry sample_later (sj_definition entry_picks_job)
       (mapRow (claim_of (js "o") 1755900000000000 1755900900000000 sample_obligation)) = handed_or_own sample_queue q).
Proof.
  destruct (claimed_checkpoint_keeps_gameweek sample_queue (λ _, 0) (λ _, None) compare_str (λ _, js "f")
    LiveLifecycle.default_config 1 (mkSystem 1 [] []) (mkSystem 1 sample_reserved []) entry_picks_job (2025, js "2526")
    1755309600000 sample_scheduled sample_reads [sample_event_plan] sample_event_plan 1 (js "u") sample_reserved sample_obligation
    None None None 1755900000000000 (js "o") [] [claim_of (js "o") 1755900000000000 1755900900000000 sample_obligation]
    [mapRow (claim_of (js "o") 1755900000000000 1755900900000000 sample_obligation)]
    (mapRow (claim_of (js "o") 1755900000000000 1755900900000000 sample_obligation)) sample_later)
    as (q & id & Hid & _ & Hq & _ & _ & _ & Hor).
  - apply rtc_refl.
  - reflexivity.
  - apply list_elem_of_here.
  - vm_compute. reflexivity.
  - apply list_elem_of_here.
  - apply not_elem_of_nil.
  - vm_compute. reflexivity.
  - apply rtc_refl.
  - vm_compute. reflexivity.
  - apply list_elem_of_here.
  - reflexivity.
  - exists q. injection Hid as <-. split; [exact Hq|exact Hor].
Defined.


